(* ===== verification/_CoqProject ===== *)
-Q . S2P
Prelude.v
Frame.v
ProtoWire.v
Proto.v
ProtoThm.v
Envelope.v
GoStrings.v
ConnLink.v
Acceptor.v
Inner.v
NodeLink.v
NodeLinkThm.v
Redis.v
Registry.v
RegistryThm.v
Routes.v
RoutesThm.v
Drain.v
Replay.v
Session.v
SessionManager.v
Connector.v
ConnectorThm.v
LogicHandler.v
LogicThm.v
GatewayConn.v
GatewayThm.v
Timer.v
TimerHeap.v
TimerThm.v
Wal.v
Storage.v
StorageThm.v
Config.v
Obs.v
MemStore.v
StoreOps.v
SqlStore.v
SqlThm.v
StoreDb.v
RedisStore.v
Profile.v
Players.v
PlayersThm.v
Admin.v
Match.v
MatchRedis.v
Bot.v
BotThm.v
Actor.v
ActorTimer.v
ActorThm.v
Router.v
RouterThm.v
RoomCtx.v
Room.v
RoomThm.v
DdzCards.v
Doudizhu.v
DoudizhuInv.v
DoudizhuGame.v
Scenarios.v
BotTable.v
BotGame.v
CardGame.v
CardGameInv.v
Quiz.v
Snake.v
SnakeInv.v
GameRooms.v
BotRun.v
RoomManager.v
RoomManagerThm.v
MatchRoom.v
BotMatch.v
Server.v
ServerThm.v
ClusterLink.v
Assembly.v
