(* ===== verification/Prelude.v ===== *)
(** * A verification of the rangame server

    The program is a Go server for small multiplayer games.  Clients send
    length-prefixed frames; a router finds the route of a frame, decodes the
    request and hands it to the actor of the player or of the room; rooms run
    the logic of a game and push notifications back through the players'
    sessions, which buffer what a disconnected client misses.  Around that are a
    matchmaker, a timer scheduler and a storage layer that writes back
    asynchronously.  The server runs alone, or split into gateways that keep the
    client connections and logic nodes that keep the sessions, with links between
    the nodes and a registry, routes and queues in Redis.  The development models
    these parts as executable functions over the data the code has, keeps run-time
    panics, integer widths and error results visible, and proves what makes each
    part correct.

    ** Files, in dependency order, and the code they model

    - Prelude: outcomes of Go code ([res]), index and slice expressions, machine
      integers, list lemmas, the hint databases and tactics of the development.
    - Frame (internal/transport/frame.go): the frame codec and the read loop.
    - ProtoWire, Proto, ProtoThm (internal/protocol/codec_proto.go): the
      reflective protobuf codec over trees of values; the wire primitives are
      the class [Protowire] with laws, [wire] an instance.
    - Envelope (internal/protocol/codec.go, envelope.go; pkg/framework/errcode.go):
      codec registry, response envelopes, error codes.
    - GoStrings: what the node code uses of the packages strings and strconv.
    - ConnLink (internal/transport/acceptor_tcp.go, acceptor_ws.go and nodeConn of
      internal/gateway/node_transport.go): Push, Close, Read and the aggregating
      write loop of the three kinds of connection, as one step relation.
    - Acceptor (internal/transport/acceptor_ws.go): the origin check and the way
      of a connection from its upgrade to the accept loop.
    - Inner (internal/gateway/gateway.go): headers of forwarded frames, envelopes
      and the read loop of a link.
    - NodeLink, NodeLinkThm (internal/gateway/node_transport.go): the TCP transport
      between nodes, its maps and the goroutines that dial, forward, reconnect,
      remove and close.
    - Redis: the commands the program sends, as a class with their documented
      laws, and an instance.
    - Registry, RegistryThm (internal/cluster/registry.go): the in-process and the
      Redis registry of nodes.  A call changes the table under the lock and
      publishes afterwards: two steps, with other calls in between.
    - Routes, RoutesThm (internal/gateway/gateway.go, route_redis.go): the route
      table as a class, its in-process instance, and the shared table with its
      scripts and caches.
    - Drain (internal/cluster/drain.go; internal/app/role.go): the drain
      controller and the heartbeat loop.
    - Replay, Session, SessionManager (internal/session): ring of reliable
      frames, snapshot cache, logical sessions, and the three indexes over them.
      The releases of a sweep and the second half of a reconnect are steps of
      their own; [Sweep] and [Reconnect] are the calls that nothing interrupts.
    - Connector, ConnectorThm (internal/app/connector.go,
      internal/session/messages.go): handshake, message loop and end of a client
      connection, over the session manager.
    - LogicHandler, LogicThm (internal/app/logic_handler.go,
      internal/session/remote_conn.go): the same on a logic node, over any route
      table.
    - GatewayConn, GatewayThm (internal/app/gateway_connector.go): client
      connections of a gateway, their blocking requests and the downlink.
    - Timer, TimerHeap, TimerThm (internal/timer): the heap of tasks with
      container/heap written out, the scheduler's loop as a state machine that
      other goroutines interleave with, the manual clock.
    - Wal (internal/storage/wal.go): the write-ahead log as the bytes of a file
      on a disk that may tear writes ([OS]).
    - Storage, StorageThm (internal/storage/breaker.go, managed.go): per-table
      breakers, queue, worker, replay and close as one interleaved system over
      an arbitrary [Backend].
    - Config (internal/config/config.go, Build of internal/app/server.go,
      internal/app/storage_wire.go): the configuration, its validation and what
      the components are built with.
    - Obs (internal/obs): histograms, metrics registry, Prometheus export.
    - MemStore (internal/storage/memory.go) and Profile (profile.go,
      profile_query.go): the storage interface with its law, the in-memory
      instance with its rankings, and player profiles proved against the law.
    - StoreOps (internal/storage/backend.go): the calls of a backend as data, with
      the memory store as reference, and what a run with failing calls may answer
      ([explains]).  SqlStore, SqlThm (internal/storage/sqlstore)
      and RedisStore (internal/storage/redisstore): the two backends over a
      database and a Redis client with laws.  StoreDb: the write-back store over
      the SQL backend.
    - Players, PlayersThm (internal/app/server.go, profile_patch.go): the actors
      of the players and the routing of profile patches to them.
    - Admin (internal/admin/admin.go): the administration interface.
    - Match (internal/match/match.go and its handlers in internal/app/server.go):
      the matcher over a room service whose calls may fail to return
      ([RoomsAnswer] says that they do); MatchRedis
      (internal/cluster/match_redis.go): the matcher over Redis.
    - Bot, BotThm (bench/bot/bot.go): the benchmark client, its handshakes, its
      requests and its receive loop, with the read limit of its connection.
    - Actor, ActorThm (internal/actor): registry, mailboxes, run loop,
      supervision, stop; the behaviour of an actor is a parameter.  Runs are
      labelled with what was sent and what a process was given.  ActorTimer:
      the timers actors set, on the Go runtime.
    - Router, RouterThm (internal/router; internal/transport/ratelimit.go):
      routes, middleware, dispatch, the closure run in the actor; the engine is
      seen through the class [Dispatcher], of which Actor is an instance.
    - RoomCtx, Room, RoomThm (internal/room/room.go; pkg/framework/room.go): what
      a game sees of its room, and the room actor over any [RoomLogic].
    - DdzCards, Doudizhu, DoudizhuInv, DoudizhuGame (games/doudizhu); CardGame,
      CardGameInv (games/card); Quiz (games/quiz); Snake, SnakeInv (games/snake).
    - Scenarios, BotTable, BotGame, BotRun (bench/bot/scenarios.go): the players
      of the benchmark, three of them at a doudizhu table with every delay
      between room and players, and what comes of it.
    - GameRooms: the four games as instances of [RoomLogic], so that the
      theorems about rooms apply to them.
    - RoomManager, RoomManagerThm (the Manager of internal/room/room.go): rooms as
      processes of the actor engine.  MatchRoom: the manager as the room service
      the matcher calls.  BotMatch: matcher, manager, room, game and players
      together.
    - Server, ServerThm (internal/app/server.go, games/*/module.go,
      cmd/server/main.go): the modules, the tables Build fills, the answer to a
      match, the order of the shutdown.
    - ClusterLink (internal/app/role.go): the links of a node that follow the
      registry.  Assembly (cmd/server/main.go): what a configuration assembles.

    ** How state and effects are modelled

    A struct is a record, a Go map a [gmap] (or a list in the order a run iterates
    it, when the order can show), a shared object a pointer into an arena.  A
    method is a function from the state to its results and the state; what can
    panic is in [res].  Mutex-protected sections are atomic; goroutines are step
    relations whose steps are those sections, and theorems quantify over all
    reachable states.  A call that waits for ever has an outcome of its own
    ([Blocks], [Hang], or [OutOfFuel] where a result is in [res]).  Notifications,
    storage calls and session calls of a game are events in the order they happen.
    Libraries and I/O are classes or parameters: protowire, encoding/json, the
    operating system, Redis, the remote backend, the codec of a connection, the
    outcome of a network call.

    ** What the theorems show

    - Encodings round-trip: frames and streams of frames, protobuf messages
      (also for readers that know fewer fields), envelopes between nodes, the log
      across a restart.
    - Connections: the peer sees a prefix of what was pushed, in order; a link
      between nodes hands over what was forwarded, at most once per call and under
      the sender's name.
    - Sessions: a reconnect replays exactly what the client missed or says that
      it cannot; the indexes of the manager agree; only frames of authenticated
      connections reach the router, with the session the connection is bound to.
    - The split server: a gateway passes frames only to connections that asked for
      the player; routes and sessions of a logic node agree; a login from end to
      end.  Registry, routes and queues in Redis refine their in-process versions
      as far as they do.
    - Timers: never early, never twice, gone when cancelled, and never slept
      through.  Actors: first in first out, bounded mailboxes, supervision,
      graceful stop.  Router: every request is delivered to the right actor or
      answered once; panics of handlers become answers.
    - Storage: no accepted write disappears; breakers do not get stuck; rankings
      are a stretch of the one right order; patches commute, and none is lost
      while the actor of its player lives.
    - Rooms and games: membership and session bookkeeping; cards are conserved
      and hands private, only legal plays are applied, every finished game is
      settled, no reachable step panics while the game is on; the boards and
      scores of the other games stay well formed.
    - The backends: SQLite and Redis answer as the memory store does, where they
      do, whichever calls report an error; where they do not is proved as well.
      Whatever queue, log, worker and Close do, the database holds for each key
      the last write that reached it.
    - From end to end: three match requests become a room, a game and one result
      all players agree on; what the client encodes the assembled server decodes
      as the same request; the manager's count and names are those of the rooms
      that run; the links of a node are to the active nodes of the in-process
      registry.
    - Configuration and administration: an accepted configuration reaches the
      components as written; the administration interface is closed to others.
    Theorems whose comment starts with "Finding" prove behaviour that departs
    from what the code's own comments promise or that loses work; a theorem that
    excludes such a behaviour names it in its comment.

    ** Bounds

    Fuel is only used where Go recurses or loops without a structural measure,
    and each bound is proved to be enough for the states the theorems speak of:
    170 for the chain of automatic plays of a doudizhu game (each play takes a
    card or passes, and at most two passes follow a play of at most 54), 10 for
    a chain of automatic bids with its redeals, one more than the bytes left for
    the protobuf decoder and for the read loops of a link and of the client, the
    number of slots for the heap loops, three steps for a room to handle a message
    and end its batch.  Times are unbounded integers of nanoseconds; counters and
    hashes wrap at their width.

    ** Not modelled

    Listening and dialling, TLS, HTTP upgrades, logging, profiling and trace
    identifiers, flags, signals and printed reports.  Within modelled files: the
    waiting part of Shutdown, the drawing of room ids, the retries of the Redis
    client (its laws speak of commands that run once), the MySQL dialect beyond
    the statements it sends (the laws are those of SQLite), and the JSON codec,
    which only calls encoding/json.  The links that follow the registry are proved
    for the in-process one; the Redis registry, whose entries also expire without
    an event, has only its own theorems.  The theorem about three players assumes
    that no turn timer runs out, and MatchRoom lets a room handle what it was sent
    before the matcher goes on; RoomManagerThm interleaves them freely. *)

From stdpp Require Export base tactics numbers list gmap strings sorting.
From Stdlib Require Export ZArith Lia.

#[global] Open Scope Z_scope.

(** ** Outcomes of Go code

    A Go function that can abort is modelled in [res]: [Panic] is a run-time
    panic (index out of range, nil dereference), [OutOfFuel] marks a bounded
    recursion whose bound was too small. *)
Inductive res (A : Type) : Type :=
| Ok (a : A)
| Panic
| OutOfFuel.
Arguments Ok {A} a.
Arguments Panic {A}.
Arguments OutOfFuel {A}.

Definition rbind {A B} (m : res A) (k : A → res B) : res B :=
  match m with
  | Ok a => k a
  | Panic => Panic
  | OutOfFuel => OutOfFuel
  end.

Declare Scope go_scope.
Delimit Scope go_scope with go.
Notation "'let!' x := m 'in' k" := (rbind m (fun x => k))
  (at level 10, x pattern, k at level 200) : go_scope.
#[global] Open Scope go_scope.

(** [run r P]: the computation returns, and the result satisfies [P]. *)
Definition run {A} (r : res A) (P : A → Prop) : Prop :=
  match r with Ok a => P a | _ => False end.

Lemma run_Ok {A} (a : A) (P : A → Prop) : P a → run (Ok a) P.
Proof. done. Qed.

Lemma run_bind {A B} (m : res A) (k : A → res B) (P : A → Prop) (Q : B → Prop) :
  run m P → (∀ a, P a → run (k a) Q) → run (rbind m k) Q.
Proof. destruct m; simpl; naive_solver. Qed.

Lemma run_mono {A} (m : res A) (P Q : A → Prop) :
  run m P → (∀ a, P a → Q a) → run m Q.
Proof. destruct m; simpl; naive_solver. Qed.

Lemma run_exists {A} (m : res A) (P : A → Prop) :
  run m P ↔ ∃ a, m = Ok a ∧ P a.
Proof. destruct m; simpl; naive_solver. Qed.

(** An index expression [l[i]] of Go: panics outside the slice. *)
Definition index {A} (l : list A) (i : Z) : res A :=
  if decide (0 ≤ i) then
    match l !! Z.to_nat i with Some a => Ok a | None => Panic end
  else Panic.

(** A slice expression [l[i:j]] of Go, on a slice whose capacity is its
    length: panics unless [0 <= i <= j <= len]. *)
Definition slice {A} (l : list A) (i j : Z) : res (list A) :=
  if decide (0 ≤ i ∧ i ≤ j ∧ j ≤ Z.of_nat (length l)) then
    Ok (take (Z.to_nat (j - i)) (drop (Z.to_nat i) l))
  else Panic.

(** [len l] as the Go int. *)
Definition zlen {A} (l : list A) : Z := Z.of_nat (length l).

Lemma zlen_nonneg {A} (l : list A) : 0 ≤ zlen l.
Proof. unfold zlen; lia. Qed.

Lemma zlen_nil {A} : zlen (@nil A) = 0.
Proof. done. Qed.

Lemma zlen_cons {A} (x : A) l : zlen (x :: l) = zlen l + 1.
Proof. unfold zlen; simpl; lia. Qed.

Lemma zlen_app {A} (l k : list A) : zlen (l ++ k) = zlen l + zlen k.
Proof. unfold zlen; rewrite length_app; lia. Qed.

Lemma zlen_snoc {A} (l : list A) x : zlen (l ++ [x]) = zlen l + 1.
Proof. rewrite zlen_app; done. Qed.

Lemma zlen_0 {A} (l : list A) : zlen l = 0 → l = [].
Proof. destruct l; unfold zlen; simpl; [done|lia]. Qed.

#[global] Instance zlen_Permutation {A} : Proper ((≡ₚ) ==> (=)) (@zlen A).
Proof. intros l k H. unfold zlen. by rewrite H. Qed.

Lemma index_Some {A} (l : list A) i x : index l i = Ok x → 0 ≤ i < zlen l ∧ l !! Z.to_nat i = Some x.
Proof.
  unfold index, zlen. case_decide; [|done]. destruct (l !! Z.to_nat i) eqn:E; [|done].
  intros [= ->]. split; [|done]. apply lookup_lt_Some in E. lia.
Qed.

Lemma index_in_range {A} (l : list A) i :
  0 ≤ i < zlen l → ∃ x, l !! Z.to_nat i = Some x ∧ index l i = Ok x.
Proof.
  unfold index, zlen; intros ?.
  destruct (lookup_lt_is_Some_2 l (Z.to_nat i)) as [x Hx]; [lia|].
  exists x. rewrite decide_True by lia. by rewrite Hx.
Qed.

Lemma index_lookup {A} (l : list A) (n : nat) x :
  l !! n = Some x → index l (Z.of_nat n) = Ok x.
Proof. intros H. unfold index. rewrite decide_True by lia. by rewrite Nat2Z.id, H. Qed.

Lemma slice_range {A} (l : list A) i j :
  0 ≤ i → i ≤ j → j ≤ zlen l →
  slice l i j = Ok (take (Z.to_nat (j - i)) (drop (Z.to_nat i) l)).
Proof. intros. unfold slice, zlen in *. by rewrite decide_True by lia. Qed.

(** ** Machine integers *)

(** Two's-complement wrap of a Go [int64] (and of [int] on a 64-bit target). *)
Definition wrap_i64 (z : Z) : Z := (z + 2^63) mod 2^64 - 2^63.
(** Conversion to [uint64], [uint32], [uint16] and [byte]. *)
Definition to_u64 (z : Z) : Z := z mod 2^64.
Definition to_u32 (z : Z) : Z := z mod 2^32.
Definition to_u16 (z : Z) : Z := z mod 2^16.
Definition to_u8 (z : Z) : Z := z mod 2^8.

Lemma wrap_i64_range z : - 2^63 ≤ wrap_i64 z < 2^63.
Proof. unfold wrap_i64. pose proof (Z.mod_pos_bound (z + 2^63) (2^64)). lia. Qed.

Lemma wrap_i64_id z : - 2^63 ≤ z < 2^63 → wrap_i64 z = z.
Proof. intros. unfold wrap_i64. rewrite Z.mod_small; lia. Qed.

Lemma to_u8_range z : 0 ≤ to_u8 z < 256.
Proof. unfold to_u8. apply Z.mod_pos_bound. lia. Qed.

Lemma to_u8_id z : 0 ≤ z < 256 → to_u8 z = z.
Proof. intros. unfold to_u8. by apply Z.mod_small. Qed.

Lemma to_u32_id z : 0 ≤ z < 2^32 → to_u32 z = z.
Proof. intros. unfold to_u32. by apply Z.mod_small. Qed.

Definition is_byte (b : Z) : Prop := 0 ≤ b < 256.
Definition is_u16 (z : Z) : Prop := 0 ≤ z < 2^16.
Definition is_u32 (z : Z) : Prop := 0 ≤ z < 2^32.

(** The linear congruential step every game uses for its pseudo-random
    sequence: [seed*1103515245 + 12345] on [int64]. *)
Definition lcg (seed : Z) : Z := wrap_i64 (wrap_i64 (seed * 1103515245) + 12345).

(** ** Lists *)

(** Number of occurrences. *)
Definition count {A} `{EqDecision A} (x : A) (l : list A) : nat :=
  length (filter (fun y => y = x) l).

Lemma count_app {A} `{EqDecision A} (x : A) l k : count x (l ++ k) = (count x l + count x k)%nat.
Proof. unfold count. by rewrite filter_app, length_app. Qed.

Lemma count_perm {A} `{EqDecision A} (x : A) l k : l ≡ₚ k → count x l = count x k.
Proof. intros H. unfold count. by rewrite H. Qed.

(** The Go idiom that removes the first occurrence of [x]:
    [for i, u := range l { if u == x { l = append(l[:i], l[i+1:]...); break } }]. *)
Fixpoint remove_first {A} `{EqDecision A} (x : A) (l : list A) : list A :=
  match l with
  | [] => []
  | y :: l' => if decide (y = x) then l' else y :: remove_first x l'
  end.

Lemma remove_first_notin {A} `{EqDecision A} (x : A) l : x ∉ l → remove_first x l = l.
Proof.
  induction l as [|y l IH]; simpl; [done|]. rewrite not_elem_of_cons. intros [? ?].
  rewrite decide_False by done. by rewrite IH.
Qed.

Lemma remove_first_filter {A} `{EqDecision A} (x : A) l :
  NoDup l → remove_first x l = filter (.≠ x) l.
Proof.
  induction 1 as [|y l Hy Hl IH]; simpl; [done|]. case_decide as E.
  - subst y. rewrite filter_cons_False by naive_solver.
    clear IH. induction l as [|z l IH]; [done|].
    rewrite not_elem_of_cons in Hy. destruct Hy. inversion_clear Hl.
    rewrite filter_cons_True by naive_solver. f_equal. eauto.
  - rewrite filter_cons_True by done. by rewrite IH.
Qed.

Lemma elem_of_remove_first {A} `{EqDecision A} (x y : A) l :
  NoDup l → y ∈ remove_first x l ↔ y ∈ l ∧ y ≠ x.
Proof. intros. rewrite remove_first_filter by done. rewrite list_elem_of_filter. naive_solver. Qed.

Lemma NoDup_remove_first {A} `{EqDecision A} (x : A) l : NoDup l → NoDup (remove_first x l).
Proof. intros. rewrite remove_first_filter by done. by apply NoDup_filter. Qed.

Lemma length_remove_first {A} `{EqDecision A} (x : A) l :
  x ∈ l → length l = S (length (remove_first x l)).
Proof.
  induction l as [|y l IH]; simpl; [by rewrite elem_of_nil|].
  rewrite elem_of_cons. case_decide; [done|]. intros [->|?]; [done|]. simpl. f_equal. auto.
Qed.

Lemma filter_all {A} (P : A → Prop) `{∀ x, Decision (P x)} l : Forall P l → filter P l = l.
Proof. induction 1 as [|x l Hx _ IH]; [done|]. rewrite filter_cons_True by done. by rewrite IH. Qed.

Lemma filter_none {A} (P : A → Prop) `{∀ x, Decision (P x)} l : Forall (λ x, ¬ P x) l → filter P l = [].
Proof. induction 1 as [|x l Hx _ IH]; [done|]. by rewrite filter_cons_False by done. Qed.

(** The keys of a map listed once each. *)
Lemma size_of_order {A} (os : list string) (ps : gmap string A) :
  NoDup os → (∀ u, u ∈ os ↔ is_Some (ps !! u)) → size ps = length os.
Proof.
  intros Hnd Hdom. rewrite <- (size_dom (D := gset string)).
  assert (dom ps = (list_to_set os : gset string)) as ->.
  { apply set_eq. intros u. by rewrite elem_of_dom, elem_of_list_to_set, Hdom. }
  by apply size_list_to_set.
Qed.

(** Membership test on a list, as the boolean the code branches on. *)
Definition mem {A} `{EqDecision A} (x : A) (l : list A) : bool := bool_decide (x ∈ l).

(** ** Reachability *)

(** A property every step keeps holds of every state reached. *)
Lemma rtc_keeps {A} (R : relation A) (P : A → Prop) x y :
  (∀ a b, R a b → P a → P b) → rtc R x y → P x → P y.
Proof. intros HP. induction 1 as [|a b c Hab _ IH]; [done|]. intros Ha. apply IH. by eapply HP. Qed.

(** A measure that every step lowers: no run goes on for ever. *)
Lemma measure_sn {A} (R : relation A) (f : A → nat) x : (∀ a b, R a b → (f b < f a)%nat) → sn R x.
Proof.
  intros HR. remember (f x) as n eqn:E. revert x E. induction (lt_wf n) as [n _ IH]. intros x ->.
  constructor. intros y Hy. eapply IH; [|done]. by apply HR.
Qed.

(** ** Automation *)

Create HintDb game.
Create Rewrite HintDb zlen.
#[export] Hint Resolve zlen_nonneg wrap_i64_range to_u8_range NoDup_remove_first run_Ok : game.
#[export] Hint Rewrite @zlen_nil @zlen_cons @zlen_app : zlen.

(** Normalise list lengths and decide linear goals. *)
Ltac zlia := autorewrite with zlen in *; unfold zlen in *; cbn [length] in *; lia.

(** Case analysis on the conditionals of the goal, closing the impossible ones. *)
Ltac split_ifs :=
  repeat match goal with
  | |- context [if decide ?P then _ else _] => destruct (decide P); try lia; try done
  | |- context [if ?b then _ else _] => destruct b eqn:?; try done
  end.
