(* ===== verification/Frame.v ===== *)
(** * Frame codec of the transport layer (internal/transport/frame.go)

    The wire format is [len:4][ver:1][msgID:4][flag:1][seq:4][routeLen:2 route]?[body].
    Bytes are [Z] in [0,256); slices and index expressions carry the run-time
    checks of Go, so that a malformed frame could in principle panic: the
    theorems show that it never does. *)

From S2P Require Import Prelude.

(** ** Constants *)
Definition ProtocolVer : Z := 1.
Definition FlagCodecMask : Z := 0x0F.
Definition FlagSnapshot : Z := 0x40.
Definition FlagRoute : Z := 0x80.
Definition DefaultMaxFrame : Z := 64 * 1024.
Definition lenFieldSize : Z := 4.
Definition headerFixedLen : Z := 1 + 4 + 1 + 4.
Definition routeLenSize : Z := 2.

Record Frame := mkFrame {
  Ver : Z;
  MsgID : Z;
  Flag : Z;
  Seq : Z;
  Route : list Z;
  Body : list Z }.

(** [io.EOF] and [io.ErrUnexpectedEOF] come from [io.ReadFull]. *)
Inductive frame_err :=
| ErrFrameTooLarge
| ErrBadFrame
| ErrEOF
| ErrUnexpectedEOF.

Definition CodecType (f : Frame) : Z := Z.land (Flag f) FlagCodecMask.
Definition IsSnapshot (f : Frame) : bool := negb (Z.land (Flag f) FlagSnapshot =? 0).

(** encoding/binary, big endian. *)
Definition PutUint32 (v : Z) : list Z :=
  [to_u8 (Z.shiftr v 24); to_u8 (Z.shiftr v 16); to_u8 (Z.shiftr v 8); to_u8 v].
Definition PutUint16 (v : Z) : list Z := [to_u8 (Z.shiftr v 8); to_u8 v].
Definition Uint32 (b : list Z) : res Z :=
  match b with
  | b0 :: b1 :: b2 :: b3 :: _ => Ok (b0 * 2^24 + b1 * 2^16 + b2 * 2^8 + b3)
  | _ => Panic
  end.
Definition Uint16 (b : list Z) : res Z :=
  match b with b0 :: b1 :: _ => Ok (b0 * 2^8 + b1) | _ => Panic end.

Definition set_flag (f : Frame) (v : Z) : Frame :=
  mkFrame (Ver f) (MsgID f) v (Seq f) (Route f) (Body f).

(** EncodeFrame writes the route bit back into the caller's frame: the first
    component is the frame after the call. *)
Definition EncodeFrame (f : Frame) : Frame * (frame_err + list Z) :=
  if decide (zlen (Route f) > 65535) then (f, inl ErrBadFrame) else
  let payloadLen := headerFixedLen + zlen (Body f) in
  let '(f', payloadLen) :=
    if decide (Route f ≠ []) then
      (set_flag f (Z.lor (Flag f) FlagRoute), payloadLen + (routeLenSize + zlen (Route f)))
    else (set_flag f (Z.ldiff (Flag f) FlagRoute), payloadLen) in
  if decide (to_u64 payloadLen > 0xFFFFFFFF) then (f', inl ErrFrameTooLarge) else
  (f', inr (PutUint32 payloadLen ++ [Ver f'] ++ PutUint32 (MsgID f') ++ [Flag f'] ++
            PutUint32 (Seq f') ++
            (if decide (Route f' ≠ []) then PutUint16 (to_u16 (zlen (Route f'))) ++ Route f' else []) ++
            Body f')).

(** [io.ReadFull] on a reader holding the bytes [r] (end of stream after them). *)
Definition ReadFull (r : list Z) (n : Z) : (frame_err + list Z) * list Z :=
  if decide (zlen r >= n) then (inr (take (Z.to_nat n) r), drop (Z.to_nat n) r)
  else if decide (r = []) then (inl ErrEOF, [])
  else (inl ErrUnexpectedEOF, []).

(** The header and body of a payload that was read in full. *)
Definition parsePayload (payload : list Z) (payloadLen : Z) : res (frame_err + Frame) :=
  let! ver := index payload 0 in
  let! b := slice payload 1 5 in
  let! msgid := Uint32 b in
  let! flag := index payload 5 in
  let! b := slice payload 6 10 in
  let! seq := Uint32 b in
  let pos := 10 in
  let f := mkFrame ver msgid flag seq [] [] in
  if decide (payloadLen - pos > 0) then
    if decide (Z.land flag FlagRoute ≠ 0) then
      let rest := payloadLen - pos in
      if decide (rest < routeLenSize) then Ok (inl ErrBadFrame) else
      let! b := slice payload pos (pos + 2) in
      let! routeLen := Uint16 b in
      let pos := pos + routeLenSize in
      if decide (routeLen > rest - routeLenSize) then Ok (inl ErrBadFrame) else
      let! route := slice payload pos (pos + routeLen) in
      let! body := slice payload (pos + routeLen) (zlen payload) in
      Ok (inr (mkFrame ver msgid flag seq route body))
    else
      let! body := slice payload pos (zlen payload) in
      Ok (inr (mkFrame ver msgid flag seq [] body))
  else if decide (Z.land flag FlagRoute ≠ 0) then Ok (inl ErrBadFrame)
  else Ok (inr f).

(** DecodeFrame: the result and the bytes the reader still holds. *)
Definition DecodeFrame (r : list Z) (maxFrameSize : Z) : res ((frame_err + Frame) * list Z) :=
  let maxFrameSize := if decide (maxFrameSize ≤ 0) then DefaultMaxFrame else maxFrameSize in
  match ReadFull r lenFieldSize with
  | (inl e, r) => Ok (inl e, r)
  | (inr lenBuf, r) =>
      let! payloadLen := Uint32 lenBuf in
      if decide (payloadLen < headerFixedLen) then Ok (inl ErrBadFrame, r) else
      if decide (payloadLen > maxFrameSize) then Ok (inl ErrFrameTooLarge, r) else
      match ReadFull r payloadLen with
      | (inl e, r) => Ok (inl e, r)
      | (inr payload, r) =>
          let! f := parsePayload payload payloadLen in
          Ok (f, r)
      end
  end.

(** A connection's read loop: decode frames until the first error. *)
Fixpoint DecodeAll (fuel : nat) (r : list Z) (maxFrameSize : Z) : res (list Frame * frame_err) :=
  match fuel with
  | O => OutOfFuel
  | S fuel =>
      let! x := DecodeFrame r maxFrameSize in
      match x with
      | (inl e, _) => Ok ([], e)
      | (inr f, r') =>
          let! y := DecodeAll fuel r' maxFrameSize in
          let '(fs, e) := y in Ok (f :: fs, e)
      end
  end.

(** ** Well-formed frames: every field within its Go type. *)
Record frame_wf (f : Frame) : Prop := {
  wf_ver : is_byte (Ver f);
  wf_msgid : is_u32 (MsgID f);
  wf_flag : is_byte (Flag f);
  wf_seq : is_u32 (Seq f);
  wf_route : Forall is_byte (Route f);
  wf_body : Forall is_byte (Body f) }.

(** Bytes after the length field that the encoding of [f] takes. *)
Definition payload_len (f : Frame) : Z :=
  headerFixedLen + zlen (Body f) +
  (if decide (Route f ≠ []) then routeLenSize + zlen (Route f) else 0).

(** ** Big-endian round trips *)

Lemma Uint32_Put v rest : is_u32 v → Uint32 (PutUint32 v ++ rest) = Ok v.
Proof.
  intros H. unfold is_u32 in H. simpl. f_equal. unfold to_u8.
  rewrite !Z.shiftr_div_pow2 by lia. Z.div_mod_to_equations. lia.
Qed.

Lemma Uint16_Put v rest : is_u16 v → Uint16 (PutUint16 v ++ rest) = Ok v.
Proof.
  intros H. unfold is_u16 in H. simpl. f_equal. unfold to_u8.
  rewrite !Z.shiftr_div_pow2 by lia. Z.div_mod_to_equations. lia.
Qed.

Lemma Uint32_bytes b : Forall is_byte b → (4 ≤ length b)%nat → ∃ v, Uint32 b = Ok v ∧ is_u32 v.
Proof.
  intros Hb Hl. do 4 (destruct b as [|? b]; simpl in Hl; [lia|]).
  repeat (apply Forall_cons_1 in Hb as [? Hb]). eexists; split; [done|].
  unfold is_byte, is_u32 in *. lia.
Qed.

Lemma Uint16_bytes b : Forall is_byte b → (2 ≤ length b)%nat → ∃ v, Uint16 b = Ok v ∧ is_u16 v.
Proof.
  intros Hb Hl. do 2 (destruct b as [|? b]; simpl in Hl; [lia|]).
  repeat (apply Forall_cons_1 in Hb as [? Hb]). eexists; split; [done|].
  unfold is_byte, is_u16 in *. lia.
Qed.

Lemma PutUint32_bytes v : Forall is_byte (PutUint32 v).
Proof. unfold PutUint32, is_byte. repeat constructor; apply to_u8_range. Qed.

(** ** Route bit arithmetic *)

Lemma land_route_lor x : Z.land (Z.lor x FlagRoute) FlagRoute = FlagRoute.
Proof.
  rewrite Z.land_lor_distr_l, Z.land_diag. apply Z.bits_inj'; intros n Hn.
  rewrite Z.lor_spec, Z.land_spec. by destruct (Z.testbit x n), (Z.testbit FlagRoute n).
Qed.

Lemma land_route_ldiff x : Z.land (Z.ldiff x FlagRoute) FlagRoute = 0.
Proof.
  apply Z.bits_inj'; intros n Hn. rewrite Z.land_spec, Z.ldiff_spec, Z.bits_0.
  by destruct (Z.testbit x n), (Z.testbit FlagRoute n).
Qed.

(** ** The payload parser on an explicit layout *)

Definition be32 (b0 b1 b2 b3 : Z) : Z := b0 * 2^24 + b1 * 2^16 + b2 * 2^8 + b3.

(** What follows the ten header bytes, as a total function. *)
Definition parseTail (ver m fl s : Z) (tail : list Z) : frame_err + Frame :=
  match tail with
  | [] => if decide (Z.land fl FlagRoute ≠ 0) then inl ErrBadFrame
          else inr (mkFrame ver m fl s [] [])
  | _ :: _ =>
      if decide (Z.land fl FlagRoute ≠ 0) then
        match tail with
        | b0 :: b1 :: t =>
            let n := b0 * 2^8 + b1 in
            if decide (n > zlen t) then inl ErrBadFrame
            else inr (mkFrame ver m fl s (take (Z.to_nat n) t) (drop (Z.to_nat n) t))
        | _ => inl ErrBadFrame
        end
      else inr (mkFrame ver m fl s [] tail)
  end.

Lemma slice_from_10 {A} (a b c d e f g h i j : A) t :
  slice (a::b::c::d::e::f::g::h::i::j::t) 10 (zlen (a::b::c::d::e::f::g::h::i::j::t)) = Ok t.
Proof.
  rewrite slice_range by zlia. f_equal.
  change (Z.to_nat 10) with 10%nat. cbn [drop]. rewrite drop_0.
  rewrite take_ge; [done|]. zlia.
Qed.

Lemma parsePayload_layout ver m0 m1 m2 m3 fl s0 s1 s2 s3 tail :
  Forall is_byte tail →
  let p := ver::m0::m1::m2::m3::fl::s0::s1::s2::s3::tail in
  parsePayload p (zlen p) = Ok (parseTail ver (be32 m0 m1 m2 m3) fl (be32 s0 s1 s2 s3) tail).
Proof.
  intros Hb p. unfold parsePayload.
  assert (Hl : zlen p = 10 + zlen tail) by (subst p; zlia).
  assert (index p 0 = Ok ver) as -> by reflexivity.
  assert (index p 5 = Ok fl) as -> by reflexivity. cbn [rbind].
  rewrite !slice_range by (pose proof (zlen_nonneg tail); lia).
  change (take (Z.to_nat (5 - 1)) (drop (Z.to_nat 1) p)) with [m0; m1; m2; m3].
  change (take (Z.to_nat (10 - 6)) (drop (Z.to_nat 6) p)) with [s0; s1; s2; s3].
  cbn [rbind Uint32]. fold (be32 m0 m1 m2 m3) (be32 s0 s1 s2 s3).
  unfold parseTail. destruct tail as [|t0 tail].
  { rewrite decide_False by (rewrite Hl; zlia). by case_decide. }
  rewrite decide_True by (rewrite Hl; zlia). case_decide as Hfl; cycle 1.
  { unfold p. rewrite slice_from_10. done. }
  destruct tail as [|t1 tail].
  { by rewrite decide_True by (rewrite Hl; unfold routeLenSize; zlia). }
  rewrite decide_False by (rewrite Hl; unfold routeLenSize; zlia).
  rewrite slice_range by (rewrite ?Hl; zlia).
  change (take (Z.to_nat (10 + 2 - 10)) (drop (Z.to_nat 10) p)) with [t0; t1].
  cbn [rbind Uint16].
  apply Forall_cons_1 in Hb as [H0 Hb]. apply Forall_cons_1 in Hb as [H1 Hb].
  unfold is_byte in H0, H1.
  assert (Ht : zlen p = 12 + zlen tail) by (subst p; zlia).
  assert (Hd : drop (Z.to_nat 12) p = tail) by done.
  unfold routeLenSize. replace (zlen p - 10 - 2) with (zlen tail) by lia.
  change (10 + 2) with 12.
  case_decide as Hn; [done|].
  set (n := t0 * 2^8 + t1) in *. assert (0 ≤ n) by (unfold n; lia).
  rewrite !slice_range by lia. cbn [rbind].
  rewrite Hd. replace (12 + n - 12) with n by lia.
  replace (Z.to_nat (12 + n)) with (Z.to_nat 12 + Z.to_nat n)%nat by lia.
  rewrite <- drop_drop, Hd. rewrite (take_ge (drop (Z.to_nat n) tail)); [done|].
  rewrite length_drop. unfold zlen in *. lia.
Qed.

(** Any payload of at least ten bytes has that layout. *)
Lemma payload_split (p : list Z) :
  headerFixedLen ≤ zlen p →
  ∃ ver m0 m1 m2 m3 fl s0 s1 s2 s3 tail, p = ver::m0::m1::m2::m3::fl::s0::s1::s2::s3::tail.
Proof.
  unfold headerFixedLen. intros H.
  unfold zlen in H. do 10 (destruct p as [|? p]; cbn [length] in H; [lia|]). eauto 12.
Qed.

Lemma ReadFull_exact (a b : list Z) n :
  zlen a = n → ReadFull (a ++ b) n = (inr a, b).
Proof.
  intros <-. unfold ReadFull. rewrite decide_True by zlia.
  unfold zlen. by rewrite Nat2Z.id, take_app_length, drop_app_length.
Qed.

Lemma ReadFull_inr r n p r' :
  0 ≤ n → ReadFull r n = (inr p, r') → zlen p = n ∧ r = p ++ r'.
Proof.
  intros Hn. unfold ReadFull. case_decide; [|case_decide; done].
  intros [= <- <-]. split; [|by rewrite take_drop].
  unfold zlen in *. rewrite length_take. lia.
Qed.

(** ** Encoding, one lemma *)

Definition normalize (f : Frame) : Frame :=
  set_flag f (if decide (Route f ≠ []) then Z.lor (Flag f) FlagRoute
              else Z.ldiff (Flag f) FlagRoute).

Definition encoding (f : Frame) : list Z :=
  PutUint32 (payload_len f) ++ [Ver f] ++ PutUint32 (MsgID f) ++ [Flag f] ++ PutUint32 (Seq f) ++
  (if decide (Route f ≠ []) then PutUint16 (zlen (Route f)) ++ Route f else []) ++ Body f.

Lemma EncodeFrame_ok f :
  zlen (Route f) ≤ 65535 → payload_len f ≤ 0xFFFFFFFF →
  EncodeFrame f = (normalize f, inr (encoding (normalize f))).
Proof.
  intros Hr Hp. unfold EncodeFrame, normalize, encoding, payload_len in *.
  rewrite decide_False by lia.
  pose proof (zlen_nonneg (Body f)). pose proof (zlen_nonneg (Route f)).
  case_decide as E; simpl in *.
  - rewrite decide_False.
    2: { unfold to_u64, headerFixedLen, routeLenSize in *. rewrite Z.mod_small; lia. }
    rewrite !(decide_True (P := Route f ≠ [])) by done.
    unfold to_u16. rewrite Z.mod_small by lia. by rewrite Z.add_assoc.
  - rewrite decide_False.
    2: { unfold to_u64, headerFixedLen in *. rewrite Z.mod_small; lia. }
    rewrite !(decide_False (P := Route f ≠ [])) by (intros Hn; by apply Hn). by rewrite Z.add_0_r.
Qed.

Lemma be32_Put v : is_u32 v →
  be32 (to_u8 (Z.shiftr v 24)) (to_u8 (Z.shiftr v 16)) (to_u8 (Z.shiftr v 8)) (to_u8 v) = v.
Proof. intros H. pose proof (Uint32_Put v [] H) as E. simpl in E. by injection E. Qed.

Lemma zlen_encoding f : zlen (encoding f) = 4 + payload_len f.
Proof.
  unfold encoding, payload_len, headerFixedLen, routeLenSize. rewrite !zlen_app.
  case_decide; rewrite ?zlen_app; unfold PutUint32, PutUint16;
    repeat rewrite zlen_cons; rewrite ?zlen_nil; lia.
Qed.

Lemma normalize_route_bit f :
  (Z.land (Flag (normalize f)) FlagRoute ≠ 0) ↔ Route f ≠ [].
Proof.
  unfold normalize. case_decide; simpl.
  - rewrite land_route_lor. done.
  - rewrite land_route_ldiff. done.
Qed.

Lemma payload_len_normalize f : payload_len (normalize f) = payload_len f.
Proof. done. Qed.

Lemma tail_parse_encoding f :
  frame_wf f → zlen (Route f) ≤ 65535 →
  parseTail (Ver f) (MsgID f) (Flag (normalize f)) (Seq f)
    ((if decide (Route f ≠ []) then PutUint16 (zlen (Route f)) ++ Route f else []) ++ Body f)
  = inr (normalize f).
Proof.
  intros Hwf Hr. pose proof (normalize_route_bit f) as Hbit. case_decide as E.
  - cbn [app PutUint16 parseTail]. rewrite decide_True by tauto.
    assert (Hn : to_u8 (Z.shiftr (zlen (Route f)) 8) * 2^8 + to_u8 (zlen (Route f)) = zlen (Route f)).
    { assert (is_u16 (zlen (Route f))) as Hu by (unfold is_u16; pose proof (zlen_nonneg (Route f)); lia).
      pose proof (Uint16_Put _ [] Hu) as Hx. cbn [app PutUint16 Uint16] in Hx. congruence. }
    rewrite !Hn, decide_False by zlia.
    unfold zlen. rewrite Nat2Z.id, take_app_length, drop_app_length.
    unfold normalize. rewrite decide_True by done. done.
  - cbn [app]. unfold parseTail.
    destruct (Body f) eqn:Eb; rewrite decide_False by (rewrite Hbit; naive_solver);
      unfold normalize, set_flag; rewrite Eb, E; done.
Qed.

(** The single-frame round trip, in the form the stream proof reuses. *)
Lemma decode_encoding f max rest :
  frame_wf f → zlen (Route f) ≤ 65535 → payload_len f ≤ 0xFFFFFFFF →
  payload_len f ≤ (if decide (max ≤ 0) then DefaultMaxFrame else max) →
  DecodeFrame (encoding (normalize f) ++ rest) max = Ok (inr (normalize f), rest).
Proof.
  intros Hwf Hr Hp Hmax. unfold DecodeFrame, encoding.
  rewrite payload_len_normalize. rewrite <- app_assoc.
  rewrite ReadFull_exact by done.
  pose proof (zlen_nonneg (Body f)). pose proof (zlen_nonneg (Route f)).
  assert (10 ≤ payload_len f) by (unfold payload_len, headerFixedLen, routeLenSize; destruct (decide (Route f ≠ [])); lia).
  rewrite <- (app_nil_r (PutUint32 (payload_len f))), Uint32_Put by (unfold is_u32; lia).
  cbn [rbind]. unfold headerFixedLen. rewrite decide_False by lia.
  rewrite decide_False by lia.
  pose proof (zlen_encoding (normalize f)) as Hlen. unfold encoding in Hlen.
  rewrite payload_len_normalize, zlen_app in Hlen.
  rewrite ReadFull_exact by (change (zlen (PutUint32 (payload_len f))) with 4 in Hlen; lia).
  set (p := [Ver (normalize f)] ++ _).
  assert (payload_len f = zlen p) as ->.
  { change (zlen (PutUint32 (payload_len f))) with 4 in Hlen. subst p. lia. }
  subst p. cbn [app PutUint32]. rewrite parsePayload_layout.
  - change (MsgID (normalize f)) with (MsgID f). change (Seq (normalize f)) with (Seq f).
    rewrite !be32_Put by (apply Hwf). cbn [rbind].
    change (Route (normalize f)) with (Route f). change (Body (normalize f)) with (Body f).
    change (Ver (normalize f)) with (Ver f). by rewrite tail_parse_encoding.
  - change (Route (normalize f)) with (Route f). change (Body (normalize f)) with (Body f).
    destruct Hwf. destruct (decide (Route f ≠ [])); [|done]. unfold PutUint16.
    cbn [app]. do 2 (constructor; [apply to_u8_range|]). by apply Forall_app.
Qed.

(** A frame survives the wire: for any well-formed frame whose route and
    payload fit, [EncodeFrame] succeeds, and decoding its bytes, with anything
    behind them on the stream, gives back exactly the frame (with the route
    bit EncodeFrame stored in it) and leaves the rest of the stream unread. *)
Theorem decode_encode_roundtrip (f : Frame) (max : Z) (rest : list Z) :
  frame_wf f → zlen (Route f) ≤ 65535 → payload_len f ≤ 0xFFFFFFFF →
  payload_len f ≤ (if decide (max ≤ 0) then DefaultMaxFrame else max) →
  ∃ f' bs, EncodeFrame f = (f', inr bs) ∧
    DecodeFrame (bs ++ rest) max = Ok (inr f', rest) ∧
    Ver f' = Ver f ∧ MsgID f' = MsgID f ∧ Seq f' = Seq f ∧ Route f' = Route f ∧ Body f' = Body f ∧
    CodecType f' = CodecType f ∧ IsSnapshot f' = IsSnapshot f.
Proof.
  intros Hwf Hr Hp Hmax. exists (normalize f), (encoding (normalize f)).
  split; [by apply EncodeFrame_ok|]. split; [by apply decode_encoding|].
  do 5 (split; [done|]). unfold CodecType, IsSnapshot, normalize.
  assert (Hbits : ∀ m, Z.land FlagRoute m = 0 →
    Z.land (Z.lor (Flag f) FlagRoute) m = Z.land (Flag f) m ∧
    Z.land (Z.ldiff (Flag f) FlagRoute) m = Z.land (Flag f) m).
  { intros m Hm. split; apply Z.bits_inj'; intros n Hn;
      assert (Z.testbit FlagRoute n && Z.testbit m n = false) as Hb
        by (by rewrite <- Z.land_spec, Hm, Z.bits_0);
      rewrite !Z.land_spec, ?Z.lor_spec, ?Z.ldiff_spec;
      destruct (Z.testbit (Flag f) n), (Z.testbit FlagRoute n), (Z.testbit m n); done. }
  destruct (Hbits FlagCodecMask eq_refl), (Hbits FlagSnapshot eq_refl).
  destruct (decide (Route f ≠ [])); simpl; split; congruence.
Qed.

Lemma decode_encode_roundtrip_witness :
  frame_wf (mkFrame 1 4096 1 7 [97; 98] [1; 2; 3]) ∧
  ∃ f' bs, EncodeFrame (mkFrame 1 4096 1 7 [97; 98] [1; 2; 3]) = (f', inr bs) ∧
    DecodeFrame (bs ++ [9]) 0 = Ok (inr f', [9]).
Proof.
  assert (frame_wf (mkFrame 1 4096 1 7 [97; 98] [1; 2; 3])) as Hwf.
  { split; unfold is_byte, is_u32; simpl; repeat constructor; lia. }
  split; [done|].
  destruct (decode_encode_roundtrip (mkFrame 1 4096 1 7 [97; 98] [1; 2; 3]) 0 [9])
    as (f' & bs & H1 & H2 & _); [done | vm_compute; congruence ..|].
  eauto.
Defined.

Lemma parseTail_wf ver m fl s tail f :
  is_byte ver → is_u32 m → is_byte fl → is_u32 s → Forall is_byte tail →
  parseTail ver m fl s tail = inr f → frame_wf f ∧ zlen (Route f) ≤ 65535.
Proof.
  intros ? ? ? ? Ht. unfold parseTail. destruct tail as [|b0 tail].
  { case_decide; [done|]. intros [= <-]. split; [by constructor|done]. }
  case_decide; cycle 1.
  { intros [= <-]. split; [by constructor|done]. }
  destruct tail as [|b1 t]; [done|].
  apply Forall_cons_1 in Ht as [Hb0 Ht]. apply Forall_cons_1 in Ht as [Hb1 Ht].
  case_decide; [done|]. intros [= <-].
  split; [split; simpl; try done; [by apply Forall_take|by apply Forall_drop]|].
  cbn [Route]. unfold is_byte, zlen in *. rewrite length_take. lia.
Qed.

Lemma Uint32_inv b v :
  Forall is_byte b → length b = 4%nat → Uint32 b = Ok v → b = PutUint32 v.
Proof.
  intros Hb Hl. do 5 (destruct b as [|? b]; simpl in Hl; try lia).
  repeat (apply Forall_cons_1 in Hb as [? Hb]). simpl. intros [= <-].
  unfold PutUint32, to_u8, is_byte in *. rewrite !Z.shiftr_div_pow2 by lia.
  repeat f_equal; Z.div_mod_to_equations; lia.
Qed.

(** The bytes a list of frames leaves on a connection. *)
Definition wire (fs : list Frame) : list Z := concat ((fun f => encoding (normalize f)) <$> fs).

Definition sendable (max : Z) (f : Frame) : Prop :=
  frame_wf f ∧ zlen (Route f) ≤ 65535 ∧ payload_len f ≤ 0xFFFFFFFF ∧
  payload_len f ≤ (if decide (max ≤ 0) then DefaultMaxFrame else max).

(** C1. Framing of a byte stream (sticky packets): when the frames sent on a
    connection (well formed and within the limit of the reader) are concatenated
    on the wire, the reader gets them back one by one, in order and with nothing
    lost, and then sees the end of the stream. *)
Theorem decode_stream (max : Z) (fs : list Frame) :
  Forall (sendable max) fs →
  concat ((fun f => match snd (EncodeFrame f) with inr bs => bs | inl _ => [] end) <$> fs) = wire fs ∧
  DecodeAll (S (length fs)) (wire fs) max = Ok (normalize <$> fs, ErrEOF).
Proof.
  unfold wire. induction 1 as [|f fs (Hwf & Hr & Hp & Hm) _ [IH1 IH2]]; [done|].
  rewrite !fmap_cons. cbn [concat]. split.
  - rewrite EncodeFrame_ok by done. cbn [snd]. by rewrite IH1.
  - cbn [length]. cbn [DecodeAll]. rewrite decode_encoding by done. cbn [rbind].
    cbn [DecodeAll] in IH2. rewrite IH2. done.
Qed.

Lemma decode_stream_witness :
  Forall (sendable 0) [mkFrame 1 16 0 1 [] [1; 2]; mkFrame 1 17 64 2 [] []] ∧
  DecodeAll 3 (wire [mkFrame 1 16 0 1 [] [1; 2]; mkFrame 1 17 64 2 [] []]) 0
    = Ok ([mkFrame 1 16 0 1 [] [1; 2]; mkFrame 1 17 64 2 [] []], ErrEOF).
Proof.
  assert (Forall (sendable 0) [mkFrame 1 16 0 1 [] [1; 2]; mkFrame 1 17 64 2 [] []]) as H.
  { repeat constructor; unfold is_byte, is_u32; simpl; try (vm_compute; congruence); lia. }
  split; [done|]. exact (proj2 (decode_stream 0 _ H)).
Defined.

(** No input panics the reader: on any byte stream [DecodeFrame] returns;
    a frame it accepts is well formed, had a payload of at least the header
    and at most the limit, and consumed exactly that many bytes plus the
    length field. *)
Theorem decode_total (r : list Z) (max : Z) :
  Forall is_byte r →
  ∃ x r', DecodeFrame r max = Ok (x, r') ∧
    match x with
    | inl _ => True
    | inr f =>
        let max' := if decide (max ≤ 0) then DefaultMaxFrame else max in
        frame_wf f ∧ zlen (Route f) ≤ 65535 ∧
        ∃ p, headerFixedLen ≤ zlen p ≤ max' ∧ r = PutUint32 (zlen p) ++ p ++ r'
    end.
Proof.
  intros Hr. unfold DecodeFrame. set (max' := if decide _ then _ else _).
  destruct (ReadFull r lenFieldSize) as [[e|lb] r1] eqn:E1; [by eexists _, _|].
  apply ReadFull_inr in E1 as [Hl1 ->]; [|unfold lenFieldSize; lia].
  apply Forall_app in Hr as [Hlb Hr1].
  destruct (Uint32_bytes lb) as (n & Hn & Hnu); [done|unfold lenFieldSize, zlen in *; lia|].
  rewrite Hn. cbn [rbind]. case_decide as H10; [by eexists _, _|]. case_decide as Hmx; [by eexists _, _|].
  unfold headerFixedLen in H10.
  destruct (ReadFull r1 n) as [[e|p] r2] eqn:E2; [by eexists _, _|].
  apply ReadFull_inr in E2 as [Hl2 ->]; [|lia].
  apply Forall_app in Hr1 as [Hp Hr2].
  destruct (payload_split p) as (v&m0&m1&m2&m3&fl&s0&s1&s2&s3&t&->); [unfold headerFixedLen; lia|].
  repeat match goal with H : Forall is_byte (_ :: _) |- _ => apply Forall_cons_1 in H as [? H] end.
  subst n. rewrite parsePayload_layout by done. cbn [rbind].
  eexists _, _. split; [done|]. destruct (parseTail _ _ _ _ _) as [|f] eqn:Ef; [done|].
  assert (frame_wf f ∧ zlen (Route f) ≤ 65535) as [? ?].
  { eapply parseTail_wf; [..|exact Ef]; unfold be32, is_u32, is_byte in *; try lia; done. }
  do 2 (split; [done|]). eexists; split; [|f_equal].
  { unfold headerFixedLen. lia. }
  apply Uint32_inv; try done. unfold lenFieldSize, zlen in *; lia.
Qed.

Lemma decode_total_witness :
  ∃ x r', DecodeFrame [0;0;0;11; 1; 0;0;16;0; 128; 0;0;0;1; 0; 5] 0 = Ok (x, r') ∧ x = inl ErrBadFrame.
Proof.
  destruct (decode_total [0;0;0;11; 1; 0;0;16;0; 128; 0;0;0;1; 0; 5] 0) as (x & r' & H & _).
  { repeat constructor; lia. }
  exists x, r'. split; [exact H|]. vm_compute in H. congruence.
Defined.
