(* ===== verification/ProtoWire.v ===== *)
(** * The wire-format library the protobuf codec calls

    internal/protocol/codec_proto.go builds on google.golang.org/protobuf's
    [protowire], which is not part of the repository.  [Protowire] lists the
    functions the codec calls, [ProtowireLaws] what their documentation
    promises: an append function adds the encoding of its argument to the
    buffer, the matching consume function reads it back and reports its length,
    a negative length is an error, and no length exceeds the data.  The
    theorems of the codec are proved against these laws; [wire] is a concrete
    implementation of the format and [wire_laws] shows that it has them. *)

From S2P Require Import Prelude.

(** Wire types of the protobuf encoding. *)
Definition VarintType : Z := 0.
Definition Fixed64Type : Z := 1.
Definition BytesType : Z := 2.
Definition Fixed32Type : Z := 5.

Class Protowire := {
  AppendTag : list Z → Z → Z → list Z;
  AppendVarint : list Z → Z → list Z;
  AppendFixed64 : list Z → Z → list Z;
  AppendFixed32 : list Z → Z → list Z;
  AppendString : list Z → list Z → list Z;
  ConsumeTag : list Z → Z * Z * Z;
  ConsumeVarint : list Z → Z * Z;
  ConsumeFixed64 : list Z → Z * Z;
  ConsumeFixed32 : list Z → Z * Z;
  ConsumeBytes : list Z → list Z * Z;
  ConsumeFieldValue : Z → Z → list Z → Z }.

(** A field number that may appear on the wire. *)
Definition validNumber (n : Z) : Prop := 1 ≤ n < 2^29.
Definition validType (t : Z) : Prop := t = VarintType ∨ t = Fixed64Type ∨ t = BytesType ∨ t = Fixed32Type.

Class ProtowireLaws (P : Protowire) := {
  tag_append b n t : AppendTag b n t = b ++ AppendTag [] n t;
  varint_append b v : AppendVarint b v = b ++ AppendVarint [] v;
  fixed64_append b v : AppendFixed64 b v = b ++ AppendFixed64 [] v;
  fixed32_append b v : AppendFixed32 b v = b ++ AppendFixed32 [] v;
  string_append b s : AppendString b s = b ++ AppendString [] s;
  tag_consume n t rest : validNumber n → validType t →
    ConsumeTag (AppendTag [] n t ++ rest) = (n, t, zlen (AppendTag [] n t));
  varint_consume v rest : 0 ≤ v < 2^64 →
    ConsumeVarint (AppendVarint [] v ++ rest) = (v, zlen (AppendVarint [] v));
  fixed64_consume v rest : 0 ≤ v < 2^64 →
    ConsumeFixed64 (AppendFixed64 [] v ++ rest) = (v, zlen (AppendFixed64 [] v));
  fixed32_consume v rest : 0 ≤ v < 2^32 →
    ConsumeFixed32 (AppendFixed32 [] v ++ rest) = (v, zlen (AppendFixed32 [] v));
  string_consume s rest : zlen s < 2^63 →
    ConsumeBytes (AppendString [] s ++ rest) = (s, zlen (AppendString [] s));
  (* [ConsumeFieldValue] reports the length of the value after a tag. *)
  varint_skip n v rest : 0 ≤ v < 2^64 →
    ConsumeFieldValue n VarintType (AppendVarint [] v ++ rest) = zlen (AppendVarint [] v);
  fixed64_skip n v rest : 0 ≤ v < 2^64 →
    ConsumeFieldValue n Fixed64Type (AppendFixed64 [] v ++ rest) = zlen (AppendFixed64 [] v);
  fixed32_skip n v rest : 0 ≤ v < 2^32 →
    ConsumeFieldValue n Fixed32Type (AppendFixed32 [] v ++ rest) = zlen (AppendFixed32 [] v);
  string_skip n s rest : zlen s < 2^63 →
    ConsumeFieldValue n BytesType (AppendString [] s ++ rest) = zlen (AppendString [] s);
  (* Reported lengths stay within the data; a tag takes at least one byte, and
     a length-delimited value is no longer than what was consumed. *)
  tag_bound d n t k : ConsumeTag d = (n, t, k) → 0 ≤ k → 1 ≤ k ≤ zlen d;
  varint_bound d v k : ConsumeVarint d = (v, k) → k ≤ zlen d;
  fixed64_bound d v k : ConsumeFixed64 d = (v, k) → k ≤ zlen d;
  fixed32_bound d v k : ConsumeFixed32 d = (v, k) → k ≤ zlen d;
  bytes_bound d s k : ConsumeBytes d = (s, k) → 0 ≤ k → k ≤ zlen d ∧ zlen s ≤ k;
  string_bound s : zlen s ≤ zlen (AppendString [] s);
  field_bound n t d : ConsumeFieldValue n t d ≤ zlen d }.

(** ** A concrete implementation *)

(** Base-128 varints of at most ten bytes, the tenth below 2. *)
Fixpoint putVarint (k : nat) (v : Z) : list Z :=
  match k with
  | O => []
  | S k' => if v <? 128 then [v] else v mod 128 + 128 :: putVarint k' (v / 128)
  end.

Fixpoint getVarint (k : nat) (d : list Z) : option (Z * Z) :=
  match k, d with
  | S k', b :: d' =>
      if b <? 128 then
        (if (k' =? 0)%nat && (1 <? b) then None else Some (b, 1))
      else
        match getVarint k' d' with
        | Some (v, n) => Some (b - 128 + 128 * v, n + 1)
        | None => None
        end
  | _, _ => None
  end.

Lemma getVarint_put k : ∀ v rest,
  0 ≤ v < 2 * 128 ^ Z.of_nat k →
  getVarint (S k) (putVarint (S k) v ++ rest) = Some (v, zlen (putVarint (S k) v)).
Proof.
  induction k as [|k IH]; intros v rest Hv.
  - cbn. destruct (v <? 128) eqn:E; [|apply Z.ltb_ge in E; lia]. cbn. rewrite E.
    destruct (1 <? v) eqn:E1; [apply Z.ltb_lt in E1; lia|done].
  - cbn [putVarint]. destruct (v <? 128) eqn:E; [cbn; by rewrite E|]. apply Z.ltb_ge in E.
    rewrite <- app_comm_cons. cbn [getVarint].
    pose proof (Z.mod_pos_bound v 128). destruct (v mod 128 + 128 <? 128) eqn:E2; [apply Z.ltb_lt in E2; lia|].
    change (if v / 128 <? 128 then _ else _) with (putVarint (S k) (v / 128)).
    change (match putVarint (S k) (v / 128) ++ rest with [] => None | _ :: _ => _ end)
      with (getVarint (S k) (putVarint (S k) (v / 128) ++ rest)).
    rewrite IH.
    + rewrite zlen_cons. f_equal. f_equal. pose proof (Z.div_mod v 128). lia.
    + replace (Z.of_nat (S k)) with (Z.of_nat k + 1) in Hv by lia. rewrite Z.pow_add_r in Hv by lia.
      split; [apply Z.div_pos; lia|]. apply Z.div_lt_upper_bound; lia.
Qed.

Lemma getVarint_bound k : ∀ d v n, getVarint k d = Some (v, n) → 1 ≤ n ≤ zlen d.
Proof.
  induction k as [|k IH]; intros [|b d] v n; cbn; try done. rewrite zlen_cons. pose proof (zlen_nonneg d).
  destruct (b <? 128).
  - destruct (_ && _); [done|]. intros [= <- <-]. lia.
  - destruct (getVarint k d) as [[v' n']|] eqn:E; [|done]. intros [= <- <-]. apply IH in E. lia.
Qed.

(** Little-endian words of [k] bytes. *)
Fixpoint putFixed (k : nat) (v : Z) : list Z :=
  match k with O => [] | S k' => v mod 256 :: putFixed k' (v / 256) end.

Fixpoint getFixed (k : nat) (d : list Z) : option Z :=
  match k, d with
  | O, _ => Some 0
  | S k', b :: d' => match getFixed k' d' with Some v => Some (b + 256 * v) | None => None end
  | S _, [] => None
  end.

Lemma getFixed_put k : ∀ v rest, 0 ≤ v < 256 ^ Z.of_nat k → getFixed k (putFixed k v ++ rest) = Some v.
Proof.
  induction k as [|k IH]; intros v rest Hv; cbn.
  - f_equal. cbn in Hv. lia.
  - rewrite IH.
    + f_equal. pose proof (Z.div_mod v 256). lia.
    + replace (Z.of_nat (S k)) with (Z.of_nat k + 1) in Hv by lia. rewrite Z.pow_add_r in Hv by lia.
      split; [apply Z.div_pos; lia|]. apply Z.div_lt_upper_bound; lia.
Qed.

Lemma length_putFixed k v : zlen (putFixed k v) = Z.of_nat k.
Proof. revert v. induction k as [|k IH]; intros v; [done|]. cbn [putFixed]. rewrite zlen_cons, IH. lia. Qed.

Lemma getFixed_bound k : ∀ d v, getFixed k d = Some v → Z.of_nat k ≤ zlen d.
Proof.
  induction k as [|k IH]; intros d v; cbn [getFixed]; [intros; pose proof (zlen_nonneg d); lia|].
  destruct d as [|b d]; [done|]. destruct (getFixed k d) eqn:E; [|done]. intros _. rewrite zlen_cons.
  apply IH in E. lia.
Qed.

Definition getVarintZ (d : list Z) : Z * Z := default (0, -1) (getVarint 10 d).
Definition getFixedZ (k : nat) (d : list Z) : Z * Z :=
  match getFixed k d with Some v => (v, Z.of_nat k) | None => (0, -1) end.
Definition getTagZ (d : list Z) : Z * Z * Z :=
  match getVarint 10 d with
  | Some (v, k) =>
      if bool_decide (validNumber (v / 8)) then (v / 8, v mod 8, k) else (0, 0, -2)
  | None => (0, 0, -1)
  end.
Definition getBytesZ (d : list Z) : list Z * Z :=
  match getVarint 10 d with
  | Some (m, k) =>
      if decide (m ≤ zlen d - k ∧ 0 ≤ m)
      then (take (Z.to_nat m) (drop (Z.to_nat k) d), k + m) else ([], -1)
  | None => ([], -1)
  end.

#[export] Instance validNumber_dec n : Decision (validNumber n).
Proof. unfold validNumber. apply _. Defined.

(** Groups, which the codec never writes, are refused here. *)
Definition skipZ (t : Z) (d : list Z) : Z :=
  if t =? VarintType then (getVarintZ d).2
  else if t =? Fixed64Type then (getFixedZ 8 d).2
  else if t =? Fixed32Type then (getFixedZ 4 d).2
  else if t =? BytesType then (getBytesZ d).2
  else -1.

Definition putBytes (s : list Z) : list Z := putVarint 10 (zlen s) ++ s.

#[export] Instance wire : Protowire := {
  AppendTag b n t := b ++ putVarint 10 (n * 8 + t);
  AppendVarint b v := b ++ putVarint 10 v;
  AppendFixed64 b v := b ++ putFixed 8 v;
  AppendFixed32 b v := b ++ putFixed 4 v;
  AppendString b s := b ++ putBytes s;
  ConsumeTag := getTagZ;
  ConsumeVarint := getVarintZ;
  ConsumeFixed64 := getFixedZ 8;
  ConsumeFixed32 := getFixedZ 4;
  ConsumeBytes := getBytesZ;
  ConsumeFieldValue _ t d := skipZ t d }.

Lemma getVarintZ_put v rest : 0 ≤ v < 2^64 → getVarintZ (putVarint 10 v ++ rest) = (v, zlen (putVarint 10 v)).
Proof. intros. unfold getVarintZ. by rewrite getVarint_put by (change (2 * _) with (2^64); lia). Qed.

Lemma getFixedZ_put k v rest :
  0 ≤ v < 256 ^ Z.of_nat k → getFixedZ k (putFixed k v ++ rest) = (v, zlen (putFixed k v)).
Proof. intros. unfold getFixedZ. rewrite getFixed_put by done. by rewrite length_putFixed. Qed.

Lemma getTagZ_put n t rest : validNumber n → validType t →
  getTagZ (putVarint 10 (n * 8 + t) ++ rest) = (n, t, zlen (putVarint 10 (n * 8 + t))).
Proof.
  unfold validNumber, validType, VarintType, Fixed64Type, BytesType, Fixed32Type. intros Hn Ht.
  unfold getTagZ. rewrite getVarint_put by (change (2 * _) with (2^64); lia).
  assert ((n * 8 + t) / 8 = n) as -> by (Z.to_euclidean_division_equations; lia).
  assert ((n * 8 + t) mod 8 = t) as -> by (Z.to_euclidean_division_equations; lia).
  by rewrite bool_decide_true.
Qed.

Lemma getBytesZ_put s rest : zlen s < 2^63 → getBytesZ (putBytes s ++ rest) = (s, zlen (putBytes s)).
Proof.
  intros Hs. unfold getBytesZ, putBytes. pose proof (zlen_nonneg s). rewrite <- app_assoc.
  rewrite getVarint_put by (change (2 * _) with (2^64); lia).
  rewrite !zlen_app. rewrite decide_True by (pose proof (zlen_nonneg rest); lia).
  f_equal. unfold zlen. rewrite !Nat2Z.id, drop_app_length. apply take_app_length.
Qed.

Lemma getBytesZ_bound d s k : getBytesZ d = (s, k) → 0 ≤ k → k ≤ zlen d ∧ zlen s ≤ k.
Proof.
  unfold getBytesZ. destruct (getVarint 10 d) as [[m j]|] eqn:E; [|intros [= <- <-]; lia].
  apply getVarint_bound in E. case_decide as Hd; [|intros [= <- <-]; lia].
  intros [= <- <-] _. split; [lia|]. unfold zlen in *. rewrite length_take, length_drop. lia.
Qed.

Lemma getVarintZ_bound d v k : getVarintZ d = (v, k) → k ≤ zlen d.
Proof.
  unfold getVarintZ. pose proof (zlen_nonneg d).
  destruct (getVarint 10 d) as [[v' j]|] eqn:E; cbn [default]; [|intros [= <- <-]; lia].
  apply getVarint_bound in E. intros [= <- <-]; lia.
Qed.

Lemma getFixedZ_bound n d v k : getFixedZ n d = (v, k) → k ≤ zlen d.
Proof.
  unfold getFixedZ. pose proof (zlen_nonneg d). destruct (getFixed n d) eqn:E.
  - apply getFixed_bound in E. intros [= <- <-]; lia.
  - intros [= <- <-]; lia.
Qed.

Lemma skipZ_bound t d : skipZ t d ≤ zlen d.
Proof.
  unfold skipZ. pose proof (zlen_nonneg d).
  repeat case_match; try lia.
  - destruct (getVarintZ d) eqn:E. by apply getVarintZ_bound in E.
  - destruct (getFixedZ 8 d) eqn:E. by apply getFixedZ_bound in E.
  - destruct (getFixedZ 4 d) eqn:E. by apply getFixedZ_bound in E.
  - destruct (getBytesZ d) as [s k] eqn:E. cbn. destruct (decide (0 ≤ k)); [|lia].
    apply getBytesZ_bound in E; lia.
Qed.

Lemma skipZ_cases d :
  skipZ VarintType d = (getVarintZ d).2 ∧ skipZ Fixed64Type d = (getFixedZ 8 d).2 ∧
  skipZ Fixed32Type d = (getFixedZ 4 d).2 ∧ skipZ BytesType d = (getBytesZ d).2.
Proof. split_and!; reflexivity. Qed.

#[export] Instance wire_laws : ProtowireLaws wire.
Proof.
  split; cbn [AppendTag AppendVarint AppendFixed64 AppendFixed32 AppendString ConsumeTag ConsumeVarint
              ConsumeFixed64 ConsumeFixed32 ConsumeBytes ConsumeFieldValue wire app]; intros; try reflexivity.
  - by apply getTagZ_put.
  - by apply getVarintZ_put.
  - by apply getFixedZ_put.
  - by apply getFixedZ_put.
  - by apply getBytesZ_put.
  - rewrite (proj1 (skipZ_cases _)). by rewrite getVarintZ_put.
  - rewrite (proj2 (proj2 (proj2 (skipZ_cases _)))). by rewrite getBytesZ_put.
  - unfold getTagZ in *. repeat case_match; simplify_eq; try lia.
    match goal with E : getVarint _ _ = _ |- _ => apply getVarint_bound in E; lia end.
  - by eapply getVarintZ_bound.
  - by eapply getFixedZ_bound.
  - by eapply getFixedZ_bound.
  - by eapply getBytesZ_bound.
  - unfold putBytes. rewrite zlen_app. pose proof (zlen_nonneg (putVarint 10 (zlen s))). lia.
  - apply skipZ_bound.
Qed.
