(* ===== verification/Proto.v ===== *)
(** * The reflective protobuf codec (internal/protocol/codec_proto.go)

    A Go value seen through package reflect is a [value], its type a [kind]:
    structs list their fields with the field's name, struct tag and whether it
    is exported.  [Marshal] and [Unmarshal] walk these trees exactly as the
    code does, tags parsed at run time included.  Floats are their IEEE bit
    patterns.  [Unmarshal] fills the target in place; on an error the callers
    drop the half-filled target, and so does the model. *)

From Stdlib Require Import Ascii.
From S2P Require Import Prelude ProtoWire.

Record finfo := mkField { Name : string; Tag : string; exported : bool }.

Inductive kind :=
| KBool
| KInt (w : Z)
| KUint (w : Z)
| KFloat32
| KFloat64
| KString
| KSlice (e : kind)
| KStruct (fs : list (finfo * kind))
| KPtr (e : kind)
| KOther.

Inductive value :=
| VBool (b : bool)
| VInt (w n : Z)
| VUint (w n : Z)
| VFloat32 (bits : Z)
| VFloat64 (bits : Z)
| VString (s : list Z)
| VSlice (e : kind) (l : list value)
| VStruct (fs : list (finfo * value))
| VPtr (e : kind) (o : option value)
| VOther.

(** [reflect.Zero] of a type, and the type of a value. *)
Fixpoint zero (k : kind) : value :=
  match k with
  | KBool => VBool false
  | KInt w => VInt w 0
  | KUint w => VUint w 0
  | KFloat32 => VFloat32 0
  | KFloat64 => VFloat64 0
  | KString => VString []
  | KSlice e => VSlice e []
  | KStruct fs => VStruct (map (fun p => (p.1, zero p.2)) fs)
  | KPtr e => VPtr e None
  | KOther => VOther
  end.

Fixpoint typeOf (v : value) : kind :=
  match v with
  | VBool _ => KBool
  | VInt w _ => KInt w
  | VUint w _ => KUint w
  | VFloat32 _ => KFloat32
  | VFloat64 _ => KFloat64
  | VString _ => KString
  | VSlice e _ => KSlice e
  | VStruct fs => KStruct (map (fun p => (p.1, typeOf p.2)) fs)
  | VPtr e _ => KPtr e
  | VOther => KOther
  end.

(** ** Errors *)

Inductive perr :=
| EMarshalStruct
| EKind
| EWireType
| ETag
| EFieldNumber
| EParse (code : Z)
| EInto
| ENotSlice
| ENotPointer
| ENilTarget
| EField (name : string) (e : perr).

(** A Go result [(A, error)] of code that may also panic. *)
Definition gores (A : Type) : Type := res (perr + A).

Definition gbind {A B} (m : gores A) (k : A → gores B) : gores B :=
  match m with
  | Ok (inr a) => k a
  | Ok (inl e) => Ok (inl e)
  | Panic => Panic
  | OutOfFuel => OutOfFuel
  end.
Notation "'let?' x := m 'in' k" := (gbind m (fun x => k))
  (at level 10, x pattern, k at level 200) : go_scope.

Definition ret {A} (a : A) : gores A := Ok (inr a).
Definition fail {A} (e : perr) : gores A := Ok (inl e).

(** ** Struct tags *)

(** [strings.Split(s, ",")]. *)
Fixpoint splitComma (s : string) : list string :=
  match s with
  | EmptyString => [EmptyString]
  | String c s' =>
      if Ascii.eqb c ","%char then EmptyString :: splitComma s'
      else match splitComma s' with
           | h :: t => String c h :: t
           | [] => [String c EmptyString]
           end
  end.

Definition digit (c : Ascii.ascii) : option Z :=
  let n := Z.of_nat (Ascii.nat_of_ascii c) - 48 in
  if (0 <=? n) && (n <=? 9) then Some n else None.

Fixpoint digits (acc : Z) (s : string) : option Z :=
  match s with
  | EmptyString => Some acc
  | String c s' => match digit c with Some d => digits (acc * 10 + d) s' | None => None end
  end.

(** [strconv.Atoi] on a 64-bit platform. *)
Definition Atoi (s : string) : option Z :=
  let '(sign, t) :=
    match s with
    | String "-"%char s' => (-1, s')
    | String "+"%char s' => (1, s')
    | _ => (1, s)
    end in
  match t with
  | EmptyString => None
  | _ =>
      match digits 0 t with
      | Some n => let n := sign * n in if (- 2^63 <=? n) && (n <? 2^63) then Some n else None
      | None => None
      end
  end.

Definition parseProtoTag (tag : string) : perr + (string * Z * bool) :=
  match splitComma tag with
  | wireType :: num :: opts =>
      match Atoi num with
      | Some fieldNum =>
          inr (wireType, fieldNum, existsb (fun o => String.eqb o "rep" || String.eqb o "repeated") opts)
      | None => inl EFieldNumber
      end
  | _ => inl ETag
  end.

(** [protowire.Number] is an int32. *)
Definition Number (n : Z) : Z := (n + 2^31) mod 2^32 - 2^31.

Definition isZeroValue (v : value) : bool :=
  match v with
  | VBool b => negb b
  | VInt _ n => n =? 0
  | VUint _ n => n =? 0
  | VFloat32 b => Z.land b (2^31 - 1) =? 0
  | VFloat64 b => Z.land b (2^63 - 1) =? 0
  | VString s => zlen s =? 0
  | VSlice _ l => zlen l =? 0
  | VPtr _ o => match o with None => true | Some _ => false end
  | VStruct _ => false
  | VOther => false
  end.

(** float32 to float64 and back, as [math.Float32bits(float32(fv.Float()))]
    does: the identity, except that a signalling NaN becomes quiet. *)
Definition quiet32 (b : Z) : Z :=
  if (Z.land b (2^31 - 1) >? 0x7F800000) then Z.lor b (2^22) else b.

(** [fv.Bytes()] of a slice of uint8. *)
Definition bytesOf (l : list value) : list Z :=
  map (fun v => match v with VUint _ n => n | _ => 0 end) l.

Section Codec.
Context `{P : Protowire}.

(** ** Marshal *)

(** The switch of [marshalSingleValue]; [inner] is the encoding of the struct
    that [fv] is or points to. *)
Definition encodeSingle (buf : list Z) (fn : Z) (ft : string) (fv : value) (inner : gores (list Z))
    : gores (list Z) :=
  if String.eqb ft "varint" then
    let put n := ret (AppendVarint (AppendTag buf (Number fn) VarintType) n) in
    match fv with
    | VBool b => put (if b then 1 else 0)
    | VInt _ n => put (to_u64 n)
    | VUint _ n => put n
    | _ => fail EKind
    end
  else if String.eqb ft "fixed64" then
    match fv with
    | VFloat64 b => ret (AppendFixed64 (AppendTag buf (Number fn) Fixed64Type) b)
    | _ => fail EKind
    end
  else if String.eqb ft "fixed32" then
    match fv with
    | VFloat32 b => ret (AppendFixed32 (AppendTag buf (Number fn) Fixed32Type) (quiet32 b))
    | _ => fail EKind
    end
  else if String.eqb ft "bytes" then
    let put data := ret (AppendString (AppendTag buf (Number fn) BytesType) data) in
    match fv with
    | VString s => put s
    | VSlice (KUint 8) l => put (bytesOf l)
    | VSlice _ _ => fail EKind
    | VStruct _ => let? data := inner in put data
    | VPtr _ None => ret buf
    | VPtr _ (Some _) => let? data := inner in put data
    | _ => fail EKind
    end
  else fail EWireType.

Section Fields.
Variable marshalSingle : list Z → Z → string → value → gores (list Z).

Fixpoint repeatLoop (buf : list Z) (fn : Z) (ft : string) (l : list value) : gores (list Z) :=
  match l with
  | [] => ret buf
  | v :: l' => let? buf := marshalSingle buf fn ft v in repeatLoop buf fn ft l'
  end.

(** Indexing a string yields uint8 values; the other kinds have no length. *)
Fixpoint repeatString (buf : list Z) (fn : Z) (ft : string) (s : list Z) : gores (list Z) :=
  match s with
  | [] => ret buf
  | b :: s' => let? buf := encodeSingle buf fn ft (VUint 8 b) Panic in repeatString buf fn ft s'
  end.

Definition marshalRepeated (buf : list Z) (fn : Z) (ft : string) (fv : value) : gores (list Z) :=
  match fv with
  | VSlice _ l => repeatLoop buf fn ft l
  | VString s => repeatString buf fn ft s
  | _ => Panic
  end.

Definition marshalField (buf : list Z) (fn : Z) (ft : string) (fv : value) : gores (list Z) :=
  if isZeroValue fv then ret buf else marshalSingle buf fn ft fv.

(** One iteration of the loop of [marshalStruct]. *)
Definition marshalOne (buf : list Z) (f : finfo) (fv : value) : gores (list Z) :=
  if String.eqb (Tag f) "" then ret buf
  else if negb (exported f) then ret buf
  else match parseProtoTag (Tag f) with
       | inl e => fail (EField (Name f) e)
       | inr (ft, fn, repeated) =>
           if repeated then marshalRepeated buf fn ft fv else marshalField buf fn ft fv
       end.

Fixpoint marshalFields (buf : list Z) (fs : list (finfo * value)) : gores (list Z) :=
  match fs with
  | [] => ret buf
  | (f, fv) :: fs' => let? buf := marshalOne buf f fv in marshalFields buf fs'
  end.
End Fields.

Fixpoint marshalSingleValue (buf : list Z) (fn : Z) (ft : string) (fv : value) {struct fv} : gores (list Z) :=
  encodeSingle buf fn ft fv
    match fv with
    | VStruct fs => marshalFields marshalSingleValue [] fs
    | VPtr _ (Some (VStruct fs)) => marshalFields marshalSingleValue [] fs
    | _ => Panic
    end.

Definition marshalStruct (buf : list Z) (v : value) : gores (list Z) :=
  match v with
  | VStruct fs => marshalFields marshalSingleValue buf fs
  | _ => Panic
  end.

(** A nil interface or a nil pointer encodes to nothing; pointers are followed. *)
Fixpoint marshalValue (v : value) : gores (list Z) :=
  match v with
  | VPtr _ None => ret []
  | VPtr _ (Some v') => marshalValue v'
  | VStruct _ => marshalStruct [] v
  | _ => fail EMarshalStruct
  end.

Definition Marshal (msg : option value) : gores (list Z) :=
  match msg with None => ret [] | Some v => marshalValue v end.

(** ** Unmarshal *)

(** Assignment through reflect panics on a value reached through an
    unexported field. *)
Definition settle {A} (ro : bool) (a : A) : gores A := if ro then Panic else ret a.

Definition wrapInt (w n : Z) : Z := (n + 2^(w-1)) mod 2^w - 2^(w-1).
Definition wrapUint (w n : Z) : Z := n mod 2^w.

Section Single.
Variable unmarshalFields : bool → list Z → list (finfo * value) → gores (list (finfo * value)).

Definition unmarshalSingle (ro : bool) (data : list Z) (wireType : Z) (fv : value) : gores (value * Z) :=
  if wireType =? VarintType then
    let '(val, n) := ConsumeVarint data in
    if n <? 0 then fail (EParse n) else
    match fv with
    | VBool _ => settle ro (VBool (negb (val =? 0)), n)
    | VInt w _ => settle ro (VInt w (wrapInt w (wrap_i64 val)), n)
    | VUint w _ => settle ro (VUint w (wrapUint w val), n)
    | _ => fail EInto
    end
  else if wireType =? Fixed64Type then
    let '(val, n) := ConsumeFixed64 data in
    if n <? 0 then fail (EParse n) else
    match fv with
    | VFloat64 _ => settle ro (VFloat64 val, n)
    | _ => fail EInto
    end
  else if wireType =? Fixed32Type then
    let '(val, n) := ConsumeFixed32 data in
    if n <? 0 then fail (EParse n) else
    match fv with
    | VFloat32 _ => settle ro (VFloat32 (quiet32 val), n)
    | _ => fail EInto
    end
  else if wireType =? BytesType then
    let '(val, n) := ConsumeBytes data in
    if n <? 0 then fail (EParse n) else
    match fv with
    | VString _ => settle ro (VString val, n)
    | VSlice (KUint 8) _ => settle ro (VSlice (KUint 8) (map (VUint 8) val), n)
    | VSlice _ _ => fail EInto
    | VStruct fs => let? fs := unmarshalFields ro val fs in ret (VStruct fs, n)
    | VPtr e o =>
        let? v := match o with None => settle ro (zero e) | Some v => ret v end in
        match v with
        | VStruct fs => let? fs := unmarshalFields ro val fs in ret (VPtr e (Some (VStruct fs)), n)
        | _ => Panic
        end
    | _ => fail EInto
    end
  else fail EWireType.

Definition unmarshalRepeated (ro : bool) (data : list Z) (wireType : Z) (fv : value) : gores (value * Z) :=
  match fv with
  | VSlice e l =>
      let? (elem, n) := unmarshalSingle false data wireType (zero e) in
      settle ro (VSlice e (l ++ [elem]), n)
  | _ => fail ENotSlice
  end.

Definition unmarshalField (ro : bool) (data : list Z) (wireType : Z) (fv : value) (repeated : bool)
    : gores (value * Z) :=
  if repeated then unmarshalRepeated ro data wireType fv else unmarshalSingle ro data wireType fv.
End Single.

(** The map from field numbers to field indexes. *)
Fixpoint fieldMap (i : nat) (fs : list finfo) (acc : gmap Z nat) : gmap Z nat :=
  match fs with
  | [] => acc
  | f :: fs' =>
      fieldMap (S i) fs'
        (if String.eqb (Tag f) "" then acc
         else match parseProtoTag (Tag f) with
              | inl _ => acc
              | inr (_, fn, _) => <[Number fn := i]> acc
              end)
  end.

(** [data[n:]]. *)
Definition from (data : list Z) (n : Z) : gores (list Z) :=
  match slice data n (zlen data) with Ok d => ret d | Panic => Panic | OutOfFuel => OutOfFuel end.

(** One iteration of the loop of [unmarshalStruct]: the data left and the
    struct afterwards. *)
Definition unmarshalNext (us : bool → list Z → list (finfo * value) → gores (list (finfo * value)))
    (ro : bool) (data : list Z) (fs : list (finfo * value)) : gores (list Z * list (finfo * value)) :=
  let '(num, wireType, n) := ConsumeTag data in
  if n <? 0 then fail (EParse n) else
  let? data := from data n in
  match fieldMap 0 (map fst fs) ∅ !! num with
  | None =>
      let n := ConsumeFieldValue num wireType data in
      if n <? 0 then fail (EParse n) else
      let? data := from data n in ret (data, fs)
  | Some idx =>
      match fs !! idx with
      | None => Panic
      | Some (f, fv) =>
          let repeated := match parseProtoTag (Tag f) with inr (_, _, r) => r | inl _ => false end in
          match unmarshalField us (ro || negb (exported f)) data wireType fv repeated with
          | Ok (inr (fv', n)) => let? data := from data n in ret (data, <[idx := (f, fv')]> fs)
          | Ok (inl e) => fail (EField (Name f) e)
          | Panic => Panic
          | OutOfFuel => OutOfFuel
          end
      end
  end.

(** Each iteration and each nested struct has strictly less data, so
    [S (length data)] steps always suffice (theorem [unmarshal_total]). *)
Fixpoint unmarshalStruct (fuel : nat) (ro : bool) (data : list Z) (fs : list (finfo * value))
    : gores (list (finfo * value)) :=
  match fuel with
  | O => OutOfFuel
  | S fuel' =>
      match data with
      | [] => ret fs
      | _ =>
          let? (data, fs) := unmarshalNext (unmarshalStruct fuel') ro data fs in
          unmarshalStruct fuel' ro data fs
      end
  end.

(** The target as the interface value handed to [Unmarshal]. *)
Definition Unmarshal (data : list Z) (msg : value) : gores value :=
  match msg with
  | VPtr _ None => fail ENilTarget
  | VPtr e (Some (VStruct fs)) =>
      let? fs := unmarshalStruct (S (length data)) false data fs in ret (VPtr e (Some (VStruct fs)))
  | VPtr _ (Some _) => fail EMarshalStruct
  | _ => fail ENotPointer
  end.
End Codec.
