(* ===== verification/ProtoThm.v ===== *)
(** * Correctness of the protobuf codec

    Whatever a server can put in a message comes back from the wire unchanged
    ([proto_roundtrip]), also for a client whose message type lacks some of the
    fields ([proto_forward_compatible]); decoding arbitrary bytes always ends,
    with a message or an error ([unmarshal_total]).  The theorems hold for
    every implementation of the wire library with the laws of [ProtowireLaws]. *)

From S2P Require Import Prelude ProtoWire Proto.

(** ** Messages that can be sent *)

Fixpoint allP {A} (Q : A → Prop) (l : list A) : Prop :=
  match l with [] => True | x :: l' => Q x ∧ allP Q l' end.

Lemma allP_Forall {A} (Q : A → Prop) l : allP Q l ↔ Forall Q l.
Proof.
  induction l as [|x l IH]; cbn; [done|]. rewrite IH. split; [intros []; by constructor|by inversion 1].
Qed.

(** What a field contributes to the wire: its wire type, number and whether it
    is repeated. *)
Definition wireField (f : finfo) : option (string * Z * bool) :=
  if String.eqb (Tag f) "" then None
  else match parseProtoTag (Tag f) with inr t => Some t | inl _ => None end.

Definition numbers (fs : list finfo) : list Z := omap (fun f => t ← wireField f; Some (Number t.1.2)) fs.

Definition isU8 (v : value) : Prop := match v with VUint w n => w = 8 ∧ 0 ≤ n < 256 | _ => False end.
Definition width (w : Z) : Prop := w = 8 ∨ w = 16 ∨ w = 32 ∨ w = 64.

(** A float that is zero but for its sign is written like zero and read back
    without the sign. *)
Definition unsignedZero (v : value) : Prop :=
  match v with
  | VFloat32 b => Z.land b (2^31 - 1) = 0 → b = 0
  | VFloat64 b => Z.land b (2^63 - 1) = 0 → b = 0
  | _ => True
  end.

(** The default of the field's type; proto3 does not transmit it.  A struct
    held by value has presence even when all its fields are at their default. *)
Definition isDefault (v : value) : Prop :=
  match v with VStruct _ | VOther => False | _ => v = zero (typeOf v) end.

(** A field is sendable when its tag is well formed and its value fits it; a
    field that is not transmitted must be at its zero value. *)
Definition fieldOK (ok : string → value → Prop) (f : finfo) (v : value) : Prop :=
  if String.eqb (Tag f) "" || negb (exported f) then v = zero (typeOf v)
  else match parseProtoTag (Tag f) with
       | inl _ => False
       | inr (ft, fn, true) =>
           validNumber fn ∧
           match v with VSlice e l => allP (fun x => typeOf x = e ∧ ok ft x) l | _ => False end
       | inr (ft, fn, false) =>
           validNumber fn ∧ unsignedZero v ∧ (isDefault v ∨ ok ft v)
       end.

Fixpoint sendable (ft : string) (v : value) {struct v} : Prop :=
  match v with
  | VBool _ => ft = "varint"%string
  | VInt w n => ft = "varint"%string ∧ width w ∧ - 2^(w-1) ≤ n < 2^(w-1)
  | VUint w n => ft = "varint"%string ∧ width w ∧ 0 ≤ n < 2^w
  | VFloat32 b => ft = "fixed32"%string ∧ 0 ≤ b < 2^32 ∧ quiet32 b = b
  | VFloat64 b => ft = "fixed64"%string ∧ 0 ≤ b < 2^64
  | VString _ => ft = "bytes"%string
  | VSlice e l => ft = "bytes"%string ∧ e = KUint 8 ∧ allP isU8 l
  | VStruct fs =>
      ft = "bytes"%string ∧ NoDup (numbers (map fst fs)) ∧ allP (fun p => fieldOK sendable p.1 p.2) fs
  | VPtr e (Some (VStruct fs)) =>
      ft = "bytes"%string ∧ e = typeOf (VStruct fs) ∧
      NoDup (numbers (map fst fs)) ∧ allP (fun p => fieldOK sendable p.1 p.2) fs
  | _ => False
  end.

(** A single-valued field with a well-formed tag. *)
Lemma fieldOK_single ok f v ft fn :
  String.eqb (Tag f) "" = false → exported f = true → parseProtoTag (Tag f) = inr (ft, fn, false) →
  validNumber fn → unsignedZero v → isDefault v ∨ ok ft v → fieldOK ok f v.
Proof. intros Ht He Hp Hn Hu Hv. unfold fieldOK. by rewrite Ht, He, Hp. Qed.

(** The encoder's test for an omitted field is exact. *)
Lemma isZeroValue_true v : unsignedZero v → isZeroValue v = true → v = zero (typeOf v).
Proof.
  destruct v as [[]|w n|w n|b|b|b|e l|fs|e [o|]|]; cbn; try done;
    rewrite ?Z.eqb_eq; intros Hu Hz; try (by rewrite Hz); try (by rewrite (Hu Hz));
    by apply zlen_0 in Hz as ->.
Qed.

Lemma isZeroValue_false v : isZeroValue v = false → ¬ isDefault v.
Proof.
  destruct v as [[]|w n|w n|b|b|b|e l|fs|e [o|]|]; cbn; try done; rewrite ?Z.eqb_neq;
    intros Hn Hd; inversion Hd; subst; by apply Hn.
Qed.

(** The fields of a message struct. *)
Definition message (fs : list (finfo * value)) : Prop :=
  NoDup (numbers (map fst fs)) ∧ Forall (fun p => fieldOK sendable p.1 p.2) fs.

Definition zeros (fs : list (finfo * value)) : list (finfo * value) :=
  map (fun p => (p.1, zero (typeOf p.2))) fs.

Lemma zero_struct fs : zero (typeOf (VStruct fs)) = VStruct (zeros fs).
Proof. cbn. by rewrite map_map. Qed.

Lemma zero_ptr e o : zero (typeOf (VPtr e o)) = VPtr e None.
Proof. reflexivity. Qed.

Lemma value_nested_ind (Q : value → Prop) :
  (∀ v, match v with VSlice _ _ | VStruct _ | VPtr _ _ => False | _ => True end → Q v) →
  (∀ e l, Forall Q l → Q (VSlice e l)) →
  (∀ fs, Forall (fun p => Q p.2) fs → Q (VStruct fs)) →
  (∀ e o, (∀ v, o = Some v → Q v) → Q (VPtr e o)) →
  ∀ v, Q v.
Proof.
  intros Hb Hl Hs Hp. fix IH 1. intros v. destruct v as [| | | | | |e l|fs|e o|]; try (apply Hb; exact I).
  - apply Hl. induction l as [|x l IHl]; constructor; [apply IH|exact IHl].
  - apply Hs. induction fs as [|x l IHl]; constructor; [apply IH|exact IHl].
  - apply Hp. destruct o as [v|]; [|discriminate]. intros w Hw.
    injection Hw as <-. apply IH.
Qed.

(** ** Arithmetic of the conversions *)

Lemma Number_valid n : validNumber n → Number n = n.
Proof. unfold validNumber, Number. intros. rewrite Z.mod_small by lia. lia. Qed.

Lemma wrapInt_id w n : width w → - 2^(w-1) ≤ n < 2^(w-1) → wrapInt w n = n.
Proof. unfold width, wrapInt. intros [->|[->|[->| ->]]] Hn; cbn in *; rewrite Z.mod_small; lia. Qed.

Lemma wrapUint_id w n : 0 ≤ n < 2^w → wrapUint w n = n.
Proof. intros. unfold wrapUint. by rewrite Z.mod_small. Qed.

Lemma i64_of_u64 n : - 2^63 ≤ n < 2^63 → wrap_i64 (to_u64 n) = n.
Proof.
  intros. unfold wrap_i64, to_u64. rewrite Zplus_mod_idemp_l. rewrite Z.mod_small; lia.
Qed.

Lemma int_in_64 w n : width w → - 2^(w-1) ≤ n < 2^(w-1) → - 2^63 ≤ n < 2^63.
Proof. unfold width. intros [->|[->|[->| ->]]] Hn; cbn in *; lia. Qed.

Lemma uint_in_64 w n : width w → 0 ≤ n < 2^w → 0 ≤ n < 2^64.
Proof. unfold width. intros [->|[->|[->| ->]]] Hn; cbn in *; lia. Qed.

Lemma bytesOf_back l : allP isU8 l → map (VUint 8) (bytesOf l) = l.
Proof.
  unfold bytesOf. induction l as [|x l IH]; [done|]. intros [Hx Hl]. cbn [map]. rewrite IH by done. f_equal.
  destruct x as [| |w n| | | | | | |]; try contradiction.
  destruct Hx as [-> _]. reflexivity.
Qed.

Section Roundtrip.
Context {P : Protowire} {L : ProtowireLaws P}.

(** ** One value *)

(** [payload] after a tag of type [wt] is read into [v0] as [v1], and skipped
    by a reader that does not know the field. *)
Definition readsBack (payload : list Z) (wt : Z) (v0 v1 : value) (repeated : bool) : Prop :=
  (∀ fuel rest, (length payload < fuel)%nat →
     unmarshalField (unmarshalStruct fuel) false (payload ++ rest) wt v0 repeated = ret (v1, zlen payload)) ∧
  (∀ num rest, ConsumeFieldValue num wt (payload ++ rest) = zlen payload).

Definition singleRT (ft : string) (v : value) : Prop :=
  ∃ wt payload, validType wt ∧
    (∀ buf fn, marshalSingleValue buf fn ft v = ret (buf ++ AppendTag [] (Number fn) wt ++ payload)) ∧
    (zlen payload < 2^63 → readsBack payload wt (zero (typeOf v)) v false).

Definition structRT (fs : list (finfo * value)) : Prop :=
  ∃ inner, marshalFields marshalSingleValue [] fs = ret inner ∧
    (zlen inner < 2^63 → ∀ fuel, (length inner < fuel)%nat →
       unmarshalStruct fuel false inner (zeros fs) = ret fs).

Lemma zlen_ltb {A} (l : list A) : (zlen l <? 0) = false.
Proof. apply Z.ltb_ge, zlen_nonneg. Qed.

Lemma varint_RT ft v n :
  0 ≤ n < 2^64 →
  (∀ buf fn, marshalSingleValue buf fn ft v = ret (AppendVarint (AppendTag buf (Number fn) VarintType) n)) →
  (∀ us d, ConsumeVarint d = (n, zlen (AppendVarint [] n)) →
     unmarshalSingle us false d VarintType (zero (typeOf v)) = ret (v, zlen (AppendVarint [] n))) →
  singleRT ft v.
Proof.
  intros Hn Hm Hu. exists VarintType, (AppendVarint [] n). split; [by left|]. split.
  - intros. by rewrite Hm, varint_append, tag_append, app_assoc.
  - split; intros; [cbn [unmarshalField]; apply Hu|]; auto using varint_consume, varint_skip.
Qed.

Lemma bytes_RT ft v s :
  (∀ buf fn, marshalSingleValue buf fn ft v = ret (AppendString (AppendTag buf (Number fn) BytesType) s)) →
  (zlen s < 2^63 → ∀ fuel d, (length s < fuel)%nat → ConsumeBytes d = (s, zlen (AppendString [] s)) →
     unmarshalSingle (unmarshalStruct fuel) false d BytesType (zero (typeOf v))
       = ret (v, zlen (AppendString [] s))) →
  singleRT ft v.
Proof.
  intros Hm Hu. exists BytesType, (AppendString [] s). split; [by right; right; left|]. split.
  - intros. by rewrite Hm, string_append, tag_append, app_assoc.
  - intros Hs. pose proof (string_bound s).
    split; intros; [cbn [unmarshalField]; apply Hu|]; try apply string_consume; try apply string_skip;
      unfold zlen in *; lia.
Qed.

Lemma scalar_RT ft v :
  match v with VSlice _ _ | VStruct _ | VPtr _ _ => False | _ => True end → sendable ft v → singleRT ft v.
Proof.
  destruct v as [b|w n|w n|b|b|s| | | |]; cbn [sendable]; try done; intros _.
  - intros ->. apply (varint_RT _ _ (if b then 1 else 0)); [destruct b; lia|done|].
    intros us d Hd. unfold unmarshalSingle. cbn [Z.eqb VarintType]. rewrite Hd, zlen_ltb. by destruct b.
  - intros (-> & Hw & Hn). pose proof (int_in_64 _ _ Hw Hn).
    apply (varint_RT _ _ (to_u64 n)); [apply Z.mod_pos_bound; lia|done|].
    intros us d Hd. unfold unmarshalSingle. cbn [Z.eqb VarintType]. rewrite Hd, zlen_ltb. cbn.
    by rewrite i64_of_u64, wrapInt_id by done.
  - intros (-> & Hw & Hn). pose proof (uint_in_64 _ _ Hw Hn).
    apply (varint_RT _ _ n); [done|done|].
    intros us d Hd. unfold unmarshalSingle. cbn [Z.eqb VarintType]. rewrite Hd, zlen_ltb. cbn.
    by rewrite wrapUint_id by done.
  - intros (-> & Hb & Hq). exists Fixed32Type, (AppendFixed32 [] b). split; [by right; right; right|]. split.
    + intros. cbn. by rewrite Hq, fixed32_append, tag_append, app_assoc.
    + split; intros; [|by apply fixed32_skip].
      cbn [unmarshalField]. unfold unmarshalSingle. cbn [Z.eqb VarintType Fixed64Type Fixed32Type].
      rewrite fixed32_consume by done. rewrite zlen_ltb. cbn. by rewrite Hq.
  - intros (-> & Hb). exists Fixed64Type, (AppendFixed64 [] b). split; [by right; left|]. split.
    + intros. cbn. by rewrite fixed64_append, tag_append, app_assoc.
    + split; intros; [|by apply fixed64_skip].
      cbn [unmarshalField]. unfold unmarshalSingle. cbn [Z.eqb VarintType Fixed64Type].
      rewrite fixed64_consume by done. by rewrite zlen_ltb.
  - intros ->. apply (bytes_RT _ _ s); [done|]. intros _ fuel d _ Hd.
    unfold unmarshalSingle. cbn [Z.eqb VarintType Fixed64Type Fixed32Type BytesType].
    rewrite Hd, zlen_ltb. done.
Qed.

Lemma slice_RT ft e l : sendable ft (VSlice e l) → singleRT ft (VSlice e l).
Proof.
  intros (-> & -> & Hl). apply (bytes_RT _ _ (bytesOf l)); [done|]. intros _ fuel d _ Hd.
  unfold unmarshalSingle. cbn [Z.eqb VarintType Fixed64Type Fixed32Type BytesType].
  rewrite Hd, zlen_ltb. cbn. by rewrite bytesOf_back.
Qed.

Lemma structRT_single fs : structRT fs → singleRT "bytes" (VStruct fs).
Proof.
  intros (inner & Hm & Hu). apply (bytes_RT _ _ inner).
  - intros. cbn. by rewrite Hm.
  - intros Hl fuel d Hf Hd. unfold unmarshalSingle. cbn [Z.eqb VarintType Fixed64Type Fixed32Type BytesType].
    rewrite Hd, zlen_ltb, zero_struct. by rewrite Hu by done.
Qed.

Lemma structRT_ptr fs : structRT fs → singleRT "bytes" (VPtr (typeOf (VStruct fs)) (Some (VStruct fs))).
Proof.
  intros (inner & Hm & Hu). apply (bytes_RT _ _ inner).
  - intros. cbn. by rewrite Hm.
  - intros Hl fuel d Hf Hd. unfold unmarshalSingle. cbn [Z.eqb VarintType Fixed64Type Fixed32Type BytesType].
    rewrite Hd, zlen_ltb, zero_ptr. unfold settle. rewrite zero_struct. cbn [gbind ret].
    by rewrite Hu by done.
Qed.

(** ** One field *)

(** The bytes of a field: each item is a tag and a payload. *)
Definition flat (fn : Z) (items : list (Z * list Z)) : list Z :=
  concat (map (fun it => AppendTag [] fn it.1 ++ it.2) items).

Inductive reads (repeated : bool) : value → list (Z * list Z) → value → Prop :=
| reads_nil v : reads repeated v [] v
| reads_cons wt p items v0 v1 v2 :
    validType wt → readsBack p wt v0 v1 repeated → reads repeated v1 items v2 →
    reads repeated v0 ((wt, p) :: items) v2.

Lemma reads_one repeated wt p v0 v1 :
  validType wt → readsBack p wt v0 v1 repeated → reads repeated v0 [(wt, p)] v1.
Proof. intros. econstructor; eauto. constructor. Qed.

Lemma zlen_flat_cons fn it items : zlen (flat fn (it :: items)) = zlen (AppendTag [] fn it.1) + zlen it.2 + zlen (flat fn items).
Proof. unfold flat. cbn [map concat]. rewrite !zlen_app. lia. Qed.

(** The elements of a repeated field. *)
Lemma repeat_RT ft fn e l :
  Forall (fun x => typeOf x = e ∧ singleRT ft x) l →
  ∃ items,
    (∀ buf, repeatLoop marshalSingleValue buf fn ft l = ret (buf ++ flat (Number fn) items)) ∧
    (zlen (flat (Number fn) items) < 2^63 → ∀ l0, reads true (VSlice e l0) items (VSlice e (l0 ++ l))).
Proof.
  induction 1 as [|x l [He (wt & p & Ht & Hm & Hr)] _ (items & Hms & Hrs)].
  - exists []. split; [intros; cbn; by rewrite app_nil_r|]. intros _ l0. rewrite app_nil_r. constructor.
  - exists ((wt, p) :: items). split.
    + intros buf. cbn [repeatLoop]. rewrite Hm. cbn [gbind ret]. rewrite Hms.
      unfold flat. cbn. by rewrite !app_assoc.
    + rewrite zlen_flat_cons. cbn [fst snd].
      pose proof (zlen_nonneg (AppendTag [] (Number fn) wt)). pose proof (zlen_nonneg p).
      pose proof (zlen_nonneg (flat (Number fn) items)).
      intros Hz l0. destruct Hr as [Hr Hs]; [lia|].
      apply (reads_cons _ wt p items _ (VSlice e (l0 ++ [x]))); [done| |].
      * split; [|done]. intros fuel rest Hf. specialize (Hr fuel rest Hf). cbn [unmarshalField] in *.
        cbn [unmarshalRepeated]. rewrite He in Hr. by rewrite Hr.
      * replace (l0 ++ x :: l) with ((l0 ++ [x]) ++ l) by by rewrite <- app_assoc. apply Hrs. lia.
Qed.

Definition isRepeated (f : finfo) : bool := match wireField f with Some (_, _, r) => r | None => false end.
Definition sent (f : finfo) : bool := negb (String.eqb (Tag f) "" || negb (exported f)).

Lemma field_RT f v :
  fieldOK singleRT f v →
  if sent f then
    ∃ ft fn items, parseProtoTag (Tag f) = inr (ft, fn, isRepeated f) ∧ validNumber fn ∧
      (∀ buf, marshalOne marshalSingleValue buf f v = ret (buf ++ flat fn items)) ∧
      (zlen (flat fn items) < 2^63 → reads (isRepeated f) (zero (typeOf v)) items v)
  else v = zero (typeOf v) ∧ ∀ buf, marshalOne marshalSingleValue buf f v = ret buf.
Proof.
  unfold fieldOK, sent, marshalOne, isRepeated, wireField.
  destruct (String.eqb (Tag f) ""); cbn [orb negb]; [done|].
  destruct (exported f); cbn [negb]; [|done].
  destruct (parseProtoTag (Tag f)) as [|[[ft fn] [|]]]; [done| |]; intros (Hn & Hv);
    exists ft, fn.
  - destruct v as [| | | | | |e l| | |]; try done. apply allP_Forall in Hv.
    destruct (repeat_RT ft fn e l Hv) as (items & Hm & Hr).
    rewrite (Number_valid fn Hn) in Hm, Hr. exists items. split_and!; [done..|exact Hm|].
    intros Hz. exact (Hr Hz []).
  - unfold marshalField. destruct Hv as [Hu Hv]. destruct (isZeroValue v) eqn:Ez.
    + apply isZeroValue_true in Ez as Hz; [|done]. exists []. split_and!; try done; intros.
      * cbn. by rewrite app_nil_r.
      * rewrite <- Hz. constructor.
    + destruct Hv as [Hd|(wt & p & Ht & Hm & Hr)]; [by apply isZeroValue_false in Hd|]. exists [(wt, p)].
      split_and!; try done.
      * intros buf. rewrite Hm. unfold flat. cbn. by rewrite app_nil_r, Number_valid.
      * rewrite zlen_flat_cons. cbn [fst snd]. pose proof (zlen_nonneg (AppendTag [] fn wt)).
        pose proof (zlen_nonneg (flat fn [])). intros. apply reads_one; [done|]. apply Hr. lia.
Qed.

(** ** The loop over the fields *)

Lemma fieldMap_cons i f fs acc :
  fieldMap i (f :: fs) acc =
  fieldMap (S i) fs (match wireField f with Some t => <[Number t.1.2 := i]> acc | None => acc end).
Proof.
  cbn [fieldMap]. unfold wireField. destruct (String.eqb (Tag f) ""); [done|].
  by destruct (parseProtoTag (Tag f)) as [|[[ft fn] r]].
Qed.

Lemma numbers_cons f fs :
  numbers (f :: fs) = match wireField f with Some t => Number t.1.2 :: numbers fs | None => numbers fs end.
Proof. unfold numbers. cbn. by destruct (wireField f). Qed.

Lemma elem_of_numbers num fs :
  num ∈ numbers fs ↔ ∃ f t, f ∈ fs ∧ wireField f = Some t ∧ Number t.1.2 = num.
Proof.
  unfold numbers. rewrite list_elem_of_omap. split.
  - intros (f & Hf & Hn). destruct (wireField f) as [t|] eqn:E; cbn in Hn; [|done]. exists f, t. naive_solver.
  - intros (f & t & Hf & Ht & <-). exists f. by rewrite Ht.
Qed.

Lemma fieldMap_notin num fs : ∀ i acc, num ∉ numbers fs → fieldMap i fs acc !! num = acc !! num.
Proof.
  induction fs as [|f fs IH]; intros i acc; [done|]. rewrite numbers_cons, fieldMap_cons.
  destruct (wireField f) as [t|]; [|apply IH]. rewrite not_elem_of_cons. intros [? ?].
  rewrite IH by done. by rewrite lookup_insert_ne.
Qed.

Lemma fieldMap_lookup fs : ∀ i acc j f t,
  NoDup (numbers fs) → fs !! j = Some f → wireField f = Some t →
  fieldMap i fs acc !! Number t.1.2 = Some (i + j)%nat.
Proof.
  induction fs as [|g fs IH]; intros i acc j f t Hnd Hj Ht; [done|].
  rewrite numbers_cons in Hnd. rewrite fieldMap_cons. destruct j as [|j]; cbn in Hj.
  - simplify_eq. rewrite Ht in *. apply NoDup_cons in Hnd as [Hni Hnd].
    rewrite fieldMap_notin by done. rewrite lookup_insert_eq. f_equal. lia.
  - rewrite (IH (S i) _ j f t); [f_equal; lia| |done|done].
    destruct (wireField g); [by apply NoDup_cons in Hnd as []|done].
Qed.

Lemma from_app (a b : list Z) : from (a ++ b) (zlen a) = ret b.
Proof.
  unfold from. rewrite slice_range by (rewrite ?zlen_app; pose proof (zlen_nonneg a); pose proof (zlen_nonneg b); lia).
  rewrite zlen_app. replace (zlen a + zlen b - zlen a) with (zlen b) by lia.
  unfold zlen. by rewrite !Nat2Z.id, drop_app_length, firstn_all.
Qed.

Lemma tag_nonempty fn wt rest : validNumber fn → validType wt →
  (0 < length (AppendTag [] fn wt))%nat ∧ ConsumeTag (AppendTag [] fn wt ++ rest) = (fn, wt, zlen (AppendTag [] fn wt)).
Proof.
  intros Hn Ht. split; [|by apply tag_consume].
  pose proof (tag_consume fn wt [] Hn Ht) as E. apply tag_bound in E; [|apply zlen_nonneg]. unfold zlen in E. lia.
Qed.

Lemma next_known fuel rs idx f ft fn n0 wt p v0 v1 rest :
  validNumber fn → validType wt → readsBack p wt v0 v1 (isRepeated f) →
  rs !! idx = Some (f, v0) → fieldMap 0 (map fst rs) ∅ !! fn = Some idx →
  exported f = true → parseProtoTag (Tag f) = inr (ft, n0, isRepeated f) → (length p < fuel)%nat →
  unmarshalNext (unmarshalStruct fuel) false (AppendTag [] fn wt ++ p ++ rest) rs
    = ret (rest, <[idx := (f, v1)]> rs).
Proof.
  intros Hn Ht [Hr _] Hi Hm He Hp Hf. unfold unmarshalNext.
  destruct (tag_nonempty fn wt (p ++ rest) Hn Ht) as [_ ->]. rewrite zlen_ltb, from_app. cbn [gbind ret].
  rewrite Hm, Hi, He, Hp. cbn [orb negb]. rewrite Hr by done. cbn [ret]. by rewrite from_app.
Qed.

Lemma next_unknown fuel rs fn wt p v0 v1 r rest :
  validNumber fn → validType wt → readsBack p wt v0 v1 r → fieldMap 0 (map fst rs) ∅ !! fn = None →
  unmarshalNext (unmarshalStruct fuel) false (AppendTag [] fn wt ++ p ++ rest) rs = ret (rest, rs).
Proof.
  intros Hn Ht [_ Hs] Hm. unfold unmarshalNext.
  destruct (tag_nonempty fn wt (p ++ rest) Hn Ht) as [_ ->]. rewrite zlen_ltb, from_app. cbn [gbind ret].
  rewrite Hm, Hs, zlen_ltb, from_app. done.
Qed.

Lemma unmarshal_iter fuel data rs data' rs' :
  data ≠ [] → unmarshalNext (unmarshalStruct fuel) false data rs = ret (data', rs') →
  unmarshalStruct (S fuel) false data rs = unmarshalStruct fuel false data' rs'.
Proof. intros Hd E. cbn [unmarshalStruct]. destruct data; [done|]. by rewrite E. Qed.

(** All items of one field. *)
Lemma read_items r v0 items v1 :
  reads r v0 items v1 → ∀ rs fn rest fuel (upd : value → list (finfo * value)),
  validNumber fn → rs = upd v0 →
  (∀ u0 u1 wt p fuel' rest', readsBack p wt u0 u1 r → validType wt → (length p < fuel')%nat →
     unmarshalNext (unmarshalStruct fuel') false (AppendTag [] fn wt ++ p ++ rest') (upd u0) = ret (rest', upd u1)) →
  (length (flat fn items ++ rest) < fuel)%nat →
  ∃ fuel', (length rest < fuel')%nat ∧
    unmarshalStruct fuel false (flat fn items ++ rest) rs = unmarshalStruct fuel' false rest (upd v1).
Proof.
  induction 1 as [v|wt p items v0 v1 v2 Ht Hb Hr IH]; intros rs fn rest fuel upd Hn -> Hstep Hf.
  - by exists fuel.
  - unfold flat in *. cbn [map concat fst snd] in *. rewrite <- !app_assoc in *.
    destruct (tag_nonempty fn wt [] Hn Ht) as [Hpos _].
    destruct fuel as [|fuel]; [lia|]. rewrite !length_app in Hf.
    destruct (IH (upd v1) fn rest fuel upd) as (fuel' & Hf' & E); try done.
    { rewrite length_app. lia. }
    exists fuel'. split; [done|]. rewrite <- E. apply unmarshal_iter.
    + intros Habs. apply (f_equal length) in Habs. rewrite length_app in Habs. cbn in Habs. lia.
    + apply (Hstep v0); try done. lia.
Qed.

(** ** The fields a reader knows *)

Section Reader.
Variable keep : finfo → bool.

(** What a reader whose message type has only the kept fields sees. *)
Definition known (fs : list (finfo * value)) : list (finfo * value) := filter (fun p => keep p.1 = true) fs.

Lemma known_app fs gs : known (fs ++ gs) = known fs ++ known gs.
Proof. apply filter_app. Qed.

Lemma known_cons f v fs : known ((f, v) :: fs) = if keep f then (f, v) :: known fs else known fs.
Proof.
  unfold known. destruct (keep f) eqn:E;
    [by rewrite filter_cons_True|rewrite filter_cons_False by (cbn; congruence); done].
Qed.

Lemma fst_zeros fs : map fst (zeros fs) = map fst fs.
Proof. unfold zeros. by rewrite map_map. Qed.

Lemma known_numbers num fs : num ∈ numbers (map fst (known fs)) → num ∈ numbers (map fst fs).
Proof.
  rewrite !elem_of_numbers. intros (f & t & Hf & Ht). exists f, t. split; [|done].
  apply list_elem_of_fmap in Hf as (p & -> & Hp). apply list_elem_of_filter in Hp as [_ Hp].
  apply list_elem_of_fmap. by exists p.
Qed.

Lemma known_NoDup fs : NoDup (numbers (map fst fs)) → NoDup (numbers (map fst (known fs))).
Proof.
  induction fs as [|[f v] fs IH]; [done|]. cbn [map fst]. rewrite numbers_cons, known_cons.
  destruct (keep f); cbn [map fst]; rewrite ?numbers_cons;
    destruct (wireField f); try apply IH; rewrite ?NoDup_cons.
  - intros [Hn Hnd]. split; [|by apply IH]. contradict Hn. by apply known_numbers.
  - intros [_ Hnd]. by apply IH.
Qed.

Lemma sent_field f ft fn r : sent f = true → parseProtoTag (Tag f) = inr (ft, fn, r) →
  exported f = true ∧ wireField f = Some (ft, fn, r).
Proof.
  unfold sent, wireField. destruct (String.eqb (Tag f) ""); [done|]. destruct (exported f); [|done].
  intros _ ->. done.
Qed.

Lemma unknown_notin pre f v suf t :
  keep f = false → wireField f = Some t → NoDup (numbers (map fst (pre ++ (f, v) :: suf))) →
  Number t.1.2 ∉ numbers (map fst (known pre ++ zeros (known suf))).
Proof.
  intros Hk Ht Hnd. rewrite map_app, fst_zeros, <- map_app, <- known_app.
  intros Hin%known_numbers. revert Hnd Hin.
  unfold numbers. rewrite !map_app, !omap_app. cbn [map fst].
  change (omap _ (f :: map fst suf)) with (numbers (f :: map fst suf)). rewrite numbers_cons, Ht.
  rewrite NoDup_app, NoDup_cons. rewrite elem_of_app. intros (_ & H1 & H2 & _) [Hin|Hin]; [|done].
  apply (H1 _ Hin). by left.
Qed.

Lemma read_fields suf : Forall (fun p => fieldOK singleRT p.1 p.2) suf →
  ∃ enc, (∀ buf, marshalFields marshalSingleValue buf suf = ret (buf ++ enc)) ∧
    (zlen enc < 2^63 → ∀ pre fuel, NoDup (numbers (map fst (pre ++ suf))) → (length enc < fuel)%nat →
       unmarshalStruct fuel false enc (known pre ++ zeros (known suf)) = ret (known (pre ++ suf))).
Proof.
  induction 1 as [|[f v] suf Hv _ (enc & Hm & Hu)].
  - exists []. split; [intros; cbn; by rewrite app_nil_r|]. intros _ pre [|fuel] _ ?; [lia|].
    cbn. by rewrite !app_nil_r.
  - cbn [fst snd] in Hv. apply field_RT in Hv. destruct (sent f) eqn:Es.
    + destruct Hv as (ft & fn & items & Hp & Hn & Hmf & Hr).
      destruct (sent_field _ _ _ _ Es Hp) as [He Hw].
      exists (flat fn items ++ enc). split.
      { intros buf. cbn [marshalFields]. rewrite Hmf. cbn [gbind ret]. by rewrite Hm, app_assoc. }
      rewrite zlen_app. intros Hz pre fuel Hnd Hf.
      pose proof (zlen_nonneg (flat fn items)). pose proof (zlen_nonneg enc).
      specialize (Hr ltac:(lia)). specialize (Hu ltac:(lia) (pre ++ [(f, v)])).
      rewrite <- app_assoc, known_app, known_cons in Hu. cbn [app] in Hu. rewrite known_cons.
      destruct (keep f) eqn:Ek.
      * destruct (read_items _ _ _ _ Hr (known pre ++ (f, zero (typeOf v)) :: zeros (known suf)) fn enc fuel
                    (fun u => known pre ++ (f, u) :: zeros (known suf))) as (fuel' & Hf' & E); try done.
        { intros u0 u1 wt p fuel' rest' Hb Ht Hl.
          rewrite (next_known fuel' _ (length (known pre)) f ft fn fn wt p u0 u1 rest'); try done.
          - by rewrite insert_app_r_alt, Nat.sub_diag by lia.
          - by rewrite lookup_app_r, Nat.sub_diag by lia.
          - rewrite <- (Number_valid fn Hn). change fn with (ft, fn, isRepeated f).1.2.
            rewrite (fieldMap_lookup _ 0 ∅ (length (known pre)) f (ft, fn, isRepeated f)); try done.
            + rewrite map_app. cbn [map fst]. rewrite fst_zeros.
              pose proof (known_NoDup _ Hnd) as Hk. rewrite known_app, known_cons, Ek, map_app in Hk. done.
            + rewrite map_app. cbn [map fst]. rewrite lookup_app_r by (rewrite length_map; lia).
              by rewrite length_map, Nat.sub_diag. }
        cbn [zeros map fst snd]. change (map _ (known suf)) with (zeros (known suf)). rewrite E.
        cbn [known filter list_filter] in Hu. rewrite <- app_assoc in Hu. by apply Hu.
      * destruct (read_items _ _ _ _ Hr (known pre ++ zeros (known suf)) fn enc fuel
                    (fun _ => known pre ++ zeros (known suf))) as (fuel' & Hf' & E); try done.
        { intros u0 u1 wt p fuel' rest' Hb Ht Hl. eapply next_unknown; try done.
          rewrite fieldMap_notin; [done|]. rewrite <- (Number_valid fn Hn).
          by apply (unknown_notin pre f v suf (ft, fn, isRepeated f)). }
        rewrite E. cbn [known filter list_filter] in Hu. rewrite app_nil_r in Hu. by apply Hu.
    + destruct Hv as [Hz Hmf]. exists enc. split.
      { intros buf. cbn [marshalFields]. rewrite Hmf. cbn [gbind ret]. apply Hm. }
      intros Hl pre fuel Hnd Hf. specialize (Hu Hl (pre ++ [(f, v)]) fuel).
      rewrite <- app_assoc in Hu. cbn [app] in Hu. rewrite <- (Hu Hnd Hf). f_equal.
      rewrite known_app, !known_cons, <- app_assoc. destruct (keep f); [|done].
      cbn. by rewrite <- Hz.
Qed.
End Reader.

(** ** Every sendable value *)

Lemma fieldOK_mono (ok ok' : string → value → Prop) f v :
  (∀ ft, ok ft v → ok' ft v) →
  (∀ e l ft, v = VSlice e l → Forall (fun x => ok ft x → ok' ft x) l) →
  fieldOK ok f v → fieldOK ok' f v.
Proof.
  intros Hv Hl. unfold fieldOK. destruct (_ || _); [done|].
  destruct (parseProtoTag (Tag f)) as [|[[ft fn] [|]]]; [done| |].
  - destruct v as [| | | | | |e l| | |]; try done. rewrite !allP_Forall. intros [Hn Hall]. split; [done|].
    specialize (Hl e l ft eq_refl). rewrite Forall_forall in *. naive_solver.
  - naive_solver.
Qed.

Lemma known_all fs : known (fun _ => true) fs = fs.
Proof. unfold known. apply filter_all. by apply Forall_true. Qed.

Lemma message_fields fs :
  (∀ p, p ∈ fs → fieldOK sendable p.1 p.2 → fieldOK singleRT p.1 p.2) →
  message fs → ∀ keep, ∃ enc, (∀ buf, marshalFields marshalSingleValue buf fs = ret (buf ++ enc)) ∧
    (zlen enc < 2^63 → ∀ fuel, (length enc < fuel)%nat →
       unmarshalStruct fuel false enc (zeros (known keep fs)) = ret (known keep fs)).
Proof.
  intros Hp [Hnd Hall] keep. destruct (read_fields keep fs) as (enc & Hm & Hu).
  { rewrite Forall_forall in *. auto. }
  exists enc. split; [done|]. intros Hz fuel Hf. by apply (Hu Hz [] fuel).
Qed.

Lemma sendable_RT v :
  (∀ ft, sendable ft v → singleRT ft v) ∧ (∀ f, fieldOK sendable f v → fieldOK singleRT f v) ∧
  (∀ fs, v = VStruct fs → message fs → structRT fs).
Proof.
  induction v as [v Hv|e l IH|fs IH|e o IH] using value_nested_ind.
  - assert (∀ ft, sendable ft v → singleRT ft v) by (intros; by apply scalar_RT). split_and!; try done.
    + intros f. apply fieldOK_mono; [done|]. intros e l ft ->. done.
    + intros fs ->. done.
  - split_and!; [intros; by apply slice_RT| |done]. intros f. apply fieldOK_mono; [intros; by apply slice_RT|].
    intros e' l' ft [= <- <-]. eapply Forall_impl; [exact IH|]. cbn. naive_solver.
  - assert (Hs : message fs → structRT fs).
    { intros Hm. destruct (message_fields fs) with (keep := fun _ : finfo => true) as (enc & He & Hu); [|done|].
      - intros p Hp. rewrite Forall_forall in IH. by apply IH.
      - exists enc. split; [apply He|]. by rewrite known_all in Hu. }
    assert (∀ ft, sendable ft (VStruct fs) → singleRT ft (VStruct fs)) as Hsing.
    { intros ft (-> & Hnd & Hall). apply structRT_single, Hs. split; [done|]. by apply allP_Forall. }
    split_and!; [done| |by intros ? [= <-]]. intros f. apply fieldOK_mono; [done|]. done.
  - assert (∀ ft, sendable ft (VPtr e o) → singleRT ft (VPtr e o)) as Hsing.
    { intros ft. destruct o as [[| | | | | | |fs| |]|]; cbn [sendable]; try done.
      intros (-> & -> & Hnd & Hall). apply structRT_ptr. apply (IH _ eq_refl); [done|].
      split; [done|]. by apply allP_Forall. }
    split_and!; [done| |done]. intros f. by apply fieldOK_mono.
Qed.

(** The encoding of a message, and what a reader with the kept fields decodes. *)
Lemma message_decodes fs keep : message fs →
  ∃ bs, Marshal (Some (VStruct fs)) = ret bs ∧
    (zlen bs < 2^63 → ∀ e,
       Unmarshal bs (VPtr e (Some (VStruct (zeros (known keep fs))))) = ret (VPtr e (Some (VStruct (known keep fs))))).
Proof.
  intros Hm. destruct (message_fields fs) with (keep := keep) as (enc & He & Hu); [|done|].
  { intros p _. apply sendable_RT. }
  exists enc. split; [apply He|]. intros Hz e. unfold Unmarshal. rewrite Hu; [done..|lia].
Qed.

(** ** Decoding arbitrary bytes *)

(** A type [Unmarshal] can fill: the tagged fields are exported and pointers
    point to structs. *)
Fixpoint decodable (k : kind) : Prop :=
  match k with
  | KSlice e => decodable e
  | KStruct fs => allP (fun p => (Tag p.1 ≠ ""%string → exported p.1 = true) ∧ decodable p.2) fs
  | KPtr e => match e with KStruct _ => decodable e | _ => False end
  | _ => True
  end.

Fixpoint target (v : value) : Prop :=
  match v with
  | VSlice e _ => decodable e
  | VStruct fs => allP (fun p => (Tag p.1 ≠ ""%string → exported p.1 = true) ∧ target p.2) fs
  | VPtr e o =>
      (match e with KStruct _ => decodable e | _ => False end) ∧
      (match o with Some v => typeOf v = e ∧ target v | None => True end)
  | _ => True
  end.

Lemma kind_nested_ind (Q : kind → Prop) :
  (∀ k, match k with KSlice _ | KStruct _ | KPtr _ => False | _ => True end → Q k) →
  (∀ e, Q e → Q (KSlice e)) →
  (∀ fs, Forall (fun p => Q p.2) fs → Q (KStruct fs)) →
  (∀ e, Q e → Q (KPtr e)) →
  ∀ k, Q k.
Proof.
  intros Hb Hl Hs Hp. fix IH 1. intros v. destruct v as [| | | | | |e|fs|e|]; try (apply Hb; exact I).
  - apply Hl, IH.
  - apply Hs. induction fs as [|x l IHl]; constructor; [apply IH|exact IHl].
  - apply Hp, IH.
Qed.

Lemma zero_target k : decodable k → target (zero k) ∧ typeOf (zero k) = k.
Proof.
  induction k as [k Hk|e IH|fs IH|e IH] using kind_nested_ind.
  - destruct k; try contradiction; done.
  - done.
  - cbn [decodable zero target typeOf]. rewrite !allP_Forall, map_map. intros Hd. cbn [fst snd].
    rewrite Forall_map. split.
    + rewrite Forall_forall in *. cbn. intros p Hp. split; [by apply Hd|]. by apply IH, Hd.
    + f_equal. induction fs as [|[f k] fs IHf]; [done|]. inversion_clear IH. inversion_clear Hd.
      cbn [map fst snd]. rewrite IHf by done. cbn in *. f_equal. f_equal. naive_solver.
  - cbn. done.
Qed.

(** An outcome that is no panic and no exhausted bound. *)
Definition returns {A} (m : gores A) (Q : A → Prop) : Prop :=
  match m with Ok (inr a) => Q a | Ok (inl _) => True | _ => False end.

Lemma returns_bind {A B} (m : gores A) (k : A → gores B) (Q : A → Prop) (R : B → Prop) :
  returns m Q → (∀ a, Q a → returns (k a) R) → returns (gbind m k) R.
Proof. destruct m as [[]| |]; cbn; naive_solver. Qed.

Definition sameType (fs fs' : list (finfo * value)) : Prop := typeOf (VStruct fs') = typeOf (VStruct fs).

(** The nested decoder used on at most [m] bytes. *)
Definition total (m : Z) (us : bool → list Z → list (finfo * value) → gores (list (finfo * value))) : Prop :=
  ∀ data fs, zlen data ≤ m → target (VStruct fs) →
    returns (us false data fs) (fun fs' => target (VStruct fs') ∧ sameType fs fs').

Lemma single_total us data wt fv : total (zlen data) us → target fv →
  returns (unmarshalSingle us false data wt fv)
    (fun r => target r.1 ∧ typeOf r.1 = typeOf fv ∧ 0 ≤ r.2 ≤ zlen data).
Proof.
  intros Hus Hv. unfold unmarshalSingle. destruct (wt =? VarintType).
  { destruct (ConsumeVarint data) as [val n] eqn:E. apply varint_bound in E.
    destruct (n <? 0) eqn:En; [done|]. apply Z.ltb_ge in En. by destruct fv; cbn; split_and?. }
  destruct (wt =? Fixed64Type).
  { destruct (ConsumeFixed64 data) as [val n] eqn:E. apply fixed64_bound in E.
    destruct (n <? 0) eqn:En; [done|]. apply Z.ltb_ge in En. by destruct fv; cbn; split_and?. }
  destruct (wt =? Fixed32Type).
  { destruct (ConsumeFixed32 data) as [val n] eqn:E. apply fixed32_bound in E.
    destruct (n <? 0) eqn:En; [done|]. apply Z.ltb_ge in En. by destruct fv; cbn; split_and?. }
  destruct (wt =? BytesType); [|done].
  destruct (ConsumeBytes data) as [val n] eqn:E. destruct (n <? 0) eqn:En; [done|]. apply Z.ltb_ge in En.
  apply bytes_bound in E as [Hn Hs]; [|done].
  assert (Hfs : ∀ fs, target (VStruct fs) →
            returns (us false val fs) (fun fs' => target (VStruct fs') ∧ sameType fs fs')).
  { intros fs. apply Hus. lia. }
  destruct fv as [| | | | | |e l|fs|e o|]; try done.
  - destruct e; try done. repeat case_match; done.
  - eapply returns_bind; [by apply Hfs|]. intros fs' [Ht Hty]. by split_and!.
  - destruct Hv as [He Ho].
    assert (∃ fs, match o with None => settle false (zero e) | Some v => ret v end = ret (VStruct fs) ∧
                  target (VStruct fs) ∧ typeOf (VStruct fs) = e) as (fs & -> & Ht & Hty).
    { destruct e as [| | | | | | |ks| |]; try done. destruct o as [v|].
      - destruct Ho as [Hty Ht]. destruct v; try done. eauto.
      - destruct (zero_target (KStruct ks) He) as [Ht Hty]. cbn [settle ret]. eexists. split_and!; [reflexivity|done..]. }
    cbn [gbind ret]. eapply returns_bind; [by apply Hfs|]. intros fs' [Ht' Hty']. cbn [returns ret fst snd].
    split_and!; [|done..]. split; [done|]. split; [|done]. rewrite <- Hty. apply Hty'.
Qed.

Lemma field_total us data wt fv r : total (zlen data) us → target fv →
  returns (unmarshalField us false data wt fv r)
    (fun r => target r.1 ∧ typeOf r.1 = typeOf fv ∧ 0 ≤ r.2 ≤ zlen data).
Proof.
  intros Hus Hv. destruct r; [|by apply single_total]. cbn [unmarshalField]. unfold unmarshalRepeated.
  destruct fv as [| | | | | |e l| | |]; try done.
  eapply returns_bind; [apply single_total; [done|by apply zero_target]|].
  intros [elem n] (_ & _ & Hn). done.
Qed.

Lemma from_total data n : 0 ≤ n ≤ zlen data →
  returns (from data n) (fun d => zlen d = zlen data - n).
Proof.
  intros Hn. unfold from. rewrite slice_range by lia. cbn. unfold zlen in *.
  rewrite length_take, length_drop. lia.
Qed.

Lemma fieldMap_bound fs num idx : fieldMap 0 fs ∅ !! num = Some idx → ∃ f, fs !! idx = Some f ∧ Tag f ≠ ""%string.
Proof.
  assert (∀ i acc, fieldMap i fs acc !! num = Some idx →
            acc !! num = Some idx ∨ ∃ j f, idx = (i + j)%nat ∧ fs !! j = Some f ∧ Tag f ≠ ""%string) as H.
  { induction fs as [|f fs IH]; intros i acc Hm; [by left|]. rewrite fieldMap_cons in Hm.
    apply IH in Hm as [Hm|(j & g & -> & Hg)]; [|right; exists (S j), g; split; [lia|done]].
    unfold wireField in Hm. destruct (String.eqb (Tag f) "") eqn:Et; [by left|].
    destruct (parseProtoTag (Tag f)); [by left|]. apply lookup_insert_Some in Hm as [[_ <-]|[_ Hm]]; [|by left].
    right. exists 0%nat, f. split_and!; [lia|done|]. by apply String.eqb_neq in Et. }
  intros Hm. apply H in Hm as [Hm|(j & f & -> & Hf)]; [by rewrite lookup_empty in Hm|]. eauto.
Qed.

Lemma target_lookup fs idx f fv : target (VStruct fs) → fs !! idx = Some (f, fv) →
  (Tag f ≠ ""%string → exported f = true) ∧ target fv.
Proof. cbn [target]. rewrite allP_Forall, Forall_lookup. intros H Hi. apply (H _ _ Hi). Qed.

Lemma target_insert fs idx f fv fv' :
  target (VStruct fs) → fs !! idx = Some (f, fv) → target fv' → typeOf fv' = typeOf fv →
  target (VStruct (<[idx := (f, fv')]> fs)) ∧ sameType fs (<[idx := (f, fv')]> fs).
Proof.
  intros Ht Hi Hv Hty. split.
  - pose proof (target_lookup _ _ _ _ Ht Hi) as [He _]. cbn [target] in *.
    rewrite allP_Forall in *. by apply Forall_insert.
  - unfold sameType. cbn [typeOf]. f_equal. change (map ?g ?l) with (g <$> l).
    rewrite list_fmap_insert. apply list_insert_id. rewrite list_lookup_fmap, Hi. cbn. by rewrite Hty.
Qed.

Lemma next_total us data fs : total (zlen data - 1) us → target (VStruct fs) →
  returns (unmarshalNext us false data fs)
    (fun r => zlen r.1 < zlen data ∧ target (VStruct r.2) ∧ sameType fs r.2).
Proof.
  intros Hus Ht. unfold unmarshalNext. destruct (ConsumeTag data) as [[num wt] n] eqn:E.
  destruct (n <? 0) eqn:En; [done|]. apply Z.ltb_ge in En. apply tag_bound in E; [|done].
  eapply returns_bind; [apply from_total; lia|]. cbn beta. intros d Hd.
  destruct (fieldMap 0 (map fst fs) ∅ !! num) as [idx|] eqn:Em.
  - apply fieldMap_bound in Em as (f & Hi & Hne). apply list_lookup_fmap_Some in Hi as ([f' fv] & -> & Hi).
    rewrite Hi. destruct (target_lookup _ _ _ _ Ht Hi) as [He Hv]. cbn [fst] in Hne. rewrite (He Hne). cbn [negb orb].
    match goal with |- context [unmarshalField us false d wt fv ?r] => pose proof (field_total us d wt fv r) as Hf end.
    assert (total (zlen d) us) as Hus' by (intros d' fs' Hd' Ht'; apply Hus; [lia|done]).
    specialize (Hf Hus' Hv). unfold returns in Hf.
    destruct (unmarshalField _ _ _ _ _ _) as [[e|[fv' k]]| |]; try done.
    destruct Hf as (Hv' & Hty & Hk). cbn [fst snd] in *.
    eapply returns_bind; [by apply from_total|]. cbn beta. intros d' Hd'. cbn [returns ret fst snd].
    split; [lia|]. by eapply target_insert.
  - pose proof (field_bound num wt d) as Hb. destruct (_ <? 0) eqn:Ek; [done|]. apply Z.ltb_ge in Ek.
    eapply returns_bind; [by apply from_total|]. cbn beta. intros d' Hd'. cbn [returns ret fst snd]. split; [lia|done].
Qed.

Lemma struct_total fuel : total (Z.of_nat fuel - 1) (unmarshalStruct fuel).
Proof.
  induction fuel as [|fuel IH]; intros data fs Hl Ht; [pose proof (zlen_nonneg data); lia|].
  cbn [unmarshalStruct]. destruct data as [|b data]; [done|].
  eapply returns_bind; [apply (next_total (unmarshalStruct fuel) (b :: data) fs); [|done]|].
  - intros d fs' Hd. apply IH. rewrite zlen_cons in *. lia.
  - intros [d fs'] (Hd & Ht' & Hty). cbn [fst snd] in *. rewrite zlen_cons in *.
    specialize (IH d fs' ltac:(lia) Ht'). unfold returns in *. destruct (unmarshalStruct fuel false d fs') as [[]| |]; try done.
    destruct IH as [? Hs]. split; [done|]. unfold sameType in *. by rewrite Hs.
Qed.

(** C14. Round trip: every message whose tags are well formed and whose values
    fit their fields (the integer widths, no signalling NaN, no negative zero)
    is encoded, and decoding the encoding into a fresh message of the type
    gives the message back.  (No Go slice has 2^63 elements.) *)
Theorem proto_roundtrip fs : message fs →
  ∃ bs, Marshal (Some (VStruct fs)) = ret bs ∧
    (zlen bs < 2^63 → ∀ e,
       Unmarshal bs (VPtr e (Some (zero (typeOf (VStruct fs))))) = ret (VPtr e (Some (VStruct fs)))).
Proof.
  intros Hm. destruct (message_decodes fs (fun _ => true) Hm) as (bs & He & Hu). exists bs. split; [done|].
  intros Hz e. rewrite zero_struct. rewrite known_all in Hu. by apply Hu.
Qed.

(** Forward compatibility: a reader whose message type has only some of the
    writer's fields decodes the writer's bytes into exactly those fields; the
    fields it does not know are skipped. *)
Theorem proto_forward_compatible (keep : finfo → bool) fs : message fs →
  ∃ bs, Marshal (Some (VStruct fs)) = ret bs ∧
    (zlen bs < 2^63 → ∀ e,
       Unmarshal bs (VPtr e (Some (VStruct (zeros (known keep fs)))))
         = ret (VPtr e (Some (VStruct (known keep fs))))).
Proof. apply message_decodes. Qed.

(** C15. Decoding untrusted bytes terminates without panicking: for any data and
    any target of a decodable type, [Unmarshal] returns an error or a message
    of the same type, within one loop iteration per byte. *)
Theorem unmarshal_total data e fs : target (VStruct fs) →
  returns (Unmarshal data (VPtr e (Some (VStruct fs))))
    (fun m => ∃ fs', m = VPtr e (Some (VStruct fs')) ∧ typeOf (VStruct fs') = typeOf (VStruct fs)).
Proof.
  intros Ht. unfold Unmarshal. eapply returns_bind.
  - apply (struct_total (S (length data))); [unfold zlen; lia|done].
  - intros fs' [_ Hs]. cbn. eauto.
Qed.
End Roundtrip.

(** ** A concrete message

    The board snapshot of the snake game (games/snake/messages.go). *)
Definition pointV (x y : Z) : value :=
  VStruct [(mkField "X" "varint,1,opt,name=x,proto3" true, VInt 64 x);
           (mkField "Y" "varint,2,opt,name=y,proto3" true, VInt 64 y)].

Definition snakeV (uid : list Z) (body : list value) (alive : bool) (score : Z) : value :=
  VStruct [(mkField "UID" "bytes,1,opt,name=uid,proto3" true, VString uid);
           (mkField "Body" "bytes,2,rep,name=body,proto3" true, VSlice (typeOf (pointV 0 0)) body);
           (mkField "Alive" "varint,3,opt,name=alive,proto3" true, VBool alive);
           (mkField "Score" "varint,4,opt,name=score,proto3" true, VInt 64 score)].

Definition stateNtfV (tick : Z) (snakes : list value) (food : value) : list (finfo * value) :=
  [(mkField "Tick" "varint,1,opt,name=tick,proto3" true, VInt 64 tick);
   (mkField "Snakes" "bytes,2,rep,name=snakes,proto3" true, VSlice (typeOf (snakeV [] [] false 0)) snakes);
   (mkField "Food" "bytes,3,opt,name=food,proto3" true, food)].

Definition demoState : list (finfo * value) :=
  stateNtfV 300 [snakeV [97] [pointV 3 7; pointV 2 7] true 1; snakeV [98] [pointV (-1) 0] false 0] (pointV 0 14).

Ltac solve_message :=
  vm_compute; repeat (split || match goal with |- _ ∨ _ => first [left; reflexivity | right] end);
  try reflexivity; try discriminate; try (apply (bool_decide_unpack _); exact I).

Lemma demoState_message : message demoState.
Proof.
  split; [apply (bool_decide_unpack _); vm_compute; exact I|].
  repeat (apply Forall_cons_2 || apply Forall_nil_2); solve_message.
Qed.

Lemma proto_roundtrip_witness :
  ∃ bs, Marshal (Some (VStruct demoState)) = ret bs ∧
    (zlen bs < 2^63 → ∀ e,
       Unmarshal bs (VPtr e (Some (zero (typeOf (VStruct demoState))))) = ret (VPtr e (Some (VStruct demoState)))).
Proof. exact (proto_roundtrip demoState demoState_message). Defined.

(** A client that knows the tick and the food only. *)
Definition oldClient (f : finfo) : bool := negb (String.eqb (Name f) "Snakes").

Lemma proto_forward_compatible_witness :
  ∃ bs, Marshal (Some (VStruct demoState)) = ret bs ∧
    (zlen bs < 2^63 → ∀ e,
       Unmarshal bs (VPtr e (Some (VStruct (zeros (known oldClient demoState)))))
         = ret (VPtr e (Some (VStruct (known oldClient demoState))))).
Proof. exact (proto_forward_compatible oldClient demoState demoState_message). Defined.

Lemma demo_target : target (VStruct (zeros demoState)).
Proof. cbn. tauto. Qed.

(** A tag for field 2, an announced length of 5 and no bytes. *)
Lemma unmarshal_total_witness :
  returns (Unmarshal [18; 5] (VPtr KOther (Some (VStruct (zeros demoState)))))
    (fun m => ∃ fs', m = VPtr KOther (Some (VStruct fs')) ∧ typeOf (VStruct fs') = typeOf (VStruct (zeros demoState))).
Proof. exact (unmarshal_total [18; 5] KOther (zeros demoState) demo_target). Defined.
