(* ===== verification/Envelope.v ===== *)
(** * Codec registry and response envelopes (internal/protocol/codec.go,
    internal/protocol/envelope.go, pkg/framework/errcode.go)

    Every response travels in an [ErrorEnvelope], encoded with the codec of the
    request and put in a frame.  The registry maps the low four bits of the
    frame flag to a codec.  [LawfulCodec] is what the envelope code needs of a
    codec; the protobuf codec is an instance, the JSON codec is the standard
    library's and stays a parameter of the registry. *)

From Stdlib Require Import Ascii.
From S2P Require Import Prelude Frame ProtoWire Proto ProtoThm.

(** ** Error codes *)

Definition Code := Z.
Definition OK : Code := 0.
Definition ErrUnknownMsg : Code := 1001.
Definition ErrDecode : Code := 1002.
Definition ErrFrameTooLong : Code := 1003.
Definition ErrUnauthorized : Code := 2001.
Definition ErrTokenInvalid : Code := 2002.
Definition ErrRateLimited : Code := 2003.
Definition ErrKicked : Code := 2004.
Definition ErrNotInRoom : Code := 3001.
Definition ErrRoomFull : Code := 3002.
Definition ErrGameStart : Code := 3003.
Definition ErrInQueue : Code := 3004.
Definition ErrInternal : Code := 4001.
Definition ErrOverloaded : Code := 4002.
Definition ErrStorageDegraded : Code := 4003.
Definition ErrMaintenance : Code := 4005.

(** The bytes of a Go string. *)
Fixpoint str (s : string) : list Z :=
  match s with
  | EmptyString => []
  | String c s' => Z.of_nat (nat_of_ascii c) :: str s'
  end.

Definition defaultMessages : gmap Z string := list_to_map [
  (OK, "ok"); (ErrUnknownMsg, "unknown message id"); (ErrDecode, "decode failed");
  (ErrFrameTooLong, "frame too large"); (ErrUnauthorized, "unauthorized");
  (ErrTokenInvalid, "reconnect token invalid"); (ErrRateLimited, "rate limited"); (ErrKicked, "kicked");
  (ErrNotInRoom, "not in room"); (ErrRoomFull, "room is full"); (ErrGameStart, "game already started");
  (ErrInQueue, "already in match queue"); (ErrInternal, "internal error");
  (ErrOverloaded, "server overloaded"); (ErrStorageDegraded, "storage degraded, try later");
  (ErrMaintenance, "server under maintenance")]%string.

(** A missing key of a Go map reads as the empty string. *)
Definition Message (c : Code) : list Z := str (default ""%string (defaultMessages !! c)).

Record ErrCode := mkErr { ecCode : Code; ecMsg : list Z }.
Definition NewErr (code : Code) (msg : list Z) : ErrCode :=
  mkErr code (if decide (msg = []) then Message code else msg).

(** ** Codecs *)

Record Codec := mkCodec {
  Type_ : Z;
  cMarshal : option value → gores (list Z);
  cUnmarshal : list Z → value → gores value }.

Definition TypeJSON : Z := 0.
Definition TypeProtobuf : Z := 1.

Definition ProtoCodec `{Protowire} : Codec := mkCodec TypeProtobuf Marshal Unmarshal.

Notation codecs := (gmap Z Codec).

Definition Register (c : Codec) (cs : codecs) : codecs := <[Type_ c := c]> cs.

Inductive cerr := ECodecNotFound | ECodec (e : perr).
(** The result of code that may fail with [cerr] or panic. *)
Definition cres (A : Type) : Type := res (cerr + A).

Definition Get (typ : Z) (cs : codecs) : cerr + Codec :=
  match cs !! typ with Some c => inr c | None => inl ECodecNotFound end.
Definition MustGet (typ : Z) (cs : codecs) : res Codec :=
  match Get typ cs with inr c => Ok c | inl _ => Panic end.

(** Errors of a codec call, passed on. *)
Definition lift {A B} (m : gores A) (k : A → cres B) : cres B :=
  match m with
  | Ok (inr a) => k a
  | Ok (inl e) => Ok (inl (ECodec e))
  | Panic => Panic
  | OutOfFuel => OutOfFuel
  end.

(** ** The envelope *)

Record ErrorEnvelope := mkEnvelope { eSeq : Z; eCode : Code; eMsg : list Z; eBody : list Z }.

Definition fSeq : finfo := mkField "Seq" "varint,1,opt,name=seq,proto3" true.
Definition fCode : finfo := mkField "Code" "varint,2,opt,name=code,proto3" true.
Definition fMsg : finfo := mkField "Msg" "bytes,3,opt,name=msg,proto3" true.
Definition fBody : finfo := mkField "Body" "bytes,4,opt,name=body,proto3" true.

(** The envelope as reflect sees it, and back. *)
Definition envFields (e : ErrorEnvelope) : list (finfo * value) :=
  [(fSeq, VUint 32 (eSeq e)); (fCode, VUint 16 (eCode e)); (fMsg, VString (eMsg e));
   (fBody, VSlice (KUint 8) (map (VUint 8) (eBody e)))].
Definition envType : kind := typeOf (VStruct (envFields (mkEnvelope 0 0 [] []))).

Definition envOf (v : value) : option ErrorEnvelope :=
  match v with
  | VPtr _ (Some (VStruct [(_, VUint _ s); (_, VUint _ c); (_, VString m); (_, VSlice _ b)])) =>
      Some (mkEnvelope s c m (bytesOf b))
  | _ => None
  end.

Definition NewErrorFrameFor (cs : codecs) (typ msgID seq : Z) (code : Code) (msg : list Z) (body : option value)
    : cres Frame :=
  match Get typ cs with
  | inl e => Ok (inl e)
  | inr c =>
      let msg := if decide (msg = []) then Message code else msg in
      let finishEnv raw :=
        let env := mkEnvelope seq code msg raw in
        lift (cMarshal c (Some (VPtr envType (Some (VStruct (envFields env))))))
          (fun raw => Ok (inr (mkFrame ProtocolVer msgID typ seq [] raw))) in
      match body with
      | Some b => lift (cMarshal c (Some b)) finishEnv
      | None => finishEnv []
      end
  end.

Definition NewErrorFrame (cs : codecs) := NewErrorFrameFor cs TypeJSON.
Definition NewOKFrameFor (cs : codecs) (typ msgID seq : Z) (resp : option value) : cres Frame :=
  NewErrorFrameFor cs typ msgID seq OK [] resp.
Definition NewOKFrame (cs : codecs) (msgID seq : Z) (resp : option value) : cres Frame :=
  NewErrorFrame cs msgID seq OK [] resp.

Definition DecodeEnvelope (cs : codecs) (f : Frame) : cres (option ErrorEnvelope) :=
  match Get (CodecType f) cs with
  | inl e => Ok (inl e)
  | inr c =>
      lift (cUnmarshal c (Body f) (VPtr envType (Some (zero envType)))) (fun v => Ok (inr (envOf v)))
  end.

(** ** What the envelope code needs of a codec *)

(** A message pointer is encoded, and decoded from its encoding. *)
Class LawfulCodec (c : Codec) : Prop := lawful :
  ∀ k fs, message fs →
    ∃ bs, cMarshal c (Some (VPtr k (Some (VStruct fs)))) = ret bs ∧
      (zlen bs < 2^63 → ∀ e,
         cUnmarshal c bs (VPtr e (Some (zero (typeOf (VStruct fs))))) = ret (VPtr e (Some (VStruct fs)))).

#[export] Instance ProtoCodec_lawful {P : Protowire} {L : ProtowireLaws P} : LawfulCodec ProtoCodec.
Proof.
  intros k fs Hm. destruct (message_decodes fs (fun _ => true) Hm) as (bs & He & Hu). exists bs. split; [exact He|].
  intros Hz e. rewrite zero_struct. rewrite known_all in Hu. by apply Hu.
Qed.

(** ** Envelopes are messages *)

Definition u32 (z : Z) : Prop := 0 ≤ z < 2^32.
Definition u16 (z : Z) : Prop := 0 ≤ z < 2^16.

Lemma envFields_message e :
  u32 (eSeq e) → u16 (eCode e) → Forall is_byte (eBody e) → message (envFields e).
Proof.
  intros Hs Hc Hb. split; [apply (bool_decide_unpack _); vm_compute; exact I|].
  unfold envFields. repeat apply Forall_cons_2; [..|apply Forall_nil_2]; cbn [fst snd].
  - apply (fieldOK_single _ _ _ "varint" 1); [done..|unfold validNumber; lia|done|]. right.
    split_and!; [done|by right; right; left|apply Hs|apply Hs].
  - apply (fieldOK_single _ _ _ "varint" 2); [done..|unfold validNumber; lia|done|]. right.
    split_and!; [done|by right; left|apply Hc|apply Hc].
  - apply (fieldOK_single _ _ _ "bytes" 3); [done..|unfold validNumber; lia|done|]. by right.
  - apply (fieldOK_single _ _ _ "bytes" 4); [done..|unfold validNumber; lia|done|]. right. cbn [sendable].
    split_and!; [done..|]. apply allP_Forall. apply (Forall_map (VUint 8) _ (eBody e)).
    eapply Forall_impl; [exact Hb|]. done.
Qed.

Lemma envType_zero e : zero envType = zero (typeOf (VStruct (envFields e))).
Proof. reflexivity. Qed.

Lemma envOf_fields k e : envOf (VPtr k (Some (VStruct (envFields e)))) = Some e.
Proof.
  destruct e. cbn. f_equal. f_equal. unfold bytesOf. rewrite map_map. apply map_id.
Qed.

(** The frame of a response, and what decoding it gives. *)
Lemma frame_decodes cs typ c msgID seq code msg body raw :
  cs !! typ = Some c → LawfulCodec c → 0 ≤ typ < 16 → u32 seq → u16 code →
  match body with
  | None => raw = []
  | Some b => cMarshal c (Some b) = ret raw ∧ Forall is_byte raw
  end →
  ∃ f, NewErrorFrameFor cs typ msgID seq code msg body = Ok (inr f) ∧
    Frame.MsgID f = msgID ∧ Frame.Seq f = seq ∧ CodecType f = typ ∧
    (zlen (Frame.Body f) < 2^63 →
     DecodeEnvelope cs f = Ok (inr (Some (mkEnvelope seq code (ecMsg (NewErr code msg)) raw)))).
Proof.
  intros Hc HL Ht Hs Hcode Hraw.
  set (env := mkEnvelope seq code (if decide (msg = []) then Message code else msg) raw).
  destruct (lawful (c := c) envType (envFields env)) as (bs & Hm & Hu).
  { apply envFields_message; [done..|]. change (eBody env) with raw. destruct body as [b|]; [by destruct Hraw|by rewrite Hraw]. }
  exists (mkFrame ProtocolVer msgID typ seq [] bs).
  assert (Hty : CodecType (mkFrame ProtocolVer msgID typ seq [] bs) = typ).
  { unfold CodecType. cbn [Flag]. change FlagCodecMask with (Z.ones 4). rewrite Z.land_ones by lia.
    apply Z.mod_small. lia. }
  split_and!; [|done..|].
  - unfold NewErrorFrameFor, Get. rewrite Hc. destruct body as [b|].
    + destruct Hraw as [-> _]. cbn [lift ret]. fold env. by rewrite Hm.
    + subst raw. cbn [lift ret]. fold env. by rewrite Hm.
  - intros Hz. unfold DecodeEnvelope, Get. rewrite Hty, Hc. cbn [Frame.Body].
    rewrite (envType_zero env), (Hu Hz). cbn [lift ret]. by rewrite envOf_fields.
Qed.

(** What the server wraps, the client unwraps: with a lawful codec
    registered for the type, a response built by [NewErrorFrameFor] carries the
    request's message id and sequence number and the codec type in its flag,
    and [DecodeEnvelope] recovers the code, the text (the default one of the
    code when none is given) and the encoded body. *)
Theorem envelope_roundtrip cs typ c msgID seq code msg body raw :
  cs !! typ = Some c → LawfulCodec c → 0 ≤ typ < 16 → u32 seq → u16 code →
  match body with
  | None => raw = []
  | Some b => cMarshal c (Some b) = ret raw ∧ Forall is_byte raw
  end →
  ∃ f, NewErrorFrameFor cs typ msgID seq code msg body = Ok (inr f) ∧
    Frame.MsgID f = msgID ∧ Frame.Seq f = seq ∧ CodecType f = typ ∧
    (zlen (Frame.Body f) < 2^63 →
     DecodeEnvelope cs f = Ok (inr (Some (mkEnvelope seq code (ecMsg (NewErr code msg)) raw)))).
Proof. apply frame_decodes. Qed.

Lemma envelope_roundtrip_witness :
  ∃ f, NewErrorFrameFor (Register ProtoCodec ∅) 1 0x1100 7 ErrRoomFull [] None = Ok (inr f) ∧
    Frame.MsgID f = 0x1100 ∧ Frame.Seq f = 7 ∧ CodecType f = 1 ∧
    (zlen (Frame.Body f) < 2^63 →
     DecodeEnvelope (Register ProtoCodec ∅) f
       = Ok (inr (Some (mkEnvelope 7 3002 (str "room is full") [])))).
Proof.
  apply (envelope_roundtrip (Register ProtoCodec ∅) 1 ProtoCodec 0x1100 7 ErrRoomFull [] None []).
  - reflexivity.
  - apply _.
  - lia.
  - unfold u32. lia.
  - unfold u16, ErrRoomFull. lia.
  - reflexivity.
Defined.

(** ** The kick notice *)

(** The notice of [kickAndDestroy], [NewKickFrame] and [roomCtx.Kick]: an
    anonymous struct whose fields carry json tags only. *)
Definition kickNotice (code : Z) (reason : list Z) : value :=
  VStruct [(mkField "Code" "" true, VUint 16 code); (mkField "Reason" "" true, VString reason)].

(** Finding. A protobuf client is never told why it was kicked: the notice struct has
    no protobuf tags, so its encoding is empty whatever the code and reason. *)
Theorem kick_notice_empty `{P : Protowire} code reason :
  Marshal (Some (kickNotice code reason)) = ret [].
Proof. reflexivity. Qed.
