(* ===== verification/GoStrings.v ===== *)
(** * Strings and numbers of the Go standard library

    What the node-to-node code uses of [strings] and [strconv]: cutting and
    joining at a separator byte, decimal printing and parsing.  A Go string is
    a [string], that is a sequence of bytes. *)

From S2P Require Import Prelude Frame Envelope.
From Stdlib Require Import Ascii.
From Stdlib Require Import Decimal DecimalFacts DecimalPos DecimalZ DecimalString.

#[local] Open Scope string_scope.
#[local] Open Scope Z_scope.

(** The separator of a node name and a token. *)
Definition colon : ascii := ":"%char.

(** [strings.Cut] at the first occurrence of a byte. *)
Fixpoint cut (sep : ascii) (s : string) : option (string * string) :=
  match s with
  | EmptyString => None
  | String c s' =>
      if decide (c = sep) then Some (EmptyString, s')
      else '(a, b) ← cut sep s'; Some (String c a, b)
  end.

(** [strings.SplitN(s, sep, n)] with [n > 0]. *)
Fixpoint SplitN (n : nat) (sep : ascii) (s : string) : list string :=
  match n with
  | O => []
  | S O => [s]
  | S n' => match cut sep s with None => [s] | Some (a, b) => a :: SplitN n' sep b end
  end.

(** [strings.Split(s, sep)]: every occurrence cuts. *)
Definition Split (sep : ascii) (s : string) : list string := SplitN (S (String.length s)) sep s.

(** [strings.Join(l, sep)]. *)
Fixpoint Join (sep : ascii) (l : list string) : string :=
  match l with
  | [] => EmptyString
  | [x] => x
  | x :: l' => x ++ String sep (Join sep l')
  end.

(** [strings.IndexByte(s, c)], [-1] when the byte is absent. *)
Definition IndexByte (s : string) (c : ascii) : Z :=
  match cut c s with Some (a, _) => Z.of_nat (String.length a) | None => -1 end.

(** The byte does not occur. *)
Definition free (sep : ascii) (s : string) : bool := if cut sep s then false else true.

(** ** Decimal numbers *)

(** [strconv.Itoa], [strconv.FormatInt(z, 10)] and the verb [%d]. *)
Definition Itoa (z : Z) : string := NilZero.string_of_int (Z.to_int z).

Definition digit (c : ascii) : option Z :=
  let n := Z.of_nat (nat_of_ascii c) - 48 in
  if decide (0 ≤ n ∧ n ≤ 9) then Some n else None.

Fixpoint digits (s : string) (acc : Z) : option Z :=
  match s with
  | EmptyString => Some acc
  | String c s' => d ← digit c; digits s' (acc * 10 + d)
  end.

Inductive num_err := ErrSyntax | ErrRange.

(** [strconv.Atoi] and [strconv.ParseInt(s, 10, 64)]: the value comes with the
    error (0 for a syntax error, the nearest bound out of range). *)
Definition Atoi (s : string) : Z * option num_err :=
  let '(neg, t) :=
    match s with
    | String "+" t => (false, t)
    | String "-" t => (true, t)
    | _ => (false, s)
    end in
  match t with
  | EmptyString => (0, Some ErrSyntax)
  | _ =>
      match digits t 0 with
      | None => (0, Some ErrSyntax)
      | Some n =>
          let v := if (neg : bool) then - n else n in
          if decide (v < - 2^63) then (- 2^63, Some ErrRange)
          else if decide (2^63 ≤ v) then (2^63 - 1, Some ErrRange)
          else (v, None)
      end
  end.

(** ** Cutting and joining *)

Lemma string_cons_app c s t : String c s ++ t = String c (s ++ t).
Proof. done. Qed.

Lemma string_app_nil_r s : s ++ "" = s.
Proof. induction s as [|c s IH]; [done|]. by rewrite string_cons_app, IH. Qed.

Lemma string_app_assoc s t u : (s ++ t) ++ u = s ++ (t ++ u).
Proof. induction s as [|c s IH]; [done|]. by rewrite !string_cons_app, IH. Qed.

Lemma string_length_app s t : String.length (s ++ t) = (String.length s + String.length t)%nat.
Proof. induction s as [|c s IH]; [done|]. rewrite string_cons_app. cbn. by rewrite IH. Qed.

Lemma cut_app sep a b : free sep a = true → cut sep (a ++ String sep b) = Some (a, b).
Proof.
  unfold free. induction a as [|c a IH]; cbn [cut].
  - change ("" ++ String sep b) with (String sep b). cbn [cut]. by rewrite decide_True.
  - rewrite string_cons_app. cbn [cut]. case_decide; [done|]. destruct (cut sep a) as [[]|]; cbn; [done|]. intros _. by rewrite IH.
Qed.

Lemma cut_Some sep s a b : cut sep s = Some (a, b) → s = a ++ String sep b ∧ free sep a = true.
Proof.
  unfold free. revert a b. induction s as [|c s IH]; intros a b; cbn; [done|]. case_decide.
  - intros [= <- <-]. subst. done.
  - destruct (cut sep s) as [[a' b']|] eqn:E; cbn; [|done]. intros [= <- <-].
    destruct (IH a' b' eq_refl) as [-> Hf]. split; [done|]. cbn. rewrite decide_False by done.
    by destruct (cut sep a').
Qed.

Lemma free_app sep a b : free sep (a ++ b) = free sep a && free sep b.
Proof.
  unfold free. induction a as [|c a IH]; [done|]. rewrite string_cons_app. cbn [cut]. case_decide; [done|].
  destruct (cut sep a) as [[]|], (cut sep b) as [[]|], (cut sep (a ++ b)) as [[]|]; cbn in *; done.
Qed.

Lemma free_cons sep c s : free sep (String c s) = true ↔ c ≠ sep ∧ free sep s = true.
Proof.
  unfold free. cbn. case_decide; [naive_solver|]. destruct (cut sep s) as [[]|]; cbn; naive_solver.
Qed.

Lemma SplitN_free n sep s : free sep s = true → SplitN (S n) sep s = [s].
Proof. unfold free. intros H. destruct n; [done|]. cbn [SplitN]. by destruct (cut sep s). Qed.

(** Fields without the separator come back; only the last may contain it. *)
Lemma SplitN_Join sep fs l :
  Forall (fun f => free sep f = true) fs →
  SplitN (S (length fs)) sep (Join sep (fs ++ [l])) = (fs ++ [l])%list.
Proof.
  induction 1 as [|f fs Hf Hfs IH]; [done|].
  cbn [length]. change ((f :: fs) ++ [l])%list with (f :: (fs ++ [l]))%list.
  destruct (fs ++ [l])%list as [|x k] eqn:E; [by destruct fs|].
  change (Join sep (f :: x :: k)) with (f ++ String sep (Join sep (x :: k))).
  destruct fs as [|g fs]; cbn [length SplitN] in *; rewrite cut_app by done; by rewrite IH.
Qed.

Lemma Join_free sep sep' fs :
  sep ≠ sep' → Forall (fun f => free sep f = true) fs → free sep (Join sep' fs) = true.
Proof.
  intros Hne. induction 1 as [|f fs Hf Hfs IH]; [done|]. destruct fs as [|g fs]; [done|].
  change (Join sep' (f :: g :: fs)) with (f ++ String sep' (Join sep' (g :: fs))).
  rewrite free_app, Hf. by apply free_cons.
Qed.

Lemma Join_length sep fs : (length fs ≤ S (String.length (Join sep fs)))%nat.
Proof.
  induction fs as [|f fs IH]; [cbn; lia|]. destruct fs as [|g fs]; [cbn; lia|].
  change (Join sep (f :: g :: fs)) with (f ++ String sep (Join sep (g :: fs))).
  rewrite string_length_app. cbn [String.length length] in *. lia.
Qed.

(** Cutting at every separator: more cuts than separators change nothing. *)
Lemma SplitN_Join_all sep n fs :
  Forall (fun f => free sep f = true) fs → fs ≠ [] → (length fs ≤ n)%nat →
  SplitN n sep (Join sep fs) = fs.
Proof.
  intros Hfs. revert n. induction Hfs as [|f fs Hf Hfs IH]; intros n Hne Hn; [done|].
  destruct n as [|n]; [cbn in Hn; lia|]. destruct fs as [|g fs].
  { cbn [Join]. by apply SplitN_free. }
  change (Join sep (f :: g :: fs)) with (f ++ String sep (Join sep (g :: fs))).
  destruct n as [|n]; [cbn in Hn; lia|]. cbn [SplitN]. rewrite cut_app by done. f_equal.
  apply (IH (S n)); [done|]. cbn [length] in *. lia.
Qed.

Lemma Split_Join sep fs :
  Forall (fun f => free sep f = true) fs → fs ≠ [] → Split sep (Join sep fs) = fs.
Proof. intros. apply SplitN_Join_all; [done..|]. apply Join_length. Qed.

(** ** Printing and parsing numbers *)

(** Evaluate the value of a digit character. *)
Local Ltac to_digit :=
  match goal with |- context [Z.of_nat (nat_of_ascii ?c) - 48] =>
    let v := eval vm_compute in (Z.of_nat (nat_of_ascii c) - 48) in
    change (Z.of_nat (nat_of_ascii c) - 48) with v end.

Lemma digits_uint_acc d acc :
  digits (NilEmpty.string_of_uint d) (Zpos acc) = Some (Zpos (Pos.of_uint_acc d acc)).
Proof.
  revert acc. induction d; intros acc; cbn [NilEmpty.string_of_uint digits]; [done|..];
    match goal with |- context [digit ?c] => change (digit c) with (Some (Z.of_nat (nat_of_ascii c) - 48)) end;
    cbn [mbind option_bind Pos.of_uint_acc];
    rewrite <- IHd; f_equal; to_digit; lia.
Qed.

Lemma digits_uint d : digits (NilEmpty.string_of_uint d) 0 = Some (Z.of_N (Pos.of_uint d)).
Proof.
  induction d; cbn [NilEmpty.string_of_uint digits]; [done|..];
    match goal with |- context [digit ?c] => change (digit c) with (Some (Z.of_nat (nat_of_ascii c) - 48)) end;
    cbn [mbind option_bind Pos.of_uint Z.of_N];
    [exact IHd|rewrite <- digits_uint_acc; f_equal; to_digit; lia..].
Qed.

Lemma Itoa_free sep z : digit sep = None → sep ≠ "-"%char → free sep (Itoa z) = true.
Proof.
  intros Hd Hm.
  assert (Hu : ∀ d, free sep (NilEmpty.string_of_uint d) = true).
  { induction d; cbn [NilEmpty.string_of_uint]; [done|..]; apply free_cons; (split; [by intros <-|done]). }
  assert (Hz : ∀ d, free sep (NilZero.string_of_uint d) = true).
  { intros [| | | | | | | | | |]; try apply Hu. apply free_cons. split; [by intros <-|done]. }
  unfold Itoa. destruct (Z.to_int z); cbn [NilZero.string_of_int]; [apply Hz|].
  apply free_cons. split; [congruence|apply Hz].
Qed.

(** What was printed parses back, for every value an [int64] holds. *)
Lemma Atoi_Itoa z : - 2^63 ≤ z < 2^63 → Atoi (Itoa z) = (z, None).
Proof.
  intros Hz. pose proof (DecimalZ.of_to z) as E. unfold Itoa.
  assert (Hd : ∀ u, ∃ c t, NilZero.string_of_uint u = String c t ∧ c ≠ "+"%char ∧ c ≠ "-"%char ∧
                 digits (String c t) 0 = Some (Z.of_N (Pos.of_uint u))).
  { intros u. pose proof (digits_uint u) as Hu.
    destruct u; eexists _, _; (split; [reflexivity|]); (split; [done|]); (split; [done|]); exact Hu || reflexivity. }
  destruct (Z.to_int z) as [u|u]; cbn [NilZero.string_of_int]; destruct (Hd u) as (c & t & -> & Hp & Hm & Hc).
  - unfold Atoi.
    replace (match String c t with String "+" t => (false, t) | String "-" t => (true, t) | _ => (false, String c t) end)
      with (false, String c t).
    2: { repeat (match goal with |- context [match ?b with Ascii _ _ _ _ _ _ _ _ => _ end] => destruct b | |- context [if ?b then _ else _] => destruct b end; try done). }
    rewrite Hc. cbn in E. unfold Z.of_uint in E. rewrite E. rewrite !decide_False by lia. done.
  - unfold Atoi. rewrite Hc. cbn in E. unfold Z.of_uint in E. rewrite E. rewrite !decide_False by lia. done.
Qed.

(** ** Strings as bytes *)

(** [string(b)] of a byte slice, the inverse of [str]. *)
Definition unstr (b : list Z) : string := foldr (fun z => String (ascii_of_nat (Z.to_nat z))) EmptyString b.

Lemma unstr_str s : unstr (str s) = s.
Proof.
  unfold unstr. induction s as [|c s IH]; [done|]. cbn. by rewrite IH, Nat2Z.id, ascii_nat_embedding.
Qed.

Lemma str_app s t : str (s ++ t) = (str s ++ str t)%list.
Proof. induction s as [|c s IH]; [done|]. rewrite string_cons_app. cbn. by rewrite IH. Qed.

Lemma str_bytes s : Forall is_byte (str s).
Proof.
  induction s as [|c s IH]; cbn; constructor; [|done]. unfold is_byte.
  pose proof (nat_ascii_bounded c). lia.
Qed.

Lemma str_free sep s : free sep s = true → Z.of_nat (nat_of_ascii sep) ∉ str s.
Proof.
  induction s as [|c s IH]; cbn [str]; [by intros _ ?%elem_of_nil|]. rewrite free_cons. intros [Hc Hs].
  rewrite not_elem_of_cons. split; [|by apply IH]. intros E. apply Hc.
  rewrite <- (ascii_nat_embedding c), <- (ascii_nat_embedding sep). f_equal. lia.
Qed.

Lemma str_unstr b : Forall is_byte b → str (unstr b) = b.
Proof.
  unfold unstr. induction 1 as [|z b Hz _ IH]; [done|]. cbn. unfold is_byte in Hz.
  rewrite IH, nat_ascii_embedding by lia. f_equal. lia.
Qed.
