(* ===== verification/ConnLink.v ===== *)
(** * Write aggregation of connections
    (internal/transport/acceptor_tcp.go, acceptor_ws.go; the outgoing side of
    internal/gateway/node_transport.go)

    Three kinds of connection share one design: [Push] offers the bytes of a
    frame to a bounded channel, and one goroutine drains the channel into a
    buffer that it writes out when the batch window closes or the buffer is
    large enough.  The goroutine and its callers interleave, a Go [select]
    takes any ready case, and a write may fail after some bytes: the model is a
    step relation over the channel, the buffer and what reached the socket. *)

From S2P Require Import Prelude Frame.

(** What differs between the three loops. *)
Record wcfg := mkWcfg {
  chanSize : nat;       (** capacity of [writeCh] *)
  flushBytes : Z;       (** size at which a batch is written without waiting *)
  stopOnError : bool }. (** the loop returns when a write fails *)

(** Where the goroutine is: waiting for the first frame of a batch, collecting
    a batch, or gone. *)
Inductive wphase := Idle | Batching | Exited.
#[export] Instance wphase_eq_dec : EqDecision wphase.
Proof. solve_decision. Defined.

Record wconn := mkConn {
  writeCh : list (list Z);
  buf : list Z;
  phase : wphase;
  done : bool;            (** [done] is closed *)
  rawClosed : bool;       (** the socket is closed *)
  dead : bool;            (** the [dead] flag of a node connection *)
  written : list (list Z);  (** the bytes each write got through to the socket *)
  accepted : list (list Z) }. (** ghost: what [Push] took, in order *)

Definition newConn : wconn := mkConn [] [] Idle false false false [] [].

(** ** Defaults of the options (newTCPConn, applyWSDefaults) *)

Record Options := mkOptions {
  ReadTimeout : Z; WriteChannelSize : Z; WriteFlushInterval : Z; WriteFlushBytes : Z; MaxFrameSize : Z; NoDelay : bool }.
Definition second : Z := 10^9.
Definition DefaultOptions : Options := mkOptions (30 * second) 256 (2 * 10^6) (4 * 1024) DefaultMaxFrame true.

Definition orDefault (v d : Z) : Z := if decide (v ≤ 0) then d else v.

Definition tcpOptions (o : Options) : Options :=
  mkOptions (ReadTimeout o) (orDefault (WriteChannelSize o) 256) (orDefault (WriteFlushInterval o) (2 * 10^6))
    (orDefault (WriteFlushBytes o) (4 * 1024)) (orDefault (MaxFrameSize o) DefaultMaxFrame) (NoDelay o).

Record WSOptions := mkWSOptions {
  wsBase : Options; AllowedOrigins : list string; ProtocolPingInterval : Z; HandshakeTimeout : Z }.

Definition applyWSDefaults (o : WSOptions) : WSOptions :=
  let b := wsBase o in
  let rt := orDefault (ReadTimeout b) (30 * second) in
  mkWSOptions
    (mkOptions rt (orDefault (WriteChannelSize b) 256) (orDefault (WriteFlushInterval b) (2 * 10^6))
       (orDefault (WriteFlushBytes b) 4096) (orDefault (MaxFrameSize b) DefaultMaxFrame) (NoDelay b))
    (AllowedOrigins o)
    (orDefault (ProtocolPingInterval o) (Z.quot (rt * 2) 3))
    (orDefault (HandshakeTimeout o) (5 * second)).

Definition tcpCfg (o : Options) : wcfg :=
  mkWcfg (Z.to_nat (WriteChannelSize (tcpOptions o))) (WriteFlushBytes (tcpOptions o)) false.
Definition wsCfg (o : WSOptions) : wcfg :=
  let b := wsBase (applyWSDefaults o) in
  mkWcfg (Z.to_nat (WriteChannelSize b)) (WriteFlushBytes b) true.
Definition nodeCfg : wcfg := mkWcfg 256 (4 * 1024) false.

(** ** Push and Close *)

Inductive perr := ErrClosed | ErrSlowConsumer.

Section Loop.
Context (cfg : wcfg).

(** [Push]: each ready case of the [select] may be taken; the default only when
    none is ready. *)
Inductive push (data : list Z) (c : wconn) : option perr * wconn → Prop :=
| push_ok : (length (writeCh c) < chanSize cfg)%nat →
    push data c (None, mkConn (writeCh c ++ [data]) (buf c) (phase c) (done c) (rawClosed c) (dead c)
                   (written c) (accepted c ++ [data]))
| push_closed : done c = true → push data c (Some ErrClosed, c)
| push_slow : (chanSize cfg ≤ length (writeCh c))%nat → done c = false → push data c (Some ErrSlowConsumer, c).

(** [Close] runs once: it closes [done], then the socket. *)
Definition closeDone (c : wconn) : wconn :=
  mkConn (writeCh c) (buf c) (phase c) true (rawClosed c) (dead c) (written c) (accepted c).
Definition closeRaw (c : wconn) : wconn :=
  mkConn (writeCh c) (buf c) (phase c) true true (dead c) (written c) (accepted c).

(** ** The goroutine *)

Definition set_phase (p : wphase) (c : wconn) : wconn :=
  mkConn (writeCh c) (buf c) p (done c) (rawClosed c) (dead c) (written c) (accepted c).

(** [flush] with the outcome of the socket write: everything, or an error after
    the first [n] bytes.  A failed write closes the connection. *)
Definition flush (outcome : option nat) (c : wconn) : wconn :=
  if decide (buf c = []) then set_phase Idle c else
  match outcome with
  | None => mkConn (writeCh c) [] Idle (done c) (rawClosed c) (dead c) (written c ++ [buf c]) (accepted c)
  | Some n =>
      mkConn (writeCh c) [] (if stopOnError cfg then Exited else Idle) true true true
        (written c ++ [take n (buf c)]) (accepted c)
  end.

(** Which outcomes a socket allows: a closed one takes nothing. *)
Definition outcomeOk (c : wconn) (outcome : option nat) : Prop :=
  rawClosed c = true → outcome = Some O.

(** Take the head of the channel into the buffer. *)
Definition takeIn (c : wconn) (d : list Z) (q : list (list Z)) : wconn :=
  mkConn q (buf c ++ d) Batching (done c) (rawClosed c) (dead c) (written c) (accepted c).

Inductive loop (c : wconn) : wconn → Prop :=
| loop_exit : phase c = Idle → done c = true → loop c (set_phase Exited c)
| loop_first d q : phase c = Idle → writeCh c = d :: q → loop c (takeIn c d q)
| loop_more d q : phase c = Batching → writeCh c = d :: q →
    zlen (buf c ++ d) < flushBytes cfg → loop c (takeIn c d q)
| loop_full d q o : phase c = Batching → writeCh c = d :: q →
    flushBytes cfg ≤ zlen (buf c ++ d) → outcomeOk c o → loop c (flush o (takeIn c d q))
| loop_timer o : phase c = Batching → outcomeOk c o → loop c (flush o c)
| loop_done : phase c = Batching → done c = true → loop c (set_phase Exited c).

(** [detectClose] of a node connection: the flag is raised when the other side
    hangs up, before the connection is closed. *)
Definition markDead (c : wconn) : wconn :=
  mkConn (writeCh c) (buf c) (phase c) (done c) (rawClosed c) true (written c) (accepted c).

(** Everything that can happen to a connection. *)
Inductive step (c : wconn) : wconn → Prop :=
| step_push d r c' : push d c (r, c') → step c c'
| step_close_done : step c (closeDone c)
| step_close_raw : done c = true → step c (closeRaw c)
| step_detect : step c (markDead c)
| step_loop c' : loop c c' → step c c'.

(** ** Invariant *)

(** Either nothing is lost yet, and the socket, the buffer and the channel hold
    the accepted bytes between them; or the socket will take nothing more, and
    what it took is a prefix. *)
Record CInv (c : wconn) : Prop := {
  ci_chan : (length (writeCh c) ≤ chanSize cfg)%nat;
  ci_closed : rawClosed c = true → done c = true;
  ci_idle : phase c = Idle → buf c = [];
  ci_stream :
    (phase c ≠ Exited ∧ concat (written c) ++ buf c ++ concat (writeCh c) = concat (accepted c)) ∨
    ((rawClosed c = true ∨ phase c = Exited) ∧ done c = true ∧ concat (written c) `prefix_of` concat (accepted c)) }.

Lemma concat_snoc {A} (l : list (list A)) x : concat (l ++ [x]) = concat l ++ x.
Proof. rewrite concat_app. cbn. by rewrite app_nil_r. Qed.

Lemma newConn_CInv : CInv newConn.
Proof. split; cbn; [lia|done|done|by left]. Qed.

Lemma push_CInv d c r c' : push d c (r, c') → CInv c → CInv c'.
Proof.
  intros H [Hl Hc Hb Hs]. inversion H; subst; clear H; [|by split..].
  split; cbn; [rewrite length_app; cbn; lia|done|done|]. rewrite !concat_snoc.
  destruct Hs as [[Hp E]|(Hr & Hd & Hp)]; [left|right].
  - split; [done|]. by rewrite !(assoc_L app), <- (assoc_L app _ (buf c)), E.
  - split_and!; [done..|]. by apply prefix_app_r.
Qed.

Lemma takeIn_CInv c d q : phase c ≠ Exited → writeCh c = d :: q → CInv c → CInv (takeIn c d q).
Proof.
  intros Hp Hq [Hl Hc Hb Hs]. rewrite Hq in *. split; cbn [takeIn writeCh phase rawClosed done buf written accepted].
  - cbn in Hl. lia.
  - done.
  - done.
  - destruct Hs as [[_ E]|(Hr & Hd & Hpre)]; [left|right].
    + split; [done|]. by rewrite <- E, <- (assoc_L app (buf c)).
    + split_and!; [|done..]. left. by destruct Hr.
Qed.

Lemma flush_CInv c o : phase c = Batching → outcomeOk c o → CInv c → CInv (flush o c).
Proof.
  intros Hp Ho [Hl Hc _ Hs]. unfold flush. case_decide as Hb.
  { split; cbn [set_phase writeCh phase rawClosed done buf written accepted]; [done..|].
    destruct Hs as [[_ E]|(Hr & Hd & Hpre)]; [by left|right]. split_and!; [|done..].
    left. destruct Hr; congruence. }
  destruct o as [n|]; split; cbn [writeCh phase rawClosed done buf written accepted]; try done.
  - right. split_and!; [by left|done|]. rewrite concat_snoc.
    destruct Hs as [[_ E]|(Hr & Hd & Hpre)].
    + rewrite <- E. apply prefix_app. apply prefix_app_r. exists (drop n (buf c)). by rewrite take_drop.
    + destruct Hr as [Hr|]; [|congruence]. specialize (Ho Hr) as [= ->]. by rewrite take_0, app_nil_r.
  - destruct Hs as [[_ E]|(Hr & Hd & Hpre)]; [left|].
    + split; [done|]. rewrite concat_snoc, <- (assoc_L app). done.
    + destruct Hr as [Hr|]; [|congruence]. by specialize (Ho Hr).
Qed.

Lemma exit_CInv c : phase c ≠ Exited → done c = true → CInv c → CInv (set_phase Exited c).
Proof.
  intros Hp Hd [Hl Hc Hb Hs]. split; cbn; [done..|]. right. split_and!; [by right|done|].
  destruct Hs as [[_ E]|(_ & _ & Hpre)]; [|done]. rewrite <- E. by apply prefix_app_r.
Qed.

Lemma loop_CInv c c' : loop c c' → CInv c → CInv c'.
Proof.
  intros H Hi. inversion H; subst; clear H.
  - apply exit_CInv; congruence.
  - apply takeIn_CInv; congruence.
  - apply takeIn_CInv; congruence.
  - apply flush_CInv; [done..|]. apply takeIn_CInv; congruence.
  - by apply flush_CInv.
  - apply exit_CInv; congruence.
Qed.

Lemma step_CInv c c' : step c c' → CInv c → CInv c'.
Proof.
  intros H Hi. inversion H; subst; clear H.
  - by eapply push_CInv.
  - destruct Hi as [Hl Hc Hb Hs]. split; cbn; [done..|]. destruct Hs as [?|(? & ? & ?)]; [by left|by right].
  - destruct Hi as [Hl Hc Hb Hs]. split; cbn; [done..|]. destruct Hs as [?|(? & ? & ?)]; [by left|right]. split_and!; auto.
  - by destruct Hi.
  - by eapply loop_CInv.
Qed.

Lemma reach_CInv c : rtc step newConn c → CInv c.
Proof.
  intros H. eapply (rtc_keeps step); [|exact H|apply newConn_CInv]. intros ??. apply step_CInv.
Qed.

(** ** The loop on its own *)

(** A step of the goroutine whose socket writes succeed. *)
Definition okLoop (c c' : wconn) : Prop := loop c c' ∧ done c' = false.

Definition backlog (c : wconn) : nat :=
  2 * length (writeCh c) + match phase c with Batching => 1 | _ => 0 end.

Lemma flush_open o c : done (flush o c) = false →
  done c = false ∧ writeCh (flush o c) = writeCh c ∧ phase (flush o c) = Idle ∧ accepted (flush o c) = accepted c.
Proof. unfold flush. case_decide; [done|]. by destruct o. Qed.

Lemma okLoop_backlog c c' : okLoop c c' → (backlog c' < backlog c)%nat ∧ done c = false ∧ accepted c' = accepted c.
Proof.
  intros [H Hd]. unfold backlog.
  inversion H as [? Hp|d q Hp Hq|d q Hp Hq|d q o Hp Hq|o Hp|Hp]; subst; clear H; rewrite Hp;
    cbn [set_phase done] in Hd; try congruence.
  - cbn [takeIn writeCh phase accepted done] in *. rewrite Hq. cbn. split_and!; [lia|done|done].
  - cbn [takeIn writeCh phase accepted done] in *. rewrite Hq. cbn. split_and!; [lia|done|done].
  - apply flush_open in Hd as (? & -> & -> & ->). cbn [takeIn writeCh phase accepted done] in *. rewrite Hq. cbn.
    split_and!; [lia|done|done].
  - apply flush_open in Hd as (? & -> & -> & ->). cbn. split_and!; [lia|done|done].
Qed.

Lemma okLoop_sn c : sn okLoop c.
Proof. apply (measure_sn _ backlog). intros. by apply okLoop_backlog. Qed.

Lemma open_phase c : CInv c → done c = false → phase c ≠ Exited.
Proof. intros [_ _ _ [[? _]|(_ & ? & _)]] ?; congruence. Qed.

Lemma okLoop_progress c : CInv c → done c = false → nf okLoop c → writeCh c = [] ∧ buf c = [].
Proof.
  intros Hi Hd Hnf. pose proof (open_phase c Hi Hd). destruct Hi as [_ Hc Hb _].
  destruct (phase c) eqn:Ep; [| |done].
  - split; [|by apply Hb]. destruct (writeCh c) as [|d q] eqn:Eq; [done|]. destruct Hnf.
    eexists. split; [by eapply loop_first|done].
  - destruct Hnf. exists (flush None c). split.
    + apply loop_timer; [done|]. intros Hr. apply Hc in Hr. congruence.
    + unfold flush. by case_decide.
Qed.

Lemma okLoop_CInv c c' : okLoop c c' → CInv c → CInv c'.
Proof. intros [H _]. by apply loop_CInv. Qed.

Lemma okLoop_run c c' : rtc okLoop c c' → CInv c → done c = false →
  CInv c' ∧ done c' = false ∧ accepted c' = accepted c.
Proof.
  induction 1 as [|a b c Hab _ IH]; [done|]. intros Hi Hd.
  destruct (okLoop_backlog a b Hab) as (_ & _ & <-). apply IH; [by eapply okLoop_CInv|apply Hab].
Qed.

Lemma open_stream c : CInv c → done c = false →
  concat (written c) ++ buf c ++ concat (writeCh c) = concat (accepted c).
Proof. intros [_ _ _ [[_ E]|(_ & ? & _)]] ?; [done|congruence]. Qed.

Lemma CInv_prefix c : CInv c → concat (written c) `prefix_of` concat (accepted c).
Proof. intros [_ _ _ [[_ <-]|(_ & _ & ?)]]; [by apply prefix_app_r|done]. Qed.

End Loop.

#[export] Hint Resolve okLoop_sn reach_CInv CInv_prefix open_stream : game.

(** The three connections. *)
Definition tcpConn_step (o : Options) : relation wconn := step (tcpCfg o).
Definition wsConn_step (o : WSOptions) : relation wconn := step (wsCfg o).
Definition nodeConn_step : relation wconn := step nodeCfg.

(** [nodeConn.Write] looks at the [dead] flag first. *)
Inductive nodeWrite (data : list Z) (c : wconn) : option perr * wconn → Prop :=
| write_dead : dead c = true → nodeWrite data c (Some ErrClosed, c)
| write_push r : dead c = false → push nodeCfg (PutUint32 (to_u32 (zlen data)) ++ data) c r → nodeWrite data c r.

(** ** Reading *)

(** [tcpConn.Read] continues where the last call stopped. *)
Definition tcpRead (o : Options) (r : list Z) : res ((frame_err + Frame) * list Z) := DecodeFrame r (MaxFrameSize (tcpOptions o)).

(** [wsConn.Read] takes one message of the socket and decodes one frame of it;
    text messages are refused. *)
Inductive wsMsg := TextMessage | BinaryMessage (data : list Z).
Inductive ws_err := ErrTextFrameNotSupported | ErrFrameWS (e : frame_err).
Definition wsRead (o : WSOptions) (m : wsMsg) : res (ws_err + Frame) :=
  match m with
  | TextMessage => Ok (inl ErrTextFrameNotSupported)
  | BinaryMessage data =>
      let! x := DecodeFrame data (MaxFrameSize (wsBase (applyWSDefaults o))) in
      match fst x with inl e => Ok (inl (ErrFrameWS e)) | inr f => Ok (inr f) end
  end.

(** ** A stream cut short *)

Lemma decode_cut f max bs :
  sendable max f → bs `prefix_of` encoding (normalize f) → bs ≠ encoding (normalize f) →
  ∃ e r, DecodeFrame bs max = Ok (inl e, r) ∧ (e = ErrEOF ∨ e = ErrUnexpectedEOF).
Proof.
  intros (Hwf & Hr & Hp & Hm) [rest E] Hne. pose proof (zlen_encoding (normalize f)) as Hl.
  rewrite payload_len_normalize in Hl.
  assert (Hbs : zlen bs < 4 + payload_len f).
  { rewrite E, zlen_app in Hl. destruct rest as [|z rest]; [by rewrite app_nil_r in E|]. rewrite zlen_cons in Hl.
    pose proof (zlen_nonneg rest). lia. }
  unfold DecodeFrame. set (max' := if decide (max ≤ 0) then DefaultMaxFrame else max) in *.
  unfold ReadFull at 1. unfold lenFieldSize. case_decide as H4; cycle 1.
  { case_decide; (eexists _, _; split; [done|by auto]). }
  assert (∃ b, bs = PutUint32 (payload_len f) ++ b) as [b ->].
  { assert (E4 : take 4 (encoding (normalize f)) = take 4 bs).
    { rewrite E. apply take_app_le. unfold zlen in H4. lia. }
    exists (drop 4 bs). rewrite <- (take_drop 4 bs) at 1. f_equal. rewrite <- E4.
    unfold encoding. by rewrite payload_len_normalize. }
  change (Z.to_nat 4) with 4%nat.
  assert (Hpl : is_u32 (payload_len f)).
  { unfold is_u32, payload_len, headerFixedLen, routeLenSize in *.
    pose proof (zlen_nonneg (Body f)). pose proof (zlen_nonneg (Route f)). case_decide; lia. }
  replace (take 4 (PutUint32 (payload_len f) ++ b)) with (PutUint32 (payload_len f) ++ []) by done.
  replace (drop 4 (PutUint32 (payload_len f) ++ b)) with b by done.
  rewrite (Uint32_Put _ [] Hpl). cbn [rbind].
  rewrite decide_False by (unfold payload_len, headerFixedLen, routeLenSize; pose proof (zlen_nonneg (Body f));
    pose proof (zlen_nonneg (Route f)); case_decide; lia).
  rewrite decide_False by lia. rewrite zlen_app in Hbs. change (zlen (PutUint32 (payload_len f))) with 4 in Hbs.
  unfold ReadFull. rewrite decide_False by lia. case_decide; (eexists _, _; split; [done|by auto]).
Qed.

(** A reader of a cut stream gets the frames that arrived whole. *)
Lemma decode_prefix max fs bs :
  Forall (sendable max) fs → bs `prefix_of` wire fs →
  ∃ k e, DecodeAll (S (length fs)) bs max = Ok (normalize <$> take k fs, e) ∧
    (e = ErrEOF ∨ e = ErrUnexpectedEOF) ∧ (k ≤ length fs)%nat ∧ (bs = wire fs → k = length fs).
Proof.
  intros Hfs. revert bs. induction Hfs as [|f fs Hf Hfs IH]; intros bs Hpre.
  { apply prefix_nil_inv in Hpre as ->. exists O, ErrEOF. by split_and!; auto. }
  unfold wire in Hpre. rewrite fmap_cons in Hpre. cbn [concat] in Hpre. fold (wire fs) in Hpre.
  destruct Hpre as [rest E]. pose proof Hf as (Hwf & Hr & Hp & Hm).
  apply app_eq_inv in E as [(k & E1 & E2)|(k & E1 & E2)].
  - destruct k as [|z k].
    + rewrite app_nil_r in E1. cbn in E2. subst bs.
      destruct (IH []) as (k & e & HD & He & Hk & Hall); [apply prefix_nil|].
      rewrite <- (app_nil_r (encoding _)). cbn [length DecodeAll]. rewrite decode_encoding by done.
      cbn [rbind]. cbn [DecodeAll] in HD. rewrite HD. exists (S k), e. split_and!; [done|done|cbn; lia|].
      intros Hw. cbn [length]. f_equal. apply Hall. unfold wire in Hw. rewrite fmap_cons in Hw. cbn [concat] in Hw.
      apply app_inv_head in Hw. done.
    + destruct (decode_cut f max bs Hf) as (e & r & HD & He).
      { exists (z :: k). done. } { intros ->. rewrite <- app_nil_r in E1 at 1. by apply app_inv_head in E1. }
      cbn [length DecodeAll]. rewrite HD. cbn [rbind]. exists O, e. split_and!; [done|done|lia|].
      intros ->. exfalso. unfold wire in E1. rewrite fmap_cons in E1. cbn [concat] in E1.
      apply (f_equal zlen) in E1. rewrite !zlen_app, zlen_cons in E1.
      pose proof (zlen_nonneg k). pose proof (zlen_nonneg (concat ((λ f, encoding (normalize f)) <$> fs))). lia.
  - subst bs. destruct (IH k) as (n & e & HD & He & Hn & Hall); [by exists rest|].
    cbn [length DecodeAll]. rewrite decode_encoding by done. cbn [rbind]. cbn [DecodeAll] in HD. rewrite HD.
    exists (S n), e. split_and!; [done|done|cbn; lia|]. intros Hw. cbn [length]. f_equal. apply Hall.
    unfold wire in Hw. rewrite fmap_cons in Hw. cbn [concat] in Hw. by apply app_inv_head in Hw.
Qed.

(** ** Theorems *)

(** C31. Write aggregation keeps the stream: whatever callers push and whenever the
    connection is closed, the bytes that reached the socket are a prefix of the
    accepted ones, so the peer decodes exactly the first frames that were
    accepted, in order, and then the end of the stream; the channel never holds
    more than its capacity, and a connection that is open has lost nothing. *)
Theorem peer_sees_prefix cfg max fs c :
  rtc (step cfg) newConn c → Forall (sendable max) fs →
  accepted c = (fun f => encoding (normalize f)) <$> fs →
  ∃ k e, DecodeAll (S (length fs)) (concat (written c)) max = Ok (normalize <$> take k fs, e) ∧
    (e = ErrEOF ∨ e = ErrUnexpectedEOF) ∧
    (length (writeCh c) ≤ chanSize cfg)%nat ∧
    (done c = false → concat (written c) ++ buf c ++ concat (writeCh c) = wire fs) ∧
    (done c = false → writeCh c = [] → buf c = [] → k = length fs).
Proof.
  intros Hr Hfs Ha. apply reach_CInv in Hr.
  assert (Hw : concat (accepted c) = wire fs) by by rewrite Ha.
  destruct (decode_prefix max fs (concat (written c)) Hfs) as (k & e & HD & He & _ & Hall).
  { rewrite <- Hw. by eapply CInv_prefix. }
  exists k, e. split_and!; [done|done|apply Hr|..].
  - intros Hd. rewrite <- Hw. by eapply open_stream.
  - intros Hd Hq Hb. apply Hall. rewrite <- Hw, <- (open_stream _ c Hr Hd), Hq, Hb. cbn. by rewrite !app_nil_r.
Qed.

(** The write loop never sits on data: from any reachable open connection, the
    loop running alone on a working socket stops after finitely many steps, and
    wherever it stops everything that was accepted is on the socket. *)
Theorem write_drains cfg c :
  rtc (step cfg) newConn c → done c = false →
  sn (okLoop cfg) c ∧
  (∀ c', rtc (okLoop cfg) c c' → nf (okLoop cfg) c' →
     accepted c' = accepted c ∧ concat (written c') = concat (accepted c)).
Proof.
  intros Hr Hd. apply reach_CInv in Hr. split; [apply okLoop_sn|]. intros c' Hc Hnf.
  destruct (okLoop_run _ _ _ Hc Hr Hd) as (Hi & Hd' & Ha). split; [done|].
  destruct (okLoop_progress _ _ Hi Hd' Hnf) as [Hq Hb]. rewrite <- Ha, <- (open_stream _ _ Hi Hd'), Hq, Hb.
  cbn. by rewrite app_nil_r.
Qed.

(** ** Examples *)

Section Demo.
Definition f1 : Frame := mkFrame 1 16 0 1 [] [1; 2].
Definition f2 : Frame := mkFrame 1 17 64 2 [] [].
Definition enc (f : Frame) : list Z := encoding (normalize f).

(** Two frames pushed, the first one written, the second cut after five bytes. *)
Definition demoCut : wconn :=
  mkConn [] [] Idle true true true [enc f1; take 5 (enc f2)] [enc f1; enc f2].

Lemma demoCut_reach : rtc (step (tcpCfg DefaultOptions)) newConn demoCut.
Proof.
  eapply rtc_l. { eapply step_push, (push_ok _ (enc f1)). vm_compute. lia. }
  eapply rtc_l. { eapply step_loop, (loop_first _ _ (enc f1) []); reflexivity. }
  eapply rtc_l. { eapply step_loop, (loop_timer _ _ None); [reflexivity|done]. }
  eapply rtc_l. { eapply step_push, (push_ok _ (enc f2)). vm_compute. lia. }
  eapply rtc_l. { eapply step_loop, (loop_first _ _ (enc f2) []); reflexivity. }
  eapply rtc_l. { eapply step_loop, (loop_timer _ _ (Some 5%nat)); [reflexivity|done]. }
  vm_compute. apply rtc_refl.
Qed.

Lemma demo_sendable : Forall (sendable 0) [f1; f2].
Proof. repeat constructor; unfold is_byte, is_u32; simpl; try (vm_compute; congruence); lia. Qed.

(** A connection with one frame in the buffer and one in the channel. *)
Definition demoOpen : wconn := mkConn [enc f2] (enc f1) Batching false false false [] [enc f1; enc f2].

Lemma demoOpen_reach : rtc (step nodeCfg) newConn demoOpen.
Proof.
  eapply rtc_l. { eapply step_push, (push_ok _ (enc f1)). vm_compute. lia. }
  eapply rtc_l. { eapply step_loop, (loop_first _ _ (enc f1) []); reflexivity. }
  eapply rtc_l. { eapply step_push, (push_ok _ (enc f2)). vm_compute. lia. }
  vm_compute. apply rtc_refl.
Qed.
End Demo.

Lemma peer_sees_prefix_witness : ∃ k e,
  DecodeAll 3 (concat (written demoCut)) 0 = Ok (normalize <$> take k [f1; f2], e) ∧ k = 1%nat ∧ e = ErrUnexpectedEOF.
Proof.
  destruct (peer_sees_prefix (tcpCfg DefaultOptions) 0 [f1; f2] demoCut demoCut_reach demo_sendable eq_refl)
    as (k & e & HD & _).
  exists k, e. split; [exact HD|]. vm_compute in HD. destruct k as [|[|k]]; [discriminate|by injection HD as <-|discriminate].
Defined.

Lemma write_drains_witness : sn (okLoop nodeCfg) demoOpen ∧
  (∀ c', rtc (okLoop nodeCfg) demoOpen c' → nf (okLoop nodeCfg) c' → concat (written c') = enc f1 ++ enc f2).
Proof.
  destruct (write_drains nodeCfg demoOpen demoOpen_reach eq_refl) as [Hs Hd].
  split; [exact Hs|]. intros c' H Hn. apply (Hd c' H Hn).
Defined.

(** Finding. A websocket message may hold several frames (the server's own
    write loop batches them into one message), but [wsConn.Read] decodes the
    first and drops the rest without an error. *)
Theorem ws_read_drops_frames o f g :
  sendable (MaxFrameSize (wsBase (applyWSDefaults o))) f →
  wsRead o (BinaryMessage (wire [f; g])) = Ok (inr (normalize f)).
Proof.
  intros (Hwf & Hr & Hp & Hm). unfold wsRead, wire. cbn [fmap list_fmap concat].
  rewrite decode_encoding by done. done.
Qed.
