(* ===== verification/Acceptor.v ===== *)
(** * The WebSocket acceptor (internal/transport/acceptor_ws.go)

    Upgraded connections go through a channel to the server's accept loop.
    Which browsers may connect is decided by [checkOrigin]; how net/url takes
    the host out of an origin, and the comparison of hosts without regard to
    case, are parameters. *)

From S2P Require Import Prelude ConnLink.

(** ** Origins *)

Section Origin.
Context (urlHost : string → option string) (EqualFold : string → string → bool) (hasScheme : string → bool).

(** An entry is a bare host or a full origin; one that does not parse is
    compared as it stands. *)
Definition entryHost (allowed : string) : string :=
  if hasScheme allowed then match urlHost allowed with Some h => h | None => allowed end else allowed.

Definition checkOrigin (AllowedOrigins : list string) (origin host : string) : bool :=
  if existsb (fun o => bool_decide (o = "*"%string)) AllowedOrigins then true else
  if decide (origin = EmptyString) then true else
  match urlHost origin with
  | None => false
  | Some h => if EqualFold h host then true else existsb (fun a => EqualFold (entryHost a) h) AllowedOrigins
  end.

(** Who is let in: everybody under the wildcard, clients that send no origin,
    and pages of the server's own host or of a host on the list. *)
Lemma checkOrigin_spec allowed origin host : checkOrigin allowed origin host = true ↔
  "*"%string ∈ allowed ∨ origin = EmptyString ∨
  ∃ h, urlHost origin = Some h ∧ (EqualFold h host = true ∨ ∃ a, a ∈ allowed ∧ EqualFold (entryHost a) h = true).
Proof.
  unfold checkOrigin. destruct (existsb _ allowed) eqn:Es.
  - split; [|done]. intros _. left. apply existsb_exists in Es as (x & Hx & ->%bool_decide_eq_true). by apply list_elem_of_In.
  - assert ("*"%string ∉ allowed) as Hs.
    { intros Hin. apply not_true_iff_false in Es. apply Es. apply existsb_exists. exists "*"%string. split; [by apply list_elem_of_In|]. by apply bool_decide_eq_true. }
    case_decide as Ho; [split; [intros _; right; by left|done]|]. destruct (urlHost origin) as [h|] eqn:Eu; cycle 1.
    { split; [done|]. by intros [?|[?|(h & ? & _)]]. }
    destruct (EqualFold h host) eqn:Eh.
    { split; [|done]. intros _. right. right. exists h. auto. }
    split.
    + intros (a & Ha & He)%existsb_exists. right. right. exists h. split; [done|]. right. exists a. split; [by apply list_elem_of_In|done].
    + intros [?|[?|(h' & [= <-] & [Hh|(a & Ha & He)])]]; [done|done|congruence|]. apply existsb_exists. exists a. split; [by apply list_elem_of_In|done].
Qed.
End Origin.

(** Finding: the scheme of an entry is not compared, so listing a page that is
    served over TLS admits the page of the same host that is not. *)
Lemma scheme_ignored (urlHost : string → option string) EqualFold hasScheme host :
  urlHost "https://trusted.example" = Some "trusted.example"%string → urlHost "http://trusted.example" = Some "trusted.example"%string →
  hasScheme "https://trusted.example"%string = true → (∀ h, EqualFold h h = true) →
  checkOrigin urlHost EqualFold hasScheme ["https://trusted.example"%string] "http://trusted.example" host = true.
Proof.
  intros H1 H2 H3 H4. apply checkOrigin_spec. right. right. exists "trusted.example"%string. split; [done|]. right.
  eexists. split; [by left|]. unfold entryHost. rewrite H3, H1. apply H4.
Qed.

(** ** Connections *)

(** [connCh] is the channel of upgraded connections; [waiting] are handlers
    that wait for room in it; [accepted] are the connections the accept loop
    took and [turnedAway] those closed because the acceptor was closing. *)
Record WSAcceptor := mkWS {
  opts : WSOptions;
  connCh : list nat;
  closed : bool;
  nextID : nat;
  waiting : list nat;
  accepted : list nat;
  turnedAway : list nat }.

Definition connChSize : nat := 128.
Definition NewWSAcceptor (o : WSOptions) : WSAcceptor := mkWS (applyWSDefaults o) [] false 0 [] [] [].

Inductive served := Unavailable | NotUpgraded | Upgraded (id : nat).
(** [serveWS] up to the select. *)
Definition serveWS (upgrades : bool) (a : WSAcceptor) : served * WSAcceptor :=
  if closed a then (Unavailable, a) else
  if negb upgrades then (NotUpgraded, a) else
  let id := S (nextID a) in
  (Upgraded id, mkWS (opts a) (connCh a) (closed a) id (waiting a ++ [id]) (accepted a) (turnedAway a)).
Definition Close (a : WSAcceptor) : WSAcceptor :=
  mkWS (opts a) (connCh a) true (nextID a) (waiting a) (accepted a) (turnedAway a).

Inductive wstep : WSAcceptor → WSAcceptor → Prop :=
| ws_serve upgrades a : wstep a (serveWS upgrades a).2
(* the select of serveWS: a free place in the channel, or the closing *)
| ws_send id w1 w2 a : waiting a = w1 ++ id :: w2 → (length (connCh a) < connChSize)%nat →
    wstep a (mkWS (opts a) (connCh a ++ [id]) (closed a) (nextID a) (w1 ++ w2) (accepted a) (turnedAway a))
| ws_turn id w1 w2 a : waiting a = w1 ++ id :: w2 → closed a = true →
    wstep a (mkWS (opts a) (connCh a) (closed a) (nextID a) (w1 ++ w2) (accepted a) (turnedAway a ++ [id]))
(* Accept takes a connection; its other results change nothing *)
| ws_accept id q a : connCh a = id :: q →
    wstep a (mkWS (opts a) q (closed a) (nextID a) (waiting a) (accepted a ++ [id]) (turnedAway a))
| ws_close a : wstep a (Close a).

(** No connection is lost or handed over twice: every upgraded connection
    waits, is in the channel, was accepted or was turned away, and only one of
    these. *)
Lemma connections_accounted o a : rtc wstep (NewWSAcceptor o) a →
  accepted a ++ connCh a ++ waiting a ++ turnedAway a ≡ₚ List.seq 1 (nextID a) ∧ (length (connCh a) ≤ connChSize)%nat.
Proof.
  intros H. remember (NewWSAcceptor o) as a0 eqn:E0.
  assert (accepted a0 ++ connCh a0 ++ waiting a0 ++ turnedAway a0 ≡ₚ List.seq 1 (nextID a0) ∧ (length (connCh a0) ≤ connChSize)%nat) as H0
    by (subst; cbn; split; [done|unfold connChSize; lia]).
  clear E0. induction H as [a|a a1 a2 Hs _ IH]; [done|]. apply IH. clear IH. destruct H0 as [Hp Hl].
  destruct Hs as [up a|id w1 w2 a Hw Hlen|id w1 w2 a Hw Hc|id q a Hq|a]; cbn [accepted connCh waiting turnedAway nextID].
  - unfold serveWS. destruct (closed a); [done|]. destruct up; [|done]. cbn [negb snd accepted connCh waiting turnedAway nextID].
    split; [|done]. rewrite seq_S, <- Hp. change (1 + nextID a)%nat with (S (nextID a)). solve_Permutation.
  - rewrite Hw in Hp. split; [|rewrite length_app; cbn; lia]. rewrite <- Hp. solve_Permutation.
  - rewrite Hw in Hp. split; [|done]. rewrite <- Hp. solve_Permutation.
  - rewrite Hq in Hp, Hl. cbn in Hl. split; [|lia]. rewrite <- Hp. solve_Permutation.
  - done.
Qed.
