(* ===== verification/Inner.v ===== *)
(** * The link between gateway and logic nodes
    (internal/gateway/gateway.go, the envelope part; the framing and the read
    loop of internal/gateway/node_transport.go)

    A frame crosses the internal link behind a text header
    ["uid|session|gateway|type|seq"] and a newline, in an envelope with a
    four-byte length.  Fields are Go strings, the link carries bytes. *)

From S2P Require Import Prelude Frame Envelope GoStrings.
From Stdlib Require Import Ascii.

Definition MsgUnicast : Z := 1.
Definition MsgRoomBroadcast : Z := 2.
Definition MsgKeepalive : Z := 3.

Record InnerHeader := mkInner {
  UID : string; SessionID : string; GatewayID : string; MsgType : Z; ForwardSeq : Z }.

#[export] Instance InnerHeader_eq_dec : EqDecision InnerHeader.
Proof. solve_decision. Defined.

Definition bar : ascii := "|".
Definition newline : ascii := "010".

(** ["%s|%s|%s|%d|%d\n"] *)
Definition prefixOf (i : InnerHeader) : string :=
  Join bar [UID i; SessionID i; GatewayID i; Itoa (MsgType i); Itoa (ForwardSeq i)].

(** EncodeInner ignores the error of EncodeFrame: the frame is then missing.
    The first component is the frame, whose route bit EncodeFrame sets. *)
Definition EncodeInner (i : InnerHeader) (f : Frame) : Frame * list Z :=
  let prefix := str (prefixOf i) ++ [10] in
  let '(f', raw) := EncodeFrame f in
  (f', prefix ++ match raw with inr bs => bs | inl _ => [] end).

Inductive inner_err :=
| EHeaderTruncated
| EFields (n : nat)
| EMsgType (e : num_err)
| ESeq (e : num_err)
| EFrame (e : frame_err)
| ELength (n : Z)
| ERead (e : frame_err).

(** The index of the first newline. *)
Fixpoint findNL (data : list Z) : option (list Z * list Z) :=
  match data with
  | [] => None
  | c :: r => if decide (c = 10) then Some ([], r) else '(a, b) ← findNL r; Some (c :: a, b)
  end.

Definition noInner : InnerHeader := mkInner "" "" "" 0 0.

(** [MsgType(mt)] and [uint32(seq)] truncate the parsed numbers. *)
Definition DecodeInner (data : list Z) : res (InnerHeader * (inner_err + Frame)) :=
  match findNL data with
  | None => Ok (noInner, inl EHeaderTruncated)
  | Some (head, rest) =>
      match SplitN 5 bar (unstr head) with
      | [p0; p1; p2; p3; p4] =>
          let '(mt, e) := Atoi p3 in
          match e with
          | Some e => Ok (noInner, inl (EMsgType e))
          | None =>
              let '(seq, e) := Atoi p4 in
              match e with
              | Some e => Ok (noInner, inl (ESeq e))
              | None =>
                  let inner := mkInner p0 p1 p2 (to_u8 mt) (to_u32 seq) in
                  let! x := DecodeFrame rest 0 in
                  match fst x with
                  | inl e => Ok (inner, inl (EFrame e))
                  | inr f => Ok (inner, inr f)
                  end
              end
          end
      | ps => Ok (noInner, inl (EFields (length ps)))
      end
  end.

(** ** The envelope on the wire *)

(** What [nodeConn.Write] puts in front of an envelope. *)
Definition envelope (data : list Z) : list Z := PutUint32 (to_u32 (zlen data)) ++ data.

Definition readEnvelope (r : list Z) : res ((InnerHeader * (inner_err + Frame)) * list Z) :=
  match ReadFull r 4 with
  | (inl e, r) => Ok ((noInner, inl (ERead e)), r)
  | (inr lenBuf, r) =>
      let! payloadLen := Uint32 lenBuf in
      if decide (payloadLen ≤ 0) then Ok ((noInner, inl (ELength payloadLen)), r) else
      match ReadFull r payloadLen with
      | (inl e, r) => Ok ((noInner, inl (ERead e)), r)
      | (inr payload, r) => let! x := DecodeInner payload in Ok (x, r)
      end
  end.

(** [serveConn]: hand over envelopes in order, skip keepalives, stop at the
    first error; the connection is then closed. *)
Fixpoint serveConn (fuel : nat) (r : list Z) : res (list (InnerHeader * Frame) * inner_err) :=
  match fuel with
  | O => OutOfFuel
  | S fuel =>
      let! x := readEnvelope r in
      match x with
      | ((_, inl e), _) => Ok ([], e)
      | ((i, inr f), r') =>
          let! y := serveConn fuel r' in
          let '(ms, e) := y in
          if decide (MsgType i = MsgKeepalive) then Ok (ms, e) else Ok ((i, f) :: ms, e)
      end
  end.

(** The heartbeat of an idle link. *)
Definition keepalive : list Z := envelope (snd (EncodeInner (mkInner "" "" "" MsgKeepalive 0) (mkFrame 0 0 0 0 [] []))).

(** ** Well-formed headers *)

(** No field contains a separator, and the numbers fit their types. *)
Record inner_wf (i : InnerHeader) : Prop := {
  iw_uid : free bar (UID i) && free newline (UID i) = true;
  iw_sess : free bar (SessionID i) && free newline (SessionID i) = true;
  iw_gw : free bar (GatewayID i) && free newline (GatewayID i) = true;
  iw_type : is_byte (MsgType i);
  iw_seq : is_u32 (ForwardSeq i) }.

Lemma findNL_app a b : 10 ∉ a → findNL (a ++ 10 :: b) = Some (a, b).
Proof.
  induction a as [|c a IH]; cbn; [done|]. rewrite not_elem_of_cons. intros [Hc Ha].
  rewrite decide_False by done. by rewrite IH.
Qed.

Lemma prefixOf_newline i : inner_wf i → 10 ∉ str (prefixOf i).
Proof.
  intros [H1 H2 H3 _ _]. apply andb_true_iff in H1 as [_ H1], H2 as [_ H2], H3 as [_ H3].
  apply (str_free newline). unfold prefixOf. apply Join_free; [done|].
  repeat constructor; try done; by apply Itoa_free.
Qed.

Lemma prefixOf_fields i : inner_wf i →
  SplitN 5 bar (prefixOf i) = [UID i; SessionID i; GatewayID i; Itoa (MsgType i); Itoa (ForwardSeq i)].
Proof.
  intros [H1 H2 H3 _ _]. apply andb_true_iff in H1 as [H1 _], H2 as [H2 _], H3 as [H3 _].
  apply (SplitN_Join bar [UID i; SessionID i; GatewayID i; Itoa (MsgType i)] (Itoa (ForwardSeq i))).
  repeat constructor; try done; by apply Itoa_free.
Qed.

(** The encoding of a well-formed frame is made of bytes. *)
Lemma route_flag_byte x : is_byte x → is_byte (Z.lor x FlagRoute) ∧ is_byte (Z.ldiff x FlagRoute).
Proof.
  intros Hx. assert (Forall (fun x => is_byte (Z.lor x FlagRoute) ∧ is_byte (Z.ldiff x FlagRoute)) (seqZ 0 256)) as HF.
  { unfold is_byte. apply (bool_decide_eq_true_1 _). by vm_compute. }
  rewrite Forall_forall in HF. apply HF. apply elem_of_seqZ. unfold is_byte in Hx. lia.
Qed.

Lemma encoding_bytes f : frame_wf f → Forall is_byte (encoding (normalize f)).
Proof.
  intros [Hv _ Hf _ Hr Hb]. destruct (route_flag_byte _ Hf). unfold encoding.
  rewrite !Forall_app. split_and!; try apply PutUint32_bytes; [by apply Forall_singleton| | |done].
  - apply Forall_singleton. unfold normalize. by case_decide.
  - case_decide; [|done]. apply Forall_app. split; [|done]. unfold PutUint16.
    repeat constructor; apply to_u8_range.
Qed.

Lemma EncodeInner_ok i f : zlen (Route f) ≤ 65535 → payload_len f ≤ 0xFFFFFFFF →
  EncodeInner i f = (normalize f, str (prefixOf i) ++ 10 :: encoding (normalize f)).
Proof. intros. unfold EncodeInner. rewrite EncodeFrame_ok by done. by rewrite <- (assoc_L app). Qed.

Lemma DecodeInner_prefix i rest : inner_wf i →
  DecodeInner (str (prefixOf i) ++ 10 :: rest) =
    (let! x := DecodeFrame rest 0 in
     match fst x with inl e => Ok (i, inl (EFrame e)) | inr f => Ok (i, inr f) end).
Proof.
  intros Hi. pose proof Hi as [_ _ _ Ht Hs]. unfold DecodeInner.
  rewrite findNL_app by by apply prefixOf_newline. rewrite unstr_str, prefixOf_fields by done.
  unfold is_byte, is_u32 in *. rewrite !Atoi_Itoa by lia. rewrite to_u8_id, to_u32_id by done. by destruct i.
Qed.

(** A message the link can carry. *)
Definition carried (m : InnerHeader * Frame) : Prop :=
  inner_wf (fst m) ∧ sendable 0 (snd m) ∧ zlen (snd (EncodeInner (fst m) (snd m))) < 2^32.

Lemma readEnvelope_data data r : 0 < zlen data < 2^32 →
  readEnvelope (envelope data ++ r) = (let! x := DecodeInner data in Ok (x, r)).
Proof.
  intros Hd. unfold readEnvelope, envelope. rewrite <- (assoc_L app), ReadFull_exact by done.
  rewrite to_u32_id by lia. pose proof (Uint32_Put (zlen data) []) as E. rewrite app_nil_r in E.
  rewrite E by (unfold is_u32; lia). cbn [rbind]. rewrite decide_False by lia. by rewrite ReadFull_exact.
Qed.

Lemma header_pos (s : string) (b : list Z) : 0 < zlen (str s ++ 10 :: b).
Proof. rewrite zlen_app, zlen_cons. pose proof (zlen_nonneg (str s)). pose proof (zlen_nonneg b). lia. Qed.

Lemma readEnvelope_ok i f r : carried (i, f) →
  readEnvelope (envelope (snd (EncodeInner i f)) ++ r) = Ok ((i, inr (normalize f)), r).
Proof.
  intros (Hi & (Hwf & Hr & Hp & Hm) & Hl). cbn [fst snd] in *.
  rewrite EncodeInner_ok in * by done. cbn [snd] in *.
  rewrite readEnvelope_data by (split; [apply header_pos|done]). rewrite DecodeInner_prefix by done.
  rewrite <- (app_nil_r (encoding (normalize f))) at 1. rewrite decode_encoding by done. done.
Qed.

Definition linkBytes (ms : list (InnerHeader * Frame)) : list Z :=
  concat ((fun m => envelope (snd (EncodeInner (fst m) (snd m)))) <$> ms).

Definition business (m : InnerHeader * Frame) : Prop := MsgType (fst m) ≠ MsgKeepalive.
#[export] Instance business_dec m : Decision (business m).
Proof. unfold business. apply _. Defined.

(** ** Theorems *)

(** The link is transparent: when the headers contain no separator and the
    frames fit, the receiving loop hands over exactly the messages that were
    sent, in order and without the keepalives in between, and then sees the end
    of the stream. *)
Theorem link_stream ms :
  Forall carried ms →
  serveConn (S (length ms)) (linkBytes ms) =
    Ok ((fun m => (fst m, normalize (snd m))) <$> filter business ms, ERead ErrEOF).
Proof.
  unfold linkBytes. induction 1 as [|[i f] ms Hm Hms IH]; [done|].
  rewrite fmap_cons. cbn [concat length serveConn fst snd]. rewrite readEnvelope_ok by done.
  cbn [rbind]. cbn [serveConn] in IH. rewrite IH. cbn [rbind].
  rewrite filter_cons. unfold business at 1. cbn [fst]. case_decide as Hk.
  - by rewrite decide_False by naive_solver.
  - by rewrite decide_True by done.
Qed.

Lemma DecodeInner_total data : Forall is_byte data → ∃ x, DecodeInner data = Ok x.
Proof.
  intros Hb. unfold DecodeInner. destruct (findNL data) as [[head rest]|] eqn:E; [|by eauto].
  assert (Hr : Forall is_byte rest).
  { clear -Hb E. revert head E. induction Hb as [|c r Hc Hr IH]; intros head; cbn; [done|]. case_decide.
    - by intros [= <- <-].
    - destruct (findNL r) as [[a b]|]; cbn; [|done]. intros [= <- <-]. by eapply IH. }
  destruct (SplitN 5 bar (unstr head)) as [|p0 [|p1 [|p2 [|p3 [|p4 [|]]]]]]; try by eauto.
  destruct (Atoi p3) as [mt [|]]; [by eauto|]. destruct (Atoi p4) as [sq [|]]; [by eauto|].
  destruct (decode_total rest 0 Hr) as (x & r' & -> & _). cbn. destruct x; eauto.
Qed.

Lemma ReadFull_bytes r n x r' : Forall is_byte r → ReadFull r n = (x, r') → Forall is_byte r'.
Proof.
  intros Hr. unfold ReadFull. case_decide; [|case_decide; by intros [= <- <-]].
  intros [= <- <-]. by apply Forall_drop.
Qed.

Lemma readEnvelope_total r : Forall is_byte r → ∃ x r',
  readEnvelope r = Ok (x, r') ∧ Forall is_byte r' ∧
  ((∃ e, snd x = inl e) ∨ (length r' < length r)%nat).
Proof.
  intros Hr. unfold readEnvelope. destruct (ReadFull r 4) as [[e|lb] r1] eqn:E1.
  { eexists _, _. split; [done|]. split; [by eapply ReadFull_bytes|left]. by eexists. }
  assert (Hb1 : Forall is_byte r1) by by eapply ReadFull_bytes.
  apply ReadFull_inr in E1 as [Hl ->]; [|lia]. apply Forall_app in Hr as [Hlb _].
  destruct (Uint32_bytes lb Hlb) as (n & -> & Hn); [unfold zlen in Hl; lia|]. cbn [rbind]. case_decide.
  { eexists _, _. split; [done|]. split; [done|left]. by eexists. }
  destruct (ReadFull r1 n) as [[e|p] r2] eqn:E2.
  { eexists _, _. split; [done|]. split; [by eapply ReadFull_bytes|left]. by eexists. }
  assert (Hb2 : Forall is_byte r2) by by eapply ReadFull_bytes.
  apply ReadFull_inr in E2 as [Hl2 ->]; [|lia]. apply Forall_app in Hb1 as [Hp _].
  destruct (DecodeInner_total p Hp) as [x ->]. cbn. eexists _, _. split; [done|]. split; [done|right].
  rewrite !length_app. unfold zlen in *. lia.
Qed.

(** No input panics or hangs the receiving side: on any bytes the read loop of
    an inbound link ends, within one round per byte at most. *)
Theorem serveConn_total r : Forall is_byte r → ∃ ms e, serveConn (S (length r)) r = Ok (ms, e).
Proof.
  intros Hr. remember (S (length r)) as n eqn:En. assert (Hn : (length r < n)%nat) by lia. clear En. revert r Hr Hn.
  induction n as [|n IH]; intros r Hr Hn; [lia|]. cbn [serveConn].
  destruct (readEnvelope_total r Hr) as ([i x] & r' & -> & Hr' & Hx). cbn [rbind]. destruct x as [e|f]; [by eauto|].
  destruct Hx as [[e [=]]|Hlt]. destruct (IH r' Hr') as (ms & e & ->); [lia|]. cbn. case_decide; eauto.
Qed.

(** Finding. Header fields are not escaped: whoever chooses the uid of a login
    chooses the header and the frame the logic node will see, so a client can
    speak for any other player. *)
Theorem header_injection i' g sess gw mt seq f :
  inner_wf i' → sendable 0 g →
  ∃ uid, DecodeInner (snd (EncodeInner (mkInner uid sess gw mt seq) f)) = Ok (i', inr (normalize g)).
Proof.
  intros Hi (Hwf & Hr & Hp & Hm).
  exists (prefixOf i' +:+ String newline (unstr (encoding (normalize g)))).
  unfold EncodeInner at 1, prefixOf at 1. cbn [UID SessionID GatewayID MsgType ForwardSeq].
  destruct (EncodeFrame f) as [f' raw]. cbn [snd].
  match goal with |- context [Join bar (?u :: ?l)] => change (Join bar (u :: l)) with (u +:+ String bar (Join bar l)) end.
  rewrite !str_app. cbn [str]. rewrite str_unstr by by apply encoding_bytes. rewrite <- !(assoc_L app). cbn [app].
  rewrite DecodeInner_prefix by done. rewrite decode_encoding by done. done.
Qed.

(** Finding. The link decodes with the default frame limit whatever limit the
    client side was configured with: a larger frame makes the receiver drop the
    connection, with everything that was queued behind it. *)
Theorem large_frame_drops_link i f ms :
  inner_wf i → frame_wf f → zlen (Route f) ≤ 65535 → DefaultMaxFrame < payload_len f ≤ 0xFFFFFFFF →
  zlen (snd (EncodeInner i f)) < 2^32 →
  serveConn (S (S (length ms))) (envelope (snd (EncodeInner i f)) ++ linkBytes ms) = Ok ([], EFrame ErrFrameTooLarge).
Proof.
  intros Hi Hwf Hr [Hd Hp] Hl. rewrite EncodeInner_ok in * by done. cbn [snd] in *.
  cbn [serveConn]. rewrite readEnvelope_data by (split; [apply header_pos|done]).
  rewrite DecodeInner_prefix by done.
  assert (∃ r, DecodeFrame (encoding (normalize f)) 0 = Ok (inl ErrFrameTooLarge, r)) as [r ->]; [|done].
  unfold encoding. rewrite payload_len_normalize. unfold DecodeFrame.
  rewrite ReadFull_exact by done. pose proof (Uint32_Put (payload_len f) []) as E. rewrite app_nil_r in E.
  unfold DefaultMaxFrame in Hd.
  rewrite E by (unfold is_u32; lia). cbn [rbind]. rewrite decide_False by (unfold headerFixedLen; lia).
  rewrite (decide_True (P := 0 ≤ 0)) by done. rewrite decide_True by (unfold DefaultMaxFrame; lia). by eexists.
Qed.

(** ** Examples *)

Definition demoHdr : InnerHeader := mkInner "alice" "" "gw-1" MsgUnicast 7.
Definition demoKA : InnerHeader := mkInner "" "" "" MsgKeepalive 0.
Definition demoF : Frame := mkFrame 1 256 0 7 [] [1; 10; 124].
Definition demoLink : list (InnerHeader * Frame) := [(demoHdr, demoF); (demoKA, mkFrame 0 0 0 0 [] []); (demoHdr, demoF)].

Lemma demoLink_carried : Forall carried demoLink.
Proof.
  repeat (apply Forall_cons_2 || apply Forall_nil_2);
    (split; [|split; [|vm_compute; reflexivity]]); repeat constructor; unfold is_byte, is_u32; cbn;
    try (vm_compute; congruence); try lia.
Qed.

Lemma link_stream_witness :
  serveConn 4 (linkBytes demoLink) = Ok ([(demoHdr, demoF); (demoHdr, demoF)], ERead ErrEOF).
Proof. exact (link_stream demoLink demoLink_carried). Defined.

Lemma serveConn_total_witness : ∃ ms e, serveConn 9 [0; 0; 0; 4; 97; 124; 10; 0] = Ok (ms, e) ∧ e = EFields 2.
Proof.
  destruct (serveConn_total [0; 0; 0; 4; 97; 124; 10; 0]) as (ms & e & H).
  { repeat constructor; lia. }
  exists ms, e. split; [exact H|]. vm_compute in H. congruence.
Defined.

Lemma header_injection_witness : ∃ uid,
  DecodeInner (snd (EncodeInner (mkInner uid "" "gw-1" MsgUnicast 1) (mkFrame 1 16 0 1 [] [123; 125]))) =
    Ok (mkInner "victim" "" "gw-1" MsgUnicast 9, inr (normalize demoF)).
Proof.
  apply (header_injection (mkInner "victim" "" "gw-1" MsgUnicast 9) demoF).
  - repeat constructor; unfold is_byte, is_u32; cbn; try (vm_compute; congruence); try lia.
  - apply (proj1 (proj2 (Forall_inv demoLink_carried))).
Defined.
