(* ===== verification/NodeLink.v ===== *)
(** * The TCP transport between nodes (TCPNodeTransport of
    internal/gateway/node_transport.go)

    A node keeps at most one outbound connection per peer, dials on demand,
    retries a failed write once and reconnects in the background.  The tables
    are guarded by a lock, but dialing, writing and closing happen outside it:
    the model is a step relation in which every goroutine is at one of the
    points between two critical sections, and the connections are those of
    [ConnLink].  What each connection accepted is logged. *)

From S2P Require Import Prelude Frame ConnLink Inner.

Definition reconnBackoff : Z := second.
Definition defaultKeepaliveInterval : Z := 30 * second.
Definition defaultReconnCheck : Z := 2 * second.

(** Who put a message on a connection: a call of Forward, or the keepalive. *)
Record entry := mkLog { by_ : option nat; on : nat; msg : InnerHeader * Frame }.

Section Transport.
Context {H : Type} (localID : string) (peers : option (string → option string)).

Record TCPNodeTransport := mkT {
  peerAddrs : gmap string string;
  outConns : gmap string nat;      (** peer → connection *)
  handlers : gmap string H;
  defHandler : option H;
  activePeers : gset string;
  retryAt : gmap string Z;
  closed : bool;                   (** [closeCh] is closed *)
  conns : gmap nat (string * wconn); (** every connection ever dialed, with its peer *)
  log : list entry }.

Definition NewTCPNodeTransport : TCPNodeTransport := mkT ∅ ∅ ∅ None ∅ ∅ false ∅ [].

(** ** Critical sections *)

Definition AddPeer (n : string) (h : H) (t : TCPNodeTransport) : TCPNodeTransport :=
  mkT (peerAddrs t) (outConns t) (<[n := h]> (handlers t)) (defHandler t) (activePeers t) (retryAt t) (closed t) (conns t) (log t).
Definition SetDefaultHandler (h : H) (t : TCPNodeTransport) : TCPNodeTransport :=
  mkT (peerAddrs t) (outConns t) (handlers t) (Some h) (activePeers t) (retryAt t) (closed t) (conns t) (log t).
Definition AddPeerAddr (n a : string) (t : TCPNodeTransport) : TCPNodeTransport :=
  mkT (<[n := a]> (peerAddrs t)) (outConns t) (handlers t) (defHandler t) (activePeers t) (retryAt t) (closed t) (conns t) (log t).

(** The handler of an inbound message: by the sender's name, else the default. *)
Definition HandleForward (i : InnerHeader) (t : TCPNodeTransport) : option H :=
  match handlers t !! GatewayID i with Some h => Some h | None => defHandler t end.

Definition set_conns (v : gmap nat (string * wconn)) (t : TCPNodeTransport) : TCPNodeTransport :=
  mkT (peerAddrs t) (outConns t) (handlers t) (defHandler t) (activePeers t) (retryAt t) (closed t) v (log t).
Definition set_out (v : gmap string nat) (t : TCPNodeTransport) : TCPNodeTransport :=
  mkT (peerAddrs t) v (handlers t) (defHandler t) (activePeers t) (retryAt t) (closed t) (conns t) (log t).

(** The locked part of RemovePeer; the connection is closed afterwards. *)
Definition removeLocked (n : string) (t : TCPNodeTransport) : option nat * TCPNodeTransport :=
  (outConns t !! n,
   mkT (delete n (peerAddrs t)) (delete n (outConns t)) (delete n (handlers t)) (defHandler t)
     (activePeers t ∖ {[n]}) (delete n (retryAt t)) (closed t) (conns t) (log t)).

Definition resolveAddr (n : string) (t : TCPNodeTransport) : option string :=
  match peerAddrs t !! n with
  | Some a => Some a
  | None => match peers with Some p => p n | None => None end
  end.

(** [dialPeer] after a failed dial, and after a successful one: a connection
    that another goroutine registered meanwhile is preferred. *)
Definition dialFailed (now : Z) (n : string) (t : TCPNodeTransport) : TCPNodeTransport :=
  mkT (peerAddrs t) (outConns t) (handlers t) (defHandler t) (activePeers t) (<[n := now + reconnBackoff]> (retryAt t))
    (closed t) (conns t) (log t).
Definition shut (c : nat) (t : TCPNodeTransport) : TCPNodeTransport :=
  set_conns (alter (prod_map id (closeRaw ∘ closeDone)) c (conns t)) t.
Definition registerConn (n : string) (c : nat) (t : TCPNodeTransport) : nat * TCPNodeTransport :=
  match outConns t !! n with
  | Some existing => (existing, shut c t)
  | None =>
      (c, mkT (peerAddrs t) (<[n := c]> (outConns t)) (handlers t) (defHandler t) ({[n]} ∪ activePeers t)
            (delete n (retryAt t)) (closed t) (conns t) (log t))
  end.

(** A failed write: forget the connection if it is still the registered one. *)
Definition dropConn (n : string) (c : nat) (t : TCPNodeTransport) : TCPNodeTransport :=
  if decide (outConns t !! n = Some c) then set_out (delete n (outConns t)) t else t.

Definition isDead (c : nat) (t : TCPNodeTransport) : bool :=
  match conns t !! c with Some (_, w) => dead w | None => true end.
Definition OutboundAlive (n : string) (t : TCPNodeTransport) : bool :=
  match outConns t !! n with Some c => negb (isDead c t) | None => false end.

(** The locked part of [reconcilePeers], over the peers in any order. *)
Fixpoint scan (now : Z) (ids : list string) (t : TCPNodeTransport) : list string * TCPNodeTransport :=
  match ids with
  | [] => ([], t)
  | n :: ids' =>
      if match retryAt t !! n with Some next => bool_decide (now < next) | None => false end then scan now ids' t else
      match outConns t !! n with
      | None => let '(todo, t) := scan now ids' t in (n :: todo, t)
      | Some c =>
          if isDead c t then
            let '(todo, t) := scan now ids' (set_out (delete n (outConns t)) t) in (n :: todo, t)
          else scan now ids' t
      end
  end.

(** [Close] runs once; the connections are closed under the lock. *)
Definition closeAll (t : TCPNodeTransport) : TCPNodeTransport :=
  if closed t then t else
  let t := set_conns (map_imap (fun c x => Some (if decide (outConns t !! x.1 = Some c) then (x.1, closeRaw (closeDone x.2)) else x)) (conns t)) t in
  mkT (peerAddrs t) ∅ (handlers t) (defHandler t) (activePeers t) (retryAt t) true (conns t) (log t).

(** ** Goroutines *)

Inductive ferr := EUnknownAddr | EDial | EFailed.

Inductive pc :=
| PGet                 (** getOrDial *)
| PResolve             (** dialPeer, before the address is known *)
| PDial (addr : string)
| PReg (c : nat)       (** dialed, not registered *)
| PWrite (c : nat)
| PDrop (c : nat)      (** the write failed *)
| PShut (c : nat)      (** about to close [c] *)
| PCheck               (** a peer of a reconnection round *)
| PEnd (r : option ferr).

Inductive kind := KForward (i : InnerHeader) (f : Frame) | KWarmup | KReconcile (rest : list string) | KRemove.

Record gor := mkG { gKind : kind; gNode : string; gTry : nat; gPc : pc }.

Definition at_pc (p : pc) (r : gor) : gor := mkG (gKind r) (gNode r) (gTry r) p.

(** The next peer of a reconnection round. *)
Definition nextPeer (rest : list string) (r : gor) : gor :=
  match rest with
  | [] => mkG (KReconcile []) (gNode r) (gTry r) (PEnd None)
  | n :: rest' => mkG (KReconcile rest') n (gTry r) PCheck
  end.

(** Where [dialPeer] returns to. *)
Definition dialDone (x : ferr + nat) (r : gor) : gor :=
  match gKind r with
  | KForward _ _ => at_pc (match x with inl e => PEnd (Some e) | inr c => PWrite c end) r
  | KReconcile rest => nextPeer rest r
  | _ => at_pc (PEnd (match x with inl e => Some e | inr _ => None end)) r
  end.
(** What follows a [Close] of a connection: the second attempt of Forward or its
    failure, the dial of a reconnection. *)
Definition afterShut (r : gor) : gor :=
  match gKind r with
  | KForward _ _ => if decide (gTry r = O) then mkG (gKind r) (gNode r) 1 PGet else at_pc (PEnd (Some EFailed)) r
  | KReconcile _ => at_pc PResolve r
  | _ => at_pc (PEnd None) r
  end.

(** The message Forward sends: the header names the sending node. *)
Definition outgoing (i : InnerHeader) (f : Frame) : InnerHeader * Frame :=
  (mkInner (UID i) (SessionID i) localID (MsgType i) (ForwardSeq i), f).
Definition rawOf (m : InnerHeader * Frame) : list Z := snd (EncodeInner m.1 m.2).
Definition kaMsg : InnerHeader * Frame := (mkInner "" "" "" MsgKeepalive 0, mkFrame 0 0 0 0 [] []).

(** A connection after a message was offered to it. *)
Definition offered (ok : option entry) (c : nat) (n : string) (w : wconn) (t : TCPNodeTransport) : TCPNodeTransport :=
  mkT (peerAddrs t) (outConns t) (handlers t) (defHandler t) (activePeers t) (retryAt t) (closed t)
    (<[c := (n, w)]> (conns t)) (log t ++ match ok with Some e => [e] | None => [] end).

(** One step of goroutine [g]. *)
Inductive act (g : nat) (t : TCPNodeTransport) (r : gor) : TCPNodeTransport → gor → Prop :=
| a_hit c : gPc r = PGet → outConns t !! gNode r = Some c → act g t r t (at_pc (PWrite c) r)
| a_miss : gPc r = PGet → outConns t !! gNode r = None → act g t r t (at_pc PResolve r)
| a_unknown : gPc r = PResolve → resolveAddr (gNode r) t = None → act g t r t (dialDone (inl EUnknownAddr) r)
| a_resolved a : gPc r = PResolve → resolveAddr (gNode r) t = Some a → act g t r t (at_pc (PDial a) r)
| a_refused a now : gPc r = PDial a → act g t r (dialFailed now (gNode r) t) (dialDone (inl EDial) r)
| a_dialed a c : gPc r = PDial a → conns t !! c = None →
    act g t r (set_conns (<[c := (gNode r, newConn)]> (conns t)) t) (at_pc (PReg c) r)
| a_registered c c' t' : gPc r = PReg c → registerConn (gNode r) c t = (c', t') → act g t r t' (dialDone (inr c') r)
| a_written i f c n w w' : gPc r = PWrite c → gKind r = KForward i f → conns t !! c = Some (n, w) →
    nodeWrite (rawOf (outgoing i f)) w (None, w') →
    act g t r (offered (Some (mkLog (Some g) c (outgoing i f))) c n w' t) (at_pc (PEnd None) r)
| a_write_failed i f c n w e w' : gPc r = PWrite c → gKind r = KForward i f → conns t !! c = Some (n, w) →
    nodeWrite (rawOf (outgoing i f)) w (Some e, w') →
    act g t r (offered None c n w' t) (at_pc (PDrop c) r)
| a_drop c : gPc r = PDrop c → act g t r (dropConn (gNode r) c t) (at_pc (PShut c) r)
| a_shut c : gPc r = PShut c → act g t r (shut c t) (afterShut r)
| a_alive rest c : gPc r = PCheck → gKind r = KReconcile rest → outConns t !! gNode r = Some c → isDead c t = false →
    act g t r t (nextPeer rest r)
| a_stale c : gPc r = PCheck → outConns t !! gNode r = Some c → isDead c t = true → act g t r t (at_pc (PShut c) r)
| a_absent : gPc r = PCheck → outConns t !! gNode r = None → act g t r t (at_pc PResolve r).

(** What goes on inside a connection: its write loop, the detection of a hang-up,
    the second half of a [Close]. *)
Inductive inside (w : wconn) : wconn → Prop :=
| in_loop w' : loop nodeCfg w w' → inside w w'
| in_detect : inside w (markDead w)
| in_dead : dead w = true → inside w (closeDone w)
| in_close : done w = true → inside w (closeRaw w).

Definition world : Type := TCPNodeTransport * gmap nat gor.

Inductive nstep : world → world → Prop :=
| n_act t gs g r t' r' : gs !! g = Some r → act g t r t' r' → nstep (t, gs) (t', <[g := r']> gs)
| n_forward t gs g n i f : gs !! g = None → nstep (t, gs) (t, <[g := mkG (KForward i f) n 0 PGet]> gs)
| n_warmup t gs g n : gs !! g = None → nstep (t, gs) (t, <[g := mkG KWarmup n 0 PResolve]> gs)
| n_remove t gs g n : gs !! g = None →
    nstep (t, gs) (snd (removeLocked n t),
      <[g := mkG KRemove n 0 (match fst (removeLocked n t) with Some c => PShut c | None => PEnd None end)]> gs)
| n_round t gs g now ids todo t' : gs !! g = None → ids ≡ₚ elements (activePeers t) → scan now ids t = (todo, t') →
    nstep (t, gs) (t', <[g := nextPeer todo (mkG (KReconcile []) "" 0 PCheck)]> gs)
| n_addr t gs n a : nstep (t, gs) (AddPeerAddr n a t, gs)
| n_handler t gs n h : nstep (t, gs) (AddPeer n h t, gs)
| n_default t gs h : nstep (t, gs) (SetDefaultHandler h t, gs)
| n_close t gs : nstep (t, gs) (closeAll t, gs)
| n_inside t gs c n w w' : conns t !! c = Some (n, w) → inside w w' →
    nstep (t, gs) (set_conns (<[c := (n, w')]> (conns t)) t, gs)
| n_keepalive t gs c n w w' : conns t !! c = Some (n, w) → push nodeCfg keepalive w (None, w') →
    nstep (t, gs) (offered (Some (mkLog None c kaMsg)) c n w' t, gs).

Definition initial : world := (NewTCPNodeTransport, ∅).
Definition reach (s : world) : Prop := rtc nstep initial s.
End Transport.
