(* ===== verification/NodeLinkThm.v ===== *)
(** * Theorems on the TCP transport between nodes *)

From S2P Require Import Prelude Frame ConnLink Inner NodeLink.

(** ** A link cut short *)

Lemma ReadFull_short (r : list Z) n : zlen r < n → ∃ e r', ReadFull r n = (inl e, r') ∧ (e = ErrEOF ∨ e = ErrUnexpectedEOF).
Proof. intros Hn. unfold ReadFull. rewrite decide_False by lia. case_decide; eauto 10. Qed.

(** A proper prefix of an envelope is not one. *)
Lemma envelope_cut data bs : 0 < zlen data < 2^32 → bs `prefix_of` envelope data → bs ≠ envelope data →
  ∃ e i r, readEnvelope bs = Ok ((i, inl (ERead e)), r) ∧ (e = ErrEOF ∨ e = ErrUnexpectedEOF).
Proof.
  intros Hd [rest E] Hne. unfold readEnvelope.
  assert (Hbs : zlen bs < 4 + zlen data).
  { assert (zlen (envelope data) = 4 + zlen data) as Hl by (unfold envelope; by rewrite zlen_app).
    rewrite E, zlen_app in Hl. destruct rest as [|z rest]; [by rewrite app_nil_r in E|]. rewrite zlen_cons in Hl.
    pose proof (zlen_nonneg rest). lia. }
  destruct (decide (zlen bs < 4)) as [H4|H4].
  { destruct (ReadFull_short bs 4 H4) as (e & r' & -> & He). eauto 10. }
  assert (∃ b, bs = PutUint32 (to_u32 (zlen data)) ++ b) as [b ->].
  { exists (drop 4 bs). rewrite <- (take_drop 4 bs) at 1. f_equal. transitivity (take 4 (envelope data)); [|done].
    rewrite E. symmetry. apply take_app_le. unfold zlen in H4. lia. }
  rewrite ReadFull_exact by done. rewrite to_u32_id by lia. pose proof (Uint32_Put (zlen data) []) as Eu.
  rewrite app_nil_r in Eu. rewrite Eu by (unfold is_u32; lia). cbn [rbind]. rewrite decide_False by lia.
  rewrite zlen_app in Hbs. change (zlen (PutUint32 _)) with 4 in Hbs.
  destruct (ReadFull_short b (zlen data)) as (e & r' & -> & He); [lia|]. eauto 10.
Qed.

Definition handed (ms : list (InnerHeader * Frame)) : list (InnerHeader * Frame) :=
  (fun m => (fst m, normalize (snd m))) <$> filter business ms.

Lemma carried_envelope m : carried m → 0 < zlen (rawOf m) < 2^32.
Proof.
  intros (Hi & (Hwf & Hr & Hp & Hm) & Hl). unfold rawOf. split; [|done].
  rewrite EncodeInner_ok by done. apply header_pos.
Qed.

(** The receiving loop on a stream cut anywhere hands over the messages that
    arrived whole. *)
Lemma link_prefix ms bs : Forall carried ms → bs `prefix_of` linkBytes ms →
  ∃ k e, serveConn (S (length ms)) bs = Ok (handed (take k ms), ERead e) ∧ (k ≤ length ms)%nat ∧
    (bs = linkBytes ms → k = length ms).
Proof.
  intros Hms. revert bs. induction Hms as [|[i f] ms Hm Hms IH]; intros bs Hpre.
  { apply prefix_nil_inv in Hpre as ->. by exists O, ErrEOF. }
  assert (Hpos := carried_envelope _ Hm).
  change (linkBytes ((i, f) :: ms)) with (envelope (rawOf (i, f)) ++ linkBytes ms) in *.
  assert (Hw : ∀ b k e, serveConn (S (length ms)) b = Ok (handed (take k ms), ERead e) →
    serveConn (S (length ((i, f) :: ms))) (envelope (rawOf (i, f)) ++ b) = Ok (handed (take (S k) ((i, f) :: ms)), ERead e)).
  { intros b k e E. cbn [length]. cbn [serveConn]. unfold rawOf. cbn [fst snd]. rewrite readEnvelope_ok by done.
    cbn [rbind]. cbn [serveConn] in E. rewrite E. cbn [rbind take]. unfold handed. rewrite filter_cons.
    unfold business at 2. cbn [fst]. case_decide as Hk; [by rewrite decide_False by naive_solver|by rewrite decide_True by done]. }
  destruct Hpre as [rest E]. apply app_eq_inv in E as [(k & E1 & E2)|(k & E1 & E2)].
  - destruct k as [|z k].
    + rewrite app_nil_r in E1. subst bs. destruct (IH [] (prefix_nil _)) as (k & e & HD & Hk & Hall).
      exists (S k), e. split; [|split; [cbn; lia|]].
      * rewrite <- (app_nil_r (envelope _)). by apply Hw.
      * intros E. cbn [length]. f_equal. apply Hall. rewrite <- (app_nil_r (envelope _)) in E at 1. by apply app_inv_head in E.
    + destruct (envelope_cut (rawOf (i, f)) bs Hpos) as (e & i' & r & HD & He).
      { exists (z :: k). done. } { intros ->. rewrite <- app_nil_r in E1 at 1. by apply app_inv_head in E1. }
      exists O, e. split; [|split; [lia|]].
      * cbn [length serveConn]. rewrite HD. done.
      * intros ->. apply (f_equal zlen) in E1. rewrite !zlen_app, zlen_cons in E1.
        pose proof (zlen_nonneg k). pose proof (zlen_nonneg (linkBytes ms)). lia.
  - subst bs. destruct (IH k) as (n & e & HD & Hn & Hall); [by exists rest|].
    exists (S n), e. split; [by apply Hw|]. split; [cbn; lia|]. intros E. cbn [length]. f_equal. apply Hall.
    by apply app_inv_head in E.
Qed.

(** ** Invariant *)

Section Thm.
Context {H : Type} (localID : string) (peers : option (string → option string)).
Notation T := (TCPNodeTransport (H := H)).
Notation act := (act (H := H) localID peers).
Notation nstep := (nstep (H := H) localID peers).
Notation reach := (reach (H := H) localID peers).

Definition msgsOn (c : nat) (l : list entry) : list (InnerHeader * Frame) := msg <$> filter (fun e => on e = c) l.
Definition byOf (g : nat) (l : list entry) : list entry := filter (fun e => by_ e = Some g) l.

(** The connection a goroutine works with, and the one it must still register or
    close. *)
Definition holds (p : pc) (c : nat) : Prop :=
  match p with PReg c' | PWrite c' | PDrop c' | PShut c' => c' = c | _ => False end.
Definition owes (p : pc) (c : nat) : Prop := match p with PReg c' | PShut c' => c' = c | _ => False end.

(** Connections are never forgotten, change their peer or come back to life. *)
Definition grows (t t' : T) : Prop := ∀ c n w, conns t !! c = Some (n, w) →
  ∃ w', conns t' !! c = Some (n, w') ∧ (done w = true → done w' = true) ∧ (dead w = true → dead w' = true).

Lemma grows_refl t t' : conns t' = conns t → grows t t'.
Proof. intros E c n w Hc. exists w. by rewrite E. Qed.
Lemma grows_insert t t' c n w w' : conns t !! c = Some (n, w) → conns t' = <[c := (n, w')]> (conns t) →
  (done w = true → done w' = true) → (dead w = true → dead w' = true) → grows t t'.
Proof.
  intros Hc E Hd Hx c' n' w0 Hc'. rewrite E. destruct (decide (c' = c)) as [->|Hn].
  - rewrite lookup_insert_eq. exists w'. by simplify_eq.
  - rewrite lookup_insert_ne by done. by exists w0.
Qed.
Lemma grows_fresh t t' c x : conns t !! c = None → conns t' = <[c := x]> (conns t) → grows t t'.
Proof. intros Hc E c' n' w0 Hc'. rewrite E, lookup_insert_ne by naive_solver. by exists w0. Qed.
Lemma conns_shut c c' (t : T) : conns (shut c t) !! c' =
  if decide (c = c') then prod_map id (closeRaw ∘ closeDone) <$> conns t !! c' else conns t !! c'.
Proof. unfold shut. cbn. case_decide; subst; [by rewrite lookup_alter_eq|by rewrite lookup_alter_ne]. Qed.
Lemma grows_shut c t : grows t (shut c t).
Proof.
  intros c' n w Hc. rewrite conns_shut, Hc. case_decide; [|by exists w]. by exists (closeRaw (closeDone w)).
Qed.
Lemma grows_closeAll t : grows t (closeAll t).
Proof.
  intros c n w Hc. unfold closeAll. destruct (closed t); [by exists w|]. cbn. rewrite map_lookup_imap, Hc. cbn.
  case_decide; eexists; (split; [reflexivity|done]).
Qed.

Lemma nodeWrite_flags d w r w' : nodeWrite d w (r, w') → done w' = done w ∧ dead w' = dead w.
Proof. inversion 1; subst; [done|]. by match goal with P : push _ _ _ _ |- _ => inversion P; subst end. Qed.
Lemma grows_write d t e c n w r w' : conns t !! c = Some (n, w) → nodeWrite d w (r, w') → grows t (offered e c n w' t).
Proof. intros Hc [Hd Hx]%nodeWrite_flags. eapply grows_insert; [done|reflexivity|by rewrite Hd|by rewrite Hx]. Qed.
Lemma loop_flags w w' : loop nodeCfg w w' → (done w = true → done w' = true) ∧ (dead w = true → dead w' = true).
Proof.
  inversion 1; subst; cbn; try done; unfold flush; case_decide; try done; destruct o; done.
Qed.
Lemma inside_flags w w' : inside w w' → (done w = true → done w' = true) ∧ (dead w = true → dead w' = true).
Proof. inversion 1; subst; cbn; auto. by apply loop_flags. Qed.

Lemma dialDone_holds x r c : holds (gPc (dialDone x r)) c → x = inr c ∧ gNode (dialDone x r) = gNode r ∧ ¬ owes (gPc (dialDone x r)) c.
Proof. unfold dialDone. destruct (gKind r) as [| |[]|], x; cbn; naive_solver. Qed.
Lemma afterShut_holds r c : ¬ holds (gPc (afterShut r)) c.
Proof. unfold afterShut. destruct (gKind r); cbn; [case_decide|..]; cbn; naive_solver. Qed.
Lemma nextPeer_holds l r c : ¬ holds (gPc (nextPeer l r)) c.
Proof. destruct l; cbn; naive_solver. Qed.
Lemma owes_holds p c : owes p c → holds p c.
Proof. by destruct p. Qed.

Lemma act_grows g t r t' r' : act g t r t' r' → grows t t'.
Proof.
  inversion 1; subst; try by apply grows_refl.
  - by eapply grows_fresh.
  - unfold registerConn in *. destruct (outConns t !! gNode r); simplify_eq; [apply grows_shut|by apply grows_refl].
  - by eapply grows_write.
  - by eapply grows_write.
  - unfold dropConn. case_decide; by apply grows_refl.
  - apply grows_shut.
Qed.

(** What a goroutine does to the table of connections. *)
Lemma act_out g t r t' r' : act g t r t' r' →
  (∀ n c, outConns t' !! n = Some c → outConns t !! n = Some c ∨ gPc r = PReg c ∧ n = gNode r) ∧
  (∀ n c, outConns t !! n = Some c → outConns t' !! n = Some c ∨ owes (gPc r') c) ∧
  (∀ n, is_Some (outConns t' !! n) → is_Some (outConns t !! n) ∨ n ∈ activePeers t') ∧ activePeers t ⊆ activePeers t'.
Proof.
  inversion 1; subst; try by split_and!; auto.
  - unfold registerConn in *. destruct (outConns t !! gNode r) eqn:E; simplify_eq; cbn; [by split_and!; auto|].
    split_and!; [..|set_solver]; intros n.
    + destruct (decide (n = gNode r)) as [->|]; [rewrite lookup_insert_eq|rewrite lookup_insert_ne by done]; naive_solver.
    + intros x Hx. left. rewrite lookup_insert_ne; naive_solver.
    + destruct (decide (n = gNode r)) as [->|]; [set_solver|rewrite lookup_insert_ne by done]. by left.
  - unfold dropConn. case_decide as Hd; [|by split_and!; auto]. cbn. split_and!; [..|done]; intros n.
    + intros x [_ Hx]%lookup_delete_Some. by left.
    + intros x Hx. destruct (decide (n = gNode r)) as [->|]; [right; congruence|left; by rewrite lookup_delete_ne].
    + intros [x [_ Hx]%lookup_delete_Some]. left. by eexists.
Qed.

Ltac at_pc := match goal with P : gPc ?r = _ |- context [gPc ?r] => by rewrite P end.

(** Where a goroutine's connection comes from. *)
Lemma act_holds g t r t' r' : act g t r t' r' → ∀ c, holds (gPc r') c →
  gNode r' = gNode r ∧ (holds (gPc r) c ∨ outConns t !! gNode r = Some c ∨ conns t' !! c = Some (gNode r, newConn)).
Proof.
  inversion 1; subst; intros x Hx; cbn in Hx |- *; try naive_solver; try by (split; [done|left; at_pc]).
  - by apply dialDone_holds in Hx as [? _].
  - by apply dialDone_holds in Hx as [? _].
  - subst. rewrite lookup_insert_eq. auto.
  - apply dialDone_holds in Hx as (Hx & -> & _). simplify_eq. split; [done|].
    unfold registerConn in *. destruct (outConns t !! gNode r) eqn:E; simplify_eq; [by auto|].
    left. at_pc.
  - by apply afterShut_holds in Hx.
  - by apply nextPeer_holds in Hx.
Qed.

(** A goroutine that owes the closing of a connection closes or registers it. *)
Lemma act_owes g t r t' r' c n w' : act g t r t' r' → owes (gPc r) c → conns t' !! c = Some (n, w') → n = gNode r →
  done w' = true ∨ outConns t' !! n = Some c.
Proof.
  intros Ha Ho Hc ->. inversion Ha; subst;
    try (match goal with P : gPc _ = _ |- _ => rewrite P in Ho end; cbn in Ho; done || subst).
  - unfold registerConn in *. destruct (outConns t !! gNode r) eqn:E; simplify_eq.
    + rewrite conns_shut, decide_True in Hc by done. apply fmap_Some in Hc as ([? ?] & _ & [= _ ->]). by left.
    + right. cbn. by rewrite lookup_insert_eq.
  - left. rewrite conns_shut, decide_True in Hc by done. by apply fmap_Some in Hc as ([? ?] & _ & [= _ ->]).
Qed.

(** New connections are in the hands of their dialer. *)
Lemma act_fresh g t r t' r' c x : act g t r t' r' → conns t !! c = None → conns t' !! c = Some x → gPc r' = PReg c.
Proof.
  intros Ha Hc Hc'. inversion Ha; subst; try congruence; try (cbn in Hc'; congruence).
  - cbn in Hc'. by apply lookup_insert_Some in Hc' as [[-> _]|[_ ?]]; [|congruence].
  - unfold registerConn in *. destruct (outConns t !! gNode r); simplify_eq; [|cbn in Hc'; congruence].
    rewrite conns_shut, Hc in Hc'. by case_decide.
  - cbn in Hc'. apply lookup_insert_Some in Hc' as [[-> _]|[_ ?]]; congruence.
  - cbn in Hc'. apply lookup_insert_Some in Hc' as [[-> _]|[_ ?]]; congruence.
  - unfold dropConn in Hc'. case_decide; cbn in Hc'; congruence.
  - rewrite conns_shut, Hc in Hc'. by case_decide.
Qed.

(** Tables: connections are filed under the peer they were dialed for, every
    registered peer is watched by the reconnection loop, and a connection that
    is not registered is closed, dead or in the hands of a goroutine that will
    register or close it. *)
Record Tables (s : world (H := H)) : Prop := {
  ta_out : ∀ n c, outConns s.1 !! n = Some c → ∃ w, conns s.1 !! c = Some (n, w);
  ta_held : ∀ g r c, s.2 !! g = Some r → holds (gPc r) c → ∃ w, conns s.1 !! c = Some (gNode r, w);
  ta_active : ∀ n, is_Some (outConns s.1 !! n) → n ∈ activePeers s.1;
  ta_own : ∀ c n w, conns s.1 !! c = Some (n, w) →
    done w = true ∨ dead w = true ∨ outConns s.1 !! n = Some c ∨ ∃ g r, s.2 !! g = Some r ∧ owes (gPc r) c }.

Lemma Tables_act g t r t' r' gs : Tables (t, gs) → gs !! g = Some r → act g t r t' r' → Tables (t', <[g := r']> gs).
Proof.
  intros [Hout Hheld Hact Hown] Hg Ha. cbn [fst snd] in *.
  destruct (act_out _ _ _ _ _ Ha) as (Ho1 & Ho2 & Ho3 & Ho4). pose proof (act_grows _ _ _ _ _ Ha) as Hgr.
  pose proof (act_holds _ _ _ _ _ Ha) as Hh. split; cbn [fst snd].
  - intros n c [Hc|[Hc ->]]%Ho1; [destruct (Hout _ _ Hc) as [w Hw]|destruct (Hheld g r c Hg) as [w Hw]; [by rewrite Hc|]];
      apply Hgr in Hw as (w' & Hw & _); by exists w'.
  - intros g' r0 c Hg' Hr0. destruct (decide (g' = g)) as [->|Hn].
    + rewrite lookup_insert_eq in Hg'. simplify_eq. destruct (Hh _ Hr0) as [-> [Hc|[Hc|Hc]]]; [..|by exists newConn].
      * destruct (Hheld _ _ _ Hg Hc) as [w Hw]. apply Hgr in Hw as (w' & Hw & _). by exists w'.
      * destruct (Hout _ _ Hc) as [w Hw]. apply Hgr in Hw as (w' & Hw & _). by exists w'.
    + rewrite lookup_insert_ne in Hg' by done. destruct (Hheld _ _ _ Hg' Hr0) as [w Hw].
      apply Hgr in Hw as (w' & Hw & _). by exists w'.
  - intros n [Hc|?]%Ho3; [|done]. apply Ho4. by apply Hact.
  - intros c n w' Hc'. destruct (conns t !! c) as [[n0 w]|] eqn:Hc; cycle 1.
    { right. right. right. exists g, r'. rewrite lookup_insert_eq. split; [done|].
      by rewrite (act_fresh _ _ _ _ _ _ _ Ha Hc Hc'). }
    destruct (Hgr _ _ _ Hc) as (w1 & Hc1 & Hd & Hx). simplify_eq.
    destruct (Hown _ _ _ Hc) as [Hw|[Hw|[Hw|(g' & r0 & Hg' & Hr0)]]]; [by auto..| |].
    + destruct (Ho2 _ _ Hw) as [?|?]; [by auto|]. right. right. right. exists g, r'. by rewrite lookup_insert_eq.
    + destruct (decide (g' = g)) as [->|Hn].
      * simplify_eq. destruct (Hheld _ _ _ Hg (owes_holds _ _ Hr0)) as [w0 Hw0]. simplify_eq.
        destruct (act_owes _ _ _ _ _ _ _ _ Ha Hr0 Hc' eq_refl); auto.
      * right. right. right. exists g', r0. by rewrite lookup_insert_ne.
Qed.

(** A step that keeps the goroutines. *)
Lemma Tables_quiet (t t' : T) gs : Tables (t, gs) → grows t t' →
  (∀ c, is_Some (conns t' !! c) → is_Some (conns t !! c)) →
  (∀ n c, outConns t' !! n = Some c → outConns t !! n = Some c) →
  (∀ n c w, outConns t !! n = Some c → conns t' !! c = Some (n, w) → 
    outConns t' !! n = Some c ∨ done w = true ∨ dead w = true ∨ ∃ g r, gs !! g = Some r ∧ owes (gPc r) c) →
  (∀ n, is_Some (outConns t' !! n) → n ∈ activePeers t → n ∈ activePeers t') → Tables (t', gs).
Proof.
  intros [Hout Hheld Hact Hown] Hgr Hdom Ho1 Ho2 Hap. split; cbn [fst snd] in *.
  - intros n c Hc%Ho1. destruct (Hout _ _ Hc) as [w Hw]. apply Hgr in Hw as (w' & Hw & _). by exists w'.
  - intros g r c Hg Hr. destruct (Hheld _ _ _ Hg Hr) as [w Hw]. apply Hgr in Hw as (w' & Hw & _). by exists w'.
  - intros n [c Hc]. apply Hap; [by exists c|]. apply Hact. exists c. by apply Ho1.
  - intros c n w' Hc'. destruct (Hdom c) as [[n0 w] Hc]; [by eexists|].
    destruct (Hgr _ _ _ Hc) as (w1 & Hc1 & Hd & Hx). simplify_eq.
    destruct (Hown _ _ _ Hc) as [Hw|[Hw|[Hw|?]]]; [by auto..| |by auto].
    destruct (Ho2 _ _ _ Hw Hc') as [?|[?|[?|?]]]; auto.
Qed.

(** A goroutine that starts. *)
Lemma Tables_spawn (t : T) gs g r : Tables (t, gs) → gs !! g = None →
  (∀ c, holds (gPc r) c → ∃ w, conns t !! c = Some (gNode r, w)) → Tables (t, <[g := r]> gs).
Proof.
  intros [Hout Hheld Hact Hown] Hg Hr. split; cbn [fst snd] in *; [done|..|done|].
  - intros g' r' c [[<- <-]|[Hn Hg']]%lookup_insert_Some; eauto.
  - intros c n w Hc. destruct (Hown _ _ _ Hc) as [?|[?|[?|(g' & r' & Hg' & Ho)]]]; auto.
    right. right. right. exists g', r'. rewrite lookup_insert_ne; [done|naive_solver].
Qed.

Lemma scan_spec now ids (t t' : T) todo : scan now ids t = (todo, t') →
  conns t' = conns t ∧ log t' = log t ∧ activePeers t' = activePeers t ∧
  (∀ n c, outConns t' !! n = Some c → outConns t !! n = Some c) ∧
  (∀ n c, outConns t !! n = Some c → outConns t' !! n = Some c ∨ isDead c t = true).
Proof.
  revert t todo. induction ids as [|n ids IH]; intros t todo; cbn [scan].
  { intros [= <- <-]. by split_and!; auto. }
  destruct (match retryAt t !! n with Some _ => _ | None => _ end); [by apply IH|].
  destruct (outConns t !! n) as [c|] eqn:Ec.
  - destruct (isDead c t) eqn:Ed; [|by apply IH]. destruct (scan now ids _) as [td t1] eqn:E. intros [= <- <-].
    apply IH in E as (H1 & H2 & H3 & H4 & H5). cbn in *. split_and!; [done..| |].
    + intros m x Hx%H4. by apply lookup_delete_Some in Hx as [_ ?].
    + intros m x Hx. destruct (decide (m = n)) as [->|Hn]; [right; congruence|]. apply H5. by rewrite lookup_delete_ne.
  - destruct (scan now ids t) as [td t1] eqn:E. intros [= <- <-]. by apply IH in E.
Qed.

Lemma inserted_dom (t : T) c x y c' : conns t !! c = Some x → is_Some (<[c := y]> (conns t) !! c') → is_Some (conns t !! c').
Proof. intros Hc [z [[-> _]|[_ Hz]]%lookup_insert_Some]; [by exists x|by exists z]. Qed.

Lemma Tables_remove n (t : T) gs g : Tables (t, gs) → gs !! g = None →
  Tables (snd (removeLocked n t),
    <[g := mkG KRemove n 0 (match fst (removeLocked n t) with Some c => PShut c | None => PEnd None end)]> gs).
Proof.
  intros Ht Hg. apply (Tables_quiet t); [..|].
  - apply Tables_spawn; [done..|]. cbn. intros c. destruct (outConns t !! n) as [c'|] eqn:E; [|done]. cbn. intros <-.
    by apply (ta_out _ Ht).
  - by apply grows_refl.
  - done.
  - cbn. by intros m c [_ Hm]%lookup_delete_Some.
  - intros m c w Hm _. cbn. destruct (decide (m = n)) as [->|]; [|left; by rewrite lookup_delete_ne].
    right. right. right. exists g. eexists. rewrite lookup_insert_eq. split; [done|]. by rewrite Hm.
  - cbn. intros m [c [Hm _]%lookup_delete_Some] Ha. set_solver.
Qed.

Lemma isDead_true c n w (t : T) : conns t !! c = Some (n, w) → isDead c t = true → dead w = true.
Proof. unfold isDead. by intros ->. Qed.

Lemma Tables_step s s' : nstep s s' → Tables s → Tables s'.
Proof.
  intros Hs Ht. destruct Hs.
  - by eapply Tables_act.
  - by apply Tables_spawn.
  - by apply Tables_spawn.
  - by apply Tables_remove.
  - match goal with E : scan _ _ _ = _ |- _ => apply scan_spec in E as (Hc1 & Hc2 & Hc3 & Hc4 & Hc5) end.
    apply Tables_spawn; [|done|]; cycle 1. { by intros c ?%nextPeer_holds. }
    apply (Tables_quiet t); [done|by apply grows_refl|by rewrite Hc1|done| |by rewrite Hc3].
    intros n c w Hc Hw. rewrite Hc1 in Hw. destruct (Hc5 _ _ Hc) as [?|Hd]; [by left|]. right. right. left.
    by eapply isDead_true.
  - apply (Tables_quiet t); by auto using grows_refl.
  - apply (Tables_quiet t); by auto using grows_refl.
  - apply (Tables_quiet t); by auto using grows_refl.
  - unfold closeAll at 1. destruct (closed t) eqn:Ec; [done|].
    apply (Tables_quiet t); [done| |..]; cbn.
    + pose proof (grows_closeAll t) as Hgr. unfold closeAll in Hgr. by rewrite Ec in Hgr.
    + intros c. rewrite map_lookup_imap. by destruct (conns t !! c).
    + intros n c. by rewrite lookup_empty.
    + intros n c w Hc. rewrite map_lookup_imap. destruct (ta_out _ Ht _ _ Hc) as [w0 Hw0]. cbn in Hw0. rewrite Hw0. cbn.
      rewrite Hc, decide_True by done. intros [= <-]. cbn. auto.
    + done.
  - match goal with I : inside _ _ |- _ => apply inside_flags in I as [Hd Hx] end.
    apply (Tables_quiet t); [done|by eapply grows_insert|..]; cbn; [by intros; eapply inserted_dom|by auto..].
  - match goal with P : push _ _ _ _ |- _ => inversion P; subst end.
    apply (Tables_quiet t); [done|by eapply grows_insert|..]; cbn; [by intros; eapply inserted_dom|by auto..].
Qed.

Lemma reach_Tables s : reach s → Tables s.
Proof. intros Hr. eapply (rtc_keeps nstep Tables); [apply Tables_step|exact Hr|]. split; cbn; intros *; rewrite lookup_empty; [done..|by intros [? [=]]|done]. Qed.

(** ** The log *)

(** Forward returned without an error. *)
Definition delivered (r : gor) : bool := match gKind r, gPc r with KForward _ _, PEnd None => true | _, _ => false end.

Record Logs (s : world (H := H)) : Prop := {
  lo_conn : ∀ c n w, conns s.1 !! c = Some (n, w) →
    rtc (step nodeCfg) newConn w ∧ accepted w = (fun m => envelope (rawOf m)) <$> msgsOn c (log s.1);
  lo_on : ∀ e, e ∈ log s.1 → is_Some (conns s.1 !! on e);
  lo_by : ∀ e, e ∈ log s.1 →
    match by_ e with
    | None => msg e = kaMsg
    | Some g => ∃ r i f w, s.2 !! g = Some r ∧ gKind r = KForward i f ∧ gPc r = PEnd None ∧
        msg e = outgoing localID i f ∧ conns s.1 !! on e = Some (gNode r, w)
    end;
  lo_once : ∀ g r, s.2 !! g = Some r → length (byOf g (log s.1)) = if delivered r then 1%nat else O }.

(** Connections move on without accepting anything. *)
Definition silent (t t' : T) : Prop := log t' = log t ∧ ∀ c n w', conns t' !! c = Some (n, w') →
  (conns t !! c = None ∧ w' = newConn) ∨ ∃ w, conns t !! c = Some (n, w) ∧ rtc (step nodeCfg) w w' ∧ accepted w' = accepted w.

Lemma silent_refl t t' : log t' = log t → conns t' = conns t → silent t t'.
Proof. intros Hl Hc. split; [done|]. intros c n w. rewrite Hc. intros Hw. right. exists w. by split_and!. Qed.
Lemma silent_insert t t' c n w w' : log t' = log t → conns t !! c = Some (n, w) → conns t' = <[c := (n, w')]> (conns t) →
  rtc (step nodeCfg) w w' → accepted w' = accepted w → silent t t'.
Proof.
  intros Hl Hc E Hr Ha. split; [done|]. intros c' n' w0. rewrite E. intros [[-> [= -> ->]]|[Hn H0]]%lookup_insert_Some.
  - right. by exists w.
  - right. by exists w0.
Qed.
Lemma close_steps w : rtc (step nodeCfg) w (closeRaw (closeDone w)).
Proof. eapply rtc_l; [apply step_close_done|]. apply rtc_once. by apply (step_close_raw nodeCfg (closeDone w)). Qed.
Lemma silent_shut c t : silent t (shut c t).
Proof.
  split; [done|]. intros c' n w'. rewrite conns_shut. case_decide; [|by right; exists w'].
  intros ([n0 w] & Hc & [= -> ->])%fmap_Some. right. exists w. split_and!; [done|apply close_steps|done].
Qed.
Lemma silent_closeAll t : silent t (closeAll t).
Proof.
  unfold closeAll. destruct (closed t); [by apply silent_refl|]. split; [done|]. intros c n w'. cbn.
  rewrite map_lookup_imap. destruct (conns t !! c) as [[n0 w]|]; [|done]. cbn.
  case_decide; intros [= -> <-]; right; exists w; split_and!; try done. apply close_steps.
Qed.
Lemma nodeWrite_failed d w e w' : nodeWrite d w (Some e, w') → w' = w.
Proof. inversion 1; subst; [done|]. by match goal with P : push _ _ _ _ |- _ => inversion P end. Qed.

Lemma on_none c l (t : T) : (∀ e, e ∈ l → is_Some (conns t !! on e)) → conns t !! c = None → msgsOn c l = [].
Proof.
  intros Hl Hc. unfold msgsOn. destruct (filter _ l) as [|e l'] eqn:E; [done|]. exfalso.
  assert (e ∈ filter (fun e => on e = c) l) as [<- He]%list_elem_of_filter by (rewrite E; left).
  apply Hl in He. rewrite Hc in He. by destruct He.
Qed.
Lemma by_none g (s : world (H := H)) : Logs s → s.2 !! g = None → byOf g (log s.1) = [].
Proof.
  intros Hl Hg. unfold byOf. destruct (filter _ _) as [|e l'] eqn:E; [done|]. exfalso.
  assert (e ∈ filter (fun e => by_ e = Some g) (log s.1)) as [He Hi]%list_elem_of_filter by (rewrite E; left).
  apply (lo_by _ Hl) in Hi. rewrite He in Hi. destruct Hi as (r & i & f & w & Hr & _). congruence.
Qed.

Lemma Logs_quiet (t t' : T) gs : Logs (t, gs) → grows t t' → silent t t' → Logs (t', gs).
Proof.
  intros [Hc Ho Hb H1] Hgr [Hl Hsil]. split; cbn [fst snd] in *; rewrite Hl.
  - intros c n w' [[Hn ->]|(w & Hw & Hr & Ha)]%Hsil.
    + split; [done|]. by rewrite (on_none _ _ t).
    + destruct (Hc _ _ _ Hw) as [Hr0 Ha0]. split; [by etrans|congruence].
  - intros e [[n w] He]%Ho. apply Hgr in He as (w' & He & _). by eexists.
  - intros e He%Hb. destruct (by_ e); [|done]. destruct He as (r & i & f & w & ? & ? & ? & ? & He).
    apply Hgr in He as (w' & He & _). eauto 10.
  - done.
Qed.

(** A goroutine moves on, or starts, without a delivery. *)
Lemma Logs_gor (t : T) gs g r' : Logs (t, gs) → delivered r' = false →
  match gs !! g with Some r => delivered r = false | None => True end → Logs (t, <[g := r']> gs).
Proof.
  intros Hi Hd' Hg. pose proof Hi as [Hc Ho Hb H1]. cbn [fst snd] in *. split; cbn [fst snd]; [done..| |].
  - intros e He%Hb. destruct (by_ e) as [g'|]; [|done]. destruct He as (r & i & f & w & Hr & Hk & Hp & ?).
    exists r, i, f, w. rewrite lookup_insert_ne; [done|]. intros <-. rewrite Hr in Hg. unfold delivered in Hg. by rewrite Hk, Hp in Hg.
  - intros g' r0 [[<- <-]|[Hn Hr]]%lookup_insert_Some; [|by apply H1]. rewrite Hd'.
    destruct (gs !! g) as [r|] eqn:E; [by rewrite (H1 _ _ E), Hg|]. by rewrite (by_none _ (t, gs)).
Qed.

(** A connection accepts a message. *)
Lemma Logs_offer (t : T) gs c n w w' e : Logs (t, gs) → conns t !! c = Some (n, w) → on e = c →
  push nodeCfg (envelope (rawOf (msg e))) w (None, w') →
  ∀ gs', (∀ g, by_ e ≠ Some g → gs' !! g = gs !! g) →
  match by_ e with
  | None => msg e = kaMsg
  | Some g => ∃ r r' i f, gs !! g = Some r ∧ delivered r = false ∧ gs' !! g = Some r' ∧ gKind r' = KForward i f ∧
      gPc r' = PEnd None ∧ msg e = outgoing localID i f ∧ gNode r' = n
  end → Logs (offered (Some e) c n w' t, gs').
Proof.
  intros [Hc Ho Hb H1] Hw He Hp gs' Hgs Hby. cbn [fst snd] in *.
  assert (Hg : grows t (offered (Some e) c n w' t)).
  { inversion Hp; subst. by eapply grows_insert. }
  split; cbn [fst snd offered conns log].
  - intros c' n' w0 [[<- [= <- <-]]|[Hn Hw0]]%lookup_insert_Some; unfold msgsOn; rewrite filter_app, fmap_app.
    + destruct (Hc _ _ _ Hw) as [Hr Ha]. split; [by eapply rtc_r; [|eapply step_push]|].
      rewrite filter_cons_True, filter_nil by done. rewrite fmap_app. inversion Hp; subst. cbn. by rewrite Ha.
    + rewrite filter_cons_False by congruence. rewrite filter_nil. cbn. rewrite app_nil_r. by eapply Hc.
  - intros e' [He'%Ho| ->%list_elem_of_singleton]%elem_of_app.
    + destruct He' as [[n0 w0] He']. apply Hg in He' as (w1 & He' & _). by eexists.
    + rewrite He, lookup_insert_eq. by eexists.
  - intros e' [He'%Hb| ->%list_elem_of_singleton]%elem_of_app.
    + destruct (by_ e') as [g'|]; [|done]. destruct He' as (r & i & f & w0 & Hr & Hk & Hpc & Hm & He').
      apply Hg in He' as (w1 & He' & _). exists r, i, f, w1. split_and!; [|done..]. rewrite Hgs; [done|]. intros Hbe.
      rewrite Hbe in Hby. destruct Hby as (r0 & _ & _ & _ & Hr0 & Hd & _). simplify_eq. unfold delivered in Hd. by rewrite Hk, Hpc in Hd.
    + destruct (by_ e) as [g|]; [|done]. destruct Hby as (r & r' & i & f & _ & _ & Hr' & Hk & Hpc & Hm & <-).
      exists r', i, f, w'. rewrite He, lookup_insert_eq. by split_and!.
  - intros g r Hr. unfold byOf. rewrite filter_app, length_app. fold (byOf g (log t)).
    destruct (decide (by_ e = Some g)) as [Hbe|Hbe].
    + rewrite filter_cons_True by done. rewrite Hbe in Hby. destruct Hby as (r0 & r' & i & f & Hr0 & Hd & Hr' & Hk & Hpc & _).
      simplify_eq. rewrite (H1 _ _ Hr0), Hd. unfold delivered. by rewrite Hk, Hpc.
    + rewrite filter_cons_False by done. rewrite Hgs in Hr by done. rewrite (H1 _ _ Hr). cbn. lia.
Qed.

Lemma inside_silent w w' : inside w w' → rtc (step nodeCfg) w w' ∧ accepted w' = accepted w.
Proof.
  intros Hi. split; [apply rtc_once; destruct Hi; eauto using step|].
  destruct Hi as [? Hl| | |]; [|done..]. destruct Hl; try done; unfold flush; case_decide; try done; by destruct o.
Qed.

Lemma act_silent g t r t' r' : act g t r t' r' → (silent t t' ∧ delivered r' = false) ∨
  ∃ i f c n w w', gKind r = KForward i f ∧ gPc r = PWrite c ∧ conns t !! c = Some (n, w) ∧
    push nodeCfg (envelope (rawOf (outgoing localID i f))) w (None, w') ∧
    t' = offered (Some (mkLog (Some g) c (outgoing localID i f))) c n w' t ∧ r' = at_pc (PEnd None) r.
Proof.
  assert (Hd : ∀ e, delivered (dialDone (inl e) r) = false) by (intros e; unfold dialDone, delivered; destruct (gKind r) as [| |[]|] eqn:E; cbn; by rewrite ?E).
  assert (Hd' : ∀ c, delivered (dialDone (inr c) r) = false) by (intros c; unfold dialDone, delivered; destruct (gKind r) as [| |[]|] eqn:E; cbn; by rewrite ?E).
  assert (Hp : ∀ p, p ≠ PEnd None → delivered (at_pc p r) = false).
  { intros p Hp. unfold delivered. cbn. destruct (gKind r), p as [| | | | | | | |[]]; done. }
  assert (Hn : ∀ l, delivered (nextPeer l r) = false) by by intros [].
  assert (Hs : delivered (afterShut r) = false).
  { unfold afterShut. destruct (gKind r) eqn:E; [case_decide| |apply Hp; done|]; unfold delivered; cbn; by rewrite ?E. }
  inversion 1; subst; try (left; split; [by apply silent_refl|by auto]).
  - left. split; [|by apply Hp]. split; [done|]. intros c' n w'. cbn.
    intros [[<- [= <- <-]]|[? ?]]%lookup_insert_Some; [by left|right; by exists w'].
  - left. split; [|done]. unfold registerConn in *.
    destruct (outConns t !! gNode r); simplify_eq; [apply silent_shut|by apply silent_refl].
  - right. do 6 eexists. split_and!; [done..| |done|done].
    match goal with W : nodeWrite _ _ _ |- _ => by inversion W end.
  - left. split; [|by apply Hp]. match goal with W : nodeWrite _ _ _ |- _ => apply nodeWrite_failed in W as -> end.
    eapply silent_insert; [cbn; by rewrite app_nil_r|done..].
  - left. split; [|by apply Hp]. unfold dropConn. case_decide; by apply silent_refl.
  - left. split; [apply silent_shut|done].
Qed.

Lemma act_undelivered g t r t' r' : act g t r t' r' → delivered r = false.
Proof. unfold delivered. intros Ha. by inversion Ha; subst; match goal with P : gPc r = _ |- _ => rewrite P end; destruct (gKind r). Qed.

Lemma Logs_step s s' : nstep s s' → Tables s → Logs s → Logs s'.
Proof.
  intros Hs Ht Hl. destruct Hs.
  - match goal with A : act _ _ _ _ _ |- _ => rename A into Ha end. pose proof (act_undelivered _ _ _ _ _ Ha) as Hu.
    pose proof (act_grows _ _ _ _ _ Ha) as Hg.
    destruct (act_silent _ _ _ _ _ Ha) as [[Hsil Hd]|(i & f & c & n & w & w' & Hk & Hp & Hc & Hpu & -> & ->)].
    + apply Logs_gor; [by eapply Logs_quiet|done|]. by match goal with G : gs !! g = _ |- _ => rewrite G end.
    + eapply Logs_offer; [done..| |].
      * intros g' Hg'. apply lookup_insert_ne. intros ->. by apply Hg'.
      * cbn. exists r. eexists _, i, f. rewrite lookup_insert_eq. split_and!; try done.
        destruct (ta_held _ Ht g r c) as [w0 Hw0]; [done|by rewrite Hp|]. cbn in Hw0. by simplify_eq.
  - apply Logs_gor; [done..|]. by match goal with G : gs !! g = _ |- _ => rewrite G end.
  - apply Logs_gor; [done..|]. by match goal with G : gs !! g = _ |- _ => rewrite G end.
  - apply Logs_gor; [|by cbn|by match goal with G : gs !! g = _ |- _ => rewrite G end].
    eapply Logs_quiet; [done|by apply grows_refl|by apply silent_refl].
  - match goal with E : scan _ _ _ = _ |- _ => apply scan_spec in E as (Hc1 & Hc2 & _) end.
    apply Logs_gor; [|by destruct todo|by match goal with G : gs !! g = _ |- _ => rewrite G end].
    eapply Logs_quiet; [done|by apply grows_refl|by apply silent_refl].
  - eapply Logs_quiet; [done|by apply grows_refl|by apply silent_refl].
  - eapply Logs_quiet; [done|by apply grows_refl|by apply silent_refl].
  - eapply Logs_quiet; [done|by apply grows_refl|by apply silent_refl].
  - eapply Logs_quiet; [done|apply grows_closeAll|apply silent_closeAll].
  - match goal with I : inside _ _ |- _ => pose proof (inside_flags _ _ I) as [? ?]; apply inside_silent in I as [? ?] end.
    eapply Logs_quiet; [done|by eapply grows_insert|by eapply silent_insert].
  - by eapply Logs_offer.
Qed.

Lemma reach_inv s : reach s → Tables s ∧ Logs s.
Proof.
  intros Hr. eapply (rtc_keeps nstep (fun s => Tables s ∧ Logs s)); [|exact Hr|].
  - intros a b Hs [Ht Hl]. split; [by eapply Tables_step|by eapply Logs_step].
  - split; [by apply reach_Tables; apply rtc_refl|]. split; cbn; intros *; rewrite ?lookup_empty; try done; by intros ?%not_elem_of_nil.
Qed.

(** ** Theorems *)

(** Forward sends at most once: in every reachable state, a call that has
    returned without an error put its message on exactly one connection, dialed
    for the peer it names, with the local node as the sender; a call that failed
    or is still under way has put nothing on any connection, so a caller that
    retries does not duplicate. *)
Theorem forward_once s g r i f :
  reach s → s.2 !! g = Some r → gKind r = KForward i f →
  match gPc r with
  | PEnd None => ∃ c w, byOf g (log s.1) = [mkLog (Some g) c (outgoing localID i f)] ∧ conns s.1 !! c = Some (gNode r, w)
  | _ => byOf g (log s.1) = []
  end.
Proof.
  intros Hr Hg Hk. apply reach_inv in Hr as [_ Hl]. pose proof (lo_once _ Hl _ _ Hg) as Hn.
  unfold delivered in Hn. rewrite Hk in Hn.
  destruct (gPc r) as [| | | | | | | |[]] eqn:Hp; try by apply nil_length_inv.
  destruct (byOf g (log s.1)) as [|e [|]] eqn:E; try done.
  assert (e ∈ byOf g (log s.1)) as [He Hi]%list_elem_of_filter by (rewrite E; left).
  apply (lo_by _ Hl) in Hi. rewrite He in Hi. destruct Hi as (r0 & i0 & f0 & w & Hr0 & Hk0 & _ & Hm & Hc). simplify_eq.
  exists (on e), w. split; [|done]. f_equal. destruct e; cbn in *; congruence.
Qed.

(** C33. What a node sends is what its peer handles, as long as the messages put
    on the connection are ones a link can carry: no header field holds a bar or
    a newline ([header_injection]), the header's numbers and the frame are well
    formed, and the frame is within the reader's limit and the whole message
    below 4 GiB ([large_frame_drops_link]).  Then for every connection that was
    ever dialed, however calls, reconnections, removals and failures interleave,
    the receiving loop on the bytes that got through hands over exactly the
    first messages that were put on the connection, in their order and without
    the keepalives; none is corrupted, invented or repeated, and on an open
    connection whose queue has been written out none is missing. *)
Theorem link_delivers s c n w :
  reach s → conns s.1 !! c = Some (n, w) → Forall carried (msgsOn c (log s.1)) →
  ∃ k e, serveConn (S (length (msgsOn c (log s.1)))) (concat (written w)) = Ok (handed (take k (msgsOn c (log s.1))), ERead e) ∧
    (done w = false → writeCh w = [] → buf w = [] → k = length (msgsOn c (log s.1))).
Proof.
  intros Hr Hc Hf. apply reach_inv in Hr as [_ Hl]. destruct (lo_conn _ Hl _ _ _ Hc) as [Hs Ha]. apply reach_CInv in Hs.
  assert (Hw : concat (accepted w) = linkBytes (msgsOn c (log s.1))) by by rewrite Ha.
  destruct (link_prefix (msgsOn c (log s.1)) (concat (written w)) Hf) as (k & e & HD & _ & Hall).
  { rewrite <- Hw. by eapply CInv_prefix. }
  exists k, e. split; [done|]. intros Hd Hq Hb. apply Hall. rewrite <- Hw, <- (open_stream _ w Hs Hd), Hq, Hb. cbn. by rewrite app_nil_r.
Qed.

(** The tables of a transport stay sound: connections are registered under the
    peer they were dialed for, one per peer; every registered peer is watched by
    the reconnection loop; and no connection leaks, since one that is not
    registered is closed, dead, or held by a goroutine about to register or
    close it. *)
Theorem conns_owned s :
  reach s →
  (∀ n c, outConns s.1 !! n = Some c → n ∈ activePeers s.1 ∧ ∃ w, conns s.1 !! c = Some (n, w)) ∧
  (∀ c n w, conns s.1 !! c = Some (n, w) → done w = false → dead w = false →
     outConns s.1 !! n = Some c ∨ ∃ g r, s.2 !! g = Some r ∧ owes (gPc r) c).
Proof.
  intros [Hout _ Hact Hown]%reach_Tables. split.
  - intros n c Hc. split; [by apply Hact; exists c|by apply Hout].
  - intros c n w Hc Hd Hx. destruct (Hown _ _ _ Hc) as [?|[?|?]]; [congruence..|done].
Qed.

(** How many more steps of its own a call can take. *)
Definition budget (r : gor) : nat :=
  match gPc r with
  | PEnd _ => 0 | PShut _ => 1 | PDrop _ => 2 | PWrite _ => 3 | PReg _ => 4 | PDial _ => 5 | PResolve => 6 | PCheck => 7 | PGet => 7
  end + match gPc r with PEnd _ => 0 | _ => if decide (gTry r = O) then 7 else 0 end.

Lemma write_total d w : ∃ x, nodeWrite d w x.
Proof.
  destruct (dead w) eqn:Ed; [by eexists; apply write_dead|].
  destruct (decide (length (writeCh w) < chanSize nodeCfg)%nat); [eexists; apply write_push; [done|]; by apply push_ok|].
  destruct (done w) eqn:Ex; eexists; (apply write_push; [done|]); [by apply push_closed|apply push_slow; [lia|done]].
Qed.

(** Only a reconnection round checks peers. *)
Definition checks (r : gor) : Prop := gPc r = PCheck → ∃ rest, gKind r = KReconcile rest.

Lemma act_checks g t r t' r' : act g t r t' r' → checks r'.
Proof.
  unfold checks. inversion 1; subst; unfold dialDone, afterShut; try done; try (destruct (gKind r) eqn:E; cbn; rewrite ?E; by eauto).
  - destruct (gKind r) as [| |rest|] eqn:E; cbn; try done. destruct rest; cbn; eauto.
  - destruct (gKind r) as [| |rest|] eqn:E; cbn; try done. destruct rest; cbn; eauto.
  - destruct (gKind r) as [| |rest|] eqn:E; cbn; try done. destruct rest; cbn; eauto.
  - destruct (gKind r) eqn:E; cbn; try done. by case_decide.
  - destruct rest; cbn; eauto.
Qed.

Lemma reach_checks s g r : reach s → s.2 !! g = Some r → checks r.
Proof.
  intros Hr. revert g r. eapply (rtc_keeps nstep (fun s => ∀ g r, s.2 !! g = Some r → checks r)); [|exact Hr|].
  - intros a b Hs Ha g r. destruct Hs; cbn in *; try by apply Ha.
    all: intros [[<- <-]|[_ ?]]%lookup_insert_Some; [|by eapply Ha].
    + by eapply act_checks.
    + done.
    + done.
    + unfold checks. cbn. by destruct (outConns t !! n).
    + unfold checks. destruct todo; cbn; eauto.
  - cbn. intros g r. by rewrite lookup_empty.
Qed.

(** Forward always returns: wherever a call is, in every reachable state, it
    can take a step, and each step it takes uses up a budget of fourteen,
    whatever the other goroutines do in between. *)
Theorem forward_returns s g r i f :
  reach s → s.2 !! g = Some r → gKind r = KForward i f → (∀ e, gPc r ≠ PEnd e) →
  (∃ t' r', act g s.1 r t' r') ∧ (budget r ≤ 14)%nat ∧ ∀ t' r', act g s.1 r t' r' → (budget r' < budget r)%nat.
Proof.
  intros Hr Hg Hk Hne. assert (Hnc : gPc r ≠ PCheck).
  { intros Hp. destruct (reach_checks _ _ _ Hr Hg Hp). congruence. }
  apply reach_inv in Hr as [Ht _]. split_and!.
  - destruct (gPc r) as [| |a|c|c|c|c| |e] eqn:Hp; try done.
    + destruct (outConns s.1 !! gNode r) eqn:E; eauto using NodeLink.act.
    + destruct (resolveAddr peers (gNode r) s.1) eqn:E; eauto using NodeLink.act.
    + eexists _, _. by apply (a_refused _ _ _ _ _ a 0).
    + destruct (registerConn (gNode r) c s.1) eqn:E; eauto using NodeLink.act.
    + destruct (ta_held _ Ht g r c Hg) as [w Hw]; [by rewrite Hp|].
      destruct (write_total (rawOf (outgoing localID i f)) w) as [[[e|] w'] Hwr]; eauto using NodeLink.act.
    + eauto using NodeLink.act.
    + eauto using NodeLink.act.
    + by destruct (Hne e).
  - unfold budget. destruct (gPc r); try case_decide; lia.
  - intros t' r' Ha. unfold budget. inversion Ha; subst; unfold dialDone, afterShut;
      match goal with P : gPc r = _ |- _ => rewrite P end; rewrite ?Hk; cbn; repeat case_decide; cbn in *; try lia; try congruence.
Qed.

(** ** Findings *)

(** Finding. A full queue is taken for a broken connection: Forward closes it,
    and the envelopes in its queue, for which earlier calls returned no error,
    can no longer be written. *)
Theorem slow_link_loses (t : T) gs g r i f c n w :
  gs !! g = Some r → gKind r = KForward i f → gPc r = PWrite c → gNode r = n → conns t !! c = Some (n, w) →
  done w = false → dead w = false → (chanSize nodeCfg ≤ length (writeCh w))%nat →
  ∃ t' gs', rtc nstep (t, gs) (t', gs') ∧ conns t' !! c = Some (n, closeRaw (closeDone w)) ∧
    ∀ w', inside (closeRaw (closeDone w)) w' → written w' = written w ∨ written w' = written w ++ [[]].
Proof.
  intros Hg Hk Hp Hn Hc Hd Hx Hfull. eexists _, _. split; [|split].
  - eapply rtc_l.
    { eapply n_act; [done|]. eapply a_write_failed; [done..|]. apply write_push; [done|]. by apply push_slow. }
    eapply rtc_l. { eapply n_act; [by rewrite lookup_insert_eq|]. by apply a_drop. }
    apply rtc_once. eapply n_act; [by rewrite lookup_insert_eq|]. by apply a_shut.
  - rewrite conns_shut, decide_True by done. unfold dropConn. case_decide; cbn; by rewrite lookup_insert_eq.
  - intros w' Hi. destruct Hi as [w1 Hl| | |]; [|by left..]. inversion Hl; subst; try by left.
    + unfold flush, takeIn. cbn. case_decide; [by left|].
      match goal with O : outcomeOk _ _ |- _ => rewrite (O eq_refl) end. by right.
    + unfold flush. cbn. case_decide; [by left|].
      match goal with O : outcomeOk _ _ |- _ => rewrite (O eq_refl) end. by right.
Qed.

(** Finding. Nothing stops a call after [Close]: it dials again and registers a
    connection that no later [Close] closes, since that runs once. *)
Theorem forward_after_close (t : T) gs g c n a (i : InnerHeader) (f : Frame) :
  closed t = true → outConns t !! n = None → resolveAddr peers n t = Some a → gs !! g = None → conns t !! c = None →
  ∃ t' gs', rtc nstep (t, gs) (t', gs') ∧ outConns t' !! n = Some c ∧ conns t' !! c = Some (n, newConn) ∧ closeAll t' = t'.
Proof.
  intros Hcl Ho Ha Hg Hc. eexists _, _. split; [|split; [|split]].
  - eapply rtc_l; [by apply (n_forward _ _ _ _ g n i f)|].
    eapply rtc_l. { eapply n_act; [by rewrite lookup_insert_eq|]. by apply a_miss. }
    eapply rtc_l. { eapply n_act; [by rewrite lookup_insert_eq|]. by apply (a_resolved _ _ _ _ _ a). }
    eapply rtc_l. { eapply n_act; [by rewrite lookup_insert_eq|]. by apply (a_dialed _ _ _ _ _ a c). }
    apply rtc_once. eapply n_act; [by rewrite lookup_insert_eq|]. eapply a_registered; [done|]. unfold registerConn. cbn.
    rewrite Ho. reflexivity.
  - cbn. by rewrite lookup_insert_eq.
  - cbn. by rewrite lookup_insert_eq.
  - unfold closeAll. cbn. by rewrite Hcl.
Qed.

(** Finding. A call that is dialing a peer while the peer is removed registers it
    again, and the reconnection loop goes on dialing the removed peer. *)
Theorem removed_peer_returns (t : T) gs g g' r c :
  gs !! g = Some r → gPc r = PReg c → gs !! g' = None → g ≠ g' →
  ∃ t' gs', rtc nstep (snd (removeLocked (gNode r) t), <[g' := mkG KRemove (gNode r) 0 (PEnd None)]> gs) (t', gs') ∧
    outConns t' !! gNode r = Some c ∧ gNode r ∈ activePeers t'.
Proof.
  intros Hg Hp Hg' Hne. eexists _, _. split; [|split].
  - apply rtc_once. eapply n_act; [by rewrite lookup_insert_ne|]. eapply a_registered; [done|].
    unfold registerConn. cbn. rewrite lookup_delete_eq. reflexivity.
  - cbn. by rewrite lookup_insert_eq.
  - cbn. set_solver.
Qed.
End Thm.

(** ** Examples *)

Definition demoPeers : option (string → option string) := Some (fun _ => Some "10.0.0.1:7002"%string).
Notation demoStep := (nstep (H := unit) "gw-1" demoPeers).
Definition demoEnv : list Z := envelope (rawOf (outgoing "gw-1" demoHdr demoF)).

(** One call that has dialed and returned. *)
Definition demoConn : wconn := mkConn [demoEnv] [] Idle false false false [] [demoEnv].
Definition demoT (w : wconn) : TCPNodeTransport (H := unit) :=
  mkT ∅ {["logic-1"%string := O]} ∅ None {["logic-1"%string]} ∅ false {[O := ("logic-1"%string, w)]} [mkLog (Some O) O (outgoing "gw-1" demoHdr demoF)].
Definition demoG (p : pc) : gmap nat gor := {[O := mkG (KForward demoHdr demoF) "logic-1" 0 p]}.
Definition demoWorld : world (H := unit) := (demoT demoConn, demoG (PEnd None)).
Definition demoDialed : TCPNodeTransport (H := unit) :=
  mkT ∅ {["logic-1"%string := O]} ∅ None {["logic-1"%string]} ∅ false {[O := ("logic-1"%string, newConn)]} [].

Lemma demoDialed_reach : reach "gw-1" demoPeers (demoDialed, demoG (PWrite O)).
Proof.
  eapply rtc_l; [by apply (n_forward _ _ _ _ O "logic-1" demoHdr demoF)|].
  eapply rtc_l; [eapply n_act; [by rewrite lookup_insert_eq|by apply a_miss]|].
  eapply rtc_l; [eapply n_act; [by rewrite lookup_insert_eq|by apply (a_resolved _ _ _ _ _ "10.0.0.1:7002")]|].
  eapply rtc_l; [eapply n_act; [by rewrite lookup_insert_eq|by apply (a_dialed _ _ _ _ _ "10.0.0.1:7002" O)]|].
  apply rtc_once. eapply eq_ind; [eapply n_act; [by rewrite lookup_insert_eq|by eapply a_registered]|].
  cbn. unfold demoDialed, demoG. by rewrite !insert_insert_eq, union_empty_r_L.
Qed.

Lemma demoWorld_reach : reach "gw-1" demoPeers demoWorld.
Proof.
  eapply rtc_r; [exact demoDialed_reach|]. eapply eq_ind.
  { eapply n_act; [by apply lookup_singleton_eq|]. eapply a_written; [done..|by apply lookup_singleton_eq|].
    apply write_push; [done|]. apply push_ok. cbn. lia. }
  reflexivity.
Qed.

(** The write loop has written the call's envelope out. *)
Definition demoSent : world (H := unit) :=
  (demoT (mkConn [] [] Idle false false false [demoEnv] [demoEnv]), demoG (PEnd None)).
Lemma demoSent_reach : reach "gw-1" demoPeers demoSent.
Proof.
  eapply rtc_r; [eapply rtc_r; [exact demoWorld_reach|]|].
  - eapply n_inside; [by apply lookup_singleton_eq|]. apply in_loop. by apply (loop_first _ _ demoEnv []).
  - eapply eq_ind.
    { eapply n_inside; [by apply lookup_insert_eq|]. apply in_loop. by apply (loop_timer _ _ None). }
    reflexivity.
Qed.

Lemma forward_once_witness : ∃ c w,
  byOf 0 (log demoWorld.1) = [mkLog (Some O) c (outgoing "gw-1" demoHdr demoF)] ∧ conns demoWorld.1 !! c = Some ("logic-1"%string, w).
Proof. exact (forward_once "gw-1" demoPeers demoWorld O _ demoHdr demoF demoWorld_reach eq_refl eq_refl). Defined.

Lemma demo_carried : Forall carried (msgsOn 0 (log demoSent.1)).
Proof. apply Forall_singleton. apply (Forall_inv demoLink_carried). Qed.

Lemma link_delivers_witness : ∃ k e, serveConn 2 demoEnv = Ok (handed (take k [outgoing "gw-1" demoHdr demoF]), ERead e) ∧ k = 1%nat.
Proof.
  destruct (link_delivers "gw-1" demoPeers demoSent O "logic-1" _ demoSent_reach eq_refl demo_carried) as (k & e & H1 & H2).
  exists k, e. split; [exact H1|exact (H2 eq_refl eq_refl eq_refl)].
Defined.

Lemma conns_owned_witness : ("logic-1"%string ∈ activePeers demoWorld.1).
Proof. exact (proj1 (proj1 (conns_owned "gw-1" demoPeers demoWorld demoWorld_reach) "logic-1"%string O eq_refl)). Defined.

Lemma forward_returns_witness : ∃ t' r', act "gw-1" demoPeers O demoDialed (mkG (KForward demoHdr demoF) "logic-1" 0 (PWrite O)) t' r'.
Proof.
  apply (forward_returns "gw-1" demoPeers (demoDialed, demoG (PWrite O)) O _ demoHdr demoF demoDialed_reach eq_refl eq_refl); discriminate.
Defined.
