(* ===== verification/Redis.v ===== *)
(** * Redis as the cluster code uses it

    Redis is not part of the repository: its commands are the class [Redis] over
    an abstract server state, and what the cluster code relies on are the laws
    [RedisLaws].  They say that a server is a map from keys to typed values with
    optional deadlines and that each command acts on it as documented, on the
    values whose deadline has not passed.  Lua scripts are sequences of commands
    that run without interleaving; an error ends a script and keeps the effects
    of the commands before it ([script]). *)

From S2P Require Import Prelude.
From Stdlib Require Import SpecFloat.

Notation score := spec_float.

Inductive rval := RStr (s : string) | RSet (s : gset string) | RZSet (z : gmap string score).
Inductive rerr := WRONGTYPE | ErrReply (msg : string).
#[export] Instance rerr_eq_dec : EqDecision rerr.
Proof. solve_decision. Defined.

#[export] Instance sum_fmap {E} : FMap (sum E) := fun A B f x => match x with inl e => inl e | inr a => inr (f a) end.

(** The keyspace: values with the time they expire at. *)
Notation db := (gmap string (rval * option Z)).

(** The value of a key at a time. *)
Definition live (now : Z) (k : string) (d : db) : option rval :=
  match d !! k with
  | Some (v, Some t) => if decide (now < t) then Some v else None
  | Some (v, None) => Some v
  | None => None
  end.

(** The deadline a command that keeps the key's deadline leaves. *)
Definition deadline (now : Z) (k : string) (d : db) : option Z :=
  match d !! k with Some (_, Some t) => if decide (now < t) then Some t else None | _ => None end.

(** ** Documented behaviour of the commands *)

Definition dGet (now : Z) (k : string) (d : db) : rerr + option string :=
  match live now k d with
  | None => inr None
  | Some (RStr v) => inr (Some v)
  | Some _ => inl WRONGTYPE
  end.
(** The expiry of SET must be positive. *)
Definition dSet (now : Z) (k v : string) (ex : option Z) (d : db) : rerr + db :=
  match ex with
  | Some t => if decide (0 < t) then inr (<[k := (RStr v, Some (now + t))]> d)
              else inl (ErrReply "invalid expire time in 'set' command")
  | None => inr (<[k := (RStr v, None)]> d)
  end.
Definition dExpire (now : Z) (k : string) (ttl : Z) (d : db) : db :=
  match live now k d with
  | Some v => if decide (0 < ttl) then <[k := (v, Some (now + ttl))]> d else delete k d
  | None => d
  end.
Definition dSet_ (now : Z) (k : string) (d : db) : rerr + gset string :=
  match live now k d with None => inr ∅ | Some (RSet s) => inr s | Some _ => inl WRONGTYPE end.
Definition dSAdd (now : Z) (k u : string) (d : db) : rerr + db :=
  match dSet_ now k d with
  | inl e => inl e
  | inr s => inr (<[k := (RSet ({[u]} ∪ s), deadline now k d)]> d)
  end.
Definition dSRem (now : Z) (k u : string) (d : db) : rerr + db :=
  match live now k d with
  | None => inr d
  | Some (RSet s) =>
      inr (if decide (s ∖ {[u]} = ∅) then delete k d else <[k := (RSet (s ∖ {[u]}), deadline now k d)]> d)
  | Some _ => inl WRONGTYPE
  end.
Definition dZSet (now : Z) (k : string) (d : db) : rerr + gmap string score :=
  match live now k d with None => inr ∅ | Some (RZSet z) => inr z | Some _ => inl WRONGTYPE end.
Definition dZAdd (now : Z) (k : string) (s : score) (u : string) (d : db) : rerr + db :=
  match dZSet now k d with
  | inl e => inl e
  | inr z => inr (<[k := (RZSet (<[u := s]> z), deadline now k d)]> d)
  end.
Definition dZRem (now : Z) (k u : string) (d : db) : rerr + bool * db :=
  match dZSet now k d with
  | inl e => inl e
  | inr z =>
      match z !! u with
      | None => inr (false, d)
      | Some _ => inr (true, if decide (delete u z = ∅) then delete k d
                             else <[k := (RZSet (delete u z), deadline now k d)]> d)
      end
  end.

(** The order of a sorted set: by score, members of equal score by name. *)
Definition zle (z : gmap string score) (a b : string) : Prop :=
  match z !! a, z !! b with
  | Some sa, Some sb => SFltb sa sb = true ∨ (SFltb sb sa = false ∧ String.le a b)
  | _, _ => String.le a b
  end.

Class Redis (R : Type) := {
  dataset : R → db;
  GET : Z → string → R → rerr + option string;
  SET : Z → string → string → option Z → R → rerr + R;
  DEL : string → R → R;
  EXPIRE : Z → string → Z → R → R;
  SADD : Z → string → string → R → rerr + R;
  SREM : Z → string → string → R → rerr + R;
  SMEMBERS : Z → string → R → rerr + list string;
  ZADD : Z → string → score → string → R → rerr + R;
  ZREM : Z → string → string → R → rerr + bool * R;
  ZSCORE : Z → string → string → R → rerr + option score;
  ZCARD : Z → string → R → rerr + nat;
  ZRANGE : Z → string → nat → R → rerr + list string; (** the first so many members *)
  SCAN : Z → string → R → list string }. (** the live keys with a prefix *)

Class RedisLaws {R} (X : Redis R) : Prop := {
  get_law now k r : GET now k r = dGet now k (dataset r);
  set_law now k v ex r : dataset <$> SET now k v ex r = dSet now k v ex (dataset r);
  del_law k r : dataset (DEL k r) = delete k (dataset r);
  expire_law now k ttl r : dataset (EXPIRE now k ttl r) = dExpire now k ttl (dataset r);
  sadd_law now k u r : dataset <$> SADD now k u r = dSAdd now k u (dataset r);
  srem_law now k u r : dataset <$> SREM now k u r = dSRem now k u (dataset r);
  smembers_law now k r :
    match SMEMBERS now k r, dSet_ now k (dataset r) with
    | inl e, inl e' => e = e'
    | inr l, inr s => NoDup l ∧ list_to_set l = s
    | _, _ => False
    end;
  zadd_law now k s u r : dataset <$> ZADD now k s u r = dZAdd now k s u (dataset r);
  zrem_law now k u r : prod_map id dataset <$> ZREM now k u r = dZRem now k u (dataset r);
  zscore_law now k u r : ZSCORE now k u r = (fun z => z !! u) <$> dZSet now k (dataset r);
  zcard_law now k r : ZCARD now k r = base.size <$> dZSet now k (dataset r);
  zrange_law now k n r :
    match ZRANGE now k n r, dZSet now k (dataset r) with
    | inl e, inl e' => e = e'
    | inr l, inr z => ∃ o, NoDup o ∧ (∀ u, u ∈ o ↔ is_Some (z !! u)) ∧ Sorted (zle z) o ∧ l = take n o
    | _, _ => False
    end;
  scan_law now p r k : k ∈ SCAN now p r ↔ is_Some (live now k (dataset r)) ∧ String.prefix p k = true }.

(** ** Scripts and calls *)

(** A script: an error ends it, the state it has reached stays. *)
Definition script (R A : Type) : Type := R → (rerr + A) * R.
Definition sret {R A} (a : A) : script R A := fun r => (inr a, r).
Definition sfail {R A} (e : rerr) : script R A := fun r => (inl e, r).
Definition sbind {R A B} (m : script R A) (k : A → script R B) : script R B := fun r =>
  match m r with (inl e, r) => (inl e, r) | (inr a, r) => k a r end.
Definition query {R A} (q : R → rerr + A) : script R A := fun r => (q r, r).
Definition cmd {R} (f : R → R) : script R unit := fun r => (inr (), f r).
Definition cmdE {R} (f : R → rerr + R) : script R unit := fun r =>
  match f r with inl e => (inl e, r) | inr r' => (inr (), r') end.

Declare Scope script_scope.
Delimit Scope script_scope with script.
Notation "'let*' x := m 'in' k" := (sbind m (fun x => k))
  (at level 10, x pattern, k at level 200) : script_scope.
#[global] Open Scope script_scope.

(** What the network does to a call: answer it, lose it before it runs, or lose
    the answer. *)
Inductive net := Done | Lost | NoReply.
Definition call {R A} (w : net) (m : script R A) (r : R) : option (rerr + A) * R :=
  match w with
  | Done => let '(x, r') := m r in (Some x, r')
  | Lost => (None, r)
  | NoReply => (None, snd (m r))
  end.

(** ** An instance *)

#[export] Instance zle_dec z : RelDecision (zle z).
Proof. intros a b. unfold zle. destruct (z !! a), (z !! b); apply _. Defined.
#[export] Instance zle_total z : Total (zle z).
Proof.
  intros a b. unfold zle. destruct (z !! a) as [sa|], (z !! b) as [sb|]; try apply (total String.le).
  destruct (SFltb sa sb) eqn:E1; [by left; left|]. destruct (SFltb sb sa) eqn:E2; [by right; left|].
  destruct (total String.le a b); [left|right]; by right.
Qed.

#[export] Instance mapRedis : Redis db := {|
  dataset := id;
  GET := dGet; SET := dSet; DEL := delete; EXPIRE := dExpire; SADD := dSAdd; SREM := dSRem;
  SMEMBERS now k d := elements <$> dSet_ now k d;
  ZADD := dZAdd; ZREM := dZRem;
  ZSCORE now k u d := (fun z => z !! u) <$> dZSet now k d;
  ZCARD now k d := base.size <$> dZSet now k d;
  ZRANGE now k n d := (fun z => take n (merge_sort (zle z) (elements (dom z)))) <$> dZSet now k d;
  SCAN now p d := filter (fun k => String.prefix p k = true ∧ bool_decide (is_Some (live now k d)) = true) (elements (dom d)) |}.

#[export] Instance mapRedis_laws : RedisLaws mapRedis.
Proof.
  split; intros; cbn -[dSet dSAdd dSRem dZAdd dZRem]; unfold id; try done.
  - by destruct (dSet now k v ex r).
  - by destruct (dSAdd now k u r).
  - by destruct (dSRem now k u r).
  - destruct (dSet_ now k r) as [e|s0]; cbn; [done|]. split; [apply NoDup_elements|].
    apply set_eq. intros x. by rewrite elem_of_list_to_set, elem_of_elements.
  - by destruct (dZAdd now k s u r).
  - destruct (dZRem now k u r) as [|[]]; done.
  - destruct (dZSet now k r) as [e|z]; cbn; [done|]. exists (merge_sort (zle z) (elements (dom z))).
    pose proof (merge_sort_Permutation (zle z) (elements (dom z))) as Hp. split_and!; [..|done].
    + rewrite Hp. apply NoDup_elements.
    + intros u. rewrite Hp, elem_of_elements. apply elem_of_dom.
    + apply Sorted_merge_sort. apply _.
  - rewrite list_elem_of_filter, elem_of_elements, elem_of_dom, bool_decide_eq_true. split; [naive_solver|].
    intros [Hl Hp]. split_and!; [done..|]. unfold live in Hl. by destruct (r !! k) as [[]|]; [eexists|destruct Hl].
Qed.
