(* ===== verification/Registry.v ===== *)
(** * Node registry of the cluster (internal/cluster/registry.go)

    Two implementations of one interface: [MemRegistry] in process and
    [RedisRegistry] over [Redis].  Watchers of the first are bounded channels
    that [publish] fills after the lock is released, so the locked part and the
    delivery are separate operations; the lock itself is a flag, because one
    path leaves it held.  Watchers of the second are fed by the messages
    published on a channel. *)

From S2P Require Import Prelude Frame Envelope GoStrings Redis.
From Stdlib Require Import Ascii.

(** ** Nodes *)

Definition StateActive : Z := 1.
Definition StateDraining : Z := 2.
Definition StateDrained : Z := 3.
Definition StateDown : Z := 4.

Definition StateString (s : Z) : string :=
  if decide (s = StateActive) then "active"
  else if decide (s = StateDraining) then "draining"
  else if decide (s = StateDrained) then "drained"
  else if decide (s = StateDown) then "down"
  else "unknown".

Definition RoleGateway : string := "gateway".
Definition RoleLogic : string := "logic".

(** A [time.Time] in nanoseconds; [None] is the zero time. *)
Notation Time := (option Z).
Definition UnixNano (t : Time) : Z := default (-6795364578871345152) t.

Record NodeInfo := mkNode {
  ID : string; Role : string; Addr : string; Modules : list string;
  State : Z; ActiveRooms : Z; StartedAt : Time; LastBeat : Time }.

Record ChangeEvent := mkEvent { NodeID : string; Old : Z; New : Z }.

#[export] Instance ChangeEvent_eq_dec : EqDecision ChangeEvent.
Proof. solve_decision. Defined.

(** The zero value of a struct. *)
Definition noNode : NodeInfo := mkNode "" "" "" [] 0 0 None None.

Definition set_state (s : Z) (n : NodeInfo) : NodeInfo :=
  mkNode (ID n) (Role n) (Addr n) (Modules n) s (ActiveRooms n) (StartedAt n) (LastBeat n).
Definition set_rooms (v : Z) (n : NodeInfo) : NodeInfo :=
  mkNode (ID n) (Role n) (Addr n) (Modules n) (State n) v (StartedAt n) (LastBeat n).
Definition set_beat (t : Time) (n : NodeInfo) : NodeInfo :=
  mkNode (ID n) (Role n) (Addr n) (Modules n) (State n) (ActiveRooms n) (StartedAt n) t.
(** Register fills in the times that are zero. *)
Definition stamp (now : Z) (n : NodeInfo) : NodeInfo :=
  mkNode (ID n) (Role n) (Addr n) (Modules n) (State n) (ActiveRooms n)
    (Some (default now (StartedAt n))) (Some (default now (LastBeat n))).

(** [role = ""] selects every role. *)
Definition selects (role : string) (onlyActive : bool) (n : NodeInfo) : bool :=
  (bool_decide (role = "") || bool_decide (Role n = role)) &&
  (negb onlyActive || bool_decide (State n = StateActive)).

Inductive regerr := ErrRegistryClosed | ErrNotRegistered (id : string) | ErrBadPayload (s : string) | ErrRedis (e : option rerr).

Record Config := mkConfig { NodeTTL : Z; HeartbeatInterval : Z; Channel : string }.
Definition second : Z := 10^9.
Definition DefaultConfig : Config := mkConfig (15 * second) (5 * second) "cluster:nodes:change".

(** ** The in-process registry *)

Record MemRegistry := mkReg {
  nodes : gmap string NodeInfo;
  chans : list nat;                      (** subscribed channels *)
  chanBuf : gmap nat (list ChangeEvent); (** their contents, oldest first *)
  chanClosed : gset nat;
  nextChan : nat;
  closed : bool;
  mu : bool }.                           (** the lock was left held *)

Definition NewMemRegistry : MemRegistry := mkReg ∅ [] ∅ ∅ 0 false false.

(** A call returns or waits for the lock for ever. *)
Inductive locking (A : Type) := Returns (a : A) | Blocks.
Arguments Returns {A} a.
Arguments Blocks {A}.
Definition locked {A} (r : MemRegistry) (k : A) : locking A := if mu r then Blocks else Returns k.

Definition set_nodes (v : gmap string NodeInfo) (r : MemRegistry) : MemRegistry :=
  mkReg v (chans r) (chanBuf r) (chanClosed r) (nextChan r) (closed r) (mu r).

(** One non-blocking send: panics on a closed channel, drops when the buffer of
    64 is full. *)
Definition send (ev : ChangeEvent) (ch : nat) (r : MemRegistry) : res MemRegistry :=
  if decide (ch ∈ chanClosed r) then Panic else
  let q := default [] (chanBuf r !! ch) in
  Ok (if decide (zlen q < 64)
      then mkReg (nodes r) (chans r) (<[ch := q ++ [ev]]> (chanBuf r)) (chanClosed r) (nextChan r) (closed r) (mu r)
      else r).
Fixpoint sendAll (ev : ChangeEvent) (chs : list nat) (r : MemRegistry) : res MemRegistry :=
  match chs with
  | [] => Ok r
  | ch :: chs' => let! r := send ev ch r in sendAll ev chs' r
  end.
(** [publish] reads the list of channels, then sends outside the lock. *)
Definition publish (ev : ChangeEvent) (r : MemRegistry) : res MemRegistry := sendAll ev (chans r) r.
Definition publishOpt (ev : option ChangeEvent) (r : MemRegistry) : res MemRegistry :=
  match ev with None => Ok r | Some ev => publish ev r end.

(** The locked parts: error, state, and the event to publish. *)
Definition registerLocked (now : Z) (info : NodeInfo) (r : MemRegistry)
    : locking (option regerr * MemRegistry * option ChangeEvent) :=
  locked r
    (if closed r then (Some ErrRegistryClosed, r, None) else
     let info := stamp now info in
     let old := nodes r !! ID info in
     let r := set_nodes (<[ID info := info]> (nodes r)) r in
     let oldState := default 0 (State <$> old) in
     (None, r, if bool_decide (old = None) || bool_decide (oldState ≠ State info)
               then Some (mkEvent (ID info) oldState (State info)) else None)).

(** SetState returns from inside the lock when the node is unknown. *)
Definition setStateLocked (now : Z) (id : string) (s : Z) (r : MemRegistry)
    : locking (option regerr * MemRegistry * option ChangeEvent) :=
  locked r
    (if closed r then (Some ErrRegistryClosed, r, None) else
     match nodes r !! id with
     | None => (Some (ErrNotRegistered id),
                mkReg (nodes r) (chans r) (chanBuf r) (chanClosed r) (nextChan r) (closed r) true, None)
     | Some n =>
         let old := State n in
         (None, set_nodes (<[id := set_beat (Some now) (set_state s n)]> (nodes r)) r,
          if decide (old ≠ s) then Some (mkEvent id old s) else None)
     end).

Definition deregisterLocked (id : string) (r : MemRegistry)
    : locking (option regerr * MemRegistry * option ChangeEvent) :=
  locked r
    (if closed r then (Some ErrRegistryClosed, r, None) else
     (None, set_nodes (delete id (nodes r)) r,
      (fun n => mkEvent id (State n) StateDown) <$> nodes r !! id)).

(** The whole calls, when nothing runs in between. *)
Definition whole (x : locking (option regerr * MemRegistry * option ChangeEvent))
    : locking (res (option regerr * MemRegistry)) :=
  match x with
  | Blocks => Blocks
  | Returns (e, r, ev) => Returns (let! r := publishOpt ev r in Ok (e, r))
  end.
Definition Register (now : Z) (info : NodeInfo) (r : MemRegistry) := whole (registerLocked now info r).
Definition SetState (now : Z) (id : string) (s : Z) (r : MemRegistry) := whole (setStateLocked now id s r).
Definition Deregister (id : string) (r : MemRegistry) := whole (deregisterLocked id r).

Definition Heartbeat (now : Z) (id : string) (rooms : Z) (r : MemRegistry) : locking (option regerr * MemRegistry) :=
  locked r
    (if closed r then (Some ErrRegistryClosed, r) else
     match nodes r !! id with
     | None => (Some (ErrNotRegistered id), r)
     | Some n => (None, set_nodes (<[id := set_rooms rooms (set_beat (Some now) n)]> (nodes r)) r)
     end).

(** [List]: the order is that of the map. *)
Definition List_ (role : string) (onlyActive : bool) (r : MemRegistry) : locking (list NodeInfo) :=
  locked r (filter (fun n => selects role onlyActive n = true) (map_to_list (nodes r)).*2).
Definition Get (id : string) (r : MemRegistry) : locking (regerr + NodeInfo) :=
  locked r (match nodes r !! id with Some n => inr n | None => inl (ErrNotRegistered id) end).

Definition Watch (r : MemRegistry) : locking (nat * MemRegistry) :=
  locked r (nextChan r, mkReg (nodes r) (chans r ++ [nextChan r]) (<[nextChan r := []]> (chanBuf r)) (chanClosed r)
                          (S (nextChan r)) (closed r) (mu r)).

Definition Close (r : MemRegistry) : locking MemRegistry :=
  if closed r then Returns r else
  locked r (mkReg (nodes r) [] (chanBuf r) (chanClosed r ∪ list_to_set (chans r)) (nextChan r) true (mu r)).

(** ** Encoding of a node *)

Definition bar : ascii := "|".
Definition comma : ascii := ",".
Definition space : ascii := " ".

Definition encodeNode (n : NodeInfo) : string :=
  Join bar [ID n; Role n; Addr n; Join comma (Modules n); Itoa (State n); Itoa (ActiveRooms n); Itoa (UnixNano (LastBeat n))].

Definition decodeNode (s : string) : regerr + NodeInfo :=
  match SplitN 7 bar s with
  | [p0; p1; p2; p3; p4; p5; p6] =>
      let beat := Some (fst (Atoi p6)) in
      inr (mkNode p0 p1 p2 (if decide (p3 = ""%string) then [] else Split comma p3)
             (to_u8 (fst (Atoi p4))) (fst (Atoi p5)) beat beat)
  | _ => inl (ErrBadPayload s)
  end.

Record node_wf (n : NodeInfo) : Prop := {
  nw_id : free bar (ID n) = true;
  nw_role : free bar (Role n) = true;
  nw_addr : free bar (Addr n) = true;
  nw_mods : Forall (fun m => free bar m && free comma m = true) (Modules n);
  nw_mod1 : Modules n ≠ [""%string];
  nw_state : is_byte (State n);
  nw_rooms : - 2^63 ≤ ActiveRooms n < 2^63;
  nw_beat : - 2^63 ≤ UnixNano (LastBeat n) < 2^63 }.

(** What a reader of the registry gets for a node. *)
Definition published (n : NodeInfo) : NodeInfo :=
  mkNode (ID n) (Role n) (Addr n) (Modules n) (State n) (ActiveRooms n)
    (Some (UnixNano (LastBeat n))) (Some (UnixNano (LastBeat n))).

Lemma Join_comma_empty ms : Forall (fun m => free bar m && free comma m = true) ms → ms ≠ [""%string] →
  Join comma ms = ""%string → ms = [].
Proof. intros _ Hne. destruct ms as [|m [|m' ms]]; [done| |]; cbn; [intros ->; done|]. by destruct m. Qed.

(** A registered node reads back, but for its start time: the identifiers must
    not contain the separators. *)
Lemma decode_encode_node n : node_wf n → decodeNode (encodeNode n) = inr (published n).
Proof.
  intros [Hi Hr Ha Hm H1 Hs Hro Hb]. unfold decodeNode, encodeNode.
  assert (Hmb : Forall (fun m => free bar m = true) (Modules n)).
  { eapply Forall_impl; [exact Hm|]. cbn. intros ? ?%andb_true_iff. naive_solver. }
  assert (Hmc : Forall (fun m => free comma m = true) (Modules n)).
  { eapply Forall_impl; [exact Hm|]. cbn. intros ? ?%andb_true_iff. naive_solver. }
  pose proof (SplitN_Join bar [ID n; Role n; Addr n; Join comma (Modules n); Itoa (State n); Itoa (ActiveRooms n)]
                (Itoa (UnixNano (LastBeat n)))) as E. cbn [length app] in E. rewrite E; clear E.
  2: { repeat constructor; try done; try by apply Itoa_free. by apply Join_free. }
  unfold is_byte in Hs. rewrite !Atoi_Itoa by lia. cbn [fst]. rewrite to_u8_id by done.
  unfold published. do 2 f_equal. case_decide as E.
  - symmetry. by apply Join_comma_empty.
  - apply Split_Join; [done|]. intros E'. by rewrite E' in E.
Qed.

(** ** The Redis registry *)

Section RedisRegistry.
Context {R : Type} `{X : Redis R}.

(** A server and the messages published on the change channel so far. *)
Record server := mkServer { kv : R; bus : list string }.

Definition nodeKey (id : string) : string := "cluster:node:" +:+ id.

(** ["%s %d %d"] *)
Definition changeMsg (id : string) (old new : Z) : string :=
  id +:+ String space (Itoa old +:+ String space (Itoa new)).

(** One message of [dispatchLoop]; malformed ones are skipped. *)
Definition parseChange (payload : string) : option ChangeEvent :=
  match SplitN 3 space payload with
  | [id; old; new] => Some (mkEvent id (to_u8 (fst (Atoi old))) (to_u8 (fst (Atoi new))))
  | _ => None
  end.

Definition NewConfig (c : Config) : Config :=
  mkConfig (if decide (NodeTTL c = 0) then 15 * second else NodeTTL c) (HeartbeatInterval c)
    (if decide (Channel c = ""%string) then "cluster:nodes:change" else Channel c).

(** [None] for the expiry of go-redis means no expiry. *)
Definition expiry (d : Z) : option Z := if decide (d = 0) then None else Some d.

Definition rGet (w : net) (now : Z) (id : string) (s : server) : regerr + NodeInfo :=
  match fst (call w (query (GET now (nodeKey id))) (kv s)) with
  | None => inl (ErrRedis None)
  | Some (inl e) => inl (ErrRedis (Some e))
  | Some (inr None) => inl (ErrNotRegistered id)
  | Some (inr (Some v)) => decodeNode v
  end.

(** [TxPipeline]: the commands run together; a reply that is an error is
    reported, the others have run. *)
Definition txSet (w : net) (now : Z) (cfg : Config) (id : string) (n : NodeInfo) (msg : option string) (s : server)
    : option regerr * server :=
  let run := match SET now (nodeKey id) (encodeNode n) (expiry (NodeTTL cfg)) (kv s) with
             | inl e => (Some e, kv s) | inr r => (None, r) end in
  let s' := mkServer (snd run) (bus s ++ match msg with Some m => [m] | None => [] end) in
  match w with
  | Done => ((fun e => ErrRedis (Some e)) <$> fst run, s')
  | Lost => (Some (ErrRedis None), s)
  | NoReply => (Some (ErrRedis None), s')
  end.

(** A failed read leaves the zero node. *)
Definition orZero (x : regerr + NodeInfo) : NodeInfo := match x with inr n => n | inl _ => noNode end.

Definition rRegister (w1 w2 : net) (now : Z) (cfg : Config) (info : NodeInfo) (s : server) : option regerr * server :=
  let info := stamp now info in
  let old := State (orZero (rGet w1 now (ID info) s)) in
  txSet w2 now cfg (ID info) info (if decide (old ≠ State info) then Some (changeMsg (ID info) old (State info)) else None) s.

(** Heartbeat and SetState read the node, then write it back: other clients run
    in between.  [now] is the time of the write. *)
Definition rHeartbeatWrite (w : net) (now : Z) (cfg : Config) (id : string) (rooms : Z) (n : NodeInfo) (s : server) : option regerr * server :=
  txSet w now cfg id (set_beat (Some now) (set_rooms rooms n)) None s.
Definition rHeartbeat (w1 w2 : net) (now : Z) (cfg : Config) (id : string) (rooms : Z) (s : server) : option regerr * server :=
  match rGet w1 now id s with
  | inl e => (Some e, s)
  | inr n => rHeartbeatWrite w2 now cfg id rooms n s
  end.
Definition rSetStateWrite (w : net) (now : Z) (cfg : Config) (id : string) (st : Z) (n : NodeInfo) (s : server) : option regerr * server :=
  txSet w now cfg id (set_beat (Some now) (set_state st n))
    (if decide (State n ≠ st) then Some (changeMsg id (State n) st) else None) s.
Definition rSetState (w1 w2 : net) (now : Z) (cfg : Config) (id : string) (st : Z) (s : server) : option regerr * server :=
  match rGet w1 now id s with
  | inl e => (Some e, s)
  | inr n => rSetStateWrite w2 now cfg id st n s
  end.

Definition rDeregister (w1 w2 : net) (now : Z) (id : string) (s : server) : option regerr * server :=
  let old := State (orZero (rGet w1 now id s)) in
  let s' := mkServer (DEL (nodeKey id) (kv s)) (bus s ++ [changeMsg id old StateDown]) in
  match w2 with
  | Done => (None, s')
  | Lost => (Some (ErrRedis None), s)
  | NoReply => (Some (ErrRedis None), s')
  end.

(** SCAN, then MGET: values that are gone, of another type or malformed are
    skipped. *)
Definition rList (w : net) (now : Z) (role : string) (onlyActive : bool) (s : server) : regerr + list NodeInfo :=
  match w with
  | Done =>
      inr (omap (fun k =>
             match GET now k (kv s) with
             | inr (Some v) =>
                 if decide (v = ""%string) then None else
                 match decodeNode v with
                 | inr n => if selects role onlyActive n then Some n else None
                 | inl _ => None
                 end
             | _ => None
             end) (SCAN now "cluster:node:" (kv s)))
  | _ => inl (ErrRedis None)
  end.

End RedisRegistry.
Arguments server : clear implicits.
