(* ===== verification/RegistryThm.v ===== *)
(** * Theorems about the node registry

    Watchers of the in-process registry see the changes of every node in order;
    entries of the Redis registry live as long as their heartbeats; and where
    the two depart from what the comments promise. *)

From S2P Require Import Prelude Frame Envelope GoStrings Redis Registry.
From Stdlib Require Import Ascii.

(** ** Calls that overlap *)

(** What a call does under the lock, with the event it has yet to publish. *)
Inductive lcall (r : MemRegistry) : option ChangeEvent → MemRegistry → Prop :=
| lc_register now info e r1 ev : registerLocked now info r = Returns (e, r1, ev) → lcall r ev r1
| lc_state now id s e r1 ev : setStateLocked now id s r = Returns (e, r1, ev) → lcall r ev r1
| lc_deregister id e r1 ev : deregisterLocked id r = Returns (e, r1, ev) → lcall r ev r1
| lc_beat now id n e r1 : Heartbeat now id n r = Returns (e, r1) → lcall r None r1
| lc_watch ch r1 : Watch r = Returns (ch, r1) → lcall r None r1.

(** The registry, and the changes whose calls have released the lock and have
    not published yet, oldest first. *)
Definition conf : Type := MemRegistry * list ChangeEvent.

(** A node's calls follow one another: it has no earlier change to publish. *)
Definition fresh (ev : option ChangeEvent) (p : list ChangeEvent) : Prop :=
  ∀ e, ev = Some e → NodeID e ∉ (NodeID <$> p).
Inductive rchange : conf → option ChangeEvent → conf → Prop :=
| rc_change r p ev r' : lcall r ev r' → fresh ev p → rchange (r, p) ev (r', p ++ option_list ev).
(** The calls of different nodes publish in any order; reading the list of
    channels takes the lock. *)
Inductive rpublish : conf → ChangeEvent → conf → Prop :=
| rc_publish r p1 e p2 r' : mu r = false → publish e r = Ok r' → rpublish (r, p1 ++ e :: p2) e (r', p1 ++ p2).

(** A run and the events it published. *)
Inductive rrun : conf → list ChangeEvent → conf → Prop :=
| rr_nil c : rrun c [] c
| rr_change c ev c1 evs c2 : rchange c ev c1 → rrun c1 evs c2 → rrun c evs c2
| rr_publish c e c1 evs c2 : rpublish c e c1 → rrun c1 evs c2 → rrun c (e :: evs) c2.

(** What a watcher wants to know of a node: absent counts as down. *)
Definition view (r : MemRegistry) (id : string) : Z := default StateDown (State <$> nodes r !! id).
Definition apply1 (v : string → Z) (ev : ChangeEvent) : string → Z :=
  fun id => if decide (id = NodeID ev) then New ev else v id.
Definition replay (v : string → Z) (evs : list ChangeEvent) : string → Z := foldl apply1 v evs.

(** Open registries: no channel is closed, channel numbers are fresh. *)
Record ROpen (r : MemRegistry) : Prop := {
  ro_closed : chanClosed r = ∅;
  ro_fresh : ∀ ch, ch ∈ chans r → (ch < nextChan r)%nat;
  ro_nodup : NoDup (chans r);
  ro_ids : map_Forall (fun id n => ID n = id) (nodes r) }.

(** What sending one event does to a channel. *)
Definition pushTo (ev : ChangeEvent) (q : list ChangeEvent) : list ChangeEvent :=
  if decide (zlen q < 64) then q ++ [ev] else q.

Lemma send_spec ev ch r : chanClosed r = ∅ → ∃ r', send ev ch r = Ok r' ∧
  nodes r' = nodes r ∧ chans r' = chans r ∧ chanClosed r' = ∅ ∧ nextChan r' = nextChan r ∧ closed r' = closed r ∧ mu r' = mu r ∧
  (∀ c q, chanBuf r !! c = Some q → chanBuf r' !! c = Some (if decide (c = ch) then pushTo ev q else q)).
Proof.
  intros Hc. unfold send. rewrite decide_False by (rewrite Hc; set_solver). eexists. split; [reflexivity|].
  unfold pushTo. case_decide as Hz.
  - cbn. split_and!; try done. intros c q Hq. case_decide as Ec; [subst c|].
    + rewrite Hq in *. cbn [default id] in *. rewrite lookup_insert_eq. by rewrite decide_True.
    + by rewrite lookup_insert_ne.
  - split_and!; try done. intros c q Hq. case_decide as Ec; [subst c|done].
    rewrite Hq in *. cbn [default id] in *. by rewrite decide_False.
Qed.

Lemma sendAll_spec ev chs r : chanClosed r = ∅ → NoDup chs → ∃ r', sendAll ev chs r = Ok r' ∧
  nodes r' = nodes r ∧ chans r' = chans r ∧ chanClosed r' = ∅ ∧ nextChan r' = nextChan r ∧ closed r' = closed r ∧ mu r' = mu r ∧
  (∀ c q, chanBuf r !! c = Some q → chanBuf r' !! c = Some (if decide (c ∈ chs) then pushTo ev q else q)).
Proof.
  intros Hc Hnd. revert r Hc. induction Hnd as [|ch chs Hch Hnd IH]; intros r Hc; cbn [sendAll].
  { eexists. split; [reflexivity|]. split_and!; try done. }
  destruct (send_spec ev ch r Hc) as (r1 & -> & Hn1 & Hs1 & Hc1 & Hx1 & Hcl1 & Hm1 & Hb1). cbn [rbind].
  destruct (IH r1 Hc1) as (r2 & -> & Hn2 & Hs2 & Hc2 & Hx2 & Hcl2 & Hm2 & Hb2).
  exists r2. split; [done|]. split_and!; try congruence. intros c q Hq. rewrite (Hb2 _ _ (Hb1 _ _ Hq)).
  repeat case_decide; try done; set_solver.
Qed.

(** The locked parts change the view exactly as the event says. *)
Definition views (r r1 : MemRegistry) (ev : option ChangeEvent) : Prop :=
  (∀ id, view r1 id = replay (view r) (option_list ev) id) ∧
  chans r1 = chans r ∧ chanBuf r1 = chanBuf r ∧ chanClosed r1 = chanClosed r ∧ nextChan r1 = nextChan r ∧
  map_Forall (fun id n => ID n = id) (nodes r1).

Lemma locked_Returns {A} r (k x : A) : locked r k = Returns x → k = x ∧ mu r = false.
Proof. unfold locked. destruct (mu r); [done|]. by intros [= ->]. Qed.

Lemma view_insert r id n v : view (set_nodes (<[id := n]> (nodes r)) r) v = if decide (v = id) then State n else view r v.
Proof.
  unfold view. cbn. case_decide as E; [subst; by rewrite lookup_insert_eq|by rewrite lookup_insert_ne].
Qed.

Lemma registerLocked_views now info r e r1 ev : ROpen r → registerLocked now info r = Returns (e, r1, ev) → views r r1 ev.
Proof.
  intros Ho H. apply locked_Returns in H as [H _]. cbv zeta in H. destruct (closed r); simplify_eq.
  { split_and!; try done. apply Ho. }
  unfold views. split_and!; try done; cycle 1.
  { cbn [set_nodes nodes stamp ID]. apply map_Forall_insert_2; [done|apply Ho]. }
  intros id. rewrite view_insert. cbn [stamp ID State].
  case_bool_decide as Hold; cbn [orb option_list replay foldl apply1 NodeID New]; [done|].
  case_bool_decide as Hst; cbn [option_list replay foldl]; unfold apply1; cbn; [done|].
  case_decide; [subst|done]. unfold view.
  destruct (nodes r !! ID info) as [n|] eqn:E; [|done]. cbn in *. congruence.
Qed.

Lemma setStateLocked_views now id s r e r1 ev : ROpen r → setStateLocked now id s r = Returns (e, r1, ev) → views r r1 ev.
Proof.
  intros Ho H. apply locked_Returns in H as [H _]. cbv zeta in H. destruct (closed r); simplify_eq.
  { split_and!; try done. apply Ho. }
  destruct (nodes r !! id) as [n|] eqn:E; simplify_eq; cycle 1.
  { split_and!; try done. apply Ho. }
  unfold views. split_and!; try done; cycle 1.
  { cbn. apply map_Forall_insert_2; [|apply Ho]. cbn. by apply (ro_ids r Ho). }
  intros v. rewrite view_insert. cbn [State set_beat set_state]. destruct (decide (State n ≠ s)) as [_|Hs]; [done|].
  cbn. case_decide; [subst|done]. unfold view. rewrite E. cbn. by apply dec_stable in Hs.
Qed.

Lemma deregisterLocked_views id r e r1 ev : ROpen r → deregisterLocked id r = Returns (e, r1, ev) → views r r1 ev.
Proof.
  intros Ho H. apply locked_Returns in H as [H _]. cbv zeta in H. destruct (closed r); simplify_eq.
  { split_and!; try done. apply Ho. }
  unfold views. split_and!; try done; cycle 1.
  { cbn. apply map_Forall_delete. apply Ho. }
  intros v. unfold view. cbn. destruct (nodes r !! id) as [n|] eqn:E; cbn; unfold apply1; cbn.
  - case_decide; [subst; by rewrite lookup_delete_eq|by rewrite lookup_delete_ne].
  - by rewrite delete_id.
Qed.

(** What the locked part of a call guarantees to a watcher of channel [ch]. *)
Lemma lcall_tracks ch r ev r1 : ROpen r → lcall r ev r1 →
  ROpen r1 ∧ (∀ id, view r1 id = replay (view r) (option_list ev) id) ∧
  (ch ∈ chans r → ch ∈ chans r1 ∧ chanBuf r1 !! ch = chanBuf r !! ch).
Proof.
  intros Ho H. assert (∀ r1 ev, views r r1 ev → ROpen r1 ∧ (∀ id, view r1 id = replay (view r) (option_list ev) id) ∧
    (ch ∈ chans r → ch ∈ chans r1 ∧ chanBuf r1 !! ch = chanBuf r !! ch)) as HV.
  { intros r2 ev2 (Hv & Hch & Hb & Hcl & Hx & Hid). destruct Ho. split; [|split; [done|]].
    - split; [congruence|by rewrite Hch, Hx|by rewrite Hch|done].
    - intros ?. by rewrite Hch, Hb. }
  inversion H as [? ? ? ? ? HL|? ? ? ? ? ? HL|? ? ? ? HL|now id n e ? HL|c ? HL]; subst; clear H.
  - by eapply HV, registerLocked_views.
  - by eapply HV, setStateLocked_views.
  - by eapply HV, deregisterLocked_views.
  - apply locked_Returns in HL as [HL _]. destruct (closed r); simplify_eq; [done|].
    destruct (nodes r !! id) as [m|] eqn:E; simplify_eq; [|done].
    split; [|split; [|done]].
    + destruct Ho as [? ? ? Hid]. split; cbn; try done. apply map_Forall_insert_2; [|done]. exact (Hid _ _ E).
    + intros v. rewrite view_insert. cbn. case_decide; [subst|done]. unfold view. by rewrite E.
  - apply locked_Returns in HL as [HL _]. injection HL as <- <-. destruct Ho as [Hc Hf Hnd Hid]. split; [|split; [done|]].
    + split; cbn; try done.
      * intros c [?%Hf| ->%list_elem_of_singleton]%elem_of_app; lia.
      * apply NoDup_app. split_and!; [done| |apply NoDup_singleton].
        intros c ?%Hf ->%list_elem_of_singleton. lia.
    + intros Hin. split; cbn; [set_solver|]. rewrite lookup_insert_ne; [done|].
      intros <-. apply Hf in Hin. lia.
Qed.

(** Publishing changes no node and reaches every channel. *)
Lemma publish_tracks ch e r r1 : ROpen r → publish e r = Ok r1 →
  ROpen r1 ∧ nodes r1 = nodes r ∧
  (ch ∈ chans r → ch ∈ chans r1 ∧ ∀ q, chanBuf r !! ch = Some q → chanBuf r1 !! ch = Some (pushTo e q)).
Proof.
  intros [Hc Hf Hnd Hid] Hp. destruct (sendAll_spec e (chans r) r Hc Hnd) as (r' & Hs & Hn & Hch & Hcl & Hx & _ & _ & Hb).
  unfold publish in Hp. rewrite Hs in Hp. injection Hp as <-. split; [|split; [done|]].
  - split; [done|by rewrite Hch, Hx|by rewrite Hch|by rewrite Hn].
  - intros Hin. split; [congruence|]. intros q Hq. rewrite (Hb _ _ Hq). by rewrite decide_True.
Qed.

(** Applying changes: pointwise, one list after the other, and changes of
    different nodes in any order. *)
Lemma replay_ext f g evs : (∀ i, f i = g i) → ∀ id, replay f evs id = replay g evs id.
Proof.
  revert f g. induction evs as [|e evs IH]; intros f g Hg; [exact Hg|]. apply IH. intros i. unfold apply1. by case_decide.
Qed.
Lemma replay_app v a b : replay v (a ++ b) = replay (replay v a) b.
Proof. apply foldl_app. Qed.
Lemma replay_move v p1 e p2 : NodeID e ∉ (NodeID <$> p1) → ∀ id, replay v (p1 ++ e :: p2) id = replay v (e :: p1 ++ p2) id.
Proof.
  revert v. induction p1 as [|x p1 IH]; intros v Hne id; [done|]. rewrite fmap_cons, not_elem_of_cons in Hne. destruct Hne as [Hx Hne].
  change (replay (apply1 v x) (p1 ++ e :: p2) id = replay (apply1 (apply1 v e) x) (p1 ++ p2) id).
  rewrite (IH (apply1 v x) Hne id). apply (replay_ext (apply1 (apply1 v x) e)). intros i. unfold apply1. repeat case_decide; congruence.
Qed.

Lemma fresh_NoDup ev p : NoDup (NodeID <$> p) → fresh ev p → NoDup (NodeID <$> p ++ option_list ev).
Proof.
  intros Hnd Hf. destruct ev as [e|]; cbn; [|by rewrite app_nil_r]. rewrite fmap_app. apply NoDup_app.
  split_and!; [done| |apply NoDup_singleton]. intros i Hi ->%list_elem_of_singleton. by apply (Hf e).
Qed.
Lemma NoDup_drop p1 e p2 : NoDup (NodeID <$> p1 ++ e :: p2) → NodeID e ∉ (NodeID <$> p1) ∧ NoDup (NodeID <$> p1 ++ p2).
Proof.
  rewrite !fmap_app, fmap_cons, !NoDup_app, NoDup_cons. intros (H1 & H2 & H3 & H4). split.
  - intros Hin. apply (H2 _ Hin). by left.
  - split_and!; [done| |done]. intros x Hx Hx2. apply (H2 _ Hx). by right.
Qed.

(** What a watcher of [ch], with [q] unread, has after a run. *)
Lemma rrun_tracks c evs c1 : rrun c evs c1 → ROpen c.1 → NoDup (NodeID <$> c.2) → ∀ v, (∀ id, view c.1 id = replay v c.2 id) →
  ROpen c1.1 ∧ NoDup (NodeID <$> c1.2) ∧ (∀ id, view c1.1 id = replay v (evs ++ c1.2) id) ∧
  (∀ ch q, ch ∈ chans c.1 → chanBuf c.1 !! ch = Some q → zlen (q ++ evs) ≤ 64 →
     ch ∈ chans c1.1 ∧ chanBuf c1.1 !! ch = Some (q ++ evs)).
Proof.
  induction 1 as [c|c ev c1 evs c2 Hc _ IH|c e c1 evs c2 Hc _ IH]; intros Ho Hnd v Hv.
  - split_and!; try done. intros ch q Hin Hq _. by rewrite app_nil_r.
  - destruct Hc as [r p ev r' Hl Hf]. cbn [fst snd] in *. destruct (lcall_tracks O r ev r' Ho Hl) as (Ho1 & Hv1 & _).
    destruct (IH Ho1 (fresh_NoDup _ _ Hnd Hf) v) as (H1 & H2 & H3 & H4).
    { intros id. rewrite Hv1, replay_app. by apply replay_ext. }
    split_and!; try done. intros ch q Hin Hq Hz. destruct (lcall_tracks ch r ev r' Ho Hl) as (_ & _ & Ht).
    destruct (Ht Hin) as [Hin1 Hb]. apply H4; congruence.
  - destruct Hc as [r p1 e p2 r' _ Hp]. cbn [fst snd] in *. destruct (publish_tracks O e r r' Ho Hp) as (Ho1 & Hn & _).
    apply NoDup_drop in Hnd as [Hne Hnd]. destruct (IH Ho1 Hnd (apply1 v e)) as (H1 & H2 & H3 & H4).
    { intros id. transitivity (view r id); [unfold view; by rewrite Hn|]. rewrite Hv. by apply replay_move. }
    split_and!; try done. intros ch q Hin Hq Hz. destruct (publish_tracks ch e r r' Ho Hp) as (_ & _ & Ht).
    destruct (Ht Hin) as [Hin1 Hb]. specialize (Hb _ Hq). rewrite (assoc_L app q [e] evs : q ++ e :: evs = _) in *.
    unfold pushTo in Hb. rewrite decide_True in Hb; [by apply H4|].
    rewrite !zlen_app in Hz. change (zlen [e]) with 1 in Hz. pose proof (zlen_nonneg evs). lia.
Qed.

Lemma NewMemRegistry_open : ROpen NewMemRegistry.
Proof. split; cbn; [done|by intros ? ?%elem_of_nil|apply NoDup_nil_2|apply map_Forall_empty]. Qed.

(** ** Theorems about the in-process registry *)

(** A watcher knows the cluster: after any calls, subscribe; whatever calls
    follow, and however those of different nodes overlap, as long as no more
    than 64 changes are unread the channel holds exactly the changes published
    since, in order, and applying them and then those not yet published to the
    state of the nodes at the time of subscription gives their state now (a
    node that is not registered counts as down). *)
Theorem watch_exact evs0 r ch r1 evs r2 p :
  rrun (NewMemRegistry, []) evs0 (r, []) → Watch r = Returns (ch, r1) → rrun (r1, []) evs (r2, p) → zlen evs ≤ 64 →
  chanBuf r2 !! ch = Some evs ∧ (∀ id, view r2 id = replay (view r) (evs ++ p) id).
Proof.
  intros H0 HW H1 Hl. destruct (rrun_tracks _ _ _ H0 NewMemRegistry_open (NoDup_nil_2 : NoDup (NodeID <$> [])) _ (fun _ => eq_refl)) as (Ho & _).
  destruct (lcall_tracks O r None r1 Ho (lc_watch _ _ _ HW)) as (Ho1 & Hv1 & _).
  apply locked_Returns in HW as [HW _]. injection HW as <- <-.
  destruct (rrun_tracks _ _ _ H1 Ho1 (NoDup_nil_2 : NoDup (NodeID <$> [])) (view r) Hv1) as (_ & _ & Hv2 & Hq). split; [|done].
  apply (Hq (nextChan r) []); cbn; [set_solver|by rewrite lookup_insert_eq|done].
Qed.

(** Finding. SetState of a node that is not registered returns without
    releasing the lock: every later call on the registry waits for ever. *)
Theorem unknown_state_deadlocks now id s r :
  mu r = false → closed r = false → nodes r !! id = None →
  ∃ r', setStateLocked now id s r = Returns (Some (ErrNotRegistered id), r', None) ∧
    Watch r' = Blocks ∧ (∀ id', Get id' r' = Blocks) ∧ (∀ role a, List_ role a r' = Blocks) ∧
    (∀ now' id' n, Heartbeat now' id' n r' = Blocks) ∧ (∀ now' info, Register now' info r' = Blocks) ∧ Close r' = Blocks.
Proof.
  intros Hm Hc Hn. unfold setStateLocked, locked. rewrite Hm, Hc, Hn. eexists. split; [reflexivity|].
  unfold Watch, Get, List_, Heartbeat, Register, registerLocked, Close, locked. cbn. by split_and!.
Qed.

Definition nodeA (s : Z) : NodeInfo := mkNode "a" RoleLogic "10.0.0.1:7002" ["snake"]%string s 0 None None.

Definition okReg (x : locking (res (option regerr * MemRegistry))) : MemRegistry :=
  match x with Returns (Ok (_, r)) => r | _ => NewMemRegistry end.
Definition retReg {A} (d : A) (x : locking A) : A := match x with Returns a => a | Blocks => d end.

(** One watcher, one active node. *)
Definition watched : MemRegistry :=
  okReg (Register 1 (nodeA StateActive) (snd (retReg (O, NewMemRegistry) (Watch NewMemRegistry)))).

(** Finding. Publishing happens outside the lock: two changes of one node can
    reach a watcher in the opposite order, which leaves it with the older
    state. *)
Theorem events_reordered : ∃ r1 ev1 r2 ev2 r3 r4,
  setStateLocked 2 "a" StateDraining watched = Returns (None, r1, Some ev1) ∧
  setStateLocked 3 "a" StateDrained r1 = Returns (None, r2, Some ev2) ∧
  publish ev2 r2 = Ok r3 ∧ publish ev1 r3 = Ok r4 ∧
  chanBuf r4 !! O = Some [mkEvent "a" 0 StateActive; ev2; ev1] ∧
  view r4 "a" = StateDrained ∧ replay (fun _ => StateDown) [mkEvent "a" 0 StateActive; ev2; ev1] "a" = StateDraining.
Proof. eexists _, _, _, _, _, _. split_and!; vm_compute; reflexivity. Qed.

(** Finding. A call that has read the list of channels sends on them after
    Close has closed them: the process panics. *)
Theorem publish_close_panics : ∃ r1 ev r2,
  setStateLocked 2 "a" StateDraining watched = Returns (None, r1, Some ev) ∧
  Close r1 = Returns r2 ∧ sendAll ev (chans r1) r2 = Panic.
Proof. eexists _, _, _. split_and!; vm_compute; reflexivity. Qed.

(** ** The Redis registry *)

Section Redis.
Context {R : Type} `{X : Redis R} {L : RedisLaws X}.

Lemma parse_change id old new : free space id = true → is_byte old → is_byte new →
  parseChange (changeMsg id old new) = Some (mkEvent id old new).
Proof.
  intros Hi Ho Hn. unfold parseChange, changeMsg.
  pose proof (SplitN_Join space [id; Itoa old] (Itoa new)) as E. cbn [length app Join] in E. rewrite E; clear E.
  2: { repeat constructor; [done|by apply Itoa_free]. }
  unfold is_byte in *. rewrite !Atoi_Itoa by lia. cbn [fst]. by rewrite !to_u8_id.
Qed.

Lemma rGet_spec now id (s : server R) :
  rGet Done now id s = match live now (nodeKey id) (dataset (kv s)) with
                       | None => inl (ErrNotRegistered id)
                       | Some (RStr v) => decodeNode v
                       | Some _ => inl (ErrRedis (Some WRONGTYPE))
                       end.
Proof.
  unfold rGet, call, query. cbn. rewrite get_law. unfold dGet. by destruct (live _ _ _) as [[]|].
Qed.

(** A write of a node: the entry, for as long as it lives. *)
Lemma txSet_entry now cfg id n msg (s : server R) : 0 < NodeTTL cfg → ∃ s',
  txSet Done now cfg id n msg s = (None, s') ∧
  bus s' = bus s ++ option_list msg ∧
  dataset (kv s') = <[nodeKey id := (RStr (encodeNode n), Some (now + NodeTTL cfg))]> (dataset (kv s)).
Proof.
  intros Ht. unfold txSet, expiry. rewrite decide_False by lia.
  pose proof (set_law now (nodeKey id) (encodeNode n) (Some (NodeTTL cfg)) (kv s)) as Hs.
  unfold dSet in Hs. rewrite decide_True in Hs by done.
  destruct (SET _ _ _ _ _) as [e|r]; [done|]. cbn in Hs. injection Hs as Hs.
  eexists. split; [reflexivity|]. cbn. split; [|done]. by destruct msg.
Qed.

Lemma live_insert now k v t (d : db) : live now k (<[k := (v, Some t)]> d) = if decide (now < t) then Some v else None.
Proof. unfold live. by rewrite lookup_insert_eq. Qed.

(** What a client finds after a write: the node until the deadline, nothing
    afterwards. *)
Lemma entry_lifetime now cfg id n msg (s s' : server R) t : 0 < NodeTTL cfg → node_wf n →
  txSet Done now cfg id n msg s = (None, s') →
  rGet Done t id s' = if decide (t < now + NodeTTL cfg) then inr (published n) else inl (ErrNotRegistered id).
Proof.
  intros Ht Hn H. destruct (txSet_entry now cfg id n msg s Ht) as (s2 & E & _ & Hd). rewrite E in H.
  injection H as ->. rewrite rGet_spec, Hd, live_insert. case_decide; [|done]. by apply decode_encode_node.
Qed.

(** A sequence of heartbeats at the given times, each reporting a number of
    rooms. *)
Fixpoint beats (cfg : Config) (id : string) (bs : list (Z * Z)) (s : server R) : option regerr * server R :=
  match bs with
  | [] => (None, s)
  | (t, rooms) :: bs' =>
      match rHeartbeat Done Done t cfg id rooms s with
      | (None, s) => beats cfg id bs' s
      | (Some e, s) => (Some e, s)
      end
  end.

(** Consecutive times less than the entry's lifetime apart. *)
Fixpoint timely (ttl last : Z) (bs : list (Z * Z)) : Prop :=
  match bs with [] => True | (t, _) :: bs' => last ≤ t < last + ttl ∧ timely ttl t bs' end.

Definition lastBeat (t0 : Z) (bs : list (Z * Z)) : Z := from_option fst t0 (last bs).
Definition lastRooms (n0 : Z) (bs : list (Z * Z)) : Z := from_option snd n0 (last bs).

(** A node that beats less than its lifetime apart stays registered. *)
Lemma beats_keep cfg id n now (s : server R) bs : 0 < NodeTTL cfg → node_wf n → LastBeat n = Some now →
  (∀ t, rGet Done t id s = if decide (t < now + NodeTTL cfg) then inr (published n) else inl (ErrNotRegistered id)) →
  timely (NodeTTL cfg) now bs → Forall (fun b => -2^63 ≤ snd b < 2^63 ∧ -2^63 ≤ fst b < 2^63) bs →
  ∃ s', beats cfg id bs s = (None, s') ∧
    ∀ t, rGet Done t id s' =
      if decide (t < lastBeat now bs + NodeTTL cfg)
      then inr (published (set_rooms (lastRooms (ActiveRooms n) bs) (set_beat (Some (lastBeat now bs)) n)))
      else inl (ErrNotRegistered id).
Proof.
  intros Ht. revert n now s. induction bs as [|[t1 k] bs IH]; intros n now s Hn Hb Hs Htm Hr.
  { exists s. split; [done|]. intros t. rewrite Hs. unfold lastBeat, lastRooms. cbn. destruct n; cbn in *. by subst. }
  destruct Htm as [Htm1 Htm]. apply Forall_cons_1 in Hr as [[Hk Ht1] Hr]. cbn in Hk, Ht1. cbn [beats].
  unfold rHeartbeat. rewrite Hs. rewrite decide_True by lia. unfold rHeartbeatWrite.
  set (n1 := set_beat (Some t1) (set_rooms k (published n))).
  assert (Hn1 : node_wf n1).
  { destruct Hn. split; cbn; try done. }
  destruct (txSet_entry t1 cfg id n1 None s Ht) as (s1 & E & _ & _). rewrite E.
  destruct (IH n1 t1 s1 Hn1 eq_refl) as (s' & E' & Hs'); [|done|done|].
  { intros t. by eapply entry_lifetime. }
  exists s'. split; [done|]. intros t. rewrite Hs'. unfold lastBeat, lastRooms.
  destruct bs as [|b bs]; cbn [last from_option fst snd]; [done|].
  destruct (last (b :: bs)) eqn:El; [|by apply last_None in El]. cbn. done.
Qed.

(** A registered node stays visible exactly as long as it keeps beating: after
    registration and any heartbeats less than the lifetime apart, the entry is
    found with its state and the last reported rooms until the lifetime has
    passed since the last heartbeat; from then on it is gone, and every further
    heartbeat fails and leaves the registry as it is, so the node does not come
    back by itself. *)
Theorem registered_while_beating now cfg info bs (s : server R) :
  0 < NodeTTL cfg → node_wf (stamp now info) → LastBeat info = None → -2^63 ≤ now < 2^63 →
  timely (NodeTTL cfg) now bs → Forall (fun b => -2^63 ≤ snd b < 2^63 ∧ -2^63 ≤ fst b < 2^63) bs →
  ∃ s0 s1, rRegister Done Done now cfg info s = (None, s0) ∧ beats cfg (ID info) bs s0 = (None, s1) ∧
    ∀ t,
      (t < lastBeat now bs + NodeTTL cfg → ∃ n, rGet Done t (ID info) s1 = inr n ∧ ID n = ID info ∧ Role n = Role info ∧
         Addr n = Addr info ∧ State n = State info ∧ ActiveRooms n = lastRooms (ActiveRooms info) bs ∧ LastBeat n = Some (lastBeat now bs)) ∧
      (lastBeat now bs + NodeTTL cfg ≤ t → rGet Done t (ID info) s1 = inl (ErrNotRegistered (ID info)) ∧
         ∀ k, rHeartbeat Done Done t cfg (ID info) k s1 = (Some (ErrNotRegistered (ID info)), s1)).
Proof.
  intros Ht Hn Hz Hnow Htm Hr. unfold rRegister. set (msg := if decide _ then Some _ else None).
  destruct (txSet_entry now cfg (ID info) (stamp now info) msg s Ht) as (s0 & E0 & _ & _).
  destruct (beats_keep cfg (ID info) (stamp now info) now s0 bs Ht Hn) as (s1 & E1 & Hs1); [by cbn; rewrite Hz| |done..|].
  { intros t. by eapply entry_lifetime. }
  exists s0, s1. split; [exact E0|]. split; [exact E1|]. intros t. specialize (Hs1 t).
  split; intros Hlt.
  - rewrite decide_True in Hs1 by done. eexists. split; [exact Hs1|]. by split_and!.
  - rewrite decide_False in Hs1 by lia. split; [done|]. intros k. unfold rHeartbeat. by rewrite Hs1.
Qed.

(** Finding. Heartbeat writes back the node it read: when SetState runs in
    between, its state is overwritten, and a draining node is offered to new
    players again. *)
Theorem heartbeat_reverts_drain now cfg id n (s : server R) :
  0 < NodeTTL cfg → node_wf n → State n = StateActive → -2^63 ≤ now < 2^63 →
  rGet Done now id s = inr (published n) →
  ∃ s1 s2, rSetState Done Done now cfg id StateDraining s = (None, s1) ∧
    (∃ m, rGet Done now id s1 = inr m ∧ State m = StateDraining) ∧
    rHeartbeatWrite Done now cfg id (ActiveRooms n) (published n) s1 = (None, s2) ∧
    (∃ m, rGet Done now id s2 = inr m ∧ State m = StateActive).
Proof.
  intros Ht Hn Ha Hnow Hg. unfold rSetState. rewrite Hg. unfold rSetStateWrite, rHeartbeatWrite.
  set (n1 := set_beat (Some now) (set_state StateDraining (published n))).
  set (n2 := set_beat (Some now) (set_rooms (ActiveRooms n) (published n))).
  set (msg := if decide _ then Some _ else None).
  assert (Hn1 : node_wf n1) by (destruct Hn; split; cbn; try done; unfold is_byte, StateDraining in *; lia).
  assert (Hn2 : node_wf n2) by (destruct Hn; split; cbn; try done; lia).
  destruct (txSet_entry now cfg id n1 msg s Ht) as (s1 & E1 & _).
  destruct (txSet_entry now cfg id n2 None s1 Ht) as (s2 & E2 & _).
  exists s1, s2. split; [done|]. split; [|split; [done|]].
  - exists (published n1). split; [|done]. rewrite (entry_lifetime _ _ _ _ _ _ _ now Ht Hn1 E1). by rewrite decide_True by lia.
  - exists (published n2). split; [|done]. rewrite (entry_lifetime _ _ _ _ _ _ _ now Ht Hn2 E2). rewrite decide_True by lia. done.
Qed.

End Redis.

(** ** Examples *)

Definition demoWatch : MemRegistry := snd (retReg (O, NewMemRegistry) (Watch NewMemRegistry)).
Definition demoReg2 : MemRegistry := okReg (SetState 2 "a" StateDraining (okReg (Register 1 (nodeA StateActive) demoWatch))).

Lemma watch_exact_witness :
  chanBuf demoReg2 !! O = Some [mkEvent "a" 0 StateActive; mkEvent "a" StateActive StateDraining] ∧
  (∀ id, view demoReg2 id =
     replay (view NewMemRegistry) [mkEvent "a" 0 StateActive; mkEvent "a" StateActive StateDraining] id).
Proof.
  apply (watch_exact [] NewMemRegistry O demoWatch [mkEvent "a" 0 StateActive; mkEvent "a" StateActive StateDraining] demoReg2 []);
    [constructor|reflexivity| |vm_compute; discriminate].
  eapply rr_change; [eapply (rc_change _ []); [eapply (lc_register _ 1 (nodeA StateActive)); vm_compute; reflexivity|by intros ? _ ?%elem_of_nil]|].
  eapply rr_publish; [eapply (rc_publish _ [] _ []); vm_compute; reflexivity|].
  eapply rr_change; [eapply (rc_change _ []); [eapply (lc_state _ 2 "a" StateDraining); vm_compute; reflexivity|by intros ? _ ?%elem_of_nil]|].
  eapply rr_publish; [eapply (rc_publish _ [] _ []); vm_compute; reflexivity|].
  vm_compute. constructor.
Defined.

Definition emptyServer : server db := mkServer ∅ [].

Lemma registered_while_beating_witness : ∃ s0 s1,
  rRegister Done Done 0 DefaultConfig (nodeA StateActive) emptyServer = (None, s0) ∧
  beats DefaultConfig "a" [(5 * second, 3); (10 * second, 4)] s0 = (None, s1) ∧
  (∃ n, rGet Done (24 * second) "a" s1 = inr n ∧ ActiveRooms n = 4) ∧
  rGet Done (25 * second) "a" s1 = inl (ErrNotRegistered "a").
Proof.
  destruct (registered_while_beating 0 DefaultConfig (nodeA StateActive) [(5 * second, 3); (10 * second, 4)] emptyServer)
    as (s0 & s1 & H0 & H1 & H).
  - vm_compute. reflexivity.
  - split; cbn; try done; try (unfold is_byte, StateActive; lia). repeat constructor.
  - done.
  - lia.
  - vm_compute. intuition congruence.
  - repeat constructor; cbn; unfold second; lia.
  - exists s0, s1. split; [exact H0|]. split; [exact H1|]. split.
    + destruct (proj1 (H (24 * second))) as (n & Hn & _ & _ & _ & _ & Hr & _); [vm_compute; reflexivity|].
      exists n. split; [exact Hn|exact Hr].
    + apply (proj2 (H (25 * second))). vm_compute. discriminate.
Defined.
