(* ===== verification/Routes.v ===== *)
(** * First-level routing: which logic node serves a player
    (internal/gateway/gateway.go, MemRouteTable; internal/gateway/route_redis.go)

    The interface [RouteTable] is a map from players to nodes.  The in-process
    table is that map; the shared table keeps a string per player and a reverse
    set per node in Redis, changed by Lua scripts, and a short-lived local
    cache. *)

From S2P Require Import Prelude Redis Registry.

(** ** The interface *)

(** What gateway and logic nodes rely on: a table stands for a map, a lookup
    reads it, and the three updates change it as their comments say. *)
Class RouteTable (T : Type) := {
  routesOf : T → gmap string string;
  Lookup : string → T → option string;
  Bind : string → string → T → T;
  Unbind : string → string → T → T;
  Invalidate : string → T → T }.

Definition unbound (uid node : string) (m : gmap string string) : gmap string string :=
  if decide (m !! uid = Some node) then delete uid m else m.
Definition invalidated (node : string) (m : gmap string string) : gmap string string :=
  filter (fun kv => kv.2 ≠ node) m.

Class RouteLaws {T} (X : RouteTable T) : Prop := {
  lookup_law uid t : Lookup uid t = routesOf t !! uid;
  bind_law uid node t : routesOf (Bind uid node t) = <[uid := node]> (routesOf t);
  unbind_law uid node t : routesOf (Unbind uid node t) = unbound uid node (routesOf t);
  invalidate_law node t : routesOf (Invalidate node t) = invalidated node (routesOf t) }.

(** ** The in-process table *)

Record MemRouteTable := mkMem { routes : gmap string string }.
Definition NewMemRouteTable : MemRouteTable := mkMem ∅.

Definition memLookup (uid : string) (t : MemRouteTable) : option string := routes t !! uid.
Definition memBind (uid node : string) (t : MemRouteTable) : MemRouteTable := mkMem (<[uid := node]> (routes t)).
(** A missing entry reads as the empty string. *)
Definition memUnbind (uid node : string) (t : MemRouteTable) : MemRouteTable :=
  if decide (default ""%string (routes t !! uid) = node) then mkMem (delete uid (routes t)) else t.
(** The loop over the map deletes the entries of the node. *)
Definition memInvalidate (node : string) (t : MemRouteTable) : MemRouteTable :=
  mkMem (foldr (fun '(uid, nid) m => if decide (nid = node) then delete uid m else m) (routes t) (map_to_list (routes t))).
(** One event of [watchLoop]. *)
Definition memOnEvent (ev : ChangeEvent) (t : MemRouteTable) : MemRouteTable :=
  if decide (New ev = StateDown) then memInvalidate (NodeID ev) t else t.

#[export] Instance memTable : RouteTable MemRouteTable := {|
  routesOf := routes; Lookup := memLookup; Bind := memBind; Unbind := memUnbind; Invalidate := memInvalidate |}.

Lemma foldr_delete_lookup (node : string) (l : list (string * string)) (m : gmap string string) uid :
  foldr (fun '(uid, nid) m => if decide (nid = node) then delete uid m else m) m l !! uid =
    if decide ((uid, node) ∈ l) then None else m !! uid.
Proof.
  induction l as [|[u n] l IH]; cbn [foldr].
  { by rewrite decide_False by apply not_elem_of_nil. }
  destruct (decide (n = node)) as [->|Hn].
  - destruct (decide (u = uid)) as [->|Hu].
    + rewrite lookup_delete_eq. by rewrite decide_True by (apply elem_of_cons; by left).
    + rewrite lookup_delete_ne by done. rewrite IH. repeat case_decide; try done; set_solver.
  - rewrite IH. repeat case_decide; try done; set_solver.
Qed.

#[export] Instance memLaws : RouteLaws memTable.
Proof.
  split; intros; cbn; try done.
  - unfold memUnbind, unbound. destruct (routes t !! uid) as [n|] eqn:E; cbn.
    + case_decide as H1; case_decide as H2; naive_solver.
    + rewrite (decide_False (P := None = Some node)) by done. case_decide; [|done]. cbn. by apply delete_id.
  - unfold invalidated. apply map_eq. intros uid. rewrite foldr_delete_lookup.
    destruct (routes t !! uid) as [n|] eqn:E.
    + case_decide as Hin.
      * apply elem_of_map_to_list in Hin. simplify_eq. symmetry. apply map_lookup_filter_None. right. naive_solver.
      * symmetry. apply map_lookup_filter_Some. split; [done|]. cbn. intros ->. by apply Hin, elem_of_map_to_list.
    + rewrite decide_False by (rewrite elem_of_map_to_list; congruence). symmetry. apply map_lookup_filter_None. by left.
Qed.

(** ** The shared table *)

Definition routeKeyPrefix : string := "cluster:route:".
Definition routeNodePrefix : string := "cluster:route:node:".
Definition routeCacheTTL : Z := 3 * second.

Record cacheEntry := mkEntry { nodeID : string; expireAt : Z }.
Record RedisRouteTable := mkRedisTable { ttl : Z; cache : gmap string cacheEntry }.
Definition NewRedisRouteTable (t : Z) : RedisRouteTable :=
  mkRedisTable (if decide (t ≤ 0) then 24 * 3600 * second else t) ∅.

Inductive rterr := ErrNotRouted | ErrCall (e : option rerr).

Section Shared.
Context {R : Type} `{X : Redis R}.

Definition luaBind (now : Z) (key setKey uid node : string) (secs : Z) (prefix : string) : script R unit :=
  let* old := query (GET now key) in
  let* _ := match old with
            | Some o => if decide (o ≠ node) then cmdE (SREM now (prefix +:+ o) uid) else sret ()
            | None => sret ()
            end in
  let* _ := cmdE (SET now key node (Some (secs * second))) in
  let* _ := cmdE (SADD now setKey uid) in
  cmd (EXPIRE now setKey (secs * second)).

Definition luaUnbind (now : Z) (key setKey uid node : string) : script R bool :=
  let* cur := query (GET now key) in
  if decide (cur = Some node) then
    let* _ := cmd (DEL key) in
    let* _ := cmdE (SREM now setKey uid) in
    sret true
  else sret false.

(** The duration as whole seconds. *)
Definition secsOf (d : Z) : Z := Z.quot d second.

Definition rBind (w : net) (now : Z) (uid node : string) (t : RedisRouteTable) (r : R) : option rterr * R :=
  match call w (luaBind now (routeKeyPrefix +:+ uid) (routeNodePrefix +:+ node) uid node (secsOf (ttl t)) routeNodePrefix) r with
  | (Some (inr _), r) => (None, r)
  | (Some (inl e), r) => (Some (ErrCall (Some e)), r)
  | (None, r) => (Some (ErrCall None), r)
  end.

Definition evictCache (uid : string) (t : RedisRouteTable) : RedisRouteTable := mkRedisTable (ttl t) (delete uid (cache t)).

Definition rUnbind (w : net) (now : Z) (uid node : string) (t : RedisRouteTable) (r : R) : RedisRouteTable * R :=
  let '(_, r) := call w (luaUnbind now (routeKeyPrefix +:+ uid) (routeNodePrefix +:+ node) uid node) r in
  (evictCache uid t, r).

(** A miss: ask the server and remember the answer, stamped with the time read
    at the start of the call. *)
Definition rFetch (w : net) (now : Z) (uid : string) (t : RedisRouteTable) (r : R) : (rterr + string) * RedisRouteTable :=
  match fst (call w (query (GET now (routeKeyPrefix +:+ uid))) r) with
  | None => (inl (ErrCall None), t)
  | Some (inl e) => (inl (ErrCall (Some e)), t)
  | Some (inr None) => (inl ErrNotRouted, t)
  | Some (inr (Some n)) => (inr n, mkRedisTable (ttl t) (<[uid := mkEntry n (now + routeCacheTTL)]> (cache t)))
  end.
Definition rLookup (w : net) (now : Z) (uid : string) (t : RedisRouteTable) (r : R) : (rterr + string) * RedisRouteTable :=
  match cache t !! uid with
  | Some e => if decide (now < expireAt e) then (inr (nodeID e), t) else rFetch w now uid t r
  | None => rFetch w now uid t r
  end.

(** Invalidate reads the reverse set, then deletes the routes it names and the
    set itself in one pipeline; other clients may run in between. *)
Definition rInvalidateRead (w : net) (now : Z) (node : string) (r : R) : option (list string) :=
  match fst (call w (query (SMEMBERS now (routeNodePrefix +:+ node))) r) with
  | Some (inr uids) => Some uids
  | _ => None
  end.
Definition rInvalidateWrite (w : net) (node : string) (uids : list string) (t : RedisRouteTable) (r : R) : RedisRouteTable * R :=
  let r' := DEL (routeNodePrefix +:+ node) (foldl (fun r uid => DEL (routeKeyPrefix +:+ uid) r) r uids) in
  (mkRedisTable (ttl t) (filter (fun kv => nodeID kv.2 ≠ node) (cache t)),
   match w with Lost => r | _ => r' end).
Definition rInvalidate (w1 w2 : net) (now : Z) (node : string) (t : RedisRouteTable) (r : R) : RedisRouteTable * R :=
  match rInvalidateRead w1 now node r with
  | None => (t, r)
  | Some uids => rInvalidateWrite w2 node uids t r
  end.
Definition rOnEvent (w1 w2 : net) (now : Z) (ev : ChangeEvent) (t : RedisRouteTable) (r : R) : RedisRouteTable * R :=
  if decide (New ev = StateDown) then rInvalidate w1 w2 now (NodeID ev) t r else (t, r).

End Shared.
