(* ===== verification/RoutesThm.v ===== *)
(** * Theorems about the shared routing table

    The shared table refines the in-process one while no route outlives its
    lifetime; where lifetimes run out, or where a player's name looks like a
    key of the table, it does not. *)

From S2P Require Import Prelude GoStrings Redis Registry Routes.

Notation rk uid := (routeKeyPrefix +:+ uid).
Notation nk node := (routeNodePrefix +:+ node).

(** A player's key is not the key of a node. *)
Definition plain (uid : string) : Prop := ∀ node, rk uid ≠ nk node.

Lemma prefix_inj (p s t : string) : p +:+ s = p +:+ t → s = t.
Proof. induction p as [|c p IH]; [done|]. rewrite !string_cons_app. intros [= H]. by apply IH. Qed.

(** Which names are plain can be read off the name. *)
Lemma plain_spec uid : plain uid ↔ ∀ node, uid ≠ ("node:" +:+ node)%string.
Proof.
  unfold plain. assert (E : ∀ node, nk node = rk ("node:" +:+ node)) by done.
  split; intros H node Heq; apply (H node).
  - by rewrite E, Heq.
  - rewrite E in Heq. by eapply prefix_inj.
Qed.

(** ** Sets and their lifetimes *)

Definition setAt (now : Z) (k : string) (d : db) : gset string :=
  match live now k d with Some (RSet s) => s | _ => ∅ end.
Definition isSet (now : Z) (k : string) (d : db) : Prop :=
  live now k d = None ∨ ∃ s, live now k d = Some (RSet s).
Definition outlives (t : option Z) (t' : Z) : Prop := match t with Some t => t' ≤ t | None => True end.

Lemma live_lookup now k d d' : d' !! k = d !! k → live now k d' = live now k d.
Proof. unfold live. by intros ->. Qed.

Lemma live_deadline now k d v : live now k d = Some v → d !! k = Some (v, deadline now k d).
Proof.
  unfold live, deadline. destruct (d !! k) as [[v' [t|]]|]; [case_decide|..]; intros [= <-]; done.
Qed.

Lemma live_kept now k (v : rval) d d0 : live now k (<[k := (v, deadline now k d0)]> d) = Some v.
Proof.
  unfold live, deadline. rewrite lookup_insert_eq. destruct (d0 !! k) as [[v' [t|]]|]; [|done..].
  case_decide; [|done]. by rewrite decide_True.
Qed.

(** Removing a member: other keys stay, the set shrinks, its lifetime stays. *)
Lemma dSRem_spec now k u d : isSet now k d → ∃ d', dSRem now k u d = inr d' ∧
  (∀ k', k' ≠ k → d' !! k' = d !! k') ∧ isSet now k d' ∧ setAt now k d' = setAt now k d ∖ {[u]} ∧
  (live now k d' ≠ None → deadline now k d' = deadline now k d).
Proof.
  unfold isSet, setAt, dSRem. intros [E|[s E]]; rewrite E.
  { exists d. split_and!; [done|done|by left|rewrite E; set_solver|done]. }
  case_decide as He.
  - exists (delete k d). split_and!; [done|intros; by rewrite lookup_delete_ne|..].
    + left. unfold live. by rewrite lookup_delete_eq.
    + unfold live. rewrite lookup_delete_eq. done.
    + unfold live. by rewrite lookup_delete_eq.
  - exists (<[k := (RSet (s ∖ {[u]}), deadline now k d)]> d).
    split_and!; [done|intros; by rewrite lookup_insert_ne|..].
    + right. eexists. apply live_kept.
    + by rewrite live_kept.
    + intros _. unfold deadline at 1. rewrite lookup_insert_eq. unfold deadline.
      destruct (d !! k) as [[v [t|]]|]; [|done..]. case_decide; [|done]. by rewrite decide_True.
Qed.

Lemma dSAdd_spec now k u d : isSet now k d → ∃ d', dSAdd now k u d = inr d' ∧
  d' = <[k := (RSet ({[u]} ∪ setAt now k d), deadline now k d)]> d.
Proof.
  unfold isSet, setAt, dSAdd, dSet_. intros [E|[s E]]; rewrite E; eexists; (split; [reflexivity|done]).
Qed.

Section Shared.
Context {R : Type} `{X : Redis R} {L : RedisLaws X}.

(** ** Scripts on the dataset *)

Lemma cmdE_spec (f : R → rerr + R) (g : db → rerr + db) r d' :
  dataset <$> f r = g (dataset r) → g (dataset r) = inr d' →
  ∃ r', cmdE f r = (inr (), r') ∧ dataset r' = d'.
Proof. unfold cmdE. intros H Hg. rewrite Hg in H. destruct (f r) as [e|r']; cbn in H; [done|]. injection H as <-. eauto. Qed.

(** ** The invariant *)

(** The route of a player at a time. *)
Definition routeAt (now : Z) (d : db) (uid : string) : option string :=
  match live now (rk uid) d with Some (RStr n) => Some n | _ => None end.

(** Players' keys hold nodes, nodes' keys hold sets of players; the two agree,
    and a reverse set lives at least as long as the routes it names; no route
    lives longer than [T] from now. *)
Record TInv (T now : Z) (d : db) : Prop := {
  ti_route uid : plain uid → live now (rk uid) d = None ∨ ∃ n, live now (rk uid) d = Some (RStr n);
  ti_set node : isSet now (nk node) d;
  ti_agree uid node : plain uid → routeAt now d uid = Some node ↔ uid ∈ setAt now (nk node) d;
  ti_plain uid node : uid ∈ setAt now (nk node) d → plain uid;
  ti_life uid node : plain uid → routeAt now d uid = Some node →
    ∃ t, deadline now (rk uid) d = Some t ∧ t ≤ now + T ∧ outlives (deadline now (nk node) d) t }.

Lemma TInv_empty T now : TInv T now ∅.
Proof.
  assert (∀ k, live now k ∅ = None) as E by (intros; unfold live; by rewrite lookup_empty).
  split; intros; unfold isSet, routeAt, setAt in *; rewrite ?E in *; try by left.
  - split; [done|]. by intros ?%not_elem_of_empty.
  - by apply not_elem_of_empty in H.
  - done.
Qed.

(** Time passes without a route running out. *)
Definition kept (now now' : Z) (d : db) : Prop :=
  now ≤ now' ∧ ∀ uid, plain uid → live now' (rk uid) d = live now (rk uid) d.

Lemma live_later now now' k d v : now ≤ now' → live now' k d = Some v → live now k d = Some v ∧ deadline now' k d = deadline now k d.
Proof.
  unfold live, deadline. destruct (d !! k) as [[v' [t|]]|]; [|done..]. intros. repeat case_decide; try lia; done.
Qed.

Lemma TInv_later T now now' d : TInv T now d → kept now now' d → TInv T now' d.
Proof.
  intros [Hr Hs Ha Hp Hl] [Hle Hk].
  assert (Er : ∀ uid, plain uid → routeAt now' d uid = routeAt now d uid).
  { intros uid Hu. unfold routeAt. by rewrite Hk. }
  assert (Es : ∀ node uid, uid ∈ setAt now (nk node) d → setAt now' (nk node) d = setAt now (nk node) d).
  { intros node uid Hin. assert (Hpu : plain uid) by by eapply Hp.
    apply Ha in Hin as Hroute; [|done]. destruct (Hl uid node Hpu Hroute) as (t & Ht & _ & Ho).
    assert (now' < t).
    { pose proof (Hk uid Hpu) as E. unfold routeAt in Hroute. destruct (live now (rk uid) d) as [v|] eqn:El; [|done].
      unfold live in E. apply live_deadline in El as Hd. rewrite Hd, Ht in E. by case_decide. }
    unfold setAt in *. destruct (live now (nk node) d) as [v|] eqn:El; [|set_solver].
    apply live_deadline in El as Hd. unfold live. rewrite Hd. unfold outlives in Ho.
    destruct (deadline now (nk node) d); [|done]. by rewrite decide_True by lia. }
  assert (Es' : ∀ node uid, uid ∈ setAt now' (nk node) d → uid ∈ setAt now (nk node) d).
  { intros node uid. unfold setAt. destruct (live now' (nk node) d) as [v|] eqn:El; [|set_solver].
    by apply (live_later now) in El as [-> _]. }
  split.
  - intros uid Hu. rewrite Hk by done. by apply Hr.
  - intros node. destruct (Hs node) as [E|[s E]]; unfold isSet.
    + left. unfold live in *. destruct (d !! nk node) as [[v [t|]]|]; [|done..]. repeat case_decide; try lia; done.
    + unfold live in *. destruct (d !! nk node) as [[v [t|]]|]; [|naive_solver..]. case_decide; [|done].
      case_decide; [right|by left]. naive_solver.
  - intros uid node Hu. rewrite Er, Ha by done. split; [intros Hin; by rewrite (Es node uid Hin)|apply Es'].
  - intros uid node Hin. apply Es' in Hin. by eapply Hp.
  - intros uid node Hu Hroute. rewrite Er in Hroute by done. destruct (Hl uid node Hu Hroute) as (t & Ht & Hb & Ho).
    assert (Hin : uid ∈ setAt now (nk node) d) by by apply Ha.
    assert (live now' (rk uid) d ≠ None) as Hlive.
    { rewrite Hk by done. unfold routeAt in Hroute. by destruct (live now (rk uid) d). }
    destruct (live now' (rk uid) d) as [v|] eqn:El; [|done].
    exists t. split; [|split; [lia|]].
    + rewrite <- Ht. by eapply live_later.
    + assert (setAt now' (nk node) d ≠ ∅) as Hne by (rewrite (Es node uid Hin); set_solver).
      unfold setAt in Hne. destruct (live now' (nk node) d) as [v'|] eqn:El'; [|done].
      by apply (live_later now) in El' as [_ ->].
Qed.
(** ** Bind *)

(** What a bind may do to the keyspace. *)
Record bound (T now : Z) (uid node : string) (d d' : db) : Prop := {
  bo_other u : plain u → u ≠ uid → d' !! rk u = d !! rk u;
  bo_route : d' !! rk uid = Some (RStr node, Some (now + T));
  bo_set : d' !! nk node = Some (RSet ({[uid]} ∪ setAt now (nk node) d), Some (now + T));
  bo_rest m : m ≠ node → isSet now (nk m) d' ∧ setAt now (nk m) d' = setAt now (nk m) d ∖ {[uid]} ∧
                (live now (nk m) d' ≠ None → deadline now (nk m) d' = deadline now (nk m) d) }.

Lemma routeAt_lookup now d d' u : d' !! rk u = d !! rk u → routeAt now d' u = routeAt now d u.
Proof. intros H. unfold routeAt. by rewrite (live_lookup _ _ _ _ H). Qed.

Lemma bound_route T now uid node d d' : 0 < T → bound T now uid node d d' →
  ∀ u, plain u → routeAt now d' u = if decide (u = uid) then Some node else routeAt now d u.
Proof.
  intros HT [Ho Hr _ _] u Hu. case_decide as E; [subst u|by apply routeAt_lookup, Ho].
  unfold routeAt, live. rewrite Hr. by rewrite decide_True by lia.
Qed.

Lemma bound_set T now uid node d d' : 0 < T → bound T now uid node d d' →
  ∀ m, setAt now (nk m) d' = if decide (m = node) then {[uid]} ∪ setAt now (nk m) d else setAt now (nk m) d ∖ {[uid]}.
Proof.
  intros HT [_ _ Hs Hm] m. case_decide as E; [subst m|by apply Hm].
  unfold setAt at 1, live. rewrite Hs. by rewrite decide_True by lia.
Qed.

Lemma setAt_live now k d u : u ∈ setAt now k d → live now k d ≠ None.
Proof. unfold setAt. destruct (live now k d); [done|set_solver]. Qed.

Lemma bound_TInv T now uid node d d' : 0 < T → plain uid → TInv T now d → bound T now uid node d d' → TInv T now d'.
Proof.
  intros HT Hpl [Hr Hs Ha Hp Hl] Hb. pose proof (bound_route _ _ _ _ _ _ HT Hb) as Er. pose proof (bound_set _ _ _ _ _ _ HT Hb) as Es.
  destruct Hb as [Ho Hrt Hst Hm]. split.
  - intros u Hu. destruct (decide (u = uid)) as [->|Hne].
    + right. exists node. unfold live. rewrite Hrt. by rewrite decide_True by lia.
    + rewrite (live_lookup _ _ _ _ (Ho u Hu Hne)). by apply Hr.
  - intros m. destruct (decide (m = node)) as [->|Hne]; [|by apply Hm].
    right. eexists. unfold live. rewrite Hst. by rewrite decide_True by lia.
  - intros u m Hu. rewrite Er, Es by done. case_decide as Eu; [subst u|].
    + case_decide; set_solver.
    + rewrite Ha by done. case_decide; set_solver.
  - intros u m. rewrite Es. case_decide; intros Hin.
    + apply elem_of_union in Hin as [->%elem_of_singleton|Hin]; [done|by eapply Hp].
    + apply elem_of_difference in Hin as [Hin _]. by eapply Hp.
  - intros u m Hu. rewrite Er by done. case_decide as Eu; [subst u|].
    + intros [= <-]. exists (now + T). unfold deadline. rewrite Hrt, Hst.
      rewrite !decide_True by lia. split_and!; [done|lia|cbn; lia].
    + intros Hroute. destruct (Hl u m Hu Hroute) as (t & Ht & Hle & Hout). exists t.
      split; [|split; [done|]].
      { unfold deadline in *. by rewrite (Ho u Hu Eu). }
      destruct (decide (m = node)) as [->|Hne].
      { unfold deadline. rewrite Hst. rewrite decide_True by lia. cbn. lia. }
      destruct (Hm m Hne) as (_ & Esm & Hd). rewrite Hd; [done|].
      apply (setAt_live _ _ _ u). rewrite Esm. apply elem_of_difference. split; [by apply Ha|set_solver].
Qed.

Lemma nk_inj m node : nk m = nk node → m = node.
Proof. apply prefix_inj. Qed.
Lemma rk_inj u v : rk u = rk v → u = v.
Proof. apply prefix_inj. Qed.

Lemma dGet_route T now uid d : plain uid → TInv T now d → dGet now (rk uid) d = inr (routeAt now d uid).
Proof.
  intros Hu Hi. unfold dGet, routeAt. destruct (ti_route _ _ _ Hi uid Hu) as [->|[n ->]]; done.
Qed.

(** The first step of the script: the old owner, if there is another one,
    forgets the player. *)
Definition forget (now : Z) (uid node : string) (old : option string) : script R unit :=
  match old with
  | Some o => if decide (o ≠ node) then cmdE (SREM now (routeNodePrefix +:+ o) uid) else sret ()
  | None => sret ()
  end.

Record forgotten (now : Z) (uid node : string) (d d1 : db) : Prop := {
  fo_keys k : (∀ m, k ≠ nk m) → d1 !! k = d !! k;
  fo_node : d1 !! nk node = d !! nk node;
  fo_rest m : m ≠ node → isSet now (nk m) d1 ∧ setAt now (nk m) d1 = setAt now (nk m) d ∖ {[uid]} ∧
                (live now (nk m) d1 ≠ None → deadline now (nk m) d1 = deadline now (nk m) d) }.

(** Only the owner's set names a player. *)
Lemma not_owner T now uid m d : plain uid → TInv T now d → routeAt now d uid ≠ Some m →
  setAt now (nk m) d = setAt now (nk m) d ∖ {[uid]}.
Proof.
  intros Hu Hi Hne. apply leibniz_equiv. intros u. split; [|set_solver]. intros Hin. apply elem_of_difference.
  split; [done|]. intros ->%elem_of_singleton. apply (ti_agree _ _ _ Hi) in Hin; done.
Qed.

Lemma unforgotten T now uid node d : plain uid → TInv T now d →
  routeAt now d uid = None ∨ routeAt now d uid = Some node → forgotten now uid node d d.
Proof.
  intros Hu Hi Ho. split; [done|done|]. intros m Hm. split; [apply Hi|]. split; [|done].
  eapply not_owner; [done..|]. destruct Ho; congruence.
Qed.

Lemma forget_spec T now uid node r : plain uid → TInv T now (dataset r) → ∃ r1,
  forget now uid node (routeAt now (dataset r) uid) r = (inr (), r1) ∧ forgotten now uid node (dataset r) (dataset r1).
Proof.
  intros Hu Hi. unfold forget. destruct (routeAt now (dataset r) uid) as [o|] eqn:Eo; cycle 1.
  { exists r. split; [done|]. apply (unforgotten T); auto. }
  case_decide as Hne; cycle 1.
  { subst o. exists r. split; [done|]. apply (unforgotten T); auto. }
  destruct (dSRem_spec now (nk o) uid (dataset r)) as (d1 & Ed & Hk & His & Hset & Hdl); [apply Hi|].
  destruct (cmdE_spec _ _ _ _ (srem_law now (nk o) uid r) Ed) as (r1 & E1 & <-). exists r1. split; [done|].
  split; [by intros; apply Hk|apply Hk; by intros ->%nk_inj|]. intros m Hm.
  destruct (decide (m = o)) as [->|Hmo]; [done|].
  assert (Hkm : dataset r1 !! nk m = dataset r !! nk m) by (apply Hk; by intros ->%nk_inj).
  unfold isSet, setAt, deadline. rewrite (live_lookup _ _ _ _ Hkm), Hkm. split; [apply Hi|]. split; [|done].
  apply (not_owner T); [done..|]. congruence.
Qed.

Lemma luaBind_spec T now uid node secs r : T = secs * second → 0 < secs → plain uid → TInv T now (dataset r) →
  ∃ r', luaBind now (rk uid) (nk node) uid node secs routeNodePrefix r = (inr (), r') ∧
    bound T now uid node (dataset r) (dataset r').
Proof.
  intros HT Hs Hu Hi. assert (0 < T) by (unfold second in HT; lia).
  unfold luaBind, sbind at 1, query. rewrite get_law, (dGet_route T) by done.
  destruct (forget_spec T now uid node r Hu Hi) as (r1 & E1 & [Hk1 Hn1 Hm1]).
  fold (forget now uid node (routeAt now (dataset r) uid)). unfold sbind at 1. rewrite E1. unfold sbind at 1.
  assert (Ed2 : dSet now (rk uid) node (Some (secs * second)) (dataset r1)
                = inr (<[rk uid := (RStr node, Some (now + T))]> (dataset r1))).
  { unfold dSet. rewrite decide_True by lia. by rewrite HT. }
  destruct (cmdE_spec _ _ _ _ (set_law now (rk uid) node (Some (secs * second)) r1) Ed2) as (r2 & E2 & Hd2).
  rewrite E2. unfold sbind at 1.
  assert (Hn2 : dataset r2 !! nk node = dataset r !! nk node).
  { rewrite Hd2. rewrite lookup_insert_ne by (intros Heq; by apply (Hu node)). done. }
  destruct (dSAdd_spec now (nk node) uid (dataset r2)) as (d3 & Ed3 & Hd3).
  { unfold isSet. rewrite (live_lookup _ _ _ _ Hn2). apply Hi. }
  destruct (cmdE_spec _ _ _ _ (sadd_law now (nk node) uid r2) Ed3) as (r3 & E3 & Hr3). rewrite E3. unfold cmd.
  eexists. split; [reflexivity|]. rewrite expire_law. unfold dExpire. rewrite Hr3, Hd3, live_kept.
  rewrite decide_True by lia. rewrite <- HT, insert_insert_eq.
  replace (setAt now (nk node) (dataset r2)) with (setAt now (nk node) (dataset r))
    by (unfold setAt; by rewrite (live_lookup _ _ _ _ Hn2)).
  split.
  - intros u Hpu Hne. rewrite lookup_insert_ne by (intros Heq; by apply (Hpu node)).
    rewrite Hd2, lookup_insert_ne by by intros ->%rk_inj. by apply Hk1.
  - rewrite lookup_insert_ne by (intros Heq; by apply (Hu node)). rewrite Hd2. apply lookup_insert_eq.
  - apply lookup_insert_eq.
  - intros m Hm. set (d4 := <[nk node := _]> _).
    assert (Hkm : d4 !! nk m = dataset r1 !! nk m).
    { unfold d4. rewrite lookup_insert_ne by by intros ->%nk_inj.
      rewrite Hd2, lookup_insert_ne; [done|]. intros Heq. by apply (Hu m). }
    unfold isSet, setAt, deadline. rewrite (live_lookup _ _ _ _ Hkm), Hkm. by apply Hm1.
Qed.

(** ** Unbind and Invalidate *)

(** The players of [S] lose their route, nothing else changes. *)
Record removed (now : Z) (S : gset string) (d d' : db) : Prop := {
  re_other u : plain u → u ∉ S → d' !! rk u = d !! rk u;
  re_gone u : u ∈ S → d' !! rk u = None;
  re_sets m : isSet now (nk m) d' ∧ setAt now (nk m) d' = setAt now (nk m) d ∖ S ∧
                (live now (nk m) d' ≠ None → deadline now (nk m) d' = deadline now (nk m) d) }.

Lemma removed_route now S d d' : removed now S d d' →
  ∀ u, plain u → routeAt now d' u = if decide (u ∈ S) then None else routeAt now d u.
Proof.
  intros [Ho Hg _] u Hu. case_decide; [|by apply routeAt_lookup, Ho].
  unfold routeAt, live. by rewrite Hg.
Qed.

Lemma removed_TInv T now S d d' : TInv T now d → removed now S d d' → TInv T now d'.
Proof.
  intros [Hr Hs Ha Hp Hl] Hre. pose proof (removed_route _ _ _ _ Hre) as Er. destruct Hre as [Ho Hg Hm]. split.
  - intros u Hu. destruct (decide (u ∈ S)) as [Hin|Hin].
    + left. unfold live. by rewrite Hg.
    + rewrite (live_lookup _ _ _ _ (Ho u Hu Hin)). by apply Hr.
  - intros m. apply Hm.
  - intros u m Hu. destruct (Hm m) as (_ & -> & _). rewrite Er by done. case_decide; [set_solver|].
    rewrite Ha by done. set_solver.
  - intros u m. destruct (Hm m) as (_ & -> & _). intros [Hin _]%elem_of_difference. by eapply Hp.
  - intros u m Hu. rewrite Er by done. case_decide as Hin; [done|]. intros Hroute.
    destruct (Hl u m Hu Hroute) as (t & Ht & Hle & Hout). exists t. split; [|split; [done|]].
    { unfold deadline in *. by rewrite (Ho u Hu Hin). }
    destruct (Hm m) as (_ & Esm & Hd). rewrite Hd; [done|].
    apply (setAt_live _ _ _ u). rewrite Esm. apply elem_of_difference. split; [by apply Ha|done].
Qed.

Lemma luaUnbind_spec T now uid node r : plain uid → TInv T now (dataset r) → ∃ b r',
  luaUnbind now (rk uid) (nk node) uid node r = (inr b, r') ∧
  removed now (if decide (routeAt now (dataset r) uid = Some node) then {[uid]} else ∅) (dataset r) (dataset r').
Proof.
  intros Hu Hi. unfold luaUnbind, sbind at 1, query. rewrite get_law, (dGet_route T) by done.
  case_decide as Hcur; cycle 1.
  { eexists _, r. split; [reflexivity|]. split; [done|set_solver|]. intros m. split; [apply Hi|]. split; [set_solver|done]. }
  unfold sbind, cmd. set (r1 := DEL (rk uid) r).
  assert (Hd1 : dataset r1 = delete (rk uid) (dataset r)) by apply del_law.
  assert (Hn1 : ∀ m, dataset r1 !! nk m = dataset r !! nk m).
  { intros m. rewrite Hd1, lookup_delete_ne; [done|]. apply Hu. }
  destruct (dSRem_spec now (nk node) uid (dataset r1)) as (d2 & Ed & Hk & His & Hset & Hdl).
  { unfold isSet. rewrite (live_lookup _ _ _ _ (Hn1 node)). apply Hi. }
  destruct (cmdE_spec _ _ _ _ (srem_law now (nk node) uid r1) Ed) as (r2 & E2 & <-). rewrite E2.
  eexists _, r2. split; [reflexivity|]. split.
  - intros u Hpu Hne. rewrite Hk by (intros Heq; by apply (Hpu node)). rewrite Hd1, lookup_delete_ne; [done|].
    intros Heq%rk_inj. set_solver.
  - intros u ->%elem_of_singleton. rewrite Hk by (intros Heq; by apply (Hu node)). rewrite Hd1. apply lookup_delete_eq.
  - intros m. destruct (decide (m = node)) as [->|Hm].
    + split; [done|]. split.
      * rewrite Hset. unfold setAt. by rewrite (live_lookup _ _ _ _ (Hn1 node)).
      * intros Hl. rewrite (Hdl Hl). unfold deadline. by rewrite (Hn1 node).
    + assert (Hkm : dataset r2 !! nk m = dataset r !! nk m) by (rewrite Hk; [done|by intros ->%nk_inj]).
      unfold isSet, setAt, deadline. rewrite (live_lookup _ _ _ _ Hkm), Hkm. split; [apply Hi|]. split; [|done].
      apply (not_owner T); [done..|]. congruence.
Qed.

Lemma foldl_DEL uids r k :
  dataset (foldl (fun r uid => DEL (rk uid) r) r uids) !! k = if decide (k ∈ (fun u => rk u) <$> uids) then None else dataset r !! k.
Proof.
  revert r. induction uids as [|u uids IH]; intros r; cbn [foldl].
  { rewrite fmap_nil. by rewrite decide_False by apply not_elem_of_nil. }
  rewrite IH, del_law, fmap_cons. destruct (decide (k = rk u)) as [->|Hne].
  - rewrite lookup_delete_eq. rewrite (decide_True (P := rk u ∈ rk u :: _)) by (apply elem_of_cons; by left). by case_decide.
  - rewrite lookup_delete_ne by done. repeat case_decide; try done; set_solver.
Qed.

Lemma rInvalidate_spec T now node t r : TInv T now (dataset r) → ∃ t' r',
  rInvalidate Done Done now node t r = (t', r') ∧
  removed now (setAt now (nk node) (dataset r)) (dataset r) (dataset r') ∧
  (∀ uid e, cache t' !! uid = Some e ↔ cache t !! uid = Some e ∧ nodeID e ≠ node).
Proof.
  intros Hi. unfold rInvalidate, rInvalidateRead, call, query. cbn [fst].
  pose proof (smembers_law now (nk node) r) as Hsm.
  assert (Es : dSet_ now (nk node) (dataset r) = inr (setAt now (nk node) (dataset r))).
  { unfold dSet_, setAt. by destruct (ti_set _ _ _ Hi node) as [->|[s ->]]. }
  rewrite Es in Hsm. destruct (SMEMBERS now (nk node) r) as [|uids]; [done|]. destruct Hsm as [_ Hl].
  eexists _, _. split; [reflexivity|]. split; cycle 1.
  { intros uid e. cbn. rewrite map_lookup_filter_Some. done. }
  assert (Hin : ∀ u, u ∈ uids ↔ u ∈ setAt now (nk node) (dataset r)) by (intros; rewrite <- Hl; set_solver).
  set (r1 := foldl _ r uids).
  assert (Hpl : ∀ u, u ∈ uids → plain u) by (intros u ?%Hin; by eapply (ti_plain _ _ _ Hi)).
  assert (Hkey : ∀ k, dataset (DEL (nk node) r1) !! k =
            if decide (k = nk node) then None else if decide (k ∈ (fun u => rk u) <$> uids) then None else dataset r !! k).
  { intros k. rewrite del_law. case_decide as E; [subst; apply lookup_delete_eq|].
    rewrite lookup_delete_ne by done. apply foldl_DEL. }
  split.
  - intros u Hu Hnot. rewrite Hkey. rewrite decide_False by apply Hu. rewrite decide_False; [done|].
    intros (v & Heq & Hv)%list_elem_of_fmap. apply rk_inj in Heq as ->. by apply Hnot, Hin.
  - intros u Hu. rewrite Hkey. case_decide; [done|]. rewrite decide_True; [done|]. apply list_elem_of_fmap.
    exists u. split; [done|by apply Hin].
  - intros m. destruct (decide (m = node)) as [->|Hm].
    { unfold isSet, setAt, deadline. unfold live at 1 2 3. rewrite !Hkey, !decide_True by done.
      split; [by left|]. split; [set_solver|]. unfold live. by rewrite Hkey, decide_True. }
    assert (Hkm : dataset (DEL (nk node) r1) !! nk m = dataset r !! nk m).
    { rewrite Hkey. rewrite decide_False by by intros ->%nk_inj. rewrite decide_False; [done|].
      intros (v & Heq & Hv)%list_elem_of_fmap. by apply (Hpl v Hv m). }
    unfold isSet, setAt at 1, deadline. rewrite (live_lookup _ _ _ _ Hkm), Hkm. split; [apply Hi|]. split; [|done].
    fold (setAt now (nk m) (dataset r)). apply leibniz_equiv. intros u. split; [|set_solver]. intros Hu.
    apply elem_of_difference. split; [done|]. intros Hu'. pose proof (ti_plain _ _ _ Hi _ _ Hu) as Hpu.
    apply (ti_agree _ _ _ Hi) in Hu, Hu'; [|done..]. congruence.
Qed.

(** ** Refinement *)

Inductive rop := OBind (uid node : string) | OUnbind (uid node : string) | OInvalidate (node : string) | OTick (now : Z).

(** The shared table, with a working network; a bind that fails stops the run. *)
Fixpoint sharedRun (t : RedisRouteTable) (ops : list rop) (now : Z) (r : R) : option (Z * R) :=
  match ops with
  | [] => Some (now, r)
  | OBind uid node :: ops => match rBind Done now uid node t r with
                             | (None, r) => sharedRun t ops now r | (Some _, _) => None end
  | OUnbind uid node :: ops => sharedRun t ops now (snd (rUnbind Done now uid node t r))
  | OInvalidate node :: ops => sharedRun t ops now (snd (rInvalidate Done Done now node t r))
  | OTick now' :: ops => sharedRun t ops now' r
  end.

(** Players have plain names and no route outlives its lifetime during the
    run. *)
Fixpoint fresh (t : RedisRouteTable) (ops : list rop) (now : Z) (r : R) : Prop :=
  match ops with
  | [] => True
  | OBind uid node :: ops => plain uid ∧ fresh t ops now (snd (rBind Done now uid node t r))
  | OUnbind uid node :: ops => plain uid ∧ fresh t ops now (snd (rUnbind Done now uid node t r))
  | OInvalidate node :: ops => fresh t ops now (snd (rInvalidate Done Done now node t r))
  | OTick now' :: ops => kept now now' (dataset r) ∧ fresh t ops now' r
  end.

Section Spec.
Context {M : Type} `{Y : RouteTable M} {YL : RouteLaws Y}.

Fixpoint tableRun (ops : list rop) (m : M) : M :=
  match ops with
  | [] => m
  | OBind uid node :: ops => tableRun ops (Bind uid node m)
  | OUnbind uid node :: ops => tableRun ops (Unbind uid node m)
  | OInvalidate node :: ops => tableRun ops (Invalidate node m)
  | OTick _ :: ops => tableRun ops m
  end.

(** The shared table stands for the same routes. *)
Definition agrees (T now : Z) (d : db) (m : M) : Prop :=
  TInv T now d ∧ ∀ uid, plain uid → routeAt now d uid = routesOf m !! uid.

Lemma bind_agrees T now uid node t r m : T = secsOf (ttl t) * second → 0 < secsOf (ttl t) → plain uid →
  agrees T now (dataset r) m → ∃ r', rBind Done now uid node t r = (None, r') ∧ agrees T now (dataset r') (Bind uid node m).
Proof.
  intros HT Hs Hu [Hi Ha]. assert (0 < T) by (unfold second in HT; lia).
  destruct (luaBind_spec T now uid node _ r HT Hs Hu Hi) as (r' & E & Hb). unfold rBind, call. rewrite E.
  exists r'. split; [done|]. split; [by eapply bound_TInv|]. intros u Hpu.
  rewrite (bound_route _ _ _ _ _ _ H Hb u Hpu), bind_law. case_decide as Eu.
  - subst. by rewrite lookup_insert_eq.
  - rewrite lookup_insert_ne by done. by apply Ha.
Qed.

Lemma unbind_agrees T now uid node t r m : plain uid → agrees T now (dataset r) m →
  agrees T now (dataset (snd (rUnbind Done now uid node t r))) (Unbind uid node m).
Proof.
  intros Hu [Hi Ha]. destruct (luaUnbind_spec T now uid node r Hu Hi) as (b & r' & E & Hre).
  unfold rUnbind, call. rewrite E. cbn [snd]. split; [by eapply removed_TInv|]. intros u Hpu.
  rewrite (removed_route _ _ _ _ Hre u Hpu), unbind_law, (Ha u Hpu). clear Hre. unfold unbound.
  destruct (decide (routesOf m !! uid = Some node)) as [Hc|Hc].
  - rewrite (decide_True (P := routeAt now (dataset r) uid = Some node)) by by rewrite (Ha uid Hu).
    case_decide as Hin; [apply elem_of_singleton in Hin as ->; by rewrite lookup_delete_eq|].
    rewrite lookup_delete_ne; [done|]. set_solver.
  - rewrite (decide_False (P := routeAt now (dataset r) uid = Some node)) by by rewrite (Ha uid Hu).
    by rewrite decide_False by apply not_elem_of_empty.
Qed.

Lemma invalidate_agrees T now node t r m : agrees T now (dataset r) m →
  agrees T now (dataset (snd (rInvalidate Done Done now node t r))) (Invalidate node m).
Proof.
  intros [Hi Ha]. destruct (rInvalidate_spec T now node t r Hi) as (t' & r' & E & Hre & _). rewrite E. cbn [snd].
  split; [by eapply removed_TInv|]. intros u Hpu. rewrite (removed_route _ _ _ _ Hre u Hpu), invalidate_law.
  unfold invalidated. case_decide as Hin.
  - apply (ti_agree _ _ _ Hi) in Hin; [|done]. rewrite Ha in Hin by done. symmetry. apply map_lookup_filter_None.
    right. cbn. naive_solver.
  - rewrite Ha by done. destruct (routesOf m !! u) as [n|] eqn:Em; cycle 1.
    { symmetry. apply map_lookup_filter_None. by left. }
    symmetry. apply map_lookup_filter_Some. split; [done|]. cbn. intros ->. apply Hin.
    apply (ti_agree _ _ _ Hi); [done|]. by rewrite Ha.
Qed.

Lemma run_agrees T t ops now r m : T = secsOf (ttl t) * second → 0 < secsOf (ttl t) →
  agrees T now (dataset r) m → fresh t ops now r →
  ∃ now' r', sharedRun t ops now r = Some (now', r') ∧ agrees T now' (dataset r') (tableRun ops m).
Proof.
  intros HT Hs. revert now r m. induction ops as [|o ops IH]; intros now r m Ha Hf; [by eauto|].
  destruct o as [uid node|uid node|node|now']; cbn [sharedRun tableRun fresh] in *.
  - destruct Hf as [Hu Hf]. destruct (bind_agrees T now uid node t r m HT Hs Hu Ha) as (r' & E & Ha').
    rewrite E in Hf |- *. by apply IH.
  - destruct Hf as [Hu Hf]. apply IH; [|done]. by apply unbind_agrees.
  - apply IH; [|done]. by apply invalidate_agrees.
  - destruct Hf as [Hk Hf]. apply IH; [|done]. destruct Ha as [Hi Ha]. split; [by eapply TInv_later|].
    intros u Hu. rewrite <- Ha by done. unfold routeAt. by rewrite (proj2 Hk u Hu).
Qed.

(** C32. The shared table refines any lawful table, for players whose uid does
    not begin with [node:] (such a uid shares its key with a node:
    [key_collision]) and a route lifetime of at least one second (a shorter one
    makes every bind fail: [short_ttl_refused]): from an empty server that
    answers, after any binds, unbinds, invalidations and passing time in which
    no route outlives its lifetime, every bind has succeeded and a lookup that
    misses the cache answers what the abstract table answers. *)
Theorem shared_refines t ops r m :
  second ≤ ttl t → dataset r = ∅ → routesOf m = ∅ → fresh t ops 0 r →
  ∃ now r', sharedRun t ops 0 r = Some (now, r') ∧
    ∀ uid, plain uid → cache t !! uid = None →
      fst (rLookup Done now uid t r') =
        match Lookup uid (tableRun ops m) with Some n => inr n | None => inl ErrNotRouted end.
Proof.
  intros Ht Hr Hm Hf.
  assert (Hs : 0 < secsOf (ttl t)).
  { unfold secsOf, second in *. rewrite Z.quot_div_nonneg by lia. apply Z.div_str_pos. lia. }
  destruct (run_agrees _ t ops 0 r m eq_refl Hs) as (now & r' & E & Hi & Ha); [|done|].
  { split; [rewrite Hr; apply TInv_empty|]. intros u Hu. rewrite Hr, Hm, lookup_empty.
    unfold routeAt, live. by rewrite lookup_empty. }
  exists now, r'. split; [done|]. intros uid Hu Hc. unfold rLookup, rFetch, call, query. rewrite Hc. cbn [fst].
  rewrite get_law, (dGet_route _ _ _ _ Hu Hi), Ha, lookup_law by done. by destruct (routesOf _ !! uid).
Qed.
End Spec.

(** ** The cache *)

(** [hist] is the server at each time.  Every entry of the cache was read
    [routeCacheTTL] before it expires, and none is from the future. *)
Definition cached (hist : Z → R) (now : Z) (t : RedisRouteTable) : Prop :=
  ∀ uid e, cache t !! uid = Some e →
    expireAt e ≤ now + routeCacheTTL ∧
    GET (expireAt e - routeCacheTTL) (rk uid) (hist (expireAt e - routeCacheTTL)) = inr (Some (nodeID e)).

(** The cache is never more than three seconds behind: whatever a lookup
    answers, hit or miss and whatever the network does, was the player's route
    on the server at some moment of the last three seconds. *)
Theorem lookup_recent hist w now uid t n t' :
  cached hist now t → rLookup w now uid t (hist now) = (inr n, t') →
  (∃ t0, now - routeCacheTTL < t0 ≤ now ∧ GET t0 (rk uid) (hist t0) = inr (Some n)) ∧
  ∀ later, now ≤ later → cached hist later t'.
Proof.
  intros Hc. unfold rLookup.
  assert (Hfetch : rFetch w now uid t (hist now) = (inr n, t') →
    (∃ t0, now - routeCacheTTL < t0 ≤ now ∧ GET t0 (rk uid) (hist t0) = inr (Some n)) ∧
    ∀ later, now ≤ later → cached hist later t').
  { unfold rFetch. destruct (fst (call w (query (GET now (rk uid))) (hist now))) as [[e|[m|]]|] eqn:E; try done.
    intros [= <- <-]. assert (Hg : GET now (rk uid) (hist now) = inr (Some m)).
    { destruct w; cbn in E; try done. by injection E. }
    split; [exists now; unfold routeCacheTTL, second; split; [lia|done]|].
    intros later Hl u e. cbn. intros [[<- <-]|[Hne He]]%lookup_insert_Some.
    - cbn. replace (now + routeCacheTTL - routeCacheTTL) with now by lia. split; [lia|done].
    - destruct (Hc u e He). split; [lia|done]. }
  destruct (cache t !! uid) as [e|] eqn:E; [|done]. case_decide as Hlt; [|done]. intros [= <- <-].
  destruct (Hc uid e E) as [Hle Hg]. split; [eexists; split; [|exact Hg]; lia|].
  intros later Hl u e' He'. destruct (Hc u e' He'). split; [lia|done].
Qed.

End Shared.

(** ** Findings *)

Definition tab (secs : Z) : RedisRouteTable := mkRedisTable (secs * second) ∅.

(** The server after a run of the shared table. *)
Definition after (t : RedisRouteTable) (ops : list rop) : db := from_option snd ∅ (sharedRun t ops 0 (∅ : db)).

(** Finding. When a route runs out before its player moves to another node, the
    reverse set of the old node still names the player; the old node's failure
    then deletes the player's new route. *)
Theorem stale_reverse_set :
  let ops := [OBind "u" "n1"; OTick (9 * second); OBind "v" "n1"; OTick (11 * second); OBind "u" "n2"] in
  routeAt (11 * second) (after (tab 10) ops) "u" = Some "n2"%string ∧
  routeAt (11 * second) (after (tab 10) (ops ++ [OInvalidate "n1"])) "u" = None ∧
  tableRun (ops ++ [OInvalidate "n1"]) NewMemRouteTable = mkMem {["u"%string := "n2"%string]}.
Proof. split_and!; vm_compute; reflexivity. Qed.

(** Finding. Keys of players and keys of nodes share a prefix: a player who logs
    in as "node:n1" turns the reverse set of node "n1" into a string, and every
    later login on that node fails. *)
Theorem key_collision uid :
  uid ≠ "node:n1"%string → plain uid →
  ∃ e d, rBind Done 0 uid "n1" (tab 10) (after (tab 10) [OBind "node:n1" "n2"]) = (Some e, d).
Proof.
  intros Hne Hu. unfold rBind, call, luaBind, sbind, query.
  change (after (tab 10) [OBind "node:n1" "n2"]) with
    (<[nk "n2" := (RSet {["node:n1"%string]}, Some (10 * second))]> (<[nk "n1" := (RStr "n2", Some (10 * second))]> (∅ : db))).
  set (d0 := <[nk "n2" := _]> _).
  assert (GET 0 (rk uid) d0 = inr None) as ->.
  { cbn. unfold dGet, live, d0. rewrite !lookup_insert_ne, lookup_empty; [done|..]; intros E; symmetry in E; by eapply Hu. }
  cbn [sret]. unfold cmdE at 1. cbn -[d0]. rewrite decide_True by (vm_compute; reflexivity).
  unfold cmdE. cbn -[d0]. unfold dSAdd, dSet_, live. rewrite lookup_insert_ne by apply Hu.
  unfold d0. rewrite lookup_insert_ne by done. rewrite lookup_insert_eq. rewrite decide_True by (vm_compute; reflexivity). eauto.
Qed.

(** Finding. A lifetime below one second passes the validation of the
    configuration but is zero in seconds, which the server refuses: no player
    can log in. *)
Theorem short_ttl_refused {R} `{X : Redis R} {L : RedisLaws X} T now uid node t r :
  0 < ttl t < second → plain uid → TInv T now (dataset r) → ∃ e r', rBind Done now uid node t r = (Some e, r').
Proof.
  intros Ht Hu Hi. unfold rBind, call, luaBind, sbind at 1, query. rewrite get_law, (dGet_route T) by done.
  destruct (forget_spec T now uid node r Hu Hi) as (r1 & E1 & _).
  fold (forget now uid node (routeAt now (dataset r) uid)). unfold sbind at 1. rewrite E1. unfold sbind at 1, cmdE at 1.
  pose proof (set_law now (rk uid) node (Some (secsOf (ttl t) * second)) r1) as Hs. unfold dSet in Hs.
  assert (secsOf (ttl t) = 0) as E0.
  { unfold secsOf, second in *. apply Z.quot_small. lia. }
  rewrite decide_False in Hs by (rewrite E0; lia). destruct (SET _ _ _ _ r1); [|done]. eauto.
Qed.

(** ** Examples *)

Definition demoOps : list rop := [OBind "u" "n1"; OBind "v" "n1"; OTick (3 * second); OBind "u" "n2"; OUnbind "u" "n1"; OInvalidate "n1"].

Lemma prefix_app p s : String.prefix p (p +:+ s) = true.
Proof.
  induction p as [|c p IH]; [by destruct s|]. rewrite string_cons_app. cbn.
  by destruct (Ascii.ascii_dec c c).
Qed.

Lemma not_node uid : String.prefix "node:" uid = false → plain uid.
Proof.
  intros H. apply plain_spec. intros node ->. by rewrite prefix_app in H.
Qed.

Lemma shared_refines_witness : ∃ now r', sharedRun (tab 10) demoOps 0 (∅ : db) = Some (now, r') ∧
  fst (rLookup Done now "u" (tab 10) r') = inr "n2"%string ∧ fst (rLookup Done now "v" (tab 10) r') = inl ErrNotRouted.
Proof.
  assert (Hu : plain "u") by by apply not_node. assert (Hv : plain "v") by by apply not_node.
  destruct (shared_refines (tab 10) demoOps (∅ : db) NewMemRouteTable) as (now & r' & E & H).
  - vm_compute. discriminate.
  - reflexivity.
  - reflexivity.
  - cbn [fresh demoOps]. split_and!; try done. unfold kept. split; [vm_compute; discriminate|].
    intros uid Hp. set (d := dataset _).
    change d with (<[nk "n1" := (RSet ({["v"%string]} ∪ {["u"%string]}), Some (10 * second))]>
                     (<[rk "v" := (RStr "n1", Some (10 * second))]> (<[nk "n1" := (RSet {["u"%string]}, Some (10 * second))]>
                        (<[rk "u" := (RStr "n1", Some (10 * second))]> (∅ : db))))).
    unfold live. rewrite !(lookup_insert_ne _ (nk "n1")) by (intros E; symmetry in E; by eapply Hp).
    destruct (decide (rk "v" = rk uid)) as [E|E].
    { apply rk_inj in E as <-. rewrite lookup_insert_eq. by rewrite !decide_True by (vm_compute; reflexivity). }
    rewrite lookup_insert_ne by done. rewrite lookup_insert_ne by (intros E'; symmetry in E'; by eapply Hp).
    destruct (decide (rk "u" = rk uid)) as [E'|E'].
    { apply rk_inj in E' as <-. rewrite lookup_insert_eq. by rewrite !decide_True by (vm_compute; reflexivity). }
    by rewrite lookup_insert_ne, lookup_empty by done.
  - exists now, r'. split; [exact E|]. split; [exact (H "u"%string Hu eq_refl)|exact (H "v"%string Hv eq_refl)].
Defined.

(** A server whose route changes at time five. *)
Definition demoHist (t : Z) : db :=
  <[rk "u" := (RStr (if decide (t < 5) then "n1" else "n2"), None)]> ∅.

Lemma lookup_recent_witness : ∃ t0, 6 - routeCacheTTL < t0 ≤ 6 ∧ GET t0 (rk "u") (demoHist t0) = inr (Some "n1"%string).
Proof.
  apply (lookup_recent demoHist Done 6 "u" (mkRedisTable second {["u"%string := mkEntry "n1" (4 + routeCacheTTL)]}) "n1"
           (mkRedisTable second {["u"%string := mkEntry "n1" (4 + routeCacheTTL)]})).
  - intros uid e. cbn. intros [<- <-]%lookup_singleton_Some. split; [vm_compute; discriminate|vm_compute; reflexivity].
  - vm_compute. reflexivity.
Defined.
