(* ===== verification/Drain.v ===== *)
(** * Draining a logic node (internal/cluster/drain.go; StartClusterDrain and the
    heartbeat loop of internal/app/role.go)

    The controller is a state machine under a lock; the number of rooms and of
    sessions are functions the server injects, here part of the environment.
    Calls of the registry and of the settlement callback are recorded. *)

From S2P Require Import Prelude Redis Registry.

Record env := mkEnv { rooms : Z; sessions : Z }.

Record drainController := mkDrain {
  state : Z;
  deadline : Z;
  forceTimer : option Z;   (** when the armed timer fires *)
  told : list Z;           (** states written to the registry *)
  settled : nat }.         (** calls of the settlement callback *)

(** Which of the injected functions are present. *)
Record wiring := mkWiring { hasRooms : bool; hasSessions : bool; hasSettle : bool; hasRegistry : bool }.

Definition NewDrainController : drainController := mkDrain StateActive 0 None [] 0.

Section Drain.
Context (cfg : wiring).

Definition tell (s : Z) (d : drainController) : drainController :=
  if hasRegistry cfg then mkDrain (state d) (deadline d) (forceTimer d) (told d ++ [s]) (settled d) else d.

(** A second call while draining only changes the recorded deadline. *)
Definition Drain (now dl : Z) (d : drainController) : drainController :=
  let d := mkDrain (state d) (now + dl) (forceTimer d) (told d) (settled d) in
  if decide (state d = StateActive) then
    let d := tell StateDraining (mkDrain StateDraining (deadline d) (forceTimer d) (told d) (settled d)) in
    mkDrain (state d) (deadline d) (Some (now + dl)) (told d) (settled d)
  else d.

Definition ForceDrain (d : drainController) : drainController :=
  if decide (state d ≠ StateDraining) then d else
  let d := mkDrain StateDrained (deadline d) None (told d) (settled d) in
  let d := if hasSettle cfg then mkDrain (state d) (deadline d) (forceTimer d) (told d) (S (settled d)) else d in
  tell StateDrained d.

Definition ActiveRooms (e : env) : Z := if hasRooms cfg then rooms e else 0.

(** No rooms and no sessions, as far as the controller can see. *)
Definition quiet (e : env) : bool :=
  hasRooms cfg && (rooms e =? 0) && (negb (hasSessions cfg) || (sessions e =? 0)).

Definition notifyRoomChange (e : env) (d : drainController) : drainController :=
  if decide (state d = StateDraining ∧ quiet e = true) then
    tell StateDrained (mkDrain StateDrained (deadline d) None (told d) (settled d))
  else d.

(** What the waiting goroutine finds when it is woken: [WaitDrained] returns. *)
Definition waitDone (e : env) (d : drainController) : bool :=
  negb (bool_decide (state d = StateDraining)) || quiet e.

(** The condition is polled every 100 milliseconds. *)
Definition pollInterval : Z := 10^8.

(** [WaitDrained] over the environments and controllers it finds at successive
    polls, and whether the context is cancelled by then: [Some true] returned,
    [Some false] cancelled. *)
Fixpoint WaitDrained (polls : list (env * drainController * bool)) : option bool :=
  match polls with
  | [] => None
  | (e, d, cancelled) :: polls' =>
      if waitDone e d then Some true else if (cancelled : bool) then Some false else WaitDrained polls'
  end.

(** ** Interleaving *)

Inductive dstep : Z * env * drainController → Z * env * drainController → Prop :=
| ds_time now now' e d : now ≤ now' → dstep (now, e, d) (now', e, d)
| ds_env now e e' d : dstep (now, e, d) (now, e', d)
| ds_drain now e d dl : dstep (now, e, d) (now, e, Drain now dl d)
| ds_force now e d : dstep (now, e, d) (now, e, ForceDrain d)
| ds_notify now e d : dstep (now, e, d) (now, e, notifyRoomChange e d)
| ds_fire now e d t : forceTimer d = Some t → t ≤ now → dstep (now, e, d) (now, e, ForceDrain d).

Definition heard (l : list Z) : list Z := if hasRegistry cfg then l else [].

Inductive DInv (d : drainController) : Prop :=
| di_active : state d = StateActive → forceTimer d = None → told d = [] → settled d = O → DInv d
| di_draining t : state d = StateDraining → forceTimer d = Some t → told d = heard [StateDraining] → settled d = O → DInv d
| di_drained : state d = StateDrained → forceTimer d = None → told d = heard [StateDraining; StateDrained] →
    (settled d ≤ 1)%nat → DInv d.

Lemma Drain_DInv now dl d : DInv d → DInv (Drain now dl d).
Proof.
  unfold Drain, tell, heard. destruct 1 as [Hs Ht Ho Hc|t Hs Ht Ho Hc|Hs Ht Ho Hc]; cbn; rewrite Hs.
  - rewrite decide_True by done. destruct (hasRegistry cfg) eqn:E; cbn; (eapply di_draining; cbn; [done|done| |done]);
      unfold heard; by rewrite E, Ho.
  - rewrite decide_False by done. by eapply di_draining.
  - rewrite decide_False by done. by eapply di_drained.
Qed.

Lemma drained_DInv d k : state d = StateDraining → told d = heard [StateDraining] → settled d = O → (k ≤ 1)%nat →
  DInv (tell StateDrained (mkDrain StateDrained (deadline d) None (told d) k)).
Proof.
  intros Hs Ho Hc Hk. unfold tell. rewrite Ho. unfold heard.
  destruct (hasRegistry cfg) eqn:E; (eapply di_drained; cbn; [done|done| |done]); unfold heard; by rewrite E.
Qed.

Lemma ForceDrain_DInv d : DInv d → DInv (ForceDrain d).
Proof.
  intros Hi. unfold ForceDrain. case_decide as H; [done|].
  destruct Hi as [Hs|t Hs Ht Ho Hc|Hs]; try (rewrite Hs in H; done).
  destruct (hasSettle cfg); cbn [settled deadline state forceTimer told]; apply drained_DInv; try done; lia.
Qed.

Lemma notify_DInv e d : DInv d → DInv (notifyRoomChange e d).
Proof.
  intros Hi. unfold notifyRoomChange. case_decide as H; [|done]. destruct H as [H _].
  destruct Hi as [Hs|t Hs Ht Ho Hc|Hs]; try (rewrite Hs in H; done).
  apply drained_DInv; try done; lia.
Qed.

Lemma dstep_DInv x y : dstep x y → DInv (snd x) → DInv (snd y).
Proof. destruct 1; cbn; auto using Drain_DInv, ForceDrain_DInv, notify_DInv. Qed.

Lemma reach_DInv now e now' e' d : rtc dstep (now, e, NewDrainController) (now', e', d) → DInv d.
Proof.
  intros H. apply (rtc_keeps dstep (fun x => DInv (snd x)) _ _ dstep_DInv H). by apply di_active.
Qed.

(** The order of states: a drain goes one way. *)
Definition rank (s : Z) : Z := if decide (s = StateActive) then 0 else if decide (s = StateDraining) then 1 else 2.

Lemma Drain_state now dl d : state (Drain now dl d) = if decide (state d = StateActive) then StateDraining else state d.
Proof. unfold Drain, tell. cbn. case_decide; [|done]. by destruct (hasRegistry cfg). Qed.
Lemma ForceDrain_state d : state (ForceDrain d) = if decide (state d = StateDraining) then StateDrained else state d.
Proof.
  unfold ForceDrain, tell. case_decide as H.
  - by rewrite decide_False.
  - rewrite H. by destruct (hasSettle cfg), (hasRegistry cfg).
Qed.
Lemma notify_state e d : state (notifyRoomChange e d) = state d ∨ state d = StateDraining ∧ state (notifyRoomChange e d) = StateDrained.
Proof. unfold notifyRoomChange, tell. case_decide as H; [right|by left]. destruct H. by destruct (hasRegistry cfg). Qed.

Lemma force_rank d : rank (state d) ≤ rank (state (ForceDrain d)).
Proof. rewrite ForceDrain_state. case_decide as H; [rewrite H; vm_compute; congruence|lia]. Qed.

Lemma dstep_rank x y : dstep x y → rank (state (snd x)) ≤ rank (state (snd y)).
Proof.
  intros H. destruct H; cbn; try lia; auto using force_rank.
  - rewrite Drain_state. case_decide as H; [rewrite H; vm_compute; congruence|lia].
  - destruct (notify_state e d) as [->|[-> ->]]; [lia|vm_compute; congruence].
Qed.

Lemma reach_rank x y : rtc dstep x y → rank (state (snd x)) ≤ rank (state (snd y)).
Proof.
  induction 1 as [|a b c Hab _ IH]; [done|]. pose proof (dstep_rank _ _ Hab). lia.
Qed.

(** ** Theorems *)

(** Draining is a one-way street that ends: in every reachable state the node
    goes from active through draining to drained and never back; the registry
    has been told exactly the states passed so far, in order, and the rooms are
    settled by force at most once; while the node drains a timer is armed, and
    when it fires, whatever rooms and sessions are left, the node is drained
    and a waiting caller returns. *)
Theorem drain_one_way now0 e0 now e d :
  rtc dstep (now0, e0, NewDrainController) (now, e, d) →
  (state d = StateActive ∨ state d = StateDraining ∨ state d = StateDrained) ∧
  told d = heard (if decide (state d = StateActive) then [] else
                  if decide (state d = StateDraining) then [StateDraining] else [StateDraining; StateDrained]) ∧
  (settled d ≤ 1)%nat ∧
  (∀ now' e' d', rtc dstep (now, e, d) (now', e', d') → rank (state d) ≤ rank (state d')) ∧
  (state d = StateDraining → ∃ t, forceTimer d = Some t ∧
     ∀ now' e', t ≤ now' → dstep (now', e', d) (now', e', ForceDrain d) ∧
       state (ForceDrain d) = StateDrained ∧ waitDone e' (ForceDrain d) = true).
Proof.
  intros H. pose proof (reach_DInv _ _ _ _ _ H) as Hi. split_and!.
  - destruct Hi; auto.
  - destruct Hi as [Hs _ Ho _|t Hs _ Ho _|Hs _ Ho _]; rewrite Hs, Ho; unfold heard; by destruct (hasRegistry cfg).
  - destruct Hi; lia.
  - intros now' e' d' H'. by apply (reach_rank _ _ H').
  - intros Hs. destruct Hi as [Hs'|t _ Ht|Hs']; [rewrite Hs in Hs'; done| |rewrite Hs in Hs'; done].
    exists t. split; [done|]. intros now' e' Hle. split; [by eapply ds_fire|].
    assert (state (ForceDrain d) = StateDrained) as E by (rewrite ForceDrain_state; by rewrite decide_True).
    split; [done|]. unfold waitDone. by rewrite E.
Qed.

(** A wait that succeeds while the node still drains found it quiet: no rooms,
    and no sessions when they are counted. *)
Theorem wait_sound polls : WaitDrained polls = Some true →
  ∃ e d c, (e, d, c) ∈ polls ∧
    (state d ≠ StateDraining ∨
     (hasRooms cfg = true ∧ rooms e = 0 ∧ (hasSessions cfg = true → sessions e = 0))).
Proof.
  induction polls as [|[[e d] c] polls IH]; cbn; [done|]. destruct (waitDone e d) eqn:E.
  - intros _. exists e, d, c. split; [by apply elem_of_cons; left|]. revert E. unfold waitDone, quiet.
    case_bool_decide; cbn; [right|by left].
    destruct (hasRooms cfg), (hasSessions cfg); cbn in *; try done; rewrite ?andb_true_iff in *; rewrite ?Z.eqb_eq in *; naive_solver.
  - destruct c; [done|]. intros H. destruct (IH H) as (e' & d' & c' & Hin & Hd). exists e', d', c'.
    split; [by apply elem_of_cons; right|done].
Qed.

(** Finding. A repeated [Drain] records a new deadline that nothing reads: the
    timer armed by the first call still decides when rooms are settled by
    force. *)
Theorem redrain_keeps_timer now dl now' dl' d :
  state d = StateActive → forceTimer d = None →
  forceTimer (Drain now' dl' (Drain now dl d)) = Some (now + dl) ∧ deadline (Drain now' dl' (Drain now dl d)) = now' + dl'.
Proof.
  intros Hs Ht. unfold Drain, tell. cbn. rewrite Hs. cbn. by destruct (hasRegistry cfg).
Qed.

(** Finding. When a node becomes quiet the waiting caller returns, but the node
    stays in the draining state with its timer armed and the registry is not
    told; only [notifyRoomChange], which nothing calls, would do that. *)
Theorem quiet_stays_draining now dl e d :
  state d = StateActive → told d = [] → quiet e = true →
  let d' := Drain now dl d in
  waitDone e d' = true ∧ state d' = StateDraining ∧ forceTimer d' = Some (now + dl) ∧ told d' = heard [StateDraining].
Proof.
  intros Hs Ho Hq. unfold waitDone, Drain, tell, heard. rewrite Hq. cbn. rewrite Hs, Ho. cbn.
  rewrite orb_true_r. by destruct (hasRegistry cfg).
Qed.
End Drain.

(** ** The heartbeat of a logic node (logicHeartbeatLoop): a failure is counted
    and the loop goes on. *)
Section Heartbeat.
Context {R : Type} `{X : Redis R}.

Fixpoint logicHeartbeatLoop (cfg : Config) (nodeID : string) (ticks : list (Z * Z * net * net)) (s : server R) (failed : Z)
    : server R * Z :=
  match ticks with
  | [] => (s, failed)
  | (now, rooms, w1, w2) :: ticks' =>
      match rHeartbeat w1 w2 now cfg nodeID rooms s with
      | (None, s) => logicHeartbeatLoop cfg nodeID ticks' s failed
      | (Some _, s) => logicHeartbeatLoop cfg nodeID ticks' s (failed + 1)
      end
  end.
End Heartbeat.

(** ** Examples *)

Definition allWired : wiring := mkWiring true true true true.
Definition demoDrain : drainController := Drain allWired 5 100 NewDrainController.

Lemma demoDrain_reach : rtc (dstep allWired) (0, mkEnv 2 3, NewDrainController) (7, mkEnv 1 3, demoDrain).
Proof.
  eapply rtc_l; [by apply (ds_time _ 0 5)|]. eapply rtc_l; [apply (ds_drain _ 5 _ _ 100)|].
  eapply rtc_l; [apply (ds_env _ 5 _ (mkEnv 1 3))|]. eapply rtc_l; [by apply (ds_time _ 5 7)|]. apply rtc_refl.
Qed.

Lemma drain_one_way_witness : told demoDrain = [StateDraining] ∧
  ∃ t, forceTimer demoDrain = Some t ∧ state (ForceDrain allWired demoDrain) = StateDrained.
Proof.
  destruct (drain_one_way allWired 0 (mkEnv 2 3) 7 (mkEnv 1 3) demoDrain demoDrain_reach) as (_ & Ht & _ & _ & Hd).
  split; [exact Ht|]. destruct (Hd eq_refl) as (t & E & Hf). exists t. split; [exact E|].
  exact (proj1 (proj2 (Hf t (mkEnv 0 0) (Z.le_refl t)))).
Defined.

Lemma wait_sound_witness : ∃ e d c,
  (e, d, c) ∈ [(mkEnv 1 0, demoDrain, false); (mkEnv 0 0, demoDrain, false)] ∧
  (state d ≠ StateDraining ∨ (hasRooms allWired = true ∧ rooms e = 0 ∧ (hasSessions allWired = true → sessions e = 0))).
Proof. apply (wait_sound allWired). reflexivity. Defined.
