(* ===== verification/Replay.v ===== *)
(** * Downlink buffers of a session (internal/session/replay.go)

    The reliable channel keeps the last frames sent in a ring buffer and the
    snapshot channel keeps the latest frame of each message id. The ring is
    refined to a plain list: the newest [cap] frames of everything pushed. *)

From S2P Require Import Prelude Frame.

(** ** The ring buffer *)

Record ringBuffer := mkRing {
  items : list (option Frame);     (* nil until a slot is written *)
  rcap : Z;
  start : Z;
  size : Z }.

Definition newRingBuffer (capacity : Z) : ringBuffer :=
  mkRing (replicate (Z.to_nat capacity) None) capacity 0 0.

(** [r.items[i] = f] *)
Definition setItem (r : ringBuffer) (i : Z) (f : Frame) : res (list (option Frame)) :=
  if decide (0 ≤ i < zlen (items r)) then Ok (<[Z.to_nat i := Some f]> (items r)) else Panic.

(** [x % r.cap]: the remainder panics on zero. *)
Definition modCap (r : ringBuffer) (x : Z) : res Z :=
  if decide (rcap r = 0) then Panic else Ok (Z.rem x (rcap r)).

Definition push (r : ringBuffer) (f : Frame) : res ringBuffer :=
  if size r <? rcap r then
    let! i := modCap r (start r + size r) in
    let! its := setItem r i f in
    Ok (mkRing its (rcap r) (start r) (size r + 1))
  else
    let! its := setItem r (start r) f in
    let! st := modCap r (start r + 1) in
    Ok (mkRing its (rcap r) st (size r)).

(** [r.items[i].Seq] and the like: a nil item panics. *)
Definition item (r : ringBuffer) (i : Z) : res Frame :=
  let! o := index (items r) i in
  match o with Some f => Ok f | None => Panic end.

Definition oldestSeq (r : ringBuffer) : res Z :=
  if decide (size r = 0) then Ok 0 else
  let! f := item r (start r) in Ok (Seq f).

(** [for i := 0; i < r.size; i++ { ... }], [n] iterations from [i]. *)
Fixpoint sinceLoop (n : nat) (i : Z) (r : ringBuffer) (lastSeq : Z) (frames : list Frame)
    : res (list Frame) :=
  match n with
  | O => Ok frames
  | S n =>
      let! k := modCap r (start r + i) in
      let! f := item r k in
      sinceLoop n (i + 1) r lastSeq (if Seq f >? lastSeq then frames ++ [f] else frames)
  end.

(** The frames to replay and the overflow flag. *)
Definition since (r : ringBuffer) (lastSeq : Z) : res (list Frame * bool) :=
  if decide (size r = 0) then Ok ([], false) else
  let! o := oldestSeq r in
  if o >? to_u32 (lastSeq + 1) then Ok ([], true) else
  let! fs := sinceLoop (Z.to_nat (size r)) 0 r lastSeq [] in
  Ok (fs, false).

(** ** The snapshot cache *)

Notation snapshotCache := (gmap Z Frame).

Definition put (c : snapshotCache) (f : Frame) : snapshotCache := <[MsgID f := f]> c.

Definition all (c : snapshotCache) (msgIDs : list Z) : list Frame :=
  if decide (msgIDs = []) then (map_to_list c).*2
  else omap (fun id => c !! id) msgIDs.

(** ** The ring as a list *)

(** The slot that holds the [i]-th oldest frame. *)
Definition slot (r : ringBuffer) (i : nat) : nat := Z.to_nat ((start r + Z.of_nat i) mod rcap r).

(** [r] holds exactly the frames [fs], oldest first. *)
Record holds (r : ringBuffer) (fs : list Frame) : Prop := {
  ho_cap : 0 < rcap r;
  ho_items : zlen (items r) = rcap r;
  ho_start : 0 ≤ start r < rcap r;
  ho_size : size r = zlen fs;
  ho_fits : zlen fs ≤ rcap r;
  ho_frames i f : fs !! i = Some f → items r !! slot r i = Some (Some f) }.

(** The last [n] elements of a list. *)
Definition lastn {A} (n : nat) (l : list A) : list A := drop (length l - n) l.

Lemma lastn_short {A} n (l : list A) : (length l ≤ n)%nat → lastn n l = l.
Proof. intros. unfold lastn. by replace (length l - n)%nat with 0%nat by lia. Qed.

Lemma length_lastn {A} n (l : list A) : length (lastn n l) = (n `min` length l)%nat.
Proof. unfold lastn. rewrite length_drop. lia. Qed.

Lemma lastn_snoc {A} n (l : list A) x :
  (0 < n)%nat → lastn n (l ++ [x]) = lastn n (lastn n l ++ [x]).
Proof.
  intros Hn. unfold lastn. rewrite !length_app, length_drop. simpl.
  destruct (decide (length l < n)%nat).
  - replace (length l - n)%nat with 0%nat by lia. rewrite drop_0. f_equal. lia.
  - rewrite <- (drop_app_le l [x]) by lia. rewrite drop_drop. f_equal. lia.
Qed.

Lemma holds_new cap : 0 < cap → holds (newRingBuffer cap) [].
Proof.
  intros Hc. split; cbn; unfold zlen; rewrite ?length_replicate; simpl; try done; lia.
Qed.

Lemma slot_lt r fs i : holds r fs → (slot r i < length (items r))%nat.
Proof.
  intros Hh. pose proof (ho_items _ _ Hh) as Hi. pose proof (ho_cap _ _ Hh). unfold slot, zlen in *.
  pose proof (Z.mod_pos_bound (start r + Z.of_nat i) (rcap r)). lia.
Qed.

(** Distinct positions of a full turn use distinct slots. *)
Lemma slot_inj r i j :
  0 < rcap r → Z.of_nat i < rcap r → Z.of_nat j < rcap r → slot r i = slot r j → i = j.
Proof.
  intros Hc Hi Hj E. unfold slot in E.
  pose proof (Z.mod_pos_bound (start r + Z.of_nat i) (rcap r)) as Hb1.
  pose proof (Z.mod_pos_bound (start r + Z.of_nat j) (rcap r)) as Hb2.
  assert (Hm : (start r + Z.of_nat i) mod rcap r = (start r + Z.of_nat j) mod rcap r) by lia.
  pose proof (Z.div_mod (start r + Z.of_nat i) (rcap r) ltac:(lia)) as H1.
  pose proof (Z.div_mod (start r + Z.of_nat j) (rcap r) ltac:(lia)) as H2.
  rewrite Hm in H1. set (q1 := (start r + Z.of_nat i) / rcap r) in *. set (q2 := (start r + Z.of_nat j) / rcap r) in *.
  assert (Hq : rcap r * (q1 - q2) = Z.of_nat i - Z.of_nat j) by lia.
  destruct (Z.lt_trichotomy q1 q2) as [?|[?|?]]; nia.
Qed.

Lemma modCap_Ok r x : 0 < rcap r → 0 ≤ x → modCap r x = Ok (x mod rcap r).
Proof. intros. unfold modCap. rewrite decide_False by lia. by rewrite Z.rem_mod_nonneg by lia. Qed.

(** Writing slot [k] keeps every other slot. *)
Lemma setItem_Ok r i f : 0 ≤ i < zlen (items r) → setItem r i f = Ok (<[Z.to_nat i := Some f]> (items r)).
Proof. intros. unfold setItem. by rewrite decide_True. Qed.

(** A push refines appending to the list of the last [cap] frames. *)
Lemma push_holds r fs f :
  holds r fs → ∃ r', push r f = Ok r' ∧ holds r' (lastn (Z.to_nat (rcap r)) (fs ++ [f])) ∧ rcap r' = rcap r.
Proof.
  intros Hh. pose proof Hh as [Hc Hi Hs Hsz Hf Hfr]. unfold push.
  assert (Hit : 0 < zlen (items r)) by lia.
  destruct (Z.ltb_spec (size r) (rcap r)) as [Hlt|Hge].
  - rewrite modCap_Ok by (try done; pose proof (zlen_nonneg fs); lia). cbn [rbind].
    pose proof (Z.mod_pos_bound (start r + size r) (rcap r) Hc) as Hb.
    rewrite setItem_Ok by lia. cbn [rbind]. eexists. split; [done|]. split; [|done].
    rewrite lastn_short by (rewrite length_app; simpl; unfold zlen in *; lia).
    split; cbn; try lia.
    + unfold zlen. by rewrite length_insert.
    + rewrite zlen_snoc. lia.
    + rewrite zlen_snoc. lia.
    + intros i g Hg. change (slot _ i) with (slot r i).
      assert (Hslot : Z.to_nat ((start r + size r) mod rcap r) = slot r (length fs))
        by (unfold slot; by rewrite Hsz).
      rewrite Hslot. destruct (decide (i = length fs)) as [->|Hne].
      * rewrite list_lookup_insert_eq by (by eapply slot_lt). rewrite lookup_app_r, Nat.sub_diag in Hg by lia.
        by injection Hg as ->.
      * assert (Hil : (i < length fs)%nat).
        { apply lookup_lt_Some in Hg. rewrite length_app in Hg. simpl in Hg. lia. }
        rewrite lookup_app_l in Hg by done. rewrite list_lookup_insert_ne; [by apply Hfr|].
        intros E. apply slot_inj in E; [lia|done|unfold zlen in *; lia..].
  - rewrite setItem_Ok by lia. cbn [rbind]. rewrite modCap_Ok by lia. cbn [rbind].
    eexists. split; [done|]. split; [|done].
    assert (Hfull : Z.of_nat (length fs) = rcap r) by (unfold zlen in *; lia).
    assert (Hlast : lastn (Z.to_nat (rcap r)) (fs ++ [f]) = drop 1 fs ++ [f]).
    { unfold lastn. rewrite length_app. simpl. replace (length fs + 1 - Z.to_nat (rcap r))%nat with 1%nat by lia.
      by rewrite drop_app_le by lia. }
    rewrite Hlast. pose proof (Z.mod_pos_bound (start r + 1) (rcap r) Hc) as Hb.
    split; cbn; try lia.
    + unfold zlen. by rewrite length_insert.
    + rewrite zlen_snoc. unfold zlen. rewrite length_drop. unfold zlen in Hsz. lia.
    + rewrite zlen_snoc. unfold zlen. rewrite length_drop. lia.
    + intros i g Hg.
      assert (Hshift : ((start r + 1) mod rcap r + Z.of_nat i) mod rcap r = (start r + Z.of_nat (S i)) mod rcap r).
      { rewrite Zplus_mod_idemp_l. f_equal. lia. }
      unfold slot at 1. cbn [start rcap]. rewrite Hshift. fold (slot r (S i)).
      assert (H0 : Z.to_nat (start r) = slot r 0).
      { unfold slot. rewrite Z.add_0_r, Z.mod_small by lia. done. }
      rewrite H0. apply lookup_lt_Some in Hg as Hlen. rewrite length_app, length_drop in Hlen. simpl in Hlen.
      destruct (decide (S i = length fs)) as [Hlst|Hne].
      * assert (Hs0 : slot r (S i) = slot r 0).
        { unfold slot. rewrite Hlst, Hfull. f_equal. rewrite Z.add_0_r.
          rewrite <- (Z.mul_1_l (rcap r)) at 1. by rewrite Z_mod_plus_full. }
        rewrite Hs0, list_lookup_insert_eq by (by eapply slot_lt).
        rewrite lookup_app_r in Hg by (rewrite length_drop; lia). rewrite length_drop in Hg.
        replace (i - (length fs - 1))%nat with 0%nat in Hg by lia. by injection Hg as ->.
      * rewrite lookup_app_l, lookup_drop in Hg by (rewrite length_drop; lia).
        rewrite list_lookup_insert_ne; [by apply Hfr|].
        intros E. apply slot_inj in E; [lia|done|lia..].
Qed.

Lemma item_holds r fs i f : holds r fs → fs !! i = Some f → item r (Z.of_nat (slot r i)) = Ok f.
Proof.
  intros Hh Hf. unfold item. rewrite (index_lookup _ _ _ (ho_frames _ _ Hh i f Hf)). done.
Qed.

Lemma sinceLoop_run n i r fs lastSeq acc :
  holds r fs → (i + n ≤ length fs)%nat →
  sinceLoop n (Z.of_nat i) r lastSeq acc
  = Ok (acc ++ filter (fun f => Seq f > lastSeq) (take n (drop i fs))).
Proof.
  intros Hh. revert i acc. induction n as [|n IH]; intros i acc Hn; cbn [sinceLoop].
  { by rewrite app_nil_r. }
  destruct (lookup_lt_is_Some_2 fs i) as [f Hf]; [lia|].
  rewrite modCap_Ok by (try apply (ho_cap _ _ Hh); pose proof (ho_start _ _ Hh); lia). cbn [rbind].
  pose proof (Z.mod_pos_bound (start r + Z.of_nat i) (rcap r) (ho_cap _ _ Hh)) as Hb.
  replace ((start r + Z.of_nat i) mod rcap r) with (Z.of_nat (slot r i)) by (unfold slot; lia).
  rewrite (item_holds _ _ _ _ Hh Hf). cbn [rbind].
  replace (Z.of_nat i + 1) with (Z.of_nat (S i)) by lia. rewrite IH by lia.
  rewrite (drop_S fs f i Hf). cbn [take]. destruct (Z.gtb_spec (Seq f) lastSeq).
  - rewrite filter_cons_True by lia. by rewrite <- app_assoc.
  - by rewrite filter_cons_False by lia.
Qed.

Lemma since_run r fs lastSeq :
  holds r fs →
  since r lastSeq = Ok (match fs with
    | [] => ([], false)
    | f :: _ => if Seq f >? to_u32 (lastSeq + 1) then ([], true)
                else (filter (fun f => Seq f > lastSeq) fs, false)
    end).
Proof.
  intros Hh. unfold since, oldestSeq. rewrite (ho_size _ _ Hh). destruct fs as [|f fs]; [done|].
  rewrite !decide_False by (rewrite zlen_cons; pose proof (zlen_nonneg fs); lia).
  pose proof (ho_start _ _ Hh) as Hst.
  assert (H0 : start r = Z.of_nat (slot r 0)).
  { unfold slot. rewrite Z.add_0_r, Z.mod_small by lia. lia. }
  rewrite H0 at 1. rewrite (item_holds r (f :: fs) 0 f Hh eq_refl). cbn [rbind].
  destruct (Seq f >? to_u32 (lastSeq + 1)); [done|].
  change 0 with (Z.of_nat 0). rewrite (sinceLoop_run _ _ r (f :: fs)) by (try done; unfold zlen; lia).
  cbn [rbind app drop]. rewrite take_ge by (unfold zlen; lia). done.
Qed.

(** ** A log of numbered frames *)

(** The [i]-th frame of the log carries sequence number [i + 1]. *)
Definition numbered (log : list Frame) : Prop := ∀ i f, log !! i = Some f → Seq f = Z.of_nat i + 1.

Lemma numbered_snoc log f : numbered log → Seq f = zlen log + 1 → numbered (log ++ [f]).
Proof.
  intros Hn Hf i g Hg. apply lookup_app_Some in Hg as [Hg|[Hi Hg]]; [by apply Hn|].
  apply list_lookup_singleton_Some in Hg as [Hi' <-]. rewrite Hf. unfold zlen. lia.
Qed.

Lemma filter_after (fs : list Frame) (base last : Z) :
  (∀ i f, fs !! i = Some f → Seq f = base + Z.of_nat i + 1) → base ≤ last →
  filter (fun f => Seq f > last) fs = drop (Z.to_nat (last - base)) fs.
Proof.
  revert base. induction fs as [|f fs IH]; intros base Hfs Hb; [by rewrite drop_nil|].
  pose proof (Hfs 0%nat f eq_refl) as Hf. rewrite Z.add_0_r in Hf.
  assert (Htl : ∀ i g, fs !! i = Some g → Seq g = (base + 1) + Z.of_nat i + 1).
  { intros i g Hg. rewrite (Hfs (S i) g Hg). lia. }
  destruct (decide (base = last)) as [->|Hne].
  - rewrite Z.sub_diag. cbn [Z.to_nat drop]. apply filter_all. apply Forall_lookup.
    intros i g Hg. rewrite (Hfs i g Hg). lia.
  - rewrite filter_cons_False by lia. rewrite (IH (base + 1)) by (done || lia).
    replace (Z.to_nat (last - base)) with (S (Z.to_nat (last - (base + 1)))) by lia. done.
Qed.

(** What a reconnecting client that saw [last] of the log gets. *)
Lemma since_log r log last :
  holds r (lastn (Z.to_nat (rcap r)) log) → numbered log →
  0 ≤ last ≤ zlen log → zlen log < 2^32 - 1 →
  since r last = Ok (if decide (zlen log - last ≤ rcap r)
                     then (drop (Z.to_nat last) log, false) else ([], true)).
Proof.
  intros Hh Hn Hl Hmax. rewrite (since_run _ _ _ Hh). pose proof (ho_cap _ _ Hh) as Hc.
  unfold lastn. set (k := (length log - Z.to_nat (rcap r))%nat).
  assert (Hnum : ∀ i f, drop k log !! i = Some f → Seq f = Z.of_nat k + Z.of_nat i + 1).
  { intros i f. rewrite lookup_drop. intros Hf. rewrite (Hn _ _ Hf). lia. }
  destruct (drop k log) as [|f fs] eqn:E.
  - assert (Hlog : length log = 0%nat).
    { apply (f_equal length) in E. rewrite length_drop in E. simpl in E. unfold zlen in *. lia. }
    apply nil_length_inv in Hlog as ->. unfold zlen in *. simpl in *. rewrite decide_True by lia. by rewrite drop_nil.
  - pose proof (Hnum 0%nat f eq_refl) as Hf. rewrite <- E in *. unfold to_u32. rewrite Z.mod_small by lia.
    destruct (Z.gtb_spec (Seq f) (last + 1)) as [Hgt|Hle].
    + rewrite decide_False; [done|]. unfold zlen, k in *. lia.
    + rewrite decide_True by (unfold zlen, k in *; lia). do 2 f_equal.
      rewrite (filter_after _ (Z.of_nat k)) by (done || lia). rewrite drop_drop. f_equal. lia.
Qed.
