(* ===== verification/Session.v ===== *)
(** * Login sessions (internal/session: conn_session.go, session.go, manager.go)

    A session outlives its connection: it is online, offline within a grace
    period, or released. Sessions are shared objects: the manager's three
    indexes hold pointers into one store, and the calls that leave the package
    (bytes pushed to a connection, connections closed, release callbacks) are
    recorded in order. Random tokens and the clock are arguments. *)

From S2P Require Import Prelude Frame Replay.

(** ** The connection side: ConnSession *)

Inductive serr := ErrOffline | ErrReleased | ErrTokenInvalid | ErrFrame (e : frame_err) | ErrPush | ErrMarshal.
#[export] Instance serr_eq_dec : EqDecision serr.
Proof. unfold EqDecision. intros x y. unfold Decision. repeat decide equality. Defined.

(** Calls on transport.Conn and on the release callback. *)
Inductive sevent :=
| EvPushed (conn : Z) (raw : list Z)
| EvClosed (conn : Z) (reason : string)
| EvRelease (uid roomID : string).

#[export] Instance sevent_eq_dec : EqDecision sevent.
Proof. solve_decision. Defined.

Record ConnSession := mkConn {
  cconn : option Z;                (* ID of the bound transport.Conn, or nil *)
  ctoken : string;
  lastActive : Z }.

Definition NewConnSession (now conn : Z) : ConnSession := mkConn (Some conn) EmptyString now.

Definition Bind (c : ConnSession) (conn : Z) : option Z * ConnSession :=
  (cconn c, mkConn (Some conn) (ctoken c) (lastActive c)).
Definition Unbind (c : ConnSession) : option Z * ConnSession :=
  (cconn c, mkConn None (ctoken c) (lastActive c)).
(** The connection unbound, if it was [connID]. *)
Definition UnbindIfConn (c : ConnSession) (connID : Z) : option Z * ConnSession :=
  if decide (cconn c = Some connID) then (Some connID, mkConn None (ctoken c) (lastActive c)) else (None, c).
Definition ConnID (c : ConnSession) : Z := default 0 (cconn c).
Definition CloseConn (c : ConnSession) (reason : string) : ConnSession * list sevent :=
  (mkConn None (ctoken c) (lastActive c),
   match cconn c with Some i => [EvClosed i reason] | None => [] end).
Definition SetToken (c : ConnSession) (t : string) : ConnSession := mkConn (cconn c) t (lastActive c).
Definition RotateToken (c : ConnSession) (old new : string) : bool * ConnSession :=
  if decide (ctoken c ≠ old) then (false, c) else (true, SetToken c new).
Definition Touch (c : ConnSession) (now : Z) : ConnSession := mkConn (cconn c) (ctoken c) now.
Definition Alive (c : ConnSession) (now keepAlive : Z) : bool := now - lastActive c <=? keepAlive.

(** ** The session *)

Inductive sstate := stateOnline | stateOffline | stateReleased.
#[export] Instance sstate_eq_dec : EqDecision sstate.
Proof. solve_decision. Defined.

Record Session := mkSession {
  suid : string;
  conn : ConnSession;
  codec : Z;
  sroom : string;
  sst : sstate;
  nextSeq : Z;
  ring : ringBuffer;
  snaps : snapshotCache;
  offlineAt : Z }.                 (* unix nano, 0 while online *)

Definition set_conn (v : ConnSession) (s : Session) : Session :=
  mkSession (suid s) v (codec s) (sroom s) (sst s) (nextSeq s) (ring s) (snaps s) (offlineAt s).
Definition set_sst (v : sstate) (s : Session) : Session :=
  mkSession (suid s) (conn s) (codec s) (sroom s) v (nextSeq s) (ring s) (snaps s) (offlineAt s).
Definition set_codec (v : Z) (s : Session) : Session :=
  mkSession (suid s) (conn s) v (sroom s) (sst s) (nextSeq s) (ring s) (snaps s) (offlineAt s).
Definition set_offlineAt (v : Z) (s : Session) : Session :=
  mkSession (suid s) (conn s) (codec s) (sroom s) (sst s) (nextSeq s) (ring s) (snaps s) v.
Definition SetRoomID (v : string) (s : Session) : Session :=
  mkSession (suid s) (conn s) (codec s) v (sst s) (nextSeq s) (ring s) (snaps s) (offlineAt s).
Definition set_reliable (n : Z) (r : ringBuffer) (s : Session) : Session :=
  mkSession (suid s) (conn s) (codec s) (sroom s) (sst s) n r (snaps s) (offlineAt s).
Definition set_snaps (c : snapshotCache) (s : Session) : Session :=
  mkSession (suid s) (conn s) (codec s) (sroom s) (sst s) (nextSeq s) (ring s) c (offlineAt s).

Definition newSession (now : Z) (uid : string) (c codec replayCap : Z) : Session :=
  mkSession uid (Touch (NewConnSession now c) now) codec EmptyString stateOnline 0
    (newRingBuffer replayCap) ∅ 0.

Definition Authenticated (s : Session) : bool := bool_decide (sst s ≠ stateReleased).
Definition IsOnline (s : Session) : bool := bool_decide (sst s = stateOnline).
Definition IsOffline (s : Session) : bool := bool_decide (sst s = stateOffline).

Definition bind (now : Z) (s : Session) (c codec : Z) : option Z * Session :=
  let '(old, cs) := Bind (conn s) c in
  (old, set_conn (Touch cs now) (set_offlineAt 0 (set_sst stateOnline (set_codec codec (set_conn cs s))))).

(** [if s.st == stateOnline { s.st = stateOffline; s.offlineAt.Store(now) }] *)
Definition goOffline (now : Z) (s : Session) : Session :=
  if decide (sst s = stateOnline) then set_offlineAt now (set_sst stateOffline s) else s.

Definition unbind (now : Z) (s : Session) : option Z * Session :=
  let '(old, cs) := Unbind (conn s) in (old, goOffline now (set_conn cs s)).

Definition unbindIfConn (now : Z) (s : Session) (connID : Z) : option Z * Session :=
  match UnbindIfConn (conn s) connID with
  | (Some old, cs) => (Some old, goOffline now (set_conn cs s))
  | (None, _) => (None, s)
  end.

Definition markReleased (s : Session) : Session := set_sst stateReleased s.

Definition offlineDuration (s : Session) (now : Z) : Z :=
  if decide (offlineAt s = 0) then 0 else now - offlineAt s.

Section Push.
(** [connPush c raw]: the write channel of connection [c] takes [raw]
    (transport.Conn.Push; a full channel refuses it). *)
Context (connPush : Z → list Z → bool).

(** [ConnSession.Send]: the error, and what reached the connection. *)
Definition ConnSend (c : ConnSession) (f : Frame) : option serr * list sevent :=
  match cconn c with
  | None => (Some ErrOffline, [])
  | Some i =>
      match snd (EncodeFrame f) with
      | inl e => (Some (ErrFrame e), [])
      | inr raw => if connPush i raw then (None, [EvPushed i raw]) else (Some ErrPush, [])
      end
  end.

Definition Send (s : Session) (f : Frame) : option serr * list sevent :=
  match sst s with
  | stateReleased => (Some ErrReleased, [])
  | stateOffline => (Some ErrOffline, [])
  | stateOnline => ConnSend (conn s) f
  end.

(** [pushEncoded]: the error, the session afterwards and what was sent. *)
Definition pushEncoded (s : Session) (msgID : Z) (body : list Z) (snapshot : bool)
    : res (option serr * Session * list sevent) :=
  let! (f, s) :=
    if snapshot then
      let f := mkFrame ProtocolVer msgID (Z.lor (codec s) FlagSnapshot) 0 [] body in
      Ok (f, set_snaps (put (snaps s) f) s)
    else
      let n := to_u32 (nextSeq s + 1) in
      let f := mkFrame ProtocolVer msgID (codec s) n [] body in
      let! r := push (ring s) f in
      Ok (f, set_reliable n r s) in
  match Send s f with
  | (Some e, es) => Ok (if decide (e = ErrOffline) then None else Some e, s, es)
  | (None, es) => Ok (None, s, es)
  end.

(** [marshal] is the codec of the session applied to the message. *)
Definition PushReliable (s : Session) (msgID : Z) (marshal : Z → option (list Z))
    : res (option serr * Session * list sevent) :=
  match marshal (codec s) with
  | None => Ok (Some ErrMarshal, s, [])
  | Some body => pushEncoded s msgID body false
  end.
Definition PushSnapshot (s : Session) (msgID : Z) (marshal : Z → option (list Z))
    : res (option serr * Session * list sevent) :=
  match marshal (codec s) with
  | None => Ok (Some ErrMarshal, s, [])
  | Some body => pushEncoded s msgID body true
  end.
End Push.

Definition LastReliableSeq (s : Session) : Z := nextSeq s.

(** Reliable frames to replay, snapshots, overflow. *)
Definition ReplayFor (s : Session) (lastSeq : Z) (ids : list Z) : res (list Frame * list Frame * bool) :=
  let! (reliable, overflow) := since (ring s) lastSeq in
  Ok (reliable, all (snaps s) ids, overflow).
Definition Snapshots (s : Session) (ids : list Z) : list Frame := all (snaps s) ids.

(** ** What a client gets back after a reconnect *)

(** Operations on a session between login and replay. *)
Inductive sop :=
| OpPush (msgID : Z) (body : list Z)
| OpSnap (msgID : Z) (body : list Z)
| OpBind (now conn codec : Z)
| OpUnbind (now : Z)
| OpUnbindIf (now connID : Z)
| OpRoom (room : string).

Definition sopStep (connPush : Z → list Z → bool) (o : sop) (s : Session) : res Session :=
  match o with
  | OpPush id body => let! (_, s, _) := pushEncoded connPush s id body false in Ok s
  | OpSnap id body => let! (_, s, _) := pushEncoded connPush s id body true in Ok s
  | OpBind now c cd => Ok (snd (bind now s c cd))
  | OpUnbind now => Ok (snd (unbind now s))
  | OpUnbindIf now c => Ok (snd (unbindIfConn now s c))
  | OpRoom room => Ok (SetRoomID room s)
  end.

Fixpoint sopRun (connPush : Z → list Z → bool) (os : list sop) (s : Session) : res Session :=
  match os with
  | [] => Ok s
  | o :: os => let! s := sopStep connPush o s in sopRun connPush os s
  end.

(** Message ids and bodies pushed on the reliable channel, in order. *)
Definition pushesOf (os : list sop) : list (Z * list Z) :=
  omap (fun o => match o with OpPush id body => Some (id, body) | _ => None end) os.
(** The last body pushed as a snapshot under [id]. *)
Fixpoint lastSnap (id : Z) (os : list sop) : option (list Z) :=
  match os with
  | [] => None
  | OpSnap id' body :: os =>
      match lastSnap id os with
      | Some b => Some b
      | None => if decide (id' = id) then Some body else None
      end
  | _ :: os => lastSnap id os
  end.

Definition msgOf (f : Frame) : Z * list Z := (MsgID f, Body f).

(** The session buffers hold the end of [log]. *)
Record Logged (s : Session) (log : list Frame) : Prop := {
  lo_ring : holds (ring s) (lastn (Z.to_nat (rcap (ring s))) log);
  lo_num : numbered log;
  lo_next : nextSeq s = zlen log }.

Lemma Logged_ext s s' log :
  ring s' = ring s → nextSeq s' = nextSeq s → Logged s log → Logged s' log.
Proof. intros Hr Hn [H1 H2 H3]. split; [by rewrite Hr|done|by rewrite Hn]. Qed.

Lemma pushEncoded_buffers connPush s id body snap x :
  pushEncoded connPush s id body snap = Ok x → ∀ s', x.1.2 = s' →
  (if snap then
     s' = set_snaps (put (snaps s) (mkFrame ProtocolVer id (Z.lor (codec s) FlagSnapshot) 0 [] body)) s
   else ∃ r, push (ring s) (mkFrame ProtocolVer id (codec s) (to_u32 (nextSeq s + 1)) [] body) = Ok r ∧
          s' = set_reliable (to_u32 (nextSeq s + 1)) r s).
Proof.
  unfold pushEncoded. destruct snap; cbn [rbind].
  - match goal with |- context [Send ?c ?a ?b] => destruct (Send c a b) as [[e|] es] end;
      intros [= <-] s' <-; done.
  - destruct (push _ _) as [r| |]; cbn [rbind]; [|done..].
    match goal with |- context [Send ?c ?a ?b] => destruct (Send c a b) as [[e|] es] end;
      intros [= <-] s' <-; by exists r.
Qed.

Lemma push_Logged connPush s log id body :
  Logged s log → zlen log + 1 < 2^32 →
  ∃ e s' es f, pushEncoded connPush s id body false = Ok (e, s', es) ∧ Logged s' (log ++ [f]) ∧
    msgOf f = (id, body) ∧ rcap (ring s') = rcap (ring s) ∧ snaps s' = snaps s.
Proof.
  intros [Hh Hn Hx] Hmax. unfold pushEncoded.
  set (f := mkFrame ProtocolVer id (codec s) (to_u32 (nextSeq s + 1)) [] body).
  destruct (push_holds _ _ f Hh) as (r & Hr & Hh' & Hc). rewrite Hr. cbn [rbind].
  pose proof (zlen_nonneg log). assert (Hseq : to_u32 (nextSeq s + 1) = zlen log + 1) by (rewrite to_u32_id; lia).
  assert (HL : Logged (set_reliable (to_u32 (nextSeq s + 1)) r s) (log ++ [f])).
  { split; cbn.
    - rewrite Hc, lastn_snoc by (pose proof (ho_cap _ _ Hh); lia). done.
    - apply numbered_snoc; [done|]. exact Hseq.
    - rewrite zlen_snoc. exact Hseq. }
  match goal with |- context [Send ?c ?a ?b] => destruct (Send c a b) as [[e|] es] end;
    do 4 eexists; (split; [reflexivity|]); by split_and!.
Qed.

Lemma goOffline_buffers now s :
  ring (goOffline now s) = ring s ∧ nextSeq (goOffline now s) = nextSeq s ∧ snaps (goOffline now s) = snaps s.
Proof. unfold goOffline. by case_decide. Qed.

(** Everything but a push leaves the buffers alone. *)
Lemma sopStep_buffers connPush o s :
  match o with OpPush _ _ | OpSnap _ _ => True | _ =>
    ∃ s', sopStep connPush o s = Ok s' ∧ ring s' = ring s ∧ nextSeq s' = nextSeq s ∧ snaps s' = snaps s
  end.
Proof.
  destruct o as [| |now c cd|now|now c|room]; cbn [sopStep]; try done; eexists; (split; [reflexivity|]); try done.
  - cbn. by destruct (goOffline_buffers now (set_conn (mkConn None (ctoken (conn s)) (lastActive (conn s))) s)).
  - unfold unbindIfConn. destruct (UnbindIfConn (conn s) c) as [[old|] cs]; [|done]. cbn [snd].
    by destruct (goOffline_buffers now (set_conn cs s)).
Qed.

(** The snapshot cache agrees with the last snapshot of each id. *)
Definition snapsAre (s : Session) (look : Z → option (list Z)) : Prop :=
  ∀ id, Body <$> (snaps s !! id) = look id.

Lemma sopRun_buffers connPush os s log look :
  Logged s log → snapsAre s look → zlen log + zlen (pushesOf os) < 2^32 →
  ∃ s' log', sopRun connPush os s = Ok s' ∧ Logged s' (log ++ log') ∧ msgOf <$> log' = pushesOf os ∧
    rcap (ring s') = rcap (ring s) ∧
    snapsAre s' (fun id => match lastSnap id os with Some b => Some b | None => look id end).
Proof.
  revert s log look. induction os as [|o os IH]; intros s log look HL HS Hmax.
  { exists s, []. rewrite app_nil_r. by split_and!. }
  cbn [sopRun].
  assert (Hother : (∃ s', sopStep connPush o s = Ok s' ∧ ring s' = ring s ∧ nextSeq s' = nextSeq s ∧ snaps s' = snaps s)
    → pushesOf (o :: os) = pushesOf os → (∀ id, lastSnap id (o :: os) = lastSnap id os) →
    ∃ s' log', (let! s := sopStep connPush o s in sopRun connPush os s) = Ok s' ∧ Logged s' (log ++ log') ∧
      msgOf <$> log' = pushesOf (o :: os) ∧ rcap (ring s') = rcap (ring s) ∧
      snapsAre s' (fun id => match lastSnap id (o :: os) with Some b => Some b | None => look id end)).
  { intros (s1 & -> & H1 & H2 & H3) Hp Hl. cbn [rbind]. rewrite Hp in Hmax |- *.
    destruct (IH s1 log look) as (s' & log' & R1 & R2 & R3 & R4 & R5); [by eapply Logged_ext| |done|].
    { intros id. rewrite H3. apply HS. }
    exists s', log'. split_and!; [done..|by rewrite R4, H1|]. intros id. rewrite Hl. apply R5. }
  pose proof (sopStep_buffers connPush o s) as Hstep.
  destruct o as [id body|id body|now c cd|now|now c|room]; try (by apply Hother).
  - clear Hother. cbn [pushesOf omap list_omap] in Hmax. fold (pushesOf os) in Hmax. rewrite zlen_cons in Hmax.
    pose proof (zlen_nonneg (pushesOf os)).
    destruct (push_Logged connPush s log id body HL) as (e & s1 & es & f & E & HL1 & Hm & Hc & Hsn); [lia|].
    cbn [sopStep]. rewrite E. cbn [rbind].
    destruct (IH s1 (log ++ [f]) look) as (s' & log' & R1 & R2 & R3 & R4 & R5); [done| |rewrite zlen_snoc; lia|].
    { intros id'. rewrite Hsn. apply HS. }
    exists s', (f :: log'). rewrite <- app_assoc in R2. split_and!; try done.
    + rewrite fmap_cons, Hm, R3. done.
    + by rewrite R4, Hc.
  - clear Hother. cbn [sopStep]. destruct (pushEncoded connPush s id body true) as [[[e s1] es]| |] eqn:E.
    2,3: exfalso; unfold pushEncoded in E; cbn [rbind] in E;
      match type of E with context [Send ?c ?a ?b] => destruct (Send c a b) as [[?|] ?] end; done.
    cbn [rbind]. pose proof (pushEncoded_buffers _ _ _ _ _ _ E s1 eq_refl) as Hs1. cbv beta iota in Hs1.
    destruct (IH s1 log (fun id' => if decide (id = id') then Some body else look id'))
      as (s' & log' & R1 & R2 & R3 & R4 & R5); [subst s1; by apply (Logged_ext s)| |done|].
    { subst s1. intros id'. cbn [snaps set_snaps]. unfold put. cbn [MsgID].
      destruct (decide (id = id')) as [<-|Hne]; [by rewrite lookup_insert_eq|].
      rewrite lookup_insert_ne by done. apply HS. }
    exists s', log'. split_and!; try done; [by rewrite R4, Hs1|]. intros id'. rewrite (R5 id'). cbn [lastSnap].
    destruct (lastSnap id' os); [done|]. by case_decide.
Qed.

Lemma newSession_Logged now uid c cd cap : 0 < cap → Logged (newSession now uid c cd cap) [].
Proof.
  intros Hc. split; [|by intros i f Hf; rewrite lookup_nil in Hf|done].
  unfold lastn. rewrite drop_nil. by apply holds_new.
Qed.

(** What [ReplayFor] gives for a session with the buffers of a history. *)
Lemma ReplayFor_history connPush now uid c cd cap os last ids s1 s :
  0 < cap → zlen (pushesOf os) < 2^32 - 1 → 0 ≤ last ≤ zlen (pushesOf os) →
  sopRun connPush os (newSession now uid c cd cap) = Ok s1 → ring s = ring s1 → snaps s = snaps s1 →
  let ov := bool_decide (cap < zlen (pushesOf os) - last) in
  ∃ rel, ReplayFor s last ids = Ok (rel, all (snaps s) ids, ov) ∧
    msgOf <$> rel = (if ov then [] else drop (Z.to_nat last) (pushesOf os)) ∧
    (∀ i f, rel !! i = Some f → Seq f = last + Z.of_nat i + 1) ∧ snapsAre s (fun id => lastSnap id os).
Proof.
  intros Hc Hmax Hl E1 Hring Hsn.
  destruct (sopRun_buffers connPush os (newSession now uid c cd cap) [] (fun _ => None))
    as (s' & log & E & [R1 R2 R3] & Hm & Hcap & HS).
  - by apply newSession_Logged.
  - intros id. cbn. by rewrite lookup_empty.
  - rewrite zlen_nil. lia.
  - rewrite E in E1. injection E1 as ->. cbn [app] in *.
    assert (Hlen : zlen log = zlen (pushesOf os)) by (unfold zlen; by rewrite <- Hm, length_fmap).
    assert (Hsnaps : snapsAre s (fun id => lastSnap id os)).
    { intros id. rewrite Hsn, (HS id). by destruct (lastSnap id os). }
    unfold ReplayFor. rewrite Hring, (since_log _ log last) by (done || lia).
    cbn [newSession ring newRingBuffer rcap] in Hcap. rewrite Hcap, Hlen. cbv zeta. case_decide; cbn [rbind].
    + rewrite bool_decide_false by lia. eexists. split; [reflexivity|]. split; [by rewrite <- Hm, fmap_drop|]. split; [|done].
      intros i f. rewrite lookup_drop. intros Hf. rewrite (R2 _ _ Hf). lia.
    + rewrite bool_decide_true by lia. eexists. split; [reflexivity|]. done.
Qed.

(** C10. Reliable delivery across reconnects: however pushes, snapshots,
    disconnects and rebinds interleave, a client that saw the first [last]
    reliable messages gets exactly the ones it missed, in order and with
    consecutive sequence numbers, as long as it missed at most the buffer's
    capacity; otherwise it gets no frames and the overflow flag. *)
Theorem replay_exact connPush now uid c cd cap os last ids :
  0 < cap → zlen (pushesOf os) < 2^32 - 1 → 0 ≤ last ≤ zlen (pushesOf os) →
  ∃ s rel sn ov, sopRun connPush os (newSession now uid c cd cap) = Ok s ∧
    ReplayFor s last ids = Ok (rel, sn, ov) ∧
    if decide (zlen (pushesOf os) - last ≤ cap) then
      ov = false ∧ msgOf <$> rel = drop (Z.to_nat last) (pushesOf os) ∧
      ∀ i f, rel !! i = Some f → Seq f = last + Z.of_nat i + 1
    else ov = true ∧ rel = [].
Proof.
  intros Hc Hmax Hl.
  destruct (sopRun_buffers connPush os (newSession now uid c cd cap) [] (fun _ => None)) as (s & _ & E & _).
  - by apply newSession_Logged.
  - intros id. cbn. by rewrite lookup_empty.
  - rewrite zlen_nil. lia.
  - destruct (ReplayFor_history connPush now uid c cd cap os last ids s s) as (rel & Hr & Hm & Hs & _); [done..|].
    exists s. do 3 eexists. split; [done|]. split; [exact Hr|].
    destruct (decide (zlen (pushesOf os) - last ≤ cap)) as [Hle|Hgt].
    + assert (bool_decide (cap < zlen (pushesOf os) - last) = false) as Eo by (apply bool_decide_false; lia).
      rewrite Eo in Hm |- *. done.
    + assert (bool_decide (cap < zlen (pushesOf os) - last) = true) as Eo by (apply bool_decide_true; lia).
      rewrite Eo in Hm |- *. split; [done|]. by apply fmap_nil_inv in Hm.
Qed.

(** The snapshot channel is latest-wins: asking for one id returns exactly
    the last snapshot pushed under it, whatever else happened. *)
Theorem snapshot_latest connPush now uid c cd cap os id :
  0 < cap → zlen (pushesOf os) < 2^32 →
  ∃ s, sopRun connPush os (newSession now uid c cd cap) = Ok s ∧
    Body <$> Snapshots s [id] = match lastSnap id os with Some b => [b] | None => [] end.
Proof.
  intros Hc Hmax.
  destruct (sopRun_buffers connPush os (newSession now uid c cd cap) [] (fun _ => None))
    as (s & log & E & _ & _ & _ & HS).
  - by apply newSession_Logged.
  - intros id'. cbn. by rewrite lookup_empty.
  - rewrite zlen_nil. lia.
  - exists s. split; [done|]. unfold Snapshots, all. rewrite decide_False by done. specialize (HS id).
    cbn [omap list_omap]. destruct (snaps s !! id) as [f|]; cbn in *; destruct (lastSnap id os); naive_solver.
Qed.

Definition demoOps : list sop :=
  [OpPush 16 [1]; OpPush 17 [2]; OpSnap 5 [9]; OpUnbind 7; OpPush 18 [3]; OpSnap 5 [8]; OpBind 9 44 1; OpPush 19 [4]].

Lemma replay_exact_witness :
  ∃ s rel sn, sopRun (fun _ _ => true) demoOps (newSession 1 "u" 43 0 2) = Ok s ∧
    ReplayFor s 2 [5] = Ok (rel, sn, false) ∧ msgOf <$> rel = [(18, [3]); (19, [4])].
Proof.
  destruct (replay_exact (fun _ _ => true) 1 "u" 43 0 2 demoOps 2 [5] ltac:(lia) ltac:(vm_compute; reflexivity)
    ltac:(vm_compute; split; discriminate)) as (s & rel & sn & ov & H1 & H2 & H3).
  rewrite decide_True in H3 by (vm_compute; discriminate). destruct H3 as (-> & H3 & _).
  exists s, rel, sn. split; [exact H1|]. split; [exact H2|]. exact H3.
Defined.

Lemma snapshot_latest_witness :
  ∃ s, sopRun (fun _ _ => true) demoOps (newSession 1 "u" 43 0 2) = Ok s ∧ Body <$> Snapshots s [5] = [[8]].
Proof.
  exact (snapshot_latest (fun _ _ => true) 1 "u" 43 0 2 demoOps 5 ltac:(lia) ltac:(vm_compute; reflexivity)).
Defined.
