(* ===== verification/SessionManager.v ===== *)
(** * The session manager (internal/session/manager.go)

    Sessions live in a store; the three indexes of the manager hold pointers
    into it. Fresh random tokens ([genToken]) and the clock are arguments of
    the operations that use them. *)

From S2P Require Import Prelude Frame Replay Session.

Definition MsgKick : Z := 0x0020.

Record Config := mkConfig {
  ReplayCapacity : Z; GracePeriod : Z; SweepInterval : Z; HeartbeatMS : Z }.

Definition withDefaults (c : Config) : Config :=
  mkConfig (if decide (ReplayCapacity c ≤ 0) then 256 else ReplayCapacity c)
           (if decide (GracePeriod c ≤ 0) then 60 * 10^9 else GracePeriod c)
           (if decide (SweepInterval c ≤ 0) then 5 * 10^9 else SweepInterval c)
           (if decide (HeartbeatMS c ≤ 0) then 15000 else HeartbeatMS c).

Record Manager := mkManager {
  heap : gmap nat Session;         (* the session objects *)
  nextPtr : nat;
  byUID : gmap string nat;
  byConn : gmap Z nat;
  byToken : gmap string nat;
  online_sessions : Z;             (* the gauge *)
  session_released_total : Z;
  sout : list sevent }.

Definition NewManager : Manager := mkManager ∅ 0 ∅ ∅ ∅ 0 0 [].

Definition set_heap (h : gmap nat Session) (m : Manager) : Manager :=
  mkManager h (nextPtr m) (byUID m) (byConn m) (byToken m) (online_sessions m) (session_released_total m) (sout m).
Definition set_byUID (v : gmap string nat) (m : Manager) : Manager :=
  mkManager (heap m) (nextPtr m) v (byConn m) (byToken m) (online_sessions m) (session_released_total m) (sout m).
Definition set_byConn (v : gmap Z nat) (m : Manager) : Manager :=
  mkManager (heap m) (nextPtr m) (byUID m) v (byToken m) (online_sessions m) (session_released_total m) (sout m).
Definition set_byToken (v : gmap string nat) (m : Manager) : Manager :=
  mkManager (heap m) (nextPtr m) (byUID m) (byConn m) v (online_sessions m) (session_released_total m) (sout m).
Definition sayM (es : list sevent) (m : Manager) : Manager :=
  mkManager (heap m) (nextPtr m) (byUID m) (byConn m) (byToken m) (online_sessions m) (session_released_total m)
    (sout m ++ es).
Definition put_sess (p : nat) (s : Session) (m : Manager) : Manager := set_heap (<[p := s]> (heap m)) m.

(** [if m.byConn[c] == sess { delete(m.byConn, c) }] *)
Definition dropConn (c : Z) (p : nat) (m : Manager) : Manager :=
  if decide (byConn m !! c = Some p) then set_byConn (delete c (byConn m)) m else m.

Definition Get (uid : string) (m : Manager) : option nat := byUID m !! uid.
Definition GetByConnID (c : Z) (m : Manager) : option nat := byConn m !! c.
Definition OnlineCount (m : Manager) : Z := Z.of_nat (base.size (byUID m)).

(** The common end of [destroy] and [kickAndDestroy]: release the session,
    close its connection, count, call back. *)
Definition releaseSession (p : nat) (s : Session) (reason : string) (m : Manager) : Manager :=
  let m := put_sess p (markReleased s) m in
  let m := sayM (match cconn (conn s) with Some c => [EvClosed c reason] | None => [] end) m in
  let m := mkManager (heap m) (nextPtr m) (byUID m) (byConn m) (byToken m)
             (online_sessions m - 1) (session_released_total m + 1) (sout m) in
  sayM [EvRelease (suid s) (sroom s)] m.

(** [removeFromMaps]: the flag says whether the session was on record. *)
Definition removeFromMaps (p : nat) (s : Session) (m : Manager) : bool * Manager :=
  if decide (byUID m !! suid s ≠ Some p) then (false, m) else
  let m := set_byUID (delete (suid s) (byUID m)) m in
  let m := if decide (ctoken (conn s) ≠ EmptyString)
           then set_byToken (delete (ctoken (conn s)) (byToken m)) m else m in
  let m := match cconn (conn s) with Some c => dropConn c p m | None => m end in
  (true, m).

Definition destroy (p : nat) (reason : string) (m : Manager) : res Manager :=
  match heap m !! p with
  | None => Panic
  | Some s =>
      let '(ok, m) := removeFromMaps p s m in
      if ok then Ok (releaseSession p s reason m) else Ok m
  end.

(** The first half of [Sweep], under the read lock. *)
Definition expired (grace now : Z) (m : Manager) (p : nat) : bool :=
  match heap m !! p with
  | Some s => bool_decide (sst s = stateOffline) && (offlineDuration s now >=? grace)
  | None => false
  end.
Definition sweepCandidates (grace now : Z) (m : Manager) : list nat :=
  filter (fun p => expired grace now m p = true) ((map_to_list (byUID m)).*2).

Fixpoint destroyAll (ps : list nat) (m : Manager) : res Manager :=
  match ps with
  | [] => Ok m
  | p :: ps => let! m := destroy p "grace period expired" m in destroyAll ps m
  end.

(** The whole call, when no other runs between the scan and the releases; the
    steps below interleave them. *)
Definition Sweep (grace now : Z) (m : Manager) : res (Z * Manager) :=
  let cs := sweepCandidates grace now m in
  let! m := destroyAll cs m in Ok (zlen cs, m).

(** [MarkOffline]: [old.ID()] panics when the session had no connection. *)
Definition MarkOffline (now : Z) (p : nat) (m : Manager) : res Manager :=
  match heap m !! p with
  | None => Panic
  | Some s =>
      let '(old, s) := unbind now s in
      let m := put_sess p s m in
      match old with
      | None => Panic
      | Some c => Ok (sayM [EvClosed c "session offline"] (dropConn c p m))
      end
  end.

Definition MarkOfflineConn (now : Z) (p : nat) (connID : Z) (m : Manager) : res (bool * Manager) :=
  match heap m !! p with
  | None => Panic
  | Some s =>
      match unbindIfConn now s connID with
      | (None, _) => Ok (false, m)
      | (Some old, s) =>
          Ok (true, sayM [EvClosed old "session offline"] (dropConn connID p (put_sess p s m)))
      end
  end.

(** [Reconnect] takes the read lock for the lookup and the write lock for the
    rest; between the two other calls may run. *)
Definition lookupToken (token : string) (m : Manager) : option nat := byToken m !! token.

Definition finishReconnect (now : Z) (newToken : string) (p : nat) (token : string) (c codec : Z)
    (m : Manager) : res ((serr + nat) * Manager) :=
  match heap m !! p with
  | None => Panic
  | Some s =>
      let '(ok, cs) := RotateToken (conn s) token newToken in
      if ok then
        let '(old, s) := bind now (set_conn cs s) c codec in
        let m := put_sess p s m in
        let m := set_byToken (<[newToken := p]> (delete token (byToken m))) m in
        let m := match old with Some o => dropConn o p m | None => m end in
        let m := set_byConn (<[c := p]> (byConn m)) m in
        let m := match old with
                 | Some o => if decide (o ≠ c) then sayM [EvClosed o "reconnected from another conn"] m else m
                 | None => m end in
        Ok (inr p, m)
      else Ok (inl ErrTokenInvalid, m)
  end.

(** The whole call, when no other runs between its halves; the steps below
    interleave them. *)
Definition Reconnect (now : Z) (newToken token : string) (c codec : Z) (m : Manager)
    : res ((serr + nat) * Manager) :=
  match lookupToken token m with
  | None => Ok (inl ErrTokenInvalid, m)
  | Some p => finishReconnect now newToken p token c codec m
  end.

Section Create.
Context (cfg : Config) (connPush : Z → list Z → bool).
(** The kick notice encoded with a codec. *)
Context (kickBody : Z → option (list Z)).

Definition kickAndDestroy (p : nat) (reason : string) (m : Manager) : res Manager :=
  match heap m !! p with
  | None => Panic
  | Some s =>
      let! (_, s, es) := PushReliable connPush s MsgKick kickBody in
      let m := sayM es (put_sess p s m) in
      let m := if decide (ctoken (conn s) ≠ EmptyString ∧ byToken m !! ctoken (conn s) = Some p)
               then set_byToken (delete (ctoken (conn s)) (byToken m)) m else m in
      let m := match cconn (conn s) with Some c => dropConn c p m | None => m end in
      Ok (releaseSession p s reason m)
  end.

Definition Create (now : Z) (token uid : string) (c codec : Z) (m : Manager) : res (nat * Manager) :=
  let s := newSession now uid c codec (ReplayCapacity cfg) in
  let s := set_conn (SetToken (conn s) token) s in
  let p := nextPtr m in
  let old := byUID m !! uid in
  let m := mkManager (<[p := s]> (heap m)) (S p) (<[uid := p]> (byUID m)) (<[c := p]> (byConn m))
             (<[token := p]> (byToken m)) (online_sessions m + 1) (session_released_total m) (sout m) in
  match old with
  | Some q => let! m := kickAndDestroy q "replaced by new login" m in Ok (p, m)
  | None => Ok (p, m)
  end.

(** A push to a session in the store (rooms and handlers do this). *)
Definition pushTo (p : nat) (msgID : Z) (body : list Z) (snapshot : bool) (m : Manager) : res Manager :=
  match heap m !! p with
  | None => Panic
  | Some s => let! (_, s, es) := pushEncoded connPush s msgID body snapshot in Ok (sayM es (put_sess p s m))
  end.
End Create.

(** ** The invariant of the indexes *)

Definition isRelease (e : sevent) : bool := match e with EvRelease _ _ => true | _ => false end.
Definition releases (es : list sevent) : nat := length (filter (fun e => isRelease e = true) es).
Definition live (s : Session) : Prop := sst s ≠ stateReleased.

(** The session [x], if any, is on its way out: it is live but no longer (or
    not for long) the session of its uid. *)
Record MInvX (x : option nat) (m : Manager) : Prop := {
  mx_ptr p s : heap m !! p = Some s → (p < nextPtr m)%nat;
  mx_uid u p : byUID m !! u = Some p → Some p ≠ x ∧ ∃ s, heap m !! p = Some s ∧ suid s = u ∧ live s;
  mx_live p s : heap m !! p = Some s → live s →
    byToken m !! ctoken (conn s) = Some p ∧ ctoken (conn s) ≠ EmptyString ∧
    (Some p ≠ x → byUID m !! suid s = Some p);
  mx_token t p : byToken m !! t = Some p → ∃ s, heap m !! p = Some s ∧ ctoken (conn s) = t ∧ live s;
  mx_conn c p : byConn m !! c = Some p → ∃ s, heap m !! p = Some s ∧ cconn (conn s) = Some c ∧ live s;
  mx_bound p s : heap m !! p = Some s → live s → (sst s = stateOnline ↔ is_Some (cconn (conn s)));
  mx_ring p s : heap m !! p = Some s → ∃ fs, holds (ring s) fs;
  mx_x p : x = Some p → ∃ s, heap m !! p = Some s ∧ live s;
  mx_gauge : online_sessions m = Z.of_nat (base.size (byUID m)) + (if x is Some _ then 1 else 0);
  mx_count : session_released_total m = Z.of_nat (releases (sout m)) }.

Notation MInv := (MInvX None).

Lemma releases_app es es' : releases (es ++ es') = (releases es + releases es')%nat.
Proof. unfold releases. by rewrite filter_app, length_app. Qed.

(** Rewriting a session that stays what the indexes say it is. *)
Lemma MInvX_put x m p s s' es :
  MInvX x m → heap m !! p = Some s → releases es = 0%nat →
  suid s' = suid s → (live s' ↔ live s) → ctoken (conn s') = ctoken (conn s) → cconn (conn s') = cconn (conn s) →
  (sst s' = stateOnline ↔ sst s = stateOnline) → (∃ fs, holds (ring s') fs) →
  MInvX x (sayM es (put_sess p s' m)).
Proof.
  intros [I1 I2 I3 I4 I5 I6 I7 I8 I9 I10] Hp Hes Hu Hl Ht Hc Hst Hr.
  assert (Hlk : ∀ q r, <[p := s']> (heap m) !! q = Some r →
    ∃ r0, heap m !! q = Some r0 ∧ suid r = suid r0 ∧ (live r ↔ live r0) ∧ ctoken (conn r) = ctoken (conn r0) ∧
      cconn (conn r) = cconn (conn r0) ∧ (sst r = stateOnline ↔ sst r0 = stateOnline)).
  { intros q r. destruct (decide (p = q)) as [<-|Hne].
    - rewrite lookup_insert_eq. intros [= <-]. exists s. by split_and!.
    - rewrite lookup_insert_ne by done. intros Hq. exists r. by split_and!. }
  assert (Hex : ∀ q r0, heap m !! q = Some r0 → ∃ r, <[p := s']> (heap m) !! q = Some r ∧ suid r = suid r0 ∧
    (live r ↔ live r0) ∧ ctoken (conn r) = ctoken (conn r0) ∧ cconn (conn r) = cconn (conn r0)).
  { intros q r0 Hq. destruct (decide (p = q)) as [<-|Hne].
    - rewrite lookup_insert_eq. exists s'. rewrite Hp in Hq. injection Hq as <-. by split_and!.
    - rewrite lookup_insert_ne by done. exists r0. by split_and!. }
  split; cbn [sayM put_sess set_heap heap nextPtr byUID byConn byToken online_sessions session_released_total sout].
  - intros q r (r0 & Hq & _)%Hlk. by eapply I1.
  - intros u q Hq. destruct (I2 _ _ Hq) as (Hx & r0 & Hr0 & Hu0 & Hl0).
    destruct (Hex _ _ Hr0) as (r & ? & ? & ? & _). split; [done|]. exists r. naive_solver.
  - intros q r (r0 & Hq & E1 & E2 & E3 & _)%Hlk Hlr. rewrite E1, E3. apply (I3 _ _ Hq). by apply E2.
  - intros t q Hq. destruct (I4 _ _ Hq) as (r0 & Hr0 & Ht0 & Hl0).
    destruct (Hex _ _ Hr0) as (r & ? & ? & ? & ? & _). exists r. naive_solver.
  - intros c q Hq. destruct (I5 _ _ Hq) as (r0 & Hr0 & Ht0 & Hl0).
    destruct (Hex _ _ Hr0) as (r & ? & ? & ? & ? & ?). exists r. naive_solver congruence.
  - intros q r (r0 & Hq & E1 & E2 & E3 & E4 & E5)%Hlk Hlr. rewrite E5, E4. apply (I6 _ _ Hq). by apply E2.
  - intros q r. destruct (decide (p = q)) as [<-|Hne].
    + rewrite lookup_insert_eq. by intros [= <-].
    + rewrite lookup_insert_ne by done. apply I7.
  - intros q Hq. destruct (I8 _ Hq) as (r0 & Hr0 & Hl0). destruct (Hex _ _ Hr0) as (r & ? & ? & ? & _). naive_solver.
  - exact I9.
  - rewrite releases_app, Hes. rewrite I10. lia.
Qed.

(** *** Releasing a session *)

(** Nothing but its uid can lead to [p] any more. *)
Definition unlinked (p : nat) (m : Manager) : Prop :=
  (∀ t, byToken m !! t ≠ Some p) ∧ (∀ c, byConn m !! c ≠ Some p).

Definition unlink (p : nat) (s : Session) (m : Manager) : Manager :=
  let m := set_byToken (delete (ctoken (conn s)) (byToken m)) m in
  match cconn (conn s) with Some c => dropConn c p m | None => m end.

Lemma dropConn_fields c p m :
  heap (dropConn c p m) = heap m ∧ nextPtr (dropConn c p m) = nextPtr m ∧ byUID (dropConn c p m) = byUID m ∧
  byToken (dropConn c p m) = byToken m ∧ online_sessions (dropConn c p m) = online_sessions m ∧
  session_released_total (dropConn c p m) = session_released_total m ∧ sout (dropConn c p m) = sout m.
Proof. unfold dropConn. by case_decide. Qed.

Lemma dropConn_lookup c p m c' q :
  byConn (dropConn c p m) !! c' = Some q ↔ byConn m !! c' = Some q ∧ (c', q) ≠ (c, p).
Proof.
  unfold dropConn. case_decide as E; cbn [set_byConn byConn].
  - destruct (decide (c = c')) as [<-|Hne].
    + rewrite lookup_delete_eq. naive_solver.
    + rewrite lookup_delete_ne by done. naive_solver.
  - split; [|naive_solver]. intros Hq. split; [done|]. intros [= -> ->]. done.
Qed.

Lemma unlink_spec p s m :
  MInvX (Some p) m → heap m !! p = Some s →
  unlinked p (unlink p s m) ∧ heap (unlink p s m) = heap m ∧ byUID (unlink p s m) = byUID m ∧
  online_sessions (unlink p s m) = online_sessions m ∧ nextPtr (unlink p s m) = nextPtr m ∧
  session_released_total (unlink p s m) = session_released_total m ∧ sout (unlink p s m) = sout m ∧
  (∀ t q, byToken (unlink p s m) !! t = Some q ↔ byToken m !! t = Some q ∧ q ≠ p) ∧
  (∀ c q, byConn (unlink p s m) !! c = Some q ↔ byConn m !! c = Some q ∧ q ≠ p).
Proof.
  intros [I1 I2 I3 I4 I5 I6 I7 I8 I9 I10] Hp.
  destruct (I8 p eq_refl) as (s0 & Hs0 & Hl). rewrite Hp in Hs0. injection Hs0 as <-.
  assert (Htok : ∀ t q, delete (ctoken (conn s)) (byToken m) !! t = Some q ↔ byToken m !! t = Some q ∧ q ≠ p).
  { intros t q. destruct (decide (ctoken (conn s) = t)) as [<-|Hne].
    - rewrite lookup_delete_eq. destruct (I3 _ _ Hp Hl) as (-> & _). naive_solver.
    - rewrite lookup_delete_ne by done. split; [|naive_solver]. intros Hq. split; [done|]. intros ->.
      destruct (I4 _ _ Hq) as (s1 & ? & ? & _). naive_solver. }
  assert (Hown : ∀ c, byConn m !! c = Some p → cconn (conn s) = Some c).
  { intros c Hc. destruct (I5 _ _ Hc) as (s1 & ? & ? & _). naive_solver. }
  assert (Hconn : ∀ c q, byConn (unlink p s m) !! c = Some q ↔ byConn m !! c = Some q ∧ q ≠ p).
  { intros c q. unfold unlink. destruct (cconn (conn s)) as [c0|].
    - rewrite dropConn_lookup. cbn [set_byToken byConn]. split; [|naive_solver].
      intros [Hq Hne]. split; [done|]. intros ->. specialize (Hown _ Hq). congruence.
    - cbn [set_byToken byConn]. split; [|naive_solver]. intros Hq. split; [done|]. intros ->. by specialize (Hown _ Hq). }
  assert (Hrest : heap (unlink p s m) = heap m ∧ nextPtr (unlink p s m) = nextPtr m ∧
    byUID (unlink p s m) = byUID m ∧ byToken (unlink p s m) = delete (ctoken (conn s)) (byToken m) ∧
    online_sessions (unlink p s m) = online_sessions m ∧
    session_released_total (unlink p s m) = session_released_total m ∧ sout (unlink p s m) = sout m).
  { unfold unlink. destruct (cconn (conn s)) as [c|]; [|done]. exact (dropConn_fields c p (set_byToken _ m)). }
  destruct Hrest as (R1 & R2 & R3 & R4 & R5 & R6 & R7).
  split; [split|split_and!; try done].
  - intros t Ht. rewrite R4 in Ht. apply Htok in Ht. naive_solver.
  - intros c Hc. apply Hconn in Hc. naive_solver.
  - intros t q. by rewrite R4.
Qed.

(** Unlinking and releasing the outgoing session restores the invariant. *)
Lemma release_MInv p s reason m :
  MInvX (Some p) m → heap m !! p = Some s → MInv (releaseSession p s reason (unlink p s m)).
Proof.
  intros HI Hp. destruct (unlink_spec p s m HI Hp) as (Hun & R1 & R2 & R3 & R4 & R5 & R6 & Ht & Hc).
  destruct HI as [I1 I2 I3 I4 I5 I6 I7 I8 I9 I10].
  set (m' := unlink p s m) in *. unfold releaseSession.
  assert (Hlk : ∀ q r, <[p := markReleased s]> (heap m') !! q = Some r → live r → q ≠ p ∧ heap m !! q = Some r).
  { intros q r Hq Hr. destruct (decide (p = q)) as [<-|Hne].
    - rewrite lookup_insert_eq in Hq. injection Hq as <-. by destruct Hr.
    - rewrite lookup_insert_ne, R1 in Hq by done. done. }
  assert (Hex : ∀ q r, q ≠ p → heap m !! q = Some r → <[p := markReleased s]> (heap m') !! q = Some r).
  { intros q r Hne Hq. by rewrite lookup_insert_ne, R1. }
  split; cbn [sayM put_sess set_heap heap nextPtr byUID byConn byToken online_sessions session_released_total sout].
  - intros q r. destruct (decide (p = q)) as [<-|Hne].
    + intros _. rewrite R4. by eapply I1.
    + rewrite lookup_insert_ne, R1, R4 by done. apply I1.
  - intros u q. rewrite R2. intros Hq. destruct (I2 _ _ Hq) as (Hx & r & Hr & ? & ?). split; [done|].
    exists r. split; [apply Hex; [congruence|done]|done].
  - intros q r Hq Hl. destruct (Hlk q r Hq Hl) as [Hne Hq']. destruct (I3 _ _ Hq' Hl) as (T1 & T2 & T3).
    rewrite R2. split; [by apply Ht|]. split; [done|]. intros _. apply T3. congruence.
  - intros t q [Hq Hne]%Ht. destruct (I4 _ _ Hq) as (r & ? & ? & ?). exists r. auto.
  - intros c q [Hq Hne]%Hc. destruct (I5 _ _ Hq) as (r & ? & ? & ?). exists r. auto.
  - intros q r Hq Hl. destruct (Hlk q r Hq Hl) as [_ Hq']. by apply (I6 q).
  - intros q r. destruct (decide (p = q)) as [<-|Hne].
    + rewrite lookup_insert_eq. intros [= <-]. apply (I7 _ _ Hp).
    + rewrite lookup_insert_ne, R1 by done. apply I7.
  - done.
  - rewrite R3, R2, I9. lia.
  - rewrite !releases_app, R5, R6, I10.
    change (releases [EvRelease (suid s) (sroom s)]) with 1%nat.
    assert (releases (match cconn (conn s) with Some c => [EvClosed c reason] | None => [] end) = 0%nat) as ->
      by (by destruct (cconn (conn s))).
    lia.
Qed.

(** *** Every operation keeps the invariant *)

Lemma removeFromMaps_unlink p s m :
  byUID m !! suid s = Some p → ctoken (conn s) ≠ EmptyString →
  removeFromMaps p s m = (true, unlink p s (set_byUID (delete (suid s) (byUID m)) m)).
Proof.
  intros Hu Ht. unfold removeFromMaps, unlink. rewrite decide_False by (intros E; by apply E).
  rewrite decide_True by done. done.
Qed.

Lemma size_delete_key {A} (k : string) (x : A) (mm : gmap string A) :
  mm !! k = Some x → Z.of_nat (base.size (delete k mm)) + 1 = Z.of_nat (base.size mm).
Proof.
  intros Hk. rewrite <- (insert_id mm k x Hk) at 2. rewrite <- insert_delete_eq.
  rewrite map_size_insert_None by apply lookup_delete_eq. lia.
Qed.

Lemma destroy_MInv p reason m s :
  MInv m → heap m !! p = Some s → ∃ m', destroy p reason m = Ok m' ∧ MInv m' ∧
    (∀ q r, q ≠ p → heap m !! q = Some r → heap m' !! q = Some r) ∧
    (byUID m !! suid s = Some p → heap m' !! p = Some (markReleased s) ∧ byUID m' = delete (suid s) (byUID m)) ∧
    (∀ q, is_Some (heap m !! q) → is_Some (heap m' !! q)).
Proof.
  intros HI Hp. unfold destroy. rewrite Hp. destruct (decide (byUID m !! suid s = Some p)) as [Hu|Hu].
  2: { unfold removeFromMaps. rewrite decide_True by done. exists m. split_and!; try done. }
  destruct (mx_uid _ _ HI _ _ Hu) as (_ & s' & Hs' & _ & Hl). rewrite Hp in Hs'. injection Hs' as <-.
  destruct (mx_live _ _ HI _ _ Hp Hl) as (Ht & Hne & _).
  rewrite (removeFromMaps_unlink p s m Hu Hne). set (m1 := set_byUID _ m).
  assert (HX : MInvX (Some p) m1).
  { destruct HI as [I1 I2 I3 I4 I5 I6 I7 I8 I9 I10].
    split; cbn [m1 set_byUID heap nextPtr byUID byConn byToken online_sessions session_released_total sout]; try done.
    - intros u q. destruct (decide (suid s = u)) as [<-|Hu'].
      + by rewrite lookup_delete_eq.
      + rewrite lookup_delete_ne by done. intros Hq. destruct (I2 _ _ Hq) as (_ & r & Hr & Hru & Hrl).
        split; [|by exists r]. intros [= ->]. rewrite Hp in Hr. by injection Hr as <-.
    - intros q r Hq Hlr. destruct (I3 _ _ Hq Hlr) as (T1 & T2 & T3). split_and!; [done..|]. intros Hqp.
      rewrite lookup_delete_ne; [by apply T3|]. intros E. specialize (T3 ltac:(done)).
      rewrite <- E, Hu in T3. congruence.
    - intros q [= <-]. by exists s.
    - rewrite I9. pose proof (size_delete_key _ _ _ Hu). cbn. lia. }
  pose proof (unlink_spec p s m1 HX Hp) as (_ & Hheap & Huid & _).
  eexists. split; [reflexivity|]. split; [by apply release_MInv|].
  unfold releaseSession. cbn [sayM put_sess set_heap heap byUID]. rewrite Hheap, Huid. split_and!.
  - intros q r Hne' Hq. by rewrite lookup_insert_ne.
  - intros _. by rewrite lookup_insert_eq.
  - intros q Hq. destruct (decide (p = q)) as [<-|]; [by rewrite lookup_insert_eq; eauto|by rewrite lookup_insert_ne].
Qed.

Lemma destroyAll_MInv ps m :
  MInv m → (∀ p, p ∈ ps → is_Some (heap m !! p)) → ∃ m', destroyAll ps m = Ok m' ∧ MInv m'.
Proof.
  revert m. induction ps as [|p ps IH]; intros m HI Hps; cbn [destroyAll]; [by eexists|].
  destruct (Hps p) as [s Hs]; [set_solver|].
  destruct (destroy_MInv p "grace period expired" m s HI Hs) as (m1 & -> & HI1 & _ & _ & Hmono). cbn [rbind].
  apply IH; [done|]. intros q Hq. apply Hmono, Hps. set_solver.
Qed.

Lemma candidates_spec grace now m p :
  p ∈ sweepCandidates grace now m ↔
  (∃ u, byUID m !! u = Some p) ∧
  ∃ s, heap m !! p = Some s ∧ sst s = stateOffline ∧ offlineDuration s now >= grace.
Proof.
  unfold sweepCandidates. rewrite list_elem_of_filter, list_elem_of_fmap. unfold expired. split.
  - intros [He ([u q] & -> & Hq)]. apply elem_of_map_to_list in Hq. split; [by exists u|].
    cbn in *. destruct (heap m !! q) as [s|]; [|done]. apply andb_true_iff in He as [H1 H2].
    exists s. split; [done|]. split; [by apply bool_decide_eq_true in H1|]. apply Z.geb_le in H2. lia.
  - intros [[u Hu] (s & Hs & H1 & H2)]. rewrite Hs. split.
    + apply andb_true_iff. split; [by apply bool_decide_eq_true|]. apply Z.geb_le. lia.
    + exists (u, p). split; [done|]. by apply elem_of_map_to_list.
Qed.

Lemma Sweep_MInv grace now m : MInv m → ∃ n m', Sweep grace now m = Ok (n, m') ∧ MInv m'.
Proof.
  intros HI. unfold Sweep.
  destruct (destroyAll_MInv (sweepCandidates grace now m) m HI) as (m' & -> & HI').
  { intros p (_ & s & Hs & _)%candidates_spec. eauto. }
  cbn. eauto.
Qed.

Lemma goOffline_fields now s :
  suid (goOffline now s) = suid s ∧ conn (goOffline now s) = conn s ∧ ring (goOffline now s) = ring s ∧
  (live (goOffline now s) ↔ live s) ∧ (live s → sst (goOffline now s) = stateOffline).
Proof.
  unfold goOffline, live. case_decide as E; cbn.
  - rewrite E. split_and!; try done.
  - split_and!; try done. intros ?. by destruct (sst s).
Qed.

(** The common end of the two ways to go offline. *)
Lemma offline_MInv now p s c reason m :
  MInv m → heap m !! p = Some s → cconn (conn s) = Some c →
  MInv (sayM [EvClosed c reason] (dropConn c p (put_sess p
    (goOffline now (set_conn (mkConn None (ctoken (conn s)) (lastActive (conn s))) s)) m))).
Proof.
  intros [I1 I2 I3 I4 I5 I6 I7 I8 I9 I10] Hp Hc.
  set (s' := goOffline now _).
  destruct (goOffline_fields now (set_conn (mkConn None (ctoken (conn s)) (lastActive (conn s))) s))
    as (G1 & G2 & G3 & G4 & G5). fold s' in G1, G2, G3, G4, G5. cbn [set_conn suid conn ring] in G1, G2, G3.
  set (m1 := put_sess p s' m). destruct (dropConn_fields c p m1) as (F1 & F2 & F3 & F4 & F5 & F6 & F7).
  assert (Hh : heap m1 = <[p := s']> (heap m)) by done.
  assert (Hls : live s' ↔ live s) by exact G4.
  split; cbn [sayM heap nextPtr byUID byConn byToken online_sessions session_released_total sout];
    rewrite ?F1, ?F2, ?F3, ?F4, ?F5, ?F6, ?F7, ?Hh; cbn [m1 put_sess set_heap nextPtr byUID byToken online_sessions
      session_released_total sout].
  - intros q r. destruct (decide (p = q)) as [<-|Hne]; [intros _; by eapply I1|].
    rewrite lookup_insert_ne by done. apply I1.
  - intros u q Hq. destruct (I2 _ _ Hq) as (_ & r & Hr & Hu & Hl). split; [done|].
    destruct (decide (p = q)) as [<-|Hne].
    + exists s'. rewrite lookup_insert_eq. rewrite Hp in Hr. injection Hr as <-. rewrite G1. naive_solver.
    + exists r. by rewrite lookup_insert_ne.
  - intros q r. destruct (decide (p = q)) as [<-|Hne].
    + rewrite lookup_insert_eq. intros [= <-] Hl. rewrite G1, G2. cbn [ctoken]. apply (I3 _ _ Hp). by apply Hls.
    + rewrite lookup_insert_ne by done. apply I3.
  - intros t q Hq. destruct (I4 _ _ Hq) as (r & Hr & Ht & Hl). destruct (decide (p = q)) as [<-|Hne].
    + exists s'. rewrite lookup_insert_eq. rewrite Hp in Hr. injection Hr as <-. rewrite G2. naive_solver.
    + exists r. by rewrite lookup_insert_ne.
  - intros c' q [Hq Hne]%dropConn_lookup. destruct (I5 _ _ Hq) as (r & Hr & Hrc & Hl).
    destruct (decide (p = q)) as [<-|Hpq].
    + rewrite Hp in Hr. injection Hr as <-. naive_solver congruence.
    + exists r. by rewrite lookup_insert_ne.
  - intros q r. destruct (decide (p = q)) as [<-|Hne].
    + rewrite lookup_insert_eq. intros [= <-] Hl. rewrite G2. cbn [cconn].
      rewrite (G5 (proj1 Hls Hl)). split; [done|by intros []].
    + rewrite lookup_insert_ne by done. apply I6.
  - intros q r. destruct (decide (p = q)) as [<-|Hne].
    + rewrite lookup_insert_eq. intros [= <-]. rewrite G3. by eapply I7.
    + rewrite lookup_insert_ne by done. apply I7.
  - done.
  - exact I9.
  - rewrite releases_app, I10. change (releases [EvClosed c reason]) with 0%nat. lia.
Qed.

Lemma MarkOfflineConn_MInv now p s connID m :
  MInv m → heap m !! p = Some s → ∃ b m', MarkOfflineConn now p connID m = Ok (b, m') ∧ MInv m'.
Proof.
  intros HI Hp. unfold MarkOfflineConn, unbindIfConn, UnbindIfConn. rewrite Hp. case_decide as Hc.
  - do 2 eexists. split; [reflexivity|]. by apply offline_MInv.
  - do 2 eexists. split; [reflexivity|]. done.
Qed.

Lemma MarkOffline_MInv now p s m :
  MInv m → heap m !! p = Some s → is_Some (cconn (conn s)) → ∃ m', MarkOffline now p m = Ok m' ∧ MInv m'.
Proof.
  intros HI Hp [c Hc]. unfold MarkOffline, unbind, Unbind. rewrite Hp, Hc.
  eexists. split; [reflexivity|]. by apply offline_MInv.
Qed.

(** A successful reconnect, spelled out. *)
Definition rebound (now : Z) (newToken : string) (c cd : Z) (s : Session) : Session :=
  set_conn (mkConn (Some c) newToken now) (set_offlineAt 0 (set_sst stateOnline (set_codec cd s))).

Lemma Reconnect_token now newToken token c cd m p :
  MInv m → byToken m !! token = Some p →
  ∃ s m', heap m !! p = Some s ∧ ctoken (conn s) = token ∧ live s ∧
    Reconnect now newToken token c cd m = Ok (inr p, m') ∧
    heap m' = <[p := rebound now newToken c cd s]> (heap m) ∧
    byToken m' = <[newToken := p]> (delete token (byToken m)) ∧ byUID m' = byUID m ∧
    (∀ c' q, byConn m' !! c' = Some q ↔
       c' = c ∧ q = p ∨ c' ≠ c ∧ byConn m !! c' = Some q ∧ (cconn (conn s), q) ≠ (Some c', p)) ∧
    nextPtr m' = nextPtr m ∧ online_sessions m' = online_sessions m ∧
    session_released_total m' = session_released_total m ∧ releases (sout m') = releases (sout m).
Proof.
  intros HI Ht. destruct (mx_token _ _ HI _ _ Ht) as (s & Hs & Htk & Hl).
  exists s. unfold Reconnect, lookupToken, finishReconnect, RotateToken. rewrite Ht, Hs.
  rewrite decide_False by (intros E; by apply E). unfold bind, Bind.
  cbn [set_conn conn SetToken cconn ctoken lastActive]. eexists. split; [done|]. split; [done|]. split; [done|].
  split; [reflexivity|].
  set (m1 := set_byToken _ _). set (m2 := match cconn (conn s) with Some o => dropConn o p m1 | None => m1 end).
  assert (Hm2 : heap m2 = heap m1 ∧ nextPtr m2 = nextPtr m1 ∧ byUID m2 = byUID m1 ∧ byToken m2 = byToken m1 ∧
    online_sessions m2 = online_sessions m1 ∧ session_released_total m2 = session_released_total m1 ∧
    sout m2 = sout m1 ∧ (∀ c' q, byConn m2 !! c' = Some q ↔ byConn m !! c' = Some q ∧ (cconn (conn s), q) ≠ (Some c', p))).
  { unfold m2. destruct (cconn (conn s)) as [o|].
    - destruct (dropConn_fields o p m1) as (? & ? & ? & ? & ? & ? & ?). split_and!; try done.
      intros c' q. rewrite dropConn_lookup. cbn [m1 set_byToken byConn put_sess set_heap]. naive_solver.
    - split_and!; try done. intros c' q. cbn [m1 set_byToken byConn put_sess set_heap]. naive_solver. }
  destruct Hm2 as (F1 & F2 & F3 & F4 & F5 & F6 & F7 & F8).
  set (m3 := set_byConn _ m2).
  assert (Hm3 : ∀ m4, m4 = m3 ∨ (∃ es, m4 = sayM es m3 ∧ releases es = 0%nat) →
    heap m4 = heap m1 ∧ byToken m4 = byToken m1 ∧ byUID m4 = byUID m ∧ byConn m4 = <[c := p]> (byConn m2) ∧
    nextPtr m4 = nextPtr m ∧ online_sessions m4 = online_sessions m ∧
    session_released_total m4 = session_released_total m ∧ releases (sout m4) = releases (sout m)).
  { intros m4 [->|(es & -> & He)];
      cbn [m3 set_byConn sayM heap byToken byUID byConn nextPtr online_sessions session_released_total sout];
      rewrite ?F1, ?F2, ?F3, ?F4, ?F5, ?F6, ?F7, ?releases_app, ?He, ?Nat.add_0_r; by split_and!. }
  match goal with |- heap ?m4 = _ ∧ _ => destruct (Hm3 m4) as (G1 & G2 & G3 & G4 & G5 & G6 & G7 & G8) end.
  { destruct (cconn (conn s)) as [o|]; [|by left]. case_decide; [right|by left]. by eexists. }
  rewrite G1, G2, G3, G4, G5, G6, G7, G8. split_and!; try done.
  intros c' q. destruct (decide (c = c')) as [<-|Hne].
  - rewrite lookup_insert_eq. naive_solver.
  - rewrite lookup_insert_ne by done. rewrite F8. split.
    + intros [? ?]. right. by split_and!.
    + intros [[? _]|(_ & ? & ?)]; [congruence|done].
Qed.

Lemma Reconnect_MInv now newToken token c cd m :
  MInv m → newToken ≠ EmptyString → byToken m !! newToken = None →
  ∃ r m', Reconnect now newToken token c cd m = Ok (r, m') ∧ MInv m'.
Proof.
  intros HI Hne Hfresh. destruct (byToken m !! token) as [p|] eqn:Ht.
  2: { exists (inl ErrTokenInvalid), m. unfold Reconnect, lookupToken. by rewrite Ht. }
  destruct (Reconnect_token now newToken token c cd m p HI Ht)
    as (s & m' & Hs & Htk & Hl & E & Hh & Htok & Hu & Hc & Hn & Hg & Hr & Hrel).
  exists (inr p), m'. split; [done|]. set (s' := rebound now newToken c cd s) in *.
  pose proof HI as [I1 I2 I3 I4 I5 I6 I7 I8 I9 I10].
  assert (Hother : ∀ q r, q ≠ p → heap m !! q = Some r → live r → ctoken (conn r) ≠ token ∧ ctoken (conn r) ≠ newToken).
  { intros q r Hqp Hq Hlr. destruct (I3 _ _ Hq Hlr) as (T & _). split; intros E'; rewrite E' in T; congruence. }
  split; rewrite ?Hh, ?Htok, ?Hu, ?Hn, ?Hg, ?Hr, ?Hrel.
  - intros q r. destruct (decide (p = q)) as [<-|Hpq]; [intros _; by eapply I1|].
    rewrite lookup_insert_ne by done. apply I1.
  - intros u q Hq. destruct (I2 _ _ Hq) as (_ & r & Hr0 & Hru & Hrl). split; [done|].
    destruct (decide (p = q)) as [<-|Hpq].
    + exists s'. rewrite lookup_insert_eq. rewrite Hs in Hr0. injection Hr0 as <-. done.
    + exists r. by rewrite lookup_insert_ne.
  - intros q r. destruct (decide (p = q)) as [<-|Hpq].
    + rewrite lookup_insert_eq. intros [= <-] _. cbn [s' rebound set_conn conn ctoken suid set_offlineAt set_sst set_codec].
      rewrite lookup_insert_eq. split_and!; [done..|]. intros _. by apply (I3 _ _ Hs Hl).
    + rewrite lookup_insert_ne by done. intros Hq Hlr. destruct (Hother q r ltac:(done) Hq Hlr) as [N1 N2].
      rewrite lookup_insert_ne, lookup_delete_ne by done. by apply I3.
  - intros t q. destruct (decide (newToken = t)) as [<-|Hnt].
    + rewrite lookup_insert_eq. intros [= <-]. exists s'. by rewrite lookup_insert_eq.
    + rewrite lookup_insert_ne by done. intros [Hnt' Hq]%lookup_delete_Some.
      destruct (I4 _ _ Hq) as (r & Hr0 & Hrt & Hrl).
      assert (q ≠ p) by (intros ->; congruence). exists r. by rewrite lookup_insert_ne.
  - intros c' q [[-> ->]|(Hcc & Hq & Hown)]%Hc.
    + exists s'. by rewrite lookup_insert_eq.
    + destruct (I5 _ _ Hq) as (r & Hr0 & Hrc & Hrl).
      assert (q ≠ p) by (intros ->; congruence). exists r. by rewrite lookup_insert_ne.
  - intros q r. destruct (decide (p = q)) as [<-|Hpq].
    + rewrite lookup_insert_eq. intros [= <-] _. split; [by eexists|done].
    + rewrite lookup_insert_ne by done. apply I6.
  - intros q r. destruct (decide (p = q)) as [<-|Hpq].
    + rewrite lookup_insert_eq. intros [= <-]. by eapply (I7 p s).
    + rewrite lookup_insert_ne by done. apply I7.
  - done.
  - exact I9.
  - exact I10.
Qed.

(** A push changes nothing the indexes depend on. *)
Lemma pushEncoded_fields connPush s id body snap fs :
  holds (ring s) fs →
  ∃ e s' es, pushEncoded connPush s id body snap = Ok (e, s', es) ∧ releases es = 0%nat ∧
    suid s' = suid s ∧ conn s' = conn s ∧ sst s' = sst s ∧ sroom s' = sroom s ∧ ∃ fs', holds (ring s') fs'.
Proof.
  intros Hh.
  assert (Hsend : ∀ s' f, releases (snd (Send connPush s' f)) = 0%nat).
  { intros s' f. unfold Send, ConnSend. destruct (sst s'); [|done..]. destruct (cconn (conn s')); [|done].
    destruct (snd (EncodeFrame f)); [done|]. by destruct (connPush _ _). }
  unfold pushEncoded. destruct snap; cbn [rbind].
  - match goal with |- context [Send ?c ?a ?b] => pose proof (Hsend a b); destruct (Send c a b) as [[e|] es] end;
      do 3 eexists; (split; [reflexivity|]); split_and!; try done; by exists fs.
  - destruct (push_holds _ _ (mkFrame ProtocolVer id (codec s) (to_u32 (nextSeq s + 1)) [] body) Hh) as (r & -> & Hr & _).
    cbn [rbind].
    match goal with |- context [Send ?c ?a ?b] => pose proof (Hsend a b); destruct (Send c a b) as [[e|] es] end;
      do 3 eexists; (split; [reflexivity|]); split_and!; try done; by eexists.
Qed.

Section Ops.
Context (cfg : Config) (connPush : Z → list Z → bool) (kickBody : Z → option (list Z)).
Context (cap_pos : 0 < ReplayCapacity cfg).

Lemma kick_MInv p s reason m :
  MInvX (Some p) m → heap m !! p = Some s →
  ∃ m' s', kickAndDestroy connPush kickBody p reason m = Ok m' ∧ MInv m' ∧
    heap m' = <[p := s']> (heap m) ∧ sst s' = stateReleased ∧ byUID m' = byUID m ∧
    (∀ t, byToken m' !! t ≠ Some p) ∧ (∀ t q, q ≠ p → byToken m' !! t = Some q ↔ byToken m !! t = Some q) ∧
    releases (sout m') = S (releases (sout m)) ∧ EvRelease (suid s) (sroom s) ∈ sout m'.
Proof.
  intros HI Hp. unfold kickAndDestroy. rewrite Hp.
  destruct (mx_ring _ _ HI _ _ Hp) as [fs Hfs].
  assert (Hpush : ∃ e s1 es, PushReliable connPush s MsgKick kickBody = Ok (e, s1, es) ∧ releases es = 0%nat ∧
    suid s1 = suid s ∧ conn s1 = conn s ∧ sst s1 = sst s ∧ sroom s1 = sroom s ∧ ∃ fs', holds (ring s1) fs').
  { unfold PushReliable. destruct (kickBody (codec s)); [by eapply pushEncoded_fields|].
    do 3 eexists. split; [reflexivity|]. split_and!; try done. by exists fs. }
  destruct Hpush as (e & s1 & es & -> & He & P1 & P2 & P3 & P4 & P5). cbn [rbind].
  set (m1 := sayM es (put_sess p s1 m)).
  assert (HI1 : MInvX (Some p) m1).
  { apply (MInvX_put _ _ p s); try done; rewrite ?P2; try done; unfold live; by rewrite P3. }
  assert (Hp1 : heap m1 !! p = Some s1) by (cbn; by rewrite lookup_insert_eq).
  destruct (mx_x _ _ HI1 p eq_refl) as (s1' & Hs1' & Hl1). rewrite Hp1 in Hs1'. injection Hs1' as <-.
  destruct (mx_live _ _ HI1 _ _ Hp1 Hl1) as (Ht1 & Hne1 & _).
  rewrite decide_True by done. fold (unlink p s1 m1).
  destruct (unlink_spec p s1 m1 HI1 Hp1) as ((U1 & U2) & R1 & R2 & R3 & R4 & R5 & R6 & Rt & Rc).
  do 2 eexists. split; [reflexivity|]. split; [by apply release_MInv|].
  unfold releaseSession. cbn [sayM put_sess set_heap heap byUID byToken sout]. rewrite R1, R2, R6.
  split; [cbn [m1 sayM put_sess set_heap heap]; by rewrite insert_insert_eq|]. split_and!; try done.
  - intros t q Hq. rewrite Rt. cbn [m1 sayM put_sess set_heap byToken]. naive_solver.
  - cbn [m1 sayM put_sess set_heap sout]. rewrite !releases_app, He.
    assert (releases (match cconn (conn s1) with Some c => [EvClosed c reason] | None => [] end) = 0%nat) as ->
      by (by destruct (cconn (conn s1))).
    change (releases [EvRelease (suid s1) (sroom s1)]) with 1%nat. lia.
  - rewrite P1, P4. apply elem_of_app. right. by apply list_elem_of_singleton.
Qed.

(** The state of [Create] before the previous session is kicked. *)
Definition created (now : Z) (token uid : string) (c cd : Z) (m : Manager) : Manager :=
  mkManager (<[nextPtr m := set_conn (mkConn (Some c) token now) (newSession now uid c cd (ReplayCapacity cfg))]> (heap m))
    (S (nextPtr m)) (<[uid := nextPtr m]> (byUID m)) (<[c := nextPtr m]> (byConn m)) (<[token := nextPtr m]> (byToken m))
    (online_sessions m + 1) (session_released_total m) (sout m).

Lemma created_MInvX now token uid c cd m :
  MInv m → token ≠ EmptyString → byToken m !! token = None → MInvX (byUID m !! uid) (created now token uid c cd m).
Proof.
  intros [I1 I2 I3 I4 I5 I6 I7 I8 I9 I10] Hne Hfresh.
  set (p := nextPtr m). set (s := set_conn (mkConn (Some c) token now) (newSession now uid c cd (ReplayCapacity cfg))).
  assert (Hp : heap m !! p = None).
  { destruct (heap m !! p) as [r|] eqn:E; [|done]. apply I1 in E. unfold p in E. lia. }
  assert (Hold : ∀ q r, heap m !! q = Some r → q ≠ p ∧ <[p := s]> (heap m) !! q = Some r).
  { intros q r Hq. assert (q ≠ p) by congruence. split; [done|]. by rewrite lookup_insert_ne. }
  split; cbn [created heap nextPtr byUID byConn byToken online_sessions session_released_total sout]; fold p s.
  - intros q r. destruct (decide (p = q)) as [<-|Hpq]; [lia|].
    rewrite lookup_insert_ne by done. intros Hq%I1. unfold p. lia.
  - intros u q. destruct (decide (uid = u)) as [<-|Huu].
    + rewrite lookup_insert_eq. intros [= <-]. split.
      * intros E. symmetry in E. destruct (I2 _ _ E) as (_ & r & Hr & _). congruence.
      * exists s. by rewrite lookup_insert_eq.
    + rewrite lookup_insert_ne by done. intros Hq. destruct (I2 _ _ Hq) as (_ & r & Hr & Hru & Hrl).
      split; [|exists r; by destruct (Hold _ _ Hr)]. intros E. symmetry in E.
      destruct (I2 _ _ E) as (_ & r' & Hr' & Hru' & _). congruence.
  - intros q r. destruct (decide (p = q)) as [<-|Hpq].
    + rewrite lookup_insert_eq. intros [= <-] _. cbn [s set_conn conn ctoken suid newSession].
      rewrite !lookup_insert_eq. done.
    + rewrite lookup_insert_ne by done. intros Hq Hl. destruct (I3 _ _ Hq Hl) as (T1 & T2 & T3).
      rewrite lookup_insert_ne by congruence. split_and!; [done..|]. intros Hx.
      specialize (T3 ltac:(done)). rewrite lookup_insert_ne; [done|]. intros E. rewrite <- E in T3. congruence.
  - intros t q. destruct (decide (token = t)) as [<-|Htt].
    + rewrite lookup_insert_eq. intros [= <-]. exists s. by rewrite lookup_insert_eq.
    + rewrite lookup_insert_ne by done. intros Hq. destruct (I4 _ _ Hq) as (r & Hr & ? & ?).
      exists r. by destruct (Hold _ _ Hr).
  - intros c' q. destruct (decide (c = c')) as [<-|Htt].
    + rewrite lookup_insert_eq. intros [= <-]. exists s. by rewrite lookup_insert_eq.
    + rewrite lookup_insert_ne by done. intros Hq. destruct (I5 _ _ Hq) as (r & Hr & ? & ?).
      exists r. by destruct (Hold _ _ Hr).
  - intros q r. destruct (decide (p = q)) as [<-|Hpq].
    + rewrite lookup_insert_eq. intros [= <-] _. split; [by eexists|done].
    + rewrite lookup_insert_ne by done. apply I6.
  - intros q r. destruct (decide (p = q)) as [<-|Hpq].
    + rewrite lookup_insert_eq. intros [= <-]. exists []. by apply holds_new.
    + rewrite lookup_insert_ne by done. apply I7.
  - intros q E. destruct (I2 _ _ E) as (_ & r & Hr & _ & Hl). exists r. by destruct (Hold _ _ Hr).
  - rewrite I9. destruct (byUID m !! uid) as [q|] eqn:E.
    + rewrite map_size_insert_Some by eauto. lia.
    + rewrite map_size_insert_None by done. lia.
  - exact I10.
Qed.

Lemma Create_spec now token uid c cd m :
  MInv m → token ≠ EmptyString → byToken m !! token = None →
  ∃ m', Create cfg connPush kickBody now token uid c cd m = Ok (nextPtr m, m') ∧ MInv m' ∧
    byUID m' = <[uid := nextPtr m]> (byUID m) ∧ byToken m' !! token = Some (nextPtr m) ∧
    heap m' !! nextPtr m =
      Some (set_conn (mkConn (Some c) token now) (newSession now uid c cd (ReplayCapacity cfg))) ∧
    match byUID m !! uid with
    | None => releases (sout m') = releases (sout m)
    | Some q => ∃ s s', heap m !! q = Some s ∧ heap m' !! q = Some s' ∧ sst s' = stateReleased ∧
        (∀ t, byToken m' !! t ≠ Some q) ∧ releases (sout m') = S (releases (sout m)) ∧
        EvRelease uid (sroom s) ∈ sout m'
    end.
Proof.
  intros HI Hne Hfresh. pose proof (created_MInvX now token uid c cd m HI Hne Hfresh) as HX.
  unfold Create. change (mkManager _ _ _ _ _ _ _ _) with (created now token uid c cd m).
  destruct (byUID m !! uid) as [q|] eqn:Hu.
  - destruct (mx_uid _ _ HI _ _ Hu) as (_ & s & Hs & Hsu & Hsl).
    assert (Hqp : nextPtr m ≠ q) by (apply (mx_ptr _ _ HI) in Hs; lia).
    assert (Hq : heap (created now token uid c cd m) !! q = Some s) by (cbn; by rewrite lookup_insert_ne).
    destruct (kick_MInv q s "replaced by new login" _ HX Hq) as (m' & s' & -> & HI' & Hh & Hr & Hub & Ht & Hto & Hrel & Hev).
    exists m'. cbn [rbind]. split; [done|]. split; [done|]. rewrite Hub, Hh. split; [done|]. split; [|split].
    + apply Hto; [done|]. cbn. by rewrite lookup_insert_eq.
    + rewrite lookup_insert_ne by done. cbn. by rewrite lookup_insert_eq.
    + exists s, s'. rewrite lookup_insert_eq. split_and!; try done. by rewrite <- Hsu.
  - exists (created now token uid c cd m). split; [done|]. split; [done|]. cbn. by rewrite !lookup_insert_eq.
Qed.

(** ** Reachable managers *)

(** The steps of a manager. [Sweep] and [Reconnect] give up the lock between
    their halves, so their second halves are steps of their own: [ms_destroy]
    is one destruction of a sweep, of any session and any time after its scan
    (the session may be online again); [ms_finish] is a reconnect after its
    lookup, of any session that is still live (a session released in between
    is the subject of [sweep_reconnect_race]). The scan and the lookup read only.
    Whole calls are runs of such steps: [mreach_Sweep], [mreach_Reconnect]. *)
Inductive mstep : Manager → Manager → Prop :=
| ms_create now token uid c cd m p m' : token ≠ EmptyString → byToken m !! token = None →
    Create cfg connPush kickBody now token uid c cd m = Ok (p, m') → mstep m m'
| ms_offline now p m m' : MarkOffline now p m = Ok m' → mstep m m'
| ms_offlineConn now p c m b m' : MarkOfflineConn now p c m = Ok (b, m') → mstep m m'
| ms_finish now newToken p s token c cd m r m' : newToken ≠ EmptyString → byToken m !! newToken = None →
    heap m !! p = Some s → live s → finishReconnect now newToken p token c cd m = Ok (r, m') → mstep m m'
| ms_destroy p m m' : destroy p "grace period expired" m = Ok m' → mstep m m'
| ms_push p id body snap m m' : pushTo connPush p id body snap m = Ok m' → mstep m m'
| ms_room p s room m : heap m !! p = Some s → mstep m (put_sess p (SetRoomID room s) m)
| ms_touch p s now m : heap m !! p = Some s → mstep m (put_sess p (set_conn (Touch (conn s) now) s) m).

Inductive mreach : Manager → Prop :=
| mr_new : mreach NewManager
| mr_step m m' : mreach m → mstep m m' → mreach m'.

Lemma sayM_nil m : sayM [] m = m.
Proof. destruct m. unfold sayM. cbn. by rewrite app_nil_r. Qed.

(** The second half of a reconnect, whenever it runs: only the current token of
    the session does anything. *)
Lemma finishReconnect_MInv now newToken p s token c cd m r m' :
  MInv m → newToken ≠ EmptyString → byToken m !! newToken = None → heap m !! p = Some s → live s →
  finishReconnect now newToken p token c cd m = Ok (r, m') → MInv m'.
Proof.
  intros HI H1 H2 Hp Hl E. destruct (mx_live _ _ HI _ _ Hp Hl) as (Ht & _).
  destruct (decide (token = ctoken (conn s))) as [->|Hne].
  - destruct (Reconnect_MInv now newToken (ctoken (conn s)) c cd m HI H1 H2) as (r1 & m1 & E1 & HI1).
    unfold Reconnect, lookupToken in E1. rewrite Ht in E1. congruence.
  - unfold finishReconnect, RotateToken in E. rewrite Hp, decide_True in E by naive_solver. by injection E as _ <-.
Qed.

Lemma mstep_MInv m m' : mstep m m' → MInv m → MInv m'.
Proof.
  intros Hs HI.
  destruct Hs as [now token uid c cd m p m' H1 H2 E|now p m m' E|now p c m b m' E|
    now newToken p s token c cd m r m' H1 H2 Hp Hl E|p m m' E|p id body snap m m' E|p s room m Hp|p s now m Hp].
  - destruct (Create_spec now token uid c cd m HI H1 H2) as (m1 & E1 & HI1 & _). congruence.
  - destruct (heap m !! p) as [s|] eqn:Hp; [|unfold MarkOffline in E; by rewrite Hp in E].
    destruct (cconn (conn s)) as [c|] eqn:Hc.
    + destruct (MarkOffline_MInv now p s m HI Hp) as (m1 & E1 & HI1); [by eexists|]. congruence.
    + unfold MarkOffline, unbind, Unbind in E. by rewrite Hp, Hc in E.
  - destruct (heap m !! p) as [s|] eqn:Hp; [|unfold MarkOfflineConn in E; by rewrite Hp in E].
    destruct (MarkOfflineConn_MInv now p s c m HI Hp) as (b1 & m1 & E1 & HI1). congruence.
  - by eapply finishReconnect_MInv.
  - destruct (heap m !! p) as [s|] eqn:Hp; [|unfold destroy in E; by rewrite Hp in E].
    destruct (destroy_MInv p "grace period expired" m s HI Hp) as (m1 & E1 & HI1 & _). congruence.
  - unfold pushTo in E. destruct (heap m !! p) as [s|] eqn:Hp; [|done].
    destruct (mx_ring _ _ HI _ _ Hp) as [fs Hfs].
    destruct (pushEncoded_fields connPush s id body snap fs Hfs) as (e & s1 & es & E1 & He & P1 & P2 & P3 & P4 & P5).
    rewrite E1 in E. cbn [rbind] in E. injection E as <-.
    apply (MInvX_put _ _ p s); try done; rewrite ?P2; try done; unfold live; by rewrite P3.
  - rewrite <- (sayM_nil (put_sess _ _ _)). apply (MInvX_put _ _ p s); try done. by apply (mx_ring _ _ HI p s).
  - rewrite <- (sayM_nil (put_sess _ _ _)). apply (MInvX_put _ _ p s); try done. by apply (mx_ring _ _ HI p s).
Qed.

Lemma NewManager_MInv : MInv NewManager.
Proof.
  split; cbn; try done; intros *; rewrite ?lookup_empty; done.
Qed.

Lemma mreach_MInv m : mreach m → MInv m.
Proof. induction 1 as [|m m' _ IH Hs]; [apply NewManager_MInv|by eapply mstep_MInv]. Qed.

Lemma mreach_Sweep now m n m' : mreach m → Sweep (GracePeriod cfg) now m = Ok (n, m') → mreach m'.
Proof.
  intros Hm. unfold Sweep. generalize (sweepCandidates (GracePeriod cfg) now m) as ps. intros ps.
  destruct (destroyAll ps m) as [m1| |] eqn:E; [|done..]. intros [= _ <-]. revert m Hm E.
  induction ps as [|p ps IH]; intros m Hm; cbn [destroyAll]; [by intros [= <-]|].
  destruct (destroy p _ m) as [m2| |] eqn:E2; [|done..]. cbn [rbind]. apply IH. eapply mr_step; [done|by eapply ms_destroy].
Qed.

Lemma mreach_Reconnect now newToken token c cd m r m' :
  mreach m → newToken ≠ EmptyString → byToken m !! newToken = None →
  Reconnect now newToken token c cd m = Ok (r, m') → mreach m'.
Proof.
  intros Hm H1 H2. unfold Reconnect, lookupToken. destruct (byToken m !! token) as [p|] eqn:Ht; [|by intros [= _ <-]].
  intros E. destruct (mx_token _ _ (mreach_MInv m Hm) _ _ Ht) as (s & Hs & _ & Hl).
  eapply mr_step; [done|by eapply ms_finish].
Qed.


(** A reconnect token is good once: presenting the token of a session
    rebinds that same session (uid, room, sequence numbers and buffers as they
    were) to the new connection, puts it online, and leaves the old token
    invalid and the new one valid. *)
Theorem reconnect_once now newToken token c cd m p :
  mreach m → newToken ≠ EmptyString → byToken m !! newToken = None → lookupToken token m = Some p →
  ∃ s m' s', heap m !! p = Some s ∧ Reconnect now newToken token c cd m = Ok (inr p, m') ∧ heap m' !! p = Some s' ∧
    suid s' = suid s ∧ sroom s' = sroom s ∧ nextSeq s' = nextSeq s ∧ ring s' = ring s ∧ snaps s' = snaps s ∧
    IsOnline s' = true ∧ GetByConnID c m' = Some p ∧ lookupToken newToken m' = Some p ∧
    ∀ now' t' c' cd', Reconnect now' t' token c' cd' m' = Ok (inl ErrTokenInvalid, m').
Proof.
  intros Hm Hne Hfresh Ht. pose proof (mreach_MInv m Hm) as HI.
  destruct (Reconnect_token now newToken token c cd m p HI Ht)
    as (s & m' & Hs & Htk & Hl & E & Hh & Htok & Hu & Hc & _).
  assert (Hdiff : newToken ≠ token) by (intros ->; unfold lookupToken in Ht; congruence).
  exists s, m', (rebound now newToken c cd s). rewrite Hh, lookup_insert_eq. split_and!; try done.
  - unfold GetByConnID. apply Hc. by left.
  - unfold lookupToken. by rewrite Htok, lookup_insert_eq.
  - intros. unfold Reconnect, lookupToken. rewrite Htok, lookup_insert_ne, lookup_delete_eq by done. done.
Qed.

(** A login takes over the uid: the new session is the one found under the
    uid, online on its connection; a previous session of that uid is released,
    no token leads to it any more, and its release is called back exactly
    once. Tokens are drawn fresh and non-empty. *)
Theorem login_replaces now token uid c cd m :
  mreach m → token ≠ EmptyString → byToken m !! token = None →
  ∃ p m' s', Create cfg connPush kickBody now token uid c cd m = Ok (p, m') ∧ Get uid m' = Some p ∧
    heap m' !! p = Some s' ∧ suid s' = uid ∧ IsOnline s' = true ∧ cconn (conn s') = Some c ∧ lookupToken token m' = Some p ∧
    match Get uid m with
    | None => releases (sout m') = releases (sout m)
    | Some q => p ≠ q ∧ (∃ old, heap m' !! q = Some old ∧ sst old = stateReleased) ∧
        (∀ t, lookupToken t m' ≠ Some q) ∧ releases (sout m') = S (releases (sout m))
    end.
Proof.
  intros Hm Hne Hfresh. pose proof (mreach_MInv m Hm) as HI.
  destruct (Create_spec now token uid c cd m HI Hne Hfresh) as (m' & E & HI' & Hu & Ht & Hp & Hq).
  do 3 eexists. split; [exact E|]. unfold Get, lookupToken. rewrite Hu, lookup_insert_eq. split; [done|].
  split; [exact Hp|]. split_and!; try done.
  destruct (byUID m !! uid) as [q|]; [|done]. destruct Hq as (s & s' & Hs & Hs' & Hr & Htq & Hrel & _).
  split; [|by eauto]. apply (mx_ptr _ _ HI) in Hs. lia.
Qed.

Lemma destroyAll_byUID ps m m' :
  MInv m → (∀ p, p ∈ ps → is_Some (heap m !! p)) → destroyAll ps m = Ok m' →
  (∀ u p, byUID m' !! u = Some p ↔ byUID m !! u = Some p ∧ p ∉ ps) ∧
  (∀ p s, p ∉ ps → heap m !! p = Some s → heap m' !! p = Some s).
Proof.
  revert m. induction ps as [|p ps IH]; intros m HI Hps; cbn [destroyAll].
  { intros [= <-]. split; [|done]. intros u q. pose proof (not_elem_of_nil q). tauto. }
  destruct (Hps p) as [s Hs]; [set_solver|].
  destruct (destroy_MInv p "grace period expired" m s HI Hs) as (m1 & E & HI1 & Hkeep & Hrel & Hmono).
  rewrite E. cbn [rbind]. intros Hrest. destruct (IH m1) as [R1 R2]; [done| |done|].
  { intros q Hq. apply Hmono, Hps. set_solver. }
  assert (Hu : ∀ u q, byUID m1 !! u = Some q ↔ byUID m !! u = Some q ∧ q ≠ p).
  { intros u q. destruct (decide (byUID m !! suid s = Some p)) as [Hon|Hoff].
    - destruct (Hrel Hon) as (_ & ->). rewrite lookup_delete_Some. split.
      + intros [Hne Hq]. split; [done|]. intros ->. destruct (mx_uid _ _ HI _ _ Hq) as (_ & r & ? & ? & _). congruence.
      + intros [Hq Hne]. split; [|done]. intros E'. rewrite <- E' in Hq. congruence.
    - unfold destroy, removeFromMaps in E. rewrite Hs, decide_True in E by done. injection E as <-.
      split; [|tauto]. intros Hq. split; [done|]. intros ->.
      destruct (mx_uid _ _ HI _ _ Hq) as (_ & r & ? & ? & _). congruence. }
  split.
  - intros u q. rewrite R1, Hu, not_elem_of_cons. tauto.
  - intros q r Hq Hr. rewrite not_elem_of_cons in Hq. apply R2; [tauto|]. apply Hkeep; [tauto|done].
Qed.

(** A sweep releases exactly the sessions whose grace period is over: a
    uid keeps its session, unchanged, unless that session was offline for at
    least the grace period. *)
Theorem sweep_exact now m :
  mreach m →
  ∃ n m', Sweep (GracePeriod cfg) now m = Ok (n, m') ∧
    (∀ u p, Get u m' = Some p ↔ Get u m = Some p ∧ expired (GracePeriod cfg) now m p = false) ∧
    (∀ u p, Get u m' = Some p → heap m' !! p = heap m !! p).
Proof.
  intros Hm. pose proof (mreach_MInv m Hm) as HI. unfold Sweep.
  set (ps := sweepCandidates (GracePeriod cfg) now m).
  assert (Hps : ∀ p, p ∈ ps → is_Some (heap m !! p)).
  { intros p (_ & s & Hs & _)%candidates_spec. eauto. }
  destruct (destroyAll_MInv ps m HI Hps) as (m' & E & HI'). rewrite E.
  destruct (destroyAll_byUID ps m m' HI Hps E) as [R1 R2].
  assert (Hin : ∀ u p, byUID m !! u = Some p → p ∈ ps ↔ expired (GracePeriod cfg) now m p = true).
  { intros u p Hu. unfold ps, sweepCandidates. rewrite list_elem_of_filter. split; [tauto|]. intros He. split; [done|].
    apply list_elem_of_fmap. exists (u, p). split; [done|]. by apply elem_of_map_to_list. }
  do 2 eexists. split; [reflexivity|]. split.
  - intros u p. unfold Get. rewrite R1. split; intros [Hu H2]; (split; [done|]).
    + apply not_true_iff_false. by rewrite <- (Hin u p Hu).
    + rewrite (Hin u p Hu). by rewrite H2.
  - intros u p Hu. apply R1 in Hu as [Hu Hnp]. destruct (mx_uid _ _ HI _ _ Hu) as (_ & s & Hs & _).
    rewrite Hs. by apply R2.
Qed.
End Ops.

(** ** A concrete manager *)

Definition demoCfg : Config := withDefaults (mkConfig 0 0 0 0).
Definition noPush : Z → list Z → bool := fun _ _ => true.
Definition kick0 : Z → option (list Z) := fun _ => Some [123; 125].

Definition okM {A} (d : Manager) (x : res (A * Manager)) : Manager := match x with Ok (_, m) => m | _ => d end.
Definition m1 : Manager := okM NewManager (Create demoCfg noPush kick0 1 "t1" "alice" 10 0 NewManager).
Definition m2 : Manager := okM NewManager (MarkOfflineConn 5 0 10 m1).

Lemma m1_reach : mreach demoCfg noPush kick0 m1.
Proof.
  eapply mr_step; [apply mr_new|]. eapply (ms_create _ _ _ 1 "t1" "alice" 10 0 NewManager 0%nat); [done|done|].
  vm_compute. reflexivity.
Qed.
Lemma m2_reach : mreach demoCfg noPush kick0 m2.
Proof.
  eapply mr_step; [apply m1_reach|]. eapply (ms_offlineConn _ _ _ 5 0 10 m1 true). vm_compute. reflexivity.
Qed.


Lemma reconnect_once_witness :
  ∃ m', Reconnect 9 "t2" "t1" 11 1 m2 = Ok (inr 0%nat, m') ∧ lookupToken "t2" m' = Some 0%nat.
Proof.
  destruct (reconnect_once demoCfg noPush kick0 eq_refl 9 "t2" "t1" 11 1 m2 0%nat m2_reach)
    as (s & m' & s' & _ & E & _ & _ & _ & _ & _ & _ & _ & _ & Ht & _).
  - discriminate.
  - vm_compute. reflexivity.
  - vm_compute. reflexivity.
  - exists m'. split; [exact E|exact Ht].
Defined.

Lemma login_replaces_witness :
  ∃ p m', Create demoCfg noPush kick0 9 "t2" "alice" 11 1 m1 = Ok (p, m') ∧ Get "alice" m' = Some p.
Proof.
  destruct (login_replaces demoCfg noPush kick0 eq_refl 9 "t2" "alice" 11 1 m1 m1_reach)
    as (p & m' & s' & E & G & _).
  - discriminate.
  - vm_compute. reflexivity.
  - exists p, m'. split; [exact E|exact G].
Defined.

Lemma sweep_exact_witness :
  ∃ n m', Sweep (GracePeriod demoCfg) (70 * 10^9) m2 = Ok (n, m') ∧ Get "alice" m' = None.
Proof.
  destruct (sweep_exact demoCfg noPush kick0 eq_refl (70 * 10^9) m2 m2_reach) as (n & m' & E & H1 & _).
  exists n, m'. split; [exact E|]. destruct (Get "alice" m') as [p|] eqn:G; [|reflexivity].
  apply H1 in G as [G1 G2]. assert (Hp : Get "alice" m2 = Some 0%nat) by (vm_compute; reflexivity).
  rewrite Hp in G1. injection G1 as <-. revert G2. vm_compute. discriminate.
Defined.

(** Alice reconnects while the sweep is under way. *)
Definition m3 : Manager := okM NewManager (Reconnect (70 * 10^9) "t2" "t1" 11 1 m2).
Definition okRes (d : Manager) (x : res Manager) : Manager := match x with Ok m => m | _ => d end.
Definition m4 : Manager :=
  okRes NewManager (destroyAll (sweepCandidates (GracePeriod demoCfg) (70 * 10^9) m2) m3).
(** The other way round. *)
Definition m5 : Manager := okRes NewManager (destroy 0 "grace period expired" m2).
Definition m6 : Manager := okM NewManager (finishReconnect (70 * 10^9) "t2" 0 "t1" 11 1 m5).
Definition sessAt (p : nat) (m : Manager) : Session := default (newSession 0 "" 0 0 0) (heap m !! p).

(** Finding. [Sweep] and [Reconnect] race. If a client reconnects between the scan
    for expired sessions and their destruction, its session is released and
    its new connection closed although it is online; and if a session is
    destroyed between the two halves of [Reconnect], the reconnect succeeds
    with an online session that no uid leads to. *)
Theorem sweep_reconnect_race :
  ∃ m p u, mreach demoCfg noPush kick0 m ∧ Get u m = Some p ∧
    p ∈ sweepCandidates (GracePeriod demoCfg) (70 * 10^9) m ∧
    (∃ r m' s m'', Reconnect (70 * 10^9) "t2" "t1" 11 1 m = Ok (r, m') ∧ heap m' !! p = Some s ∧ IsOnline s = true ∧
       destroyAll (sweepCandidates (GracePeriod demoCfg) (70 * 10^9) m) m' = Ok m'' ∧
       Get u m'' = None ∧ EvClosed 11 "grace period expired" ∈ sout m'') ∧
    (∃ m' r m'' s, lookupToken "t1" m = Some p ∧ destroy p "grace period expired" m = Ok m' ∧
       finishReconnect (70 * 10^9) "t2" p "t1" 11 1 m' = Ok (inr r, m'') ∧
       heap m'' !! r = Some s ∧ IsOnline s = true ∧ Get u m'' = None).
Proof.
  exists m2, 0%nat, "alice"%string. split; [apply m2_reach|]. split; [by vm_compute|]. split.
  { apply (bool_decide_unpack _). by vm_compute. }
  split.
  - exists (inr 0%nat), m3, (sessAt 0 m3), m4. split_and!; try (vm_compute; reflexivity).
    apply (bool_decide_unpack _). by vm_compute.
  - exists m5, 0%nat, m6, (sessAt 0 m6). split_and!; vm_compute; reflexivity.
Qed.
