(* ===== verification/Connector.v ===== *)
(** * Serving a client connection (internal/app/connector.go,
    internal/session/messages.go)

    The read pump of a connection: frames are handled by the handshake until a
    login or a reconnect succeeds, then by the message loop; at the end the
    session goes offline if it is still bound to this connection.  Frames that
    go to the router and the sessions that are started are recorded.  The
    requests and responses are Go structs as the codecs see them. *)

From S2P Require Import Prelude Frame Proto ProtoThm Envelope GoStrings Replay Session SessionManager.

Definition MsgPing : Z := 0x0001.
Definition MsgPong : Z := 0x0002.
Definition MsgLogin : Z := 0x0010.
Definition MsgReconnect : Z := 0x0011.
Definition MsgPullSnap : Z := 0x0140.

(** ** Messages *)

Definition loginReqType : kind := KStruct [
  (mkField "UID" "bytes,1,opt,name=uid,proto3" true, KString);
  (mkField "Token" "bytes,2,opt,name=token,proto3" true, KString);
  (mkField "ProtocolVer" "varint,3,opt,name=protocol_ver,proto3" true, KUint 32);
  (mkField "Codec" "varint,4,opt,name=codec,proto3" true, KUint 32);
  (mkField "Platform" "bytes,5,opt,name=platform,proto3" true, KString)].
Definition loginUID (v : value) : option string :=
  match v with VPtr _ (Some (VStruct ((_, VString u) :: _))) => Some (unstr u) | _ => None end.

Definition LoginResp (token : string) (heartbeatMS : Z) (sessionID : string) : list (finfo * value) := [
  (mkField "ReconnectToken" "bytes,1,opt,name=reconnect_token,proto3" true, VString (str token));
  (mkField "HeartbeatMS" "varint,2,opt,name=heartbeat_ms,proto3" true, VInt 64 heartbeatMS);
  (mkField "SessionID" "bytes,3,opt,name=session_id,proto3" true, VString (str sessionID))].

Definition reconnectReqType : kind := KStruct [
  (mkField "ReconnectToken" "bytes,1,opt,name=reconnect_token,proto3" true, KString);
  (mkField "LastReliableSeq" "varint,2,opt,name=last_reliable_seq,proto3" true, KUint 32)].
Definition reconnectReqOf (v : value) : option (string * Z) :=
  match v with VPtr _ (Some (VStruct [(_, VString t); (_, VUint _ n)])) => Some (unstr t, n) | _ => None end.

Definition ReconnectResp (token : string) (resync : bool) : list (finfo * value) := [
  (mkField "NewReconnectToken" "bytes,1,opt,name=new_reconnect_token,proto3" true, VString (str token));
  (mkField "ResyncRequired" "varint,2,opt,name=resync_required,proto3" true, VBool resync)].

Definition pingType : kind := KStruct [(mkField "ClientTS" "varint,1,opt,name=client_ts,proto3" true, KInt 64)].
Definition pingTS (v : value) : Z := match v with VPtr _ (Some (VStruct ((_, VInt _ n) :: _))) => n | _ => 0 end.
Definition Pong (clientTS serverTS : Z) : list (finfo * value) := [
  (mkField "ClientTS" "varint,1,opt,name=client_ts,proto3" true, VInt 64 clientTS);
  (mkField "ServerTS" "varint,2,opt,name=server_ts,proto3" true, VInt 64 serverTS)].

(** No protobuf tag. *)
Definition pullSnapReqType : kind := KStruct [(mkField "MsgIDs" "" true, KSlice (KUint 32))].
Definition pullIDs (v : value) : list Z :=
  match v with VPtr _ (Some (VStruct ((_, VSlice _ l) :: _))) => bytesOf l | _ => [] end.

(** A pointer to a zero message, the target of a decode. *)
Definition newMsg (k : kind) : value := VPtr k (Some (zero k)).

(** ** Shared helpers *)

Section Connector.
(** [errText], [writeText]: the texts of codec errors and of failed writes;
    [partialTS]: what a failed decode has left in the time stamp of a ping. *)
Context (cs : codecs) (errText : perr → list Z) (writeText : Frame → list Z) (partialTS : list Z → Z).
Context (cfg : Config) (maxLoginBody heartbeatMS : Z) (kickBody : Z → option (list Z)).

(** [NewConnector] *)
Definition bodyLimit : Z := if decide (maxLoginBody ≤ 0) then 4096 else maxLoginBody.

Definition codecOf (f : Frame) : ErrCode + Codec :=
  match Envelope.Get (CodecType f) cs with
  | inr c => inr c
  | inl _ => inl (NewErr ErrUnknownMsg (str "codec not supported"))
  end.

(** The outcome of pushing to connections is decided by the environment. *)
Context (connPush : Z → list Z → bool).

Definition write (c : Z) (f : Frame) (m : Manager) : bool * Manager :=
  match snd (EncodeFrame f) with
  | inl _ => (false, m)
  | inr raw => if connPush c raw then (true, sayM [EvPushed c raw] m) else (false, m)
  end.

(** Frames until one is refused. *)
Fixpoint writeAll (c : Z) (fs : list Frame) (m : Manager) : Manager :=
  match fs with
  | [] => m
  | f :: fs' => let '(ok, m) := write c f m in if ok then writeAll c fs' m else m
  end.

Definition writeError (c : Z) (f : Frame) (ec : ErrCode) (m : Manager) : res Manager :=
  let! x := NewErrorFrameFor cs (CodecType f) (MsgID f) (Seq f) (ecCode ec) (ecMsg ec) None in
  match x with inl _ => Ok m | inr frame => Ok (snd (write c frame m)) end.

(** The error of a decode is ignored. *)
Definition replyPong (now : Z) (c : Z) (f : Frame) (m : Manager) : res Manager :=
  match codecOf f with
  | inl _ => Ok m
  | inr cd =>
      let! p := cUnmarshal cd (Body f) (newMsg pingType) in
      let ts := match p with inr v => pingTS v | inl _ => partialTS (Body f) end in
      let! x := NewOKFrameFor cs (Type_ cd) MsgPong (Seq f) (Some (VStruct (Pong ts now))) in
      match x with inl _ => Ok m | inr frame => Ok (snd (write c frame m)) end
  end.

(** ** Handshake *)

Definition internal (e : cerr) : ErrCode :=
  NewErr ErrInternal (match e with ECodec e => errText e | ECodecNotFound => str "protocol: codec type not registered" end).

Definition handleLogin (now : Z) (token : string) (c : Z) (f : Frame) (m : Manager) : res ((ErrCode + nat) * Manager) :=
  if decide (bodyLimit < zlen (Body f)) then Ok (inl (NewErr ErrFrameTooLong []), m) else
  match codecOf f with
  | inl e => Ok (inl e, m)
  | inr cd =>
      let! v := cUnmarshal cd (Body f) (newMsg loginReqType) in
      match v with
      | inl e => Ok (inl (NewErr ErrDecode (errText e)), m)
      | inr v =>
          match loginUID v with
          | None => Panic
          | Some uid =>
              if decide (uid = ""%string) then Ok (inl (NewErr ErrDecode (str "uid required")), m) else
              let! y := Create cfg connPush kickBody now token uid c (Type_ cd) m in
              let '(p, m) := y in
              let! x := NewOKFrameFor cs (Type_ cd) MsgLogin (Seq f) (Some (VStruct (LoginResp token heartbeatMS uid))) in
              match x with
              | inl e => Ok (inl (internal e), m)
              | inr frame =>
                  let '(ok, m) := write c frame m in
                  if ok then Ok (inr p, m) else Ok (inl (NewErr ErrInternal (writeText frame)), m)
              end
          end
      end
  end.

(** The second half of a reconnect: other goroutines may push to the session
    between [Reconnect] and [Replay]. *)
Definition finishReplay (c : Z) (f : Frame) (cd : Codec) (lastSeq : Z) (p : nat) (m : Manager) : res ((ErrCode + nat) * Manager) :=
  match heap m !! p with
  | None => Panic
  | Some s =>
      let! y := ReplayFor s lastSeq [] in
      let '(reliable, snapshots, overflow) := y in
      let! x := NewOKFrameFor cs (Type_ cd) MsgReconnect (Seq f) (Some (VStruct (ReconnectResp (ctoken (conn s)) overflow))) in
      match x with
      | inl e => Ok (inl (internal e), m)
      | inr frame =>
          let '(ok, m) := write c frame m in
          if ok then
            let m := if overflow then m else writeAll c reliable m in
            Ok (inr p, writeAll c snapshots m)
          else Ok (inl (NewErr ErrInternal (writeText frame)), m)
      end
  end.

Definition handleReconnect (now : Z) (token : string) (c : Z) (f : Frame) (m : Manager) : res ((ErrCode + nat) * Manager) :=
  if decide (bodyLimit < zlen (Body f)) then Ok (inl (NewErr ErrFrameTooLong []), m) else
  match codecOf f with
  | inl e => Ok (inl e, m)
  | inr cd =>
      let! v := cUnmarshal cd (Body f) (newMsg reconnectReqType) in
      match v with
      | inl e => Ok (inl (NewErr ErrDecode (errText e)), m)
      | inr v =>
          match reconnectReqOf v with
          | None => Panic
          | Some (old, lastSeq) =>
              let! y := Reconnect now token old c (Type_ cd) m in
              match y with
              | (inl _, m) => Ok (inl (NewErr Envelope.ErrTokenInvalid []), m)
              | (inr p, m) => finishReplay c f cd lastSeq p m
              end
          end
      end
  end.

(** One frame before the handshake has succeeded. *)
Definition handshake1 (now : Z) (token : string) (c : Z) (f : Frame) (m : Manager) : res (option nat * Manager) :=
  if decide (MsgID f = MsgPing) then let! m := replyPong now c f m in Ok (None, m)
  else if decide (MsgID f = MsgLogin) then
    let! x := handleLogin now token c f m in
    match x with
    | (inl e, m) => let! m := writeError c f e m in Ok (None, m)
    | (inr p, m) => Ok (Some p, m)
    end
  else if decide (MsgID f = MsgReconnect) then
    let! x := handleReconnect now token c f m in
    match x with
    | (inl e, m) => let! m := writeError c f e m in Ok (None, m)
    | (inr p, m) => Ok (Some p, m)
    end
  else let! m := writeError c f (NewErr ErrUnauthorized (str "login required")) m in Ok (None, m).

(** ** The message loop *)

Definition handlePullSnapshots (c : Z) (p : nat) (f : Frame) (m : Manager) : res Manager :=
  match codecOf f with
  | inl _ => writeError c f (NewErr ErrDecode (str "codec not supported")) m
  | inr cd =>
      let! v := if decide (Body f = []) then Ok (inr (newMsg pullSnapReqType)) else cUnmarshal cd (Body f) (newMsg pullSnapReqType) in
      match v with
      | inl e => writeError c f (NewErr ErrDecode (errText e)) m
      | inr v =>
          let! x := NewOKFrameFor cs (Type_ cd) MsgPullSnap (Seq f) (Some (VStruct [])) in
          let m := match x with inr frame => snd (write c frame m) | inl _ => m end in
          match heap m !! p with
          | None => Panic
          | Some s => Ok (writeAll c (Snapshots s (pullIDs v)) m)
          end
      end
  end.

(** One frame of the message loop; the flag says whether it goes to the router. *)
Definition pump1 (now : Z) (c : Z) (p : nat) (f : Frame) (m : Manager) : res (bool * Manager) :=
  match heap m !! p with
  | None => Panic
  | Some s =>
      let m := put_sess p (set_conn (Touch (conn s) now) s) m in
      if decide (MsgID f = MsgPing) then let! m := replyPong now c f m in Ok (false, m)
      else if decide (MsgID f = MsgPullSnap) then let! m := handlePullSnapshots c p f m in Ok (false, m)
      else if decide (MsgID f = MsgLogin ∨ MsgID f = MsgReconnect) then
        let! m := writeError c f (NewErr ErrUnknownMsg (str "already authenticated")) m in Ok (false, m)
      else Ok (true, m)
  end.
End Connector.

(** ** Many connections *)

(** A connection is in its handshake, in the message loop of a session, or gone. *)
Inductive cphase := Handshaking | Pumping (p : nat) | Gone.
#[export] Instance cphase_eq_dec : EqDecision cphase.
Proof. solve_decision. Defined.

Record server := mkServer {
  mgr : Manager;
  phases : gmap Z cphase;
  started : list (Z * nat);            (** calls of OnSessionStart, with the connection *)
  dispatched : list (Z * nat * Frame) }. (** frames given to the router *)

Section Serve.
Context (cs : codecs) (errText : perr → list Z) (writeText : Frame → list Z) (partialTS : list Z → Z).
Context (cfg : Config) (maxLoginBody heartbeatMS : Z) (kickBody : Z → option (list Z)).

(** The steps of [ServeConn] for every connection, and what the rest of the
    server does to the sessions; [genToken] yields tokens not in use. *)
Inductive serve : server → server → Prop :=
| s_accept w c : phases w !! c = None → serve w (mkServer (mgr w) (<[c := Handshaking]> (phases w)) (started w) (dispatched w))
| s_handshake w c now token cp f r m' : phases w !! c = Some Handshaking → token ≠ EmptyString → byToken (mgr w) !! token = None →
    handshake1 cs errText writeText partialTS cfg maxLoginBody heartbeatMS kickBody cp now token c f (mgr w) = Ok (r, m') →
    serve w (match r with
             | None => mkServer m' (phases w) (started w) (dispatched w)
             | Some p => mkServer m' (<[c := Pumping p]> (phases w)) (started w ++ [(c, p)]) (dispatched w)
             end)
| s_pump w c p now cp f b m' : phases w !! c = Some (Pumping p) →
    pump1 cs errText partialTS cp now c p f (mgr w) = Ok (b, m') →
    serve w (mkServer m' (phases w) (started w) (if b then dispatched w ++ [(c, p, f)] else dispatched w))
| s_refused w c : phases w !! c = Some Handshaking → serve w (mkServer (mgr w) (<[c := Gone]> (phases w)) (started w) (dispatched w))
| s_end w c p now b m' : phases w !! c = Some (Pumping p) → MarkOfflineConn now p c (mgr w) = Ok (b, m') →
    serve w (mkServer m' (<[c := Gone]> (phases w)) (started w) (dispatched w))
| s_other w cp m' : mstep cfg cp kickBody (mgr w) m' → serve w (mkServer m' (phases w) (started w) (dispatched w)).

Definition startServer : server := mkServer NewManager ∅ [] [].
Definition serving (w : server) : Prop := rtc serve startServer w.
End Serve.
