(* ===== verification/ConnectorThm.v ===== *)
(** * Theorems on serving client connections *)

From S2P Require Import Prelude Frame ProtoWire Proto ProtoThm Envelope GoStrings Replay Session SessionManager Connector.

(** ** What the connector needs of a codec *)

(** A struct of scalars with plain tags. *)
Definition scalar (v : value) : Prop :=
  match v with VBool _ | VInt _ _ | VUint _ _ | VString _ | VSlice (KUint 8) _ => True | _ => False end.
Definition flat (fs : list (finfo * value)) : Prop :=
  Forall (fun p => scalar p.2 ∧ match parseProtoTag (Tag p.1) with inr (_, _, true) => False | _ => True end) fs.

(** Decoding any bytes returns an error or a message of the type asked for, and
    encoding a struct of scalars returns. *)
Class CodecReturns (c : Codec) : Prop := {
  unmarshal_returns data e fs : target (VStruct fs) →
    returns (cUnmarshal c data (VPtr e (Some (VStruct fs))))
      (fun m => ∃ fs', m = VPtr e (Some (VStruct fs')) ∧ typeOf (VStruct fs') = typeOf (VStruct fs));
  marshal_returns fs : flat fs → returns (cMarshal c (Some (VStruct fs))) (fun _ => True);
  marshal_ptr_returns e fs : flat fs → returns (cMarshal c (Some (VPtr e (Some (VStruct fs))))) (fun _ => True) }.

Lemma marshalFields_returns `{P : Protowire} buf fs : flat fs → returns (marshalFields marshalSingleValue buf fs) (fun _ => True).
Proof.
  intros Hf. revert buf. induction Hf as [|[f v] fs [Hs Ht] Hf IH]; intros buf; [done|]. cbn [marshalFields fst snd] in *.
  eapply returns_bind; [|by intros; apply IH]. instantiate (1 := fun _ => True). unfold marshalOne.
  destruct (String.eqb (Tag f) ""); [done|]. destruct (negb (exported f)); [done|].
  destruct (parseProtoTag (Tag f)) as [e|[[ft fn] []]]; [done|done|]. unfold marshalField. destruct (isZeroValue v); [done|].
  destruct v as [| | | | | |[| |w| | | | | | |]| | |]; try done; cbn [marshalSingleValue]; unfold encodeSingle;
    destruct (String.eqb ft "varint"), (String.eqb ft "fixed64"), (String.eqb ft "fixed32"), (String.eqb ft "bytes"); try done;
    by destruct w as [|[[[[]|[]|]|[[]|[]|]|]|[[[]|[]|]|[[[]|[]|]|[]|]|]|]|].
Qed.

#[export] Instance ProtoCodec_returns {P : Protowire} {L : ProtowireLaws P} : CodecReturns ProtoCodec.
Proof.
  split; intros.
  - by apply unmarshal_total.
  - by apply marshalFields_returns.
  - by apply marshalFields_returns.
Qed.

(** ** The store of sessions only grows *)

Lemma Create_heap cfg cp kickBody now token uid c cd m p m' q :
  Create cfg cp kickBody now token uid c cd m = Ok (p, m') → is_Some (heap m !! q) → is_Some (heap m' !! q).
Proof.
  unfold Create. set (m1 := mkManager _ _ _ _ _ _ _ _). intros E Hq.
  assert (H1 : is_Some (heap m1 !! q)) by (cbn; apply lookup_insert_is_Some'; by right).
  destruct (byUID m !! uid) as [o|]; [|by simplify_eq]. unfold kickAndDestroy in E.
  destruct (heap m1 !! o) as [s|]; [|done]. destruct (PushReliable cp s MsgKick kickBody) as [[[e s1] es]| |]; [|done..].
  cbn [rbind] in E. injection E as _ <-. unfold releaseSession. cbn.
  apply lookup_insert_is_Some'. right.
  assert (∀ mm, heap mm = heap (sayM es (put_sess o s1 m1)) → is_Some (heap mm !! q)) as Hk.
  { intros mm ->. cbn. apply lookup_insert_is_Some'. by right. }
  apply Hk. destruct (cconn (conn s1)); unfold dropConn; repeat case_decide; done.
Qed.

Lemma Reconnect_heap now t t0 c cd m r m' q : Reconnect now t t0 c cd m = Ok (r, m') → is_Some (heap m !! q) → is_Some (heap m' !! q).
Proof.
  unfold Reconnect. destruct (lookupToken t0 m) as [p|]; [|by intros [= <- <-]]. unfold finishReconnect.
  destruct (heap m !! p) as [s|] eqn:Hp; [|done]. unfold RotateToken. case_decide; [by intros [= <- <-]|].
  cbn [bind Bind]. intros [= <- <-] Hq.
  assert (∀ mm o, heap (match o with Some o => dropConn o p mm | None => mm end) = heap mm) as Hd
    by (intros mm [o|]; [unfold dropConn; by case_decide|done]).
  destruct (cconn _) as [o|]; [case_decide|]; cbn; rewrite ?(Hd _ (Some _)); cbn; try (apply lookup_insert_is_Some'; by right);
    unfold dropConn; case_decide; cbn; apply lookup_insert_is_Some'; by right.
Qed.
Lemma Reconnect_found now t t0 c cd m p m' : Reconnect now t t0 c cd m = Ok (inr p, m') → is_Some (heap m !! p).
Proof.
  unfold Reconnect. destruct (lookupToken t0 m) as [q|]; [|done]. unfold finishReconnect.
  destruct (heap m !! q) as [s|] eqn:Hp; [|done]. destruct (RotateToken _ _ _) as [[] cs]; [|done].
  destruct (bind _ _ _ _) as [o s1]. intros [= <- _]. by eexists.
Qed.

Lemma dropConn_heap c p m : heap (dropConn c p m) = heap m.
Proof. unfold dropConn. by case_decide. Qed.
Lemma put_heap q p s m : is_Some (heap m !! q) → is_Some (heap (put_sess p s m) !! q).
Proof. intros Hq. cbn. apply lookup_insert_is_Some'. by right. Qed.
Lemma MarkOfflineConn_heap now p c m b m' q : MarkOfflineConn now p c m = Ok (b, m') → is_Some (heap m !! q) → is_Some (heap m' !! q).
Proof.
  unfold MarkOfflineConn. destruct (heap m !! p) as [s|]; [|done]. destruct (unbindIfConn now s c) as [[o|] s1]; intros [= <- <-]; [|done].
  intros Hq. cbn. rewrite dropConn_heap. by apply put_heap.
Qed.
Lemma destroy_heap p reason m m' q : destroy p reason m = Ok m' → is_Some (heap m !! q) → is_Some (heap m' !! q).
Proof.
  unfold destroy. destruct (heap m !! p) as [s|]; [|done]. unfold removeFromMaps. case_decide; [by intros [= <-]|].
  intros [= <-] Hq. cbn. apply lookup_insert_is_Some'. right.
  destruct (cconn (conn s)); rewrite ?dropConn_heap; case_decide; done.
Qed.
Lemma finishReconnect_heap now nt p token c cd m r m' q :
  finishReconnect now nt p token c cd m = Ok (r, m') → is_Some (heap m !! q) → is_Some (heap m' !! q).
Proof.
  unfold finishReconnect. destruct (heap m !! p) as [s|]; [|done]. destruct (RotateToken _ _ _) as [[] cs0]; [|by intros [= _ <-]].
  destruct (bind _ _ _ _) as [[o|] s1]; intros [= _ <-] Hq; [case_decide|]; cbn; rewrite ?dropConn_heap; by apply put_heap.
Qed.
Lemma mstep_heap cfg cp kickBody m m' q : mstep cfg cp kickBody m m' → is_Some (heap m !! q) → is_Some (heap m' !! q).
Proof.
  intros Hs Hq. destruct Hs as [? ? ? ? ? ? ? ? _ _ E|now p m m' E|? ? ? ? ? ? E|? ? ? ? ? ? ? ? ? ? _ _ _ _ E|p m m' E|p ? ? ? m m' E|? ? ? ? _|? ? ? ? _].
  - by eapply Create_heap.
  - unfold MarkOffline in E. destruct (heap m !! p) as [s|]; [|done]. destruct (unbind now s) as [[o|] s1]; [|done].
    injection E as <-. cbn. rewrite dropConn_heap. by apply put_heap.
  - by eapply MarkOfflineConn_heap.
  - by eapply finishReconnect_heap.
  - by eapply destroy_heap.
  - unfold pushTo in E. destruct (heap m !! p) as [s|]; [|done].
    destruct (pushEncoded _ _ _ _ _) as [[[e s1] es]| |]; [|done..]. injection E as <-. by apply put_heap.
  - by apply put_heap.
  - by apply put_heap.
Qed.

(** ** Building frames *)

Lemma returns_Ok {A} (m : gores A) Q : returns m Q → (∃ e, m = Ok (inl e)) ∨ ∃ a, m = Ok (inr a) ∧ Q a.
Proof. destruct m as [[]| |]; cbn; naive_solver. Qed.

Section Thm.
Context (cs : codecs) (errText : perr → list Z) (writeText : Frame → list Z) (partialTS : list Z → Z).
Context (cfg : Config) (maxLoginBody heartbeatMS : Z) (kickBody : Z → option (list Z)).
Context (cap_pos : 0 < ReplayCapacity cfg).
Hypothesis Hcodecs : ∀ t c, cs !! t = Some c → CodecReturns c.

Notation handshake1 := (handshake1 cs errText writeText partialTS cfg maxLoginBody heartbeatMS kickBody).
Notation handleLogin := (handleLogin cs errText writeText cfg maxLoginBody heartbeatMS kickBody).
Notation handleReconnect := (handleReconnect cs errText writeText maxLoginBody).
Notation finishReplay := (finishReplay cs errText writeText).
Notation pump1 := (pump1 cs errText partialTS).
Notation serve := (serve cs errText writeText partialTS cfg maxLoginBody heartbeatMS kickBody).
Notation serving := (serving cs errText writeText partialTS cfg maxLoginBody heartbeatMS kickBody).

Lemma envFields_flat e : flat (envFields e).
Proof. unfold flat. repeat (apply Forall_cons_2; [done|]). done. Qed.

Lemma frame_returns typ id seq code msg body : (∀ b, body = Some b → ∃ fs, b = VStruct fs ∧ flat fs) →
  ∃ x, NewErrorFrameFor cs typ id seq code msg body = Ok x.
Proof.
  intros Hb. unfold NewErrorFrameFor, Envelope.Get. destruct (cs !! typ) as [c|] eqn:Hc; [|by eexists].
  pose proof (Hcodecs _ _ Hc) as HR.
  assert (He : ∀ raw, ∃ x, lift (cMarshal c (Some (VPtr envType (Some (VStruct (envFields (mkEnvelope seq code
    (if decide (msg = []) then Message code else msg) raw)))))))
    (fun raw => Ok (inr (mkFrame ProtocolVer id typ seq [] raw)) : cres Frame) = Ok x).
  { intros raw. destruct (returns_Ok _ _ (marshal_ptr_returns envType _ (envFields_flat (mkEnvelope seq code
      (if decide (msg = []) then Message code else msg) raw)))) as [[e ->]|(a & -> & _)]; cbn; eauto. }
  destruct body as [b|]; [|by apply He]. destruct (Hb b eq_refl) as (fs & -> & Hf).
  destruct (returns_Ok _ _ (marshal_returns fs Hf)) as [[e ->]|(a & -> & _)]; cbn [lift]; eauto.
Qed.


Lemma ok_returns typ id seq fs : flat fs → ∃ x, NewOKFrameFor cs typ id seq (Some (VStruct fs)) = Ok x.
Proof. intros Hf. apply frame_returns. intros b [= <-]. by eexists. Qed.
Lemma flat_login t h u : flat (LoginResp t h u).
Proof. unfold flat. repeat (apply Forall_cons_2; [done|]). done. Qed.
Lemma flat_reconnect t b : flat (ReconnectResp t b).
Proof. unfold flat. repeat (apply Forall_cons_2; [done|]). done. Qed.
Lemma flat_pong a b : flat (Pong a b).
Proof. unfold flat. repeat (apply Forall_cons_2; [done|]). done. Qed.

(** Decoding a message of a known type. *)
Lemma decode_returns c data fs : CodecReturns c → target (VStruct (map (fun p => (p.1, zero p.2)) fs)) →
  map (fun p => (p.1, typeOf (zero p.2))) fs = fs →
  (∃ e, cUnmarshal c data (newMsg (KStruct fs)) = Ok (inl e)) ∨
  ∃ fs', cUnmarshal c data (newMsg (KStruct fs)) = Ok (inr (VPtr (KStruct fs) (Some (VStruct fs')))) ∧
    map (fun p => (p.1, typeOf p.2)) fs' = fs.
Proof.
  intros HR Ht Hz. destruct (returns_Ok _ _ (unmarshal_returns data (KStruct fs) _ Ht)) as [[e He]|(v & He & fs' & -> & Hty)].
  - left. by exists e.
  - right. exists fs'. split; [done|]. cbn in Hty. rewrite map_map in Hty. cbn in Hty. rewrite Hz in Hty. congruence.
Qed.

Definition fieldsOf (k : kind) : list (finfo * kind) := match k with KStruct fs => fs | _ => [] end.

Lemma login_returns c data : CodecReturns c →
  (∃ e, cUnmarshal c data (newMsg loginReqType) = Ok (inl e)) ∨
  ∃ v u, cUnmarshal c data (newMsg loginReqType) = Ok (inr v) ∧ loginUID v = Some u.
Proof.
  intros HR. destruct (decode_returns c data (fieldsOf loginReqType) HR) as [He|(fs & He & Hty)]; [|done|by left; exact He|right].
  { cbn. repeat split; done. }
  eexists. revert He. destruct fs as [|[f v] fs]; [done|]. cbn in Hty. injection Hty as _ Hv _. destruct v; try done.
  intros He. eexists. by split.
Qed.

Lemma reconnect_returns c data : CodecReturns c →
  (∃ e, cUnmarshal c data (newMsg reconnectReqType) = Ok (inl e)) ∨
  ∃ v x, cUnmarshal c data (newMsg reconnectReqType) = Ok (inr v) ∧ reconnectReqOf v = Some x.
Proof.
  intros HR. destruct (decode_returns c data (fieldsOf reconnectReqType) HR) as [He|(fs & He & Hty)]; [|done|by left; exact He|right].
  { cbn. repeat split; done. }
  eexists. revert He. destruct fs as [|[f v] [|[g w] [|]]]; try done. cbn in Hty. injection Hty as _ Hv _ Hw.
  destruct v, w; try done. intros He. eexists. by split.
Qed.

Lemma ping_returns c data : CodecReturns c → ∃ x, cUnmarshal c data (newMsg pingType) = Ok x.
Proof.
  intros HR. destruct (decode_returns c data (fieldsOf pingType) HR) as [[e He]|(fs & He & Hty)]; [|done|by eexists; exact He|by eexists; exact He].
  cbn. repeat split; done.
Qed.
Lemma pull_returns c data : CodecReturns c → ∃ x, cUnmarshal c data (newMsg pullSnapReqType) = Ok x.
Proof.
  intros HR. destruct (decode_returns c data (fieldsOf pullSnapReqType) HR) as [[e He]|(fs & He & Hty)]; [|done|by eexists; exact He|by eexists; exact He].
  cbn. repeat split; done.
Qed.

(** ** Writing to a connection only adds to what was sent *)

Definition pushed (c : Z) (m m' : Manager) : Prop := ∃ es, m' = sayM es m ∧ Forall (fun e => ∃ raw, e = EvPushed c raw) es.

Lemma sayM_app es es' m : sayM es' (sayM es m) = sayM (es ++ es') m.
Proof. unfold sayM. cbn. by rewrite <- (assoc_L app). Qed.
Lemma pushed_refl c m : pushed c m m.
Proof. exists []. by rewrite sayM_nil. Qed.
Lemma pushed_trans c m1 m2 m3 : pushed c m1 m2 → pushed c m2 m3 → pushed c m1 m3.
Proof. intros (es & -> & H1) (es' & -> & H2). exists (es ++ es'). rewrite sayM_app. split; [done|]. by apply Forall_app. Qed.
Lemma pushes_quiet c es : Forall (fun e => ∃ raw, e = EvPushed c raw) es → releases es = O.
Proof. unfold releases. induction 1 as [|e es [raw ->] _ IH]; [done|]. by rewrite filter_cons_False by done. Qed.
Lemma pushed_MInv c m m' : pushed c m m' → MInv m → MInv m'.
Proof.
  intros (es & -> & He%pushes_quiet) [I1 I2 I3 I4 I5 I6 I7 I8 I9 I10]. split; try done.
  cbn [sayM session_released_total sout]. by rewrite releases_app, He, Nat.add_0_r.
Qed.
Lemma pushed_heap c m m' : pushed c m m' → heap m' = heap m.
Proof. by intros (es & -> & _). Qed.
Lemma pushed_token c m m' : pushed c m m' → byToken m' = byToken m.
Proof. by intros (es & -> & _). Qed.

Lemma write_pushed cp c f m : pushed c m (snd (write cp c f m)).
Proof.
  unfold write. destruct (snd (EncodeFrame f)) as [e|raw]; [apply pushed_refl|].
  destruct (cp c raw); [|apply pushed_refl]. exists [EvPushed c raw]. split; [done|]. apply Forall_singleton. eauto.
Qed.
Lemma writeAll_pushed cp c fs m : pushed c m (writeAll cp c fs m).
Proof.
  revert m. induction fs as [|f fs IH]; intros m; cbn; [apply pushed_refl|]. pose proof (write_pushed cp c f m) as H.
  destruct (write cp c f m) as [[] m1]; [|done]. by eapply pushed_trans.
Qed.

Lemma writeError_pushed cp c f ec m : ∃ m', writeError cs cp c f ec m = Ok m' ∧ pushed c m m'.
Proof.
  unfold writeError. destruct (frame_returns (CodecType f) (MsgID f) (Seq f) (ecCode ec) (ecMsg ec) None) as [[e|fr] ->]; [done|..]; cbn.
  - eexists. split; [done|apply pushed_refl].
  - eexists. split; [done|apply write_pushed].
Qed.

Lemma codecOf_returns f : (∃ e, codecOf cs f = inl e) ∨ ∃ c, codecOf cs f = inr c ∧ CodecReturns c.
Proof. unfold codecOf, Envelope.Get. destruct (cs !! CodecType f) eqn:E; [right|left]; eauto. Qed.

Lemma replyPong_pushed cp now c f m : ∃ m', replyPong cs partialTS cp now c f m = Ok m' ∧ pushed c m m'.
Proof.
  unfold replyPong. destruct (codecOf_returns f) as [[e ->]|(cd & -> & HR)]; [eexists; split; [done|apply pushed_refl]|].
  destruct (ping_returns cd (Body f) HR) as [x ->]. cbn [rbind].
  edestruct ok_returns as [y ->]; [apply flat_pong|]. cbn. destruct y; eexists; (split; [done|]); [apply pushed_refl|apply write_pushed].
Qed.

(** ** Handlers *)

Ltac kept := do 2 eexists; split; [reflexivity|]; split_and!; try done.

Lemma handleLogin_safe cp now token c f m : MInv m → token ≠ EmptyString → byToken m !! token = None →
  ∃ r m', handleLogin cp now token c f m = Ok (r, m') ∧ MInv m' ∧ (∀ p, is_Some (heap m !! p) → is_Some (heap m' !! p)) ∧
    ∀ p, r = inr p → is_Some (heap m' !! p).
Proof.
  intros HI Ht Hf. unfold Connector.handleLogin. case_decide; [by kept|].
  destruct (codecOf_returns f) as [[e ->]|(cd & -> & HR)]; [by kept|].
  destruct (login_returns cd (Body f) HR) as [[e ->]|(v & u & -> & Hu)]; cbn [rbind]; [by kept|].
  rewrite Hu. case_decide; [by kept|].
  destruct (Create_spec cfg cp kickBody cap_pos now token u c (Type_ cd) m HI Ht Hf) as (m1 & E1 & HI1 & _ & _ & Hp & _).
  assert (Hdom : ∀ p, is_Some (heap m !! p) → is_Some (heap m1 !! p)) by (intros p Hp0; by eapply Create_heap).
  rewrite E1. cbn [rbind]. edestruct ok_returns as [y ->]; [apply flat_login|]. cbn. destruct y as [e|fr]; [by kept|].
  pose proof (write_pushed cp c fr m1) as Hw. destruct (write cp c fr m1) as [ok m2]. cbn in Hw.
  assert (HI2 := pushed_MInv _ _ _ Hw HI1). assert (Hh := pushed_heap _ _ _ Hw).
  destruct ok; eexists _, _; (split; [reflexivity|]); rewrite Hh; split_and!; eauto; try done. intros p [= <-]. by eexists.
Qed.

Lemma ReplayFor_returns m p s last ids : MInv m → heap m !! p = Some s → ∃ x, ReplayFor s last ids = Ok x.
Proof.
  intros HI Hp. destruct (mx_ring _ _ HI _ _ Hp) as [fs Hfs]. unfold ReplayFor. rewrite (since_run _ fs) by done.
  destruct fs as [|f fs]; [|destruct (Seq f >? to_u32 (last + 1))]; cbn; by eexists.
Qed.

Lemma finishReplay_pushed cp c f cd last p m : MInv m → is_Some (heap m !! p) →
  ∃ r m', finishReplay cp c f cd last p m = Ok (r, m') ∧ pushed c m m' ∧ ∀ q, r = inr q → q = p.
Proof.
  intros HI [s Hs]. unfold Connector.finishReplay. rewrite Hs. destruct (ReplayFor_returns m p s last [] HI Hs) as [[[rel sn] ov] ->].
  cbn [rbind]. edestruct ok_returns as [y ->]; [apply flat_reconnect|]. cbn [rbind].
  destruct y as [e|fr]; [kept; apply pushed_refl|].
  pose proof (write_pushed cp c fr m) as Hw. destruct (write cp c fr m) as [ok m1]. cbn in Hw.
  destruct ok; kept; [|by intros q [= <-]]. eapply pushed_trans; [done|]. destruct ov; [apply writeAll_pushed|].
  eapply pushed_trans; apply writeAll_pushed.
Qed.

Lemma handleReconnect_safe cp now token c f m : MInv m → token ≠ EmptyString → byToken m !! token = None →
  ∃ r m', handleReconnect cp now token c f m = Ok (r, m') ∧ MInv m' ∧ (∀ p, is_Some (heap m !! p) → is_Some (heap m' !! p)) ∧
    ∀ p, r = inr p → is_Some (heap m' !! p).
Proof.
  intros HI Ht Hf. unfold Connector.handleReconnect. case_decide; [by kept|].
  destruct (codecOf_returns f) as [[e ->]|(cd & -> & HR)]; [by kept|].
  destruct (reconnect_returns cd (Body f) HR) as [[e ->]|(v & [old last] & -> & Hu)]; cbn [rbind]; [by kept|].
  rewrite Hu. destruct (Reconnect_MInv now token old c (Type_ cd) m HI Ht Hf) as (r & m1 & E & HI1). rewrite E. cbn [rbind].
  assert (Hh : ∀ p, is_Some (heap m !! p) → is_Some (heap m1 !! p)) by (intros p; by eapply Reconnect_heap).
  destruct r as [e|p]; [by kept|].
  assert (Hp : is_Some (heap m1 !! p)) by (by eapply Hh, Reconnect_found).
  destruct (finishReplay_pushed cp c f cd last p m1 HI1 Hp) as (r & m2 & -> & Hpu & Hr).
  assert (Hh2 := pushed_heap _ _ _ Hpu). eexists _, _. split; [reflexivity|]. rewrite Hh2. split_and!; [by eapply pushed_MInv|done|].
  by intros q ->%Hr.
Qed.

Lemma handshake1_safe cp now token c f m : MInv m → token ≠ EmptyString → byToken m !! token = None →
  ∃ r m', handshake1 cp now token c f m = Ok (r, m') ∧ MInv m' ∧ (∀ p, is_Some (heap m !! p) → is_Some (heap m' !! p)) ∧
    ∀ p, r = Some p → is_Some (heap m' !! p).
Proof.
  intros HI Ht Hf. unfold Connector.handshake1.
  assert (Hpush : ∀ m1 m2, MInv m1 → (∀ p, is_Some (heap m !! p) → is_Some (heap m1 !! p)) → pushed c m1 m2 →
    MInv m2 ∧ (∀ p, is_Some (heap m !! p) → is_Some (heap m2 !! p))).
  { intros m1 m2 H1 H2 Hp. split; [by eapply pushed_MInv|]. by rewrite (pushed_heap _ _ _ Hp). }
  case_decide.
  { destruct (replyPong_pushed cp now c f m) as (m' & -> & Hp). cbn. destruct (Hpush _ _ HI ltac:(done) Hp). by kept. }
  repeat case_decide.
  - destruct (handleLogin_safe cp now token c f m HI Ht Hf) as ([e|p] & m1 & -> & HI1 & Hh & Hr); cbn [rbind].
    + destruct (writeError_pushed cp c f e m1) as (m' & -> & Hp). cbn. destruct (Hpush _ _ HI1 Hh Hp). by kept.
    + kept. intros q [= <-]. by apply Hr.
  - destruct (handleReconnect_safe cp now token c f m HI Ht Hf) as ([e|p] & m1 & -> & HI1 & Hh & Hr); cbn [rbind].
    + destruct (writeError_pushed cp c f e m1) as (m' & -> & Hp). cbn. destruct (Hpush _ _ HI1 Hh Hp). by kept.
    + kept. intros q [= <-]. by apply Hr.
  - edestruct writeError_pushed as (m' & -> & Hp). cbn. destruct (Hpush _ _ HI ltac:(done) Hp). by kept.
Qed.

Definition system (f : Frame) : Prop := MsgID f = MsgPing ∨ MsgID f = MsgPullSnap ∨ MsgID f = MsgLogin ∨ MsgID f = MsgReconnect.

Lemma pump1_safe cp now c p f m : MInv m → is_Some (heap m !! p) →
  ∃ b m', pump1 cp now c p f m = Ok (b, m') ∧ MInv m' ∧ (∀ q, is_Some (heap m !! q) → is_Some (heap m' !! q)) ∧ (b = true ↔ ¬ system f).
Proof.
  intros HI [s Hs]. unfold Connector.pump1. rewrite Hs. set (m1 := put_sess p _ m).
  assert (HI1 : MInv m1) by (eapply (mstep_MInv cfg cp kickBody cap_pos); [by apply ms_touch|done]).
  assert (Hh1 : ∀ q, is_Some (heap m !! q) → is_Some (heap m1 !! q)) by (intros q Hq; cbn; apply lookup_insert_is_Some'; by right).
  assert (Hpush : ∀ m2, pushed c m1 m2 → MInv m2 ∧ (∀ p, is_Some (heap m !! p) → is_Some (heap m2 !! p))).
  { intros m2 Hp. split; [by eapply pushed_MInv|]. by rewrite (pushed_heap _ _ _ Hp). }
  unfold system. case_decide.
  { destruct (replyPong_pushed cp now c f m1) as (m' & -> & Hp). cbn. destruct (Hpush _ Hp). kept. naive_solver. }
  case_decide.
  { assert (∃ m2, handlePullSnapshots cs errText cp c p f m1 = Ok m2 ∧ pushed c m1 m2) as (m2 & -> & Hp).
    { unfold handlePullSnapshots. destruct (codecOf_returns f) as [[e ->]|(cd & -> & HR)]; [apply writeError_pushed|].
      assert (∃ x, (if decide (Body f = []) then Ok (inr (newMsg pullSnapReqType)) else cUnmarshal cd (Body f) (newMsg pullSnapReqType)) = Ok x) as [x ->]
        by (case_decide; [by eexists|by apply pull_returns]).
      cbn [rbind]. destruct x as [e|v]; [apply writeError_pushed|]. edestruct (ok_returns (Type_ cd) MsgPullSnap (Seq f) []) as [y ->]; [constructor|]. cbn [rbind].
      assert (Hw : pushed c m1 (match y with inr frame => snd (write cp c frame m1) | inl _ => m1 end))
        by (destruct y; [apply pushed_refl|apply write_pushed]).
      rewrite (pushed_heap _ _ _ Hw). cbn [m1 put_sess set_heap heap]. rewrite lookup_insert_eq. eexists. split; [done|].
      eapply pushed_trans; [done|apply writeAll_pushed]. }
    cbn. destruct (Hpush _ Hp). kept. naive_solver. }
  case_decide.
  { edestruct writeError_pushed as (m' & -> & Hp). cbn. destruct (Hpush _ Hp). kept. naive_solver. }
  kept. naive_solver.
Qed.

(** ** The server *)

Record SInv (w : server) : Prop := {
  si_mgr : MInv (mgr w);
  si_sess : ∀ c p, phases w !! c = Some (Pumping p) → is_Some (heap (mgr w) !! p);
  si_started : ∀ c p, (c, p) ∈ started w → phases w !! c = Some (Pumping p) ∨ phases w !! c = Some Gone;
  si_pumping : ∀ c p, phases w !! c = Some (Pumping p) → (c, p) ∈ started w;
  si_once : NoDup (started w).*1;
  si_disp : ∀ c p f, (c, p, f) ∈ dispatched w → (c, p) ∈ started w ∧ ¬ system f }.

Lemma SInv_step w w' : serve w w' → SInv w → SInv w'.
Proof.
  intros Hs [H1 H2 H3 H4 H5 H6].
  destruct Hs as [w c Hc|w c now token cp f r m' Hc Ht Hf E|w c p now cp f b m' Hc E|w c Hc|w c p now b m' Hc E|w cp m' E].
  - split; cbn; try done.
    + intros c' p [[_ ?]|[_ Hp]]%lookup_insert_Some; [done|by eapply H2].
    + intros c' p Hp. rewrite lookup_insert_ne; [by apply H3|]. intros <-. destruct (H3 _ _ Hp); congruence.
    + intros c' p [[_ ?]|[_ Hp]]%lookup_insert_Some; [done|by eapply H4].
  - destruct (handshake1_safe cp now token c f (mgr w) H1 Ht Hf) as (r0 & m0 & E0 & HI & Hh & Hr). rewrite E in E0. injection E0 as <- <-.
    destruct r as [p|]; split; cbn; try done; try by eauto.
    + intros c' q [[<- [= <-]]|[_ Hp]]%lookup_insert_Some; eauto.
    + intros c' q [Hq|Hq%list_elem_of_singleton]%elem_of_app; [|injection Hq as -> ->; left; by rewrite lookup_insert_eq].
      rewrite lookup_insert_ne; [by apply H3|]. intros <-. destruct (H3 _ _ Hq); congruence.
    + intros c' q [[<- [= <-]]|[_ Hp]]%lookup_insert_Some; apply elem_of_app; [right; by apply list_elem_of_singleton|left; by apply H4].
    + rewrite fmap_app. apply NoDup_app. split_and!; [done| |by apply NoDup_singleton].
      intros x ([x' q] & Hx & Hq)%list_elem_of_fmap Hc'%list_elem_of_singleton. cbn in *. subst. destruct (H3 _ _ Hq); congruence.
    + intros c' q g Hg%H6. split; [apply elem_of_app; left|]; apply Hg.
  - destruct (pump1_safe cp now c p f (mgr w) H1 (H2 _ _ Hc)) as (b0 & m0 & E0 & HI & Hh & Hb). rewrite E in E0. injection E0 as <- <-.
    split; cbn; try done; try by eauto.
    intros c' q g. destruct b; [|apply H6]. intros [Hg%H6|Hg%list_elem_of_singleton]%elem_of_app; [done|]. injection Hg as -> -> ->.
    split; [by apply H4|by apply Hb].
  - split; cbn; try done.
    + intros c' p [[_ ?]|[_ Hp]]%lookup_insert_Some; [done|by eapply H2].
    + intros c' p Hp. rewrite lookup_insert_ne; [by apply H3|]. intros <-. destruct (H3 _ _ Hp); congruence.
    + intros c' p [[_ ?]|[_ Hp]]%lookup_insert_Some; [done|by eapply H4].
  - destruct (H2 _ _ Hc) as [s Hp]. destruct (MarkOfflineConn_MInv now p s c (mgr w) H1 Hp) as (b0 & m0 & E0 & HI). rewrite E in E0.
    injection E0 as <- <-. split; cbn; try done.
    + intros c' q [[_ ?]|[_ Hq]]%lookup_insert_Some; [done|]. eapply MarkOfflineConn_heap; [done|by eapply H2].
    + intros c' q Hq. destruct (decide (c' = c)) as [->|]; [rewrite lookup_insert_eq; by right|].
      rewrite lookup_insert_ne by done. by apply H3.
    + intros c' q [[_ ?]|[_ Hq]]%lookup_insert_Some; [done|by eapply H4].
  - split; cbn; try done; [by eapply (mstep_MInv cfg cp kickBody cap_pos)|]. intros c p Hp. eapply mstep_heap; [done|by eapply H2].
Qed.

Lemma serving_SInv w : serving w → SInv w.
Proof.
  intros Hr. eapply (rtc_keeps serve SInv); [apply SInv_step|exact Hr|]. split; cbn [startServer mgr phases started dispatched].
  - apply NewManager_MInv.
  - intros *. by rewrite lookup_empty.
  - by intros c p ?%not_elem_of_nil.
  - intros *. by rewrite lookup_empty.
  - constructor.
  - by intros c p f ?%not_elem_of_nil.
Qed.

(** ** Theorems *)

(** No client input breaks the server: in every state that any number of
    connections, sessions and background work can reach, the handling of any
    frame on any connection returns, in the handshake and in the message loop,
    and so does the end of a connection; and the session indexes stay
    consistent. *)
Theorem serve_safe w :
  serving w → MInv (mgr w) ∧
  (∀ c f cp now token, phases w !! c = Some Handshaking → token ≠ EmptyString → byToken (mgr w) !! token = None →
     ∃ r m', handshake1 cp now token c f (mgr w) = Ok (r, m')) ∧
  (∀ c p f cp now, phases w !! c = Some (Pumping p) → ∃ b m', pump1 cp now c p f (mgr w) = Ok (b, m')) ∧
  (∀ c p now, phases w !! c = Some (Pumping p) → ∃ b m', MarkOfflineConn now p c (mgr w) = Ok (b, m')).
Proof.
  intros [H1 H2 _ _ _ _]%serving_SInv. split_and!; [done|..].
  - intros c f cp now token _ Ht Hf. destruct (handshake1_safe cp now token c f (mgr w) H1 Ht Hf) as (r & m' & E & _). eauto.
  - intros c p f cp now Hc. destruct (pump1_safe cp now c p f (mgr w) H1 (H2 _ _ Hc)) as (b & m' & E & _). eauto.
  - intros c p now Hc. destruct (H2 _ _ Hc) as [s Hs].
    destruct (MarkOfflineConn_MInv now p s c (mgr w) H1 Hs) as (b & m' & E & _). eauto.
Qed.

(** C34. Only authenticated connections reach the game: every frame the router was
    given came from a connection whose handshake had succeeded, on behalf of the
    one session that handshake returned, and is none of the system messages; a
    connection authenticates at most once. *)
Theorem dispatch_authenticated w c p f :
  serving w → (c, p, f) ∈ dispatched w →
  (c, p) ∈ started w ∧ (∀ q, (c, q) ∈ started w → q = p) ∧ ¬ system f ∧
  (phases w !! c = Some (Pumping p) ∨ phases w !! c = Some Gone).
Proof.
  intros [H1 H2 H3 H4 H5 H6]%serving_SInv Hd. destruct (H6 _ _ _ Hd) as [Hs Hf]. split_and!; [done| |done|by apply H3].
  intros q Hq. apply list_elem_of_lookup in Hs as [i Hi], Hq as [j Hj].
  assert (i = j) as <-; [|by simplify_eq].
  eapply NoDup_lookup; [exact H5|by rewrite list_lookup_fmap, Hi|by rewrite list_lookup_fmap, Hj].
Qed.

(** A frame that fits the wire. *)
Definition fits (f : Frame) : Prop := zlen (Route f) ≤ 65535 ∧ payload_len f ≤ 0xFFFFFFFF.
Definition takesAll : Z → list Z → bool := fun _ _ => true.
Definition sent (c : Z) (fs : list Frame) : list sevent := (fun f => EvPushed c (encoding (normalize f))) <$> fs.

Lemma write_fits cp c f m : fits f → cp c (encoding (normalize f)) = true → write cp c f m = (true, sayM (sent c [f]) m).
Proof. intros [Hr Hp] Hc. unfold write. rewrite EncodeFrame_ok by done. cbn [snd]. by rewrite Hc. Qed.
Lemma writeAll_fits c fs m : Forall fits fs → writeAll takesAll c fs m = sayM (sent c fs) m.
Proof.
  intros Hf. revert m. induction Hf as [|f fs Hf Hfs IH]; intros m; [by rewrite sayM_nil|]. cbn [writeAll].
  rewrite write_fits by done. by rewrite IH, sayM_app.
Qed.

(** C35. A reconnect resumes the stream: presenting a valid token on a connection
    that takes what it is given answers the request with a new token, in the
    request's sequence number, and then sends exactly the reliable messages
    pushed since the login that the client has not acknowledged, oldest first
    and with consecutive numbers, and the latest snapshot under each id; when
    more were missed than the buffer holds it sends no reliable message and
    asks for a resync.  The session is the one of the token, with its room, its
    numbering and its buffers.  [os] is what happened to the session's buffers
    since the login; nothing else is pushed between the rebinding and the
    replay (a push there overtakes the answer: [replay_overtaken]), and the
    frames are within the limits of the wire. *)
Theorem reconnect_resumes now token c f cd v old last m p s fr connPush now0 u0 c0 cd0 cap os s1 :
  MInv m → token ≠ EmptyString → byToken m !! token = None →
  zlen (Body f) ≤ bodyLimit maxLoginBody → codecOf cs f = inr cd →
  cUnmarshal cd (Body f) (newMsg reconnectReqType) = Ok (inr v) → reconnectReqOf v = Some (old, last) →
  byToken m !! old = Some p → heap m !! p = Some s →
  0 < cap → zlen (pushesOf os) < 2^32 - 1 → 0 ≤ last ≤ zlen (pushesOf os) →
  sopRun connPush os (newSession now0 u0 c0 cd0 cap) = Ok s1 → ring s = ring s1 → snaps s = snaps s1 →
  let ov := bool_decide (cap < zlen (pushesOf os) - last) in
  NewOKFrameFor cs (Type_ cd) MsgReconnect (Seq f) (Some (VStruct (ReconnectResp token ov))) = Ok (inr fr) →
  let sn := (map_to_list (snaps s)).*2 in
  ∃ rel, ReplayFor s last [] = Ok (rel, sn, ov) ∧
    msgOf <$> rel = (if ov then [] else drop (Z.to_nat last) (pushesOf os)) ∧
    (∀ i f, rel !! i = Some f → Seq f = last + Z.of_nat i + 1) ∧ (∀ id, Body <$> snaps s !! id = lastSnap id os) ∧
    (Forall fits (fr :: rel ++ sn) →
     ∃ m1 m', Reconnect now token old c (Type_ cd) m = Ok (inr p, m1) ∧
       handleReconnect takesAll now token c f m = Ok (inr p, m') ∧
       heap m' !! p = Some (rebound now token c (Type_ cd) s) ∧
       sout m' = sout m1 ++ sent c (fr :: rel ++ sn)).
Proof.
  intros HI Ht Hf Hl Hc Hu Hv Hp Hs Hcap Hmax Hlast E1 Hring Hsnap ov Hfr sn.
  destruct (ReplayFor_history connPush now0 u0 c0 cd0 cap os last [] s1 s) as (rel & Hr & Hmsg & Hnum & Hsn); [done..|].
  fold ov in Hr, Hmsg. exists rel. split_and!; [done..|]. intros [Hff [Hrel Hsn']%Forall_app]%Forall_cons.
  destruct (Reconnect_token now token old c (Type_ cd) m p HI Hp) as (s0 & m1 & Hs0 & _ & _ & E & Hh & _). simplify_eq.
  assert (Hp1 : heap m1 !! p = Some (rebound now token c (Type_ cd) s)) by by rewrite Hh, lookup_insert_eq.
  exists m1. eexists. split; [done|]. unfold Connector.handleReconnect. rewrite decide_False by lia. rewrite Hc, Hu. cbn [rbind].
  rewrite Hv, E. cbn [rbind]. unfold Connector.finishReplay. rewrite Hp1.
  assert (ReplayFor (rebound now token c (Type_ cd) s) last [] = Ok (rel, sn, ov)) as -> by exact Hr. cbn [rbind].
  change (ctoken (conn (rebound now token c (Type_ cd) s))) with token. rewrite Hfr. cbn [rbind]. rewrite write_fits by done.
  rewrite writeAll_fits by done. split; [reflexivity|]. destruct ov.
  - apply fmap_nil_inv in Hmsg as ->. rewrite sayM_app. split; [exact Hp1|reflexivity].
  - rewrite writeAll_fits by done. rewrite !sayM_app. split; [exact Hp1|]. cbn. unfold sent. by rewrite fmap_app.
Qed.

(** ** Findings *)

(** Finding. A login whose answer cannot be written leaves its session behind:
    the handshake goes on without it, and when the connection then ends nothing
    marks it offline, so it counts as online and no sweep ever releases it. *)
Theorem login_leaks_session cp now token c f cd v uid m fr :
  MInv m → token ≠ EmptyString → byToken m !! token = None →
  zlen (Body f) ≤ bodyLimit maxLoginBody → codecOf cs f = inr cd →
  cUnmarshal cd (Body f) (newMsg loginReqType) = Ok (inr v) → loginUID v = Some uid → uid ≠ ""%string →
  NewOKFrameFor cs (Type_ cd) MsgLogin (Seq f) (Some (VStruct (LoginResp token heartbeatMS uid))) = Ok (inr fr) →
  (∀ raw, cp c raw = false) →
  ∃ e m' p s, handleLogin cp now token c f m = Ok (inl e, m') ∧ SessionManager.Get uid m' = Some p ∧ heap m' !! p = Some s ∧
    IsOnline s = true ∧ cconn (conn s) = Some c ∧ ∀ grace later, expired grace later m' p = false.
Proof.
  intros HI Ht Hf Hl Hc Hu Hv Hne Hfr Hcp.
  destruct (Create_spec cfg cp kickBody cap_pos now token uid c (Type_ cd) m HI Ht Hf) as (m1 & E1 & HI1 & Hby & _ & Hp & _).
  unfold Connector.handleLogin. rewrite decide_False by lia. rewrite Hc, Hu. cbn [rbind]. rewrite Hv, decide_False by done.
  rewrite E1. cbn [rbind]. rewrite Hfr. cbn [rbind].
  assert (write cp c fr m1 = (false, m1)) as ->.
  { unfold write. destruct (snd (EncodeFrame fr)); [done|]. by rewrite Hcp. }
  do 4 eexists. split; [reflexivity|]. split; [unfold SessionManager.Get; by rewrite Hby, lookup_insert_eq|]. split; [exact Hp|].
  split_and!; [done..|]. intros grace later. unfold expired. by rewrite Hp.
Qed.
End Thm.

(** ** Examples *)

Definition demoCodecs : codecs := {[TypeProtobuf := ProtoCodec]}.
Lemma demoCodecs_return t c : demoCodecs !! t = Some c → CodecReturns c.
Proof. unfold demoCodecs. intros [<- <-]%lookup_singleton_Some. apply _. Qed.

Definition noText : perr → list Z := fun _ => [].
Definition noTS : list Z → Z := fun _ => 0.
Definition noWrite : Frame → list Z := fun _ => [].
(** A login, a business message, and a reconnect after the connection broke. *)
Definition demoLogin : Frame := mkFrame 1 MsgLogin TypeProtobuf 7 [] (AppendString (AppendTag [] 1 2) (str "alice")).
Definition demoMsg : Frame := mkFrame 1 0x0100 TypeProtobuf 8 [] [].
Definition demoRe : Frame := mkFrame 1 MsgReconnect TypeProtobuf 9 [] (AppendString (AppendTag [] 1 2) (str "t1")).

Definition okP {A} (d : A * Manager) (x : res (A * Manager)) : A * Manager := match x with Ok y => y | _ => d end.
Definition demoM1 : Manager := snd (okP (None, NewManager)
  (handshake1 demoCodecs noText noWrite noTS demoCfg 0 15000 kick0 noPush 1 "t1" 10 demoLogin NewManager)).
Definition demoM2 : Manager := snd (okP (true, NewManager) (pump1 demoCodecs noText noTS noPush 2 10 0 demoMsg demoM1)).
Definition demoServer : server := mkServer demoM2 {[10 := Pumping 0]} [(10, O)] [(10, O, demoMsg)].

Lemma demo_cap : 0 < ReplayCapacity demoCfg.
Proof. vm_compute. reflexivity. Qed.

Lemma demoServer_serving : serving demoCodecs noText noWrite noTS demoCfg 0 15000 kick0 demoServer.
Proof.
  eapply rtc_l; [by apply (s_accept _ _ _ _ _ _ _ _ _ 10)|]. eapply rtc_l.
  { apply (s_handshake _ _ _ _ _ _ _ _ _ 10 1 "t1" noPush demoLogin (Some O) demoM1); [done..|]. vm_compute. reflexivity. }
  apply rtc_once. eapply eq_ind.
  { apply (s_pump _ _ _ _ _ _ _ _ _ 10 O 2 noPush demoMsg true demoM2); [done|]. vm_compute. reflexivity. }
  reflexivity.
Qed.

Lemma serve_safe_witness :
  ∃ b m', pump1 demoCodecs noText noTS noPush 3 10 0 demoMsg (mgr demoServer) = Ok (b, m').
Proof.
  destruct (serve_safe demoCodecs noText noWrite noTS demoCfg 0 15000 kick0 demo_cap demoCodecs_return demoServer demoServer_serving)
    as (_ & _ & Hp & _).
  exact (Hp 10 O demoMsg noPush 3 eq_refl).
Defined.

Lemma dispatch_authenticated_witness : (10, O) ∈ started demoServer.
Proof.
  refine (proj1 (dispatch_authenticated demoCodecs noText noWrite noTS demoCfg 0 15000 kick0 demo_cap demoCodecs_return demoServer
    10 O demoMsg demoServer_serving _)).
  apply list_elem_of_singleton. reflexivity.
Defined.

(** Two messages were pushed while the client was away. *)
Definition okR (x : res Manager) : Manager := match x with Ok m => m | _ => NewManager end.
Definition demoM3 : Manager := snd (okP (true, NewManager) (MarkOfflineConn 3 0 10 demoM2)).
Definition demoM4 : Manager := okR (pushTo noPush 0 300 [1] false (okR (pushTo noPush 0 300 [0] false demoM3))).
Definition demoS4 : Session := sessAt 0 demoM4.

Lemma demoM4_MInv : MInv demoM4.
Proof.
  pose proof (proj1 (serve_safe demoCodecs noText noWrite noTS demoCfg 0 15000 kick0 demo_cap demoCodecs_return demoServer demoServer_serving)) as H.
  assert (H3 : MInv demoM3).
  { eapply (mstep_MInv demoCfg noPush kick0 demo_cap); [|exact H]. apply (ms_offlineConn _ _ _ 3 0 10 _ true). vm_compute. reflexivity. }
  assert (H4 : MInv (okR (pushTo noPush 0 300 [0] false demoM3))).
  { eapply (mstep_MInv demoCfg noPush kick0 demo_cap); [|exact H3]. apply (ms_push _ _ _ 0 300 [0] false). vm_compute. reflexivity. }
  eapply (mstep_MInv demoCfg noPush kick0 demo_cap); [|exact H4]. apply (ms_push _ _ _ 0 300 [1] false). vm_compute. reflexivity.
Qed.

Definition demoReply : Frame := match NewOKFrameFor demoCodecs TypeProtobuf MsgReconnect 9 (Some (VStruct (ReconnectResp "t2" false))) with
  | Ok (inr f) => f | _ => demoMsg end.
Definition pushOf (n : Z) (b : list Z) : Frame := mkFrame 1 300 TypeProtobuf n [] b.

Definition demoReq : value := VPtr reconnectReqType (Some (VStruct [
  (mkField "ReconnectToken" "bytes,1,opt,name=reconnect_token,proto3" true, VString (str "t1"));
  (mkField "LastReliableSeq" "varint,2,opt,name=last_reliable_seq,proto3" true, VUint 32 0)])).
Definition demoMissed : list Frame := [pushOf 1 [0]; pushOf 2 [1]].

Lemma demo_fresh : byToken demoM4 !! "t2"%string = None. Proof. vm_compute. reflexivity. Qed.
Lemma demo_token : byToken demoM4 !! "t1"%string = Some O. Proof. vm_compute. reflexivity. Qed.
Lemma demo_sess : heap demoM4 !! O = Some demoS4. Proof. vm_compute. reflexivity. Qed.
Lemma demo_limit : zlen (Body demoRe) ≤ bodyLimit 0. Proof. vm_compute. discriminate. Qed.
Lemma demo_codec : codecOf demoCodecs demoRe = inr ProtoCodec. Proof. reflexivity. Qed.
Lemma demo_decode : cUnmarshal ProtoCodec (Body demoRe) (newMsg reconnectReqType) = Ok (inr demoReq). Proof. vm_compute. reflexivity. Qed.
Lemma demo_req : reconnectReqOf demoReq = Some ("t1"%string, 0). Proof. vm_compute. reflexivity. Qed.
Lemma demo_replay : ReplayFor demoS4 0 [] = Ok (demoMissed, [], false). Proof. vm_compute. reflexivity. Qed.
(** What happened to the session since its login. *)
Definition demoHistory : list sop := [OpUnbindIf 3 10; OpPush 300 [0]; OpPush 300 [1]].
Definition demoSess : Session := newSession 1 "alice" 10 TypeProtobuf (ReplayCapacity demoCfg).
Definition demoS1 : Session := match sopRun noPush demoHistory demoSess with Ok s => s | _ => demoSess end.
Lemma demo_reply : NewOKFrameFor demoCodecs (Type_ ProtoCodec) MsgReconnect (Seq demoRe) (Some (VStruct (ReconnectResp "t2" false))) = Ok (inr demoReply).
Proof. vm_compute. reflexivity. Qed.
Lemma demo_fits : Forall fits (demoReply :: demoMissed ++ []).
Proof. unfold fits. apply (bool_decide_eq_true_1 _). vm_compute. reflexivity. Qed.

Lemma reconnect_resumes_witness : ∃ rel m1 m',
  msgOf <$> rel = [(300, [0]); (300, [1])] ∧
  Reconnect 5 "t2" "t1" 11 (Type_ ProtoCodec) demoM4 = Ok (inr O, m1) ∧
  handleReconnect demoCodecs noText noWrite 0 takesAll 5 "t2" 11 demoRe demoM4 = Ok (inr O, m') ∧
  sout m' = sout m1 ++ sent 11 (demoReply :: rel ++ []).
Proof.
  assert (H0 : "t2"%string ≠ EmptyString) by discriminate.
  destruct (reconnect_resumes demoCodecs noText noWrite 0 5 "t2" 11 demoRe ProtoCodec demoReq "t1" 0 demoM4 O demoS4 demoReply
    noPush 1 "alice" 10 TypeProtobuf (ReplayCapacity demoCfg) demoHistory demoS1
    demoM4_MInv H0 demo_fresh demo_limit demo_codec demo_decode demo_req demo_token demo_sess)
    as (rel & Hr & Hmsg & _ & _ & Hsend); try (vm_compute; reflexivity); [vm_compute; split; discriminate|].
  rewrite demo_replay in Hr. injection Hr as <-.
  destruct (Hsend demo_fits) as (m1 & m' & H1 & H2 & _ & H4). exists demoMissed, m1, m'.
  split; [exact Hmsg|]. split; [exact H1|]. split; [exact H2|exact H4].
Defined.

(** The reliable numbers of what was sent, in order; zero for the answer. *)
Definition seqs (es : list sevent) : list Z :=
  omap (fun e => match e with
                 | EvPushed _ raw => match DecodeFrame raw 0 with Ok (inr f, _) => Some (if decide (MsgID f = 300) then Seq f else 0) | _ => None end
                 | _ => None end) es.

(** Finding. A message pushed between the rebinding of the session and the replay
    reaches the client before the answer and before the messages it missed, and
    then once more. *)
Lemma replay_overtaken :
  let m1 := snd (okP (inr O, NewManager) (Reconnect 5 "t2" "t1" 11 TypeProtobuf demoM4)) in
  let m2 := okR (pushTo noPush 0 300 [2] false m1) in
  let m3 := snd (okP (inr O, NewManager) (finishReplay demoCodecs noText noWrite takesAll 11 demoRe ProtoCodec 0 0 m2)) in
  seqs (drop (length (sout demoM4)) (sout m3)) = [3; 0; 1; 2; 3].
Proof. vm_compute. reflexivity. Qed.
