(* ===== verification/LogicHandler.v ===== *)
(** * The logic side of the split deployment (internal/app/logic_handler.go,
    internal/session/remote_conn.go, the release chain of BuildLogic in
    internal/app/role.go)

    Frames forwarded by gateways are handled here: logins and reconnects bind a
    session to a remote connection, whose pushes travel back over the internal
    link, and keep the route of the player.  What the session manager does to
    connections and its release callbacks are its recorded events; [absorb]
    gives them their meaning.  Messages handed to the internal transport, frames
    given to the router and sessions started are recorded. *)

From Stdlib Require Import Ascii.
From S2P Require Import Prelude Frame Proto ProtoThm Envelope GoStrings Replay Session SessionManager Connector Inner Routes.

(** A [RemoteConn]: pushes go to the gateway its request came from, under the uid
    of that request's header. *)
Record RemoteConn := mkRemote { rGateway : string; rUID : string; rClosed : bool }.


(** [token[:len(prefix)] == prefix] for a longer token. *)
Definition stripNodeIDPrefix (token nodeID : string) : string :=
  let prefix := (nodeID +:+ ":")%string in
  if (String.length prefix <? String.length token)%nat && String.prefix prefix token
  then String.substring (String.length prefix) (String.length token - String.length prefix) token
  else token.

Section Logic.
Context {T : Type} `{X : RouteTable T}.
Context (cs : codecs) (errText : perr → list Z) (partialTS : list Z → Z).
(** What a failed decode of a pull request has stored. *)
Context (partialIDs : list Z → list Z).
Context (cfg : Config) (kickBody : Z → option (list Z)) (nodeID : string).
(** Whether the internal transport takes a frame for a node. *)
Context (fwd : string → Frame → bool).

Record LogicHandler := mkL {
  lm : Manager;
  remotes : gmap Z RemoteConn;
  connSeq : Z;                                    (** [remoteConnSeq] *)
  table : T;
  outbox : list (string * InnerHeader * Frame);   (** messages the transport took *)
  lstarted : list nat;
  ldispatched : list (nat * Frame) }.

Definition set_lm (m : Manager) (l : LogicHandler) : LogicHandler :=
  mkL m (remotes l) (connSeq l) (table l) (outbox l) (lstarted l) (ldispatched l).
Definition set_table (t : T) (l : LogicHandler) : LogicHandler :=
  mkL (lm l) (remotes l) (connSeq l) t (outbox l) (lstarted l) (ldispatched l).
Definition set_remotes (r : gmap Z RemoteConn) (l : LogicHandler) : LogicHandler :=
  mkL (lm l) r (connSeq l) (table l) (outbox l) (lstarted l) (ldispatched l).
Definition post (gw uid : string) (f : Frame) (l : LogicHandler) : LogicHandler :=
  mkL (lm l) (remotes l) (connSeq l) (table l)
    (outbox l ++ [(gw, mkInner uid "" nodeID MsgUnicast (Seq f), f)]) (lstarted l) (ldispatched l).

(** The closure of [sendFunc]. *)
Definition send (i : InnerHeader) (f : Frame) (l : LogicHandler) : bool * LogicHandler :=
  if fwd (GatewayID i) f then (true, post (GatewayID i) (UID i) f l) else (false, l).

(** [RemoteConn.Push] on the connections of a state: a closed one refuses, the
    frame is decoded again with the default limit. *)
Definition remotePush (l : LogicHandler) (c : Z) (raw : list Z) : bool :=
  match remotes l !! c with
  | None => false
  | Some r =>
      negb (rClosed r) &&
      match DecodeFrame raw 0 with Ok (inr f, _) => fwd (rGateway r) f | _ => false end
  end.

(** [NewRemoteConn] *)
Definition newRemote (i : InnerHeader) (l : LogicHandler) : Z * LogicHandler :=
  let c := connSeq l + 1 in
  (c, mkL (lm l) (<[c := mkRemote (GatewayID i) (UID i) false]> (remotes l)) c (table l) (outbox l) (lstarted l) (ldispatched l)).

(** What the manager's calls mean here: an accepted push is a message to the
    gateway, [Close] marks the remote connection, and the release callback drops
    the route if it still leads to this node. *)
Definition absorb1 (e : sevent) (l : LogicHandler) : LogicHandler :=
  match e with
  | EvPushed c raw =>
      match remotes l !! c, DecodeFrame raw 0 with
      | Some r, Ok (inr f, _) => post (rGateway r) (rUID r) f l
      | _, _ => l
      end
  | EvClosed c _ => set_remotes (alter (fun r => mkRemote (rGateway r) (rUID r) true) c (remotes l)) l
  | EvRelease uid _ => set_table (Unbind uid nodeID (table l)) l
  end.
(** After a call that took the manager from [lm l] to [m]. *)
Definition absorb (m : Manager) (l : LogicHandler) : LogicHandler :=
  foldl (fun l e => absorb1 e l) (set_lm m l) (drop (length (sout (lm l))) (sout m)).

Definition sendError (i : InnerHeader) (f : Frame) (ec : ErrCode) (l : LogicHandler) : res LogicHandler :=
  let! x := NewErrorFrameFor cs (CodecType f) (MsgID f) (Seq f) (ecCode ec) (ecMsg ec) None in
  match x with inl _ => Ok l | inr frame => Ok (snd (send i frame l)) end.

Fixpoint sendAll (i : InnerHeader) (fs : list Frame) (l : LogicHandler) : LogicHandler :=
  match fs with
  | [] => l
  | f :: fs' => let '(ok, l) := send i f l in if ok then sendAll i fs' l else l
  end.

(** ** Handlers *)

Definition start (p : nat) (l : LogicHandler) : LogicHandler :=
  mkL (lm l) (remotes l) (connSeq l) (table l) (outbox l) (lstarted l ++ [p]) (ldispatched l).

(** [bindOk]: the route table took the binding. *)
Definition handleLogin (now : Z) (token : string) (bindOk : bool) (i : InnerHeader) (f : Frame) (l : LogicHandler) : res LogicHandler :=
  match codecOf cs f with
  | inl _ => sendError i f (NewErr ErrDecode (str "codec not supported")) l
  | inr cd =>
      let! v := cUnmarshal cd (Body f) (newMsg loginReqType) in
      match v with
      | inl e => sendError i f (NewErr ErrDecode (errText e)) l
      | inr v =>
          match loginUID v with
          | None => Panic
          | Some uid =>
              if decide (uid = ""%string) then sendError i f (NewErr ErrDecode (str "uid required")) l else
              let '(c, l) := newRemote i l in
              let! y := Create cfg (remotePush l) kickBody now token uid c (Type_ cd) (lm l) in
              let '(p, m) := y in
              let l := absorb m l in
              if bindOk then
                let l := set_table (Bind uid nodeID (table l)) l in
                let! x := NewOKFrameFor cs (Type_ cd) MsgLogin (Seq f)
                            (Some (VStruct (LoginResp (nodeID +:+ String colon token) (HeartbeatMS cfg) uid))) in
                match x with
                | inl e => sendError i f (internal errText e) l
                | inr frame => Ok (start p (snd (send i frame l)))
                end
              else sendError i f (NewErr ErrInternal (str "route bind failed")) l
          end
      end
  end.

Definition handleReconnect (now : Z) (token : string) (bindOk : bool) (i : InnerHeader) (f : Frame) (l : LogicHandler) : res LogicHandler :=
  match codecOf cs f with
  | inl _ => sendError i f (NewErr ErrDecode (str "codec not supported")) l
  | inr cd =>
      let! v := cUnmarshal cd (Body f) (newMsg reconnectReqType) in
      match v with
      | inl e => sendError i f (NewErr ErrDecode (errText e)) l
      | inr v =>
          match reconnectReqOf v with
          | None => Panic
          | Some (old, lastSeq) =>
              let '(c, l) := newRemote i l in
              let! y := Reconnect now token (stripNodeIDPrefix old nodeID) c (Type_ cd) (lm l) in
              match y with
              | (inl _, m) => sendError i f (NewErr Envelope.ErrTokenInvalid []) (absorb m l)
              | (inr p, m) =>
                  let l := absorb m l in
                  match heap (lm l) !! p with
                  | None => Panic
                  | Some s =>
                      if bindOk then
                        let l := set_table (Bind (suid s) nodeID (table l)) l in
                        let! y := ReplayFor s lastSeq [] in
                        let '(reliable, snapshots, overflow) := y in
                        let! x := NewOKFrameFor cs (Type_ cd) MsgReconnect (Seq f)
                                    (Some (VStruct (ReconnectResp (nodeID +:+ String colon (ctoken (conn s))) overflow))) in
                        match x with
                        | inl e => sendError i f (internal errText e) l
                        | inr frame =>
                            let l := snd (send i frame l) in
                            let l := if overflow then l else sendAll i reliable l in
                            Ok (sendAll i snapshots l)
                        end
                      else sendError i f (NewErr ErrInternal (str "route bind failed")) l
                  end
              end
          end
      end
  end.

Definition handlePing (now : Z) (i : InnerHeader) (f : Frame) (l : LogicHandler) : res LogicHandler :=
  match codecOf cs f with
  | inl _ => Ok l
  | inr cd =>
      let! p := cUnmarshal cd (Body f) (newMsg pingType) in
      let ts := match p with inr v => pingTS v | inl _ => partialTS (Body f) end in
      let! x := NewOKFrameFor cs (Type_ cd) MsgPong (Seq f) (Some (VStruct (Pong ts now))) in
      match x with inl _ => Ok l | inr frame => Ok (snd (send i frame l)) end
  end.

Definition handlePullSnap (i : InnerHeader) (f : Frame) (l : LogicHandler) : res LogicHandler :=
  match SessionManager.Get (UID i) (lm l) with
  | None => sendError i f (NewErr ErrUnauthorized []) l
  | Some p =>
      match codecOf cs f with
      | inl _ => sendError i f (NewErr ErrDecode (str "codec not supported")) l
      | inr cd =>
          let! v := if decide (Body f = []) then Ok (inr (newMsg pullSnapReqType)) else cUnmarshal cd (Body f) (newMsg pullSnapReqType) in
          let ids := match v with inr v => pullIDs v | inl _ => partialIDs (Body f) end in
          let! x := NewOKFrameFor cs (Type_ cd) MsgPullSnap (Seq f) (Some (VStruct [])) in
          let l := match x with inr frame => snd (send i frame l) | inl _ => l end in
          match heap (lm l) !! p with
          | None => Panic
          | Some s => Ok (sendAll i (Snapshots s ids) l)
          end
      end
  end.

Definition dispatch (now : Z) (i : InnerHeader) (f : Frame) (l : LogicHandler) : res LogicHandler :=
  match SessionManager.Get (UID i) (lm l) with
  | None => sendError i f (NewErr ErrUnauthorized (str "session not found")) l
  | Some p =>
      match heap (lm l) !! p with
      | None => Panic
      | Some s =>
          let l := set_lm (put_sess p (set_conn (Touch (conn s) now) s) (lm l)) l in
          Ok (mkL (lm l) (remotes l) (connSeq l) (table l) (outbox l) (lstarted l) (ldispatched l ++ [(p, f)]))
      end
  end.

Definition handle (now : Z) (token : string) (bindOk : bool) (i : InnerHeader) (f : Frame) (l : LogicHandler) : res LogicHandler :=
  if decide (MsgID f = MsgLogin) then handleLogin now token bindOk i f l
  else if decide (MsgID f = MsgReconnect) then handleReconnect now token bindOk i f l
  else if decide (MsgID f = MsgPing) then handlePing now i f l
  else if decide (MsgID f = MsgPullSnap) then handlePullSnap i f l
  else dispatch now i f l.

(** The sweep of the manager, with its release callbacks. *)
Definition sweepL (now : Z) (l : LogicHandler) : res LogicHandler :=
  let! y := Sweep (GracePeriod cfg) now (lm l) in Ok (absorb (snd y) l).

(** A push of a room or a handler to a player. *)
Definition pushL (p : nat) (id : Z) (body : list Z) (snap : bool) (l : LogicHandler) : res LogicHandler :=
  let! m := pushTo (remotePush l) p id body snap (lm l) in Ok (absorb m l).
End Logic.
