(* ===== verification/LogicThm.v ===== *)
(** * Theorems on the logic side of the split deployment *)

From S2P Require Import Prelude Frame ProtoWire Proto ProtoThm Envelope GoStrings Replay Session SessionManager Connector ConnectorThm Inner Routes LogicHandler.

(** ** Release callbacks of the session manager *)

Definition released (u : string) (es : list sevent) : Prop := ∃ r, EvRelease u r ∈ es.

Lemma released_app u es es' : released u (es ++ es') ↔ released u es ∨ released u es'.
Proof. unfold released. setoid_rewrite elem_of_app. naive_solver. Qed.
Lemma released_none u es : releases es = O → ¬ released u es.
Proof.
  intros H [r Hr]. unfold releases in H. apply nil_length_inv in H.
  assert (EvRelease u r ∈ filter (fun e => isRelease e = true) es) as Hin by (apply list_elem_of_filter; done).
  rewrite H in Hin. by apply not_elem_of_nil in Hin.
Qed.

(** What a call of the manager appended. *)
Definition emits (m m' : Manager) (es : list sevent) : Prop := sout m' = sout m ++ es.
Lemma emits_drop m m' es : emits m m' es → drop (length (sout m)) (sout m') = es.
Proof. intros ->. apply drop_app_length. Qed.

Lemma dropConn_sout c p m : sout (dropConn c p m) = sout m.
Proof. unfold dropConn. by case_decide. Qed.

Lemma Create_emits cfg cp kb now token uid c cd m p m' : MInv m →
  Create cfg cp kb now token uid c cd m = Ok (p, m') → ∃ es, emits m m' es ∧ ∀ u, released u es → u = uid.
Proof.
  intros HI. unfold Create. destruct (byUID m !! uid) as [q|] eqn:Hu; cycle 1.
  { intros [= _ <-]. exists []. split; [unfold emits; cbn; by rewrite app_nil_r|]. by intros u [r ?%not_elem_of_nil]. }
  destruct (mx_uid _ _ HI _ _ Hu) as (_ & s & Hs & Hsu & _). set (m1 := mkManager _ _ _ _ _ _ _ _).
  unfold kickAndDestroy. assert (Hq : heap m1 !! q = Some s).
  { cbn. rewrite lookup_insert_ne; [done|]. apply (mx_ptr _ _ HI) in Hs. lia. }
  rewrite Hq. destruct (mx_ring _ _ HI _ _ Hs) as [fs Hfs].
  assert (∃ e s1 es, PushReliable cp s MsgKick kb = Ok (e, s1, es) ∧ releases es = O ∧ suid s1 = suid s) as (e & s1 & es & -> & He & Hsu1).
  { unfold PushReliable. destruct (kb (codec s)) as [b|]; [|by eauto 10].
    destruct (pushEncoded_fields cp s MsgKick b false fs Hfs) as (e & s1 & es & -> & He & P1 & _). eauto 10. }
  cbn [rbind]. intros [= _ <-].
  exists (es ++ (match cconn (conn s1) with Some c => [EvClosed c "replaced by new login"] | None => [] end) ++ [EvRelease (suid s1) (sroom s1)]).
  split.
  - unfold emits, releaseSession. cbn [sayM put_sess set_heap sout].
    assert (Hx : ∀ mm, sout mm = sout m ++ es → (sout mm ++ match cconn (conn s1) with Some c0 => [EvClosed c0 "replaced by new login"] | None => [] end) ++
      [EvRelease (suid s1) (sroom s1)] = sout m ++ es ++ match cconn (conn s1) with Some c0 => [EvClosed c0 "replaced by new login"] | None => [] end ++ [EvRelease (suid s1) (sroom s1)]).
    { intros mm ->. by rewrite <- !(assoc_L app). }
    apply Hx. destruct (cconn (conn s1)); rewrite ?dropConn_sout; case_decide; done.
  - intros u. rewrite !released_app. intros [Hr|[Hr|[r Hr%list_elem_of_singleton]]]; [by apply released_none in Hr| |congruence].
    destruct Hr as [r Hr]. destruct (cconn (conn s1)); [by apply list_elem_of_singleton in Hr|by apply not_elem_of_nil in Hr].
Qed.

Lemma Reconnect_emits now t t0 c cd m r m' : MInv m → Reconnect now t t0 c cd m = Ok (r, m') →
  byUID m' = byUID m ∧ ∃ es, emits m m' es ∧ ∀ u, ¬ released u es.
Proof.
  intros HI. unfold Reconnect. destruct (lookupToken t0 m) as [p|]; cycle 1.
  { intros [= _ <-]. split; [done|]. exists []. split; [unfold emits; by rewrite app_nil_r|]. by intros u [? ?%not_elem_of_nil]. }
  unfold finishReconnect. destruct (heap m !! p) as [s|]; [|done]. destruct (RotateToken _ _ _) as [[] cs]; cycle 1.
  { intros [= _ <-]. split; [done|]. exists []. split; [unfold emits; by rewrite app_nil_r|]. by intros u [? ?%not_elem_of_nil]. }
  destruct (bind _ _ _ _) as [o s1]. intros [= _ <-].
  set (m1 := set_byToken _ _).
  assert (Hd : byUID (match o with Some o => dropConn o p m1 | None => m1 end) = byUID m ∧ sout (match o with Some o => dropConn o p m1 | None => m1 end) = sout m).
  { destruct o; [|done]. unfold dropConn. by case_decide. }
  destruct Hd as [Hd1 Hd2]. destruct o as [o|]; [case_decide|]; cbn; (split; [done|]).
  - exists [EvClosed o "reconnected from another conn"]. split; [unfold emits; cbn; by rewrite Hd2|]. by intros u [? ?%list_elem_of_singleton].
  - exists []. split; [unfold emits; cbn; by rewrite app_nil_r|]. by intros u [? ?%not_elem_of_nil].
  - exists []. split; [unfold emits; cbn; by rewrite app_nil_r|]. by intros u [? ?%not_elem_of_nil].
Qed.

Lemma Reconnect_live now t t0 c cd m p m' s : MInv m → t ≠ EmptyString → byToken m !! t = None →
  Reconnect now t t0 c cd m = Ok (inr p, m') → heap m' !! p = Some s → is_Some (SessionManager.Get (suid s) m').
Proof.
  intros HI Ht Hf E Hs. destruct (Reconnect_MInv now t t0 c cd m HI Ht Hf) as (r & m1 & E1 & HI1). rewrite E in E1. simplify_eq.
  assert (Hp : byToken m !! t0 = Some p).
  { unfold Reconnect, lookupToken in E. destruct (byToken m !! t0) as [q|]; [|done]. unfold finishReconnect in E.
    destruct (heap m !! q); [|done]. destruct (RotateToken _ _ _) as [[] ?]; [|done]. destruct (bind _ _ _ _). by simplify_eq. }
  destruct (Reconnect_token now t t0 c cd m p HI Hp) as (s0 & m2 & Hs0 & _ & _ & E2 & Hh & _). rewrite E in E2. simplify_eq.
  rewrite Hh, lookup_insert_eq in Hs. simplify_eq.
  assert (Hh' : heap m2 !! p = Some (rebound now t c cd s0)) by by rewrite Hh, lookup_insert_eq.
  destruct (mx_live _ _ HI1 _ _ Hh') as (_ & _ & Hu); [done|]. eexists. by apply Hu.
Qed.

Lemma pushTo_emits cp p id body snap m m' : MInv m → pushTo cp p id body snap m = Ok m' →
  byUID m' = byUID m ∧ ∃ es, emits m m' es ∧ ∀ u, ¬ released u es.
Proof.
  intros HI. unfold pushTo. destruct (heap m !! p) as [s|] eqn:Hp; [|done]. destruct (mx_ring _ _ HI _ _ Hp) as [fs Hfs].
  destruct (pushEncoded_fields cp s id body snap fs Hfs) as (e & s1 & es & -> & He & _). cbn [rbind]. intros [= <-].
  split; [done|]. exists es. split; [done|]. intros u. by apply released_none.
Qed.

Lemma destroy_emits p reason m m' : destroy p reason m = Ok m' →
  (∃ es, emits m m' es ∧ (∀ u, released u es ↔ is_Some (byUID m !! u) ∧ byUID m' !! u = None)) ∧
  ∀ u q, byUID m' !! u = Some q → byUID m !! u = Some q.
Proof.
  unfold destroy. destruct (heap m !! p) as [s|]; [|done]. unfold removeFromMaps. case_decide as Hu.
  { intros [= <-]. split; [|done]. exists []. split; [unfold emits; by rewrite app_nil_r|].
    intros u. split; [by intros [? ?%not_elem_of_nil]|intros [[? ?] ?]; congruence]. }
  intros [= <-]. unfold releaseSession.
  set (m1 := match cconn (conn s) with Some c => dropConn c p _ | None => _ end).
  assert (H1 : byUID m1 = delete (suid s) (byUID m) ∧ sout m1 = sout m).
  { unfold m1. destruct (cconn (conn s)); unfold dropConn; repeat case_decide; done. }
  destruct H1 as [H1 H2]. cbn. rewrite H1. split; [|by intros u q [_ ?]%lookup_delete_Some].
  exists ((match cconn (conn s) with Some c => [EvClosed c reason] | None => [] end) ++ [EvRelease (suid s) (sroom s)]).
  split; [unfold emits; cbn; rewrite H2; by rewrite <- (assoc_L app)|]. intros u. rewrite released_app. split.
  - intros [[r Hr]|[r Hr%list_elem_of_singleton]].
    + destruct (cconn (conn s)); [by apply list_elem_of_singleton in Hr|by apply not_elem_of_nil in Hr].
    + injection Hr as -> _. rewrite lookup_delete_eq. split; [by eexists|done].
  - intros [[q Hq] Hn]. right. exists (sroom s). apply list_elem_of_singleton.
    apply lookup_delete_None in Hn as [->|Hn]; [done|congruence].
Qed.

Lemma destroyAll_emits ps m m' : destroyAll ps m = Ok m' →
  (∃ es, emits m m' es ∧ (∀ u, released u es ↔ is_Some (byUID m !! u) ∧ byUID m' !! u = None)) ∧
  ∀ u q, byUID m' !! u = Some q → byUID m !! u = Some q.
Proof.
  revert m. induction ps as [|p ps IH]; intros m; cbn [destroyAll].
  { intros [= <-]. split; [|done]. exists []. split; [unfold emits; by rewrite app_nil_r|].
    intros u. split; [by intros [? ?%not_elem_of_nil]|intros [[? ?] ?]; congruence]. }
  destruct (destroy p "grace period expired" m) as [m1| |] eqn:E; [|done..]. cbn [rbind]. intros E2.
  apply destroy_emits in E as [(es1 & He1 & H1) K1]. apply IH in E2 as [(es2 & He2 & H2) K2]. split; [|by eauto].
  exists (es1 ++ es2). split; [unfold emits in *; by rewrite He2, He1, <- (assoc_L app)|]. intros u. rewrite released_app, H1, H2.
  split; [intros [[? Hn]|[[q Hq] ?]]|intros [Hs Hn]].
  - split; [done|]. destruct (byUID m' !! u) eqn:E; [|done]. apply K2 in E. congruence.
  - split; [exists q; by apply K1|done].
  - destruct (byUID m1 !! u) eqn:E; [right|left]; split; eauto.
Qed.

(** ** The handler *)

Section Thm.
Context {T : Type} `{X : RouteTable T} {RL : RouteLaws X}.
Context (cs : codecs) (errText : perr → list Z) (partialTS : list Z → Z) (partialIDs : list Z → list Z).
Context (cfg : Config) (kickBody : Z → option (list Z)) (nodeID : string).
Context (cap_pos : 0 < ReplayCapacity cfg).
Hypothesis Hcodecs : ∀ t c, cs !! t = Some c → CodecReturns c.
Notation L := (LogicHandler (T := T)).
Notation handle := (handle (T := T) cs errText partialTS partialIDs cfg kickBody nodeID).
Notation absorb := (absorb (T := T) nodeID).

(** Messages are only added; sessions and routes stay. *)
Definition talks (l l' : L) : Prop :=
  lm l' = lm l ∧ table l' = table l ∧ remotes l' = remotes l ∧ outbox l `prefix_of` outbox l'.
Lemma talks_refl l : talks l l.
Proof. by split_and!. Qed.
Lemma talks_trans l1 l2 l3 : talks l1 l2 → talks l2 l3 → talks l1 l3.
Proof. intros (? & ? & ? & ?) (? & ? & ? & ?). split_and!; [congruence..|by etrans]. Qed.
Lemma send_talks fwd i f l : talks l (snd (send nodeID fwd i f l)).
Proof. unfold send. destruct (fwd _ _); cbn; [|apply talks_refl]. split_and!; try done. by apply prefix_app_r. Qed.
Lemma sendAll_talks fwd i fs l : talks l (sendAll nodeID fwd i fs l).
Proof.
  revert l. induction fs as [|f fs IH]; intros l; cbn; [apply talks_refl|]. pose proof (send_talks fwd i f l) as Hs.
  destruct (send nodeID fwd i f l) as [[] l1]; [|done]. by eapply talks_trans.
Qed.
Lemma sendError_talks fwd i f ec l : ∃ l', sendError cs nodeID fwd i f ec l = Ok l' ∧ talks l l'.
Proof.
  unfold sendError. destruct (frame_returns cs Hcodecs (CodecType f) (MsgID f) (Seq f) (ecCode ec) (ecMsg ec) None) as [[e|fr] ->]; [done|..]; cbn.
  - eexists. split; [done|apply talks_refl].
  - eexists. split; [done|apply send_talks].
Qed.

(** What the events of a manager call do. *)
Lemma absorb1_lm e l : lm (absorb1 nodeID e l) = lm l.
Proof. destruct e; cbn; [|done..]. destruct (remotes l !! _); [|done]. by destruct (DecodeFrame _ _) as [[[] ?]| |]. Qed.
Lemma absorb1_routes e l u :
  routesOf (table (absorb1 nodeID e l)) !! u = Some nodeID ↔ routesOf (table l) !! u = Some nodeID ∧ ¬ released u [e].
Proof.
  assert (Hq : (∀ u r, e ≠ EvRelease u r) → ¬ released u [e]) by (intros Hn [r Hr%list_elem_of_singleton]; by apply (Hn u r)).
  destruct e as [c raw|c r|uid room]; cbn.
  - destruct (remotes l !! c); [|naive_solver]. destruct (DecodeFrame raw 0) as [[[] ?]| |]; naive_solver.
  - naive_solver.
  - rewrite unbind_law. unfold unbound. destruct (decide (u = uid)) as [->|Hu].
    + assert (released uid [EvRelease uid room]) by (exists room; by apply list_elem_of_singleton).
      case_decide; [rewrite lookup_delete_eq|]; naive_solver.
    + assert (¬ released u [EvRelease uid room]) by (intros [? Hr%list_elem_of_singleton]; congruence).
      case_decide; [rewrite lookup_delete_ne by done|]; naive_solver.
Qed.
Lemma absorb_lm m l : lm (absorb m l) = m.
Proof.
  unfold LogicHandler.absorb. generalize (drop (length (sout (lm l))) (sout m)) as es. intros es.
  assert (Hm : lm (set_lm m l) = m) by done. revert Hm. generalize (set_lm m l). induction es as [|e es IH]; intros l0 Hm; cbn; [done|].
  apply IH. by rewrite absorb1_lm.
Qed.
Lemma absorb_routes m l es u : emits (lm l) m es →
  (routesOf (table (absorb m l)) !! u = Some nodeID ↔ routesOf (table l) !! u = Some nodeID ∧ ¬ released u es).
Proof.
  intros He%emits_drop. unfold LogicHandler.absorb. rewrite He. clear He.
  change (table l) with (table (set_lm m l)). generalize (set_lm m l) as l0. induction es as [|e es IH]; intros l0; cbn [foldl].
  { split; [|by intros [? _]]. intros H. split; [done|]. by intros [? ?%not_elem_of_nil]. }
  rewrite IH, absorb1_routes. change (e :: es) with ([e] ++ es). rewrite released_app. naive_solver.
Qed.

(** ** Invariant *)

(** Sessions and routes: a route that leads here has a session; and, when no
    binding failed and no other node interferes ([strict]), every session has
    its route. *)
Record LInv (strict : bool) (l : L) : Prop := {
  li_mgr : MInv (lm l);
  li_route : ∀ u, routesOf (table l) !! u = Some nodeID → is_Some (SessionManager.Get u (lm l));
  li_sess : strict = true → ∀ u, is_Some (SessionManager.Get u (lm l)) → routesOf (table l) !! u = Some nodeID }.

Lemma LInv_talks strict l l' : talks l l' → LInv strict l → LInv strict l'.
Proof. intros (H1 & H2 & _) [I1 I2 I3]. split; rewrite H1, ?H2; done. Qed.
Lemma LInv_same strict l l' : lm l' = lm l → table l' = table l → LInv strict l → LInv strict l'.
Proof. intros H1 H2 [I1 I2 I3]. split; rewrite H1, ?H2; done. Qed.

(** After a manager call that releases only the sessions it removes. *)
Lemma LInv_absorb strict m l es : LInv strict l → MInv m → emits (lm l) m es →
  (∀ u, is_Some (SessionManager.Get u (lm l)) → is_Some (SessionManager.Get u m) ∨ released u es) →
  (∀ u, is_Some (SessionManager.Get u m) → is_Some (SessionManager.Get u (lm l)) ∧ ¬ released u es) →
  LInv strict (absorb m l).
Proof.
  intros [I1 I2 I3] Hm He Ha Hb. split; rewrite absorb_lm.
  - done.
  - intros u [Hr Hn]%(absorb_routes m l es u He). destruct (Ha u (I2 u Hr)); done.
  - intros Hst u [H1 H2]%Hb. apply (absorb_routes m l es u He). split; [by apply I3|done].
Qed.

Lemma Create_byUID fwd now token uid c cd (l : L) m p : MInv (lm l) → token ≠ EmptyString → byToken (lm l) !! token = None →
  Create cfg (remotePush fwd l) kickBody now token uid c cd (lm l) = Ok (p, m) → MInv m ∧ byUID m = <[uid := p]> (byUID (lm l)).
Proof.
  intros HI Ht Hf E. destruct (Create_spec cfg (remotePush fwd l) kickBody cap_pos now token uid c cd (lm l) HI Ht Hf) as (m' & E' & HI' & Hb & _).
  rewrite E in E'. by simplify_eq.
Qed.

(** A login, before and after its binding. *)
Lemma LInv_create strict fwd now token uid c cd l m p bindOk : LInv strict l → token ≠ EmptyString → byToken (lm l) !! token = None →
  Create cfg (remotePush fwd l) kickBody now token uid c cd (lm l) = Ok (p, m) → (strict = true → bindOk = true) →
  LInv strict (if bindOk then set_table (Bind uid nodeID (table (absorb m l))) (absorb m l) else absorb m l).
Proof.
  intros [I1 I2 I3] Ht Hf E Hb. destruct (Create_emits _ _ _ _ _ _ _ _ _ _ _ I1 E) as (es & He & Hes).
  destruct (Create_byUID _ _ _ _ _ _ _ _ _ I1 Ht Hf E) as [Hm Hu].
  assert (Hk : ∀ u, u ≠ uid → SessionManager.Get u m = SessionManager.Get u (lm l)).
  { intros u Hn. unfold SessionManager.Get. rewrite Hu. by rewrite lookup_insert_ne. }
  assert (Hi : is_Some (SessionManager.Get uid m)) by (unfold SessionManager.Get; rewrite Hu, lookup_insert_eq; by eexists).
  destruct bindOk.
  - split; cbn; rewrite ?absorb_lm.
    + done.
    + intros u. rewrite bind_law. intros [[<- _]|[Hn Hr]]%lookup_insert_Some; [done|].
      apply (absorb_routes m l es u He) in Hr as [Hr _]. rewrite Hk by done. by apply I2.
    + intros Hs u. rewrite bind_law. destruct (decide (u = uid)) as [->|Hn]; [by rewrite lookup_insert_eq|].
      rewrite lookup_insert_ne by done. rewrite Hk by done. intros Hg. apply (absorb_routes m l es u He). split; [by apply I3|].
      by intros ?%Hes.
  - split; rewrite ?absorb_lm.
    + done.
    + intros u [Hr _]%(absorb_routes m l es u He). destruct (decide (u = uid)) as [->|Hn]; [done|]. rewrite Hk by done. by apply I2.
    + intros Hs. by specialize (Hb Hs).
Qed.

Lemma LInv_reconnect strict now t t0 c cd l r m : LInv strict l → t ≠ EmptyString → byToken (lm l) !! t = None →
  Reconnect now t t0 c cd (lm l) = Ok (r, m) → LInv strict (absorb m l).
Proof.
  intros HI Ht Hf E. pose proof HI as [I1 I2 I3]. destruct (Reconnect_emits _ _ _ _ _ _ _ _ I1 E) as (Hu & es & He & Hes).
  destruct (Reconnect_MInv now t t0 c cd (lm l) I1 Ht Hf) as (r' & m' & E' & Hm). rewrite E in E'. simplify_eq.
  eapply LInv_absorb; [done..| |]; unfold SessionManager.Get; rewrite Hu; [by auto|]. intros u Hx. split; [done|apply Hes].
Qed.

Lemma newRemote_same i (l : L) : lm (newRemote i l).2 = lm l ∧ table (newRemote i l).2 = table l.
Proof. done. Qed.

(** What a request does to the sessions. *)
Inductive eff (m : Manager) : Manager → Prop :=
| eff_same : eff m m
| eff_create cp now token uid c cd p m' : Create cfg cp kickBody now token uid c cd m = Ok (p, m') → eff m m'
| eff_reconnect now t t0 c cd r m' : Reconnect now t t0 c cd m = Ok (r, m') → eff m m'
| eff_touch p s now : heap m !! p = Some s → eff m (put_sess p (set_conn (Touch (conn s) now) s) m).

(** Every request returns and keeps the invariant. *)
Lemma handle_LInv strict fwd now token bindOk i f l : LInv strict l → token ≠ EmptyString → byToken (lm l) !! token = None →
  (strict = true → bindOk = true) → ∃ l', handle fwd now token bindOk i f l = Ok l' ∧ LInv strict l' ∧ eff (lm l) (lm l').
Proof.
  intros HI Ht Hf Hb. unfold LogicHandler.handle.
  assert (Herr : ∀ ec l1, LInv strict l1 → eff (lm l) (lm l1) → ∃ l', sendError cs nodeID fwd i f ec l1 = Ok l' ∧ LInv strict l' ∧ eff (lm l) (lm l')).
  { intros ec l1 H1 He. destruct (sendError_talks fwd i f ec l1) as (l2 & -> & Ht2). eexists. split; [done|]. split; [by eapply LInv_talks|].
    by rewrite (proj1 Ht2). }
  assert (Hid := eff_same (lm l)).
  case_decide; [|repeat case_decide].
  - unfold handleLogin. destruct (codecOf_returns cs Hcodecs f) as [[e ->]|(cd & -> & HR)]; [by apply Herr|].
    destruct (login_returns cd (Body f) HR) as [[e ->]|(v & u & -> & Hu)]; cbn [rbind]; [by apply Herr|].
    rewrite Hu. case_decide; [by apply Herr|]. destruct (newRemote i l) as [c l1] eqn:En.
    assert (H1 : LInv strict l1) by (pose proof (newRemote_same i l) as [Ha Hc]; rewrite En in Ha, Hc; by eapply LInv_same).
    assert (Hl1 : lm l1 = lm l) by (pose proof (newRemote_same i l) as [Ha _]; by rewrite En in Ha).
    destruct (Create_spec cfg (remotePush fwd l1) kickBody cap_pos now token u c (Type_ cd) (lm l1) (li_mgr _ _ H1) Ht) as (m & E & _); [by rewrite Hl1|].
    rewrite E. cbn [rbind]. assert (H2 := LInv_create strict fwd now token u c (Type_ cd) l1 m _ bindOk H1 Ht ltac:(by rewrite Hl1) E Hb).
    assert (Heff : eff (lm l) m) by (rewrite Hl1 in E; by eapply eff_create).
    destruct bindOk; [|apply Herr; [done|by rewrite absorb_lm]]. edestruct (ok_returns cs Hcodecs) as [y ->]; [apply flat_login|]. cbn [rbind].
    destruct y as [e|fr]; [apply Herr; [done|cbn; by rewrite absorb_lm]|]. eexists. split; [done|]. split.
    + eapply LInv_same; [done..|]. eapply LInv_talks; [apply send_talks|done].
    + cbn. rewrite (proj1 (send_talks _ _ _ _)). cbn. by rewrite absorb_lm.
  - unfold handleReconnect. destruct (codecOf_returns cs Hcodecs f) as [[e ->]|(cd & -> & HR)]; [by apply Herr|].
    destruct (reconnect_returns cd (Body f) HR) as [[e ->]|(v & [old last] & -> & Hu)]; cbn [rbind]; [by apply Herr|].
    rewrite Hu. destruct (newRemote i l) as [c l1] eqn:En.
    assert (H1 : LInv strict l1) by (pose proof (newRemote_same i l) as [Ha Hc]; rewrite En in Ha, Hc; by eapply LInv_same).
    assert (Hl1 : lm l1 = lm l) by (pose proof (newRemote_same i l) as [Ha _]; by rewrite En in Ha).
    rewrite <- Hl1 in Hf.
    destruct (Reconnect_MInv now token (stripNodeIDPrefix old nodeID) c (Type_ cd) (lm l1) (li_mgr _ _ H1) Ht Hf) as (r & m & E & Hm).
    rewrite E. cbn [rbind]. assert (H2 := LInv_reconnect _ _ _ _ _ _ _ _ _ H1 Ht Hf E).
    assert (Heff : eff (lm l) m) by (rewrite Hl1 in E; by eapply eff_reconnect).
    destruct r as [e|p]; [apply Herr; [done|by rewrite absorb_lm]|]. rewrite absorb_lm.
    assert (is_Some (heap m !! p)) as [s Hs] by (eapply Reconnect_heap; [exact E|exact (Reconnect_found _ _ _ _ _ _ _ _ E)]). rewrite Hs.
    destruct bindOk; [|apply Herr; [done|by rewrite absorb_lm]]. destruct (ReplayFor_returns m p s last [] Hm Hs) as [[[rel sn] ov] ->]. cbn [rbind].
    assert (Hlive : is_Some (SessionManager.Get (suid s) m)) by exact (Reconnect_live _ _ _ _ _ _ _ _ _ (li_mgr _ _ H1) Ht Hf E Hs).
    assert (H3 : LInv strict (set_table (Bind (suid s) nodeID (table (absorb m l1))) (absorb m l1))).
    { destruct H2 as [J1 J2 J3]. rewrite absorb_lm in *. split; cbn; rewrite ?absorb_lm; [done|..].
      - intros u. rewrite bind_law. intros [[<- _]|[_ Hr]]%lookup_insert_Some; [done|by apply J2].
      - intros Hst u Hg. rewrite bind_law. destruct (decide (u = suid s)) as [->|]; [by rewrite lookup_insert_eq|].
        rewrite lookup_insert_ne by done. by apply J3. }
    edestruct (ok_returns cs Hcodecs) as [y ->]; [apply flat_reconnect|]. cbn [rbind].
    destruct y as [e|fr]; [apply Herr; [done|cbn; by rewrite absorb_lm]|]. eexists. split; [done|].
    match goal with |- LInv _ ?l' ∧ _ => assert (Hta : talks (set_table (Bind (suid s) nodeID (table (absorb m l1))) (absorb m l1)) l') end.
    { eapply talks_trans; [apply send_talks|]. destruct ov; [apply sendAll_talks|]. eapply talks_trans; apply sendAll_talks. }
    split; [by eapply LInv_talks|]. rewrite (proj1 Hta). cbn. by rewrite absorb_lm.
  - unfold handlePing. destruct (codecOf_returns cs Hcodecs f) as [[e ->]|(cd & -> & HR)]; [by eexists|].
    destruct (ping_returns cd (Body f) HR) as [x ->]. cbn [rbind]. edestruct (ok_returns cs Hcodecs) as [y ->]; [apply flat_pong|].
    cbn. destruct y; eexists; (split; [done|]); [done|]. split; [eapply LInv_talks; [apply send_talks|done]|].
    by rewrite (proj1 (send_talks _ _ _ _)).
  - unfold handlePullSnap. destruct (SessionManager.Get (UID i) (lm l)) as [p|] eqn:Hg; [|by apply Herr].
    destruct (codecOf_returns cs Hcodecs f) as [[e ->]|(cd & -> & HR)]; [by apply Herr|].
    assert (∃ x, (if decide (Body f = []) then Ok (inr (newMsg pullSnapReqType)) else cUnmarshal cd (Body f) (newMsg pullSnapReqType)) = Ok x) as [x ->]
      by (case_decide; [by eexists|by apply pull_returns]).
    cbn [rbind]. edestruct (ok_returns cs Hcodecs (Type_ cd) MsgPullSnap (Seq f) []) as [y ->]; [constructor|]. cbn [rbind].
    assert (Hw : talks l (match y with inr frame => snd (send nodeID fwd i frame l) | inl _ => l end))
      by (destruct y; [apply talks_refl|apply send_talks]).
    assert (Hlm := proj1 Hw). rewrite Hlm. destruct (mx_uid _ _ (li_mgr _ _ HI) _ _ Hg) as (_ & s & -> & _).
    eexists. split; [done|]. match goal with |- LInv _ ?l' ∧ _ => assert (Hta : talks l l') end.
    { eapply talks_trans; [exact Hw|apply sendAll_talks]. }
    split; [by eapply LInv_talks|by rewrite (proj1 Hta)].
  - unfold dispatch. destruct (SessionManager.Get (UID i) (lm l)) as [p|] eqn:Hg; [|by apply Herr].
    destruct (mx_uid _ _ (li_mgr _ _ HI) _ _ Hg) as (_ & s & Hs & _). rewrite Hs. eexists. split; [done|].
    split; [|by apply eff_touch]. destruct HI as [I1 I2 I3]. split; [|done..]. cbn. eapply (mstep_MInv cfg (fun _ _ => true) kickBody cap_pos); [by apply ms_touch|done].
Qed.

(** ** Reachable states *)

(** Requests, sweeps, pushes and room changes, in any order; unless [strict],
    bindings may fail and other nodes change the routes that do not lead here. *)
Inductive lstep (strict : bool) : L → L → Prop :=
| ls_handle fwd now token bindOk i f l l' : token ≠ EmptyString → byToken (lm l) !! token = None → (strict = true → bindOk = true) →
    handle fwd now token bindOk i f l = Ok l' → lstep strict l l'
| ls_sweep now l l' : sweepL cfg nodeID now l = Ok l' → lstep strict l l'
| ls_push fwd p id body snap l l' : pushL nodeID fwd p id body snap l = Ok l' → lstep strict l l'
| ls_room p s room l : heap (lm l) !! p = Some s → lstep strict l (set_lm (put_sess p (SetRoomID room s) (lm l)) l)
| ls_other t l : strict = false → (∀ u, routesOf t !! u = Some nodeID → routesOf (table l) !! u = Some nodeID) →
    lstep strict l (set_table t l).

Definition newLogic (t : T) : L := mkL NewManager ∅ 0 t [] [] [].
Definition lreach (strict : bool) (l : L) : Prop :=
  ∃ t, (∀ u, routesOf t !! u ≠ Some nodeID) ∧ rtc (lstep strict) (newLogic t) l.

Lemma Sweep_emits now m n m' : MInv m → Sweep (GracePeriod cfg) now m = Ok (n, m') → MInv m' ∧
  (∃ es, emits m m' es ∧ (∀ u, released u es ↔ is_Some (byUID m !! u) ∧ byUID m' !! u = None)) ∧
  ∀ u q, byUID m' !! u = Some q → byUID m !! u = Some q.
Proof.
  intros HI E. destruct (Sweep_MInv (GracePeriod cfg) now m HI) as (n' & m1 & E1 & HI1). rewrite E in E1. simplify_eq.
  split; [done|]. unfold Sweep in E. destruct (destroyAll _ m) as [m2| |] eqn:E2; [|done..]. cbn in E. simplify_eq. by eapply destroyAll_emits.
Qed.

Lemma LInv_step strict l l' : lstep strict l l' → LInv strict l → LInv strict l'.
Proof.
  intros Hs HI. destruct Hs as [fwd now token bindOk i f l l' Ht Hf Hb E|now l l' E|fwd p id body snap l l' E|p s room l Hp|t l Hst Ht].
  - destruct (handle_LInv strict fwd now token bindOk i f l HI Ht Hf Hb) as (l1 & E1 & H1 & _). congruence.
  - unfold sweepL in E. destruct (Sweep (GracePeriod cfg) now (lm l)) as [[n m]| |] eqn:Es; [|done..]. cbn in E. simplify_eq.
    destruct (Sweep_emits _ _ _ _ (li_mgr _ _ HI) Es) as (Hm & (es & He & Hr) & Hk).
    eapply LInv_absorb; [done..| |]; unfold SessionManager.Get.
    + intros u Hu. destruct (byUID m !! u) eqn:Eu; [left; by eexists|right; by apply Hr].
    + intros u [q Hq]. split; [exists q; by apply Hk|]. intros [_ Hn]%Hr. congruence.
  - unfold pushL in E. destruct (pushTo _ _ _ _ _ (lm l)) as [m| |] eqn:Ep; [|done..]. cbn in E. simplify_eq.
    destruct (pushTo_emits _ _ _ _ _ _ _ (li_mgr _ _ HI) Ep) as (Hu & es & He & Hr).
    eapply LInv_absorb; [done|by eapply (mstep_MInv cfg _ kickBody cap_pos); [by eapply ms_push|apply HI]|done|..];
      unfold SessionManager.Get; rewrite Hu; [by auto|]. intros u Hx. split; [done|apply Hr].
  - destruct HI as [I1 I2 I3]. split; [|done..]. eapply (mstep_MInv cfg (fun _ _ => true) kickBody cap_pos); [by apply ms_room|done].
  - destruct HI as [I1 I2 I3]. split; cbn; [done|by intros u Hu%Ht; apply I2|by rewrite Hst].
Qed.

Lemma lreach_LInv strict l : lreach strict l → LInv strict l.
Proof.
  intros (t & Ht & Hr). eapply (rtc_keeps (lstep strict) (LInv strict)); [apply LInv_step|exact Hr|]. split; cbn.
  - apply NewManager_MInv.
  - intros u Hu. by destruct (Ht u).
  - intros _ u. unfold SessionManager.Get. cbn. rewrite lookup_empty. by intros [? [=]].
Qed.

(** ** Theorems *)

(** C36. Routes follow sessions: on a logic node, in every state that requests,
    sweeps, pushes, failed bindings and other nodes can lead to, any request of
    a gateway is handled without a panic, and a player whose route leads to the
    node has a session there; when no binding failed and no other node took a
    player over, every player with a session also has the route. *)
Theorem routes_follow_sessions strict l :
  lreach strict l →
  (∀ u, Lookup u (table l) = Some nodeID → is_Some (SessionManager.Get u (lm l))) ∧
  (strict = true → ∀ u, is_Some (SessionManager.Get u (lm l)) → Lookup u (table l) = Some nodeID) ∧
  ∀ fwd now token i f, token ≠ EmptyString → byToken (lm l) !! token = None → ∃ l', handle fwd now token true i f l = Ok l'.
Proof.
  intros HI%lreach_LInv. split_and!.
  - intros u. rewrite lookup_law. apply HI.
  - intros Hs u Hu. rewrite lookup_law. by apply (li_sess _ _ HI).
  - intros fwd now token i f Ht Hf. destruct (handle_LInv strict fwd now token true i f l HI Ht Hf) as (l' & E & _); eauto.
Qed.

(** ** Findings *)

Definition noneOffline (m : Manager) : Prop := ∀ p s, heap m !! p = Some s → sst s ≠ stateOffline.

Lemma noneOffline_put p s m : noneOffline m → sst s ≠ stateOffline → noneOffline (put_sess p s m).
Proof. intros Hm Hs q r. cbn. intros [[<- <-]|[_ Hq]]%lookup_insert_Some; [done|by eapply Hm]. Qed.
Lemma noneOffline_heap m m' : heap m' = heap m → noneOffline m → noneOffline m'.
Proof. unfold noneOffline. by intros ->. Qed.

Lemma Create_noneOffline cp now token uid c cd m p m' : MInv m → noneOffline m →
  Create cfg cp kickBody now token uid c cd m = Ok (p, m') → noneOffline m'.
Proof.
  intros HI Hn. unfold Create. set (m1 := mkManager _ _ _ _ _ _ _ _).
  assert (H1 : noneOffline m1).
  { intros q r. cbn. intros [[<- <-]|[_ Hq]]%lookup_insert_Some; [done|by eapply Hn]. }
  destruct (byUID m !! uid) as [q|] eqn:Hu; [|by intros [= _ <-]]. destruct (mx_uid _ _ HI _ _ Hu) as (_ & s & Hs & _).
  unfold kickAndDestroy. destruct (heap m1 !! q) as [s0|] eqn:Hq; [|done].
  destruct (PushReliable cp s0 MsgKick kickBody) as [[[e s1] es]| |]; [|done..]. cbn [rbind]. intros [= _ <-]. unfold releaseSession.
  eapply noneOffline_heap; [reflexivity|]. intros q' r'. cbn. intros [[<- <-]|[Hne Hq']]%lookup_insert_Some; [done|].
  assert (heap m1 !! q' = Some r') as Hx; [|by eapply H1].
  revert Hq'. destruct (cconn (conn s1)); rewrite ?dropConn_heap; case_decide; cbn; by rewrite lookup_insert_ne.
Qed.

Lemma Reconnect_noneOffline now t t0 c cd m r m' : MInv m → noneOffline m →
  Reconnect now t t0 c cd m = Ok (r, m') → noneOffline m'.
Proof.
  intros HI Hn E. destruct (byToken m !! t0) as [p|] eqn:Ht.
  - destruct (Reconnect_token now t t0 c cd m p HI Ht) as (s & m1 & Hs & _ & _ & E1 & Hh & _). rewrite E in E1. simplify_eq.
    intros q r. rewrite Hh. intros [[<- <-]|[_ Hq]]%lookup_insert_Some; [done|by eapply Hn].
  - unfold Reconnect, lookupToken in E. rewrite Ht in E. by simplify_eq.
Qed.

Lemma destroy_noneOffline p reason m m' : noneOffline m → destroy p reason m = Ok m' → noneOffline m'.
Proof.
  intros Hn. unfold destroy. destruct (heap m !! p) as [s|]; [|done]. unfold removeFromMaps. case_decide; [by intros [= <-]|].
  intros [= <-]. unfold releaseSession. eapply noneOffline_heap; [reflexivity|]. apply noneOffline_put; [|done].
  eapply noneOffline_heap; [|exact Hn]. destruct (cconn (conn s)); rewrite ?dropConn_heap; by case_decide.
Qed.

(** Finding. In the split deployment a session never goes offline: nothing tells
    the logic node that a client went away, so no session is ever swept and a
    node with players never drains by itself. *)
Theorem split_never_offline strict l :
  lreach strict l → noneOffline (lm l) ∧ ∀ grace now, Sweep grace now (lm l) = Ok (0, lm l).
Proof.
  intros (t & Ht & Hr).
  assert (LInv strict l ∧ noneOffline (lm l)) as [_ Hn].
  { eapply (rtc_keeps (lstep strict) (fun l => LInv strict l ∧ noneOffline (lm l))); [|exact Hr|].
    - intros l1 l2 Hs [HI Hn]. split; [by eapply LInv_step|].
      destruct Hs as [fwd now token bindOk i f l0 l' Hk Hf Hb E|now l0 l' E|fwd p id body snap l0 l' E|p s room l0 Hp|t' l0 _ _].
      + destruct (handle_LInv strict fwd now token bindOk i f l0 HI Hk Hf Hb) as (l3 & E1 & _ & He). rewrite E in E1. simplify_eq.
        destruct He; [done|by eapply Create_noneOffline; [apply HI|..]|by eapply Reconnect_noneOffline; [apply HI|..]|].
        apply noneOffline_put; [done|]. match goal with P : heap (lm l0) !! _ = Some _ |- _ => exact (Hn _ _ P) end.
      + unfold sweepL in E. destruct (Sweep (GracePeriod cfg) now (lm l0)) as [[n m]| |] eqn:Es; [|done..]. cbn in E. simplify_eq.
        rewrite absorb_lm. unfold Sweep in Es. destruct (destroyAll _ (lm l0)) as [m2| |] eqn:E2; [|done..]. cbn in Es. simplify_eq.
        revert E2 Hn. generalize (sweepCandidates (GracePeriod cfg) now (lm l0)). generalize (lm l0) as m0. intros m0 ps. revert m0.
        induction ps as [|p ps IH]; intros m0 E2 Hn; cbn in E2; [by simplify_eq|].
        destruct (destroy p _ m0) as [m3| |] eqn:E3; [|done..]. eapply IH; [done|]. by eapply destroy_noneOffline.
      + unfold pushL in E. destruct (pushTo _ _ _ _ _ (lm l0)) as [m| |] eqn:Ep; [|done..]. cbn in E. simplify_eq. rewrite absorb_lm.
        unfold pushTo in Ep. destruct (heap (lm l0) !! p) as [s|] eqn:Hp; [|done]. destruct (mx_ring _ _ (li_mgr _ _ HI) _ _ Hp) as [fs Hfs].
        destruct (pushEncoded_fields (remotePush fwd l0) s id body snap fs Hfs) as (e & s1 & es & Ee & _ & _ & _ & Hst & _).
        rewrite Ee in Ep. cbn in Ep. simplify_eq. eapply noneOffline_heap; [reflexivity|]. apply noneOffline_put; [done|]. rewrite Hst. exact (Hn _ _ Hp).
      + cbn. apply noneOffline_put; [done|]. exact (Hn _ _ Hp).
      + done.
    - split; [by apply lreach_LInv; exists t; split; [|apply rtc_refl]|]. intros p s. cbn. by rewrite lookup_empty. }
  split; [done|]. intros grace now. unfold Sweep.
  assert (sweepCandidates grace now (lm l) = []) as ->; [|done].
  destruct (sweepCandidates grace now (lm l)) as [|p ps] eqn:E; [done|]. exfalso.
  assert (p ∈ sweepCandidates grace now (lm l)) as (_ & s & Hs & Ho & _)%candidates_spec by (rewrite E; left). by apply (Hn p s).
Qed.
End Thm.

(** ** Examples *)

Definition noIDs : list Z → list Z := fun _ => [].
Definition takes : string → Frame → bool := fun _ _ => true.
Definition demoStart : LogicHandler (T := MemRouteTable) := newLogic NewMemRouteTable.
Definition okL (x : res (LogicHandler (T := MemRouteTable))) : LogicHandler (T := MemRouteTable) := match x with Ok l => l | _ => demoStart end.
Definition demoHandle := handle (T := MemRouteTable) demoCodecs noText noTS noIDs demoCfg kick0 "logic-1" takes.
(** A login that came through the gateway gw-1. *)
Definition demoL1 : LogicHandler := okL (demoHandle 1 "t1" true demoHdr demoLogin demoStart).

Lemma demoL1_reach : lreach demoCodecs noText noTS noIDs demoCfg kick0 "logic-1" true demoL1.
Proof.
  exists NewMemRouteTable. split; [done|]. apply rtc_once.
  apply (ls_handle _ _ _ _ _ _ _ _ takes 1 "t1" true demoHdr demoLogin); [done..|]. vm_compute. reflexivity.
Qed.

Lemma routes_follow_sessions_witness : is_Some (SessionManager.Get "alice" (lm demoL1)) ∧ Lookup "alice" (table demoL1) = Some "logic-1"%string.
Proof.
  destruct (routes_follow_sessions demoCodecs noText noTS noIDs demoCfg kick0 "logic-1" demo_cap demoCodecs_return true demoL1 demoL1_reach)
    as (H1 & H2 & _).
  assert (H : is_Some (SessionManager.Get "alice" (lm demoL1))) by (apply H1; vm_compute; reflexivity).
  split; [exact H|exact (H2 eq_refl _ H)].
Defined.
