(* ===== verification/GatewayConn.v ===== *)
(** * The gateway side of the split deployment (internal/app/gateway_connector.go;
    PickLogicNode and MemNodeTransport of internal/gateway/gateway.go)

    One read loop per client connection forwards frames to logic nodes; a login
    or reconnect blocks it until the response comes down or ten seconds pass.
    Responses and pushes arrive on other goroutines and are delivered by uid.
    The model is a step relation over the phases of the connections; the
    outcomes of network calls belong to the steps. *)

From Stdlib Require Import Ascii.
From S2P Require Import Prelude Frame Proto ProtoThm Envelope GoStrings Connector Inner Registry Routes.

(** ** Choosing a node, and the in-process transport *)

(** The first node listed; [None] when the registry is missing or fails. *)
Definition PickLogicNode (nodes : option (list NodeInfo)) : option string :=
  match nodes with Some (n :: _) => Some (ID n) | _ => None end.

Section Mem.
Context {H : Type} (localID : string).
Record MemNodeTransport := mkMemT { mpeers : gmap string H }.
Definition NewMemNodeTransport : MemNodeTransport := mkMemT ∅.
(** The handler called and the header it is called with, or an error. *)
Definition memForward (n : string) (i : InnerHeader) (t : MemNodeTransport) : option (H * InnerHeader) :=
  match mpeers t !! n with
  | None => None
  | Some h => Some (h, mkInner (UID i) (SessionID i) localID (MsgType i) (ForwardSeq i))
  end.
Definition memAddPeer (n : string) (h : H) (t : MemNodeTransport) : MemNodeTransport := mkMemT (<[n := h]> (mpeers t)).
Definition memRemovePeer (n : string) (t : MemNodeTransport) : MemNodeTransport := mkMemT (delete n (mpeers t)).
End Mem.

(** ** State *)

Record gwConn := mkGwConn { guid : string; logicNode : string }.

(** Why a connection waits for a response. *)
Inductive waiting := WLogin (node : string) | WReconnect | WBroadcast (rest : list string).
(** [got]: the buffer of the response channel, with the uid of the response's header. *)
Inductive gphase := GReading | GWaiting (w : waiting) (req : Frame) (got : option (string * Frame)) | GClosed.

Record GatewayConnector := mkGC {
  conns : gmap string Z;          (** uid → connection *)
  objs : gmap Z gwConn;
  pending : gset Z;
  gphases : gmap Z gphase;
  gsent : list (Z * option string * Frame);         (** frames written to clients, with the uid of a frame from a logic node *)
  gforwarded : list (string * InnerHeader * Frame); (** what the transport took *)
  asked : gset (Z * string) }.                      (** ghost: the logins a connection has sent *)

Definition set_phase (c : Z) (p : gphase) (g : GatewayConnector) : GatewayConnector :=
  mkGC (conns g) (objs g) (pending g) (<[c := p]> (gphases g)) (gsent g) (gforwarded g) (asked g).
Definition set_pending (v : gset Z) (g : GatewayConnector) : GatewayConnector :=
  mkGC (conns g) (objs g) v (gphases g) (gsent g) (gforwarded g) (asked g).
Definition uidOf (c : Z) (g : GatewayConnector) : string := match objs g !! c with Some o => guid o | None => "" end.


Section Gateway.
Context (cs : codecs) (gatewayID : string).
(** What a failed decode of a login, a reconnect and a ping has stored. *)
Context (partialUID partialToken : list Z → string) (partialTS : list Z → Z).

(** ** Parsing: structs with json tags only *)

Definition uidReqType : kind := KStruct [(mkField "UID" "" true, KString)].
Definition tokenReqType : kind := KStruct [(mkField "ReconnectToken" "" true, KString)].
Definition stringField (v : value) : string := match v with VPtr _ (Some (VStruct ((_, VString u) :: _))) => unstr u | _ => "" end.

Definition parseUIDFromLoginReq (f : Frame) : res string :=
  match codecOf cs f with
  | inl _ => Ok ""%string
  | inr cd =>
      let! v := cUnmarshal cd (Body f) (newMsg uidReqType) in
      match v with inr v => Ok (stringField v) | inl _ => Ok (partialUID (Body f)) end
  end.

(** The part before the first colon, if it is not empty. *)
Definition parseNodeIDFromToken (f : Frame) : res (option string) :=
  match codecOf cs f with
  | inl _ => Ok None
  | inr cd =>
      let! v := cUnmarshal cd (Body f) (newMsg tokenReqType) in
      let token := match v with inr v => stringField v | inl _ => partialToken (Body f) end in
      match cut colon token with
      | Some (n, _) => Ok (if decide (n = ""%string) then None else Some n)
      | None => Ok None
      end
  end.

Section Env.
(** The connections that take a write, and the nodes that take a frame. *)
Context (cp : Z → list Z → bool) (fwd : string → bool).

Definition gwrite (c : Z) (by_ : option string) (f : Frame) (g : GatewayConnector) : bool * GatewayConnector :=
  match snd (EncodeFrame f) with
  | inl _ => (false, g)
  | inr raw =>
      if cp c raw then (true, mkGC (conns g) (objs g) (pending g) (gphases g) (gsent g ++ [(c, by_, f)]) (gforwarded g) (asked g))
      else (false, g)
  end.

Definition gwriteError (c : Z) (f : Frame) (ec : ErrCode) (g : GatewayConnector) : res GatewayConnector :=
  let! x := NewErrorFrameFor cs (CodecType f) (MsgID f) (Seq f) (ecCode ec) (ecMsg ec) None in
  match x with inl _ => Ok g | inr frame => Ok (snd (gwrite c None frame g)) end.

(** The pong of the gateway: a struct without tags. *)
Definition gwPong (a b : Z) : list (finfo * value) := [(mkField "ClientTS" "" true, VInt 64 a); (mkField "ServerTS" "" true, VInt 64 b)].
Definition gwPingType : kind := KStruct [(mkField "ClientTS" "" true, KInt 64)].
Definition greplyPong (now : Z) (c : Z) (f : Frame) (g : GatewayConnector) : res GatewayConnector :=
  match codecOf cs f with
  | inl _ => Ok g
  | inr cd =>
      let! p := cUnmarshal cd (Body f) (newMsg gwPingType) in
      let ts := match p with inr v => pingTS v | inl _ => partialTS (Body f) end in
      let! x := NewOKFrameFor cs (Type_ cd) MsgPong (Seq f) (Some (VStruct (gwPong ts now))) in
      match x with inl _ => Ok g | inr frame => Ok (snd (gwrite c None frame g)) end
  end.

(** The deferred cleanup: the entry of the uid goes, whoever it leads to. *)
Definition cleanupConn (c : Z) (g : GatewayConnector) : GatewayConnector :=
  let u := uidOf c g in
  let g := if decide (u = ""%string) then g
           else mkGC (delete u (conns g)) (objs g) (pending g) (gphases g) (gsent g) (gforwarded g) (asked g) in
  set_phase c GClosed g.

(** A handler's error ends the loop. *)
Definition gfail (c : Z) (f : Frame) (ec : ErrCode) (g : GatewayConnector) : res GatewayConnector :=
  let! g := gwriteError c f ec g in Ok (cleanupConn c g).

(** ** Requests *)

Definition forward (n : string) (i : InnerHeader) (f : Frame) (g : GatewayConnector) : GatewayConnector :=
  mkGC (conns g) (objs g) (pending g) (gphases g) (gsent g)
    (gforwarded g ++ [(n, mkInner (UID i) (SessionID i) gatewayID (MsgType i) (ForwardSeq i), f)]) (asked g).

(** The first half of [request]: [None] when the transport refuses. *)
Definition request (n : string) (c : Z) (w : waiting) (f : Frame) (g : GatewayConnector) : option GatewayConnector :=
  let g := set_pending ({[c]} ∪ pending g) g in
  if fwd n then Some (set_phase c (GWaiting w f None) (forward n (mkInner (uidOf c g) "" "" MsgUnicast 0) f g))
  else None.

(** [err.Error()] of a refused forward. *)
Context (fwdText : string → list Z).

Definition ghandleLogin (pick : option string) (c : Z) (f : Frame) (g : GatewayConnector) : res GatewayConnector :=
  let! uid := parseUIDFromLoginReq f in
  if decide (uid = ""%string) then gfail c f (NewErr ErrDecode (str "uid required")) g else
  let g := mkGC (<[uid := c]> (conns g)) (<[c := mkGwConn uid (match objs g !! c with Some o => logicNode o | None => "" end)]> (objs g))
             (pending g) (gphases g) (gsent g) (gforwarded g) ({[(c, uid)]} ∪ asked g) in
  match pick with
  | None => gfail c f (NewErr ErrMaintenance (str "no logic node available")) g
  | Some n =>
      match request n c (WLogin n) f g with
      | Some g => Ok g
      | None => gfail c f (NewErr ErrInternal (fwdText n)) g
      end
  end.

(** The nodes of a broadcast are tried in turn. *)
Fixpoint tryNodes (c : Z) (f : Frame) (ns : list string) (g : GatewayConnector) : res GatewayConnector :=
  match ns with
  | [] => gfail c f (NewErr ErrTokenInvalid []) g
  | n :: ns' =>
      match request n c (WBroadcast ns') f g with
      | Some g => Ok g
      | None => tryNodes c f ns' g
      end
  end.

Definition broadcastReconnect (nodes : option (list NodeInfo)) (c : Z) (f : Frame) (g : GatewayConnector) : res GatewayConnector :=
  match nodes with
  | Some (n :: ns) => tryNodes c f (ID <$> (n :: ns)) g
  | _ => gfail c f (NewErr ErrMaintenance (str "no logic node available")) g
  end.

Definition ghandleReconnect (nodes : option (list NodeInfo)) (c : Z) (f : Frame) (g : GatewayConnector) : res GatewayConnector :=
  let! n := parseNodeIDFromToken f in
  match n with
  | None => broadcastReconnect nodes c f g
  | Some n =>
      match request n c WReconnect f g with
      | Some g => Ok g
      | None => gfail c f (NewErr ErrInternal (fwdText n)) g
      end
  end.

(** [route]: the answer of the route table. *)
Definition forwardBusiness (route : string → option string) (c : Z) (f : Frame) (g : GatewayConnector) : res GatewayConnector :=
  let u := uidOf c g in
  if decide (u = ""%string) then gwriteError c f (NewErr ErrUnauthorized (str "login required")) g else
  match route u with
  | None => gwriteError c f (NewErr ErrUnauthorized (str "session not routed")) g
  | Some n =>
      if fwd n then Ok (forward n (mkInner u "" "" MsgUnicast (Seq f)) f g)
      else gwriteError c f (NewErr ErrInternal (fwdText n)) g
  end.

(** One frame of [ServeConn]. *)
Definition serve1 (now : Z) (nodes : option (list NodeInfo)) (route : string → option string) (c : Z) (f : Frame) (g : GatewayConnector)
    : res GatewayConnector :=
  if decide (MsgID f = MsgLogin) then ghandleLogin (PickLogicNode nodes) c f g
  else if decide (MsgID f = MsgReconnect) then ghandleReconnect nodes c f g
  else if decide (MsgID f = MsgPing) then greplyPong now c f g
  else forwardBusiness route c f g.

(** The second half of [request]: the response, or a timeout.  [werr]: the code
    under which the error of a failed write is reported. *)
Definition resume (werr : ErrCode) (c : Z) (w : waiting) (f : Frame) (u : string) (resp : Frame) (g : GatewayConnector) : res GatewayConnector :=
  let g := set_pending (pending g ∖ {[c]}) g in
  let '(ok, g) := gwrite c (Some u) resp g in
  if ok then
    let g := set_phase c GReading g in
    Ok (match w with
        | WLogin n => mkGC (conns g) (<[c := mkGwConn (uidOf c g) n]> (objs g)) (pending g) (gphases g) (gsent g) (gforwarded g) (asked g)
        | _ => g
        end)
  else gfail c f werr g.

Definition timeout (c : Z) (w : waiting) (f : Frame) (g : GatewayConnector) : res GatewayConnector :=
  let g := set_pending (pending g ∖ {[c]}) g in
  match w with
  | WBroadcast rest => tryNodes c f rest g
  | _ => gfail c f (NewErr ErrInternal (str "logic response timeout")) g
  end.

(** ** Downlink *)

Definition isHandshakeResp (f : Frame) : bool := bool_decide (MsgID f = MsgLogin ∨ MsgID f = MsgReconnect).

Definition handleDownlink (i : InnerHeader) (f : Frame) (g : GatewayConnector) : GatewayConnector :=
  if decide (UID i = ""%string) then g else
  match conns g !! UID i with
  | None => g
  | Some c =>
      if isHandshakeResp f && bool_decide (c ∈ pending g) then
        let g := set_pending (pending g ∖ {[c]}) g in
        match gphases g !! c with
        | Some (GWaiting w r _) => set_phase c (GWaiting w r (Some (UID i, f))) g
        | _ => g
        end
      else snd (gwrite c (Some (UID i)) f g)
  end.
End Env.

Definition NewGatewayConnector : GatewayConnector := mkGC ∅ ∅ ∅ ∅ [] [] ∅.

Definition gaccept (c : Z) (g : GatewayConnector) : GatewayConnector :=
  mkGC (conns g) (<[c := mkGwConn "" ""]> (objs g)) (pending g) (<[c := GReading]> (gphases g)) (gsent g) (gforwarded g) (asked g).

Context (fwdText : string → list Z).

Inductive gstep : GatewayConnector → GatewayConnector → Prop :=
| gs_accept g c : gphases g !! c = None → gstep g (gaccept c g)
| gs_frame g c cp fwd now nodes route f g' : gphases g !! c = Some GReading →
    serve1 cp fwd fwdText now nodes route c f g = Ok g' → gstep g g'
| gs_resume g c cp werr w f u resp g' : gphases g !! c = Some (GWaiting w f (Some (u, resp))) → resume cp werr c w f u resp g = Ok g' → gstep g g'
| gs_timeout g c cp fwd w f got g' : gphases g !! c = Some (GWaiting w f got) → timeout cp fwd c w f g = Ok g' → gstep g g'
| gs_downlink g cp i f : gstep g (handleDownlink cp i f g)
| gs_end g c : gphases g !! c = Some GReading → gstep g (cleanupConn c g).

Definition greach (g : GatewayConnector) : Prop := rtc gstep NewGatewayConnector g.
End Gateway.
