(* ===== verification/GatewayThm.v ===== *)
(** * Theorems on the gateway side of the split deployment *)

From S2P Require Import Prelude Frame ProtoWire Proto ProtoThm Envelope GoStrings Replay Session SessionManager Connector ConnectorThm.
From S2P Require Import Inner Registry Routes LogicHandler LogicThm GatewayConn.

Section Thm.
Context (cs : codecs) (gatewayID : string).
Context (partialUID partialToken : list Z → string) (partialTS : list Z → Z) (fwdText : string → list Z).
Hypothesis Hcodecs : ∀ t c, cs !! t = Some c → CodecReturns c.
Implicit Types g : GatewayConnector.
Notation gstep := (gstep cs gatewayID partialUID partialToken partialTS fwdText).
Notation greach := (greach cs gatewayID partialUID partialToken partialTS fwdText).
Notation serve1 := (serve1 cs gatewayID partialUID partialToken partialTS).

(** A connection with a request that has no response yet. *)
Definition awaits (c : Z) g : Prop := ∃ w f, gphases g !! c = Some (GWaiting w f None).

(** The invariant; between the calls of a handler the connection [o] it works
    for is taken out of the correspondence of pending requests and phases. *)
Record GInv (o : option Z) g : Prop := {
  gi_conn u c : conns g !! u = Some c → (c, u) ∈ asked g;
  gi_pend c : o ≠ Some c → c ∈ pending g ↔ awaits c g;
  gi_own c : o = Some c → c ∉ pending g;
  gi_got c w f u r : gphases g !! c = Some (GWaiting w f (Some (u, r))) → (c, u) ∈ asked g ∧ isHandshakeResp r = true;
  gi_sent c u f : (c, Some u, f) ∈ gsent g → (c, u) ∈ asked g;
  gi_uid c : uidOf c g ≠ EmptyString → (c, uidOf c g) ∈ asked g;
  gi_fwd n i f : (n, i, f) ∈ gforwarded g → GatewayID i = gatewayID ∧ (UID i ≠ EmptyString → ∃ c, (c, UID i) ∈ asked g) }.

(** Frames written to a client change nothing else. *)
Lemma gwrite_GInv cp o c b f g : (∀ u, b = Some u → (c, u) ∈ asked g) → GInv o g → GInv o (snd (gwrite cp c b f g)).
Proof.
  intros Hb [I1 I2 I3 I4 I5 I6 I7]. unfold gwrite. destruct (snd (EncodeFrame f)) as [|raw]; [done|]. destruct (cp c raw); [|done].
  split; try done. cbn. intros c' u f' [?|E%list_elem_of_singleton]%elem_of_app; [by eapply I5|]. simplify_eq. by apply Hb.
Qed.
Lemma gwriteError_GInv cp o c f ec g : GInv o g → ∃ g', gwriteError cs cp c f ec g = Ok g' ∧ GInv o g'.
Proof.
  intros HI. unfold gwriteError.
  destruct (frame_returns cs Hcodecs (CodecType f) (MsgID f) (Seq f) (ecCode ec) (ecMsg ec) None) as [[e|fr] ->]; [done|..]; cbn; eauto.
  eexists. split; [done|]. by apply gwrite_GInv.
Qed.
Lemma set_phase_GInv c p g : (∀ w f q, p ≠ GWaiting w f q) → GInv (Some c) g → GInv None (set_phase c p g).
Proof.
  intros Hp [I1 I2 I3 I4 I5 I6 I7]. split; try done; cbn.
  - intros c' _. unfold awaits. cbn. destruct (decide (c' = c)) as [->|Hn].
    + rewrite lookup_insert_eq. split; [intros []%I3; done|]. intros (? & ? & [= E]). by apply Hp in E.
    + rewrite lookup_insert_ne by done. apply I2. congruence.
  - intros c' w f u r [[_ E]|[_ E]]%lookup_insert_Some; [by apply Hp in E|by eapply I4].
Qed.
Lemma cleanupConn_GInv c g : GInv (Some c) g → GInv None (cleanupConn c g).
Proof.
  intros HI. unfold cleanupConn. apply set_phase_GInv; [done|]. case_decide; [done|].
  destruct HI as [I1 I2 I3 I4 I5 I6 I7]. split; try done. cbn. intros u c' [_ ?]%lookup_delete_Some. by apply I1.
Qed.
Lemma gfail_GInv cp c f ec g : GInv (Some c) g → ∃ g', gfail cs cp c f ec g = Ok g' ∧ GInv None g'.
Proof.
  intros HI. unfold gfail. destruct (gwriteError_GInv cp (Some c) c f ec g HI) as (g1 & -> & H1). cbn.
  eexists. split; [done|]. by apply cleanupConn_GInv.
Qed.

(** Taking a connection out of the correspondence, and a request putting it back. *)
Lemma GInv_take c g : GInv None g → ¬ awaits c g → GInv (Some c) g.
Proof. intros [I1 I2 I3 I4 I5 I6 I7] Hn. split; try done; [intros; by apply I2|]. intros ? [= <-]. by rewrite I2. Qed.
Lemma GInv_unpend c g : GInv None g → GInv (Some c) (set_pending (pending g ∖ {[c]}) g).
Proof.
  intros [I1 I2 I3 I4 I5 I6 I7]. split; try done; cbn.
  - intros c' Hn. rewrite elem_of_difference, I2 by done. unfold awaits. cbn. split; [by intros [? _]|]. intros ?. split; [done|].
    intros ->%elem_of_singleton. by apply Hn.
  - intros ? [= <-]. set_solver.
Qed.
Lemma forward_asked n i f o g : (UID i ≠ EmptyString → ∃ c, (c, UID i) ∈ asked g) → GInv o g → GInv o (forward gatewayID n i f g).
Proof.
  intros Hi [I1 I2 I3 I4 I5 I6 I7]. split; try done. cbn. intros n' i' f' [?|E%list_elem_of_singleton]%elem_of_app; [by eapply I7|]. by simplify_eq.
Qed.
Lemma request_GInv fwd n c w f g g' : GInv (Some c) g → request gatewayID fwd n c w f g = Some g' → GInv None g'.
Proof.
  intros HI. unfold request. destruct (fwd n); [|done]. intros [= <-].
  assert (H1 : GInv (Some c) (forward gatewayID n (mkInner (uidOf c g) "" "" MsgUnicast 0) f g)).
  { apply forward_asked; [|done]. cbn. intros Hu. exists c. by apply (gi_uid _ _ HI). }
  destruct H1 as [I1 I2 I3 I4 I5 I6 I7]. split; try done; cbn.
  - intros c' _. unfold awaits. cbn. destruct (decide (c' = c)) as [->|Hn].
    + rewrite lookup_insert_eq. split; [by eauto|set_solver].
    + rewrite lookup_insert_ne by done. rewrite elem_of_union, elem_of_singleton. rewrite (I2 c') by congruence. unfold awaits. cbn. naive_solver.
  - intros c' w' f' u r [[_ E]|[_ E]]%lookup_insert_Some; [done|by eapply I4].
Qed.
Lemma tryNodes_GInv cp fwd c f ns g : GInv (Some c) g → ∃ g', tryNodes cs gatewayID cp fwd c f ns g = Ok g' ∧ GInv None g'.
Proof.
  intros HI. induction ns as [|n ns IH]; cbn; [by apply gfail_GInv|].
  destruct (request gatewayID fwd n c (WBroadcast ns) f g) as [g'|] eqn:E; [|done]. eexists. split; [done|]. by eapply request_GInv.
Qed.

(** ** Parsing returns *)

Lemma parse_returns cd data k : CodecReturns cd → k = uidReqType ∨ k = tokenReqType ∨ k = gwPingType → ∃ x, cUnmarshal cd data (newMsg k) = Ok x.
Proof.
  intros HR Hk. destruct (decode_returns cd data (fieldsOf k) HR) as [[e E]|(fs & E & _)];
    destruct Hk as [->|[->| ->]]; first [by eexists; exact E|done|cbn; repeat split; done].
Qed.
Lemma uid_returns f : ∃ u, parseUIDFromLoginReq cs partialUID f = Ok u.
Proof.
  unfold parseUIDFromLoginReq. destruct (codecOf_returns cs Hcodecs f) as [[e ->]|(cd & -> & HR)]; [by eexists|].
  destruct (parse_returns cd (Body f) uidReqType HR) as [[] ->]; [by left|..]; cbn; eauto.
Qed.
Lemma node_returns f : ∃ n, parseNodeIDFromToken cs partialToken f = Ok n.
Proof.
  unfold parseNodeIDFromToken. destruct (codecOf_returns cs Hcodecs f) as [[e ->]|(cd & -> & HR)]; [by eexists|].
  destruct (parse_returns cd (Body f) tokenReqType HR) as [[] ->]; [by right; left|..]; cbn; destruct (cut _ _) as [[]|]; eauto.
Qed.
Lemma flat_gwPong a b : flat (gwPong a b).
Proof. unfold flat. repeat (apply Forall_cons_2; [done|]). done. Qed.

(** ** Steps *)

Lemma login_GInv cp fwd pick c f g : GInv (Some c) g →
  ∃ g', ghandleLogin cs gatewayID partialUID cp fwd fwdText pick c f g = Ok g' ∧ GInv None g'.
Proof.
  intros HI. unfold ghandleLogin. destruct (uid_returns f) as [u ->]. cbn [rbind]. case_decide as Hu; [by apply gfail_GInv|].
  set (g1 := mkGC _ _ _ _ _ _ _).
  assert (H1 : GInv (Some c) g1).
  { destruct HI as [I1 I2 I3 I4 I5 I6 I7]. split; cbn; try done.
    - intros u' c' [[<- <-]|[_ ?%I1]]%lookup_insert_Some; set_solver.
    - intros c' w' f' u' r E. destruct (I4 _ _ _ _ _ E). set_solver.
    - intros c' u' f' E%I5. set_solver.
    - intros c'. unfold uidOf. cbn. destruct (decide (c' = c)) as [->|Hn].
      + rewrite lookup_insert_eq. cbn. set_solver.
      + rewrite lookup_insert_ne by done. intros Hx%(I6 c'). unfold uidOf in Hx. set_solver.
    - intros n i f' [Hi Hx]%I7. split; [done|]. intros [c' Hc]%Hx. exists c'. set_solver. }
  destruct pick as [n|]; [|by apply gfail_GInv].
  destruct (request gatewayID fwd n c (WLogin n) f g1) as [g2|] eqn:E; [|by apply gfail_GInv].
  eexists. split; [done|]. by eapply request_GInv.
Qed.
Lemma reconnect_GInv cp fwd nodes c f g : GInv (Some c) g →
  ∃ g', ghandleReconnect cs gatewayID partialToken cp fwd fwdText nodes c f g = Ok g' ∧ GInv None g'.
Proof.
  intros HI. unfold ghandleReconnect. destruct (node_returns f) as [[n|] ->]; cbn [rbind].
  - destruct (request gatewayID fwd n c WReconnect f g) as [g2|] eqn:E; [|by apply gfail_GInv].
    eexists. split; [done|]. by eapply request_GInv.
  - unfold broadcastReconnect. destruct nodes as [[|n ns]|]; [by apply gfail_GInv| |by apply gfail_GInv]. by apply tryNodes_GInv.
Qed.
Lemma pong_GInv cp now c f g : GInv None g → ∃ g', greplyPong cs partialTS cp now c f g = Ok g' ∧ GInv None g'.
Proof.
  intros HI. unfold greplyPong. destruct (codecOf_returns cs Hcodecs f) as [[e ->]|(cd & -> & HR)]; [by eexists|].
  destruct (parse_returns cd (Body f) gwPingType HR) as [x ->]; [by right; right|]. cbn [rbind].
  edestruct (ok_returns cs Hcodecs) as [y ->]; [apply flat_gwPong|]. cbn [rbind].
  destruct y; eexists; (split; [done|]); [done|by apply gwrite_GInv].
Qed.
Lemma business_GInv cp fwd route c f g : GInv None g →
  ∃ g', forwardBusiness cs gatewayID cp fwd fwdText route c f g = Ok g' ∧ GInv None g'.
Proof.
  intros HI. unfold forwardBusiness. case_decide as Hu; [by apply gwriteError_GInv|].
  destruct (route (uidOf c g)) as [n|]; [|by apply gwriteError_GInv]. destruct (fwd n); [|by apply gwriteError_GInv].
  eexists. split; [done|]. apply forward_asked; [|done]. intros _. exists c. by apply (gi_uid _ _ HI).
Qed.
Lemma serve1_GInv cp fwd now nodes route c f g : GInv None g → gphases g !! c = Some GReading →
  ∃ g', serve1 cp fwd fwdText now nodes route c f g = Ok g' ∧ GInv None g'.
Proof.
  intros HI Hc. assert (H1 : GInv (Some c) g) by (apply GInv_take; [done|]; intros (w & f' & Hx); congruence).
  unfold GatewayConn.serve1. repeat case_decide; [by apply login_GInv|by apply reconnect_GInv|by apply pong_GInv|by apply business_GInv].
Qed.
Lemma resume_GInv cp werr c w f u r g : GInv None g → gphases g !! c = Some (GWaiting w f (Some (u, r))) →
  ∃ g', resume cs cp werr c w f u r g = Ok g' ∧ GInv None g'.
Proof.
  intros HI Hc. unfold resume. set (g1 := set_pending _ g).
  assert (H1 : GInv (Some c) (snd (gwrite cp c (Some u) r g1))).
  { apply gwrite_GInv; [|by apply GInv_unpend]. intros ? [= <-]. by eapply (gi_got _ _ HI). }
  destruct (gwrite cp c (Some u) r g1) as [[] g2]; cbn [snd] in H1; [|by apply gfail_GInv].
  eexists. split; [done|]. apply (set_phase_GInv c GReading) in H1; [|done].
  destruct w as [n| |]; [|done..]. destruct H1 as [I1 I2 I3 I4 I5 I6 I7]. split; try done.
  intros c'. unfold uidOf. cbn. destruct (decide (c' = c)) as [->|Hn].
  - rewrite lookup_insert_eq. apply (I6 c).
  - rewrite lookup_insert_ne by done. apply (I6 c').
Qed.
Lemma timeout_GInv cp fwd c w f g : GInv None g → ∃ g', timeout cs gatewayID cp fwd c w f g = Ok g' ∧ GInv None g'.
Proof.
  intros HI%(GInv_unpend c). unfold timeout. destruct w; [by apply gfail_GInv..|by apply tryNodes_GInv].
Qed.
Lemma downlink_GInv cp i f g : GInv None g → GInv None (handleDownlink cp i f g).
Proof.
  intros HI. unfold handleDownlink. case_decide; [done|]. destruct (conns g !! UID i) as [c|] eqn:Hc; [|done].
  apply (gi_conn _ _ HI) in Hc. destruct (isHandshakeResp f) eqn:Hf; cbn [andb].
  2:{ apply gwrite_GInv; [|done]. by intros ? [= <-]. }
  case_bool_decide as Hp. 2:{ apply gwrite_GInv; [|done]. by intros ? [= <-]. }
  apply (gi_pend _ _ HI) in Hp as (w & r & Hp); [|done]. cbn. rewrite Hp. destruct HI as [I1 I2 I3 I4 I5 I6 I7]. split; try done; cbn.
  - intros c' _. rewrite elem_of_difference, elem_of_singleton, I2 by done. unfold awaits. cbn. destruct (decide (c' = c)) as [->|Hn].
    + rewrite lookup_insert_eq. naive_solver.
    + rewrite lookup_insert_ne by done. naive_solver.
  - intros c' w' f' u r' [[<- E]|[_ E]]%lookup_insert_Some; [by simplify_eq|by eapply I4].
Qed.

Lemma GInv_step g g' : gstep g g' → GInv None g → GInv None g'.
Proof.
  intros Hs HI. destruct Hs as [g c Hc|g c cp fwd now nodes route f g' Hc E|g c cp werr w f u r g' Hc E|g c cp fwd w f got g' Hc E|g cp i f|g c Hc].
  - destruct HI as [I1 I2 I3 I4 I5 I6 I7]. split; try done; cbn.
    + intros c' _. rewrite I2 by done. unfold awaits. cbn. destruct (decide (c' = c)) as [->|Hn].
      * rewrite lookup_insert_eq, Hc. split; by intros (? & ? & ?).
      * by rewrite lookup_insert_ne.
    + intros c' w f u r [[_ E]|[_ E]]%lookup_insert_Some; [done|by eapply I4].
    + intros c'. unfold uidOf. cbn. destruct (decide (c' = c)) as [->|Hn]; [by rewrite lookup_insert_eq|].
      rewrite lookup_insert_ne by done. apply (I6 c').
  - destruct (serve1_GInv cp fwd now nodes route c f g HI Hc) as (g1 & E1 & ?). rewrite E in E1. by simplify_eq.
  - destruct (resume_GInv cp werr c w f u r g HI Hc) as (g1 & E1 & ?). rewrite E in E1. by simplify_eq.
  - destruct (timeout_GInv cp fwd c w f g HI) as (g1 & E1 & ?). rewrite E in E1. by simplify_eq.
  - by apply downlink_GInv.
  - apply cleanupConn_GInv, GInv_take; [done|]. intros (? & ? & ?). congruence.
Qed.
Lemma greach_GInv g : greach g → GInv None g.
Proof.
  intros Hr. eapply (rtc_keeps gstep (GInv None)); [apply GInv_step|exact Hr|]. split; cbn.
  - by intros ? ? [=].
  - intros c _. unfold awaits. cbn. rewrite lookup_empty. split; [set_solver|by intros (? & ? & ?)].
  - done.
  - by intros c w f u r [=].
  - by intros ? ? ? ?%not_elem_of_nil.
  - intros c. unfold uidOf. cbn. by rewrite lookup_empty.
  - by intros ? ? ? ?%not_elem_of_nil.
Qed.

(** ** Theorems *)

(** What a gateway passes on to a client from a logic node is for a player the
    client has asked to log in as, whatever the order of requests, timeouts,
    responses, pushes and disconnections; frames go to logic nodes under the
    gateway's name and only for such players; every frame of a client, response
    and timeout is handled without a panic; and a request waits for its response
    exactly while it is registered as pending, so a handshake response for the
    player of a waiting connection always wakes it. *)
Theorem downlink_target g :
  greach g →
  (∀ c u f, (c, Some u, f) ∈ gsent g → (c, u) ∈ asked g) ∧
  (∀ n i f, (n, i, f) ∈ gforwarded g → GatewayID i = gatewayID ∧ (UID i ≠ EmptyString → ∃ c, (c, UID i) ∈ asked g)) ∧
  (∀ cp fwd now nodes route c f, gphases g !! c = Some GReading → ∃ g', serve1 cp fwd fwdText now nodes route c f g = Ok g') ∧
  (∀ cp werr c w f u r, gphases g !! c = Some (GWaiting w f (Some (u, r))) → ∃ g', resume cs cp werr c w f u r g = Ok g') ∧
  (∀ cp fwd c w f, ∃ g', timeout cs gatewayID cp fwd c w f g = Ok g') ∧
  (∀ cp i r c w f, gphases g !! c = Some (GWaiting w f None) → UID i ≠ EmptyString → conns g !! UID i = Some c → isHandshakeResp r = true →
    gphases (handleDownlink cp i r g) !! c = Some (GWaiting w f (Some (UID i, r)))).
Proof.
  intros HI%greach_GInv. split_and!.
  - apply HI.
  - apply HI.
  - intros cp fwd now nodes route c f Hc. destruct (serve1_GInv cp fwd now nodes route c f g HI Hc) as (g' & E & _). eauto.
  - intros cp werr c w f u r Hc. destruct (resume_GInv cp werr c w f u r g HI Hc) as (g' & E & _). eauto.
  - intros cp fwd c w f. destruct (timeout_GInv cp fwd c w f g HI) as (g' & E & _). eauto.
  - intros cp i r c w f Hc Hi Hu Hr. unfold handleDownlink. rewrite decide_False by done. rewrite Hu, Hr. cbn [andb].
    rewrite bool_decide_true by (apply (gi_pend _ _ HI); [done|by do 2 eexists]). cbn. rewrite Hc. apply lookup_insert_eq.
Qed.

(** Finding.  A connection that has not sent a login is registered under no
    player, so the response to its reconnect never reaches it: the request can
    only time out, whatever the logic nodes answer. *)
Theorem reconnect_unanswered g c w f got :
  greach g → (∀ u, (c, u) ∉ asked g) → gphases g !! c = Some (GWaiting w f got) →
  got = None ∧ (∀ u r, (c, Some u, r) ∉ gsent g) ∧ ∀ u, conns g !! u ≠ Some c.
Proof.
  intros HI%greach_GInv Hn Hc. split_and!.
  - destruct got as [[u r]|]; [|done]. exfalso. apply (Hn u). by eapply (gi_got _ _ HI).
  - intros u r Hs%(gi_sent _ _ HI). by apply (Hn u).
  - intros u Hu%(gi_conn _ _ HI). by apply (Hn u).
Qed.
End Thm.

(** ** A login from end to end *)

Section Split.
Context {T : Type} `{X : RouteTable T} {RL : RouteLaws X}.
Context (cs : codecs) (gatewayID nodeID : string).
Context (partialUID partialToken : list Z → string) (partialTS : list Z → Z) (fwdText : string → list Z).
Context (errText : perr → list Z) (partialIDs : list Z → list Z) (cfg : SessionManager.Config) (kickBody : Z → option (list Z)).
Context (cap_pos : 0 < ReplayCapacity cfg).
Hypothesis Hcodecs : ∀ t c, cs !! t = Some c → CodecReturns c.
Notation greach := (greach cs gatewayID partialUID partialToken partialTS fwdText).
Notation serve1 := (serve1 cs gatewayID partialUID partialToken partialTS).
Notation handle := (handle (T := T) cs errText partialTS partialIDs cfg kickBody nodeID).
Notation lreach := (lreach (T := T) cs errText partialTS partialIDs cfg kickBody nodeID).

(** The login of a player at the logic node: a session, its route, and the
    response as the last message to the gateway. *)
Lemma logic_login strict fwd now token i f cd v u resp (l : LogicHandler) :
  lreach strict l → MsgID f = MsgLogin → token ≠ EmptyString → byToken (lm l) !! token = None →
  codecOf cs f = inr cd → cUnmarshal cd (Body f) (newMsg loginReqType) = Ok (inr v) → loginUID v = Some u → u ≠ EmptyString →
  NewOKFrameFor cs (Type_ cd) MsgLogin (Seq f) (Some (VStruct (LoginResp (nodeID +:+ String colon token) (HeartbeatMS cfg) u))) = Ok (inr resp) →
  fwd (GatewayID i) resp = true →
  ∃ l', handle fwd now token true i f l = Ok l' ∧
    last (outbox l') = Some (GatewayID i, mkInner (UID i) "" nodeID MsgUnicast (Seq resp), resp) ∧
    Lookup u (table l') = Some nodeID ∧ SessionManager.Get u (lm l') = Some (nextPtr (lm l)) ∧ is_Some (heap (lm l') !! nextPtr (lm l)).
Proof.
  intros HI%lreach_LInv Hf Ht Hfr Hc Hv Hu Hne Hr Hfw; [|done..].
  unfold LogicHandler.handle. rewrite decide_True by done. unfold handleLogin. rewrite Hc, Hv. cbn [rbind]. rewrite Hu, decide_False by done.
  cbn [newRemote]. set (l1 := mkL _ _ _ _ _ _ _).
  destruct (Create_spec cfg (remotePush fwd l1) kickBody cap_pos now token u (connSeq l + 1) (Type_ cd) (lm l1) (li_mgr _ _ _ HI) Ht Hfr)
    as (m & E & _ & Hb & _ & Hh & _).
  rewrite E. cbn [rbind]. rewrite Hr. cbn [rbind]. unfold send. rewrite Hfw. cbn [snd]. eexists. split; [done|]. cbn.
  rewrite last_snoc, lookup_law, bind_law, lookup_insert_eq, absorb_lm. split_and!; [done..| |by eexists; exact Hh].
  unfold SessionManager.Get. rewrite Hb. apply lookup_insert_eq.
Qed.

(** C37. A login through a gateway, when everything on its way works and nothing
    else happens meanwhile: the gateway reads from the request the uid the node
    reads from it (so for JSON requests; the gateway refuses every protobuf
    login: [protobuf_login_refused]), the links between the two and the
    connection of the client take what they are given, and the node can bind
    the route.  Then, from any reachable gateway and node, the frame of a client
    that is not waiting goes to the first logic node with the player's uid, the
    node creates the session and its route and answers, the answer wakes the
    waiting connection and is written to the client; after that a business frame
    of the client is forwarded to the same node and given to the router with
    that session. *)
Theorem split_login strict g l c f cd v u resp raw n ns token now werr cp fwd fwdL f2 :
  greach g → gphases g !! c = Some GReading → lreach strict l → token ≠ EmptyString → byToken (lm l) !! token = None →
  MsgID f = MsgLogin → codecOf cs f = inr cd → parseUIDFromLoginReq cs partialUID f = Ok u → u ≠ EmptyString →
  cUnmarshal cd (Body f) (newMsg loginReqType) = Ok (inr v) → loginUID v = Some u →
  NewOKFrameFor cs (Type_ cd) MsgLogin (Seq f) (Some (VStruct (LoginResp (nodeID +:+ String colon token) (HeartbeatMS cfg) u))) = Ok (inr resp) →
  snd (EncodeFrame resp) = inr raw → cp c raw = true → fwd nodeID = true → fwdL gatewayID resp = true → ID n = nodeID →
  MsgID f2 ∉ [MsgLogin; MsgReconnect; MsgPing; MsgPullSnap] →
  ∃ g1 i l1 j g2 g3 i2 l2,
    serve1 cp fwd fwdText now (Some (n :: ns)) (fun x => Lookup x (table l)) c f g = Ok g1 ∧
    last (gforwarded g1) = Some (nodeID, i, f) ∧
    handle fwdL now token true i f l = Ok l1 ∧
    last (outbox l1) = Some (gatewayID, j, resp) ∧
    gphases (handleDownlink cp j resp g1) !! c = Some (GWaiting (WLogin nodeID) f (Some (u, resp))) ∧
    resume cs cp werr c (WLogin nodeID) f u resp (handleDownlink cp j resp g1) = Ok g2 ∧
    last (gsent g2) = Some (c, Some u, resp) ∧ gphases g2 !! c = Some GReading ∧
    serve1 cp fwd fwdText now (Some (n :: ns)) (fun x => Lookup x (table l1)) c f2 g2 = Ok g3 ∧
    last (gforwarded g3) = Some (nodeID, i2, f2) ∧
    handle fwdL now token true i2 f2 l1 = Ok l2 ∧
    ldispatched l2 = ldispatched l1 ++ [(nextPtr (lm l), f2)] ∧ SessionManager.Get u (lm l1) = Some (nextPtr (lm l)).
Proof.
  intros HG Hph HL Ht Hfr Hf Hc Hp Hne Hv Hu Hr He Hcp Hfw HfL Hn Hf2.
  destruct (logic_login strict fwdL now token (mkInner u "" gatewayID MsgUnicast 0) f cd v u resp l) as (l1 & E1 & Ho & Hlk & Hget & [s Hs]); [done..|].
  set (g1 := set_phase c (GWaiting (WLogin nodeID) f None) (forward gatewayID nodeID (mkInner u "" "" MsgUnicast 0) f
    (set_pending ({[c]} ∪ pending g) (mkGC (<[u := c]> (conns g)) (<[c := mkGwConn u (match objs g !! c with Some o => logicNode o | None => "" end)]> (objs g))
             (pending g) (gphases g) (gsent g) (gforwarded g) ({[(c, u)]} ∪ asked g))))).
  assert (Es : serve1 cp fwd fwdText now (Some (n :: ns)) (fun x => Lookup x (table l)) c f g = Ok g1).
  { unfold GatewayConn.serve1. rewrite decide_True by done. unfold ghandleLogin. rewrite Hp. cbn [rbind]. rewrite decide_False by done.
    cbn [PickLogicNode]. rewrite Hn. unfold request. rewrite Hfw. unfold uidOf. cbn. by rewrite lookup_insert_eq. }
  assert (Hd : ∃ j, last (outbox l1) = Some (gatewayID, j, resp) ∧ UID j = u) by (rewrite Ho; by eexists).
  destruct Hd as (j & Hj & Hju).
  assert (Hresp : isHandshakeResp resp = true).
  { apply bool_decide_eq_true. left. revert Hr. clear. unfold NewOKFrameFor, NewErrorFrameFor.
    destruct (Envelope.Get _ _) as [|k]; [done|]. unfold lift. destruct (cMarshal k _) as [[]| |]; cbn; try done.
    destruct (cMarshal k _) as [[]| |]; cbn; try done. by intros [= <-]. }
  set (g1' := handleDownlink cp j resp g1).
  assert (Eg : g1' = set_phase c (GWaiting (WLogin nodeID) f (Some (u, resp))) (set_pending (pending g1 ∖ {[c]}) g1)).
  { unfold g1', handleDownlink. rewrite Hju, decide_False by done. cbn. rewrite !lookup_insert_eq, Hresp. cbn [andb].
    rewrite bool_decide_true by set_solver. done. }
  set (g2 := set_phase c GReading (mkGC (conns g1') (objs g1') (pending g1' ∖ {[c]}) (gphases g1') (gsent g1' ++ [(c, Some u, resp)]) (gforwarded g1') (asked g1'))).
  set (g2' := mkGC (conns g2) (<[c := mkGwConn (uidOf c g2) nodeID]> (objs g2)) (pending g2) (gphases g2) (gsent g2) (gforwarded g2) (asked g2)).
  assert (Er : resume cs cp werr c (WLogin nodeID) f u resp g1' = Ok g2').
  { unfold resume, gwrite. rewrite He, Hcp. done. }
  assert (Hu2 : uidOf c g2' = u).
  { unfold uidOf, g2'. cbn. rewrite lookup_insert_eq. unfold uidOf, g2. rewrite Eg. cbn. by rewrite lookup_insert_eq. }
  assert (Hm2 : MsgID f2 ≠ MsgLogin ∧ MsgID f2 ≠ MsgReconnect ∧ MsgID f2 ≠ MsgPing ∧ MsgID f2 ≠ MsgPullSnap) by set_solver.
  destruct Hm2 as (M1 & M2 & M3 & M4).
  eexists g1, _, l1, j, g2', _, _, _. split_and!; [exact Es|unfold g1; cbn; by rewrite last_snoc|exact E1|exact Hj| |exact Er|..].
  - fold g1'. rewrite Eg. cbn. apply lookup_insert_eq.
  - unfold g2', g2. cbn. by rewrite last_snoc.
  - unfold g2', g2. cbn. apply lookup_insert_eq.
  - unfold GatewayConn.serve1. rewrite !decide_False by done. unfold forwardBusiness. rewrite Hu2, decide_False by done.
    rewrite Hlk, Hfw. reflexivity.
  - cbn. by rewrite last_snoc.
  - unfold LogicHandler.handle. rewrite !decide_False by done. unfold dispatch. cbn [UID]. rewrite Hget, Hs. reflexivity.
  - done.
  - done.
Qed.
End Split.

(** ** Examples *)

(** A codec that fills the first field of a message with the whole body. *)
Definition textDecode (data : list Z) (v : value) : value :=
  match v with VPtr e (Some (VStruct ((fi, VString _) :: fs))) => VPtr e (Some (VStruct ((fi, VString data) :: fs))) | _ => v end.
Definition textCodec : Codec := mkCodec TypeJSON (fun _ => Ok (inr [])) (fun data v => Ok (inr (textDecode data v))).
#[export] Instance textCodec_returns : CodecReturns textCodec.
Proof.
  split; [|done..]. intros data e fs _. cbn. destruct fs as [|[fi []] fs]; cbn; eexists; (split; [reflexivity|done]).
Qed.
Definition textCodecs : codecs := {[TypeJSON := textCodec]}.
Lemma textCodecs_return t c : textCodecs !! t = Some c → CodecReturns c.
Proof. unfold textCodecs. intros [<- <-]%lookup_singleton_Some. apply _. Qed.

Definition noStr : list Z → string := fun _ => ""%string.
Definition noFwd : string → list Z := fun _ => [].
Definition takesRaw : Z → list Z → bool := fun _ _ => true.
Definition takesNode : string → bool := fun _ => true.
Definition logic1 : NodeInfo := mkNode "logic-1" "logic" "" [] 0 0 None None.
Definition textLogin : Frame := mkFrame 1 MsgLogin TypeJSON 7 [] (str "alice").
Definition textMsg : Frame := mkFrame 1 0x0100 TypeJSON 8 [] [].
Definition gserve (r : string → option string) (c : Z) (f : Frame) (g : GatewayConnector) : GatewayConnector :=
  match serve1 textCodecs "gw-1" noStr noStr noTS takesRaw takesNode noFwd 1 (Some [logic1]) r c f g with Ok g => g | _ => g end.
Notation textReach := (greach textCodecs "gw-1" noStr noStr noTS noFwd).
Notation textStep := (gstep textCodecs "gw-1" noStr noStr noTS noFwd).

Definition demoG0 : GatewayConnector := gaccept 10 NewGatewayConnector.
Definition toLogic1 : string → option string := fun _ => Some "logic-1"%string.
Definition demoG1 : GatewayConnector := gserve toLogic1 10 textLogin demoG0.
(** The response of a logic node for alice: an error frame. *)
Definition refusal : Frame := mkFrame 1 MsgLogin TypeJSON 7 [] [].
Definition demoG2 : GatewayConnector := handleDownlink takesRaw (mkInner "alice" "" "logic-1" MsgUnicast 7) refusal demoG1.
Definition gresume (c : Z) (w : waiting) (f : Frame) (u : string) (r : Frame) (g : GatewayConnector) : GatewayConnector :=
  match resume textCodecs takesRaw (NewErr ErrInternal []) c w f u r g with Ok g => g | _ => g end.
Definition demoG3 : GatewayConnector := gresume 10 (WLogin "logic-1") textLogin "alice" refusal demoG2.

Lemma textFrame r c f g : gphases g !! c = Some GReading →
  (∃ g', serve1 textCodecs "gw-1" noStr noStr noTS takesRaw takesNode noFwd 1 (Some [logic1]) r c f g = Ok g') → textStep g (gserve r c f g).
Proof. intros Hc [g' E]. unfold gserve. rewrite E. by eapply gs_frame. Qed.
Lemma demoG0_reach : textReach demoG0.
Proof. apply rtc_once. by apply gs_accept. Qed.
Lemma demoG1_reach : textReach demoG1.
Proof. eapply rtc_r; [apply demoG0_reach|]. apply textFrame; [reflexivity|by vm_compute; eexists]. Qed.
Lemma demoG3_reach : textReach demoG3.
Proof.
  eapply rtc_r; [eapply rtc_r; [apply demoG1_reach|exact (gs_downlink _ _ _ _ _ _ demoG1 takesRaw (mkInner "alice" "" "logic-1" MsgUnicast 7) refusal)]|].
  apply (gs_resume _ _ _ _ _ _ _ 10 takesRaw (NewErr ErrInternal []) (WLogin "logic-1") textLogin "alice" refusal); vm_compute; reflexivity.
Qed.

Lemma downlink_target_witness :
  gphases (handleDownlink takesRaw (mkInner "alice" "" "logic-1" MsgUnicast 7) refusal demoG1) !! 10 =
    Some (GWaiting (WLogin "logic-1") textLogin (Some ("alice"%string, refusal))) ∧ (10, "alice"%string) ∈ asked demoG3.
Proof.
  split.
  - apply (downlink_target textCodecs "gw-1" noStr noStr noTS noFwd textCodecs_return demoG1 demoG1_reach); vm_compute; done.
  - apply (proj1 (downlink_target textCodecs "gw-1" noStr noStr noTS noFwd textCodecs_return demoG3 demoG3_reach) 10 "alice"%string refusal).
    vm_compute. apply list_elem_of_here.
Defined.

Definition textL0 : LogicHandler (T := MemRouteTable) := newLogic NewMemRouteTable.
Lemma textL0_reach : lreach textCodecs noText noTS noIDs demoCfg kick0 "logic-1" true textL0.
Proof. exists NewMemRouteTable. split; [done|apply rtc_refl]. Qed.
Definition textResp : Frame := match NewOKFrameFor textCodecs TypeJSON MsgLogin 7 (Some (VStruct (LoginResp "logic-1:t1" (HeartbeatMS demoCfg) "alice"))) with
  | Ok (inr f) => f | _ => textMsg end.

Lemma split_login_witness :
  ∃ l1 l2 : LogicHandler (T := MemRouteTable), SessionManager.Get "alice" (lm l1) = Some O ∧ ldispatched l2 = ldispatched l1 ++ [(O, textMsg)].
Proof.
  destruct (split_login textCodecs "gw-1" "logic-1" noStr noStr noTS noFwd noText noIDs demoCfg kick0 demo_cap textCodecs_return true
    demoG0 textL0 10 textLogin textCodec (textDecode (str "alice") (newMsg loginReqType)) "alice" textResp
    (match snd (EncodeFrame textResp) with inr r => r | _ => [] end) logic1 [] "t1" 1 (NewErr ErrInternal []) takesRaw takesNode takes textMsg
    demoG0_reach) as (g1 & i & l1 & j & g2 & g3 & i2 & l2 & _ & _ & _ & _ & _ & _ & _ & _ & _ & _ & _ & Hd & Hg).
  all: try (vm_compute; reflexivity).
  - exact textL0_reach.
  - discriminate.
  - discriminate.
  - apply (bool_decide_unpack _). vm_compute. exact I.
  - exists l1, l2. split; [exact Hg|exact Hd].
Defined.

(** ** Findings on examples *)

(** Finding.  A login that the logic node refused leaves the connection with the
    player's uid: its business frames are forwarded in the player's name. *)
Theorem refused_login_stays :
  textReach demoG3 ∧ gphases demoG3 !! 10 = Some GReading ∧ last (gsent demoG3) = Some (10, Some "alice"%string, refusal) ∧
  last (gforwarded (gserve toLogic1 10 textMsg demoG3)) = Some ("logic-1"%string, mkInner "alice" "" "gw-1" MsgUnicast 8, textMsg).
Proof. split_and!; [exact demoG3_reach|vm_compute; reflexivity..]. Qed.

(** A second connection of the player, after which the first one closes. *)
Definition demoG4 : GatewayConnector := gserve toLogic1 11 textLogin (gaccept 11 demoG3).
Definition demoG5 : GatewayConnector :=
  gresume 11 (WLogin "logic-1") textLogin "alice" textResp (handleDownlink takesRaw (mkInner "alice" "" "logic-1" MsgUnicast 7) textResp demoG4).
Lemma demoG5_reach : textReach demoG5.
Proof.
  eapply rtc_r; [eapply rtc_r; [apply (rtc_r _ (gaccept 11 demoG3) demoG4); [eapply rtc_r; [apply demoG3_reach|]|]|exact (gs_downlink _ _ _ _ _ _ demoG4 takesRaw (mkInner "alice" "" "logic-1" MsgUnicast 7) textResp)]|].
  - by apply (gs_accept _ _ _ _ _ _ _ 11).
  - apply textFrame; [reflexivity|by vm_compute; eexists].
  - apply (gs_resume _ _ _ _ _ _ _ 11 takesRaw (NewErr ErrInternal []) (WLogin "logic-1") textLogin "alice" textResp); vm_compute; reflexivity.
Qed.

(** Finding.  When a player has logged in again on a new connection, the end of
    the old one removes the entry of the new one: the player is online at the
    gateway, but every push for the player is dropped. *)
Theorem old_cleanup_cuts_new :
  let g := cleanupConn 10 demoG5 in
  textReach g ∧ gphases g !! 11 = Some GReading ∧ uidOf 11 g = "alice"%string ∧
  conns demoG5 !! "alice"%string = Some 11 ∧
  ∀ cp i f, UID i = "alice"%string → handleDownlink cp i f g = g.
Proof.
  split_and!.
  - eapply rtc_r; [apply demoG5_reach|]. apply gs_end. vm_compute. reflexivity.
  - vm_compute. reflexivity.
  - vm_compute. reflexivity.
  - vm_compute. reflexivity.
  - intros cp i f Hi. unfold handleDownlink. rewrite Hi. reflexivity.
Qed.

(** Finding.  The gateway's view of a login request has no protobuf tags: the uid
    of a protobuf login is not seen, and the connection is refused and closed. *)
Theorem protobuf_login_refused :
  (∃ v, cUnmarshal ProtoCodec (Body demoLogin) (newMsg loginReqType) = Ok (inr v) ∧ loginUID v = Some "alice"%string) ∧
  parseUIDFromLoginReq demoCodecs noStr demoLogin = Ok ""%string.
Proof. split; [eexists; split; vm_compute; reflexivity|vm_compute; reflexivity]. Qed.
