(* ===== verification/Timer.v ===== *)
(** * Timers (internal/timer/scheduler.go, internal/timer/clock.go)

    The scheduler keeps its pending tasks in a binary heap of pointers, ordered
    by the time they are due; every task records its own position in the heap,
    so that its handle can take it out again.  Pointers are positions of an
    arena of tasks.  The loops of container/heap are written out over the
    methods the code gives it ([Less], [Swap], [Push], [Pop]); an index out of
    range panics.  Times and durations are nanoseconds, as unbounded integers.

    The loop of the scheduler is a state machine: other goroutines (callbacks
    included) add, cancel and close between any two of its critical sections. *)

From S2P Require Import Prelude.

(** ** The manual clock *)

(** A pending timer and the channel (by number) it will be sent on. *)
Record manualTimer := mkManual { mAt : Z; mCh : nat }.
(** [sent c]: the content of the buffer, of one element, of channel [c]. *)
Record ManualClock := mkClock { mnow : Z; mpending : list manualTimer; sent : list (option Z) }.

Definition NewManualClock (t : Z) : ManualClock := mkClock t [] [].

Definition ClockAfter (d : Z) (c : ManualClock) : nat * ManualClock :=
  let ch := length (sent c) in
  (ch, mkClock (mnow c) (mpending c ++ [mkManual (mnow c + d) ch]) (sent c ++ [None])).

(** A send that does not block: dropped when the buffer is full. *)
Definition trySend (ch : nat) (v : Z) (chans : list (option Z)) : list (option Z) :=
  match chans !! ch with Some None => <[ch := Some v]> chans | _ => chans end.

Fixpoint advanceLoop (now : Z) (ts : list manualTimer) (chans : list (option Z))
    : list manualTimer * list (option Z) :=
  match ts with
  | [] => ([], chans)
  | t :: ts =>
      if mAt t <=? now then advanceLoop now ts (trySend (mCh t) now chans)
      else let '(rest, chans) := advanceLoop now ts chans in (t :: rest, chans)
  end.

Definition Advance (d : Z) (c : ManualClock) : ManualClock :=
  let now := mnow c + d in
  let '(rest, chans) := advanceLoop now (mpending c) (sent c) in
  mkClock now rest chans.

(** ** Tasks and their heap *)

Record task := mkTask {
  tid : Z;
  fireAt : Z;
  interval : Z;
  fn : Z;             (* the callback, by name *)
  tindex : Z;
  cancelled : bool }.

(** The memory the heap's methods read and write. *)
Record taskHeap := mkHeap { arena : list task; tasks : list nat }.

Definition set_index (i : Z) (t : task) : task :=
  mkTask (tid t) (fireAt t) (interval t) (fn t) i (cancelled t).
Definition set_cancelled (t : task) : task :=
  mkTask (tid t) (fireAt t) (interval t) (fn t) (tindex t) true.

Definition Len (h : taskHeap) : nat := length (tasks h).

(** [h[i]], dereferenced. *)
Definition at_ (h : taskHeap) (i : nat) : res task :=
  match tasks h !! i ≫= (fun p => arena h !! p) with Some t => Ok t | None => Panic end.

Definition Less (h : taskHeap) (i j : nat) : res bool :=
  let! a := at_ h i in let! b := at_ h j in Ok (fireAt a <? fireAt b).

Definition Swap (i j : nat) (h : taskHeap) : res taskHeap :=
  match tasks h !! i, tasks h !! j with
  | Some p, Some q =>
      let ts := <[j := p]> (<[i := q]> (tasks h)) in
      let a := alter (set_index (Z.of_nat i)) q (arena h) in
      let a := alter (set_index (Z.of_nat j)) p a in
      Ok (mkHeap a ts)
  | _, _ => Panic
  end.

Definition PushMethod (p : nat) (h : taskHeap) : taskHeap :=
  mkHeap (alter (set_index (Z.of_nat (length (tasks h)))) p (arena h)) (tasks h ++ [p]).

Definition PopMethod (h : taskHeap) : res (nat * taskHeap) :=
  match last (tasks h) with
  | Some p => Ok (p, mkHeap (alter (set_index (-1)) p (arena h)) (removelast (tasks h)))
  | None => Panic
  end.

(** container/heap: [up] climbs from [j]; [down] sinks from [i] in the first
    [n] slots and says whether it moved. *)
Fixpoint up (fuel : nat) (j : nat) (h : taskHeap) : res taskHeap :=
  match fuel with
  | O => OutOfFuel
  | S fuel =>
      let i := Nat.div (j - 1) 2 in
      if decide (i = j) then Ok h else
      let! lt := Less h j i in
      if negb lt then Ok h else
      let! h := Swap i j h in
      up fuel i h
  end.

Fixpoint down (fuel : nat) (i n : nat) (h : taskHeap) : res (nat * taskHeap) :=
  match fuel with
  | O => OutOfFuel
  | S fuel =>
      let j1 := (2 * i + 1)%nat in
      if decide (n ≤ j1)%nat then Ok (i, h) else
      let! j := (if decide (j1 + 1 < n)%nat
                 then let! lt := Less h (j1 + 1) j1 in Ok (if lt then (j1 + 1)%nat else j1)
                 else Ok j1) in
      let! lt := Less h j i in
      if negb lt then Ok (i, h) else
      let! h := Swap i j h in
      down fuel j n h
  end.

Definition HeapPush (p : nat) (h : taskHeap) : res taskHeap :=
  let h := PushMethod p h in up (Len h) (Len h - 1) h.

Definition HeapPop (h : taskHeap) : res (nat * taskHeap) :=
  if decide (Len h = 0%nat) then Panic else
  let n := (Len h - 1)%nat in
  let! h := Swap 0 n h in
  let! (_, h) := down (S n) 0 n h in
  PopMethod h.

Definition HeapRemove (i : nat) (h : taskHeap) : res (nat * taskHeap) :=
  if decide (Len h = 0%nat) then Panic else
  let n := (Len h - 1)%nat in
  let! h := (if decide (n = i) then Ok h else
             let! h := Swap i n h in
             let! (k, h) := down (S n) i n h in
             if decide (i < k)%nat then Ok h else up (S i) i h) in
  PopMethod h.

(** ** The scheduler *)

(** Where the loop is: about to take the lock; in its select, with the channel
    of [clock.After] due at the deadline; between collecting and firing; firing
    what it collected at [now]; returned. *)
Inductive pc :=
| AtTop
| Waiting (deadline : Z)
| Collecting (now : Z)
| Firing (now : Z) (due : list nat)
| Rearming (now : Z) (p : nat) (due : list nat)
| Returned.

Record Scheduler := mkSched {
  heap : taskHeap;
  nextID : Z;
  closed : bool;
  wake : bool;        (* the channel of one element *)
  stop : bool;        (* the channel is closed *)
  loopAt : pc;
  fired : list (nat * Z * Z) (* history: task, time it was due, time collected *) }.

Definition NewScheduler : Scheduler := mkSched (mkHeap [] []) 0 false false false AtTop [].

Definition set_heap (h : taskHeap) (s : Scheduler) : Scheduler :=
  mkSched h (nextID s) (closed s) (wake s) (stop s) (loopAt s) (fired s).
Definition set_pc (p : pc) (s : Scheduler) : Scheduler :=
  mkSched (heap s) (nextID s) (closed s) (wake s) (stop s) p (fired s).
Definition set_nextID (n : Z) (s : Scheduler) : Scheduler :=
  mkSched (heap s) n (closed s) (wake s) (stop s) (loopAt s) (fired s).

Definition signal (s : Scheduler) : Scheduler :=
  mkSched (heap s) (nextID s) (closed s) true (stop s) (loopAt s) (fired s).

(** [add]: [now] is the clock read before the lock is taken.  The result is
    the task of the handle. *)
Definition add (now first itv f : Z) (s : Scheduler) : res (nat * Scheduler) :=
  let p := length (arena (heap s)) in
  let new id c := mkTask id (now + first) itv f (-1) c in
  let alloc t h := mkHeap (arena h ++ [t]) (tasks h) in
  if closed s then Ok (p, set_heap (alloc (new 0 true) (heap s)) s) else
  let s := set_nextID (nextID s + 1) s in
  let wasEmpty := bool_decide (Len (heap s) = 0%nat) in
  let! h := HeapPush p (alloc (new (nextID s) false) (heap s)) in
  let s := set_heap h s in
  let s := if wasEmpty || bool_decide (tasks h !! 0%nat = Some p) then signal s else s in
  Ok (p, s).

Definition After (now d f : Z) (s : Scheduler) : res (nat * Scheduler) := add now d 0 f s.
Definition Every (now d f : Z) (s : Scheduler) : res (nat * Scheduler) := add now d d f s.

(** The second critical section of [Close] closes the channel at once: nothing
    can come between that another caller of Close could see. *)
Definition Close (s : Scheduler) : Scheduler :=
  if closed s then s else mkSched (heap s) (nextID s) true (wake s) true (loopAt s) (fired s).

Definition Cancel (p : nat) (s : Scheduler) : res Scheduler :=
  match arena (heap s) !! p with
  | None => Panic
  | Some t =>
      if cancelled t then Ok s else
      let h := mkHeap (alter set_cancelled p (arena (heap s))) (tasks (heap s)) in
      if decide (0 ≤ tindex t ∧ tindex t < Z.of_nat (Len h)) then
        let! (_, h) := HeapRemove (Z.to_nat (tindex t)) h in Ok (set_heap h s)
      else Ok (set_heap h s)
  end.

Definition rearm (p : nat) (at' : Z) (s : Scheduler) : res Scheduler :=
  match arena (heap s) !! p with
  | None => Panic
  | Some t =>
      if closed s || cancelled t then Ok s else
      let t' := mkTask (tid t) at' (interval t) (fn t) (-1) (cancelled t) in
      let! h := HeapPush p (mkHeap (<[p := t']> (arena (heap s))) (tasks (heap s))) in
      Ok (signal (set_heap h s))
  end.

(** *** The loop *)

Definition idleWait : Z := 3600 * 10^9.

(** The first critical section: how long to wait; [now] is the clock. *)
Definition loopTop (now : Z) (s : Scheduler) : res Scheduler :=
  if closed s then Ok (set_pc Returned s) else
  let! wait := (if decide (Len (heap s) = 0%nat) then Ok idleWait
                else let! t := at_ (heap s) 0 in
                     let w := fireAt t - now in Ok (if w <? 0 then 0 else w)) in
  Ok (set_pc (Waiting (now + wait)) s).

(** The second critical section: pop what is due, keep what is not cancelled. *)
Fixpoint collect (fuel : nat) (now : Z) (h : taskHeap) : res (list nat * taskHeap) :=
  match fuel with
  | O => OutOfFuel
  | S fuel =>
      if decide (Len h = 0%nat) then Ok ([], h) else
      let! t := at_ h 0 in
      if now <? fireAt t then Ok ([], h) else
      let! (p, h) := HeapPop h in
      match arena h !! p with
      | Some t =>
          let! (due, h) := collect fuel now h in
          Ok (if cancelled t then due else p :: due, h)
      | None => Panic
      end
  end.

Definition loopCollect (now : Z) (s : Scheduler) : res Scheduler :=
  let! (due, h) := collect (S (Len (heap s))) now (heap s) in
  Ok (set_pc (Firing now due) (set_heap h s)).

(** One iteration of the loop over [due]: hand the callback to the executor,
    then, in a critical section of its own, put a periodic task back. *)
Definition fire (now : Z) (p : nat) (due : list nat) (s : Scheduler) : res Scheduler :=
  match arena (heap s) !! p with
  | None => Panic
  | Some t => Ok (mkSched (heap s) (nextID s) (closed s) (wake s) (stop s) (Rearming now p due)
                          (fired s ++ [(p, fireAt t, now)]))
  end.

Definition afterFire (now : Z) (p : nat) (due : list nat) (s : Scheduler) : res Scheduler :=
  match arena (heap s) !! p with
  | None => Panic
  | Some t =>
      let! s := (if (0 <? interval t) && negb (cancelled t) then rearm p (now + interval t) s else Ok s) in
      Ok (set_pc (Firing now due) s)
  end.

(** A step of the loop at clock [now], the select included. *)
Inductive loopStep (now : Z) (s : Scheduler) : res Scheduler → Prop :=
| ls_top : loopAt s = AtTop → loopStep now s (loopTop now s)
| ls_stop d : loopAt s = Waiting d → stop s = true → loopStep now s (Ok (set_pc Returned s))
| ls_wake d : loopAt s = Waiting d → wake s = true →
    loopStep now s (Ok (mkSched (heap s) (nextID s) (closed s) false (stop s) AtTop (fired s)))
| ls_timer d : loopAt s = Waiting d → d ≤ now → loopStep now s (Ok (set_pc (Collecting now) s))
| ls_collect t : loopAt s = Collecting t → loopStep now s (loopCollect t s)
| ls_fire t p due : loopAt s = Firing t (p :: due) → loopStep now s (fire t p due s)
| ls_after t p due : loopAt s = Rearming t p due → loopStep now s (afterFire t p due s)
| ls_done t : loopAt s = Firing t [] → loopStep now s (Ok (set_pc AtTop s)).
