(* ===== verification/TimerHeap.v ===== *)
(** * The task heap is a priority queue

    The loops of container/heap over the scheduler's tasks keep the heap order,
    keep every task's record of its own position exact, and never leave the
    slice.  The results here carry the theorems about the scheduler. *)

From Stdlib Require Import ZifyNat.
From S2P Require Import Prelude Timer.

Ltac Zify.zify_post_hook ::= Z.to_euclidean_division_equations.

(** ** What the loops preserve *)

(** A task but for its position. *)
Definition core (t : task) : task := set_index 0 t.

Definition par (k : nat) : nat := Nat.div (k - 1) 2.

Lemma par_lt k : (0 < k)%nat → (par k < k)%nat.
Proof. unfold par. lia. Qed.

(** Every slot holds a task that knows the slot, and every other task knows it
    is in no slot. *)
Record HeapWF (h : taskHeap) : Prop := {
  wf_slot i p : tasks h !! i = Some p → ∃ t, arena h !! p = Some t ∧ tindex t = Z.of_nat i;
  wf_task p t : arena h !! p = Some t → tindex t = -1 ∨ ∃ i, tindex t = Z.of_nat i ∧ tasks h !! i = Some p }.

(** The due time at a pointer and at a slot. *)
Definition key (h : taskHeap) (p : nat) : Z := from_option fireAt 0 (arena h !! p).
Definition K (h : taskHeap) (i : nat) : Z := from_option (key h) 0 (tasks h !! i).

(** Only positions differ, and the heap holds the same tasks. *)
Definition rearranged (h h' : taskHeap) : Prop :=
  core <$> arena h' = core <$> arena h ∧ tasks h' ≡ₚ tasks h.

Definition isHeap (n : nat) (h : taskHeap) : Prop :=
  ∀ k, (0 < k < n)%nat → K h (par k) ≤ K h k.

Lemma rearranged_refl h : rearranged h h.
Proof. by split. Qed.

Lemma rearranged_trans h1 h2 h3 : rearranged h1 h2 → rearranged h2 h3 → rearranged h1 h3.
Proof. intros [? ?] [? ?]. split; [congruence|by etrans]. Qed.

Lemma rearranged_Len h h' : rearranged h h' → Len h' = Len h.
Proof. intros [_ Hp]. by apply Permutation_length. Qed.

Lemma core_lookup (a a' : list task) p t : core <$> a' = core <$> a → a !! p = Some t →
  ∃ t', a' !! p = Some t' ∧ core t' = core t.
Proof.
  intros Hc Ht. assert ((core <$> a') !! p = Some (core t)) as H by (by rewrite Hc, list_lookup_fmap, Ht).
  rewrite list_lookup_fmap in H. destruct (a' !! p) as [t'|]; [|done]. exists t'. split; [done|]. cbn in H. congruence.
Qed.

Lemma core_fields t t' : core t' = core t →
  tid t' = tid t ∧ fireAt t' = fireAt t ∧ interval t' = interval t ∧ fn t' = fn t ∧ cancelled t' = cancelled t.
Proof. destruct t, t'. intros [= -> -> -> -> ->]. done. Qed.

Lemma core_key h h' p : core <$> arena h' = core <$> arena h → key h' p = key h p.
Proof.
  intros Hc. unfold key. destruct (arena h !! p) as [t|] eqn:E.
  - destruct (core_lookup _ _ _ _ Hc E) as (t' & -> & (_ & Hf & _)%core_fields). done.
  - apply (f_equal (fun l => l !! p)) in Hc. rewrite !list_lookup_fmap, E in Hc.
    by destruct (arena h' !! p).
Qed.

Lemma core_alter i p (a : list task) : core <$> alter (set_index i) p a = core <$> a.
Proof.
  apply list_eq. intros k. rewrite !list_lookup_fmap. destruct (decide (k = p)) as [->|Hk].
  - rewrite list_lookup_alter_eq. by destruct (a !! p) as [[]|].
  - by rewrite list_lookup_alter_ne by done.
Qed.

Lemma wf_inj h i j p : HeapWF h → tasks h !! i = Some p → tasks h !! j = Some p → i = j.
Proof.
  intros Hw Hi Hj. destruct (wf_slot _ Hw _ _ Hi) as (t & Ht & ?).
  destruct (wf_slot _ Hw _ _ Hj) as (t' & Ht' & ?). simplify_eq. lia.
Qed.

Lemma wf_NoDup h : HeapWF h → NoDup (tasks h).
Proof. intros Hw. apply NoDup_alt. intros i j p. by apply wf_inj. Qed.

(** ** The methods *)

Lemma at_ok h i : HeapWF h → (i < Len h)%nat →
  ∃ p t, tasks h !! i = Some p ∧ arena h !! p = Some t ∧ at_ h i = Ok t ∧ K h i = fireAt t.
Proof.
  intros Hw Hi. destruct (lookup_lt_is_Some_2 _ _ Hi) as [p Hp].
  destruct (wf_slot _ Hw _ _ Hp) as (t & Ht & _). exists p, t. unfold at_, K, key. rewrite Hp. cbn. by rewrite Ht.
Qed.

Lemma Less_ok h i j : HeapWF h → (i < Len h)%nat → (j < Len h)%nat → Less h i j = Ok (K h i <? K h j).
Proof.
  intros Hw Hi Hj. destruct (at_ok h i Hw Hi) as (p & t & _ & _ & E1 & ->).
  destruct (at_ok h j Hw Hj) as (q & t' & _ & _ & E2 & ->). unfold Less. by rewrite E1, E2.
Qed.

(** Where the content of a slot comes from. *)
Definition sw (i j k : nat) : nat := if decide (k = i) then j else if decide (k = j) then i else k.

Lemma swap_lookup (l : list nat) i j p q k : l !! i = Some p → l !! j = Some q →
  <[j := p]> (<[i := q]> l) !! k = l !! sw i j k.
Proof.
  intros Hi Hj. pose proof (lookup_lt_Some _ _ _ Hi). pose proof (lookup_lt_Some _ _ _ Hj).
  unfold sw. destruct (decide (k = j)) as [->|Hkj].
  - rewrite list_lookup_insert_eq by (rewrite length_insert; lia). case_decide; by subst.
  - rewrite list_lookup_insert_ne by done. case_decide as Hki.
    + subst k. by rewrite list_lookup_insert_eq by lia.
    + by rewrite list_lookup_insert_ne by done.
Qed.

Lemma heap_swap_perm (l : list nat) i j p q : l !! i = Some p → l !! j = Some q →
  <[j := p]> (<[i := q]> l) ≡ₚ l.
Proof.
  intros Hi Hj. pose proof (lookup_lt_Some _ _ _ Hi). pose proof (lookup_lt_Some _ _ _ Hj).
  apply Permutation_inj. split; [by rewrite !length_insert|].
  exists (sw i j). split; [|intros k; by apply swap_lookup].
  intros a b. unfold sw. repeat case_decide; congruence.
Qed.

Lemma Swap_ok i j h : HeapWF h → (i < Len h)%nat → (j < Len h)%nat →
  ∃ h', Swap i j h = Ok h' ∧ HeapWF h' ∧ rearranged h h' ∧
    (∀ k, tasks h' !! k = tasks h !! sw i j k) ∧ (∀ k, K h' k = K h (sw i j k)).
Proof.
  intros Hw Hi Hj. destruct (lookup_lt_is_Some_2 _ _ Hi) as [p Hp]. destruct (lookup_lt_is_Some_2 _ _ Hj) as [q Hq].
  unfold Swap. rewrite Hp, Hq. eexists. split; [done|].
  set (h' := mkHeap _ _).
  assert (rearranged h h') as Hre by (split; cbn [arena tasks h']; [by rewrite !core_alter|by apply heap_swap_perm]).
  assert (∀ k, tasks h' !! k = tasks h !! sw i j k) as Hl by (intros k; by apply swap_lookup).
  split_and!; [|done|done|].
  - split.
    + intros k r. rewrite Hl. unfold sw. intros Hr. cbn [arena h'].
      destruct (decide (r = p)) as [->|Hrp].
      * rewrite list_lookup_alter_eq.
        destruct (wf_slot _ Hw _ _ Hp) as (t & Ht & _).
        assert (k = j) as ->.
        { repeat case_decide; subst; try done; try (by apply (wf_inj h _ _ p)).
          exfalso. by apply (wf_inj h _ _ _ Hw Hp) in Hr. }
        destruct (decide (p = q)) as [->|]; [rewrite list_lookup_alter_eq|rewrite list_lookup_alter_ne by done];
          rewrite Ht; eexists; (split; [done|]); done.
      * rewrite list_lookup_alter_ne by done. destruct (decide (r = q)) as [->|Hrq].
        -- rewrite list_lookup_alter_eq. destruct (wf_slot _ Hw _ _ Hq) as (t & Ht & _). rewrite Ht.
           eexists. split; [done|]. cbn. f_equal.
           repeat case_decide; subst; try done; naive_solver (eauto using wf_inj).
        -- rewrite list_lookup_alter_ne by done. apply (wf_slot _ Hw). by repeat case_decide; simplify_eq.
    + intros r t. cbn [arena h']. destruct (decide (r = p)) as [->|Hrp].
      * rewrite list_lookup_alter_eq. intros (t0 & _ & ->)%fmap_Some. right. exists j. split; [done|].
        rewrite Hl. unfold sw. repeat case_decide; by subst.
      * rewrite list_lookup_alter_ne by done. destruct (decide (r = q)) as [->|Hrq].
        -- rewrite list_lookup_alter_eq. intros (t0 & _ & ->)%fmap_Some. right. exists i. split; [done|].
           rewrite Hl. unfold sw. by rewrite decide_True.
        -- rewrite list_lookup_alter_ne by done. intros Ht.
           destruct (wf_task _ Hw _ _ Ht) as [?|(k & ? & Hk)]; [by left|]. right. exists k. split; [done|].
           rewrite Hl. unfold sw. repeat case_decide; simplify_eq; done.
  - intros k. unfold K. rewrite Hl. destruct (tasks h !! sw i j k) as [r|]; [|done]. cbn [from_option]. apply core_key, Hre.
Qed.

(** ** Climbing *)

(** Heap order, but for the slot [j], whose content may be smaller than its
    ancestors'. *)
Definition upInv (n j : nat) (h : taskHeap) : Prop :=
  (∀ k, (0 < k < n)%nat → k ≠ j → K h (par k) ≤ K h k) ∧
  (∀ c, (0 < c < n)%nat → (0 < j)%nat → par c = j → K h (par j) ≤ K h c).

Lemma par_eq j : Nat.div (j - 1) 2 = par j.
Proof. done. Qed.

Lemma up_ok n fuel j h : HeapWF h → (j < n)%nat → (n ≤ Len h)%nat → (j < fuel)%nat → upInv n j h →
  ∃ h', up fuel j h = Ok h' ∧ HeapWF h' ∧ rearranged h h' ∧ isHeap n h' ∧
    (∀ k, (j < k)%nat → tasks h' !! k = tasks h !! k).
Proof.
  revert j h. induction fuel as [|fuel IH]; intros j h Hw Hj Hn Hf [H1 H2]; [lia|].
  cbn [up]. rewrite par_eq. case_decide as Hpj.
  { exists h. split_and!; [done..|apply rearranged_refl| |done]. intros k Hk. apply H1; [done|].
    unfold par in *. lia. }
  assert (0 < j)%nat as Hj0 by (unfold par in *; lia). assert (par j < j)%nat as Hlt by (unfold par in *; lia).
  rewrite Less_ok by (done || lia). cbn [rbind]. destruct (K h j <? K h (par j)) eqn:E; cbn [negb].
  - apply Z.ltb_lt in E. destruct (Swap_ok (par j) j h) as (h1 & -> & Hw1 & Hr1 & Ht1 & HK1); [done|lia..|].
    cbn [rbind]. pose proof (rearranged_Len _ _ Hr1) as HL.
    destruct (IH (par j) h1) as (h' & -> & Hw' & Hr' & Hh & Ht'); [done|lia..| |].
    + split.
      * intros k Hk Hkp. rewrite !HK1. pose proof (H1 k Hk) as H1k. pose proof (H2 k Hk Hj0) as H2k. unfold sw.
        destruct (decide (par k = par j)) as [Hpk|Hpk]; [destruct (decide (k = par j)) as [|_]; [done|]; case_decide|].
        -- lia.
        -- rewrite Hpk in H1k. lia.
        -- rewrite (decide_False (P := k = par j)), (decide_False (P := k = j)) by congruence.
           case_decide; [auto|apply H1k; congruence].
      * intros c Hc Hpp Hcp. rewrite !HK1. pose proof (H1 (par j) ltac:(lia) ltac:(lia)) as Hpj1.
        pose proof (H1 c Hc) as H1c. rewrite Hcp in H1c. unfold sw.
        rewrite (decide_False (P := par (par j) = par j)), (decide_False (P := par (par j) = j)) by (unfold par in *; lia).
        rewrite (decide_False (P := c = par j)) by (unfold par in *; lia).
        case_decide; [done|lia].
    + exists h'. split_and!; [done..|by eapply rearranged_trans|done|].
      intros k Hk. rewrite Ht' by lia. rewrite Ht1. unfold sw. by rewrite !decide_False by lia.
  - apply Z.ltb_ge in E. exists h. split_and!; [done..|apply rearranged_refl| |done].
    intros k Hk. destruct (decide (k = j)) as [->|]; [done|by apply H1].
Qed.

(** ** Sinking *)

(** Heap order among the first [n] slots, but for the slot [i], whose content
    may be greater than its children's. *)
Definition downInv (n i : nat) (h : taskHeap) : Prop :=
  (∀ k, (0 < k < n)%nat → par k ≠ i → K h (par k) ≤ K h k) ∧
  (∀ c, (0 < c < n)%nat → (0 < i)%nat → par c = i → K h (par i) ≤ K h c).

(** The same when the slot's own parent may be out of order too. *)
Definition holeInv (n i : nat) (h : taskHeap) : Prop :=
  (∀ k, (0 < k < n)%nat → k ≠ i → par k ≠ i → K h (par k) ≤ K h k) ∧
  (∀ c, (0 < c < n)%nat → (0 < i)%nat → par c = i → K h (par i) ≤ K h c).

(** The smaller child of [i]. *)
Lemma child_ok n i h : HeapWF h → (n ≤ Len h)%nat → (2 * i + 1 < n)%nat →
  ∃ j, (if decide (2 * i + 1 + 1 < n)%nat
        then let! lt := Less h (2 * i + 1 + 1) (2 * i + 1) in
             Ok (if lt then (2 * i + 1 + 1)%nat else (2 * i + 1)%nat)
        else Ok (2 * i + 1)%nat) = Ok j ∧ (i < j < n)%nat ∧ par j = i ∧
    ∀ c, (0 < c < n)%nat → par c = i → K h j ≤ K h c.
Proof.
  intros Hw Hn Hi. case_decide as Hr.
  - rewrite Less_ok by (done || lia). cbn [rbind].
    destruct (K h (2 * i + 1 + 1) <? K h (2 * i + 1)) eqn:E; eexists; (split; [done|]);
      (split; [lia|]); (split; [unfold par; lia|]); intros c Hc Hp;
      assert (c = 2 * i + 1 + 1 ∨ c = 2 * i + 1)%nat as [->| ->] by (unfold par in *; lia); lia.
  - eexists; (split; [done|]); (split; [lia|]); (split; [unfold par; lia|]); intros c Hc Hp.
    assert (c = 2 * i + 1)%nat as -> by (unfold par in *; lia). lia.
Qed.

Lemma down_step fuel n i h : HeapWF h → (n ≤ Len h)%nat → (i < n)%nat → holeInv n i h →
  (down (S fuel) i n h = Ok (i, h) ∧ ∀ c, (0 < c < n)%nat → par c = i → K h i ≤ K h c) ∨
  (∃ j h1, down (S fuel) i n h = down fuel j n h1 ∧ (i < j < n)%nat ∧ HeapWF h1 ∧ rearranged h h1 ∧
     downInv n j h1 ∧ (∀ k, (n ≤ k)%nat → tasks h1 !! k = tasks h !! k)).
Proof.
  intros Hw Hn Hi [H1 H2]. cbn [down]. case_decide as Hl.
  { left. split; [done|]. intros c Hc Hp. unfold par in *. lia. }
  destruct (child_ok n i h) as (j & -> & Hj & Hpj & Hmin); [done|lia..|]. cbn [rbind].
  rewrite Less_ok by (done || lia). cbn [rbind]. destruct (K h j <? K h i) eqn:E; cbn [negb].
  2: { left. split; [done|]. intros c Hc Hp. specialize (Hmin c Hc Hp). lia. }
  right. destruct (Swap_ok i j h) as (h1 & -> & Hw1 & Hr1 & Ht1 & HK1); [done|lia..|].
  exists j, h1. cbn [rbind]. split; [done|]. split; [lia|]. do 2 (split; [done|]). split; [split|].
  - intros k Hk Hpk. rewrite !HK1. unfold sw. destruct (decide (par k = i)) as [Hki|Hki].
    + specialize (Hmin k Hk Hki). rewrite (decide_False (P := k = i)) by (unfold par in *; lia).
      case_decide; lia.
    + rewrite (decide_False (P := par k = j)) by done. destruct (decide (k = i)) as [->|Hk2].
      * apply H2; [lia..|done].
      * rewrite decide_False by (intros ->; done). by apply H1.
  - intros c Hc Hj0 Hp. rewrite !HK1. unfold sw. rewrite Hpj, (decide_True (P := i = i)) by done.
    rewrite (decide_False (P := c = i)), (decide_False (P := c = j)) by (unfold par in *; lia).
    rewrite <- Hp. apply H1; [done|unfold par in *; lia..].
  - intros k Hk. rewrite Ht1. unfold sw. by rewrite !decide_False by lia.
Qed.

Lemma down_ok n fuel i h : HeapWF h → (n ≤ Len h)%nat → (i < n)%nat → (n ≤ fuel + i)%nat → downInv n i h →
  ∃ k h', down fuel i n h = Ok (k, h') ∧ (i ≤ k)%nat ∧ HeapWF h' ∧ rearranged h h' ∧ isHeap n h' ∧
    (∀ k, (n ≤ k)%nat → tasks h' !! k = tasks h !! k).
Proof.
  revert i h. induction fuel as [|fuel IH]; intros i h Hw Hn Hi Hf [H1 H2]; [lia|].
  destruct (down_step fuel n i h) as [[-> Hc]|(j & h1 & -> & Hj & Hw1 & Hr1 & Hd & Ht1)]; [done..| | |].
  { split; [|done]. intros k ? _ ?. by apply H1. }
  - exists i, h. split_and!; [done..|apply rearranged_refl| |done]. intros k Hk.
    destruct (decide (par k = i)) as [Hp|]; [rewrite Hp; by apply Hc|by apply H1].
  - pose proof (rearranged_Len _ _ Hr1).
    destruct (IH j h1) as (k & h' & -> & Hk & Hw' & Hr' & Hh & Ht'); [done|lia..|done|].
    exists k, h'. split_and!; [done|lia|done|by eapply rearranged_trans|done|].
    intros m Hm. by rewrite Ht', Ht1.
Qed.

(** ** The operations of the priority queue *)

Definition Good (h : taskHeap) : Prop := HeapWF h ∧ isHeap (Len h) h.

(** The tasks are the same but for their positions. *)
Definition sameTasks (h h' : taskHeap) : Prop := core <$> arena h' = core <$> arena h.

Lemma PopMethod_ok l p h : HeapWF h → tasks h = l ++ [p] →
  ∃ h', PopMethod h = Ok (p, h') ∧ HeapWF h' ∧ tasks h' = l ∧ sameTasks h h' ∧
    (∀ k, (k < length l)%nat → K h' k = K h k).
Proof.
  intros Hw Hl. pose proof (wf_NoDup _ Hw) as Hnd. rewrite Hl in Hnd. apply NoDup_app in Hnd as (_ & Hd & _).
  unfold PopMethod. rewrite Hl, last_snoc, removelast_last. eexists. split; [done|]. set (h' := mkHeap _ _).
  assert (sameTasks h h') as Hs by apply core_alter. split_and!; [|done|done|].
  - split; cbn [arena tasks h'].
    + intros i q Hq. assert (q ≠ p) as Hne.
      { intros ->. apply list_elem_of_lookup_2 in Hq. apply (Hd _ Hq). by left. }
      rewrite list_lookup_alter_ne by done. apply (wf_slot _ Hw). rewrite Hl. by apply lookup_app_l_Some.
    + intros q t. destruct (decide (q = p)) as [->|Hne].
      * rewrite list_lookup_alter_eq. intros (t0 & _ & ->)%fmap_Some. by left.
      * rewrite list_lookup_alter_ne by done. intros Ht.
        destruct (wf_task _ Hw _ _ Ht) as [?|(i & ? & Hi)]; [by left|]. right. exists i. split; [done|].
        rewrite Hl in Hi. apply lookup_app_Some in Hi as [?|[? [_ ?]%list_lookup_singleton_Some]]; [done|congruence].
  - intros k Hk. unfold K. rewrite Hl. cbn [tasks h']. rewrite lookup_app_l by done.
    destruct (l !! k); [|done]. by apply core_key.
Qed.

Lemma PushMethod_ok p t h : HeapWF h → arena h !! p = Some t → tindex t = -1 →
  HeapWF (PushMethod p h) ∧ sameTasks h (PushMethod p h) ∧ tasks (PushMethod p h) = tasks h ++ [p] ∧
  (∀ k, (k < Len h)%nat → K (PushMethod p h) k = K h k).
Proof.
  intros Hw Hp Hi. assert (sameTasks h (PushMethod p h)) as Hs by apply core_alter.
  assert (∀ i q, tasks h !! i = Some q → q ≠ p) as Hne.
  { intros i q Hq ->. destruct (wf_slot _ Hw _ _ Hq) as (t' & ? & ?). simplify_eq. lia. }
  split_and!; [|done|done|].
  - split; cbn [arena tasks PushMethod].
    + intros i q [Hq|[? [? ->]%list_lookup_singleton_Some]]%lookup_app_Some.
      * rewrite list_lookup_alter_ne by (symmetry; eauto). by apply (wf_slot _ Hw).
      * rewrite list_lookup_alter_eq, Hp. eexists. split; [done|]. cbn. lia.
    + intros q t'. destruct (decide (q = p)) as [->|Hq].
      * rewrite list_lookup_alter_eq, Hp. intros [= <-]. right. exists (length (tasks h)). split; [done|].
        by apply list_lookup_middle.
      * rewrite list_lookup_alter_ne by done. intros Ht.
        destruct (wf_task _ Hw _ _ Ht) as [?|(i & ? & Hqi)]; [by left|]. right. exists i. split; [done|].
        by apply lookup_app_l_Some.
  - intros k Hk. unfold K. cbn [tasks PushMethod]. rewrite lookup_app_l by done.
    destruct (tasks h !! k); [|done]. by apply core_key.
Qed.

Lemma HeapPush_ok p t h : Good h → arena h !! p = Some t → tindex t = -1 →
  ∃ h', HeapPush p h = Ok h' ∧ Good h' ∧ sameTasks h h' ∧ tasks h' ≡ₚ p :: tasks h.
Proof.
  intros [Hw Hh] Hp Hi. destruct (PushMethod_ok p t h Hw Hp Hi) as (Hw1 & Hs1 & Ht1 & HK1).
  assert (Len (PushMethod p h) = S (Len h)) as HL by (unfold Len; rewrite Ht1, length_app; cbn; lia).
  unfold HeapPush. destruct (up_ok (Len (PushMethod p h)) (Len (PushMethod p h)) (Len (PushMethod p h) - 1) (PushMethod p h))
    as (h' & -> & Hw' & Hr & Hh' & _); [done|lia..| |].
  - split.
    + intros k Hk Hkn. rewrite !HK1 by (unfold par; lia). apply Hh. lia.
    + intros c Hc _ Hp'. unfold par in Hp'. lia.
  - exists h'. split; [done|]. split; [split; [done|]|].
    + by rewrite (rearranged_Len _ _ Hr).
    + destruct Hr as [Hc Hpm]. split; [unfold sameTasks in *; congruence|].
      rewrite Hpm, Ht1. by rewrite Permutation_app_comm.
Qed.

(** What is left to do after the element to take out sits in the last slot. *)
Lemma heap_finish p n h h1 : HeapWF h1 → rearranged h h1 → Len h = S n → tasks h1 !! n = Some p → isHeap n h1 →
  ∃ h', PopMethod h1 = Ok (p, h') ∧ Good h' ∧ sameTasks h h' ∧ tasks h ≡ₚ p :: tasks h'.
Proof.
  intros Hw Hr HL Hn Hh. pose proof (rearranged_Len _ _ Hr) as HL1. rewrite HL in HL1.
  assert (∃ l, tasks h1 = l ++ [p] ∧ length l = n) as (l & Hl & Hln).
  { exists (take n (tasks h1)). unfold Len in *. split; [|rewrite length_take; lia].
    rewrite <- (take_S_r _ _ _ Hn). by rewrite take_ge by lia. }
  destruct (PopMethod_ok l p h1 Hw Hl) as (h' & -> & Hw' & Ht & Hs & HK).
  exists h'. split; [done|]. destruct Hr as [Hc Hpm]. split_and!.
  - split; [done|]. intros k. unfold Len. rewrite Ht, Hln. intros Hk.
    rewrite !HK by (unfold par; lia). by apply Hh.
  - unfold sameTasks in *. congruence.
  - rewrite <- Hpm, Hl, Ht. by rewrite Permutation_app_comm.
Qed.

Lemma HeapPop_ok h : Good h → Len h ≠ 0%nat →
  ∃ p h', HeapPop h = Ok (p, h') ∧ tasks h !! 0%nat = Some p ∧ Good h' ∧ sameTasks h h' ∧ tasks h ≡ₚ p :: tasks h'.
Proof.
  intros [Hw Hh] Hn0. unfold HeapPop. rewrite decide_False by done. set (n := (Len h - 1)%nat).
  destruct (lookup_lt_is_Some_2 (tasks h) 0) as [p Hp]; [unfold Len in *; lia|]. exists p.
  destruct (Swap_ok 0 n h) as (h1 & -> & Hw1 & Hr1 & Ht1 & HK1); [done|lia..|]. cbn [rbind].
  pose proof (rearranged_Len _ _ Hr1) as HL1.
  destruct (decide (n = 0%nat)) as [Hz|Hz].
  { rewrite Hz in *. cbn [down]. rewrite decide_True by lia. cbn [rbind].
    destruct (heap_finish p 0 h h1) as (h' & -> & ?); [done..|lia| |intros k; lia|naive_solver].
    by rewrite Ht1. }
  destruct (down_ok n (S n) 0 h1) as (k & h2 & -> & _ & Hw2 & Hr2 & Hh2 & Ht2); [done|lia..| |].
  { split; [|lia]. intros k Hk Hp0. rewrite !HK1. unfold sw.
    rewrite !decide_False by (unfold par in *; lia). apply Hh. lia. }
  cbn [rbind]. destruct (heap_finish p n h h2) as (h' & -> & ?); [done|by eapply rearranged_trans|lia| |done|naive_solver].
  rewrite Ht2 by lia. rewrite Ht1. unfold sw. rewrite decide_False, decide_True by lia. done.
Qed.

Lemma HeapRemove_ok i p h : Good h → tasks h !! i = Some p →
  ∃ h', HeapRemove i h = Ok (p, h') ∧ Good h' ∧ sameTasks h h' ∧ tasks h ≡ₚ p :: tasks h'.
Proof.
  intros [Hw Hh] Hp. pose proof (lookup_lt_Some _ _ _ Hp) as Hi. fold (Len h) in Hi.
  unfold HeapRemove. rewrite decide_False by lia. set (n := (Len h - 1)%nat).
  destruct (decide (n = i)) as [Hni|Hni].
  { cbn [rbind]. apply (heap_finish p n); [done|apply rearranged_refl|lia|by rewrite Hni|].
    intros k Hk. apply Hh. lia. }
  destruct (Swap_ok i n h) as (h1 & -> & Hw1 & Hr1 & Ht1 & HK1); [done|lia..|]. cbn [rbind].
  pose proof (rearranged_Len _ _ Hr1) as HL1.
  assert (tasks h1 !! n = Some p) as Hn1.
  { rewrite Ht1. unfold sw. by rewrite decide_False, decide_True by lia. }
  assert (∀ k, (0 < k < n)%nat → k ≠ i → par k ≠ i → K h1 (par k) ≤ K h1 k) as Ha.
  { intros k Hk Hki Hpk. rewrite !HK1. unfold sw.
    rewrite !decide_False by (unfold par in *; lia). apply Hh. lia. }
  assert (∀ c, (0 < c < n)%nat → (0 < i)%nat → par c = i → K h1 (par i) ≤ K h1 c) as Hb.
  { intros c Hc Hi0 Hpc. rewrite !HK1. unfold sw.
    rewrite !decide_False by (unfold par in *; lia). trans (K h i); [apply Hh; lia|].
    rewrite <- Hpc. apply Hh. lia. }
  destruct (down_step n n i h1) as [[-> Hc]|(j & h2 & -> & Hj & Hw2 & Hr2 & Hd & Ht2)]; [done|lia..|done| |].
  - cbn [rbind]. rewrite decide_False by lia.
    destruct (up_ok n (S i) i h1) as (h2 & -> & Hw2 & Hr2 & Hh2 & Ht2); [done|lia..| |].
    { split; [|done]. intros k Hk Hki. destruct (decide (par k = i)) as [Hpk|]; [rewrite Hpk; by apply Hc|by apply Ha]. }
    cbn [rbind]. apply (heap_finish p n); [done|by eapply rearranged_trans|lia| |done]. by rewrite Ht2 by lia.
  - pose proof (rearranged_Len _ _ Hr2) as HL2.
    destruct (down_ok n n j h2) as (k & h3 & -> & Hk & Hw3 & Hr3 & Hh3 & Ht3); [done|lia..|done|].
    cbn [rbind]. rewrite decide_True by lia. cbn [rbind].
    apply (heap_finish p n); [done|by do 2 (eapply rearranged_trans; [done|])|lia| |done].
    by rewrite Ht3, Ht2 by lia.
Qed.

(** The first slot holds a task that is due no later than any other. *)
Lemma head_min h i : isHeap (Len h) h → (i < Len h)%nat → K h 0 ≤ K h i.
Proof.
  intros Hh. induction i as [i IH] using lt_wf_ind. intros Hi. destruct (decide (i = 0%nat)) as [->|Hi0]; [lia|].
  trans (K h (par i)); [apply IH; unfold par; lia|apply Hh; lia].
Qed.
