(* ===== verification/TimerThm.v ===== *)
(** * The timer scheduler, proved

    The collecting section returns exactly the tasks that are due, in order; a
    timer never fires early, a one-shot timer never fires twice, a cancelled
    timer is gone unless the loop had already collected it, and the loop is
    never asleep past the time a pending task is due. *)

From S2P Require Import Prelude Timer TimerHeap.

(** ** Attributes of tasks *)

Definition cancOf (h : taskHeap) (p : nat) : bool := from_option cancelled true (arena h !! p).
Definition itvOf (h : taskHeap) (p : nat) : Z := from_option interval 0 (arena h !! p).

Lemma same_attr h h' p : sameTasks h h' →
  key h' p = key h p ∧ cancOf h' p = cancOf h p ∧ itvOf h' p = itvOf h p ∧ length (arena h') = length (arena h).
Proof.
  intros Hs. split; [by apply core_key|]. unfold cancOf, itvOf. split_and!.
  3: { apply (f_equal length) in Hs. by rewrite !length_fmap in Hs. }
  all: destruct (arena h !! p) as [t|] eqn:E;
    [destruct (core_lookup _ _ _ _ Hs E) as (t' & -> & (_ & _ & ? & _ & ?)%core_fields); done|];
    apply (f_equal (fun l => l !! p)) in Hs; rewrite !list_lookup_fmap, E in Hs; by destruct (arena h' !! p).
Qed.

Lemma in_heap h p : HeapWF h → p ∈ tasks h → ∃ t, arena h !! p = Some t ∧ 0 ≤ tindex t.
Proof.
  intros Hw [i Hi]%list_elem_of_lookup. destruct (wf_slot _ Hw _ _ Hi) as (t & ? & ?). exists t. split; [done|lia].
Qed.

Lemma not_in_heap h p t : HeapWF h → arena h !! p = Some t → p ∉ tasks h → tindex t = -1.
Proof.
  intros Hw Ht Hn. destruct (wf_task _ Hw _ _ Ht) as [?|(i & _ & Hi)]; [done|].
  by apply list_elem_of_lookup_2 in Hi.
Qed.

Lemma head_least h p q : Good h → tasks h !! 0%nat = Some p → q ∈ tasks h → key h p ≤ key h q.
Proof.
  intros [Hw Hh] Hp [i Hi]%list_elem_of_lookup. pose proof (head_min h i Hh (lookup_lt_Some _ _ _ Hi)) as H.
  unfold K in H. by rewrite Hp, Hi in H.
Qed.

(** ** Collecting *)

Lemma collect_ok fuel now h : Good h → (Len h < fuel)%nat →
  ∃ popped h', collect fuel now h = Ok (filter (fun p => cancOf h p = false) popped, h') ∧ Good h' ∧ sameTasks h h' ∧
    tasks h ≡ₚ popped ++ tasks h' ∧ StronglySorted (fun p q => key h p ≤ key h q) popped ∧
    Forall (fun p => key h p ≤ now) popped ∧ Forall (fun p => now < key h p) (tasks h').
Proof.
  revert h. induction fuel as [|fuel IH]; intros h Hg Hf; [lia|]. cbn [collect].
  destruct (decide (Len h = 0%nat)) as [Hz|Hz].
  { exists [], h. apply nil_length_inv in Hz. rewrite Hz. split_and!; try done; constructor. }
  destruct (at_ok h 0 (proj1 Hg)) as (p & t & Hp & Ht & -> & Hk); [lia|]. cbn [rbind].
  assert (key h p = fireAt t) as Hkp by (unfold key; by rewrite Ht).
  destruct (now <? fireAt t) eqn:E.
  { apply Z.ltb_lt in E. exists [], h. split_and!; try done; try constructor.
    apply Forall_forall. intros q Hq. pose proof (head_least h p q Hg Hp Hq). lia. }
  apply Z.ltb_ge in E. destruct (HeapPop_ok h Hg Hz) as (p' & h1 & -> & Hp' & Hg1 & Hs1 & Hperm). rewrite Hp in Hp'. injection Hp' as <-.
  cbn [rbind]. destruct (core_lookup _ _ _ _ Hs1 Ht) as (t1 & Ht1 & (_ & _ & _ & _ & Hc)%core_fields). rewrite Ht1.
  destruct (IH h1 Hg1) as (popped & h' & -> & Hg' & Hs' & Hperm' & Hsort & Hdue & Hrest).
  { apply Permutation_length in Hperm. cbn in Hperm. unfold Len in *. lia. }
  cbn [rbind]. exists (p :: popped), h'.
  assert (∀ q, key h1 q = key h q ∧ cancOf h1 q = cancOf h q) as Hat by (intros q; destruct (same_attr _ _ q Hs1); naive_solver).
  split_and!; [|done|unfold sameTasks in *; congruence|by rewrite Hperm, Hperm'| | |].
  - f_equal. f_equal. assert (cancOf h p = cancelled t1) as Hcp by (unfold cancOf; by rewrite Ht).
    assert (filter (λ p, cancOf h1 p = false) popped = filter (λ p, cancOf h p = false) popped) as ->.
    { apply list_filter_iff. intros q. by rewrite (proj2 (Hat q)). }
    destruct (cancelled t1); [by rewrite filter_cons_False by congruence|by rewrite filter_cons_True by done].
  - constructor.
    + clear -Hsort Hat. induction Hsort as [|a l Hl IHl Ha]; constructor; [done|].
      eapply Forall_impl; [exact Ha|]. intros b. cbn. by rewrite !(proj1 (Hat _)).
    + apply Forall_forall. intros q Hq. apply (head_least h); [done..|]. rewrite Hperm. right.
      rewrite Hperm'. apply elem_of_app. by left.
  - constructor; [lia|]. eapply Forall_impl; [exact Hdue|]. intros q. cbn. by rewrite (proj1 (Hat _)).
  - eapply Forall_impl; [exact Hrest|]. intros q. cbn. by rewrite (proj1 (Hat _)).
Qed.

(** ** The system: the loop, its callers and the clock *)

Inductive sstep : Z * Scheduler → Z * Scheduler → Prop :=
| ss_time now now' s : now ≤ now' → sstep (now, s) (now', s)
| ss_add now t0 first itv f p s s' : t0 ≤ now → add t0 first itv f s = Ok (p, s') → sstep (now, s) (now, s')
| ss_cancel now p s s' : Cancel p s = Ok s' → sstep (now, s) (now, s')
| ss_close now s : sstep (now, s) (now, Close s)
| ss_loop now s s' : loopStep now s (Ok s') → sstep (now, s) (now, s').

Definition sreach : Z * Scheduler → Z * Scheduler → Prop := rtc sstep.

(** What the loop has collected and not handed to the executor yet, and the
    task it is about to re-arm. *)
Definition pend (s : Scheduler) : list nat :=
  match loopAt s with Firing _ due | Rearming _ _ due => due | _ => [] end.
Definition cur (s : Scheduler) : list nat :=
  match loopAt s with Rearming _ p _ => [p] | _ => [] end.
Definition collectedAt (s : Scheduler) : option Z :=
  match loopAt s with Collecting t | Firing t _ | Rearming t _ _ => Some t | _ => None end.
(** The callbacks handed over, by task. *)
Definition ran (s : Scheduler) : list nat := (fun x => x.1.1) <$> fired s.

Record SInv (now : Z) (s : Scheduler) : Prop := {
  si_good : Good (heap s);
  si_nodup : NoDup (cur s ++ pend s);
  si_out p : p ∈ cur s ++ pend s → (p < length (arena (heap s)))%nat ∧ p ∉ tasks (heap s);
  si_live p : p ∈ tasks (heap s) → cancOf (heap s) p = false;
  si_time t : collectedAt s = Some t → t ≤ now;
  si_due t p : collectedAt s = Some t → p ∈ pend s → key (heap s) p ≤ t;
  si_fired p a t : (p, a, t) ∈ fired s → a ≤ t ∧ t ≤ now ∧ (p < length (arena (heap s)))%nat;
  si_once p : itvOf (heap s) p ≤ 0 → (count p (ran s) ≤ 1)%nat ∧ (p ∈ tasks (heap s) ++ pend s → p ∉ ran s);
  si_cur p : p ∈ cur s → p ∈ ran s;
  si_kept p : closed s = false → (p < length (arena (heap s)))%nat → cancOf (heap s) p = false →
    p ∈ tasks (heap s) ++ cur s ++ pend s ∨ itvOf (heap s) p ≤ 0 ∧ p ∈ ran s;
  si_wait d : loopAt s = Waiting d → wake s = true ∨ d ≤ now ∨ ∀ p, p ∈ tasks (heap s) → d ≤ key (heap s) p;
  si_stop : stop s = closed s;
  si_ret : loopAt s = Returned → closed s = true }.

Lemma Good_empty : Good (mkHeap [] []).
Proof. split; [split; by intros []|intros k; cbn; lia]. Qed.

Lemma SInv_New now : SInv now NewScheduler.
Proof.
  split; cbn; try done; try set_solver; try lia; try (by constructor); try apply Good_empty.
Qed.

Lemma SInv_time now now' s : now ≤ now' → SInv now s → SInv now' s.
Proof.
  intros Hn [? ? ? ? Ht ? Hf ? ? ? Hw ? ?]. split; try done.
  - intros t H%Ht. lia.
  - intros p a t Hp. destruct (Hf p a t Hp) as (? & ? & ?). split_and!; [done|lia|done].
  - intros d Hd. destruct (Hw d Hd) as [?|[?|?]]; [by left|right; left; lia|by right; right].
Qed.

(** ** Steps of the callers *)

Lemma alloc_ok h t : Good h → tindex t = -1 → Good (mkHeap (arena h ++ [t]) (tasks h)).
Proof.
  intros [Hw Hh] Ht.
  assert (∀ p, p ∈ tasks h → key (mkHeap (arena h ++ [t]) (tasks h)) p = key h p) as Hk.
  { intros p (t' & Ht' & _)%(in_heap h p Hw). unfold key. cbn [arena].
    by rewrite lookup_app_l by (by eapply lookup_lt_Some). }
  split; [split|].
  - intros i p Hi. destruct (wf_slot _ Hw _ _ Hi) as (t' & ? & ?). exists t'. split; [|done].
    by apply lookup_app_l_Some.
  - cbn [arena tasks]. intros p t' [Hp|[_ [_ <-]%list_lookup_singleton_Some]]%lookup_app_Some; [|by left].
    by apply (wf_task _ Hw).
  - intros k Hkn. specialize (Hh k Hkn). unfold K in *. cbn [tasks] in *.
    destruct (lookup_lt_is_Some_2 (tasks h) k) as [p Hp]; [unfold Len in *; cbn in *; lia|].
    destruct (lookup_lt_is_Some_2 (tasks h) (par k)) as [q Hq].
    { pose proof (par_lt k). unfold Len in *. cbn in *. lia. }
    rewrite Hp, Hq in *. cbn [from_option] in *. rewrite !Hk by (by eapply list_elem_of_lookup_2). done.
Qed.

Lemma alloc_attr h t p : (p < length (arena h))%nat →
  let h' := mkHeap (arena h ++ [t]) (tasks h) in
  key h' p = key h p ∧ cancOf h' p = cancOf h p ∧ itvOf h' p = itvOf h p.
Proof. intros Hp. unfold key, cancOf, itvOf. cbn [arena]. by rewrite !lookup_app_l by done. Qed.

Lemma alloc_new h t :
  let h' := mkHeap (arena h ++ [t]) (tasks h) in
  let p := length (arena h) in
  arena h' !! p = Some t ∧ key h' p = fireAt t ∧ cancOf h' p = cancelled t ∧ itvOf h' p = interval t.
Proof. unfold key, cancOf, itvOf. cbn [arena]. by rewrite list_lookup_middle by done. Qed.

Lemma ran_bound now s p : SInv now s → p ∈ ran s → (p < length (arena (heap s)))%nat.
Proof.
  intros Hi ([[q a] t] & -> & Hf)%list_elem_of_fmap. by destruct (si_fired _ _ Hi q a t Hf) as (_ & _ & ?).
Qed.

Lemma tasks_bound now s p : SInv now s → p ∈ tasks (heap s) → (p < length (arena (heap s)))%nat.
Proof. intros Hi Hp. destruct (in_heap _ _ (proj1 (si_good _ _ Hi)) Hp) as (t & Ht & _). by eapply lookup_lt_Some. Qed.

(** A state whose loop and history are those of [s]. *)
Definition sameLoop (s s' : Scheduler) : Prop :=
  loopAt s' = loopAt s ∧ fired s' = fired s ∧ closed s' = closed s ∧ stop s' = stop s.

(** Cancelled tasks stay cancelled. *)
Definition keepsCanc (s s' : Scheduler) : Prop :=
  ∀ q, (q < length (arena (heap s)))%nat → cancOf (heap s) q = true →
    (q < length (arena (heap s')))%nat ∧ cancOf (heap s') q = true.

Section Alloc.
Context (now : Z) (s s' : Scheduler) (t : task).
Let n := length (arena (heap s)).
Let h0 := mkHeap (arena (heap s) ++ [t]) (tasks (heap s)).
Context (Hi : SInv now s) (Hg : Good (heap s')) (Hs : sameTasks h0 (heap s')) (Hc : cancelled t = closed s)
  (Hel : ∀ q, q ∈ tasks (heap s') ↔ q ∈ tasks (heap s) ∨ (closed s = false ∧ q = n))
  (Hl : sameLoop s s')
  (Hwk : ∀ d, loopAt s = Waiting d →
     wake s' = true ∨ (wake s' = wake s ∧ (closed s = false → d ≤ now ∨ wake s = true ∨ d ≤ fireAt t))).

Lemma alloc_length : length (arena (heap s')) = S n.
Proof. destruct (same_attr _ _ 0%nat Hs) as (_ & _ & _ & ->). cbn. rewrite length_app. cbn. lia. Qed.

Lemma alloc_old q : (q < n)%nat →
  key (heap s') q = key (heap s) q ∧ cancOf (heap s') q = cancOf (heap s) q ∧ itvOf (heap s') q = itvOf (heap s) q.
Proof. intros Hq. destruct (same_attr _ _ q Hs) as (-> & -> & -> & _). by apply alloc_attr. Qed.

Lemma alloc_fresh : key (heap s') n = fireAt t ∧ cancOf (heap s') n = closed s.
Proof.
  destruct (same_attr _ _ n Hs) as (-> & -> & _ & _). destruct (alloc_new (heap s) t) as (_ & ? & ? & _).
  by rewrite <- Hc.
Qed.

Lemma alloc_keeps : keepsCanc s s'.
Proof. intros q Hq Hcq. rewrite alloc_length. split; [unfold n; lia|]. by destruct (alloc_old q Hq) as (_ & -> & _). Qed.

Lemma alloc_SInv : SInv now s'.
Proof.
  pose proof alloc_length as Hlen. pose proof alloc_old as Hold. pose proof alloc_fresh as [Hnk Hnc].
  destruct Hl as (HL & HF & HC & HS).
  assert (∀ q, q ∈ cur s ++ pend s → (q < n)%nat) as Hb by (intros q Hq; by apply (si_out _ _ Hi)).
  assert (∀ q, q ∈ tasks (heap s) → (q < n)%nat) as Hbt by (intros q Hq; by apply (tasks_bound _ _ _ Hi)).
  assert (∀ q, q ∈ ran s → (q < n)%nat) as Hbr by (intros q Hq; by apply (ran_bound _ _ _ Hi)).
  split; unfold cur, pend, collectedAt, ran in *; rewrite ?HL, ?HF, ?HC, ?HS; try apply Hi.
  - done.
  - intros q Hq. pose proof (Hb q Hq). destruct (si_out _ _ Hi q Hq) as [_ Hnt]. split; [lia|].
    rewrite Hel. intros [?|[_ ->]]; [done|lia].
  - intros q [Hq|[Hcl ->]]%Hel; [|congruence].
    destruct (Hold q) as (_ & -> & _); [auto|]. by apply (si_live _ _ Hi).
  - intros t1 q Ht1 Hq. destruct (Hold q) as (-> & _); [apply Hb, elem_of_app; by right|]. by apply (si_due _ _ Hi).
  - intros q a t1 Hq. destruct (si_fired _ _ Hi q a t1 Hq) as (? & ? & ?). split_and!; [done..|lia].
  - intros q Hq. destruct (decide (q < n)%nat) as [Hqn|Hqn].
    + destruct (Hold q Hqn) as (_ & _ & Hqi). rewrite Hqi in Hq. destruct (si_once _ _ Hi q Hq) as [Hc1 Hr].
      split; [done|]. rewrite elem_of_app, Hel. intros [[?|[_ ->]]|?]; [|lia|]; apply Hr, elem_of_app; auto.
    + assert (q ∉ ran s) as Hnr by (intros Hr%Hbr; lia). split; [|done].
      unfold count. rewrite filter_none; [cbn; lia|]. apply Forall_forall. intros x Hx ->. done.
  - intros q Hcl Hq Hcq. destruct (decide (q < n)%nat) as [Hqn|Hqn].
    + destruct (Hold q Hqn) as (_ & Hqc & Hqi). rewrite Hqc in Hcq. rewrite Hqi.
      destruct (si_kept _ _ Hi q Hcl Hqn Hcq) as [Hin|?]; [left|by right].
      rewrite !elem_of_app in *. rewrite Hel. unfold cur, pend in Hin. tauto.
    + assert (q = n) as -> by lia. left. rewrite !elem_of_app, Hel. left. by right.
  - intros d Hd. destruct (Hwk d Hd) as [?|[-> Hx]]; [by left|].
    destruct (si_wait _ _ Hi d Hd) as [?|[?|Hall]]; [by left|right; by left|].
    destruct (closed s) eqn:Hcl.
    + right. right. intros q [Hq|[? _]]%Hel; [|done]. destruct (Hold q) as (-> & _); auto.
    + destruct (Hx eq_refl) as [?|[?|?]]; [right; by left|by left|]. right. right.
      intros q [Hq|[_ ->]]%Hel; [destruct (Hold q) as (-> & _); auto|lia].
Qed.
End Alloc.

(** A pushed task that does not end up first is due no earlier than another. *)
Lemma push_behind h h' n : Good h' → tasks h' ≡ₚ n :: tasks h → tasks h' !! 0%nat ≠ Some n →
  ∃ q, q ∈ tasks h ∧ key h' q ≤ key h' n.
Proof.
  intros Hg Hperm Hne. destruct (lookup_lt_is_Some_2 (tasks h') 0) as [q Hq].
  { apply Permutation_length in Hperm. rewrite Hperm. cbn. lia. }
  exists q. split; [|apply head_least; [done..|]; rewrite Hperm; by left].
  apply list_elem_of_lookup_2 in Hq as Hq'. rewrite Hperm in Hq'. apply elem_of_cons in Hq' as [->|?]; [congruence|done].
Qed.

Lemma add_SInv now t0 first itv f s : SInv now s →
  ∃ s', add t0 first itv f s = Ok (length (arena (heap s)), s') ∧ SInv now s' ∧ sameLoop s s' ∧ keepsCanc s s'.
Proof.
  intros Hi. pose proof (si_good _ _ Hi) as Hg.
  set (t := mkTask (if closed s then 0 else nextID s + 1) (t0 + first) itv f (-1) (closed s)).
  pose proof (alloc_ok (heap s) t Hg eq_refl) as Hg0. pose proof (alloc_new (heap s) t) as (Hn & Hnk & _).
  cbn zeta in *. set (h0 := mkHeap (arena (heap s) ++ [t]) (tasks (heap s))) in *.
  set (n := length (arena (heap s))) in *. unfold add. fold n. destruct (closed s) eqn:Hcl.
  - eexists. split; [done|]. split_and!; [|done..|by apply (alloc_keeps s _ t)].
    apply (alloc_SInv now s _ t); try done.
    + intros q. rewrite Hcl. split; [by left|by intros [?|[? _]]].
    + intros d Hd. right. split; [done|by rewrite Hcl].
  - cbn [heap set_nextID nextID]. change (mkTask (nextID s + 1) _ _ _ _ false) with t. fold h0.
    destruct (HeapPush_ok n t h0 Hg0 Hn eq_refl) as (h' & -> & Hg' & Hs' & Hperm).
    cbn [rbind]. eexists. split; [done|]. set (b := _ || _).
    assert (∀ (b : bool) (x : Scheduler), heap (if b then signal x else x) = heap x ∧ sameLoop x (if b then signal x else x)) as Hsig by (by intros []).
    split_and!; [|by destruct b..|apply (alloc_keeps s _ t); by rewrite (proj1 (Hsig _ _))].
    apply (alloc_SInv now s _ t); try done.
    + by rewrite (proj1 (Hsig _ _)).
    + by rewrite (proj1 (Hsig _ _)).
    + intros q. rewrite (proj1 (Hsig _ _)). cbn [heap set_heap]. rewrite Hperm, Hcl. cbn [tasks h0]. set_solver.
    + by destruct b.
    + intros d Hd. destruct b eqn:Hb; [by left|]. right. split; [done|]. intros _.
      apply orb_false_iff in Hb as [_ Hnh]. apply bool_decide_eq_false in Hnh.
      destruct (si_wait _ _ Hi d Hd) as [?|[?|Hall]]; [right; by left|by left|]. right. right.
      destruct (push_behind h0 h' n Hg' Hperm Hnh) as (q & Hq & Hmin).
      destruct (same_attr _ _ q Hs') as (Ek & _). destruct (same_attr _ _ n Hs') as (Ek' & _).
      destruct (alloc_attr (heap s) t q) as (Ek2 & _); [by apply (tasks_bound _ _ _ Hi)|].
      fold h0 in Ek2. specialize (Hall q Hq). rewrite <- Hnk. lia.
Qed.

(** Marking a task cancelled. *)
Lemma mark_ok h p : Good h → Good (mkHeap (alter set_cancelled p (arena h)) (tasks h)).
Proof.
  intros [Hw Hh]. assert (∀ q, key (mkHeap (alter set_cancelled p (arena h)) (tasks h)) q = key h q) as Hk.
  { intros q. unfold key. cbn [arena]. rewrite list_lookup_alter. case_decide; [subst|done]. by destruct (arena h !! q). }
  split; [split|].
  - intros i q Hi. destruct (wf_slot _ Hw _ _ Hi) as (t & Ht & ?). cbn [arena].
    rewrite list_lookup_alter. case_decide; [subst; rewrite Ht|]; eauto.
  - intros q t. cbn [arena tasks]. rewrite list_lookup_alter. case_decide; [subst|apply (wf_task _ Hw)].
    intros (t' & Ht' & ->)%fmap_Some. apply (wf_task _ Hw _ _ Ht').
  - intros k Hkn. specialize (Hh k Hkn). unfold K in *. cbn [tasks].
    destruct (tasks h !! k), (tasks h !! par k); cbn in *; rewrite ?Hk; done.
Qed.

Lemma mark_attr h p q :
  let h' := mkHeap (alter set_cancelled p (arena h)) (tasks h) in
  key h' q = key h q ∧ itvOf h' q = itvOf h q ∧ cancOf h' q = (cancOf h q || bool_decide (q = p)) ∧
  length (arena h') = length (arena h).
Proof.
  unfold key, itvOf, cancOf. cbn [arena]. rewrite length_alter, list_lookup_alter. destruct (decide (p = q)) as [->|Hne].
  - rewrite bool_decide_true by done. destruct (arena h !! q); cbn; rewrite ?orb_true_r; done.
  - rewrite bool_decide_false by done. by rewrite orb_false_r.
Qed.

Lemma drop_SInv now p s s' : SInv now s → Good (heap s') → sameLoop s s' → wake s' = wake s →
  length (arena (heap s')) = length (arena (heap s)) →
  (∀ q, key (heap s') q = key (heap s) q ∧ itvOf (heap s') q = itvOf (heap s) q ∧
        cancOf (heap s') q = (cancOf (heap s) q || bool_decide (q = p))) →
  (∀ q, q ∈ tasks (heap s') ↔ q ∈ tasks (heap s) ∧ q ≠ p) → SInv now s'.
Proof.
  intros Hi Hg (HL & HF & HC & HS) Hwk Hlen Hat Hel.
  assert (∀ q, key (heap s') q = key (heap s) q) as Hk by apply Hat.
  assert (∀ q, itvOf (heap s') q = itvOf (heap s) q) as Hv by (intros q; apply Hat).
  assert (∀ q, cancOf (heap s') q = (cancOf (heap s) q || bool_decide (q = p))) as Hc by (intros q; apply Hat).
  split; unfold cur, pend, collectedAt, ran in *; rewrite ?HL, ?HF, ?HC, ?HS, ?Hwk, ?Hlen; try apply Hi.
  - done.
  - intros q Hq. destruct (si_out _ _ Hi q Hq) as [? ?]. split; [done|]. rewrite Hel. tauto.
  - intros q [Hq Hne]%Hel. rewrite Hc, (si_live _ _ Hi q Hq). by rewrite bool_decide_false.
  - intros t q. rewrite Hk. apply (si_due _ _ Hi).
  - intros q. rewrite Hv. intros Hq. destruct (si_once _ _ Hi q Hq) as [? Hr]. split; [done|].
    rewrite elem_of_app, Hel. intros Hin. apply Hr, elem_of_app. unfold pend. tauto.
  - intros q Hcl Hq. rewrite Hc, Hv. intros [Hcq Hne%bool_decide_eq_false]%orb_false_iff.
    destruct (si_kept _ _ Hi q Hcl Hq Hcq) as [Hin|?]; [left|by right].
    rewrite !elem_of_app in *. rewrite Hel. unfold cur, pend in Hin. tauto.
  - intros d Hd. destruct (si_wait _ _ Hi d Hd) as [?|[?|Hall]]; [by left|right; by left|right; right].
    intros q [Hq _]%Hel. rewrite Hk. auto.
Qed.

Lemma Cancel_SInv now p s : SInv now s → (p < length (arena (heap s)))%nat →
  ∃ s', Cancel p s = Ok s' ∧ SInv now s' ∧ sameLoop s s' ∧
    p ∉ tasks (heap s') ∧ cancOf (heap s') p = true ∧ length (arena (heap s')) = length (arena (heap s)) ∧ keepsCanc s s'.
Proof.
  intros Hi Hp. pose proof (si_good _ _ Hi) as Hg. destruct (lookup_lt_is_Some_2 _ _ Hp) as [t Ht].
  unfold Cancel. rewrite Ht. destruct (cancelled t) eqn:Ec.
  { assert (cancOf (heap s) p = true) as Hcp by (unfold cancOf; by rewrite Ht).
    exists s. split_and!; try done. intros Hin%(si_live _ _ Hi). congruence. }
  pose proof (mark_ok (heap s) p Hg) as Hg1. pose proof (mark_attr (heap s) p) as Hat. cbn zeta in Hat.
  set (h1 := mkHeap (alter set_cancelled p (arena (heap s))) (tasks (heap s))) in *.
  assert (cancOf h1 p = true) as Hc1.
  { destruct (Hat p) as (_ & _ & -> & _). rewrite bool_decide_true by done. apply orb_true_r. }
  destruct (wf_task _ (proj1 Hg) _ _ Ht) as [Hx|(i & Hx & Hin)].
  - rewrite decide_False by (rewrite Hx; lia). eexists. split; [done|].
    assert (p ∉ tasks (heap s)) as Hnp by (intros (t' & ? & ?)%(in_heap _ _ (proj1 Hg)); simplify_eq; lia).
    split_and!; [|done..|cbn [heap set_heap]; by destruct (Hat 0%nat) as (_ & _ & _ & ->)|].
    2: { intros q Hq Hcq. cbn [heap set_heap]. destruct (Hat q) as (_ & _ & -> & ->). by rewrite Hcq. }
    apply (drop_SInv now p s); try done.
    + cbn [heap set_heap]. by destruct (Hat 0%nat) as (_ & _ & _ & ->).
    + intros q. destruct (Hat q) as (? & ? & ? & _). done.
    + intros q. cbn. split; [|tauto]. intros Hq. split; [done|]. by intros ->.
  - pose proof (lookup_lt_Some _ _ _ Hin) as Hlt. rewrite decide_True by (rewrite Hx; unfold Len; cbn; lia).
    rewrite Hx, Nat2Z.id.
    destruct (HeapRemove_ok i p h1 Hg1 Hin) as (h' & -> & Hg' & Hs' & Hperm). cbn [rbind].
    eexists. split; [done|]. pose proof (wf_NoDup _ (proj1 Hg1)) as Hnd. rewrite Hperm in Hnd.
    apply NoDup_cons in Hnd as [Hnp Hnd].
    split_and!; [|done|done|cbn; by destruct (same_attr _ _ p Hs') as (_ & -> & _)| |].
    2: { cbn [heap set_heap]. destruct (same_attr _ _ p Hs') as (_ & _ & _ & ->). by destruct (Hat 0%nat) as (_ & _ & _ & ->). }
    2: { intros q Hq Hcq. cbn [heap set_heap]. destruct (same_attr _ _ q Hs') as (_ & -> & _ & ->).
         destruct (Hat q) as (_ & _ & -> & ->). by rewrite Hcq. }
    apply (drop_SInv now p s); try done; cbn [heap set_heap].
    + destruct (same_attr _ _ 0%nat Hs') as (_ & _ & _ & ->). by destruct (Hat 0%nat) as (_ & _ & _ & ->).
    + intros q. destruct (same_attr _ _ q Hs') as (-> & -> & -> & _). destruct (Hat q) as (? & ? & ? & _). done.
    + intros q. change (tasks (heap s)) with (tasks h1). rewrite Hperm, elem_of_cons. naive_solver.
Qed.

Lemma Close_SInv now s : SInv now s → SInv now (Close s).
Proof. intros Hi. unfold Close. destruct (closed s) eqn:E; [done|]. destruct Hi. by split. Qed.

(** ** Steps of the loop *)

(** Moving the loop without touching the heap. *)
Lemma move_SInv now s s' : SInv now s → heap s' = heap s → fired s' = fired s → closed s' = closed s → stop s' = stop s →
  cur s' = [] → cur s = [] → pend s' = [] → pend s = [] →
  (∀ t, collectedAt s' = Some t → t ≤ now) →
  (∀ d, loopAt s' = Waiting d → wake s' = true ∨ d ≤ now ∨ ∀ p, p ∈ tasks (heap s) → d ≤ key (heap s) p) →
  (loopAt s' = Returned → closed s = true) → SInv now s'.
Proof.
  intros Hi Hh HF HC HS Hc' Hc Hp' Hp Ht Hw Hr.
  split; unfold ran; rewrite ?Hh, ?HF, ?HC, ?HS, ?Hc', ?Hp'; try done; try apply Hi; try set_solver.
  - constructor.
  - intros p Hv. destruct (si_once _ _ Hi p Hv) as [H1 H2]. split; [done|]. by rewrite Hp in H2.
  - intros p H1 H2 H3. pose proof (si_kept _ _ Hi p H1 H2 H3) as H. by rewrite Hc, Hp in H.
Qed.

Lemma loopTop_SInv now s : SInv now s → loopAt s = AtTop → ∃ s', loopTop now s = Ok s' ∧ SInv now s'.
Proof.
  intros Hi Hl. unfold loopTop. assert (cur s = [] ∧ pend s = []) as [? ?] by (unfold cur, pend; by rewrite Hl).
  destruct (closed s) eqn:Ec; [eexists; split; [done|]; by apply (move_SInv now s)|].
  destruct (decide (Len (heap s) = 0%nat)) as [Hz|Hz].
  { eexists. split; [done|]. apply (move_SInv now s); try done. intros d _. right. right.
    intros p Hp. apply nil_length_inv in Hz. rewrite Hz in Hp. by apply elem_of_nil in Hp. }
  destruct (at_ok (heap s) 0 (proj1 (si_good _ _ Hi))) as (p & t & Hp & Ht & -> & Hk); [lia|]. cbn [rbind].
  eexists. split; [done|]. apply (move_SInv now s); try done. cbn [loopAt set_pc]. intros d [= <-].
  destruct (fireAt t - now <? 0) eqn:E; [right; left; lia|]. right. right. intros q Hq.
  pose proof (head_least _ _ _ (si_good _ _ Hi) Hp Hq) as Hm. unfold K in Hk. rewrite Hp in Hk. cbn in Hk. lia.
Qed.

Lemma loopCollect_SInv now t s : SInv now s → loopAt s = Collecting t →
  ∃ due s', loopCollect t s = Ok s' ∧ SInv now s' ∧ loopAt s' = Firing t due ∧ closed s' = closed s ∧
    fired s' = fired s ∧ (∀ p, key (heap s') p = key (heap s) p) ∧ StronglySorted (fun p q => key (heap s) p ≤ key (heap s) q) due ∧
    (∀ p, p ∈ due ↔ p ∈ tasks (heap s) ∧ key (heap s) p ≤ t) ∧
    (∀ p, p ∈ tasks (heap s') ↔ p ∈ tasks (heap s) ∧ t < key (heap s) p) ∧ keepsCanc s s'.
Proof.
  intros Hi Hl. unfold loopCollect.
  destruct (collect_ok (S (Len (heap s))) t (heap s) (si_good _ _ Hi)) as (due & h' & -> & Hg' & Hs' & Hperm & Hsort & Hdue & Hrest); [lia|].
  cbn [rbind]. exists due. eexists. split; [done|].
  assert (∀ p, p ∈ tasks (heap s) ↔ p ∈ due ∨ p ∈ tasks h') as Hel by (intros p; rewrite Hperm; apply elem_of_app).
  rewrite filter_all by (apply Forall_forall; intros p Hp; apply (si_live _ _ Hi), Hel; by left).
  rewrite Forall_forall in Hdue, Hrest. pose proof (wf_NoDup _ (proj1 (si_good _ _ Hi))) as Hnd. rewrite Hperm in Hnd.
  apply NoDup_app in Hnd as (Hnd & Hdis & _).
  assert (∀ q, key h' q = key (heap s) q ∧ cancOf h' q = cancOf (heap s) q ∧ itvOf h' q = itvOf (heap s) q ∧ length (arena h') = length (arena (heap s))) as Hat
    by (intros q; by apply same_attr).
  destruct (Hat 0%nat) as (_ & _ & _ & Hlen).
  split_and!; [|done..|intros p; by destruct (Hat p)|done| | |].
  - split; cbn [heap set_pc set_heap loopAt fired closed stop wake cur pend collectedAt app] in *; rewrite ?Hlen; try done.
    + intros p Hp. split; [apply (tasks_bound _ _ _ Hi), Hel; by left|]. by apply Hdis.
    + intros p Hp. destruct (Hat p) as (_ & -> & _). apply (si_live _ _ Hi), Hel. by right.
    + intros ? [= <-]. apply (si_time _ _ Hi). unfold collectedAt. by rewrite Hl.
    + intros ? p [= <-] Hp. destruct (Hat p) as (-> & _). by apply Hdue.
    + apply (si_fired _ _ Hi).
    + intros p. destruct (Hat p) as (_ & _ & -> & _). intros Hv. destruct (si_once _ _ Hi p Hv) as [? Hr]. split; [done|].
      rewrite elem_of_app. intros Hp. apply Hr, elem_of_app. left. apply Hel. unfold pend in Hp. cbn in Hp. tauto.
    + set_solver.
    + intros p Hc Hp. destruct (Hat p) as (_ & -> & -> & _). intros Hcp.
      destruct (si_kept _ _ Hi p Hc Hp Hcp) as [Hin|?]; [left|by right].
      unfold cur, pend in Hin |- *. cbn. rewrite Hl in Hin. rewrite !app_nil_r in Hin. rewrite elem_of_app.
      apply Hel in Hin. tauto.
    + apply (si_stop _ _ Hi).
  - intros p. rewrite Hel. split; [intros Hp; split; [by left|by apply Hdue]|].
    intros [[?|Hp] Hk]; [done|]. specialize (Hrest p Hp). lia.
  - intros p. cbn. rewrite Hel. split; [intros Hp; split; [by right|by apply Hrest]|].
    intros [[Hp|?] Hk]; [|done]. specialize (Hdue p Hp). lia.
  - intros q Hq Hcq. cbn. destruct (Hat q) as (_ & -> & _ & ->). done.
Qed.

Lemma fire_SInv now t p due s : SInv now s → loopAt s = Firing t (p :: due) →
  ∃ s', fire t p due s = Ok s' ∧ SInv now s' ∧ loopAt s' = Rearming t p due ∧ heap s' = heap s ∧ closed s' = closed s ∧
    fired s' = fired s ++ [(p, key (heap s) p, t)].
Proof.
  intros Hi Hl. assert (cur s = [] ∧ pend s = p :: due) as [Hc Hp] by (unfold cur, pend; by rewrite Hl).
  destruct (si_out _ _ Hi p) as [Hlt Hnt]; [rewrite Hc, Hp; by left|].
  destruct (lookup_lt_is_Some_2 _ _ Hlt) as [tk Htk]. unfold fire. rewrite Htk. eexists. split; [done|].
  assert (key (heap s) p = fireAt tk) as Hk by (unfold key; by rewrite Htk). rewrite Hk.
  pose proof (si_nodup _ _ Hi) as Hnd. rewrite Hc, Hp in Hnd. cbn in Hnd. apply NoDup_cons in Hnd as [Hpd Hnd].
  assert (collectedAt s = Some t) as Hct by (unfold collectedAt; by rewrite Hl).
  split_and!; [|done..]. 
  split; unfold cur, pend, collectedAt, ran; cbn [heap loopAt fired closed stop wake app]; try done; try apply Hi.
  - by constructor.
  - intros q Hq. apply (si_out _ _ Hi). by rewrite Hc, Hp.
  - intros ? [= <-]. by apply (si_time _ _ Hi).
  - intros ? q [= <-] Hq. apply (si_due _ _ Hi); [done|]. rewrite Hp. by right.
  - intros q a t'. rewrite elem_of_app, list_elem_of_singleton. intros [Hq|[= -> -> ->]]; [by apply (si_fired _ _ Hi)|].
    split_and!; [rewrite <- Hk; apply (si_due _ _ Hi); [done|rewrite Hp; by left]|by apply (si_time _ _ Hi)|done].
  - intros q Hv. destruct (si_once _ _ Hi q Hv) as [Hn Hr]. rewrite fmap_app. fold (ran s). cbn.
    rewrite count_app. rewrite elem_of_app in Hr. rewrite Hp in Hr. split.
    + destruct (decide (q = p)) as [->|Hne].
      * assert (count p (ran s) = 0%nat) as ->; [|unfold count; by rewrite filter_cons_True].
        unfold count. rewrite filter_none; [done|]. apply Forall_forall. intros x Hx ->. apply Hr; [right; by left|done].
      * unfold count at 2. rewrite filter_cons_False by done. cbn. lia.
    + intros Hin [Hrn| ->%list_elem_of_singleton]%elem_of_app.
      * apply Hr in Hrn; [done|]. apply elem_of_app in Hin as [?|?]; [by left|right; by right].
      * apply elem_of_app in Hin as [?|?]; done.
  - intros q ->%list_elem_of_singleton. rewrite fmap_app. apply elem_of_app. right. by left.
  - intros q H1 H2 H3. rewrite fmap_app. fold (ran s).
    destruct (si_kept _ _ Hi q H1 H2 H3) as [Hin|[? ?]]; [left|right; split; [done|apply elem_of_app; by left]].
    rewrite Hc, Hp in Hin. exact Hin.
Qed.

(** Setting the due time of a task that is not in the heap. *)
Lemma retime_ok h p t a : Good h → arena h !! p = Some t → p ∉ tasks h →
  let t' := mkTask (tid t) a (interval t) (fn t) (-1) (cancelled t) in
  let h' := mkHeap (<[p := t']> (arena h)) (tasks h) in
  Good h' ∧ arena h' !! p = Some t' ∧ length (arena h') = length (arena h) ∧ key h' p = a ∧
  (∀ q, q ≠ p → key h' q = key h q) ∧ (∀ q, cancOf h' q = cancOf h q ∧ itvOf h' q = itvOf h q).
Proof.
  intros [Hw Hh] Hp Hn t' h'. pose proof (lookup_lt_Some _ _ _ Hp) as Hlt.
  assert (arena h' !! p = Some t') as Hp' by (by apply list_lookup_insert_eq).
  assert (∀ q, q ≠ p → arena h' !! q = arena h !! q) as Ho by (intros q ?; by apply list_lookup_insert_ne).
  assert (∀ q, q ≠ p → key h' q = key h q) as Hk by (intros q ?; unfold key; by rewrite Ho).
  split_and!; [|done|apply length_insert|unfold key; by rewrite Hp'|done|].
  - split; [split|].
    + intros i q Hi. destruct (decide (q = p)) as [->|]; [by apply list_elem_of_lookup_2 in Hi|].
      rewrite Ho by done. by apply (wf_slot _ Hw).
    + intros q tq. destruct (decide (q = p)) as [->|]; [rewrite Hp'; intros [= <-]; by left|].
      rewrite Ho by done. apply (wf_task _ Hw).
    + intros k Hkn. specialize (Hh k Hkn). unfold K in *. cbn [tasks h'].
      destruct (tasks h !! k) eqn:E1, (tasks h !! par k) eqn:E2; cbn in *; rewrite ?Hk; try done;
        intros ->; by eapply Hn, list_elem_of_lookup_2.
  - intros q. unfold cancOf, itvOf. destruct (decide (q = p)) as [->|]; [by rewrite Hp', Hp|by rewrite Ho].
Qed.

(** Leaving the iteration of task [p], whether it went back to the heap or not. *)
Lemma leave_SInv now t p due s s' : SInv now s → loopAt s = Rearming t p due →
  loopAt s' = Firing t due → fired s' = fired s → closed s' = closed s → stop s' = stop s → Good (heap s') →
  length (arena (heap s')) = length (arena (heap s)) →
  (∀ q, q ≠ p → key (heap s') q = key (heap s) q) →
  (∀ q, cancOf (heap s') q = cancOf (heap s) q ∧ itvOf (heap s') q = itvOf (heap s) q) →
  (∀ q, q ∈ tasks (heap s') ↔
     q ∈ tasks (heap s) ∨ (q = p ∧ 0 < itvOf (heap s) p ∧ closed s = false ∧ cancOf (heap s) p = false)) →
  SInv now s'.
Proof.
  intros Hi Hl Hl' HF HC HS Hg Hlen Hk Hat Hel.
  assert (cur s = [p] ∧ pend s = due) as [Hc Hp] by (unfold cur, pend; by rewrite Hl).
  assert (cur s' = [] ∧ pend s' = due) as [Hc' Hp'] by (unfold cur, pend; by rewrite Hl').
  assert (collectedAt s = Some t) as Hct by (unfold collectedAt; by rewrite Hl).
  pose proof (si_nodup _ _ Hi) as Hnd. rewrite Hc, Hp in Hnd. apply NoDup_cons in Hnd as [Hpd Hnd].
  pose proof (si_out _ _ Hi) as Hout. rewrite Hc, Hp in Hout.
  split; unfold collectedAt, ran; rewrite ?Hc', ?Hp', ?Hl', ?HF, ?HC, ?HS, ?Hlen; cbn [app]; try done; try apply Hi.
  - intros q Hq. destruct (Hout q) as [? Hn]; [by right|]. split; [done|]. rewrite Hel. intros [?|[-> _]]; done.
  - intros q. rewrite Hel. destruct (Hat q) as [-> _]. intros [Hq|(-> & _ & _ & ?)]; [by apply (si_live _ _ Hi)|done].
  - intros ? [= <-]. by apply (si_time _ _ Hi).
  - intros ? q [= <-] Hq. rewrite Hk by (intros ->; done). apply (si_due _ _ Hi); [done|by rewrite Hp].
  - intros q. destruct (Hat q) as [_ ->]. intros Hv. destruct (si_once _ _ Hi q Hv) as [? Hr]. split; [done|].
    rewrite elem_of_app, Hel. rewrite elem_of_app, Hp in Hr. intros [[?|(-> & ? & _)]|?]; [auto|lia|auto].
  - set_solver.
  - intros q Hcl Hq. destruct (Hat q) as [-> ->]. intros Hcq.
    destruct (si_kept _ _ Hi q Hcl Hq Hcq) as [Hin|?]; [|by right]. rewrite Hc, Hp in Hin.
    rewrite !elem_of_app, list_elem_of_singleton in Hin. rewrite elem_of_app, Hel.
    destruct Hin as [?|[->|?]]; [auto| |auto]. destruct (decide (0 < itvOf (heap s) p)) as [Hv|Hv]; [auto 10|].
    right. split; [lia|]. apply (si_cur _ _ Hi). rewrite Hc. by left.
Qed.

Lemma afterFire_SInv now t p due s : SInv now s → loopAt s = Rearming t p due →
  ∃ s', afterFire t p due s = Ok s' ∧ SInv now s' ∧ loopAt s' = Firing t due ∧ fired s' = fired s ∧ closed s' = closed s ∧
    (∀ q, q ∈ tasks (heap s) → q ∈ tasks (heap s')) ∧ (∀ q, q ≠ p → key (heap s') q = key (heap s) q) ∧
    keepsCanc s s'.
Proof.
  intros Hi Hl. destruct (si_out _ _ Hi p) as [Hlt Hnt]; [unfold cur, pend; rewrite Hl; by left|].
  destruct (lookup_lt_is_Some_2 _ _ Hlt) as [tk Htk].
  assert (cancOf (heap s) p = cancelled tk ∧ itvOf (heap s) p = interval tk) as [Hcp Hvp] by (unfold cancOf, itvOf; by rewrite Htk).
  pose proof (si_good _ _ Hi) as Hg.
  assert ((0 <? interval tk) && negb (cancelled tk) && negb (closed s) = false →
    SInv now (set_pc (Firing t due) s)) as Hstay.
  { intros Hno. apply (leave_SInv now t p due s); try done. intros q. cbn. split; [by left|].
    intros [?|(-> & Hv & Hcl & Hcc)]; [done|]. exfalso. rewrite Hcp in Hcc. rewrite Hvp in Hv.
    rewrite Hcl, Hcc in Hno. apply Z.ltb_lt in Hv. by rewrite Hv in Hno. }
  unfold afterFire. rewrite Htk. unfold rearm. destruct ((0 <? interval tk) && negb (cancelled tk)) eqn:E1.
  2: { eexists. split; [done|]. split; [by apply Hstay|]. split_and!; auto. by intros q. }
  rewrite Htk. apply andb_true_iff in E1 as [Ev Ec]. apply Z.ltb_lt in Ev. apply negb_true_iff in Ec. rewrite Ec.
  rewrite orb_false_r. destruct (closed s) eqn:Ecl.
  { eexists. split; [done|]. split; [apply Hstay; by rewrite andb_false_r|]. split_and!; auto. by intros q. }
  destruct (retime_ok (heap s) p tk (t + interval tk) Hg Htk Hnt) as (Hg1 & Hp1 & Hlen1 & Hk1 & Hko & Hat1).
  cbn zeta in *. rewrite Ec in *. set (t' := mkTask (tid tk) _ _ _ _ _) in *. set (h1 := mkHeap _ _) in *.
  destruct (HeapPush_ok p t' h1 Hg1 Hp1 eq_refl) as (h' & -> & Hg' & Hs' & Hperm). cbn [rbind].
  assert (∀ q, q ≠ p → key h' q = key (heap s) q) as Hk'.
  { intros q Hq. destruct (same_attr _ _ q Hs') as (-> & _). by apply Hko. }
  eexists. split; [done|]. split_and!; try done.
  - apply (leave_SInv now t p due s); try done; cbn [heap set_pc signal set_heap].
    + by destruct (same_attr _ _ 0%nat Hs') as (_ & _ & _ & ->).
    + intros q. destruct (same_attr _ _ q Hs') as (_ & -> & -> & _). apply Hat1.
    + intros q. rewrite Hperm, elem_of_cons. rewrite Hcp, Hvp, Ecl. cbn [tasks h1]. naive_solver.
  - cbn. intros q Hq. rewrite Hperm. by right.
  - intros q Hq Hcq. cbn. destruct (same_attr _ _ q Hs') as (_ & -> & _ & ->). rewrite Hlen1.
    by destruct (Hat1 q) as [-> _].
Qed.

Lemma loop_SInv now s r : SInv now s → loopStep now s r → ∃ s', r = Ok s' ∧ SInv now s'.
Proof.
  intros Hi Hr. destruct Hr as [Hl|d Hl Hs|d Hl Hs|d Hl Hd|t Hl|t p due Hl|t p due Hl|t Hl].
  - by apply loopTop_SInv.
  - eexists. split; [done|]. rewrite (si_stop _ _ Hi) in Hs. apply (move_SInv now s); try done; unfold cur, pend; by rewrite ?Hl.
  - eexists. split; [done|]. apply (move_SInv now s); try done; unfold cur, pend; by rewrite ?Hl.
  - eexists. split; [done|]. apply (move_SInv now s); try done; unfold cur, pend; rewrite ?Hl; try done.
    intros ? [= <-]. lia.
  - destruct (loopCollect_SInv now t s Hi Hl) as (due & s' & -> & ? & _). eauto.
  - destruct (fire_SInv now t p due s Hi Hl) as (s' & -> & ? & _). eauto.
  - destruct (afterFire_SInv now t p due s Hi Hl) as (s' & -> & ? & _). eauto.
  - eexists. split; [done|]. apply (move_SInv now s); try done; unfold cur, pend; by rewrite ?Hl.
Qed.

Lemma timer_sstep_SInv x y : sstep x y → SInv x.1 x.2 → SInv y.1 y.2.
Proof.
  destruct 1 as [now now' s|now t0 first itv f p s s' _ Ha|now p s s' Hc|now s|now s s' Hl]; cbn; intros Hi.
  - by eapply SInv_time.
  - destruct (add_SInv now t0 first itv f s Hi) as (s1 & Ha' & ? & _). rewrite Ha in Ha'. by injection Ha' as _ ->.
  - destruct (decide (p < length (arena (heap s)))%nat) as [Hp|Hp].
    + destruct (Cancel_SInv now p s Hi Hp) as (s1 & Hc' & ? & _). rewrite Hc in Hc'. by injection Hc' as ->.
    + unfold Cancel in Hc. by rewrite lookup_ge_None_2 in Hc by lia.
  - by apply Close_SInv.
  - destruct (loop_SInv now s _ Hi Hl) as (s1 & [= ->] & ?). done.
Qed.

Lemma timer_sreach_SInv x y : sreach x y → SInv x.1 x.2 → SInv y.1 y.2.
Proof. induction 1; eauto using timer_sstep_SInv. Qed.
#[export] Hint Resolve timer_sstep_SInv timer_sreach_SInv SInv_New : game.

(** ** Theorems *)

(** Timers are sound: whatever the callers do and however the loop is
    interleaved with them, no step of the loop panics or runs out of its bound,
    and a handle can always be cancelled; a callback is never handed over
    before its task is due; a one-shot task is handed over at most once; and
    while the scheduler is open every task that was not cancelled is in the
    heap, in the hands of the loop, or was a one-shot that ran. *)
Theorem timers_sound t0 now s : sreach (t0, NewScheduler) (now, s) →
  (∀ r, loopStep now s r → ∃ s', r = Ok s') ∧
  (∀ p, (p < length (arena (heap s)))%nat → ∃ s', Cancel p s = Ok s') ∧
  (∀ p a t, (p, a, t) ∈ fired s → a ≤ t ∧ t ≤ now) ∧
  (∀ p, itvOf (heap s) p ≤ 0 → (count p (ran s) ≤ 1)%nat) ∧
  (∀ p, closed s = false → (p < length (arena (heap s)))%nat → cancOf (heap s) p = false →
     p ∈ tasks (heap s) ++ cur s ++ pend s ∨ itvOf (heap s) p ≤ 0 ∧ p ∈ ran s).
Proof.
  intros Hr. assert (SInv now s) as Hi by (apply (timer_sreach_SInv _ _ Hr), SInv_New). split_and!.
  - intros r Hl. destruct (loop_SInv now s r Hi Hl) as (s' & -> & _). eauto.
  - intros p Hp. destruct (Cancel_SInv now p s Hi Hp) as (s' & ? & _). eauto.
  - intros p a t Hf. destruct (si_fired _ _ Hi p a t Hf) as (? & ? & _). done.
  - intros p Hv. by destruct (si_once _ _ Hi p Hv).
  - intros p. apply (si_kept _ _ Hi).
Qed.

(** The collecting section refines a sorted queue: it takes out of the heap
    exactly the tasks due by the time it read, hands them on in the order of
    their due times, and leaves exactly the later ones. *)
Theorem collect_exact t0 now t s : sreach (t0, NewScheduler) (now, s) → loopAt s = Collecting t →
  ∃ due s', loopCollect t s = Ok s' ∧ loopAt s' = Firing t due ∧
    StronglySorted (fun p q => key (heap s) p ≤ key (heap s) q) due ∧ NoDup due ∧
    (∀ p, p ∈ due ↔ p ∈ tasks (heap s) ∧ key (heap s) p ≤ t) ∧
    (∀ p, p ∈ tasks (heap s') ↔ p ∈ tasks (heap s) ∧ t < key (heap s) p).
Proof.
  intros Hr Hl. assert (SInv now s) as Hi by (apply (timer_sreach_SInv _ _ Hr), SInv_New).
  destruct (loopCollect_SInv now t s Hi Hl) as (due & s' & ? & Hi' & Hl' & _ & _ & _ & ? & ? & ? & _).
  exists due, s'. split_and!; try done. pose proof (si_nodup _ _ Hi') as Hnd.
  unfold cur, pend in Hnd. by rewrite Hl' in Hnd.
Qed.

Lemma count_other (p q : nat) : p ≠ q → count p [q] = 0%nat.
Proof. intros Hne. unfold count. by rewrite filter_cons_False by done. Qed.

(** A task that is cancelled and not in the hands of the loop. *)
Definition gone (p : nat) (s : Scheduler) : Prop :=
  (p < length (arena (heap s)))%nat ∧ cancOf (heap s) p = true ∧ p ∉ pend s.

Lemma sameLoop_ran s s' : sameLoop s s' → pend s' = pend s ∧ ran s' = ran s.
Proof. intros (HL & HF & _). unfold pend, ran. by rewrite HL, HF. Qed.

Lemma gone_step p x y : sstep x y → SInv x.1 x.2 → gone p x.2 →
  gone p y.2 ∧ count p (ran y.2) = count p (ran x.2).
Proof.
  assert (∀ s s', gone p s → keepsCanc s s' → pend s' = pend s → ran s' = ran s → gone p s' ∧ count p (ran s') = count p (ran s)) as Hkeep.
  { intros s s' (Hp & Hc & Hn) Hk Hpe ->. destruct (Hk p Hp Hc). unfold gone. rewrite Hpe. done. }
  destruct 1 as [now now' s|now t0 first itv f q s s' _ Ha|now q s s' Hc|now s|now s s' Hl]; cbn; intros Hi Hg.
  - done.
  - destruct (add_SInv now t0 first itv f s Hi) as (s1 & Ha' & _ & [? ?]%sameLoop_ran & Hk). rewrite Ha in Ha'. injection Ha' as _ <-. auto.
  - destruct (decide (q < length (arena (heap s)))%nat) as [Hq|Hq].
    + destruct (Cancel_SInv now q s Hi Hq) as (s1 & Hc' & _ & [? ?]%sameLoop_ran & _ & _ & _ & Hk). rewrite Hc in Hc'. injection Hc' as <-. auto.
    + unfold Cancel in Hc. by rewrite lookup_ge_None_2 in Hc by lia.
  - apply Hkeep; unfold Close; destruct (closed s); try done; by intros q.
  - remember (Ok s') as r eqn:Er.
    destruct Hl as [HL|d HL Hs|d HL Hs|d HL Hd|t HL|t q due HL|t q due HL|t HL];
      try (injection Er as <-; apply Hkeep; [done|by intros x|unfold pend; by rewrite HL|done]).
    + unfold loopTop in Er.
      destruct (closed s); [|destruct (if decide _ then _ else _) in Er; [|done..]; cbn [rbind] in Er];
        injection Er as <-; (apply Hkeep; [done|by intros x|unfold pend; by rewrite HL|done]).
    + destruct (loopCollect_SInv now t s Hi HL) as (due & s1 & Hs1 & _ & Hl1 & _ & HF & _ & _ & Hdue & _ & Hk).
      rewrite Er in Hs1. injection Hs1 as <-. destruct Hg as (Hp & Hc & Hn). destruct (Hk p Hp Hc) as [? ?].
      unfold gone, ran, pend. rewrite HF, Hl1. split_and!; try done. rewrite Hdue. intros [Hin%(si_live _ _ Hi) _]. congruence.
    + destruct (fire_SInv now t q due s Hi HL) as (s1 & Hs1 & _ & Hl1 & Hh & _ & HF). rewrite Er in Hs1. injection Hs1 as <-.
      destruct Hg as (Hp & Hc & Hn). unfold pend in Hn. rewrite HL in Hn. apply not_elem_of_cons in Hn as [Hne Hn].
      unfold gone, ran, pend. rewrite HF, Hl1, Hh. split_and!; try done. rewrite fmap_app, count_app.
      cbn [fmap list_fmap]. rewrite count_other by done. lia.
    + destruct (afterFire_SInv now t q due s Hi HL) as (s1 & Hs1 & _ & Hl1 & HF & _ & _ & _ & Hk). rewrite Er in Hs1. injection Hs1 as <-.
      apply Hkeep; [done..|unfold pend; by rewrite HL, Hl1|unfold ran; by rewrite HF].
Qed.

Lemma gone_reach p x y : sreach x y → SInv x.1 x.2 → gone p x.2 → count p (ran y.2) = count p (ran x.2).
Proof.
  induction 1 as [|x y z Hs _ IH]; [done|]. intros Hi Hg. destruct (gone_step p x y Hs Hi Hg) as [Hg' <-].
  apply IH; [by eapply timer_sstep_SInv|done].
Qed.

(** A cancelled timer is final: once Cancel returned for a task that the
    loop had not collected, the task's callback is never handed over again,
    whatever happens afterwards. *)
Theorem cancel_final t0 now p s s' now' s'' : sreach (t0, NewScheduler) (now, s) →
  Cancel p s = Ok s' → p ∉ pend s → sreach (now, s') (now', s'') →
  count p (ran s'') = count p (ran s).
Proof.
  intros Hr Hc Hn Hr'. assert (SInv now s) as Hi by (apply (timer_sreach_SInv _ _ Hr), SInv_New).
  destruct (decide (p < length (arena (heap s)))%nat) as [Hp|Hp].
  2: { unfold Cancel in Hc. by rewrite lookup_ge_None_2 in Hc by lia. }
  destruct (Cancel_SInv now p s Hi Hp) as (s1 & Hc' & Hi' & [Hpe <-]%sameLoop_ran & _ & Hcp & Hlen & _).
  rewrite Hc in Hc'. injection Hc' as <-.
  assert (gone p s') as Hg by (split_and!; [by rewrite Hlen|done|by rewrite Hpe]).
  apply (gone_reach p (now, s') (now', s'')); done.
Qed.

(** ** Progress of the loop *)

Definition lstep (now : Z) (s s' : Scheduler) : Prop := loopStep now s (Ok s').

Lemma lstep_eq now s s' r : loopStep now s r → r = Ok s' → lstep now s s'.
Proof. by intros Hl ->. Qed.

(** What a run of the loop keeps: the history grows, the scheduler stays open,
    and pending tasks stay where they are. *)
Record ran_on (now : Z) (s s' : Scheduler) : Prop := {
  ro_run : rtc (lstep now) s s';
  ro_inv : SInv now s';
  ro_closed : closed s' = closed s;
  ro_fired : fired s `prefix_of` fired s' }.

Lemma ran_on_refl now s : SInv now s → ran_on now s s.
Proof. intros. split; try done. Qed.

Lemma ran_on_trans now s1 s2 s3 : ran_on now s1 s2 → ran_on now s2 s3 → ran_on now s1 s3.
Proof. intros [] []. split; [by etrans|done|congruence|by etrans]. Qed.

Lemma ran_on_step now s s' : SInv now s → loopStep now s (Ok s') → closed s' = closed s → fired s `prefix_of` fired s' →
  ran_on now s s'.
Proof.
  intros Hi Hl Hc Hf. destruct (loop_SInv now s _ Hi Hl) as (? & [= <-] & ?). split; [by apply rtc_once|done..].
Qed.

Lemma fire_all now t due s : SInv now s → loopAt s = Firing t due →
  ∃ s', ran_on now s s' ∧ loopAt s' = Firing t [] ∧
    (∀ q, q ∈ tasks (heap s) → q ∈ tasks (heap s') ∧ key (heap s') q = key (heap s) q) ∧
    (∀ q, q ∈ due → ∃ l, fired s' = fired s ++ l ∧ (q, key (heap s) q, t) ∈ l).
Proof.
  revert s. induction due as [|p due IH]; intros s Hi Hl.
  { exists s. split_and!; [by apply ran_on_refl|done|done|]. intros q []%elem_of_nil. }
  destruct (fire_SInv now t p due s Hi Hl) as (s1 & E1 & Hi1 & Hl1 & Hh1 & Hc1 & Hf1).
  destruct (afterFire_SInv now t p due s1 Hi1 Hl1) as (s2 & E2 & Hi2 & Hl2 & Hf2 & Hc2 & Ht2 & Hk2 & _).
  destruct (IH s2 Hi2 Hl2) as (s3 & H3 & Hl3 & Ht3 & Hd3).
  rewrite Hh1 in Ht2, Hk2. pose proof (si_nodup _ _ Hi) as Hnd. pose proof (si_out _ _ Hi) as Hout.
  unfold cur, pend in Hnd, Hout. rewrite Hl in Hnd, Hout. cbn in Hnd, Hout. apply NoDup_cons in Hnd as [Hpd _].
  exists s3. split_and!; [|done| |].
  - eapply ran_on_trans; [eapply (ran_on_step now s s1)|eapply ran_on_trans; [eapply (ran_on_step now s1 s2)|done]]; try done.
    + rewrite <- E1. by apply ls_fire.
    + rewrite Hf1. by apply prefix_app_r.
    + rewrite <- E2. by apply ls_after.
    + by rewrite Hf2.
  - intros q Hq. destruct (Ht3 q (Ht2 q Hq)) as [? ->]. split; [done|]. apply Hk2. intros ->.
    by destruct (Hout p) as [_ []]; [by left|].
  - intros q [->|Hq]%elem_of_cons.
    + destruct (ro_fired _ _ _ H3) as [l ->]. rewrite Hf2, Hf1, <- app_assoc. eexists. split; [done|].
      apply elem_of_app. left. by left.
    + destruct (Hd3 q Hq) as (l & -> & Hin). rewrite Hf2, Hf1, <- app_assoc. eexists. split; [done|].
      apply elem_of_app. right. rewrite Hk2 in Hin by (by intros ->). done.
Qed.

Lemma fires_from_collect now t p s : SInv now s → loopAt s = Collecting t → p ∈ tasks (heap s) → key (heap s) p ≤ t →
  ∃ s' l, ran_on now s s' ∧ fired s' = fired s ++ l ∧ (p, key (heap s) p, t) ∈ l.
Proof.
  intros Hi Hl Hp Hk. destruct (loopCollect_SInv now t s Hi Hl) as (due & s1 & E & Hi1 & Hl1 & Hc & Hf & Hkk & _ & Hdue & _).
  destruct (fire_all now t due s1 Hi1 Hl1) as (s2 & Hr & _ & _ & Hd). destruct (Hd p) as (l & Hl2 & Hin); [by apply Hdue|].
  exists s2, l. split_and!; [|congruence|by rewrite <- Hkk].
  eapply ran_on_trans; [|done]. eapply (ran_on_step now s s1); try done; [rewrite <- E; by apply ls_collect|by rewrite Hf].
Qed.

Lemma fires_from_wait now d p s : SInv now s → loopAt s = Waiting d → d ≤ now → p ∈ tasks (heap s) → key (heap s) p ≤ now →
  ∃ s' l, ran_on now s s' ∧ fired s' = fired s ++ l ∧ (p, key (heap s) p, now) ∈ l.
Proof.
  intros Hi Hl Hd Hp Hk. assert (ran_on now s (set_pc (Collecting now) s)) as Hr
    by (apply ran_on_step; [done|by eapply ls_timer|done|done]).
  destruct (fires_from_collect now now p (set_pc (Collecting now) s)) as (s2 & l & Hr2 & ? & ?); [apply Hr|done..|].
  exists s2, l. split; [by eapply ran_on_trans|done].
Qed.

Lemma fires_from_top now p s : SInv now s → loopAt s = AtTop → closed s = false → p ∈ tasks (heap s) → key (heap s) p ≤ now →
  ∃ s' l, ran_on now s s' ∧ fired s' = fired s ++ l ∧ (p, key (heap s) p, now) ∈ l.
Proof.
  intros Hi Hl Hc Hp Hk. pose proof (si_good _ _ Hi) as Hg.
  assert (∃ d, loopTop now s = Ok (set_pc (Waiting d) s) ∧ d ≤ now) as (d & E & Hd).
  { unfold loopTop. rewrite Hc. assert (Len (heap s) ≠ 0%nat) as Hz.
    { intros Hz%nil_length_inv. rewrite Hz in Hp. by apply elem_of_nil in Hp. }
    rewrite decide_False by done. destruct (at_ok (heap s) 0 (proj1 Hg)) as (q & t & Hq & Ht & -> & HK); [lia|].
    cbn [rbind]. eexists. split; [done|]. pose proof (head_least _ q p Hg Hq Hp) as Hm.
    unfold key at 1 in Hm. rewrite Ht in Hm. cbn in Hm. destruct (fireAt t - now <? 0) eqn:E; lia. }
  assert (ran_on now s (set_pc (Waiting d) s)) as Hr by (apply ran_on_step; [done|rewrite <- E; by apply ls_top|done|done]).
  destruct (fires_from_wait now d p (set_pc (Waiting d) s)) as (s2 & l & Hr2 & ? & ?); [apply Hr|done..|].
  exists s2, l. split; [by eapply ran_on_trans|done].
Qed.

Lemma fires_from_firing now t due p s : SInv now s → loopAt s = Firing t due → closed s = false →
  p ∈ tasks (heap s) → key (heap s) p ≤ now →
  ∃ s' l, ran_on now s s' ∧ fired s' = fired s ++ l ∧ (p, key (heap s) p, now) ∈ l.
Proof.
  intros Hi Hl Hc Hp Hk. destruct (fire_all now t due s Hi Hl) as (s1 & Hr1 & Hl1 & Ht1 & _).
  destruct (Ht1 p Hp) as [Hp1 Hk1].
  assert (ran_on now s1 (set_pc AtTop s1)) as Hr2 by (apply ran_on_step; [apply Hr1|by eapply ls_done|done|done]).
  destruct (fires_from_top now p (set_pc AtTop s1)) as (s2 & l & Hr3 & Hf3 & Hin);
    [apply Hr2|done|cbn; by rewrite (ro_closed _ _ _ Hr1)|done|cbn; lia|].
  destruct (ro_fired _ _ _ Hr1) as [l0 Hl0]. exists s2, (l0 ++ l). split_and!.
  - by do 2 (eapply ran_on_trans; [done|]).
  - rewrite Hf3. cbn. by rewrite Hl0, app_assoc.
  - apply elem_of_app. right. cbn in Hin. by rewrite <- Hk1.
Qed.

(** C30. Timers fire: in every reachable state of an open scheduler, a task of
    the heap whose time has come is handed to the executor by the loop running
    on its own; the loop never sleeps through it, wherever it is (asleep with a
    deadline computed before the task was added, or busy with earlier tasks). *)
Theorem due_timer_fires t0 now s p : sreach (t0, NewScheduler) (now, s) → closed s = false →
  p ∈ tasks (heap s) → key (heap s) p ≤ now →
  ∃ s' l t, rtc (lstep now) s s' ∧ fired s' = fired s ++ l ∧ (p, key (heap s) p, t) ∈ l ∧ t ≤ now.
Proof.
  intros Hr Hc Hp Hk. assert (SInv now s) as Hi by (apply (timer_sreach_SInv _ _ Hr), SInv_New).
  assert (∀ t, (∃ s' l, ran_on now s s' ∧ fired s' = fired s ++ l ∧ (p, key (heap s) p, t) ∈ l) → t ≤ now →
    ∃ s' l t, rtc (lstep now) s s' ∧ fired s' = fired s ++ l ∧ (p, key (heap s) p, t) ∈ l ∧ t ≤ now) as Hfin.
  { intros t (s' & l & [] & ? & ?) ?. by exists s', l, t. }
  destruct (loopAt s) as [|d|t|t due|t q due|] eqn:Hl.
  - apply (Hfin now); [by apply fires_from_top|lia].
  - apply (Hfin now); [|lia]. destruct (si_wait _ _ Hi d Hl) as [Hw|[Hd|Hd]].
    + set (s1 := mkSched (heap s) (nextID s) (closed s) false (stop s) AtTop (fired s)).
      assert (ran_on now s s1) as Hr1 by (apply ran_on_step; [done|by eapply ls_wake|done|done]).
      destruct (fires_from_top now p s1) as (s2 & l & ? & ? & ?); [apply Hr1|done..|].
      exists s2, l. split; [by eapply ran_on_trans|done].
    + by apply (fires_from_wait now d).
    + apply (fires_from_wait now d); try done. specialize (Hd p Hp). lia.
  - destruct (decide (key (heap s) p ≤ t)) as [Hkt|Hkt].
    { apply (Hfin t); [by apply fires_from_collect|]. apply (si_time _ _ Hi). unfold collectedAt. by rewrite Hl. }
    apply (Hfin now); [|lia].
    destruct (loopCollect_SInv now t s Hi Hl) as (due & s1 & E & Hi1 & Hl1 & Hc1 & Hf1 & Hkk & _ & _ & Hrest & _).
    assert (ran_on now s s1) as Hr1 by (apply ran_on_step; [done|rewrite <- E; by apply ls_collect|done|by rewrite Hf1]).
    destruct (fires_from_firing now t due p s1) as (s2 & l & ? & Hf2 & Hin); [done|done|congruence|apply Hrest; split; [done|lia]|by rewrite Hkk|].
    exists s2, l. rewrite Hkk in Hin. split_and!; [by eapply ran_on_trans|congruence|done].
  - apply (Hfin now); [by apply (fires_from_firing now t due)|lia].
  - apply (Hfin now); [|lia]. destruct (afterFire_SInv now t q due s Hi Hl) as (s1 & E & Hi1 & Hl1 & Hf1 & Hc1 & Ht1 & Hk1 & _).
    assert (ran_on now s s1) as Hr1 by (apply ran_on_step; [done|rewrite <- E; by apply ls_after|done|by rewrite Hf1]).
    assert (key (heap s1) p = key (heap s) p) as Hkp.
    { apply Hk1. intros ->. destruct (si_out _ _ Hi q) as [_ []]; [|done]. unfold cur, pend. rewrite Hl. by left. }
    destruct (fires_from_firing now t due p s1) as (s2 & l & ? & Hf2 & Hin); [done|done|congruence|by apply Ht1|lia|].
    exists s2, l. rewrite Hkp in Hin. split_and!; [by eapply ran_on_trans|congruence|done].
  - rewrite (si_ret _ _ Hi Hl) in Hc. done.
Qed.

(** Finding. The loop does not look at the cancellation mark again after it
    collected a task: when two timers are due together and the callback of the
    first cancels the second, the second is handed over all the same. *)
Theorem collected_cancel_ignored : ∃ s s' s'',
  sreach (0, NewScheduler) (5, s) ∧ 1%nat ∉ ran s ∧ Cancel 1 s = Ok s' ∧
  cancOf (heap s') 1 = true ∧ rtc (lstep 5) s' s'' ∧ 1%nat ∈ ran s''.
Proof.
  set (t id i := mkTask id 5 0 id i false).
  set (at_pc a ts w p f := mkSched (mkHeap a ts) 2 false w false p f).
  set (a1 := [t 1 0]). set (a2 := [t 1 0; t 2 1]). set (a3 := [t 1 (-1); t 2 (-1)]).
  exists (at_pc a3 [] true (Rearming 5 0 [1%nat]) [(0%nat, 5, 5)]). eexists. eexists. split; [|split; [|split; [vm_compute; reflexivity|split; [reflexivity|split]]]].
  - eapply rtc_l; [apply (ss_add 0 0 5 0 1 0%nat NewScheduler (mkSched (mkHeap a1 [0%nat]) 1 false true false AtTop [])); [lia|vm_compute; reflexivity]|].
    eapply rtc_l; [apply (ss_add 0 0 5 0 2 1%nat _ (at_pc a2 [0%nat; 1%nat] true AtTop [])); [lia|vm_compute; reflexivity]|].
    eapply rtc_l; [apply ss_loop, (ls_top 0 (at_pc a2 [0%nat; 1%nat] true AtTop []) eq_refl)|].
    eapply rtc_l; [by apply (ss_time 0 5)|].
    eapply rtc_l; [by apply ss_loop; eapply ls_timer|].
    eapply rtc_l; [apply ss_loop, (ls_collect 5 (at_pc a2 [0%nat; 1%nat] true (Collecting 5) []) 5 eq_refl)|].
    eapply rtc_l; [apply ss_loop, (ls_fire 5 (at_pc a3 [] true (Firing 5 [0%nat; 1%nat]) []) 5 0%nat [1%nat] eq_refl)|].
    apply rtc_refl.
  - vm_compute. set_solver.
  - eapply rtc_l; [eapply lstep_eq; [by eapply ls_after|vm_compute; reflexivity]|].
    eapply rtc_once, lstep_eq; [by eapply ls_fire|vm_compute; reflexivity].
  - vm_compute. set_solver.
Qed.

(** ** A concrete run *)

Section Demo.
Definition mkT id at' itv f i := mkTask id at' itv f i false.
Definition mkS a ts n p := mkSched (mkHeap a ts) n false true false p [].

(** Three timers: due at 5, every 3 and due at 9. *)
Definition demo1 : Scheduler := mkS [mkT 1 5 0 7 0] [0%nat] 1 AtTop.
Definition demo2 : Scheduler := mkS [mkT 1 5 0 7 1; mkT 2 3 3 8 0] [1%nat; 0%nat] 2 AtTop.
Definition demo3 : Scheduler := mkS [mkT 1 5 0 7 1; mkT 2 3 3 8 0; mkT 3 9 0 9 2] [1%nat; 0%nat; 2%nat] 3 AtTop.

Lemma demo_added : sreach (0, NewScheduler) (0, demo3).
Proof.
  eapply rtc_l; [apply (ss_add 0 0 5 0 7 0%nat _ demo1); [lia|vm_compute; reflexivity]|].
  eapply rtc_l; [apply (ss_add 0 0 3 3 8 1%nat _ demo2); [lia|vm_compute; reflexivity]|].
  apply rtc_once, (ss_add 0 0 9 0 9 2%nat _ demo3); [lia|vm_compute; reflexivity].
Qed.

Lemma demo_waiting : sreach (0, NewScheduler) (6, set_pc (Waiting 3) demo3).
Proof.
  etrans; [apply demo_added|].
  eapply rtc_l; [apply ss_loop, (ls_top 0 demo3 eq_refl)|]. apply rtc_once, (ss_time 0 6). lia.
Qed.

Lemma demo_collecting : sreach (0, NewScheduler) (6, set_pc (Collecting 6) demo3).
Proof.
  etrans; [apply demo_waiting|]. apply rtc_once, ss_loop. apply (ls_timer 6 (set_pc (Waiting 3) demo3) 3 eq_refl). lia.
Qed.
End Demo.

Lemma timers_sound_witness :
  sreach (0, NewScheduler) (6, set_pc (Collecting 6) demo3) ∧
  (∀ r, loopStep 6 (set_pc (Collecting 6) demo3) r → ∃ s', r = Ok s').
Proof. split; [exact demo_collecting|exact (proj1 (timers_sound 0 6 _ demo_collecting))]. Defined.

Lemma collect_exact_witness : ∃ due s', loopCollect 6 (set_pc (Collecting 6) demo3) = Ok s' ∧ loopAt s' = Firing 6 due ∧
  (∀ p, p ∈ due ↔ p ∈ tasks (heap demo3) ∧ key (heap demo3) p ≤ 6).
Proof.
  destruct (collect_exact 0 6 6 (set_pc (Collecting 6) demo3) demo_collecting eq_refl) as (due & s' & ? & ? & _ & _ & ? & _).
  by exists due, s'.
Defined.

Lemma cancel_final_witness : ∃ s', Cancel 1 demo3 = Ok s' ∧ count 1%nat (ran s') = 0%nat.
Proof.
  assert (∃ s', Cancel 1 demo3 = Ok s') as [s' Hs] by (eexists; vm_compute; reflexivity).
  exists s'. split; [done|].
  exact (cancel_final 0 0 1 demo3 s' 50 s' demo_added Hs (not_elem_of_nil _) (rtc_once _ _ (ss_time 0 50 s' ltac:(lia)))).
Defined.

Lemma due_timer_fires_witness : ∃ s' l t,
  rtc (lstep 6) (set_pc (Waiting 3) demo3) s' ∧ fired s' = [] ++ l ∧ (0%nat, 5, t) ∈ l ∧ t ≤ 6.
Proof.
  apply (due_timer_fires 0 6 (set_pc (Waiting 3) demo3) 0%nat demo_waiting eq_refl).
  - apply (bool_decide_unpack _). vm_compute. exact I.
  - vm_compute. discriminate.
Defined.
