(* ===== verification/Wal.v ===== *)
(** * The write-ahead log (internal/storage/wal.go)

    The log is a file of JSON lines.  The file is its bytes and the offset the
    code keeps of their end; the operating system may fail a write after some
    of the bytes, and may fail a sync or a truncation ([OS]).  The JSON encoding
    of a record is a parameter with the laws encoding/json documents for the
    records the log holds ([RecordJson]).  Seeking in an open regular file does
    not fail, and a read that fails fails before the first line. *)

From S2P Require Import Prelude.

Record walRecord := mkRec {
  TS : Z;
  Table : string;
  Key : string;
  Value : list Z;
  Deleted : bool }.

#[global] Instance walRecord_eq_dec : EqDecision walRecord.
Proof. solve_decision. Defined.

Class RecordJson := {
  (** json.Marshal: fails on a raw value that is not JSON. *)
  marshalRec : walRecord → option (list Z);
  unmarshalRec : list Z → option walRecord;
  (** A value as json.Marshal produces it: compact JSON. *)
  canonical : walRecord → Prop }.

Definition newline : Z := 10.
Definition carriage : Z := 13.

Class RecordJsonLaws (J : RecordJson) := {
  marshal_total r : canonical r → is_Some (marshalRec r);
  (** The output is one non-empty line, and ends with a brace. *)
  marshal_line r l : marshalRec r = Some l → newline ∉ l ∧ ∃ l', l = l' ++ [125];
  unmarshal_marshal r l : canonical r → marshalRec r = Some l → unmarshalRec l = Some r }.

(** What the operating system answers, in order. *)
Class OS (D : Type) := {
  osWrite : nat → D → nat * D;   (* bytes written of so many *)
  osSync : D → bool * D;
  osRead : D → bool * D;
  osTruncate : D → bool * D }.

Record WAL := mkWAL { file : list Z; wend : nat; wclosed : bool }.

(** OpenWAL on a directory whose log holds [content]; the flags are the
    outcomes of MkdirAll, OpenFile and Seek. *)
Definition OpenWAL (dir : string) (content : list Z) (mk op sk : bool) : option (option WAL) :=
  if decide (dir = EmptyString) then Some None else
  if negb mk then None else if negb op then None else if negb sk then None else
  Some (Some (mkWAL content (length content) false)).

Definition maxLine : Z := 8 * 1024 * 1024.

(** os.File.WriteAt of the first [n] bytes of [l] at an offset: a gap is filled
    with zeros. *)
Definition writeAt (l : list Z) (n off : nat) (f : list Z) : list Z :=
  take off (f ++ replicate (off - length f) 0) ++ take n l ++ drop (off + n) f.

Section Log.
Context {J : RecordJson} {D : Type} {O : OS D}.

(** [true] is success. *)
Definition Append (r : walRecord) (w : WAL) (d : D) : bool * WAL * D :=
  match marshalRec r with
  | None => (false, w, d)
  | Some line =>
      let line := line ++ [newline] in
      if wclosed w then (false, w, d) else
      let '(n, d) := osWrite (length line) d in
      let f := writeAt line (n `min` length line) (wend w) (file w) in
      if decide (n < length line)%nat then (false, mkWAL f (wend w) false, d) else
      let w := mkWAL f (wend w + length line)%nat false in
      let '(ok, d) := osSync d in (ok, w, d)
  end.

(** bufio.ScanLines: the lines without their terminator; a last line without
    one counts when it is not empty. *)
Fixpoint lines (cur : list Z) (f : list Z) : list (list Z) :=
  match f with
  | [] => if decide (cur = []) then [] else [cur]
  | b :: f => if decide (b = newline) then cur :: lines [] f else lines (cur ++ [b]) f
  end.

Definition dropCR (l : list Z) : list Z :=
  match last l with Some b => if decide (b = carriage) then removelast l else l | None => l end.

(** The scanning loop: the records read, and whether it ended without error;
    a line that does not fit the buffer ends it with none counted. *)
Fixpoint scan (ls : list (list Z)) (records : list walRecord) : list walRecord * bool :=
  match ls with
  | [] => (records, true)
  | l :: ls =>
      if zlen l >=? maxLine then ([], false) else
      let line := dropCR l in
      if decide (line = []) then scan ls records else
      match unmarshalRec line with
      | None => (records, false)
      | Some r => scan ls (records ++ [r])
      end
  end.

(** The loop over the records: [handle] acts on a state of type [S]. *)
Fixpoint handleAll {S} (handle : walRecord → S → bool * S) (rs : list walRecord) (s : S) : bool * S :=
  match rs with
  | [] => (true, s)
  | r :: rs => let '(ok, s) := handle r s in if ok then handleAll handle rs s else (false, s)
  end.

Definition Replay {S} (handle : walRecord → S → bool * S) (w : WAL) (d : D) (s : S)
    : (nat * bool) * WAL * D * S :=
  if wclosed w then ((0%nat, false), w, d, s) else
  let '(rd, d) := osRead d in
  if negb rd then ((0%nat, false), w, d, s) else
  let '(records, ok) := scan (lines [] (file w)) [] in
  if negb ok then ((length records, false), w, d, s) else
  let '(ok, s) := handleAll handle records s in
  if negb ok then ((length records, false), w, d, s) else
  if decide (records = []) then ((0%nat, true), w, d, s) else
  let '(tr, d) := osTruncate d in
  if negb tr then ((length records, false), w, d, s) else
  ((length records, true), mkWAL [] 0 false, d, s).

Definition CloseWAL (w : WAL) : WAL := mkWAL (file w) (wend w) true.

(** ** What the log holds *)

Definition lineOf (r : walRecord) : list Z := from_option (fun l => l ++ [newline]) [] (marshalRec r).

(** The records below the end offset: [logged w rs]. *)
Definition logged (w : WAL) (rs : list walRecord) : Prop :=
  (wend w ≤ length (file w))%nat ∧ take (wend w) (file w) = rs ≫= lineOf ∧
  Forall (fun r => canonical r ∧ is_Some (marshalRec r)) rs.

(** ** Lines *)

Lemma lines_cons cur l f : newline ∉ l → lines cur (l ++ newline :: f) = (cur ++ l) :: lines [] f.
Proof.
  revert cur. induction l as [|b l IH]; intros cur Hn; cbn.
  - by rewrite app_nil_r.
  - apply not_elem_of_cons in Hn as [Hb Hn]. rewrite decide_False by done. rewrite IH by done.
    by rewrite <- app_assoc.
Qed.

Lemma dropCR_brace l : dropCR (l ++ [125]) = l ++ [125].
Proof. unfold dropCR. rewrite last_snoc. by rewrite decide_False. Qed.

Definition fits (r : walRecord) : Prop := zlen (lineOf r) ≤ maxLine.

Context {L : RecordJsonLaws J}.

Lemma omap_cons_Some {A B} (f : A → option B) x l y : f x = Some y → omap f (x :: l) = y :: omap f l.
Proof. intros Hy. cbn. by rewrite Hy. Qed.

Lemma lines_logged rs tail : Forall (fun r => is_Some (marshalRec r)) rs →
  lines [] ((rs ≫= lineOf) ++ tail) = omap marshalRec rs ++ lines [] tail.
Proof.
  induction 1 as [|r rs [l Hl] _ IH]; [done|].
  change ((r :: rs) ≫= lineOf) with (lineOf r ++ (rs ≫= lineOf)). rewrite (omap_cons_Some _ _ _ l) by done.
  unfold lineOf at 1. rewrite Hl. cbn [from_option]. destruct (marshal_line r l Hl) as [Hn _].
  rewrite <- !app_assoc. cbn [app]. rewrite lines_cons by done. by rewrite IH.
Qed.

Lemma scan_logged rs ls acc : Forall (fun r => canonical r ∧ fits r) rs →
  scan (omap marshalRec rs ++ ls) acc = scan ls (acc ++ rs).
Proof.
  intros H. revert acc. induction H as [|r rs [Hc Hf] _ IH]; intros acc; [by rewrite app_nil_r|].
  destruct (marshal_total r Hc) as [l Hl]. rewrite (omap_cons_Some _ _ _ l) by done. cbn [app scan].
  unfold fits, lineOf in Hf. rewrite Hl in Hf. cbn [from_option] in Hf. rewrite zlen_snoc in Hf.
  destruct (zlen l >=? maxLine) eqn:E; [lia|].
  destruct (marshal_line r l Hl) as (_ & l' & Hb). rewrite Hb, dropCR_brace, <- Hb.
  rewrite decide_False by (rewrite Hb; by destruct l'). rewrite (unmarshal_marshal r l Hc Hl).
  by rewrite IH, <- app_assoc.
Qed.

(** Without a bound on the lines the scanner may give up. *)
Lemma scan_logged_weak rs ls acc : Forall canonical rs →
  (scan (omap marshalRec rs ++ ls) acc).2 = false ∨ scan (omap marshalRec rs ++ ls) acc = scan ls (acc ++ rs).
Proof.
  intros H. revert acc. induction H as [|r rs Hc _ IH]; intros acc; [right; by rewrite app_nil_r|].
  destruct (decide (fits r)) as [Hf|Hf].
  - assert (omap marshalRec (r :: rs) = omap marshalRec [r] ++ omap marshalRec rs) as -> by (by rewrite <- omap_app).
    rewrite <- app_assoc, scan_logged by (by apply Forall_singleton).
    replace (acc ++ r :: rs) with ((acc ++ [r]) ++ rs) by (by rewrite <- app_assoc). apply IH.
  - left. destruct (marshal_total r Hc) as [l Hl]. rewrite (omap_cons_Some _ _ _ l) by done. cbn [app scan].
    unfold fits, lineOf in Hf. rewrite Hl in Hf. cbn [from_option] in Hf. rewrite zlen_snoc in Hf.
    destruct (zlen l >=? maxLine) eqn:E; [done|lia].
Qed.

(** ** Appending *)

Lemma writeAt_end l f n : (n ≤ length l)%nat → writeAt l n (length f) f = f ++ take n l.
Proof.
  intros Hn. unfold writeAt. rewrite Nat.sub_diag, app_nil_r, take_ge by lia.
  by rewrite drop_ge, app_nil_r by lia.
Qed.

Lemma writeAt_below l n off f : (off ≤ length f)%nat → take off (writeAt l n off f) = take off f.
Proof.
  intros Ho. unfold writeAt. replace (off - length f)%nat with 0%nat by lia. cbn [replicate]. rewrite app_nil_r.
  rewrite take_app_le by (rewrite length_take; lia). rewrite take_take. by rewrite Nat.min_id.
Qed.

Lemma writeAt_full l off f : (off ≤ length f)%nat →
  take (off + length l) (writeAt l (length l) off f) = take off f ++ l ∧
  (off + length l ≤ length (writeAt l (length l) off f))%nat.
Proof.
  intros Ho. unfold writeAt. replace (off - length f)%nat with 0%nat by lia. cbn [replicate]. rewrite app_nil_r.
  rewrite (take_ge l) by lia. rewrite app_assoc. assert (length (take off f ++ l) = off + length l)%nat as Hl
    by (rewrite length_app, length_take; lia).
  split; [by rewrite take_app_length' by done|]. rewrite length_app, Hl. lia.
Qed.

(** Whatever the disk does, a record once logged stays logged; a successful
    append adds the new one. *)
Lemma Append_logged r w d ok w' d' rs : canonical r → logged w rs → Append r w d = (ok, w', d') →
  wclosed w' = wclosed w ∧ (logged w' (rs ++ [r]) ∨ ok = false ∧ logged w' rs).
Proof.
  intros Hc Hlog. unfold Append. destruct (marshal_total r Hc) as [l Hl]. rewrite Hl.
  destruct (wclosed w) eqn:Ecl; [intros [= <- <- <-]; split; [done|by right]|].
  destruct (osWrite _ d) as [n d1]. destruct Hlog as (Hle & Htk & Hall). case_decide as Hn.
  - intros [= <- <- <-]. split; [done|]. right. split; [done|]. split_and!; cbn [wend file]; [|by rewrite writeAt_below|done].
    unfold writeAt. rewrite !length_app, length_take, length_app, length_drop, length_take. lia.
  - destruct (osSync d1) as [ok1 d2]. intros [= <- <- <-]. split; [done|]. left.
    rewrite Nat.min_r by lia. destruct (writeAt_full (l ++ [newline]) (wend w) (file w) Hle) as [H1 H2].
    split_and!; cbn [wend file]; [done| |].
    + rewrite H1, Htk, bind_app. change ([r] ≫= lineOf) with (lineOf r ++ []). rewrite app_nil_r.
      assert (lineOf r = l ++ [newline]) as -> by (unfold lineOf; by rewrite Hl). done.
    + apply Forall_app. split; [done|]. apply Forall_singleton. by rewrite Hl.
Qed.

(** ** Replaying *)

Lemma handleAll_app {S} (h : walRecord → S → bool * S) rs rs' s :
  handleAll h (rs ++ rs') s = let '(ok, s1) := handleAll h rs s in if ok then handleAll h rs' s1 else (false, s1).
Proof.
  revert s. induction rs as [|r rs IH]; intros s; cbn; [done|]. destruct (h r s) as [[] s1]; [apply IH|done].
Qed.

(** The outcome of a replay: it fails and the file is as it was, or every
    logged record was handled, in order, and the log is empty. *)
Lemma Replay_logged {S} (h : walRecord → S → bool * S) w d s n ok w' d' s' rs :
  logged w rs → Replay h w d s = ((n, ok), w', d', s') →
  if ok then ∃ rs', handleAll h (rs ++ rs') s = (true, s') ∧ (logged w' [] ∨ rs = [] ∧ w' = w) ∧ wclosed w' = wclosed w
  else w' = w ∧ ∃ rs', s' = s ∨ handleAll h rs' s = (false, s') ∨ handleAll h rs' s = (true, s').
Proof.
  intros (Hle & Htk & Hall). unfold Replay. destruct (wclosed w) eqn:Ecl.
  { intros [= <- <- <- <- <-]. split; [done|]. exists []. by left. }
  destruct (osRead d) as [[] d1]; cbn [negb].
  2: { intros [= <- <- <- <- <-]. split; [done|]. exists []. by left. }
  assert (∃ rs' ok', scan (lines [] (file w)) [] = (if ok' : bool then (rs ++ rs', true) else (rs', false))) as (rs' & ok' & ->).
  { rewrite <- (take_drop (wend w) (file w)), Htk, lines_logged
      by (eapply Forall_impl; [exact Hall|]; by intros ? [_ ?]).
    destruct (scan_logged_weak rs (lines [] (drop (wend w) (file w))) []) as [Hs|Hs].
    { eapply Forall_impl; [exact Hall|]. by intros ? [? _]. }
    { destruct (scan _ []) as [rs' ok']. cbn in Hs. subst ok'. by exists rs', false. }
    rewrite Hs. cbn [app]. generalize (lines [] (drop (wend w) (file w))). intros ls.
    assert (∀ acc, ∃ rs' ok', scan ls acc = (if ok' : bool then (acc ++ rs', true) else (rs', false))) as H; [|by apply H].
    induction ls as [|l ls IH]; intros acc; cbn [scan]; [by exists [], true; rewrite app_nil_r|].
    destruct (_ >=? _); [by exists [], false|]. case_decide; [apply IH|]. destruct (unmarshalRec _) as [r|]; [|by exists acc, false].
    destruct (IH (acc ++ [r])) as (rs' & [] & ->); [exists (r :: rs'), true; by rewrite <- app_assoc|by exists rs', false]. }
  destruct ok'; cbn [negb].
  2: { intros [= <- <- <- <- <-]. split; [done|]. exists []. by left. }
  destruct (handleAll h (rs ++ rs') s) as [[] s1] eqn:Eh; cbn [negb].
  2: { intros [= <- <- <- <- <-]. split; [done|]. exists (rs ++ rs'). right. by left. }
  case_decide as Hnil.
  { intros [= <- <- <- <- <-]. exists rs'. split_and!; [done| |done]. apply app_eq_nil in Hnil as [-> ->].
    right. done. }
  destruct (osTruncate d1) as [[] d2]; cbn [negb]; intros [= <- <- <- <- <-].
  - exists rs'. split_and!; [done| |done]. left. split_and!; [done..|constructor].
  - split; [done|]. exists (rs ++ rs'). right. by right.
Qed.
End Log.

(** ** The log is a queue of records *)

Section Roundtrip.
Context {J : RecordJson} {L : RecordJsonLaws J} {D : Type} {O : OS D}.

Fixpoint appendAll (rs : list walRecord) (w : WAL) (d : D) : bool * WAL * D :=
  match rs with
  | [] => (true, w, d)
  | r :: rs => let '(ok, w, d) := Append r w d in if ok then appendAll rs w d else (false, w, d)
  end.

(** The file holds the records and nothing else. *)
Definition exactly (w : WAL) (rs : list walRecord) : Prop :=
  file w = rs ≫= lineOf ∧ wend w = length (file w) ∧ wclosed w = false.

Lemma Append_exact r w d w' d' rs : canonical r → exactly w rs → Append r w d = (true, w', d') → exactly w' (rs ++ [r]).
Proof.
  intros Hc (Hf & He & Hcl). unfold Append. destruct (marshal_total r Hc) as [l Hl]. rewrite Hl, Hcl.
  destruct (osWrite _ d) as [n d1]. case_decide as Hn; [done|]. destruct (osSync d1) as [ok1 d2]. intros [= -> <- <-].
  rewrite Nat.min_r, He, writeAt_end, take_ge by lia. unfold exactly. cbn [file wend wclosed].
  assert (lineOf r = l ++ [newline]) as Hlr by (unfold lineOf; by rewrite Hl).
  rewrite bind_app, Hf. change ([r] ≫= lineOf) with (lineOf r ++ []). rewrite app_nil_r, Hlr.
  split_and!; [done|rewrite (length_app (_ ≫= _)); done|done].
Qed.

Lemma appendAll_exact rs w d w' d' rs0 : Forall canonical rs → exactly w rs0 → appendAll rs w d = (true, w', d') →
  exactly w' (rs0 ++ rs).
Proof.
  intros H. revert w d rs0. induction H as [|r rs Hc _ IH]; intros w d rs0 Hw; cbn [appendAll].
  - intros [= <- <-]. by rewrite app_nil_r.
  - destruct (Append r w d) as [[[] w1] d1] eqn:E; [|done]. intros Ha.
    replace (rs0 ++ r :: rs) with ((rs0 ++ [r]) ++ rs) by (by rewrite <- app_assoc).
    apply (IH _ _ _ (Append_exact r w d w1 d1 rs0 Hc Hw E) Ha).
Qed.

(** C26. Nothing is lost between appending and replaying: when every append to a
    new log succeeds and each record with its line end fits the scanner's
    buffer of 8 MiB (a longer one is accepted all the same, and blocks the log:
    [oversized_blocks_replay]), the log can be opened again with all of it, and
    a replay that can read the file and truncate it hands over exactly the
    records appended, in the order appended. When the handler takes them all
    the log is empty afterwards; when it refuses one, the replay stops there and
    the log is as it was. *)
Theorem wal_roundtrip {S} (h : walRecord → S → bool * S) dir rs w d0 d1 d2 d3 s s' ok :
  Forall (fun r => canonical r ∧ fits r) rs → rs ≠ [] → dir ≠ EmptyString →
  appendAll rs (mkWAL [] 0 false) d0 = (true, w, d1) →
  osRead d1 = (true, d2) → osTruncate d2 = (true, d3) →
  handleAll h rs s = (ok, s') →
  OpenWAL dir (file w) true true true = Some (Some w) ∧
  Replay h w d1 s = if ok then ((length rs, true), mkWAL [] 0 false, d3, s')
                    else ((length rs, false), w, d2, s').
Proof.
  intros Hrs Hne Hdir Ha Hr Ht Hh. pose proof Hrs as [Hc Hf]%Forall_and.
  destruct (appendAll_exact rs (mkWAL [] 0 false) d0 w d1 [] Hc) as (Hfile & Hend & Hcl); [done..|]. cbn [app] in Hfile.
  split.
  - unfold OpenWAL. rewrite decide_False by done. cbn [negb]. destruct w as [f e c]. cbn in *. by subst.
  - unfold Replay. rewrite Hcl, Hr. cbn [negb]. rewrite Hfile, <- (app_nil_r (rs ≫= lineOf)).
    rewrite lines_logged by (eapply Forall_impl; [exact Hc|]; apply marshal_total).
    rewrite scan_logged by done. cbn [lines app]. rewrite decide_True by done. cbn [scan negb]. rewrite Hh.
    destruct ok; cbn [negb]; [|done]. by rewrite decide_False, Ht by done.
Qed.

(** Finding. Append does not look at the length of a line and Replay does: a
    record of 8 MiB or more is accepted, and from then on no replay hands over
    anything, not even the records in front of it. *)
Theorem oversized_blocks_replay {S} (h : walRecord → S → bool * S) r l rs w d w' d1 d2 s :
  Forall (fun r => canonical r ∧ fits r) rs → exactly w rs →
  canonical r → marshalRec r = Some l → maxLine ≤ zlen l → Append r w d = (true, w', d1) → osRead d1 = (true, d2) →
  Replay h w' d1 s = ((0%nat, false), w', d2, s).
Proof.
  intros Hrs Hw Hc Hl Hbig Ha Hr. pose proof Hrs as [Hcs _]%Forall_and.
  destruct (Append_exact r w d w' d1 rs Hc Hw Ha) as (Hfile & _ & Hcl).
  unfold Replay. rewrite Hcl, Hr. cbn [negb]. rewrite Hfile, <- (app_nil_r (_ ≫= lineOf)).
  rewrite lines_logged by (apply Forall_app; split; [eapply Forall_impl; [exact Hcs|]; apply marshal_total|
    apply Forall_singleton; by eexists]).
  rewrite omap_app, <- app_assoc, scan_logged by done. rewrite (omap_cons_Some _ _ _ l) by done. cbn [app scan].
  destruct (Z.geb_spec (zlen l) maxLine); [done|lia].
Qed.
End Roundtrip.

(** ** A disk and two records *)

(** The bytes of an ASCII string. *)
Fixpoint ascii_bytes (s : string) : list Z :=
  match s with
  | EmptyString => []
  | String.String a s => Z.of_nat (Ascii.nat_of_ascii a) :: ascii_bytes s
  end.

Definition recA : walRecord := mkRec 1 "t" "k" (ascii_bytes "1") false.
Definition recB : walRecord := mkRec 2 "t" "k" [] true.
Definition jsonA : list Z := Eval vm_compute in ascii_bytes "{'ts':1,'table':'t','key':'k','value':1}".
Definition jsonB : list Z := Eval vm_compute in ascii_bytes "{'ts':2,'table':'t','key':'k','deleted':true}".

(** The encoding of the two records (with single quotes for double ones). *)
#[export] Instance demoJson : RecordJson := {|
  marshalRec r := if decide (r = recA) then Some jsonA else if decide (r = recB) then Some jsonB else None;
  unmarshalRec l := if decide (l = jsonA) then Some recA else if decide (l = jsonB) then Some recB else None;
  canonical r := r = recA ∨ r = recB |}.

#[export] Instance demoJsonLaws : RecordJsonLaws demoJson.
Proof.
  split; cbn.
  - intros r [->| ->]; vm_compute; eauto.
  - intros r l. repeat case_decide; intros [= <-]; (split; [apply (bool_decide_unpack _); vm_compute; exact I|]).
    + exists (removelast jsonA). reflexivity.
    + exists (removelast jsonB). reflexivity.
  - intros r l [->| ->]; vm_compute; intros [= <-]; reflexivity.
Qed.

(** A disk that writes as many bytes as it is told to, and is otherwise sound. *)
#[export] Instance demoOS : OS (list nat) := {|
  osWrite n d := match d with m :: d => (m, d) | [] => (n, []) end;
  osSync d := (true, d); osRead d := (true, d); osTruncate d := (true, d) |}.

Definition demoWAL : WAL := mkWAL ([recA; recB] ≫= lineOf) 87 false.

Lemma wal_roundtrip_witness :
  OpenWAL "data" (file demoWAL) true true true = Some (Some demoWAL) ∧
  Replay (fun r s => (true, s ++ [r])) demoWAL [] [] = ((2%nat, true), mkWAL [] 0 false, [], [recA; recB]).
Proof.
  apply (wal_roundtrip (fun r s => (true, s ++ [r])) "data" [recA; recB]
           demoWAL [] [] [] [] [] [recA; recB] true); try done.
  repeat (apply Forall_cons_2 || apply Forall_nil_2); (split; [by vm_compute; auto|vm_compute; discriminate]).
Defined.

(** Finding. A write that the disk cuts short leaves its bytes behind the end
    offset: the replay reads them, takes them for a corrupt record and stops
    before it hands over any of the healthy records in front of them. *)
Theorem torn_write_blocks_replay : ∃ w d,
  appendAll [recA] (mkWAL [] 0 false) [41%nat; 10%nat] = (true, w, d) ∧
  ∃ w' d', Append recB w d = (false, w', d') ∧ logged w' [recA] ∧
  Replay (fun r s => (true, s ++ [r])) w' d' [] = ((1%nat, false), w', d', []).
Proof.
  eexists _, _. split; [vm_compute; reflexivity|]. eexists _, _. split; [vm_compute; reflexivity|].
  split; [|vm_compute; reflexivity]. split_and!.
  - vm_compute. lia.
  - vm_compute. reflexivity.
  - apply Forall_singleton. split; [by left|]. vm_compute. eauto.
Qed.
