(* ===== verification/Storage.v ===== *)
(** * The write-back store (internal/storage/breaker.go, managed.go)

    Writes of the game logic go into a bounded queue that one worker flushes to
    the remote backend; what does not fit the queue, or cannot be written after
    the retries, goes to the local log, and what the log refuses becomes a dead
    letter and opens the breaker of its table.  The backend is a parameter: a
    state with operations that may fail.  The callers of [enqueue], the worker
    and the closer run concurrently: they interleave between the admission of a
    write and its hand-over, between the writes of a batch, and between the
    batch and the replay.  The fields after [closer] are histories. *)

From S2P Require Import Prelude Envelope Wal.

(** ** The breaker *)

Inductive breakerState := breakerClosed | breakerOpen | breakerHalfOpen.
#[global] Instance breakerState_eq_dec : EqDecision breakerState.
Proof. solve_decision. Defined.

Record tableBreaker := mkBreaker {
  cooldown : Z;
  states : gmap string breakerState;
  openAt : gmap string Z }.

Definition newTableBreaker (cd : Z) : tableBreaker := mkBreaker cd ∅ ∅.

(** A missing key of a Go map reads as the zero value. *)
Definition State (t : string) (b : tableBreaker) : breakerState := default breakerClosed (states b !! t).

Definition Allow (now : Z) (t : string) (b : tableBreaker) : bool * tableBreaker :=
  match State t b with
  | breakerClosed => (true, b)
  | breakerHalfOpen => (false, b)
  | breakerOpen =>
      if now - default 0 (openAt b !! t) >=? cooldown b
      then (true, mkBreaker (cooldown b) (<[t := breakerHalfOpen]> (states b)) (openAt b))
      else (false, b)
  end.

Definition Trip (now : Z) (t : string) (b : tableBreaker) : tableBreaker :=
  mkBreaker (cooldown b) (<[t := breakerOpen]> (states b)) (<[t := now]> (openAt b)).

Definition OnFailure (now : Z) (t : string) (b : tableBreaker) : tableBreaker :=
  if decide (State t b = breakerHalfOpen) then Trip now t b else b.

Definition OnSuccess (t : string) (b : tableBreaker) : tableBreaker :=
  mkBreaker (cooldown b) (delete t (states b)) (delete t (openAt b)).

(** ** Options *)

Record Options := mkOptions { QueueSize : Z; MaxBatch : Z; MaxRetry : Z; BreakerCooldown : Z }.

Definition fillOptions (o : Options) : Options :=
  mkOptions (if QueueSize o <=? 0 then 4096 else QueueSize o)
            (if MaxBatch o <=? 0 then 256 else MaxBatch o)
            (if MaxRetry o <? 0 then 2 else MaxRetry o)
            (if BreakerCooldown o <=? 0 then 5 * 10^9 else BreakerCooldown o).

(** ** The store *)

(** The remote backend, as far as the write path uses it. *)
Class Backend (B : Type) := {
  Put : string → string → list Z → B → bool * B;
  Delete : string → string → B → bool * B }.

(** The worker: between ticks, in an attempt of [writeBatch] (what is left of
    the pass and what failed in it), after the retries, spilling the rest to
    the log, at the replay, returned. *)
Inductive wpc :=
| WIdle
| WTry (attempt : Z) (todo failed : list walRecord)
| WFail (batch : list walRecord)
| WLog (batch : list walRecord) (tripped : gset string)
| WReplay
| WStopped.

Inductive cpc := COpen | CWait | CDrain | CReplay | CDone.

Section Store.
Context {J : RecordJson} {B D : Type} {BK : Backend B} {O : OS D}.

Record Store := mkStore {
  ch : list walRecord;
  breaker : tableBreaker;
  closing : bool;
  wal : option WAL;
  disk : D;
  backend : B;
  worker : wpc;
  closer : cpc;
  calling : list walRecord;    (* callers between the breaker and the queue *)
  accepted : list walRecord;   (* enqueue returned nil *)
  applied : list walRecord;    (* the backend took it *)
  dead : list walRecord;       (* dead letters *)
  lost : list walRecord        (* dropped by Close without a dead letter *) }.

(** The options as NewStore fills them in. *)
Variable raw : Options.
Local Notation opts := (fillOptions raw).

Definition NewStore (w : option WAL) (d : D) (b : B) : Store :=
  mkStore [] (newTableBreaker (BreakerCooldown opts)) false w d b WIdle COpen [] [] [] [] [].

Definition set_breaker (f : tableBreaker → tableBreaker) (s : Store) : Store :=
  mkStore (ch s) (f (breaker s)) (closing s) (wal s) (disk s) (backend s) (worker s) (closer s)
          (calling s) (accepted s) (applied s) (dead s) (lost s).
Definition set_worker (p : wpc) (s : Store) : Store :=
  mkStore (ch s) (breaker s) (closing s) (wal s) (disk s) (backend s) p (closer s)
          (calling s) (accepted s) (applied s) (dead s) (lost s).
Definition set_closer (p : cpc) (s : Store) : Store :=
  mkStore (ch s) (breaker s) (closing s) (wal s) (disk s) (backend s) (worker s) p
          (calling s) (accepted s) (applied s) (dead s) (lost s).
Definition set_ch (c : list walRecord) (s : Store) : Store :=
  mkStore c (breaker s) (closing s) (wal s) (disk s) (backend s) (worker s) (closer s)
          (calling s) (accepted s) (applied s) (dead s) (lost s).
Definition set_wal (w : option WAL) (d : D) (s : Store) : Store :=
  mkStore (ch s) (breaker s) (closing s) w d (backend s) (worker s) (closer s)
          (calling s) (accepted s) (applied s) (dead s) (lost s).
Definition set_calling (c : list walRecord) (s : Store) : Store :=
  mkStore (ch s) (breaker s) (closing s) (wal s) (disk s) (backend s) (worker s) (closer s)
          c (accepted s) (applied s) (dead s) (lost s).
Definition accept (r : walRecord) (s : Store) : Store :=
  mkStore (ch s) (breaker s) (closing s) (wal s) (disk s) (backend s) (worker s) (closer s)
          (calling s) (accepted s ++ [r]) (applied s) (dead s) (lost s).
Definition deadLetter (r : walRecord) (s : Store) : Store :=
  mkStore (ch s) (breaker s) (closing s) (wal s) (disk s) (backend s) (worker s) (closer s)
          (calling s) (accepted s) (applied s) (dead s ++ [r]) (lost s).
Definition lose (r : walRecord) (s : Store) : Store :=
  mkStore (ch s) (breaker s) (closing s) (wal s) (disk s) (backend s) (worker s) (closer s)
          (calling s) (accepted s) (applied s) (dead s) (lost s ++ [r]).

(** *** Writing *)

(** The two refusals of [enqueue]. *)
Definition allowWrite (now : Z) (r : walRecord) (s : Store) : option ErrCode * Store :=
  if closing s then (Some (NewErr ErrMaintenance (str "storage shutting down")), s) else
  let '(ok, b) := Allow now (Table r) (breaker s) in
  let s := set_breaker (fun _ => b) s in
  if ok then (None, s)
  else (Some (NewErr ErrStorageDegraded (str "breaker open for table " ++ str (Table r))), s).

(** Append to the log, when there is one. *)
Definition logAppend (r : walRecord) (s : Store) : bool * Store :=
  match wal s with
  | None => (false, s)
  | Some w => let '(ok, w, d) := Append r w (disk s) in (ok, set_wal (Some w) d s)
  end.

Definition spill (now : Z) (r : walRecord) (s : Store) : option ErrCode * Store :=
  let '(ok, s) := logAppend r s in
  if ok then (None, s) else
  let s := deadLetter r s in
  let s := set_breaker (Trip now (Table r)) s in
  (Some (NewErr ErrStorageDegraded (str "writeback overflow for table " ++ str (Table r))), s).

(** The send on the bounded channel, or the spill. *)
Definition offer (now : Z) (r : walRecord) (s : Store) : option ErrCode * Store :=
  if zlen (ch s) <? QueueSize opts then (None, accept r (set_ch (ch s ++ [r]) s)) else
  let '(e, s) := spill now r s in
  (e, match e with None => accept r s | Some _ => s end).

Definition enqueue (now : Z) (r : walRecord) (s : Store) : option ErrCode * Store :=
  let '(e, s) := allowWrite now r s in
  match e with Some _ => (e, s) | None => offer now r s end.

(** [Set] and [Del], on the value already encoded. *)
Definition Set_ (now : Z) (t k : string) (raw : list Z) (s : Store) : option ErrCode * Store :=
  enqueue now (mkRec now t k raw false) s.
Definition Del (now : Z) (t k : string) (s : Store) : option ErrCode * Store :=
  enqueue now (mkRec now t k [] true) s.

(** *** The worker *)

Definition apply_ (r : walRecord) (s : Store) : bool * Store :=
  let '(ok, b) := (if Deleted r then Delete (Table r) (Key r) (backend s)
                   else Put (Table r) (Key r) (Value r) (backend s)) in
  let s := mkStore (ch s) (breaker s) (closing s) (wal s) (disk s) b (worker s) (closer s)
             (calling s) (accepted s) (if ok then applied s ++ [r] else applied s) (dead s) (lost s) in
  if ok then (true, set_breaker (OnSuccess (Table r)) s) else (false, s).

Definition tryReplayWAL (s : Store) : Store :=
  match wal s with
  | None => s
  | Some w => let '(_, w, d, s) := Replay apply_ w (disk s) s in set_wal (Some w) d s
  end.

(** The non-blocking receives at the head of [flushBatch]. *)
Definition drainBatch (s : Store) : list walRecord * Store :=
  let n := Z.to_nat (MaxBatch opts) in (take n (ch s), set_ch (drop n (ch s)) s).

(** The breakers of the tables of a batch that failed, once per table. *)
Fixpoint reopen (now : Z) (batch : list walRecord) (seen : gset string) (b : tableBreaker) : tableBreaker :=
  match batch with
  | [] => b
  | r :: batch =>
      if decide (Table r ∈ seen) then reopen now batch seen b
      else reopen now batch ({[Table r]} ∪ seen) (OnFailure now (Table r) b)
  end.

(** One step of the goroutine of [flushLoop]. *)
Definition workerStep (now : Z) (s : Store) : Store :=
  match worker s with
  | WIdle =>
      let '(batch, s) := drainBatch s in
      set_worker (match batch with [] => WReplay | _ => WTry 0 batch [] end) s
  | WTry a (r :: todo) failed =>
      let '(ok, s) := apply_ r s in
      set_worker (WTry a todo (if ok then failed else failed ++ [r])) s
  | WTry a [] failed =>
      set_worker (match failed with
                  | [] => WReplay
                  | _ => if a + 1 <=? MaxRetry opts then WTry (a + 1) failed [] else WFail failed
                  end) s
  | WFail batch => set_worker (WLog batch ∅) (set_breaker (reopen now batch ∅) s)
  | WLog (r :: batch) tripped =>
      let '(ok, s) := logAppend r s in
      if ok then set_worker (WLog batch tripped) s else
      let s := deadLetter r s in
      if decide (Table r ∈ tripped) then set_worker (WLog batch tripped) s
      else set_worker (WLog batch ({[Table r]} ∪ tripped)) (set_breaker (Trip now (Table r)) s)
  | WLog [] _ => set_worker WReplay s
  | WReplay => set_worker WIdle (tryReplayWAL s)
  | WStopped => s
  end.

(** *** Closing *)

Definition CloseBegin (s : Store) : Store :=
  if closing s then s else
  mkStore (ch s) (breaker s) true (wal s) (disk s) (backend s) (worker s) CWait
          (calling s) (accepted s) (applied s) (dead s) (lost s).

(** An iteration of the drain; [expired] is the deadline of its context. *)
Definition closeDrain (expired : bool) (s : Store) : Store :=
  match ch s with
  | [] => set_closer CReplay s
  | r :: rest =>
      let '(ok, s) := apply_ r (set_ch rest s) in
      let s := if ok then s else
               match wal s with
               | Some _ => let '(ok, s) := logAppend r s in if ok then s else lose r s
               | None => deadLetter r s
               end in
      if expired then set_closer CReplay s else s
  end.

Definition closeFinish (s : Store) : Store :=
  let s := tryReplayWAL s in
  set_closer CDone (set_wal (CloseWAL <$> wal s) (disk s) s).

(** *** The system *)

(** The synchronous path: straight to the backend, past the queue and the breaker. *)
Definition SetSync (table key : string) (raw : list Z) (s : Store) : bool * Store :=
  let '(ok, b) := Put table key raw (backend s) in
  (ok, mkStore (ch s) (breaker s) (closing s) (wal s) (disk s) b (worker s) (closer s)
         (calling s) (accepted s) (applied s) (dead s) (lost s)).

(** The queue with its writers, the worker and the closing. *)
Inductive qstep (s : Store) : Store → Prop :=
| st_allow now r s' : canonical r → allowWrite now r s = (None, s') → qstep s (set_calling (calling s' ++ [r]) s')
| st_refuse now r e s' : allowWrite now r s = (Some e, s') → qstep s s'
| st_offer now r e s' : r ∈ calling s → offer now r (set_calling (remove_first r (calling s)) s) = (e, s') → qstep s s'
| st_work now : worker s ≠ WStopped → qstep s (workerStep now s)
| st_stop : worker s = WIdle → closing s = true → qstep s (set_worker WStopped s)
| st_close : qstep s (CloseBegin s)
| st_wait : closer s = CWait → worker s = WStopped → qstep s (set_closer CDrain s)
| st_drain expired : closer s = CDrain → qstep s (closeDrain expired s)
| st_finish : closer s = CReplay → qstep s (closeFinish s).

Inductive step (s : Store) : Store → Prop :=
| st_queue s' : qstep s s' → step s s'
| st_sync t k raw : step s (SetSync t k raw s).2.
End Store.
