(* ===== verification/StorageThm.v ===== *)
(** * No accepted write disappears from the write-back store

    The invariant follows a write from the moment it is accepted: it is in the
    queue, in the worker's hands, in the log, at the backend, or a dead letter.
    The breaker's half-open state is never a trap: the probe it let through is
    still on its way. *)

From S2P Require Import Prelude Envelope Wal Storage.

(** Membership in concatenations, propositionally. *)
Ltac in_app := cbn [app] in *; repeat rewrite ?elem_of_app, ?elem_of_cons, ?list_elem_of_singleton, ?elem_of_nil in *; tauto.

(** ** The breaker alone *)

Lemma State_Trip now t t' b : State t' (Trip now t b) = if decide (t' = t) then breakerOpen else State t' b.
Proof. unfold State, Trip. cbn. case_decide; subst; [by rewrite lookup_insert_eq|by rewrite lookup_insert_ne]. Qed.

Lemma State_OnSuccess t t' b : State t' (OnSuccess t b) = if decide (t' = t) then breakerClosed else State t' b.
Proof. unfold State, OnSuccess. cbn. case_decide; subst; [by rewrite lookup_delete_eq|by rewrite lookup_delete_ne]. Qed.

Lemma State_OnFailure now t t' b : State t' (OnFailure now t b) = breakerHalfOpen → State t' b = breakerHalfOpen ∧ t' ≠ t.
Proof.
  unfold OnFailure. case_decide as E; [rewrite State_Trip; case_decide; [done|tauto]|]. intros H. split; [done|].
  by intros ->.
Qed.

Lemma State_Allow now t t' b ok b' : Allow now t b = (ok, b') → State t' b' = breakerHalfOpen →
  State t' b = breakerHalfOpen ∨ t' = t ∧ ok = true.
Proof.
  unfold Allow. destruct (State t b) eqn:E; [intros [= <- <-]; auto| |intros [= <- <-]; auto].
  case_match; intros [= <- <-]; [|auto]. unfold State. cbn. destruct (decide (t' = t)) as [->|]; [auto|].
  rewrite lookup_insert_ne by done. auto.
Qed.

Lemma State_reopen now t batch seen b : State t (reopen now batch seen b) = breakerHalfOpen →
  State t b = breakerHalfOpen ∧ (t ∈ Table <$> batch → t ∈ seen).
Proof.
  revert seen b. induction batch as [|r batch IH]; intros seen b; cbn [reopen]; [by rewrite elem_of_nil|].
  rewrite fmap_cons, elem_of_cons. case_decide as Hs; intros [H1 H2]%IH.
  - split; [done|]. intros [->|?]; auto.
  - apply State_OnFailure in H1 as [H1 Hne]. split; [done|]. intros [?|?]; [done|]. set_solver.
Qed.

Section Proofs.
Context {J : RecordJson} {L : RecordJsonLaws J} {B D : Type} {BK : Backend B} {O : OS D}.
Variable opts : Options.
Notation Store := (@Store B D).
Implicit Types s : Store.

(** What the worker holds; and of that, what it may still write. *)
Definition flight s : list walRecord :=
  match worker s with WTry _ todo failed => todo ++ failed | WFail b | WLog b _ => b | _ => [] end.
Definition probes s : list walRecord :=
  match worker s with WTry _ todo failed => todo ++ failed | WFail b => b | _ => [] end.

Definition holds s (rs : list walRecord) : Prop :=
  match wal s with Some w => logged w rs | None => rs = [] end.

(** A write is somewhere, and half-open tables have a probe under way. *)
Record InvAt (s : Store) (rs : list walRecord) : Prop := {
  in_wal : holds s rs;
  in_canon : Forall canonical (calling s ++ ch s ++ flight s);
  in_kept r : r ∈ accepted s → r ∈ ch s ++ flight s ++ rs ++ applied s ++ dead s ++ lost s;
  in_open : closing s = false → lost s = [] ∧ closer s = COpen;
  in_probe t : closing s = false → State t (breaker s) = breakerHalfOpen →
    ∃ r, r ∈ calling s ++ ch s ++ probes s ++ rs ∧ Table r = t }.
Definition Inv s : Prop := ∃ rs, InvAt s rs.

(** ** The pieces *)

(** [s'] differs from [s] by what applying the records [app] does. *)
Record wrote (s s' : Store) (app : list walRecord) : Prop := {
  wr_same : ch s' = ch s ∧ closing s' = closing s ∧ wal s' = wal s ∧ disk s' = disk s ∧ worker s' = worker s ∧
            closer s' = closer s ∧ calling s' = calling s ∧ accepted s' = accepted s ∧ dead s' = dead s ∧ lost s' = lost s;
  wr_applied : applied s' = applied s ++ app;
  wr_state t : State t (breaker s') = breakerHalfOpen → State t (breaker s) = breakerHalfOpen ∧ t ∉ Table <$> app }.

Lemma wrote_refl s : wrote s s [].
Proof. split; [done|by rewrite app_nil_r|]. intros t H. split; [done|]. by apply not_elem_of_nil. Qed.

Lemma wrote_trans s1 s2 s3 a b : wrote s1 s2 a → wrote s2 s3 b → wrote s1 s3 (a ++ b).
Proof.
  intros [H1 A1 S1] [H2 A2 S2]. destruct_and!. split; [split_and!; congruence|by rewrite A2, A1, app_assoc|].
  intros t [[??]%S1 ?]%S2. split; [done|]. rewrite fmap_app. set_solver.
Qed.

Lemma apply_wrote r s ok s' : apply_ r s = (ok, s') → wrote s s' (if ok then [r] else []).
Proof.
  unfold apply_. destruct (if Deleted r then _ else _) as [[] b]; intros [= <- <-].
  - split; [done..|]. intros t. cbn. rewrite State_OnSuccess. case_decide; [done|]. set_solver.
  - split; cbn; [done|by rewrite app_nil_r|]. intros t H. split; [done|]. by apply not_elem_of_nil.
Qed.

Lemma handleAll_wrote rs s ok s' : handleAll apply_ rs s = (ok, s') →
  ∃ app, wrote s s' app ∧ (ok = true → app = rs).
Proof.
  revert s. induction rs as [|r rs IH]; intros s; cbn.
  - intros [= <- <-]. exists []. split; [apply wrote_refl|done].
  - destruct (apply_ r s) as [ok1 s1] eqn:E. apply apply_wrote in E. destruct ok1.
    + intros (app & Hw & Ha)%IH. exists ([r] ++ app). split; [by eapply wrote_trans|]. intros ->%Ha. done.
    + intros [= <- <-]. by exists [].
Qed.

(** Replaying moves logged records to the backend, or leaves them. *)
Lemma replay_ok s rs : holds s rs → ∃ app rs' s1, wrote s s1 app ∧
  (tryReplayWAL s = s1 ∨ ∃ w d, tryReplayWAL s = set_wal (Some w) d s1) ∧
  holds (tryReplayWAL s) rs' ∧ (rs' = rs ∨ rs' = [] ∧ ∀ r, r ∈ rs → r ∈ app).
Proof.
  unfold holds, tryReplayWAL. destruct (wal s) as [w|] eqn:Ew.
  2: { intros ->. exists [], [], s. rewrite Ew. split_and!; auto using wrote_refl. }
  intros Hl. destruct (Replay apply_ w (disk s) s) as [[[[n ok] w'] d'] s'] eqn:E.
  apply (Replay_logged _ _ _ _ _ _ _ _ _ rs Hl) in E. destruct ok.
  - destruct E as (extra & Hh & Hw' & _). apply handleAll_wrote in Hh as (app & Hw & Ha). specialize (Ha eq_refl). subst app.
    exists (rs ++ extra). destruct Hw' as [Hw'|[-> ->]].
    + exists [], s'. cbn. split_and!; [done|eauto|done|]. right. split; [done|]. intros r Hr. apply elem_of_app. by left.
    + exists [], s'. cbn. split_and!; [done|eauto|done|by left].
  - destruct E as [-> (rs' & Hs')].
    assert (∃ app, wrote s s' app) as [app Hw].
    { destruct Hs' as [->|[H|H]]; [eauto using wrote_refl|apply handleAll_wrote in H as (? & ? & _); eauto..]. }
    exists app, rs, s'. cbn. split_and!; [done|eauto|done|by left].
Qed.

(** The log takes a record, or not; what it held it holds. *)
Lemma logAppend_ok r s ok s' rs : canonical r → holds s rs → logAppend r s = (ok, s') →
  ∃ w d, (s' = s ∨ s' = set_wal w d s) ∧ (holds s' (rs ++ [r]) ∨ ok = false ∧ holds s' rs).
Proof.
  unfold holds, logAppend. intros Hc. destruct (wal s) as [w|] eqn:Ew.
  - intros Hl. destruct (Append r w (disk s)) as [[ok1 w1] d1] eqn:E. intros [= <- <-].
    destruct (Append_logged r w (disk s) ok1 w1 d1 rs Hc Hl E) as [_ H]. exists (Some w1), d1. cbn. split; [by right|done].
  - intros -> [= <- <-]. exists None, (disk s). split; [by left|]. right. rewrite Ew. done.
Qed.

(** ** Steps *)

Lemma remove_first_sub (r q : walRecord) l : q ∈ remove_first r l → q ∈ l.
Proof. induction l as [|x l IH]; cbn; [done|]. case_decide; set_solver. Qed.

Lemma remove_first_other (r q : walRecord) l : q ∈ l → q = r ∨ q ∈ remove_first r l.
Proof. induction l as [|x l IH]; cbn; [set_solver|]. case_decide; set_solver. Qed.

Lemma allowWrite_Inv now r s e s' : allowWrite now r s = (e, s') → Inv s →
  match e with
  | None => canonical r → Inv (set_calling (calling s' ++ [r]) s')
  | Some _ => Inv s'
  end.
Proof.
  intros Ha [rs [Hw Hc Hk Ho Hp]]. unfold allowWrite in Ha. destruct (closing s) eqn:Ecl.
  { injection Ha as <- <-. exists rs. by split; rewrite ?Ecl. }
  destruct (Allow now (Table r) (breaker s)) as [ok b] eqn:Eb. destruct ok; injection Ha as <- <-.
  - intros Hr. exists rs. split; cbn; [done| |done|by rewrite Ecl|].
    + rewrite !Forall_app in *. rewrite Forall_singleton. unfold flight in *. cbn. tauto.
    + intros t _ Ht. apply (State_Allow _ _ _ _ _ _ Eb) in Ht as [Ht|[-> _]]; [|exists r; split; [in_app|done]].
      destruct (Hp t eq_refl Ht) as (q & Hq & ?). exists q. split; [|done]. unfold probes in *. cbn. in_app.
  - exists rs. split; cbn; [done..|by rewrite Ecl|]. intros t _ Ht.
    apply (State_Allow _ _ _ _ _ _ Eb) in Ht as [Ht|[_ ?]]; [|done]. by apply Hp.
Qed.

Lemma offer_Inv now r s e s' : r ∈ calling s → offer opts now r (set_calling (remove_first r (calling s)) s) = (e, s') →
  Inv s → Inv s'.
Proof.
  intros Hr Hof [rs [Hw Hc Hk Ho Hp]].
  assert (canonical r) as Hcr by (rewrite Forall_forall in Hc; apply Hc; in_app).
  assert (Forall canonical (remove_first r (calling s) ++ ch s ++ flight s)) as Hc'.
  { rewrite Forall_forall in *. intros q Hq. apply Hc. apply elem_of_app in Hq as [?%remove_first_sub|?]; in_app. }
  assert (∀ q t, q ∈ calling s ++ ch s ++ probes s ++ rs → Table q = t →
            q = r ∨ q ∈ remove_first r (calling s) ++ ch s ++ probes s ++ rs) as Hmv.
  { intros q t Hq _. apply elem_of_app in Hq as [Hq%(remove_first_other r)|?]; in_app. }
  unfold offer, spill in Hof. cbn [ch set_calling] in Hof. destruct (zlen (ch s) <? _).
  { injection Hof as <- <-. exists rs. split; cbn; [done| | |done|].
    - rewrite !Forall_app in *. rewrite Forall_singleton. unfold flight in *. cbn. tauto.
    - intros q Hq. pose proof (Hk q). unfold flight in *. cbn. in_app.
    - intros t Hcl Ht. destruct (Hp t Hcl Ht) as (q & Hq & Hqt). exists q. split; [|done].
      unfold probes in *. cbn. destruct (Hmv q t Hq Hqt) as [->|?]; in_app. }
  destruct (logAppend r _) as [ok s1] eqn:El.
  destruct (logAppend_ok r (set_calling (remove_first r (calling s)) s) ok s1 rs Hcr Hw El) as (w & d & Hs1 & Hh).
  assert (∀ rs', holds s1 rs' → (rs' = rs ∨ rs' = rs ++ [r]) → ok = false → InvAt (set_breaker (Trip now (Table r)) (deadLetter r s1)) rs') as Hbad.
  { intros rs' Hrs Hor _. destruct Hs1 as [->| ->]; (split; cbn in *; [done|done| |done|]).
    1, 3: intros q Hq%Hk; destruct Hor as [->| ->]; unfold flight in *; cbn; in_app.
    all: intros t Hcl; rewrite State_Trip; case_decide as Hne; [done|]; intros Ht;
      destruct (Hp t Hcl Ht) as (q & Hq & Hqt); exists q; (split; [|done]);
      destruct (Hmv q t Hq Hqt) as [->|?]; [congruence|]; unfold probes in *; cbn; destruct Hor as [->| ->]; in_app. }
  destruct ok; injection Hof as <- <-.
  - destruct Hh as [Hh|[? _]]; [|done]. exists (rs ++ [r]).
    destruct Hs1 as [->| ->]; (split; cbn in *; [done|done| |done|]).
    1, 3: intros q Hq; pose proof (Hk q); unfold flight in *; cbn; in_app.
    all: intros t Hcl Ht; destruct (Hp t Hcl Ht) as (q & Hq & Hqt); exists q; (split; [|done]);
      unfold probes in *; cbn; destruct (Hmv q t Hq Hqt) as [->|?]; in_app.
  - destruct Hh as [Hh|[_ Hh]]; eexists; apply Hbad; eauto.
Qed.

(** Moving the worker or the closer without touching what they hold. *)
Lemma move_Inv s s' : Inv s → ch s' = ch s → breaker s' = breaker s → closing s' = closing s → wal s' = wal s →
  closer s' = closer s → calling s' = calling s → accepted s' = accepted s → applied s' = applied s →
  dead s' = dead s → lost s' = lost s → (∀ r, r ∈ flight s' ↔ r ∈ flight s) → (∀ r, r ∈ probes s → r ∈ probes s') → Inv s'.
Proof.
  intros [rs [Hw Hc Hk Ho Hp]] E1 E2 E3 E4 E5 E6 E7 E8 E9 E10 Hf Hpr. exists rs.
  split; unfold holds in *; rewrite ?E1, ?E2, ?E3, ?E4, ?E5, ?E6, ?E7, ?E8, ?E9, ?E10; try done.
  - rewrite Forall_forall in *. intros r Hr. apply Hc. specialize (Hf r). in_app.
  - intros r Hr%Hk. specialize (Hf r). in_app.
  - intros t Hcl Ht. destruct (Hp t Hcl Ht) as (q & Hq & ?). exists q. split; [|done]. specialize (Hpr q). in_app.
Qed.

Lemma replay_Inv s : Inv s → Inv (tryReplayWAL s).
Proof.
  intros [rs [Hw Hc Hk Ho Hp]]. destruct (replay_ok s rs Hw) as (app & rs' & s1 & [Hs Ha Hst] & Heq & Hh & Hrs).
  destruct_and! Hs. exists rs'.
  assert (∀ q, q ∈ rs → q ∈ rs' ∨ q ∈ app) as Hmv by (intros q Hq; destruct Hrs as [->|[-> H']]; auto).
  assert (∀ t, State t (breaker s1) = breakerHalfOpen → closing s = false →
            ∃ q, q ∈ calling s ++ ch s ++ probes s ++ rs' ∧ Table q = t) as Hpr.
  { intros t [Ht Hnt]%Hst Hcl. destruct (Hp t Hcl Ht) as (q & Hq & Hqt). exists q. split; [|done].
    assert (q ∉ app) by (intros Hqa; apply Hnt, list_elem_of_fmap; eauto). specialize (Hmv q). in_app. }
  destruct Heq as [Heq|(w & d & Heq)]; rewrite Heq in Hh |- *; (split; unfold flight, probes in *; cbn [set_wal ch breaker closing wal worker closer calling accepted applied dead lost];
    [exact Hh| | | |]); repeat match goal with H : _ s1 = _ s |- _ => rewrite H; clear H end; try done.
  all: try (intros q Hq%Hk; rewrite Ha; specialize (Hmv q); in_app).
  all: intros t Hcl Ht; by apply Hpr.
Qed.

(** One write at the backend, of a record the worker or the closer holds. *)
Lemma wrote_Inv s s' app rs : wrote s s' app → InvAt s rs → InvAt s' rs.
Proof.
  intros [Hs Ha Hst] [Hw Hc Hk Ho Hp]. destruct_and! Hs.
  split; unfold holds, flight, probes in *; repeat match goal with H : _ s' = _ s |- _ => rewrite H; clear H end; try done.
  - intros q Hq%Hk. rewrite Ha. in_app.
  - intros t Hcl [Ht _]%Hst. by apply Hp.
Qed.

Lemma try_Inv now a r todo failed s : worker s = WTry a (r :: todo) failed → Inv s → Inv (workerStep opts now s).
Proof.
  intros Hwk Hi. unfold workerStep. rewrite Hwk. destruct (apply_ r s) as [ok s1] eqn:E.
  apply apply_wrote in E as Hwr. destruct Hi as [rs Hi]. pose proof (wrote_Inv _ _ _ _ Hwr Hi) as Hi1.
  destruct Hwr as [Hs Ha Hst]. destruct_and! Hs. assert (worker s1 = WTry a (r :: todo) failed) as Hwk1 by congruence.
  destruct ok.
  - exists rs. destruct Hi1 as [Hw Hc Hk Ho Hp]. unfold flight, probes in *. rewrite Hwk1 in *.
    split; unfold flight, probes; cbn [set_worker ch breaker closing wal worker closer calling accepted applied dead lost]; try done.
    + rewrite Forall_forall in *. intros q Hq. apply Hc. in_app.
    + intros q Hq%Hk. rewrite Ha in *. in_app.
    + intros t Hcl Ht. destruct (Hp t Hcl Ht) as (q & Hq & Hqt). exists q. split; [|done].
      apply Hst in Ht as [_ Ht]. assert (q ≠ r) by (intros Hqr; apply Ht; rewrite <- Hqt, Hqr; by left).
      in_app.
  - apply (move_Inv s1); try done; [by exists rs| |]; unfold flight, probes; rewrite Hwk1; cbn; intros q;
      repeat rewrite ?elem_of_app, ?elem_of_cons, ?list_elem_of_singleton; try tauto.
    all: rewrite elem_of_nil; tauto.
Qed.

(** Leaving a batch to the log: its tables are not half-open any more. *)
Lemma fail_Inv now batch s : worker s = WFail batch → Inv s → Inv (workerStep opts now s).
Proof.
  intros Hwk [rs [Hw Hc Hk Ho Hp]]. unfold workerStep. rewrite Hwk. exists rs. unfold flight, probes in *. rewrite Hwk in *.
  split; unfold flight, probes; cbn [set_worker set_breaker ch breaker closing wal worker closer calling accepted applied dead lost]; try done.
  intros t Hcl [Ht Hnt]%State_reopen. destruct (Hp t Hcl Ht) as (q & Hq & Hqt). exists q. split; [|done].
  assert (q ∉ batch) as Hqb.
  { intros Hqb. apply (not_elem_of_empty (C := gset string) t), Hnt, list_elem_of_fmap. eauto. }
  rewrite elem_of_app, elem_of_app, elem_of_app in *. tauto.
Qed.

Lemma log_Inv now r batch tripped s : worker s = WLog (r :: batch) tripped → Inv s → Inv (workerStep opts now s).
Proof.
  intros Hwk [rs [Hw Hc Hk Ho Hp]]. unfold workerStep. rewrite Hwk. unfold flight, probes in *. rewrite Hwk in *.
  assert (canonical r) as Hcr by (rewrite Forall_forall in Hc; apply Hc; in_app).
  assert (Forall canonical (calling s ++ ch s ++ batch)) as Hc'.
  { rewrite Forall_forall in *. intros q Hq. apply Hc. in_app. }
  destruct (logAppend r s) as [ok s1] eqn:El. destruct (logAppend_ok r s ok s1 rs Hcr Hw El) as (w & d & Hs1 & Hh).
  assert (∃ rs', holds s1 rs' ∧ (rs' = rs ++ [r] ∨ ok = false ∧ rs' = rs)) as (rs' & Hh' & Hrs) by naive_solver.
  assert (ch s1 = ch s ∧ breaker s1 = breaker s ∧ closing s1 = closing s ∧ closer s1 = closer s ∧ calling s1 = calling s ∧
    accepted s1 = accepted s ∧ applied s1 = applied s ∧ dead s1 = dead s ∧ lost s1 = lost s) as Heq by (by destruct Hs1 as [->| ->]).
  destruct_and! Heq. exists rs'.
  assert (∀ q, q ∈ rs → q ∈ rs') as Hsub by (intros q ?; destruct Hrs as [->|[_ ->]]; in_app).
  assert (∀ q, q ∈ accepted s → ok = true ∨ q ∈ dead s ++ [r] ++ lost s ∨ q ≠ r) as Hd by (intros q _; destruct (decide (q = r)); in_app).
  destruct ok; [|case_decide]; (split; unfold holds, flight, probes in *;
    cbn [set_worker set_breaker deadLetter ch breaker closing wal worker closer calling accepted applied dead lost app] in *;
    repeat match goal with H : _ s1 = _ s |- _ => rewrite H; clear H end; try done).
  all: try (intros q Hq; specialize (Hk q Hq); specialize (Hsub q);
            destruct Hrs as [->|[? ->]]; [|done]; in_app).
  all: try (intros q Hq; specialize (Hk q Hq); specialize (Hsub q); in_app).
  all: intros t Hcl Ht; rewrite ?State_Trip in Ht; try (case_decide; [done|]);
    destruct (Hp t Hcl Ht) as (q & Hq & ?); exists q; (split; [|done]); specialize (Hsub q); in_app.
Qed.

Lemma drain_Inv now s : worker s = WIdle → Inv s → Inv (workerStep opts now s).
Proof.
  intros Hwk [rs [Hw Hc Hk Ho Hp]]. unfold workerStep, drainBatch. rewrite Hwk. exists rs.
  unfold flight, probes in *. rewrite Hwk in *.
  assert (∀ q, q ∈ ch s ↔ q ∈ take (Z.to_nat (MaxBatch (fillOptions opts))) (ch s) ∨ q ∈ drop (Z.to_nat (MaxBatch (fillOptions opts))) (ch s)) as Hsplit.
  { intros q. rewrite <- (take_drop (Z.to_nat (MaxBatch (fillOptions opts))) (ch s)) at 1. apply elem_of_app. }
  destruct (take _ (ch s)) as [|x b]; (split; unfold holds, flight, probes in *;
    cbn [set_worker set_ch ch breaker closing wal worker closer calling accepted applied dead lost app] in *; rewrite ?app_nil_r in *; try done).
  1, 4: rewrite Forall_forall in *; intros q Hq; apply Hc; specialize (Hsplit q); in_app.
  1, 3: intros q Hq%Hk; specialize (Hsplit q); in_app.
  all: intros t Hcl Ht; destruct (Hp t Hcl Ht) as (q & Hq & ?); exists q; (split; [|done]); specialize (Hsplit q); in_app.
Qed.

Lemma work_Inv now s : Inv s → Inv (workerStep opts now s).
Proof.
  intros Hi. destruct (worker s) as [|a todo failed|batch|batch tripped| |] eqn:Hwk.
  - by apply drain_Inv.
  - destruct todo as [|r todo]; [|by eapply try_Inv]. unfold workerStep. rewrite Hwk.
    apply (move_Inv s); try done; intros q; unfold flight, probes; cbn [set_worker worker]; rewrite Hwk;
      (destruct failed; [|destruct (_ <=? _)]); rewrite ?app_nil_r; done.
  - by eapply fail_Inv.
  - destruct batch as [|r batch]; [|by eapply log_Inv]. unfold workerStep. rewrite Hwk.
    apply (move_Inv s); try done; intros q; unfold flight, probes; cbn [set_worker worker]; rewrite Hwk; done.
  - unfold workerStep. rewrite Hwk. destruct (wal s) as [w|] eqn:Ew.
    + apply replay_Inv in Hi as Hi'. apply (move_Inv (tryReplayWAL s)); try done; intros q; unfold flight, probes; cbn [set_worker worker];
        destruct Hi as [rs [Hw _ _ _ _]]; destruct (replay_ok s rs Hw) as (app & rs' & s1 & [Hs _ _] & Heq & _);
        destruct_and! Hs; (destruct Heq as [-> |(w1 & d1 & ->)]; cbn [set_wal worker]); by replace (worker s1) with WReplay by congruence.
    + unfold tryReplayWAL. rewrite Ew. apply (move_Inv s); try done; intros q; unfold flight, probes; cbn [set_worker worker]; rewrite Hwk; done.
  - unfold workerStep. by rewrite Hwk.
Qed.

(** While the store closes, the closer holds the records [x]. *)
Record Closing (s : Store) (rs x : list walRecord) : Prop := {
  cl_wal : holds s rs;
  cl_canon : Forall canonical (calling s ++ ch s ++ flight s);
  cl_closing : closing s = true;
  cl_kept r : r ∈ accepted s → r ∈ x ∨ r ∈ ch s ++ flight s ++ rs ++ applied s ++ dead s ++ lost s }.

Lemma Closing_Inv s : closing s = true → Inv s ↔ ∃ rs, Closing s rs [].
Proof.
  intros Hc. split; intros [rs []]; exists rs; split; auto; try congruence.
  intros r Hr. destruct (cl_kept0 r Hr) as [[]%elem_of_nil|?]. done.
Qed.

Lemma Closing_take r rest s rs : ch s = r :: rest → Closing s rs [] → canonical r ∧ Closing (set_ch rest s) rs [r].
Proof.
  intros E [Hw Hc Hcl Hk]. rewrite E in *. split; [rewrite Forall_forall in Hc; apply Hc; in_app|]. split; cbn; try done.
  - rewrite Forall_forall in *. intros q Hq. apply Hc. unfold flight in *. cbn in Hq. in_app.
  - intros q Hq. specialize (Hk q Hq). unfold flight in *. cbn. in_app.
Qed.

Lemma Closing_wrote r ok s s' rs : wrote s s' (if ok : bool then [r] else []) → Closing s rs [r] →
  Closing s' rs (if ok then [] else [r]).
Proof.
  intros [Hs Ha _] [Hw Hc Hcl Hk]. destruct_and! Hs.
  split; unfold holds, flight in *; repeat match goal with H : _ s' = _ |- _ => rewrite H; clear H end; try done.
  intros q Hq. specialize (Hk q Hq). destruct ok; in_app.
Qed.

Lemma Closing_dead r s rs : Closing s rs [r] → Closing (deadLetter r s) rs [].
Proof. intros [Hw Hc Hcl Hk]. split; cbn; try done. intros q Hq. specialize (Hk q Hq). unfold flight in *. cbn. in_app. Qed.

Lemma Closing_log r s rs ok s' : canonical r → Closing s rs [r] → logAppend r s = (ok, s') →
  ∃ rs', Closing (if ok then s' else lose r s') rs' [].
Proof.
  intros Hr [Hw Hc Hcl Hk] El. destruct (logAppend_ok r s ok s' rs Hr Hw El) as (w & d & Hs' & Hh).
  assert (∃ rs', holds s' rs' ∧ (rs' = rs ++ [r] ∨ ok = false ∧ rs' = rs)) as (rs' & Hh' & Hrs) by naive_solver.
  exists rs'. destruct ok; destruct Hs' as [->| ->]; (split; cbn in *; try done); intros q Hq; specialize (Hk q Hq);
    unfold flight in *; cbn; (destruct Hrs as [->|[? ->]]; [|try done]); in_app.
Qed.

Lemma closeDrain_Inv e s : closing s = true → Inv s → Inv (closeDrain e s).
Proof.
  intros Hcl [rs Hi]%Closing_Inv; [|done]. assert (∀ s1 rs1, Closing s1 rs1 [] → Inv (if e then set_closer CReplay s1 else s1)) as Hend.
  { intros s1 rs1 Hi1. assert (Inv s1) as Hi2 by (apply Closing_Inv; [apply Hi1|eauto]). destruct e; [|done].
    apply Closing_Inv; [apply Hi1|]. exists rs1. destruct Hi1. by split. }
  unfold closeDrain. destruct (ch s) as [|r rest] eqn:Ech.
  { apply Closing_Inv; [done|]. exists rs. destruct Hi. by split. }
  destruct (Closing_take r rest s rs Ech Hi) as [Hr Hi1]. destruct (apply_ r (set_ch rest s)) as [ok s1] eqn:E.
  apply apply_wrote in E. pose proof (Closing_wrote r ok _ s1 rs E Hi1) as Hi2. destruct ok; [by eapply Hend|].
  destruct (wal s1); [|eapply Hend, Closing_dead, Hi2].
  destruct (logAppend r s1) as [ok s2] eqn:El. destruct (Closing_log r s1 rs ok s2 Hr Hi2 El) as [rs' Hi3].
  by eapply Hend.
Qed.

Lemma closeFinish_Inv s : closing s = true → Inv s → Inv (closeFinish s).
Proof.
  intros Hcl Hi. pose proof (replay_Inv s Hi) as [rs Hi']. assert (closing (tryReplayWAL s) = true) as Hcl'.
  { destruct Hi as [rs0 [Hw _ _ _ _]]. destruct (replay_ok s rs0 Hw) as (app & rs' & s1 & [Hs _ _] & Heq & _).
    destruct_and! Hs. destruct Heq as [->|(w & d & ->)]; cbn; congruence. }
  unfold closeFinish. exists rs. destruct Hi' as [Hw Hc Hk _ _].
  split; unfold holds, flight in *; cbn; try done; try congruence. by destruct (wal (tryReplayWAL s)).
Qed.

Lemma step_Inv s s' : step opts s s' → Inv s → Inv s'.
Proof.
  intros Hst Hi. destruct Hst as [s' [now r s'' Hr Ha|now r e s'' Ha|now r e s'' Hr Ho|now Hw|Hw Hcl| |Hc Hw|e Hc|Hc]|t k raw].
  - by apply (allowWrite_Inv _ _ _ _ _ Ha Hi).
  - by apply (allowWrite_Inv _ _ _ _ _ Ha Hi).
  - by eapply offer_Inv.
  - by apply work_Inv.
  - apply (move_Inv s); try done; intros q; unfold flight, probes; cbn; by rewrite Hw.
  - unfold CloseBegin. destruct (closing s) eqn:Ec; [done|]. destruct Hi as [rs [Hh Hcn Hk _ _]].
    exists rs. by split.
  - assert (closing s = true) as Hcl.
    { destruct Hi as [rs [_ _ _ Ho _]]. destruct (closing s); [done|]. by destruct (Ho eq_refl) as [_ ?]; congruence. }
    destruct Hi as [rs [Hh Hcn Hk _ _]]. exists rs. split; try done; cbn; congruence.
  - apply closeDrain_Inv; [|done]. destruct Hi as [rs [_ _ _ Ho _]]. destruct (closing s); [done|]. by destruct (Ho eq_refl) as [_ ?]; congruence.
  - apply closeFinish_Inv; [|done]. destruct Hi as [rs [_ _ _ Ho _]]. destruct (closing s); [done|]. by destruct (Ho eq_refl) as [_ ?]; congruence.
  - unfold SetSync. destruct (Put t k raw (backend s)) as [ok b]. by apply (move_Inv s).
Qed.

Lemma reach_Inv s s' : rtc (step opts) s s' → Inv s → Inv s'.
Proof. induction 1; eauto using step_Inv. Qed.

Lemma New_Inv w rs d b : match w with Some w => logged w rs | None => rs = [] end → Inv (NewStore opts w d b).
Proof.
  intros Hw. exists rs. split; cbn; try done; try constructor. intros r []%elem_of_nil.
Qed.

(** C25. No accepted write disappears: without a log, or from a log that holds
    the records of an earlier run as whole lines, for every backend and every
    disk, however they fail, and for every interleaving of callers, worker and
    closer, a write that Set or Del accepted is in the queue, in the worker's
    hands, in the log, was taken by the backend or is a dead letter.  Only
    Close drops writes in silence.  (A log whose last line was cut short is
    opened as it is, and swallows the next write: [torn_log_swallows].) *)
Theorem no_write_lost w0 rs0 d0 b0 s :
  match w0 with Some w => logged w rs0 | None => rs0 = [] end → rtc (step opts) (NewStore opts w0 d0 b0) s →
  ∃ rs, holds s rs ∧
    (∀ r, r ∈ accepted s → r ∈ ch s ++ flight s ++ rs ++ applied s ++ dead s ++ lost s) ∧
    (closing s = false → lost s = []).
Proof.
  intros Hw Hr. destruct (reach_Inv _ _ Hr (New_Inv w0 rs0 d0 b0 Hw)) as [rs [H1 _ H3 H4 _]].
  exists rs. split_and!; [done|done|]. by intros [? _]%H4.
Qed.

(** The breaker cannot get stuck half-open: while the store is open, a
    table in the half-open state (which refuses every write) has a write under
    way, in a caller's hands, in the queue, in the worker's batch or in the
    log, whose outcome will close the breaker or open it again. *)
Theorem halfopen_has_probe w0 rs0 d0 b0 s t :
  match w0 with Some w => logged w rs0 | None => rs0 = [] end → rtc (step opts) (NewStore opts w0 d0 b0) s →
  closing s = false → State t (breaker s) = breakerHalfOpen →
  ∃ rs r, holds s rs ∧ r ∈ calling s ++ ch s ++ probes s ++ rs ∧ Table r = t.
Proof.
  intros Hw Hr Hc Ht. destruct (reach_Inv _ _ Hr (New_Inv w0 rs0 d0 b0 Hw)) as [rs [H1 _ _ _ H5]].
  destruct (H5 t Hc Ht) as (r & ? & ?). by exists rs, r.
Qed.
End Proofs.

(** ** A backend with a schedule of failures *)

(** The outcomes to come (success when the list runs out) and the rows. *)
Definition demoBackend : Type := list bool * gmap (string * string) (list Z).
Definition outcome_ (b : demoBackend) (f : gmap (string * string) (list Z) → gmap (string * string) (list Z)) : bool * demoBackend :=
  match b with
  | (ok :: os, m) => (ok, (os, if ok then f m else m))
  | ([], m) => (true, ([], f m))
  end.
#[export] Instance demoBackend_Backend : Backend demoBackend := {|
  Put t k v b := outcome_ b (<[(t, k) := v]>);
  Delete t k b := outcome_ b (delete (t, k)) |}.

Definition demoOpts : Options := mkOptions 4 4 0 5.
Definition demoStore (w : option WAL) (d : list nat) (b : demoBackend) : Store := NewStore demoOpts w d b.
Definition emptyWAL : WAL := mkWAL [] 0 false.

Lemma emptyWAL_logged : logged emptyWAL [].
Proof. split_and!; [done..|constructor]. Qed.

(** Runs as lists of actions. *)
Inductive action :=
| AAdmit (now : Z) (r : walRecord)
| AOffer (now : Z) (r : walRecord)
| AWork
| AClose
| AStop
| AWait
| ADrain
| AFinish
| ASync (t k : string) (raw : list Z).

Definition act (o : Options) (a : action) (s : Store) : option (@Store demoBackend (list nat)) :=
  match a with
  | AAdmit now r =>
      match allowWrite now r s with (None, s') => Some (set_calling (calling s' ++ [r]) s') | (Some _, s') => Some s' end
  | AOffer now r =>
      if mem r (calling s) then Some (offer o now r (set_calling (remove_first r (calling s)) s)).2 else None
  | AWork => match worker s with WStopped => None | _ => Some (workerStep o 0 s) end
  | AClose => Some (CloseBegin s)
  | AStop => match worker s with WIdle => if closing s then Some (set_worker WStopped s) else None | _ => None end
  | AWait => match closer s, worker s with CWait, WStopped => Some (set_closer CDrain s) | _, _ => None end
  | ADrain => match closer s with CDrain => Some (closeDrain false s) | _ => None end
  | AFinish => match closer s with CReplay => Some (closeFinish s) | _ => None end
  | ASync t k raw => Some (SetSync t k raw s).2
  end.

Fixpoint exec (o : Options) (acts : list action) (s : Store) : option Store :=
  match acts with [] => Some s | a :: acts => s' ← act o a s; exec o acts s' end.

Lemma act_step o a s s' : match a with AAdmit _ r => canonical r | _ => True end → act o a s = Some s' → step o s s'.
Proof.
  destruct a as [now r|now r| | | | | | |t k raw]; cbn [act]; intros Hc.
  - destruct (allowWrite now r s) as [[e|] s1] eqn:E; intros [= <-]; [by eapply st_queue, st_refuse|by eapply st_queue, st_allow].
  - destruct (mem r (calling s)) eqn:E; [|done]. apply bool_decide_eq_true in E. intros [= <-].
    destruct (offer _ _ _ _) as [e s1] eqn:Eo. by eapply st_queue, st_offer.
  - destruct (worker s) eqn:E; intros [= <-]; apply st_queue, st_work; congruence.
  - intros [= <-]. apply st_queue, st_close.
  - destruct (worker s) eqn:E; try done. destruct (closing s) eqn:Ec; [|done]. intros [= <-]. by apply st_queue, st_stop.
  - destruct (closer s) eqn:E; try done. destruct (worker s) eqn:Ew; try done. intros [= <-]. by apply st_queue, st_wait.
  - destruct (closer s) eqn:E; try done. intros [= <-]. by apply st_queue, st_drain.
  - destruct (closer s) eqn:E; try done. intros [= <-]. by apply st_queue, st_finish.
  - intros [= <-]. apply st_sync.
Qed.

Lemma exec_reach o acts s s' : Forall (fun a => match a with AAdmit _ r => canonical r | _ => True end) acts →
  exec o acts s = Some s' → rtc (step o) s s'.
Proof.
  intros H. revert s. induction H as [|a acts Ha _ IH]; intros s; cbn [exec]; [intros [= <-]; apply rtc_refl|].
  destruct (act o a s) as [s1|] eqn:E; [|done]. intros Hs. eapply rtc_l; [by eapply act_step|by apply IH].
Qed.

Ltac by_exec acts :=
  apply (exec_reach _ acts);
  [repeat (apply Forall_cons_2 || apply Forall_nil_2); cbn; tauto|vm_compute; reflexivity].

(** The state after a write was accepted. *)
Definition demoQueued : Store := (enqueue demoOpts 0 recA (demoStore (Some emptyWAL) [] ([], ∅))).2.

Lemma demoQueued_reach : rtc (step demoOpts) (demoStore (Some emptyWAL) [] ([], ∅)) demoQueued.
Proof. by_exec [AAdmit 0 recA; AOffer 0 recA]. Qed.

Lemma no_write_lost_witness : ∃ rs, holds demoQueued rs ∧
  (∀ r, r ∈ accepted demoQueued →
     r ∈ ch demoQueued ++ flight demoQueued ++ rs ++ applied demoQueued ++ dead demoQueued ++ lost demoQueued) ∧
  (closing demoQueued = false → lost demoQueued = []).
Proof. exact (no_write_lost demoOpts (Some emptyWAL) [] [] ([], ∅) demoQueued emptyWAL_logged demoQueued_reach). Defined.

(** A table whose breaker opened (the queue full, no log) and cooled down. *)
Definition tinyOpts : Options := mkOptions 1 4 0 5.
Definition tinyActs : list action := [AAdmit 0 recA; AOffer 0 recA; AAdmit 0 recA; AOffer 0 recA; AAdmit 7 recB].
Definition demoHalf : Store :=
  default (NewStore tinyOpts None [] ([], ∅)) (exec tinyOpts tinyActs (NewStore tinyOpts None [] ([], ∅))).

Lemma demoHalf_reach : rtc (step tinyOpts) (NewStore tinyOpts None [] ([], ∅)) demoHalf.
Proof. by_exec tinyActs. Qed.

Lemma halfopen_has_probe_witness : ∃ rs r, holds demoHalf rs ∧
  r ∈ calling demoHalf ++ ch demoHalf ++ probes demoHalf ++ rs ∧ Table r = "t"%string.
Proof.
  exact (halfopen_has_probe tinyOpts None [] [] ([], ∅) demoHalf "t" eq_refl demoHalf_reach eq_refl eq_refl).
Defined.

(** Finding. A log whose last line was cut short is opened as if it were whole,
    and the next record is appended to that line: an accepted write is then
    nowhere but in a line that is no record, and no replay gets past it. *)
Definition tornFile : list Z := lineOf recA ++ take 10 jsonB.
Definition tornActs : list action := [AAdmit 0 recA; AOffer 0 recA; AAdmit 0 recB; AOffer 0 recB].
Definition tornStore :=
  NewStore tinyOpts (Some (mkWAL tornFile (length tornFile) false)) ([] : list nat) (([], ∅) : demoBackend).
Definition tornAfter := default tornStore (exec tinyOpts tornActs tornStore).

Theorem torn_log_swallows :
  OpenWAL "data" tornFile true true true = Some (Some (mkWAL tornFile (length tornFile) false)) ∧
  rtc (step tinyOpts) tornStore tornAfter ∧ recB ∈ accepted tornAfter ∧ closing tornAfter = false ∧
  recB ∉ ch tornAfter ++ flight tornAfter ++ applied tornAfter ++ dead tornAfter ++ lost tornAfter ∧
  ∃ w, wal tornAfter = Some w ∧
    Replay (fun r l => (true, l ++ [r])) w (disk tornAfter) [] = ((1%nat, false), w, disk tornAfter, []).
Proof.
  assert (accepted tornAfter = [recA; recB]) as Ha by (vm_compute; reflexivity).
  assert (ch tornAfter ++ flight tornAfter ++ applied tornAfter ++ dead tornAfter ++ lost tornAfter = [recA]) as Hp
    by (vm_compute; reflexivity).
  split; [reflexivity|]. split; [by_exec tornActs|]. rewrite Ha, Hp.
  split; [right; left|]. split; [vm_compute; reflexivity|]. split; [by intros ?%list_elem_of_singleton|].
  eexists. split; [vm_compute; reflexivity|]. vm_compute. reflexivity.
Qed.

(** Finding. An accepted write is not visible to reads of the same node: Get
    goes to the backend, which has not seen it. *)
Theorem set_not_visible : ∃ s, enqueue demoOpts 0 recA (demoStore (Some emptyWAL) [] ([], ∅)) = (None, s) ∧
  (backend s).2 !! (Table recA, Key recA) = None.
Proof. eexists. split; [vm_compute; reflexivity|reflexivity]. Qed.

(** Finding. The log is replayed without regard to time: a write that went to
    the log while the backend was down is applied after a later write of the
    same key, which it undoes (here a deleted row comes back). *)
Theorem replay_undoes_newer : ∃ s,
  rtc (step demoOpts) (demoStore (Some emptyWAL) [] ([false; false], ∅)) s ∧
  accepted s = [recA; recB] ∧ applied s = [recB; recA] ∧
  (backend s).2 !! (Table recA, Key recA) = Some (Value recA).
Proof.
  set (acts := [AAdmit 0 recA; AOffer 0 recA; AWork; AWork; AWork; AWork; AWork; AWork; AWork;
               AAdmit 0 recB; AOffer 0 recB; AWork; AWork; AWork; AWork]).
  exists (default (demoStore (Some emptyWAL) [] ([false; false], ∅)) (exec demoOpts acts (demoStore (Some emptyWAL) [] ([false; false], ∅)))). split.
  { by_exec acts. }
  split_and!; vm_compute; reflexivity.
Qed.

(** Finding. A queued write is flushed after a later synchronous write of the
    same key, which it undoes: a checkpoint of a profile that waits in the queue
    overwrites the patch that was saved in the meantime. *)
Theorem queued_undoes_sync : ∃ s,
  rtc (step demoOpts) (demoStore (Some emptyWAL) [] ([], ∅)) s ∧ Value recA ≠ [1] ∧
  (∃ s0, rtc (step demoOpts) s0 s ∧ (backend s0).2 !! (Table recA, Key recA) = Some [1] ∧ ch s0 = [recA]) ∧
  (backend s).2 !! (Table recA, Key recA) = Some (Value recA).
Proof.
  set (pre := [AAdmit 0 recA; AOffer 0 recA; ASync (Table recA) (Key recA) [1]]). set (post := [AWork; AWork; AWork]).
  set (s0 := default (demoStore (Some emptyWAL) [] ([], ∅)) (exec demoOpts pre (demoStore (Some emptyWAL) [] ([], ∅)))).
  set (s := default s0 (exec demoOpts post s0)).
  assert (H1 : rtc (step demoOpts) (demoStore (Some emptyWAL) [] ([], ∅)) s0) by by_exec pre.
  assert (H2 : rtc (step demoOpts) s0 s) by by_exec post.
  exists s. split; [by etrans|]. split; [by vm_compute|]. split; [exists s0; split; [done|split; vm_compute; reflexivity]|vm_compute; reflexivity].
Qed.

(** Finding. Close ignores the error of the log: a write the backend and the
    log both refuse disappears without a dead letter. *)
Theorem close_drops_write : ∃ s,
  rtc (step demoOpts) (demoStore (Some emptyWAL) [3%nat] ([false], ∅)) s ∧
  accepted s = [recA] ∧ lost s = [recA] ∧ dead s = [] ∧ applied s = [].
Proof.
  set (acts := [AAdmit 0 recA; AOffer 0 recA; AClose; AStop; AWait; ADrain]).
  exists (default (demoStore (Some emptyWAL) [3%nat] ([false], ∅)) (exec demoOpts acts (demoStore (Some emptyWAL) [3%nat] ([false], ∅)))). split.
  { by_exec acts. }
  split_and!; vm_compute; reflexivity.
Qed.

(** Finding. A caller that passed the closing check before Close began can be
    told that its write was accepted after Close returned; nobody will drain
    the queue it is in. *)
Theorem late_write_stranded : ∃ s,
  rtc (step demoOpts) (demoStore (Some emptyWAL) [] ([], ∅)) s ∧
  closer s = CDone ∧ accepted s = [recA] ∧ ch s = [recA].
Proof.
  set (acts := [AAdmit 0 recA; AClose; AStop; AWait; ADrain; AFinish; AOffer 0 recA]).
  exists (default (demoStore (Some emptyWAL) [] ([], ∅)) (exec demoOpts acts (demoStore (Some emptyWAL) [] ([], ∅)))). split.
  { by_exec acts. }
  split_and!; vm_compute; reflexivity.
Qed.
