(* ===== verification/Config.v ===== *)
(** * Configuration (internal/config/config.go) and what start-up makes of it
    (Build of internal/app/server.go, buildStorage of internal/app/storage_wire.go,
    the address helpers of internal/app/role.go)

    A configuration is a record per section.  Durations and sizes are integers
    (nanoseconds, bytes).  Reading the file, expanding its variables and parsing
    YAML are libraries, given as parameters; [Validate] returns the first
    complaint in the order of the source. *)

From S2P Require Import Prelude Frame ConnLink Redis Registry RegistryThm SessionManager Connector Wal Storage.

Definition ms : Z := 10^6.
Definition sec : Z := 10^9.

(** ** Sections *)

Module Cfg.
Record TCPConfig := mkTCP {
  Addr : string; ReadTimeout : Z; WriteChannelSize : Z; WriteFlushInterval : Z; MaxFrameSize : Z; TCPNoDelay : bool }.
Record WSConfig := mkWS {
  wsEnabled : bool; wsAddr : string; wsPath : string; wsOrigins : list string; wsReadTimeout : Z; wsChannelSize : Z; wsMaxFrame : Z }.
Record SessionConfig := mkSess {
  GracePeriod : Z; ReplayBuffer : Z; HeartbeatMS : Z; MaxLoginBody : Z; SweepInterval : Z }.
Record StorageConfig := mkSto {
  Driver : string; RedisAddr : string; RedisDB : Z; MySQLDSN : string; WriteBackQueue : Z; FlushInterval : Z; FlushBatch : Z;
  FlushRetry : Z; WALPath : string; BreakerCooldown : Z; SyncTimeout : Z }.
Record ClusterConfig := mkClu {
  NodeID : string; Modules : list string; DrainDeadline : Z; cRedisAddr : string; cRedisDB : Z; NodeTTL : Z; InternalAddr : string;
  InternalAdvertiseAddr : string; RouteTTL : Z; KeepaliveInterval : Z; ReconnCheck : Z }.
Record AdminConfig := mkAdm { admAddr : string; TrustedCIDRs : list string }.
Record PProfConfig := mkPP { ppEnabled : bool; ppAddr : string }.

Record Config := mkCfg {
  Role : string; TCP : TCPConfig; WS : WSConfig; Session : SessionConfig; Storage : StorageConfig; CheckpointInterval : Z;
  Cluster : ClusterConfig; Admin : AdminConfig; LogLevel : string; PProf : PProfConfig }.
End Cfg.
Import Cfg.

Definition Default : Cfg.Config := {|
  Role := "standalone";
  TCP := mkTCP ":7000" (30 * sec) 256 (2 * ms) (64 * 1024) true;
  WS := mkWS false ":7001" "/ws" [] (30 * sec) 256 (64 * 1024);
  Session := mkSess (60 * sec) 256 15000 4096 (5 * sec);
  Storage := mkSto "memory" "" 0 "" 4096 (10 * ms) 256 2 "./data/wal" (5 * sec) (2 * sec);
  CheckpointInterval := 60 * sec;
  Cluster := mkClu "" [] (20 * 60 * sec) "" 0 (15 * sec) "" "" (24 * 3600 * sec) (30 * sec) (2 * sec);
  Admin := mkAdm "127.0.0.1:7100" [];
  LogLevel := "info";
  PProf := mkPP false "127.0.0.1:6060" |}.

(** ** Validation *)

Inductive cfgErr :=
| EBadRole | ENoTCPAddr | EReadTimeout | EChannelSize | EFlushInterval | EMaxFrame | ELogLevel | EPProfAddr | EWSAddr | EWSPath
| EReplayBuffer | EGracePeriod | EMaxLoginBody | ENoDriver | EBadDriver | ERedisAddr | EMySQLDSN
| ENodeID | EModules | EDrainDeadline | ENodeTTL | EInternalAddr | ERouteTTL | EKeepalive | EReconnCheck.

Definition oneOf (s : string) (l : list string) : bool := bool_decide (s ∈ l).
Definition empty (s : string) : bool := bool_decide (s = ""%string).

(** The checks in order, each with its condition of failure. *)
Fixpoint firstFailure (checks : list (bool * cfgErr)) : option cfgErr :=
  match checks with
  | [] => None
  | (b, e) :: rest => if b then Some e else firstFailure rest
  end.

Definition clusterChecks (c : Cfg.Config) : list (bool * cfgErr) :=
  let k := Cluster c in
  [(empty (NodeID k), ENodeID);
   (String.eqb (Role c) "logic" && bool_decide (Modules k = []), EModules);
   (DrainDeadline k <=? 0, EDrainDeadline);
   (NodeTTL k <=? 0, ENodeTTL);
   (negb (empty (InternalAdvertiseAddr k)) && empty (InternalAddr k), EInternalAddr);
   (negb (empty (cRedisAddr k)) && (RouteTTL k <=? 0), ERouteTTL);
   (negb (empty (InternalAddr k)) && (KeepaliveInterval k <=? 0), EKeepalive);
   (negb (empty (InternalAddr k)) && (ReconnCheck k <=? 0), EReconnCheck)].

Definition Validate (c : Cfg.Config) : option cfgErr :=
  let t := TCP c in let s := Storage c in
  firstFailure (
    [(negb (oneOf (Role c) ["standalone"; "gateway"; "logic"]%string), EBadRole);
     (empty (Addr t), ENoTCPAddr);
     (Cfg.ReadTimeout t <=? 0, EReadTimeout);
     (Cfg.WriteChannelSize t <=? 0, EChannelSize);
     (Cfg.WriteFlushInterval t <=? 0, EFlushInterval);
     (Cfg.MaxFrameSize t <? 64, EMaxFrame);
     (negb (oneOf (LogLevel c) ["debug"; "info"; "warn"; "error"]%string), ELogLevel);
     (ppEnabled (PProf c) && empty (ppAddr (PProf c)), EPProfAddr);
     (wsEnabled (WS c) && empty (wsAddr (WS c)), EWSAddr);
     (wsEnabled (WS c) && empty (wsPath (WS c)), EWSPath);
     (ReplayBuffer (Session c) <=? 0, EReplayBuffer);
     (Cfg.GracePeriod (Session c) <=? 0, EGracePeriod);
     (MaxLoginBody (Session c) <=? 0, EMaxLoginBody);
     (empty (Driver s), ENoDriver);
     (negb (oneOf (Driver s) ["memory"; "redis"; "mysql"]%string), EBadDriver);
     (String.eqb (Driver s) "redis" && empty (RedisAddr s), ERedisAddr);
     (String.eqb (Driver s) "mysql" && empty (MySQLDSN s), EMySQLDSN)] ++
    if String.eqb (Role c) "standalone" then [] else clusterChecks c).

(** [Load]: the file, with its variables expanded, over the defaults. *)
Inductive loadErr := ERead | EParse | EInvalid (e : cfgErr).
Definition Load (readFile : string → option (list Z)) (expandEnv : list Z → list Z)
    (unmarshal : list Z → Cfg.Config → option Cfg.Config) (path : string) : loadErr + Cfg.Config :=
  match readFile path with
  | None => inl ERead
  | Some raw =>
      match unmarshal (expandEnv raw) Default with
      | None => inl EParse
      | Some cfg => match Validate cfg with Some e => inl (EInvalid e) | None => inr cfg end
      end
  end.

(** ** What the components are built with *)

Definition sessionOf (c : Cfg.Config) : SessionManager.Config :=
  let s := Session c in SessionManager.mkConfig (ReplayBuffer s) (Cfg.GracePeriod s) (Cfg.SweepInterval s) (Cfg.HeartbeatMS s).
Definition tcpOf (c : Cfg.Config) : ConnLink.Options :=
  let t := TCP c in
  ConnLink.mkOptions (Cfg.ReadTimeout t) (Cfg.WriteChannelSize t) (Cfg.WriteFlushInterval t) 0 (Cfg.MaxFrameSize t) (TCPNoDelay t).
Definition wsOf (c : Cfg.Config) : WSOptions :=
  let w := WS c in mkWSOptions (ConnLink.mkOptions (wsReadTimeout w) (wsChannelSize w) 0 0 (wsMaxFrame w) false) (wsOrigins w) 0 0.
Definition storeOf (c : Cfg.Config) : Storage.Options :=
  let s := Storage c in Storage.mkOptions (WriteBackQueue s) (FlushBatch s) (FlushRetry s) (Cfg.BreakerCooldown s).

(** [buildStorage]: the memory store, or a write-back store over a backend whose
    connection is tried within the time limit. *)
Inductive built := UseMemory | UseRedis (log : option WAL) | UseMySQL (log : option WAL).
Inductive buildErr := EConnect | EUnknownDriver | EOpenLog.
Definition buildStorage (connect : Z → bool) (openLog : string → option (option WAL)) (c : Cfg.Config) : buildErr + built :=
  let s := Storage c in
  if oneOf (Driver s) ["memory"; ""]%string then inr UseMemory else
  let backend :=
    if String.eqb (Driver s) "redis" then if connect (SyncTimeout s) then inr UseRedis else inl EConnect
    else if String.eqb (Driver s) "mysql" then if connect (SyncTimeout s) then inr UseMySQL else inl EConnect
    else inl EUnknownDriver in
  match backend with
  | inl e => inl e
  | inr mk => match openLog (WALPath s) with None => inl EOpenLog | Some w => inr (mk w) end
  end.

(** The address other nodes dial. *)
Definition internalAdvertise (k : ClusterConfig) : string :=
  if empty (InternalAdvertiseAddr k) then InternalAddr k else InternalAdvertiseAddr k.

(** ** Theorems *)

Lemma firstFailure_None l : firstFailure l = None ↔ Forall (fun x => x.1 = false) l.
Proof.
  induction l as [|[[] e] l IH]; cbn.
  - split; [constructor|done].
  - split; [done|]. by intros [? _]%Forall_cons.
  - rewrite Forall_cons, IH. naive_solver.
Qed.
Lemma empty_false s : empty s = false ↔ s ≠ ""%string.
Proof. apply bool_decide_eq_false. Qed.
Lemma orDefault_pos v d : 0 < d → 0 < orDefault v d.
Proof. unfold orDefault. case_decide; lia. Qed.
Lemma orDefault_id v d : 0 < v → orDefault v d = v.
Proof. intros. unfold orDefault. by rewrite decide_False by lia. Qed.

(** A configuration that is accepted is used as it was written: its session,
    connection and login limits reach the components without a default taking
    their place, every interval and size a component runs with is positive, the
    storage driver is one that start-up knows, and a node of a cluster has a name,
    a lifetime and the addresses that belong together.  The defaults are accepted. *)
Theorem config_used c :
  Validate c = None →
  (let s := withDefaults (sessionOf c) in
   SessionManager.ReplayCapacity s = ReplayBuffer (Session c) ∧ SessionManager.GracePeriod s = Cfg.GracePeriod (Session c) ∧
   0 < SessionManager.ReplayCapacity s ∧ 0 < SessionManager.GracePeriod s ∧ 0 < SessionManager.SweepInterval s ∧ 0 < SessionManager.HeartbeatMS s) ∧
  tcpOptions (tcpOf c) = ConnLink.mkOptions (Cfg.ReadTimeout (TCP c)) (Cfg.WriteChannelSize (TCP c)) (Cfg.WriteFlushInterval (TCP c)) (4 * 1024)
    (Cfg.MaxFrameSize (TCP c)) (TCPNoDelay (TCP c)) ∧
  (let o := wsBase (applyWSDefaults (wsOf c)) in
   0 < ConnLink.ReadTimeout o ∧ 0 < ConnLink.WriteChannelSize o ∧ 0 < ConnLink.WriteFlushInterval o ∧ 0 < ConnLink.MaxFrameSize o) ∧
  (let o := fillOptions (storeOf c) in 0 < QueueSize o ∧ 0 < MaxBatch o ∧ 0 ≤ MaxRetry o ∧ 0 < Storage.BreakerCooldown o) ∧
  bodyLimit (MaxLoginBody (Session c)) = MaxLoginBody (Session c) ∧
  (∀ connect openLog, buildStorage connect openLog c ≠ inl EUnknownDriver) ∧
  (Role c ≠ "standalone"%string → NodeID (Cluster c) ≠ ""%string ∧ 0 < Cfg.NodeTTL (Cluster c) ∧ 0 < DrainDeadline (Cluster c) ∧
    (internalAdvertise (Cluster c) = ""%string ↔ InternalAddr (Cluster c) = ""%string)) ∧
  Validate Default = None.
Proof.
  unfold Validate. rewrite firstFailure_None, Forall_app. intros [H1 H2].
  repeat match goal with H : Forall _ (_ :: _) |- _ => apply Forall_cons in H as [? H]; cbn [fst] in * end.
  repeat match goal with H : (_ <=? _) = false |- _ => apply Z.leb_gt in H | H : (_ <? _) = false |- _ => apply Z.ltb_ge in H end.
  cbv zeta. split_and!.
  - unfold withDefaults, sessionOf. cbn. repeat case_decide; lia.
  - unfold withDefaults, sessionOf. cbn. repeat case_decide; lia.
  - unfold withDefaults, sessionOf. cbn. repeat case_decide; lia.
  - unfold withDefaults, sessionOf. cbn. repeat case_decide; lia.
  - unfold withDefaults, sessionOf. cbn. repeat case_decide; lia.
  - unfold withDefaults, sessionOf. cbn. repeat case_decide; lia.
  - unfold tcpOptions, tcpOf. cbn [ConnLink.WriteChannelSize ConnLink.WriteFlushInterval ConnLink.MaxFrameSize ConnLink.ReadTimeout ConnLink.WriteFlushBytes ConnLink.NoDelay].
    rewrite (orDefault_id (Cfg.WriteChannelSize _)), (orDefault_id (Cfg.WriteFlushInterval _)), (orDefault_id (Cfg.MaxFrameSize _)) by lia. reflexivity.
  - apply orDefault_pos. reflexivity.
  - apply orDefault_pos. reflexivity.
  - apply orDefault_pos. reflexivity.
  - apply orDefault_pos. reflexivity.
  - unfold fillOptions, storeOf. cbn. destruct (Z.leb_spec (WriteBackQueue (Storage c)) 0); lia.
  - unfold fillOptions, storeOf. cbn. destruct (Z.leb_spec (FlushBatch (Storage c)) 0); lia.
  - unfold fillOptions, storeOf. cbn. destruct (Z.ltb_spec (FlushRetry (Storage c)) 0); lia.
  - unfold fillOptions, storeOf. cbn. destruct (Z.leb_spec (Cfg.BreakerCooldown (Storage c)) 0); lia.
  - unfold bodyLimit. by rewrite decide_False by lia.
  - intros connect openLog. unfold buildStorage. destruct (oneOf _ ["memory"; ""]%string) eqn:E; [done|].
    match goal with H : negb (oneOf (Driver _) _) = false |- _ => apply negb_false_iff, bool_decide_eq_true in H; rename H into Hd end.
    apply bool_decide_eq_false in E.
    destruct (String.eqb_spec (Driver (Storage c)) "redis") as [Hr|Hr].
    { destruct (connect _); [|done]. by destruct (openLog _). }
    destruct (String.eqb_spec (Driver (Storage c)) "mysql") as [Hm|Hm]; [destruct (connect _); [|done]; by destruct (openLog _)|].
    exfalso. set_solver.
  - intros Hrole. apply String.eqb_neq in Hrole. rewrite Hrole in H2. unfold clusterChecks in H2.
    repeat match goal with H : Forall _ (_ :: _) |- _ => apply Forall_cons in H as [? H]; cbn [fst] in * end.
    repeat match goal with H : (_ <=? _) = false |- _ => apply Z.leb_gt in H end.
    split_and!; [by apply empty_false|done|done|]. unfold internalAdvertise.
    destruct (empty (InternalAdvertiseAddr (Cluster c))) eqn:Ea; [done|]. apply empty_false in Ea.
    match goal with H : negb false && empty (InternalAddr _) = false |- _ => cbn in H; apply empty_false in H end. done.
  - reflexivity.
Qed.

Lemma config_used_witness : bodyLimit (MaxLoginBody (Session Default)) = 4096 ∧ 0 < SessionManager.ReplayCapacity (withDefaults (sessionOf Default)).
Proof.
  destruct (config_used Default eq_refl) as ((_ & _ & H & _) & _ & _ & _ & Hb & _). split; [exact Hb|exact H].
Defined.

(** ** Findings *)

(** A configuration with some of the cluster's settings. *)
Definition clusterCfg (ttl route : Z) : Cfg.Config :=
  mkCfg "logic" (TCP Default) (WS Default) (Session Default) (Storage Default) (CheckpointInterval Default)
    (mkClu "logic-1" ["snake"]%string (20 * 60 * sec) "redis:6379" 0 ttl "" "" route (30 * sec) (2 * sec)) (Admin Default) "info" (PProf Default).

Section Lifetime.
Context {R : Type} `{X : Redis R} {L : RedisLaws X}.

(** Finding.  A lifetime of at most five seconds is accepted, but a logic node
    beats every five seconds: its entry is gone before the first heartbeat, which
    fails, and so does every later one. *)
Theorem short_node_ttl ttl now info (s : Registry.server R) :
  0 < ttl ≤ 5 * sec → node_wf (Registry.stamp now info) → LastBeat info = None → -2^63 ≤ now < 2^63 →
  let cfg := Registry.mkConfig ttl (5 * sec) "cluster:nodes:change" in
  Validate (clusterCfg ttl (24 * 3600 * sec)) = None ∧
  ∃ s0, rRegister Done Done now cfg info s = (None, s0) ∧
    ∀ k, 1 ≤ k → rHeartbeat Done Done (now + k * (5 * sec)) cfg (ID info) 0 s0 = (Some (ErrNotRegistered (ID info)), s0).
Proof.
  intros Ht Hw Hb Hn cfg. split.
  - unfold Validate. apply firstFailure_None. repeat (apply Forall_cons; split; [cbn; try reflexivity|]); try constructor.
    destruct (Z.leb_spec ttl 0); [lia|done].
  - destruct (registered_while_beating now cfg info [] s) as (s0 & s1 & E0 & E1 & Hs); [cbn; lia|done..|constructor|].
    cbn in E1. injection E1 as <-. exists s0. split; [done|]. intros k Hk. apply Hs. unfold lastBeat. cbn. nia.
Qed.

(** Finding.  A gateway registers once and never beats: with the Redis registry
    its entry, which logic nodes need to dial back, is gone after one lifetime. *)
Theorem gateway_expires cfg now info (s : Registry.server R) :
  0 < Registry.NodeTTL cfg → node_wf (Registry.stamp now info) → LastBeat info = None → -2^63 ≤ now < 2^63 →
  ∃ s0, rRegister Done Done now cfg info s = (None, s0) ∧ ∀ t, now + Registry.NodeTTL cfg ≤ t → rGet Done t (ID info) s0 = inl (ErrNotRegistered (ID info)).
Proof.
  intros Ht Hw Hb Hn. destruct (registered_while_beating now cfg info [] s) as (s0 & s1 & E0 & E1 & Hs); [done..|constructor|].
  cbn in E1. injection E1 as <-. exists s0. split; [done|]. intros t Hlt. by apply Hs.
Qed.
End Lifetime.

(** Finding.  A time limit of zero for synchronous calls is accepted, and the store
    would put its default in its place, but start-up connects to the backend within
    the configured limit: no connection is possible. *)
Theorem zero_timeout_refused connect openLog :
  (∀ t, connect t = true → 0 < t) →
  let c := mkCfg "standalone" (TCP Default) (WS Default) (Session Default)
    (mkSto "redis" "redis:6379" 0 "" 4096 (10 * ms) 256 2 "" (5 * sec) 0) 0 (Cluster Default) (Admin Default) "info" (PProf Default) in
  Validate c = None ∧ buildStorage connect openLog c = inl EConnect.
Proof.
  intros Hc. split; [reflexivity|]. unfold buildStorage. cbn. destruct (connect 0) eqn:E; [|done]. apply Hc in E. lia.
Qed.

(** Finding.  The heartbeat interval is not checked: with zero the session manager
    falls back to its default, which a logic node sends to clients, while the
    connector of a single server sends the zero. *)
Theorem heartbeat_unchecked :
  let c := mkCfg "standalone" (TCP Default) (WS Default) (mkSess (60 * sec) 256 0 4096 (5 * sec)) (Storage Default) 0 (Cluster Default)
             (Admin Default) "info" (PProf Default) in
  Validate c = None ∧ Cfg.HeartbeatMS (Session c) = 0 ∧ SessionManager.HeartbeatMS (withDefaults (sessionOf c)) = 15000.
Proof. split_and!; reflexivity. Qed.
