(* ===== verification/Obs.v ===== *)
(** * Metrics (internal/obs: histogram.go, metrics.go, prometheus.go, standard_metrics.go)

    Counters and gauges are int64, histograms count observations at most each
    bound.  Bounds and observations are float64: a type with the comparison, the
    sum and the division the code uses.  The export is a list of lines. *)

From S2P Require Import Prelude.

Section Obs.
Context {F : Type} (fle : F → F → bool) (fadd fdiv : F → F → F) (ofZ : Z → F).
(** int64(math.Ceil(float64(total) * 0.99)) *)
Context (target99 : Z → Z).

(** ** Histograms *)

Definition defaultBuckets : list F := ofZ <$> [1; 5; 10; 25; 50; 100; 250; 500; 1000; 2500; 5000; 10000].

Record Histogram := mkHist { buckets : list F; counts : list Z; hsum : F; hcount : Z }.

Definition NewHistogram (bs : list F) : Histogram :=
  let bs := if decide (length bs = 0%nat) then defaultBuckets else bs in
  mkHist bs (replicate (S (length bs)) 0) (ofZ 0) 0.

(** The index of the first bound that is not below the value. *)
Fixpoint findBucket (v : F) (bs : list F) : nat :=
  match bs with [] => O | b :: bs' => if fle v b then O else S (findBucket v bs') end.

Fixpoint bumpFrom (i : nat) (cs : list Z) : list Z :=
  match cs, i with
  | [], _ => []
  | c :: cs', O => wrap_i64 (c + 1) :: bumpFrom O cs'
  | c :: cs', S i' => c :: bumpFrom i' cs'
  end.

Definition Observe (v : F) (h : Histogram) : Histogram :=
  mkHist (buckets h) (bumpFrom (findBucket v (buckets h)) (counts h)) (fadd (hsum h) v) (wrap_i64 (hcount h + 1)).

Definition Mean (h : Histogram) : F := if decide (hcount h = 0) then ofZ 0 else fdiv (hsum h) (ofZ (hcount h)).

(** The first count that reaches the target; [d] is the largest bound. *)
Fixpoint p99Loop (t : Z) (d : F) (cs : list Z) (bs : list F) : F :=
  match cs with
  | [] => d
  | c :: cs' => if t <=? c then match bs with b :: _ => b | [] => d end else p99Loop t d cs' (tail bs)
  end.
(** A histogram always has a bound, so the last one exists. *)
Definition P99 (h : Histogram) : F :=
  if decide (hcount h = 0) then ofZ 0 else
  p99Loop (target99 (hcount h)) (default (ofZ 0) (last (buckets h))) (counts h) (buckets h).

(** ** The registry *)

Record Registry := mkReg { counters : gmap string Z; gauges : gmap string Z; histograms : gmap string Histogram }.
Definition NewRegistry : Registry := mkReg ∅ ∅ ∅.

(** Getting a metric creates it. *)
Definition Counter (name : string) (r : Registry) : Registry :=
  match counters r !! name with Some _ => r | None => mkReg (<[name := 0]> (counters r)) (gauges r) (histograms r) end.
Definition Gauge (name : string) (r : Registry) : Registry :=
  match gauges r !! name with Some _ => r | None => mkReg (counters r) (<[name := 0]> (gauges r)) (histograms r) end.
Definition Histogram_ (name : string) (bs : list F) (r : Registry) : Registry :=
  match histograms r !! name with Some _ => r | None => mkReg (counters r) (gauges r) (<[name := NewHistogram bs]> (histograms r)) end.

(** What the holders of a metric do to it. *)
Definition counterAdd (name : string) (n : Z) (r : Registry) : Registry :=
  mkReg (alter (fun v => wrap_i64 (v + n)) name (counters r)) (gauges r) (histograms r).
Definition gaugeAdd (name : string) (n : Z) (r : Registry) : Registry :=
  mkReg (counters r) (alter (fun v => wrap_i64 (v + n)) name (gauges r)) (histograms r).
Definition gaugeSet (name : string) (n : Z) (r : Registry) : Registry :=
  mkReg (counters r) (alter (fun _ => n) name (gauges r)) (histograms r).
Definition observe (name : string) (v : F) (r : Registry) : Registry :=
  mkReg (counters r) (gauges r) (alter (Observe v) name (histograms r)).

(** Gauges are written over counters of the same name. *)
Definition Snapshot (r : Registry) : gmap string Z := gauges r ∪ counters r.

(** sort.Strings *)
Definition before (a b : string) : Prop := String.leb a b = true.
#[local] Instance before_dec a b : Decision (before a b).
Proof. unfold before. apply _. Defined.
Definition sortStrings (l : list string) : list string := merge_sort before l.

Definition SnapshotSorted (r : Registry) : list (string * Z) :=
  (fun n => (n, default 0 (Snapshot r !! n))) <$> sortStrings (map_to_list (Snapshot r)).*1.

(** ** Export *)

Inductive MetricType := TypeCounter | TypeGauge | TypeHistogram | TypeUnset.
Record MetricMeta := mkMeta { Help : string; MType : MetricType }.
Record PrometheusExporter := mkExp { reg : Registry; meta : gmap string MetricMeta }.

Definition NewPrometheusExporter (r : Registry) : PrometheusExporter := mkExp r ∅.
Definition Register (name help : string) (t : MetricType) (e : PrometheusExporter) : PrometheusExporter :=
  mkExp (reg e) (<[name := mkMeta help t]> (meta e)).

Inductive line :=
| LHelp (name help : string)
| LType (name : string) (t : MetricType)
| LValue (name : string) (v : Z)
| LBucket (name : string) (le : option F) (n : Z)   (** [None] is +Inf *)
| LSum (name : string) (v : F)
| LCount (name : string) (n : Z).

Definition metaHelp (name : string) (e : PrometheusExporter) : string :=
  match meta e !! name with Some m => if decide (Help m = ""%string) then name else Help m | None => name end.
Definition metaType (name : string) (e : PrometheusExporter) : MetricType :=
  let inferred :=
    if decide (is_Some (counters (reg e) !! name)) then TypeCounter
    else if decide (is_Some (gauges (reg e) !! name)) then TypeGauge
    else if decide (is_Some (histograms (reg e) !! name)) then TypeHistogram else TypeGauge in
  match meta e !! name with
  | Some m => match MType m with TypeUnset => inferred | t => t end
  | None => inferred
  end.

Definition writeHistogram (name : string) (h : Histogram) : list line :=
  zip_with (fun b c => LBucket name (Some b) c) (buckets h) (counts h) ++
  [LBucket name None (default 0 (last (counts h))); LSum name (hsum h); LCount name (hcount h)].

Definition metricText (e : PrometheusExporter) (name : string) : list line :=
  [LHelp name (metaHelp name e); LType name (metaType name e)] ++
  match counters (reg e) !! name with
  | Some c => [LValue name c]
  | None =>
      match gauges (reg e) !! name with
      | Some g => [LValue name g]
      | None => match histograms (reg e) !! name with Some h => writeHistogram name h | None => [] end
      end
  end.

Definition names (r : Registry) : list string :=
  (map_to_list (counters r)).*1 ++ (map_to_list (gauges r)).*1 ++ (map_to_list (histograms r)).*1.

(** The lines, as far as the writer takes them. *)
Definition PrometheusText (taken : nat) (e : PrometheusExporter) : list line :=
  take taken (concat (metricText e <$> sortStrings (names (reg e)))).

(** ** The standard metrics *)

Definition standard : list (string * MetricType) := [
  ("online_connections", TypeGauge); ("online_sessions", TypeGauge); ("msg_qps_up", TypeCounter); ("msg_qps_down", TypeCounter);
  ("handler_duration_ms", TypeHistogram); ("mailbox_len", TypeHistogram); ("mailbox_drop_total", TypeCounter); ("mailbox_kick_total", TypeCounter);
  ("rooms", TypeGauge); ("actors", TypeGauge); ("active_rooms", TypeGauge); ("match_queue_depth", TypeGauge); ("node_state", TypeGauge);
  ("panic_total", TypeCounter)]%string.
Definition registerOne (r : Registry) (m : string * MetricType) : Registry :=
  match m.2 with TypeCounter => Counter m.1 r | TypeHistogram => Histogram_ m.1 [] r | _ => Gauge m.1 r end.
Definition RegisterStandard (help : string → string) (e : PrometheusExporter) : PrometheusExporter :=
  foldl (fun e m => Register m.1 (help m.1) m.2 e) (mkExp (foldl registerOne (reg e) standard) (meta e)) standard.

(** ** Theorems on histograms *)

(** How many observations are at most a bound. *)
Definition atMost (b : F) (vs : list F) : Z := zlen (filter (fun v => fle v b = true) vs).
Definition observed (vs : list F) (h : Histogram) : Histogram := foldl (fun h v => Observe v h) h vs.

Lemma atMost_snoc b vs v : atMost b (vs ++ [v]) = atMost b vs + (if fle v b then 1 else 0).
Proof.
  unfold atMost, zlen. rewrite filter_app, length_app, filter_cons, filter_nil. case_decide as H; [rewrite H|apply not_true_is_false in H; rewrite H]; cbn; lia.
Qed.
Lemma atMost_bound b vs : 0 ≤ atMost b vs ≤ zlen vs.
Proof. unfold atMost, zlen. pose proof (length_filter (fun v => fle v b = true) vs). lia. Qed.

Lemma bumpFrom_all bs vs v (n : Z) : Forall (fun b => fle v b = true) bs → zlen vs + 1 < 2^63 → n = zlen vs →
  bumpFrom O (((fun b => atMost b vs) <$> bs) ++ [n]) = ((fun b => atMost b (vs ++ [v])) <$> bs) ++ [zlen (vs ++ [v])].
Proof.
  intros Hb Hl ->. assert (Hz : zlen (vs ++ [v]) = zlen vs + 1) by (unfold zlen; rewrite length_app; cbn; lia).
  assert (H0 : 0 ≤ zlen vs) by (unfold zlen; lia). induction Hb as [|b bs Hv Hb IH]; cbn.
  - rewrite Hz. by rewrite wrap_i64_id by lia.
  - rewrite IH, atMost_snoc, Hv. pose proof (atMost_bound b vs). by rewrite wrap_i64_id by lia.
Qed.

Hypothesis fle_trans : ∀ a b c, fle a b = true → fle b c = true → fle a c = true.

Lemma bumpFrom_counts bs vs v : StronglySorted (fun a b => fle a b = true) bs → zlen vs + 1 < 2^63 →
  bumpFrom (findBucket v bs) (((fun b => atMost b vs) <$> bs) ++ [zlen vs]) = ((fun b => atMost b (vs ++ [v])) <$> bs) ++ [zlen (vs ++ [v])].
Proof.
  intros Hs Hl. induction Hs as [|b bs Hs IH Hb]; cbn [findBucket].
  - by apply (bumpFrom_all [] vs v).
  - destruct (fle v b) eqn:Hv.
    + apply bumpFrom_all; [|done..]. constructor; [done|]. eapply Forall_impl; [exact Hb|]. intros b' Hb'. by eapply fle_trans.
    + cbn. rewrite IH, atMost_snoc, Hv, Z.add_0_r. done.
Qed.

Lemma p99Loop_first t d bs vs n : t ≤ n →
  let r := p99Loop t d (((fun b => atMost b vs) <$> bs) ++ [n]) bs in
  (∃ l b r', bs = l ++ b :: r' ∧ r = b ∧ t ≤ atMost b vs ∧ Forall (fun b' => atMost b' vs < t) l) ∨
  (Forall (fun b' => atMost b' vs < t) bs ∧ r = d).
Proof.
  intros Hn. induction bs as [|b bs IH]; cbn.
  - right. split; [constructor|]. by rewrite (proj2 (Z.leb_le _ _) Hn).
  - destruct (Z.leb_spec t (atMost b vs)) as [Ht|Ht]; [left; exists [], b, bs; by split_and!|].
    destruct IH as [(l & b1 & r1 & -> & -> & Ht1 & Hl)|[Hl ->]].
    + left. exists (b :: l), b1, r1. split_and!; [done..|]. by constructor.
    + right. split; [by constructor|done].
Qed.

(** A histogram is exact: after any observations, in any order, the count of
    every bound is the number of observations at most that bound and the last
    count and the total are the number of observations; the 99th percentile is
    the smallest bound that enough observations do not exceed, or the largest
    bound when there is none. *)
Theorem histogram_exact bs vs :
  StronglySorted (fun a b => fle a b = true) bs → bs ≠ [] → zlen vs < 2^63 →
  let h := observed vs (NewHistogram bs) in
  buckets h = bs ∧ counts h = ((fun b => atMost b vs) <$> bs) ++ [zlen vs] ∧ hcount h = zlen vs ∧
  (vs ≠ [] → target99 (zlen vs) ≤ zlen vs →
    (∃ l b r, bs = l ++ b :: r ∧ P99 h = b ∧ target99 (zlen vs) ≤ atMost b vs ∧ Forall (fun b' => atMost b' vs < target99 (zlen vs)) l) ∨
    (Forall (fun b' => atMost b' vs < target99 (zlen vs)) bs ∧ last bs = Some (P99 h))).
Proof.
  intros Hs Hb Hl h.
  assert (H : buckets h = bs ∧ counts h = ((fun b => atMost b vs) <$> bs) ++ [zlen vs] ∧ hcount h = zlen vs).
  { unfold h. clear h. induction vs as [|v vs IH] using rev_ind.
    - unfold NewHistogram. cbn. assert (Hn : length bs ≠ 0%nat) by (by destruct bs). rewrite decide_False by done. cbn.
      split_and!; [done| |done]. change (0 :: replicate (length bs) 0) with (replicate (S (length bs)) 0). rewrite replicate_S_end. f_equal.
      apply list_eq_same_length with (length bs); [by rewrite length_fmap|by rewrite length_replicate|].
      intros i x y Hi Hx Hy. apply lookup_replicate in Hx as [-> _]. apply list_lookup_fmap_Some in Hy as (b & -> & _). done.
    - assert (Hz : zlen (vs ++ [v]) = zlen vs + 1) by (unfold zlen; rewrite length_app; cbn; lia).
      destruct IH as (I1 & I2 & I3); [lia|]. unfold observed in *. rewrite foldl_app.
      set (h0 := foldl _ (NewHistogram bs) vs) in *. cbn. rewrite I1, I2, I3. split_and!; [done|apply bumpFrom_counts; [done|lia]|]. rewrite Hz, wrap_i64_id; [done|]. unfold zlen in *. lia. }
  destruct H as (H1 & H2 & H3). split_and!; [done..|]. intros Hv Ht. unfold P99. rewrite H3.
  rewrite decide_False by (unfold zlen; destruct vs; [done|cbn; lia]). rewrite H2, H1.
  destruct (p99Loop_first (target99 (zlen vs)) (default (ofZ 0) (last bs)) bs vs (zlen vs) Ht) as [?|[? Hr]]; [by left|right].
  split; [done|]. rewrite Hr. destruct (last bs) eqn:El; [done|]. by apply last_None in El.
Qed.
End Obs.

(** ** Examples *)

Definition demoTarget (n : Z) : Z := (99 * n + 99) / 100.
Lemma histogram_exact_witness :
  counts (observed Z.leb Z.add [3; 7; 12] (NewHistogram (fun z => z) [5; 10])) = [1; 2; 3] ∧
  last [5; 10] = Some (P99 (fun z => z) demoTarget (observed Z.leb Z.add [3; 7; 12] (NewHistogram (fun z => z) [5; 10]))).
Proof.
  destruct (histogram_exact Z.leb Z.add (fun z => z) demoTarget ltac:(intros a b c ?%Z.leb_le ?%Z.leb_le; apply Z.leb_le; lia) [5; 10] [3; 7; 12])
    as (_ & H & _ & H2).
  - repeat constructor.
  - discriminate.
  - vm_compute. reflexivity.
  - split; [exact H|]. destruct H2 as [(l & b & r & Hb & _ & Ht & Hl)|[_ ?]]; [discriminate|vm_compute; discriminate| |done].
    exfalso. destruct l as [|x [|y [|]]]; try discriminate; injection Hb; intros; subst; vm_compute in Ht; by apply Ht.
Defined.

(** ** Findings *)

(** Finding.  The engine counts dropped, kicked and panicking messages and its
    actors under names of its own; the standard metrics that are documented for
    them are registered and exported, and stay at zero. *)
Definition engineMetrics : list string := ["actor_count"; "actor_msg_dropped_total"; "actor_msg_kicked_total"; "actor_panic_total"]%string.
Theorem engine_metrics_apart : Forall (fun n => n ∉ (standard.*1)) engineMetrics.
Proof. unfold engineMetrics. repeat (constructor; [apply (bool_decide_unpack _); vm_compute; exact I|]). constructor. Qed.

(** Finding.  A name that is both a counter and a gauge is exported twice as the
    counter, while the snapshot shows the gauge. *)
Theorem name_clash :
  let r := gaugeSet "x" 7 (Gauge "x" (counterAdd "x" 3 (Counter "x" (@NewRegistry Z)))) in
  Snapshot r !! "x"%string = Some 7 ∧
  PrometheusText 100 (mkExp r ∅) = let m := [LHelp "x" "x"; LType "x" TypeCounter; LValue "x" 3] in m ++ m.
Proof. split; vm_compute; reflexivity. Qed.
