(* ===== verification/MemStore.v ===== *)
(** * In-process storage and rankings (internal/storage/memory.go, pkg/framework/storage.go)

    [Storage] is the interface the rest of the server programs against, with
    the law its clients rely on; the in-memory store is an instance.  Values
    are the JSON bytes the code stores.  The rankings sort the rows of a Go map,
    whose iteration order is unspecified: the theorems show that the result
    does not depend on it. *)

From S2P Require Import Prelude.

(** ** The storage interface *)

Inductive sterr := StorageNotFound | StorageOther.

(** Tables, keys and encoded values; the synchronous paths. *)
Class Storage (S : Type) := {
  sGet : string → string → S → sterr + list Z;
  sSet : string → string → list Z → S → option sterr * S;
  sSetSync : string → string → list Z → S → option sterr * S;
  sDel : string → string → S → option sterr * S }.

(** What a client of the synchronous path relies on. *)
Class StorageLaws (S : Type) (St : Storage S) := {
  setSync_get t k v s s' : sSetSync t k v s = (None, s') → sGet t k s' = inr v;
  setSync_other t k v s s' t' k' : sSetSync t k v s = (None, s') → (t', k') ≠ (t, k) → sGet t' k' s' = sGet t' k' s }.

(** ** The memory store *)

Record MemoryStorage := mkMem {
  kv : gmap string (gmap string (list Z));
  zset : gmap string (gmap string Z);
  incr : gmap string (gmap string Z) }.

Definition NewMemoryStorage : MemoryStorage := mkMem ∅ ∅ ∅.

Definition Get (t k : string) (s : MemoryStorage) : sterr + list Z :=
  match kv s !! t with
  | None => inl StorageNotFound
  | Some row => match row !! k with None => inl StorageNotFound | Some raw => inr raw end
  end.

Definition set_ (t k : string) (raw : list Z) (s : MemoryStorage) : option sterr * MemoryStorage :=
  let row := match kv s !! t with Some row => row | None => ∅ end in
  (None, mkMem (<[t := <[k := raw]> row]> (kv s)) (zset s) (incr s)).

Definition Del (t k : string) (s : MemoryStorage) : option sterr * MemoryStorage :=
  (None, match kv s !! t with
         | Some row => mkMem (<[t := delete k row]> (kv s)) (zset s) (incr s)
         | None => s
         end).

(** A missing counter reads as 0; the sum is an int64. *)
Definition IncrBy (t k : string) (delta : Z) (s : MemoryStorage) : Z * MemoryStorage :=
  let row := match incr s !! t with Some row => row | None => ∅ end in
  let v := wrap_i64 (default 0 (row !! k) + delta) in
  (v, mkMem (kv s) (zset s) (<[t := <[k := v]> row]> (incr s))).

#[export] Instance memory_Storage : Storage MemoryStorage := {|
  sGet := Get; sSet := set_; sSetSync := set_; sDel := Del |}.

#[export] Instance memory_laws : StorageLaws MemoryStorage memory_Storage.
Proof.
  split; cbn; unfold Get, set_.
  - intros t k v s s' [= <-]. cbn. by rewrite !lookup_insert_eq.
  - intros t k v s s' t' k' [= <-] Hne. cbn. destruct (decide (t' = t)) as [->|Ht].
    + rewrite lookup_insert_eq. rewrite lookup_insert_ne by congruence.
      destruct (kv s !! t); [done|]. by rewrite lookup_empty.
    + by rewrite lookup_insert_ne by done.
Qed.

(** ** Rankings *)

Record RankItem := mkItem { Member : string; Score : Z }.

Definition zrow (t : string) (s : MemoryStorage) : gmap string Z := default ∅ (zset s !! t).
Definition set_zrow (t : string) (row : gmap string Z) (s : MemoryStorage) : MemoryStorage :=
  mkMem (kv s) (<[t := row]> (zset s)) (incr s).

Definition ZAdd (t m : string) (score : Z) (s : MemoryStorage) : MemoryStorage :=
  set_zrow t (<[m := score]> (zrow t s)) s.

Definition ZIncrBy (t m : string) (delta : Z) (s : MemoryStorage) : Z * MemoryStorage :=
  let v := wrap_i64 (default 0 (zrow t s !! m) + delta) in
  (v, set_zrow t (<[m := v]> (zrow t s)) s).

(** The rows of a table, in the order the range loop of the run meets them. *)
Definition items (row : gmap string Z) : list RankItem := (fun '(m, sc) => mkItem m sc) <$> map_to_list row.

(** The two comparisons, as the non-strict orders they sort by. *)
Definition revLe (a b : RankItem) : Prop :=
  Score b < Score a ∨ (Score a = Score b ∧ String.le (Member a) (Member b)).
Definition fwdLe (a b : RankItem) : Prop :=
  Score a < Score b ∨ (Score a = Score b ∧ String.le (Member a) (Member b)).
#[global] Instance revLe_dec a b : Decision (revLe a b).
Proof. unfold revLe. apply _. Defined.
#[global] Instance fwdLe_dec a b : Decision (fwdLe a b).
Proof. unfold fwdLe. apply _. Defined.

(** sort.Slice. *)
Definition sortSlice (R : relation RankItem) `{∀ a b, Decision (R a b)} (l : list RankItem) : list RankItem :=
  merge_sort R l.

Definition ZRevRange (t : string) (start stop : Z) (s : MemoryStorage) : res (list RankItem) :=
  let its := sortSlice revLe (items (zrow t s)) in
  let n := zlen its in
  let start := if start <? 0 then wrap_i64 (start + n) else start in
  let stop := if stop <? 0 then wrap_i64 (stop + n) else stop in
  let start := if start <? 0 then 0 else start in
  let stop := if stop >=? n then n - 1 else stop in
  if (start >? stop) || (start >=? n) then Ok [] else slice its start (stop + 1).

Fixpoint findMember (m : string) (i : Z) (l : list RankItem) : option Z :=
  match l with
  | [] => None
  | it :: l => if decide (Member it = m) then Some i else findMember m (i + 1) l
  end.

Definition ZRank (t m : string) (s : MemoryStorage) : sterr + Z :=
  match zrow t s !! m with
  | None => inl StorageNotFound
  | Some _ =>
      match findMember m 0 (sortSlice fwdLe (items (zrow t s))) with
      | Some i => inr i
      | None => inl StorageNotFound
      end
  end.

(** ** The orders *)

#[global] Instance revLe_trans : Transitive revLe.
Proof.
  intros a b c [?|[? H1]] [?|[? H2]]; unfold revLe; [left; lia..|right]. split; [lia|]. by etrans.
Qed.
#[global] Instance revLe_total : Total revLe.
Proof.
  intros a b. unfold revLe. destruct (Z.lt_trichotomy (Score a) (Score b)) as [?|[?|?]]; [by right; left| |by left; left].
  destruct (total String.le (Member a) (Member b)); [left; right|right; right]; done.
Qed.
#[global] Instance revLe_antisymm : AntiSymm (=) revLe.
Proof.
  intros [m s] [m' s'] [?|[? H1]] [?|[? H2]]; cbn in *; try lia. f_equal; [|done]. by apply (anti_symm String.le).
Qed.
#[global] Instance fwdLe_trans : Transitive fwdLe.
Proof.
  intros a b c [?|[? H1]] [?|[? H2]]; unfold fwdLe; [left; lia..|right]. split; [lia|]. by etrans.
Qed.
#[global] Instance fwdLe_total : Total fwdLe.
Proof.
  intros a b. unfold fwdLe. destruct (Z.lt_trichotomy (Score a) (Score b)) as [?|[?|?]]; [by left; left| |by right; left].
  destruct (total String.le (Member a) (Member b)); [left; right|right; right]; done.
Qed.

Lemma sortSlice_sorted (R : relation RankItem) `{∀ a b, Decision (R a b)} `{!Transitive R, !Total R} l :
  StronglySorted R (sortSlice R l).
Proof. unfold sortSlice. apply (StronglySorted_merge_sort R _). Qed.

Lemma sortSlice_unique (R : relation RankItem) `{∀ a b, Decision (R a b)} `{!Transitive R, !Total R, !AntiSymm (=) R} l l' :
  l' ≡ₚ l → StronglySorted R l' → l' = sortSlice R l.
Proof.
  intros Hp Hs. apply (StronglySorted_unique R); [done|apply sortSlice_sorted; apply _|].
  unfold sortSlice. by rewrite merge_sort_Permutation.
Qed.

Lemma elem_of_items row it : it ∈ items row ↔ row !! Member it = Some (Score it).
Proof.
  unfold items. rewrite list_elem_of_fmap. split.
  - intros ([m sc] & -> & H). by apply elem_of_map_to_list in H.
  - intros H. exists (Member it, Score it). split; [by destruct it|]. by apply elem_of_map_to_list.
Qed.

Lemma NoDup_items row : NoDup (Member <$> items row).
Proof.
  unfold items. rewrite <- list_fmap_compose. rewrite (list_fmap_ext _ fst); [apply NoDup_fst_map_to_list|].
  by intros i [m sc] _.
Qed.

Lemma length_items row : length (items row) = size row.
Proof. unfold items. by rewrite length_fmap, length_map_to_list. Qed.

(** ** Theorems *)

(** A range of the ranking is a stretch of the one right order: whatever
    order the map is iterated in, the whole range lists every member of the
    table once with its score, by descending score and then by name; and a
    range [start, stop] (negative indices count from the end) never fails and
    is the corresponding stretch of it. *)
Theorem ranking_order t start stop s : - 2^62 ≤ start < 2^62 → - 2^62 ≤ stop < 2^62 → Z.of_nat (size (zrow t s)) < 2^62 →
  ∃ l, (∀ it, it ∈ l ↔ zrow t s !! Member it = Some (Score it)) ∧ NoDup (Member <$> l) ∧ StronglySorted revLe l ∧
    (∀ l', l' ≡ₚ items (zrow t s) → StronglySorted revLe l' → l' = l) ∧
    let n := zlen l in
    let lo := Z.max 0 (if start <? 0 then start + n else start) in
    let hi := if stop <? 0 then stop + n else stop in
    ZRevRange t start stop s = Ok (take (Z.to_nat (hi - lo + 1)) (drop (Z.to_nat lo) l)).
Proof.
  intros H1 H2 H3. set (l := sortSlice revLe (items (zrow t s))). assert (l ≡ₚ items (zrow t s)) as Hp by apply merge_sort_Permutation.
  exists l. split_and!.
  - intros it. rewrite Hp. apply elem_of_items.
  - rewrite Hp. apply NoDup_items.
  - apply sortSlice_sorted; apply _.
  - intros l' ? ?. apply (sortSlice_unique revLe); done || apply _.
  - assert (zlen l = Z.of_nat (size (zrow t s))) as Hn.
    { unfold zlen. by rewrite (Permutation_length Hp), length_items. }
    assert (length l = Z.to_nat (zlen l)) as Hlen by (unfold zlen; lia).
    pose proof (zlen_nonneg l) as Hnn. unfold ZRevRange. fold l. cbn zeta. rewrite !wrap_i64_id by (unfold zlen in *; lia).
    set (n := zlen l) in *. set (st := if start <? 0 then start + n else start). set (sp := if stop <? 0 then stop + n else stop).
    replace (if st <? 0 then 0 else st) with (Z.max 0 st) by (destruct (st <? 0) eqn:E; lia).
    destruct ((Z.max 0 st >? (if sp >=? n then n - 1 else sp)) || (Z.max 0 st >=? n)) eqn:E.
    + f_equal. destruct (Z.max 0 st >=? n) eqn:E2; [rewrite drop_ge by lia; by rewrite take_nil|].
      destruct (sp >=? n) eqn:E3; [lia|]. by replace (Z.to_nat (sp - Z.max 0 st + 1)) with 0%nat by lia.
    + apply orb_false_iff in E as [E1 E2]. rewrite slice_range by (destruct (sp >=? n) eqn:E3; unfold zlen in *; lia).
      f_equal. destruct (sp >=? n) eqn:E3.
      * rewrite !take_ge; [done|rewrite length_drop; lia..].
      * f_equal. lia.
Qed.

Lemma findMember_ok m l i : NoDup (Member <$> l) → ∀ l1 it l2, l = l1 ++ it :: l2 → Member it = m →
  findMember m i l = Some (i + zlen l1).
Proof.
  revert i. induction l as [|x l IH]; intros i Hnd l1 it l2 Hl Hm; [by destruct l1|].
  rewrite fmap_cons in Hnd. apply NoDup_cons in Hnd as [Hx Hnd]. cbn [findMember]. destruct l1 as [|y l1].
  - simplify_eq/=. rewrite decide_True by done. f_equal. unfold zlen. cbn. lia.
  - simplify_eq/=. rewrite decide_False.
    + rewrite (IH (i + 1) Hnd l1 it l2) by done. f_equal. rewrite zlen_cons. lia.
    + intros He. apply Hx. rewrite He. apply list_elem_of_fmap. exists it. split; [done|]. apply elem_of_app. right. by left.
Qed.

(** Strictly before in the ascending order. *)
Definition ranksBelow (it it' : RankItem) : Prop :=
  Score it' < Score it ∨ (Score it' = Score it ∧ String.le (Member it') (Member it) ∧ Member it' ≠ Member it).
#[global] Instance ranksBelow_dec it it' : Decision (ranksBelow it it').
Proof. unfold ranksBelow. apply _. Defined.

(** The rank of a member is the number of members that precede it, by
    ascending score and then by name; a stranger has none. *)
Theorem rank_counts t m s :
  ZRank t m s = match zrow t s !! m with
                | None => inl StorageNotFound
                | Some sc => inr (zlen (filter (ranksBelow (mkItem m sc)) (items (zrow t s))))
                end.
Proof.
  unfold ZRank. destruct (zrow t s !! m) as [sc|] eqn:Hm; [|done].
  set (l := sortSlice fwdLe (items (zrow t s))). assert (l ≡ₚ items (zrow t s)) as Hp by apply merge_sort_Permutation.
  assert (StronglySorted fwdLe l) as Hs by (apply sortSlice_sorted; apply _).
  assert (NoDup (Member <$> l)) as Hnd by (rewrite Hp; apply NoDup_items).
  assert (mkItem m sc ∈ l) as (l1 & l2 & Hl)%list_elem_of_split by (rewrite Hp; by apply elem_of_items).
  rewrite (findMember_ok m l 0 Hnd l1 (mkItem m sc) l2 Hl eq_refl). f_equal. rewrite <- Hp, Hl.
  rewrite Hl in Hs, Hnd. apply StronglySorted_app in Hs as (Hb & _ & Hs). apply StronglySorted_inv in Hs as [_ Ha].
  rewrite fmap_app, fmap_cons in Hnd. apply NoDup_app in Hnd as (_ & Hd & Hnd). apply NoDup_cons in Hnd as [Hd2 _].
  rewrite filter_app, filter_all, filter_none, app_nil_r; [lia| |].
  - apply Forall_cons. split; [intros [?|(_ & _ & ?)]; [cbn in *; lia|done]|]. eapply Forall_impl; [exact Ha|].
    intros x [?|[? Hle]] [?|(? & Hle' & Hne)]; cbn in *; try lia. apply Hne. by apply (anti_symm String.le).
  - apply Forall_forall. intros x Hx. specialize (Hb x (mkItem m sc) Hx ltac:(by left)).
    destruct Hb as [?|[? ?]]; [by left|right]. split_and!; [done..|]. intros He. apply (Hd (Member x)).
    + apply list_elem_of_fmap. eauto.
    + rewrite He. by left.
Qed.

(** ** A concrete table *)

Definition demoMem : MemoryStorage :=
  ZAdd "r" "cat" 5 (ZAdd "r" "bob" 9 (ZAdd "r" "amy" 5 NewMemoryStorage)).

Lemma ranking_order_witness : ∃ l, (∀ it, it ∈ l ↔ zrow "r" demoMem !! Member it = Some (Score it)) ∧
  ZRevRange "r" 0 (-2) demoMem = Ok (take 2 l) ∧ ZRevRange "r" 0 (-2) demoMem = Ok [mkItem "bob" 9; mkItem "amy" 5].
Proof.
  destruct (ranking_order "r" 0 (-2) demoMem ltac:(lia) ltac:(lia) ltac:(vm_compute; reflexivity))
    as (l & Hl & Hnd & _ & Hu & Hr).
  exists l. split; [done|]. split; [|vm_compute; reflexivity]. rewrite Hr.
  rewrite <- (Hu (sortSlice revLe (items (zrow "r" demoMem)))); [vm_compute; reflexivity| |].
  - apply merge_sort_Permutation.
  - apply sortSlice_sorted; apply _.
Defined.
