(* ===== verification/StoreOps.v ===== *)
(** * What a storage backend is (internal/storage/backend.go)

    The calls of storage.Backend and framework.Ranking as data, with the answers
    a caller tells apart, and the in-memory store as the reference: SqlThm.v and
    RedisStore.v compare the other two backends with [memStep]. *)

From S2P Require Import Prelude MemStore.

(** ** Calls and answers *)

Inductive op :=
  | OGet (t k : string) | OPut (t k : string) (v : list Z) | ODelete (t k : string) | OIncrBy (t k : string) (n : Z)
  | OZAdd (t m : string) (n : Z) | OZIncrBy (t m : string) (n : Z) | OZRevRange (t : string) (start stop : Z)
  | OZRank (t m : string).

Inductive resp := RUnit | RBytes (b : list Z) | RInt (n : Z) | RItems (l : list RankItem) | RNotFound | ROther.
#[export] Instance RankItem_eq_dec : EqDecision RankItem.
Proof. solve_decision. Defined.
#[export] Instance resp_eq_dec : EqDecision resp.
Proof. solve_decision. Defined.

(** An error other than framework.ErrStorageNotFound is [ROther]. *)
Definition ofMem {A} (f : A → resp) (r : sterr + A) : resp :=
  match r with inr a => f a | inl StorageNotFound => RNotFound | inl _ => ROther end.

(** ** The reference *)

Definition memStep (o : op) (s : MemoryStorage) : resp * MemoryStorage :=
  match o with
  | OGet t k => (ofMem RBytes (MemStore.Get t k s), s)
  | OPut t k v => let '(_, s) := MemStore.set_ t k v s in (RUnit, s)
  | ODelete t k => let '(_, s) := MemStore.Del t k s in (RUnit, s)
  | OIncrBy t k n => let '(v, s) := MemStore.IncrBy t k n s in (RInt v, s)
  | OZAdd t m n => (RUnit, MemStore.ZAdd t m n s)
  | OZIncrBy t m n => let '(v, s) := MemStore.ZIncrBy t m n s in (RInt v, s)
  | OZRevRange t a b => (match MemStore.ZRevRange t a b s with Ok l => RItems l | _ => ROther end, s)
  | OZRank t m => (ofMem RInt (MemStore.ZRank t m s), s)
  end.

(** A sequence of calls, one after the other, with their answers. *)
Fixpoint runOps {X} (call : op → X → resp * X) (ops : list op) (x : X) : list resp * X :=
  match ops with
  | [] => ([], x)
  | o :: ops => let '(r, x) := call o x in let '(rs, x) := runOps call ops x in (r :: rs, x)
  end.
Definition memRun : list op → MemoryStorage → list resp * MemoryStorage := runOps memStep.

(** ** Answers of a store that may fail *)

(** [explains ops rs s s']: the memory store explains the answers [rs] to the
    calls [ops], from [s] to [s']. A call that is not answered with an error is
    answered, and done, as by the memory store; a call that is answered with an
    error was not done, or was done all the same. *)
Inductive explains : list op → list resp → MemoryStorage → MemoryStorage → Prop :=
| ex_nil s : explains [] [] s s
| ex_done o ops r rs s s' : (memStep o s).1 = r → explains ops rs (memStep o s).2 s' → explains (o :: ops) (r :: rs) s s'
| ex_failed o ops rs s s' : explains ops rs s s' → explains (o :: ops) (ROther :: rs) s s'
| ex_unsure o ops rs s s' : explains ops rs (memStep o s).2 s' → explains (o :: ops) (ROther :: rs) s s'.

(** Without errors there is one explanation, the run of the memory store. *)
Lemma explains_memRun ops rs s s' : explains ops rs s s' → ROther ∉ rs → memRun ops s = (rs, s').
Proof.
  unfold memRun. induction 1 as [s|o ops r rs s s' Hr _ IH|o ops rs s s' _ _|o ops rs s s' _ _]; intros Hn; [done| |..].
  - apply not_elem_of_cons in Hn as [_ Hn]. cbn. destruct (memStep o s) as [r1 s1]. cbn in *. by rewrite (IH Hn), Hr.
  - by destruct Hn; left.
  - by destruct Hn; left.
Qed.

Section Along.
Context (fits : op → MemoryStorage → Prop).

(** Every call of the run fits the state it may find: after an error there are
    two. *)
Fixpoint fitsAlong (ops : list op) (rs : list resp) (s : MemoryStorage) : Prop :=
  match ops, rs with
  | o :: ops, r :: rs => fits o s ∧ fitsAlong ops rs (memStep o s).2 ∧ (r = ROther → fitsAlong ops rs s)
  | _, _ => True
  end.
#[export] Instance fitsAlong_dec `{∀ o s, Decision (fits o s)} ops : ∀ rs s, Decision (fitsAlong ops rs s).
Proof. induction ops; intros [|r rs] s; cbn; apply _. Defined.

(** One call of a store that represents the memory store: answered and done as
    by it, or an error. *)
Definition simulates {X} (R : X → MemoryStorage → Prop) (call : op → X → resp * X) : Prop :=
  ∀ o x s, R x s → fits o s →
    ((call o x).1 = (memStep o s).1 ∧ R (call o x).2 (memStep o s).2) ∨
    ((call o x).1 = ROther ∧ (R (call o x).2 s ∨ R (call o x).2 (memStep o s).2)).

Lemma simulates_run {X} (R : X → MemoryStorage → Prop) call : simulates R call →
  ∀ ops x s rs x', R x s → runOps call ops x = (rs, x') → fitsAlong ops rs s →
  ∃ s', explains ops rs s s' ∧ R x' s'.
Proof.
  intros Hsim. induction ops as [|o ops IH]; intros x s rs x' HR; cbn [runOps].
  { intros [= <- <-] _. exists s. split; [constructor|done]. }
  pose proof (Hsim o x s HR) as Hs. destruct (call o x) as [r x1]. cbn [fst snd] in Hs.
  destruct (runOps call ops x1) as [rs1 x2] eqn:Er. intros [= <- <-] (Ho & Hdone & Herr).
  destruct (Hs Ho) as [[-> HR1]|[-> [HR1|HR1]]].
  - destruct (IH _ _ _ _ HR1 Er Hdone) as (s' & ? & ?). exists s'. split; [by apply ex_done|done].
  - destruct (IH _ _ _ _ HR1 Er (Herr eq_refl)) as (s' & ? & ?). exists s'. split; [by apply ex_failed|done].
  - destruct (IH _ _ _ _ HR1 Er Hdone) as (s' & ? & ?). exists s'. split; [by apply ex_unsure|done].
Qed.
End Along.

(** ** Tables as maps from pairs *)

Lemma upd_pair {A} (m : gmap (string * string) A) (mm : gmap string (gmap string A)) t k v :
  (∀ t k, m !! (t, k) = mm !! t ≫= (.!! k)) →
  ∀ t' k', <[(t, k) := v]> m !! (t', k') = <[t := <[k := v]> (default ∅ (mm !! t))]> mm !! t' ≫= (.!! k').
Proof.
  intros H t' k'. destruct (decide (t' = t)) as [->|Ht].
  - rewrite lookup_insert_eq. cbn. destruct (decide (k' = k)) as [->|Hk]; [by rewrite !lookup_insert_eq|].
    rewrite !lookup_insert_ne by congruence. rewrite H. destruct (mm !! t); cbn; [done|]. by rewrite lookup_empty.
  - rewrite !lookup_insert_ne by congruence. apply H.
Qed.
