(* ===== verification/SqlStore.v ===== *)
(** * The SQL backend (internal/storage/sqlstore/sql.go, dialect.go)

    The backend is a set of statement texts and the code around them.  The
    database server is not part of the repository: it is the class [Engine],
    which runs a text with its arguments.  What SQLite's documentation says of
    the texts of its dialect, an engine that has these laws, and the theorems
    are in SqlThm.v. *)

From Stdlib Require Import Ascii.
From S2P Require Import Prelude MemStore.

(** ** Statements *)

Inductive Dialect := mysqlDialect | sqliteDialect.
#[export] Instance Dialect_eq_dec : EqDecision Dialect.
Proof. solve_decision. Defined.

Definition nl : string := String (ascii_of_nat 10) EmptyString.

Definition Name (d : Dialect) : string := match d with mysqlDialect => "mysql" | sqliteDialect => "sqlite" end.
Definition UpsertKV (d : Dialect) : string :=
  "INSERT INTO kv (tbl,k,val) VALUES (?,?,?)" +:+ nl +:+
  match d with
  | mysqlDialect => "ON DUPLICATE KEY UPDATE val=VALUES(val)"
  | sqliteDialect => "ON CONFLICT(tbl,k) DO UPDATE SET val=excluded.val"
  end.
Definition UpsertCounter (d : Dialect) : string :=
  "INSERT INTO kv_counter (tbl,k,val) VALUES (?,?,?)" +:+ nl +:+
  match d with
  | mysqlDialect => "ON DUPLICATE KEY UPDATE val=val+VALUES(val)"
  | sqliteDialect => "ON CONFLICT(tbl,k) DO UPDATE SET val=kv_counter.val+excluded.val"
  end.
Definition UpsertZAdd (d : Dialect) : string :=
  "INSERT INTO zset (tbl,member,score) VALUES (?,?,?)" +:+ nl +:+
  match d with
  | mysqlDialect => "ON DUPLICATE KEY UPDATE score=VALUES(score)"
  | sqliteDialect => "ON CONFLICT(tbl,member) DO UPDATE SET score=excluded.score"
  end.
Definition UpsertZIncr (d : Dialect) : string :=
  "INSERT INTO zset (tbl,member,score) VALUES (?,?,?)" +:+ nl +:+
  match d with
  | mysqlDialect => "ON DUPLICATE KEY UPDATE score=score+VALUES(score)"
  | sqliteDialect => "ON CONFLICT(tbl,member) DO UPDATE SET score=zset.score+excluded.score"
  end.

Definition selectKV : string := "SELECT val FROM kv WHERE tbl=? AND k=?".
Definition deleteKV : string := "DELETE FROM kv WHERE tbl=? AND k=?".
Definition selectCounter : string := "SELECT val FROM kv_counter WHERE tbl=? AND k=?".
Definition selectScore : string := "SELECT score FROM zset WHERE tbl=? AND member=?".
Definition selectRange : string :=
  "SELECT member, score FROM zset WHERE tbl=? ORDER BY score DESC, member ASC LIMIT ? OFFSET ?".
Definition countBelow : string :=
  nl +:+ "SELECT COUNT(*) FROM zset a, zset b" +:+ nl +:+
  "WHERE a.tbl=? AND a.member=? AND b.tbl=a.tbl" +:+ nl +:+
  "  AND (b.score < a.score OR (b.score = a.score AND b.member < a.member))".
Definition selectMember : string := "SELECT 1 FROM zset WHERE tbl=? AND member=?".

(** [strings.ToLower] on a driver name, which is ASCII. *)
Definition lowerAscii (c : ascii) : ascii :=
  let n := nat_of_ascii c in if (65 <=? n)%nat && (n <=? 90)%nat then ascii_of_nat (n + 32) else c.
Fixpoint ToLower (s : string) : string :=
  match s with EmptyString => EmptyString | String c s => String (lowerAscii c) (ToLower s) end.
Definition dialectFor (name : string) : option Dialect :=
  let n := ToLower name in
  if decide (n = "mysql"%string) then Some mysqlDialect
  else if decide (n = "sqlite"%string) then Some sqliteDialect else None.

(** ** The engine *)

Inductive sqlval := SText (s : string) | SBlob (b : list Z) | SInt (n : Z).

(** A connection pool to a server.  Errors are not told apart. *)
Class Engine := {
  DB : Type;
  exec : string → list sqlval → DB → bool * DB;             (* succeeded, new state *)
  query : string → list sqlval → DB → option (list (list sqlval));
  begin : DB → option DB;                                   (* what the transaction sees *)
  commit : DB → DB → bool * DB }.

Inductive serr := SqlError | InvalidRange | SqlNotFound | ScanError.

Section Backend.
Context `{Engine}.
Context (d : Dialect).
Implicit Types db : DB.

(** [QueryRowContext(...).Scan]: the first row, or [None] for sql.ErrNoRows. *)
Definition queryRow (q : string) (args : list sqlval) (db : DB) : serr + option (list sqlval) :=
  match query q args db with
  | None => inl SqlError
  | Some [] => inr None
  | Some (row :: _) => inr (Some row)
  end.

Definition scanBytes (row : list sqlval) : serr + list Z := match row with [SBlob b] => inr b | _ => inl ScanError end.
Definition scanInt (row : list sqlval) : serr + Z := match row with [SInt n] => inr n | _ => inl ScanError end.

Definition Get (table key : string) (db : DB) : serr + list Z :=
  match queryRow selectKV [SText table; SText key] db with
  | inl e => inl e
  | inr None => inl SqlNotFound
  | inr (Some row) => scanBytes row
  end.
Definition Put (table key : string) (raw : list Z) (db : DB) : (serr + unit) * DB :=
  let '(ok, db) := exec (UpsertKV d) [SText table; SText key; SBlob raw] db in
  (if ok then inr () else inl SqlError, db).
Definition Delete (table key : string) (db : DB) : (serr + unit) * DB :=
  let '(ok, db) := exec deleteKV [SText table; SText key] db in
  (if ok then inr () else inl SqlError, db).

(** [IncrBy] is two statements: other callers may run between them. *)
Definition IncrExec (table key : string) (delta : Z) (db : DB) : bool * DB :=
  exec (UpsertCounter d) [SText table; SText key; SInt delta] db.
Definition IncrRead (table key : string) (db : DB) : serr + Z :=
  match queryRow selectCounter [SText table; SText key] db with
  | inl e => inl e
  | inr None => inl ScanError
  | inr (Some row) => scanInt row
  end.
Definition IncrBy (table key : string) (delta : Z) (db : DB) : (serr + Z) * DB :=
  let '(ok, db) := IncrExec table key delta db in
  if ok then (IncrRead table key db, db) else (inl SqlError, db).

Definition ZAdd (table member : string) (score : Z) (db : DB) : (serr + unit) * DB :=
  let '(ok, db) := exec (UpsertZAdd d) [SText table; SText member; SInt score] db in
  (if ok then inr () else inl SqlError, db).

(** In a transaction; an error rolls it back. *)
Definition ZIncrBy (table member : string) (delta : Z) (db : DB) : (serr + Z) * DB :=
  match begin db with
  | None => (inl SqlError, db)
  | Some tx =>
      let '(ok, tx) := exec (UpsertZIncr d) [SText table; SText member; SInt delta] tx in
      if negb ok then (inl SqlError, db) else
      match queryRow selectScore [SText table; SText member] tx with
      | inl e => (inl e, db)
      | inr None => (inl ScanError, db)
      | inr (Some row) =>
          match scanInt row with
          | inl e => (inl e, db)
          | inr score => let '(ok, db) := commit tx db in (if ok then inr score else inl SqlError, db)
          end
      end
  end.

Fixpoint scanItems (rows : list (list sqlval)) : serr + list RankItem :=
  match rows with
  | [] => inr []
  | [SText m; SInt s] :: rows => match scanItems rows with inl e => inl e | inr its => inr (mkItem m s :: its) end
  | _ => inl ScanError
  end.

Definition ZRevRange (table : string) (start stop : Z) (db : DB) : serr + list RankItem :=
  if (stop >=? 0) && (stop <? start) then inl InvalidRange else
  let limit := if stop >=? 0 then wrap_i64 (stop - start + 1) else -1 in
  match query selectRange [SText table; SInt limit; SInt start] db with
  | None => inl SqlError
  | Some rows => scanItems rows
  end.

Definition ZRank (table member : string) (db : DB) : serr + Z :=
  match queryRow countBelow [SText table; SText member] db with
  | inl e => inl e
  | inr None => inl SqlNotFound
  | inr (Some row) =>
      match scanInt row with
      | inl e => inl e
      | inr n =>
          match queryRow selectMember [SText table; SText member] db with
          | inl e => inl e
          | inr None => inl SqlNotFound
          | inr (Some row) => match scanInt row with inl e => inl e | inr _ => inr n end
          end
      end
  end.
End Backend.

(** ** Opening *)

Definition schemaDDL : string :=
  nl +:+ "CREATE TABLE IF NOT EXISTS kv (" +:+ nl +:+ "  tbl VARCHAR(128) NOT NULL," +:+ nl +:+ "  k   VARCHAR(256) NOT NULL," +:+ nl +:+
  "  val BLOB NOT NULL," +:+ nl +:+ "  PRIMARY KEY (tbl, k)" +:+ nl +:+ ");" +:+ nl +:+
  "CREATE TABLE IF NOT EXISTS kv_counter (" +:+ nl +:+ "  tbl VARCHAR(128) NOT NULL," +:+ nl +:+ "  k   VARCHAR(256) NOT NULL," +:+ nl +:+
  "  val BIGINT NOT NULL," +:+ nl +:+ "  PRIMARY KEY (tbl, k)" +:+ nl +:+ ");" +:+ nl +:+
  "CREATE TABLE IF NOT EXISTS zset (" +:+ nl +:+ "  tbl    VARCHAR(128) NOT NULL," +:+ nl +:+ "  member VARCHAR(256) NOT NULL," +:+ nl +:+
  "  score  BIGINT NOT NULL," +:+ nl +:+ "  PRIMARY KEY (tbl, member)" +:+ nl +:+ ");" +:+ nl +:+
  "CREATE INDEX IF NOT EXISTS idx_zset_rank ON zset (tbl, score DESC, member);" +:+ nl.
Definition mysqlSchema : string :=
  nl +:+ "CREATE TABLE IF NOT EXISTS kv (" +:+ nl +:+ "  tbl VARCHAR(128) NOT NULL," +:+ nl +:+ "  k   VARCHAR(256) NOT NULL," +:+ nl +:+
  "  val BLOB NOT NULL," +:+ nl +:+ "  PRIMARY KEY (tbl, k)" +:+ nl +:+ ") ENGINE=InnoDB DEFAULT CHARSET=utf8mb4;" +:+ nl +:+
  "CREATE TABLE IF NOT EXISTS kv_counter (" +:+ nl +:+ "  tbl VARCHAR(128) NOT NULL," +:+ nl +:+ "  k   VARCHAR(256) NOT NULL," +:+ nl +:+
  "  val BIGINT NOT NULL," +:+ nl +:+ "  PRIMARY KEY (tbl, k)" +:+ nl +:+ ") ENGINE=InnoDB DEFAULT CHARSET=utf8mb4;" +:+ nl +:+
  "CREATE TABLE IF NOT EXISTS zset (" +:+ nl +:+ "  tbl    VARCHAR(128) NOT NULL," +:+ nl +:+ "  member VARCHAR(256) NOT NULL," +:+ nl +:+
  "  score  BIGINT NOT NULL," +:+ nl +:+ "  PRIMARY KEY (tbl, member)," +:+ nl +:+ "  KEY idx_zset_rank (tbl, score, member)" +:+ nl +:+
  ") ENGINE=InnoDB DEFAULT CHARSET=utf8mb4;" +:+ nl.

Inductive openErr := OpenFailed | UnsupportedDialect | PingFailed | MigrateFailed.

Section Open.
Context `{Engine}.

Definition migrate (d : Dialect) (db : DB) : bool * DB :=
  exec (if decide (Name d = "mysql"%string) then mysqlSchema else schemaDDL) [] db.

(** [opened]: the driver is registered and takes the DSN; [pinged]: the
    server answers.  A failure closes the pool. *)
Definition Open (opened pinged : bool) (driverName : string) (db : DB) : (openErr + Dialect) * DB :=
  if negb opened then (inl OpenFailed, db) else
  match dialectFor driverName with
  | None => (inl UnsupportedDialect, db)
  | Some d =>
      if negb pinged then (inl PingFailed, db) else
      let '(ok, db) := migrate d db in
      (if ok then inr d else inl MigrateFailed, db)
  end.
End Open.
