(* ===== verification/SqlThm.v ===== *)
(** * The SQL backend keeps the promises of the in-memory one (sqlstore/sql.go)

    [SqliteLaws] is what the code relies on of SQLite: the effect of each
    statement text of the dialect on three tables.  [sqlite_engine] is an
    executable engine with these laws.  Under them the backend and the memory
    store of MemStore.v are the same store, operation by operation; the lemmas
    at the end show where they part. *)

From S2P Require Import Prelude MemStore StoreOps SqlStore.

(** ** The tables *)

Record Tables := mkTables {
  kvT : gmap (string * string) (list Z);
  ctrT : gmap (string * string) Z;
  zsetT : gmap (string * string) Z }.

Definition rowOf (t : string) (e : (string * string) * Z) : option RankItem :=
  if decide (e.1.1 = t) then Some (mkItem e.1.2 e.2) else None.
Definition tableRows (t : string) (T : Tables) : list RankItem := omap (rowOf t) (map_to_list (zsetT T)).

(** LIMIT and OFFSET: a negative limit is no limit. *)
Definition cut (lim off : Z) {A} (l : list A) : list A :=
  let l := drop (Z.to_nat off) l in if lim <? 0 then l else take (Z.to_nat lim) l.
Definition itemRow (it : RankItem) : list sqlval := [SText (Member it); SInt (Score it)].
Definition one {A} (f : A → sqlval) (o : option A) : list (list sqlval) :=
  match o with Some a => [[f a]] | None => [] end.
Definition below (m : string) (t : string) (T : Tables) : Z :=
  match zsetT T !! (t, m) with
  | None => 0
  | Some sc => zlen (filter (ranksBelow (mkItem m sc)) (tableRows t T))
  end.

(** A sum the column holds as an integer. *)
Definition in_i64 (z : Z) : Prop := - 2^63 ≤ z < 2^63.
#[export] Instance in_i64_dec z : Decision (in_i64 z).
Proof. unfold in_i64. apply _. Defined.

Class SqliteLaws (E : Engine) := {
  tabs : DB → Tables;
  exec_fail q args db db' : exec q args db = (false, db') → tabs db' = tabs db;
  exec_upsertKV t k v db db' : exec (UpsertKV sqliteDialect) [SText t; SText k; SBlob v] db = (true, db') →
    tabs db' = mkTables (<[(t, k) := v]> (kvT (tabs db))) (ctrT (tabs db)) (zsetT (tabs db));
  exec_deleteKV t k db db' : exec deleteKV [SText t; SText k] db = (true, db') →
    tabs db' = mkTables (delete (t, k) (kvT (tabs db))) (ctrT (tabs db)) (zsetT (tabs db));
  exec_upsertCounter t k n db db' : in_i64 (default 0 (ctrT (tabs db) !! (t, k)) + n) →
    exec (UpsertCounter sqliteDialect) [SText t; SText k; SInt n] db = (true, db') →
    tabs db' = mkTables (kvT (tabs db)) (<[(t, k) := default 0 (ctrT (tabs db) !! (t, k)) + n]> (ctrT (tabs db))) (zsetT (tabs db));
  exec_upsertZAdd t m n db db' : exec (UpsertZAdd sqliteDialect) [SText t; SText m; SInt n] db = (true, db') →
    tabs db' = mkTables (kvT (tabs db)) (ctrT (tabs db)) (<[(t, m) := n]> (zsetT (tabs db)));
  exec_upsertZIncr t m n db db' : in_i64 (default 0 (zsetT (tabs db) !! (t, m)) + n) →
    exec (UpsertZIncr sqliteDialect) [SText t; SText m; SInt n] db = (true, db') →
    tabs db' = mkTables (kvT (tabs db)) (ctrT (tabs db)) (<[(t, m) := default 0 (zsetT (tabs db) !! (t, m)) + n]> (zsetT (tabs db)));
  query_selectKV t k db rows : query selectKV [SText t; SText k] db = Some rows → rows = one SBlob (kvT (tabs db) !! (t, k));
  query_selectCounter t k db rows : query selectCounter [SText t; SText k] db = Some rows →
    rows = one SInt (ctrT (tabs db) !! (t, k));
  query_selectScore t m db rows : query selectScore [SText t; SText m] db = Some rows →
    rows = one SInt (zsetT (tabs db) !! (t, m));
  query_selectMember t m db rows : query selectMember [SText t; SText m] db = Some rows →
    rows = one (λ _, SInt 1) (zsetT (tabs db) !! (t, m));
  query_selectRange t lim off db rows : 0 ≤ off → query selectRange [SText t; SInt lim; SInt off] db = Some rows →
    rows = itemRow <$> cut lim off (sortSlice revLe (tableRows t (tabs db)));
  query_countBelow t m db rows : query countBelow [SText t; SText m] db = Some rows → rows = [[SInt (below m t (tabs db))]];
  begin_sees db tx : begin db = Some tx → tabs tx = tabs db;
  commit_ok tx db db' : commit tx db = (true, db') → tabs db' = tabs tx;
  commit_fail tx db db' : commit tx db = (false, db') → tabs db' = tabs db }.

(** ** An engine with the laws *)

Definition addT (key : string * string) (n : Z) (m : gmap (string * string) Z) : option (gmap (string * string) Z) :=
  let s := default 0 (m !! key) + n in if decide (in_i64 s) then Some (<[key := s]> m) else None.

Lemma addT_ok key n m : in_i64 (default 0 (m !! key) + n) → addT key n m = Some (<[key := default 0 (m !! key) + n]> m).
Proof. intros H. unfold addT. by rewrite decide_True. Qed.

Definition sqliteExec (q : string) (args : list sqlval) (T : Tables) : option Tables :=
  match args with
  | [SText t; SText k; SBlob v] =>
      if decide (q = UpsertKV sqliteDialect) then Some (mkTables (<[(t, k) := v]> (kvT T)) (ctrT T) (zsetT T)) else None
  | [SText t; SText k] =>
      if decide (q = deleteKV) then Some (mkTables (delete (t, k) (kvT T)) (ctrT T) (zsetT T)) else None
  | [SText t; SText k; SInt n] =>
      if decide (q = UpsertCounter sqliteDialect) then (λ c, mkTables (kvT T) c (zsetT T)) <$> addT (t, k) n (ctrT T)
      else if decide (q = UpsertZIncr sqliteDialect) then mkTables (kvT T) (ctrT T) <$> addT (t, k) n (zsetT T)
      else if decide (q = UpsertZAdd sqliteDialect) then Some (mkTables (kvT T) (ctrT T) (<[(t, k) := n]> (zsetT T)))
      else None
  | [] => if decide (q = schemaDDL) then Some T else None
  | _ => None
  end.

Definition sqliteQuery (q : string) (args : list sqlval) (T : Tables) : option (list (list sqlval)) :=
  match args with
  | [SText t; SText k] =>
      if decide (q = selectKV) then Some (one SBlob (kvT T !! (t, k)))
      else if decide (q = selectCounter) then Some (one SInt (ctrT T !! (t, k)))
      else if decide (q = selectScore) then Some (one SInt (zsetT T !! (t, k)))
      else if decide (q = selectMember) then Some (one (λ _, SInt 1) (zsetT T !! (t, k)))
      else if decide (q = countBelow) then Some [[SInt (below k t T)]] else None
  | [SText t; SInt lim; SInt off] =>
      if decide (q = selectRange) then Some (itemRow <$> cut lim off (sortSlice revLe (tableRows t T))) else None
  | _ => None
  end.

#[export] Instance sqlite_engine : Engine := {|
  DB := Tables;
  exec q args T := match sqliteExec q args T with Some T' => (true, T') | None => (false, T) end;
  query := sqliteQuery;
  begin T := Some T;
  commit tx _ := (true, tx) |}.

#[export] Instance sqlite_laws : SqliteLaws sqlite_engine.
Proof.
  refine {| tabs := (λ T, T) : @DB sqlite_engine → Tables |}; cbn [exec query begin commit sqlite_engine].
  - intros q args db db'. by destruct (sqliteExec q args db); intros [= <-].
  - intros t k v db db'. cbn. by intros [= <-].
  - intros t k db db'. cbn. by intros [= <-].
  - intros t k n db db' Hi. cbn. rewrite (addT_ok _ _ _ Hi). by intros [= <-].
  - intros t m n db db'. cbn. by intros [= <-].
  - intros t m n db db' Hi. cbn. rewrite (addT_ok _ _ _ Hi). by intros [= <-].
  - intros t k db rows. cbn. by intros [= <-].
  - intros t k db rows. cbn. by intros [= <-].
  - intros t k db rows. cbn. by intros [= <-].
  - intros t k db rows. cbn. by intros [= <-].
  - intros t lim off db rows _. cbn. by intros [= <-].
  - intros t k db rows. cbn. by intros [= <-].
  - by intros db tx [= <-].
  - by intros tx db db' [= <-].
  - by intros tx db db' [=].
Defined.

(** ** The backend as a store *)

Definition ofSql {A} (f : A → resp) (r : serr + A) : resp :=
  match r with inr a => f a | inl SqlNotFound => RNotFound | inl _ => ROther end.
Definition sqlStep `{Engine} (d : Dialect) (o : op) (db : DB) : resp * DB :=
  match o with
  | OGet t k => (ofSql RBytes (SqlStore.Get t k db), db)
  | OPut t k v => let '(r, db) := SqlStore.Put d t k v db in (ofSql (λ _, RUnit) r, db)
  | ODelete t k => let '(r, db) := SqlStore.Delete t k db in (ofSql (λ _, RUnit) r, db)
  | OIncrBy t k n => let '(r, db) := SqlStore.IncrBy d t k n db in (ofSql RInt r, db)
  | OZAdd t m n => let '(r, db) := SqlStore.ZAdd d t m n db in (ofSql (λ _, RUnit) r, db)
  | OZIncrBy t m n => let '(r, db) := SqlStore.ZIncrBy d t m n db in (ofSql RInt r, db)
  | OZRevRange t a b => (ofSql RItems (SqlStore.ZRevRange t a b db), db)
  | OZRank t m => (ofSql RInt (SqlStore.ZRank t m db), db)
  end.

(** The calls on which the two agree: sums are int64s, and the ranges are the ones the callers use, from the front. *)
Definition fits (o : op) (s : MemoryStorage) : Prop :=
  match o with
  | OIncrBy t k n => in_i64 (default 0 (incr s !! t ≫= (.!! k)) + n)
  | OZIncrBy t m n => in_i64 (default 0 (zrow t s !! m) + n)
  | OZRevRange t a b => 0 ≤ a < 2^62 ∧ (b = -1 ∨ a ≤ b < 2^62) ∧ Z.of_nat (size (zrow t s)) < 2^62
  | _ => True
  end.
#[export] Instance fits_dec o s : Decision (fits o s).
Proof. destruct o; cbn; apply _. Defined.

Record Rep (T : Tables) (s : MemoryStorage) : Prop := {
  rep_kv t k : kvT T !! (t, k) = kv s !! t ≫= (.!! k);
  rep_ctr t k : ctrT T !! (t, k) = incr s !! t ≫= (.!! k);
  rep_zset t m : zsetT T !! (t, m) = zrow t s !! m }.

(** ** The rows of a ranking *)

Lemma elem_of_tableRows t T it : it ∈ tableRows t T ↔ zsetT T !! (t, Member it) = Some (Score it).
Proof.
  unfold tableRows. rewrite list_elem_of_omap. split.
  - intros ([[t' m] sc] & Hin & He). unfold rowOf in He. cbn in He. case_decide; [|done]. simplify_eq.
    by apply elem_of_map_to_list in Hin.
  - intros H. exists ((t, Member it), Score it). rewrite elem_of_map_to_list. split; [done|].
    unfold rowOf. cbn. rewrite decide_True by done. by destruct it.
Qed.

Lemma NoDup_omap_fst {K A B : Type} (f : K * A → option B) (l : list (K * A)) :
  (∀ x y b, f x = Some b → f y = Some b → x = y) → NoDup l → NoDup (omap f l).
Proof.
  intros Hf. induction 1 as [|x l Hx Hl IH]; cbn; [constructor|]. destruct (f x) as [b|] eqn:E; [|done].
  constructor; [|done]. rewrite list_elem_of_omap. intros (y & Hy & He). by rewrite (Hf _ _ _ E He) in Hx.
Qed.

Lemma tableRows_items t T s : Rep T s → tableRows t T ≡ₚ items (zrow t s).
Proof.
  intros HR. apply NoDup_Permutation.
  - apply NoDup_omap_fst; [|apply NoDup_map_to_list]. intros [[t1 m1] s1] [[t2 m2] s2] b. unfold rowOf. cbn.
    repeat case_decide; congruence.
  - apply (NoDup_fmap_1 Member). apply NoDup_items.
  - intros it. rewrite elem_of_tableRows, elem_of_items. by rewrite (rep_zset _ _ HR).
Qed.

Lemma scanItems_rows l : scanItems (itemRow <$> l) = inr l.
Proof. induction l as [|[m sc] l IH]; [done|]. cbn. by rewrite IH. Qed.

Lemma below_rank t m T s : Rep T s →
  MemStore.ZRank t m s = if zsetT T !! (t, m) then inr (below m t T) else inl StorageNotFound.
Proof.
  intros HR. rewrite rank_counts. unfold below. rewrite (rep_zset _ _ HR). destruct (zrow t s !! m); [|done].
  by rewrite (tableRows_items t T s HR).
Qed.

Lemma range_same t a b T s : Rep T s → 0 ≤ a < 2^62 → b = -1 ∨ a ≤ b < 2^62 → Z.of_nat (size (zrow t s)) < 2^62 →
  MemStore.ZRevRange t a b s =
    Ok (cut (if b >=? 0 then wrap_i64 (b - a + 1) else -1) a (sortSlice revLe (tableRows t T))).
Proof.
  intros HR Ha Hb Hn. destruct (ranking_order t a b s ltac:(lia) ltac:(lia) Hn) as (l & _ & _ & Hs & Hu & ->).
  assert (sortSlice revLe (tableRows t T) = l) as ->.
  { apply Hu; [|apply sortSlice_sorted; apply _]. unfold sortSlice. rewrite merge_sort_Permutation. by apply tableRows_items. }
  f_equal. unfold cut. replace (a <? 0) with false by lia. replace (Z.max 0 a) with a by lia. destruct Hb as [->|Hb].
  - cbn. apply take_ge. rewrite length_drop. unfold zlen. lia.
  - replace (b >=? 0) with true by lia. replace (b <? 0) with false by lia. rewrite wrap_i64_id by lia.
    by replace (b - a + 1 <? 0) with false by lia.
Qed.

(** ** Updates *)

Lemma upd_zrow T s t m v : Rep T s →
  Rep (mkTables (kvT T) (ctrT T) (<[(t, m) := v]> (zsetT T))) (set_zrow t (<[m := v]> (zrow t s)) s).
Proof.
  intros [Hk Hc Hz]. split; cbn; [done..|]. intros t' m'. unfold zrow, set_zrow. cbn.
  destruct (decide (t' = t)) as [->|Ht].
  - rewrite lookup_insert_eq. cbn. destruct (decide (m' = m)) as [->|Hm]; [by rewrite !lookup_insert_eq|].
    rewrite !lookup_insert_ne by congruence. apply Hz.
  - rewrite !lookup_insert_ne by congruence. apply Hz.
Qed.

Lemma del_pair {A} (m : gmap (string * string) A) (mm : gmap string (gmap string A)) t k row :
  (∀ t k, m !! (t, k) = mm !! t ≫= (.!! k)) → mm !! t = Some row →
  ∀ t' k', delete (t, k) m !! (t', k') = <[t := delete k row]> mm !! t' ≫= (.!! k').
Proof.
  intros H Ht t' k'. destruct (decide (t' = t)) as [->|Hne].
  - rewrite lookup_insert_eq. cbn. destruct (decide (k' = k)) as [->|Hk]; [by rewrite !lookup_delete_eq|].
    rewrite !lookup_delete_ne by congruence. by rewrite H, Ht.
  - rewrite lookup_insert_ne by congruence. rewrite lookup_delete_ne by congruence. apply H.
Qed.

Lemma rep_put T s t k v : Rep T s →
  Rep (mkTables (<[(t, k) := v]> (kvT T)) (ctrT T) (zsetT T)) (memStep (OPut t k v) s).2.
Proof. intros [Hk Hc Hz]. split; cbn; [|done..]. by apply upd_pair. Qed.

Lemma rep_delete T s t k : Rep T s →
  Rep (mkTables (delete (t, k) (kvT T)) (ctrT T) (zsetT T)) (memStep (ODelete t k) s).2.
Proof.
  intros [Hk Hc Hz]. cbn. destruct (kv s !! t) as [row|] eqn:Ht.
  - split; cbn; [|done..]. by apply del_pair.
  - split; cbn; [|done..]. intros t' k'. rewrite delete_id by (by rewrite Hk, Ht). apply Hk.
Qed.

Lemma rep_incr T s t k n : Rep T s → in_i64 (default 0 (ctrT T !! (t, k)) + n) →
  let '(r, s') := memStep (OIncrBy t k n) s in
  let v := default 0 (ctrT T !! (t, k)) + n in
  r = RInt v ∧ Rep (mkTables (kvT T) (<[(t, k) := v]> (ctrT T)) (zsetT T)) s'.
Proof.
  intros [Hk Hc Hz] Hi. cbn -[wrap_i64].
  assert (wrap_i64 (default 0 (default ∅ (incr s !! t) !! k) + n) = default 0 (ctrT T !! (t, k)) + n) as He.
  { rewrite Hc in *. destruct (incr s !! t); cbn in *; [|rewrite lookup_empty in *]; by apply wrap_i64_id. }
  unfold default, id in *. rewrite He. split; [done|]. split; cbn; [done| |done]. by apply upd_pair.
Qed.

(** ** One call *)

Section Laws.
Context {E : Engine} {L : SqliteLaws E}.
Implicit Types db : @DB E.

(** An error leaves the tables as they were, or as the call would have left
    them: a lost read after [IncrBy]'s update reports a failure of a counter
    that was added to. *)
Definition Simulates (o : op) (s : MemoryStorage) (r : resp) (T : Tables) : Prop :=
  let '(r', s') := memStep o s in
  (r = r' ∧ Rep T s') ∨ (r = ROther ∧ (Rep T s ∨ Rep T s')).

Lemma queryRow_one {A} (f : A → sqlval) (o : option A) q args db :
  (∀ rows, query q args db = Some rows → rows = one f o) →
  queryRow q args db = inl SqlError ∨ queryRow q args db = inr ((λ a, [f a]) <$> o).
Proof.
  intros H. unfold queryRow. destruct (query q args db) as [rows|]; [right|by left].
  rewrite (H rows eq_refl). by destruct o.
Qed.

Lemma sql_put t k v s db : Rep (tabs db) s →
  let '(r, db') := sqlStep sqliteDialect (OPut t k v) db in Simulates (OPut t k v) s r (tabs db').
Proof.
  intros HR. cbn. unfold SqlStore.Put. destruct (exec _ _ db) as [[] db'] eqn:He; unfold Simulates; cbn.
  - left. split; [done|]. rewrite (exec_upsertKV _ _ _ _ _ He). by apply (rep_put _ s).
  - right. split; [done|]. left. by rewrite (exec_fail _ _ _ _ He).
Qed.

Lemma sql_get t k s db : Rep (tabs db) s → Simulates (OGet t k) s (sqlStep sqliteDialect (OGet t k) db).1 (tabs db).
Proof.
  intros HR. cbn. unfold SqlStore.Get, Simulates. cbn.
  destruct (queryRow_one SBlob _ _ _ db (query_selectKV t k db)) as [-> | ->]; [right; split; [done|by left]|left].
  split; [|done]. unfold MemStore.Get. rewrite (rep_kv _ _ HR).
  destruct (kv s !! t) as [row|]; cbn; [|done]. by destruct (row !! k).
Qed.

Lemma sql_delete t k s db : Rep (tabs db) s →
  let '(r, db') := sqlStep sqliteDialect (ODelete t k) db in Simulates (ODelete t k) s r (tabs db').
Proof.
  intros HR. cbn. unfold SqlStore.Delete. destruct (exec _ _ db) as [[] db'] eqn:He; unfold Simulates; cbn.
  - left. split; [done|]. rewrite (exec_deleteKV _ _ _ _ He). by apply (rep_delete _ s).
  - right. split; [done|]. left. by rewrite (exec_fail _ _ _ _ He).
Qed.

Lemma sql_incr t k n s db : Rep (tabs db) s → in_i64 (default 0 (ctrT (tabs db) !! (t, k)) + n) →
  let '(r, db') := sqlStep sqliteDialect (OIncrBy t k n) db in Simulates (OIncrBy t k n) s r (tabs db').
Proof.
  intros HR Hi. pose proof (rep_incr _ s t k n HR Hi) as Hm. cbn [sqlStep]. unfold SqlStore.IncrBy, IncrExec, Simulates.
  destruct (memStep _ s) as [r' s'] eqn:Hms. destruct Hm as [-> HR'].
  destruct (exec _ _ db) as [[] db'] eqn:He.
  - pose proof (exec_upsertCounter _ _ _ _ _ Hi He) as Ht. rewrite <- Ht in HR'. unfold IncrRead.
    destruct (queryRow_one SInt _ _ _ db' (query_selectCounter t k db')) as [-> | ->]; [right; split; [done|by right]|].
    left. split; [|done]. rewrite Ht. cbn. by rewrite lookup_insert_eq.
  - right. split; [done|]. left. by rewrite (exec_fail _ _ _ _ He).
Qed.

Lemma sql_zadd t m n s db : Rep (tabs db) s →
  let '(r, db') := sqlStep sqliteDialect (OZAdd t m n) db in Simulates (OZAdd t m n) s r (tabs db').
Proof.
  intros HR. cbn. unfold SqlStore.ZAdd. destruct (exec _ _ db) as [[] db'] eqn:He; unfold Simulates; cbn.
  - left. split; [done|]. rewrite (exec_upsertZAdd _ _ _ _ _ He). by apply upd_zrow.
  - right. split; [done|]. left. by rewrite (exec_fail _ _ _ _ He).
Qed.

Lemma sql_zincr t m n s db : Rep (tabs db) s → in_i64 (default 0 (zrow t s !! m) + n) →
  let '(r, db') := sqlStep sqliteDialect (OZIncrBy t m n) db in Simulates (OZIncrBy t m n) s r (tabs db').
Proof.
  intros HR Hi. cbn [sqlStep]. unfold SqlStore.ZIncrBy, Simulates. cbn [memStep]. unfold MemStore.ZIncrBy.
  rewrite wrap_i64_id by done. destruct (begin db) as [tx|] eqn:Hb; [|right; split; [done|by left]].
  pose proof (begin_sees _ _ Hb) as Htx. destruct (exec _ _ tx) as [[] tx'] eqn:He; cbn [negb]; [|right; split; [done|by left]].
  assert (in_i64 (default 0 (zsetT (tabs tx) !! (t, m)) + n)) as Hi' by (by rewrite Htx, (rep_zset _ _ HR)).
  pose proof (exec_upsertZIncr _ _ _ _ _ Hi' He) as Ht. rewrite Htx, (rep_zset _ _ HR) in Ht.
  destruct (queryRow_one SInt _ _ _ tx' (query_selectScore t m tx')) as [-> | ->]; [right; split; [done|by left]|].
  rewrite Ht. cbn [zsetT]. rewrite lookup_insert_eq. cbn. destruct (commit tx' db) as [[] db'] eqn:Hc; cbn.
  - left. split; [done|]. rewrite (commit_ok _ _ _ Hc), Ht. by apply upd_zrow.
  - right. split; [done|]. left. by rewrite (commit_fail _ _ _ Hc).
Qed.

Lemma sql_range t a b s db : Rep (tabs db) s → fits (OZRevRange t a b) s →
  Simulates (OZRevRange t a b) s (sqlStep sqliteDialect (OZRevRange t a b) db).1 (tabs db).
Proof.
  intros HR (Ha & Hb & Hn). unfold Simulates. cbn [memStep sqlStep fst]. rewrite (range_same t a b (tabs db) s) by done.
  unfold SqlStore.ZRevRange. replace ((b >=? 0) && (b <? a)) with false by (destruct Hb as [->|]; lia).
  set (lim := if b >=? 0 then wrap_i64 (b - a + 1) else -1).
  destruct (query _ _ db) as [rows|] eqn:Hq; [|right; split; [done|by left]]. left. split; [|done].
  rewrite (query_selectRange _ _ _ _ _ (proj1 Ha) Hq). by rewrite scanItems_rows.
Qed.

Lemma sql_rank t m s db : Rep (tabs db) s →
  Simulates (OZRank t m) s (sqlStep sqliteDialect (OZRank t m) db).1 (tabs db).
Proof.
  intros HR. unfold Simulates. cbn [memStep sqlStep fst]. unfold SqlStore.ZRank.
  rewrite (below_rank t m _ s HR).
  destruct (queryRow_one SInt (Some (below m t (tabs db))) _ _ db (query_countBelow t m db)) as [-> | ->];
    [right; split; [done|by left]|].
  cbn [fmap option_fmap option_map scanInt].
  destruct (queryRow_one (λ _, SInt 1) _ _ _ db (query_selectMember t m db)) as [-> | ->]; [right; split; [done|by left]|].
  left. split; [|done]. by destruct (zsetT (tabs db) !! (t, m)).
Qed.

Lemma sql_step o s db : Rep (tabs db) s → fits o s →
  let '(r, db') := sqlStep sqliteDialect o db in Simulates o s r (tabs db').
Proof.
  intros HR Hf. destruct o; cbn [fits] in Hf.
  - by apply sql_get.
  - by apply sql_put.
  - by apply sql_delete.
  - apply sql_incr; [done|]. by rewrite (rep_ctr _ _ HR).
  - by apply sql_zadd.
  - by apply sql_zincr.
  - by apply sql_range.
  - by apply sql_rank.
Qed.

(** ** Runs *)

Definition sqlRun : list op → DB → list resp * DB := runOps (sqlStep sqliteDialect).

Lemma sql_simulates : simulates fits (λ db s, Rep (tabs db) s) (sqlStep sqliteDialect).
Proof.
  intros o db s HR Hf. pose proof (sql_step o s db HR Hf) as Hs. destruct (sqlStep sqliteDialect o db) as [r db'].
  unfold Simulates in Hs. by destruct (memStep o s).
Qed.

(** C27. Under SQLite the backend is the memory store, errors included: in any
    sequence of calls, made one after the other, whose sums are int64s and whose
    ranges count from the front, each call that does not report an error gives
    the answer the memory store gives after the calls before it; a call that
    reports an error either did nothing or did what the memory store would have
    done; and at the end the tables are the memory store's. *)
Theorem sql_refines_memory ops db s rs db' : Rep (tabs db) s → sqlRun ops db = (rs, db') → fitsAlong fits ops rs s →
  ∃ s', explains ops rs s s' ∧ Rep (tabs db') s'.
Proof. exact (simulates_run fits (λ db s, Rep (tabs db) s) _ sql_simulates ops db s rs db'). Qed.
End Laws.

(** ** A run of the engine *)

Definition demoOps : list op :=
  [OPut "p" "a" [123; 125]; OGet "p" "a"; OGet "p" "b"; OIncrBy "c" "a" 7; OIncrBy "c" "a" (-2); OZAdd "r" "amy" 5; OZAdd "r" "bob" 9;
   OZIncrBy "r" "cat" 5; OZRevRange "r" 0 (-1); OZRevRange "r" 1 1; OZRank "r" "cat"; OZRank "r" "dan"; ODelete "p" "a"; OGet "p" "a"].

Definition emptyDB : @DB sqlite_engine := mkTables ∅ ∅ ∅.

Definition demoReplies : list resp :=
  [RUnit; RBytes [123; 125]; RNotFound; RInt 7; RInt 5; RUnit; RUnit; RInt 5;
   RItems [mkItem "bob" 9; mkItem "amy" 5; mkItem "cat" 5]; RItems [mkItem "amy" 5]; RInt 1; RNotFound; RUnit; RNotFound].

Lemma sql_refines_memory_witness :
  (sqlRun demoOps emptyDB).1 = demoReplies ∧ (memRun demoOps NewMemoryStorage).1 = demoReplies.
Proof.
  split; [vm_compute; reflexivity|].
  destruct (sql_refines_memory demoOps emptyDB NewMemoryStorage (sqlRun demoOps emptyDB).1
    (sqlRun demoOps emptyDB).2) as (s' & He & _).
  - by split.
  - by destruct (sqlRun demoOps _).
  - apply (bool_decide_unpack _). vm_compute. exact I.
  - apply explains_memRun in He as ->; [vm_compute; reflexivity|]. apply (bool_decide_unpack _). vm_compute. exact I.
Defined.

(** ** Where the two part *)

Definition rankDB : @DB sqlite_engine := (sqlRun [OZAdd "r" "amy" 5; OZAdd "r" "bob" 9; OZAdd "r" "cat" 7] emptyDB).2.
Definition rankMem : MemoryStorage := (memRun [OZAdd "r" "amy" 5; OZAdd "r" "bob" 9; OZAdd "r" "cat" 7] NewMemoryStorage).2.

(** A negative stop other than -1 counts from the end in the memory store (and
    in Redis), and means the end here. *)
Lemma negative_stop_is_the_end :
  (sqlStep sqliteDialect (OZRevRange "r" 0 (-2)) rankDB).1 = RItems [mkItem "bob" 9; mkItem "cat" 7; mkItem "amy" 5] ∧
  (memStep (OZRevRange "r" 0 (-2)) rankMem).1 = RItems [mkItem "bob" 9; mkItem "cat" 7].
Proof. split; vm_compute; reflexivity. Qed.

(** An empty range is an error here and the empty list there. *)
Lemma inverted_range_fails :
  (sqlStep sqliteDialect (OZRevRange "r" 2 1) rankDB).1 = ROther ∧ (memStep (OZRevRange "r" 2 1) rankMem).1 = RItems [].
Proof. split; vm_compute; reflexivity. Qed.

(** Two callers of [IncrBy] whose statements interleave are told the same
    value: neither is told the counter after its own addition. *)
Lemma incr_interleaved :
  let '(ok1, db1) := IncrExec sqliteDialect "c" "a" 1 emptyDB in
  let '(ok2, db2) := IncrExec sqliteDialect "c" "a" 1 db1 in
  ok1 = true ∧ ok2 = true ∧ IncrRead "c" "a" db2 = inr 2.
Proof. vm_compute. auto. Qed.
