(* ===== verification/StoreDb.v ===== *)
(** * The write-back store over a database (internal/storage/managed.go with
    internal/storage/sqlstore/sql.go)

    The store of Storage.v calls its backend through a class; here the backend
    is the SQL one, and the rows of its table are compared with the writes that
    were made.  The class [KeyValue] is what the store's client may assume of a
    backend, and the SQL backend under SQLite an instance of it. *)

From S2P Require Import Prelude Wal Storage StorageThm SqlStore SqlThm.

(** ** Backends with rows *)

Definition wr (m : gmap (string * string) (list Z)) (r : walRecord) : gmap (string * string) (list Z) :=
  if Deleted r then delete (Table r, Key r) m else <[(Table r, Key r) := Value r]> m.

(** A call that fails leaves the rows alone. *)
Class KeyValue (B : Type) `{Storage.Backend B} := {
  kvOf : B → gmap (string * string) (list Z);
  kv_put t k v b ok b' : Storage.Put t k v b = (ok, b') → kvOf b' = if ok : bool then <[(t, k) := v]> (kvOf b) else kvOf b;
  kv_delete t k b ok b' : Storage.Delete t k b = (ok, b') → kvOf b' = if ok : bool then delete (t, k) (kvOf b) else kvOf b }.

Section Sql.
Context {E : Engine} {L : SqliteLaws E}.

(** The backend's error is what the store looks at. *)
Definition succeeded {A} (r : serr + A) : bool := match r with inr _ => true | inl _ => false end.
#[export] Instance sql_backend : Storage.Backend (@DB E) := {|
  Storage.Put t k v db := let '(r, db) := SqlStore.Put sqliteDialect t k v db in (succeeded r, db);
  Storage.Delete t k db := let '(r, db) := SqlStore.Delete t k db in (succeeded r, db) |}.

#[export] Instance sql_keyvalue : KeyValue (@DB E).
Proof.
  refine {| kvOf db := kvT (tabs db) |}.
  - intros t k v db ok db'. cbn. unfold SqlStore.Put. destruct (exec _ _ db) as [[] db1] eqn:He; cbn; intros [= <- <-].
    + by rewrite (exec_upsertKV _ _ _ _ _ He).
    + by rewrite (exec_fail _ _ _ _ He).
  - intros t k db ok db'. cbn. unfold SqlStore.Delete. destruct (exec _ _ db) as [[] db1] eqn:He; cbn; intros [= <- <-].
    + by rewrite (exec_deleteKV _ _ _ _ He).
    + by rewrite (exec_fail _ _ _ _ He).
Defined.
End Sql.

(** ** The rows after any run *)

Section Rows.
Context {J : RecordJson} {L : RecordJsonLaws J} {B D : Type} {BK : Storage.Backend B} {KV : KeyValue B} {O : OS D}.
Variable opts : Options.
Notation Store := (@Store B D).
Implicit Types s : Store.

(** [s'] is [s] after the writes [app] reached the backend. *)
Definition reached s s' (app : list walRecord) : Prop :=
  applied s' = applied s ++ app ∧ kvOf (backend s') = foldl wr (kvOf (backend s)) app.

Lemma reached_refl s s' : applied s' = applied s → backend s' = backend s → reached s s' [].
Proof. intros Ha Hb. split; [by rewrite app_nil_r|by rewrite Hb]. Qed.
Lemma reached_trans s1 s2 s3 a b : reached s1 s2 a → reached s2 s3 b → reached s1 s3 (a ++ b).
Proof. intros [Ha Hk] [Ha' Hk']. split; [by rewrite Ha', Ha, app_assoc|]. by rewrite Hk', Hk, foldl_app. Qed.
(** What happens before and after in the other fields does not matter. *)
Lemma reached_from s s0 s' a : reached s0 s' a → applied s0 = applied s → backend s0 = backend s → reached s s' a.
Proof. intros [Ha Hk] H1 H2. split; [by rewrite Ha, H1|by rewrite Hk, H2]. Qed.
Lemma reached_to s s0 s' a : reached s s0 a → applied s' = applied s0 → backend s' = backend s0 → reached s s' a.
Proof. intros [Ha Hk] H1 H2. split; [by rewrite H1|by rewrite H2]. Qed.

Lemma apply_reached r s ok s' : apply_ r s = (ok, s') → reached s s' (if ok : bool then [r] else []).
Proof.
  unfold apply_, reached, wr. destruct (Deleted r) eqn:Ed.
  - destruct (Storage.Delete _ _ _) as [ok' b] eqn:He. apply kv_delete in He.
    destruct ok'; intros [= <- <-]; cbn; rewrite ?app_nil_r, ?Ed; by split.
  - destruct (Storage.Put _ _ _ _) as [ok' b] eqn:He. apply kv_put in He.
    destruct ok'; intros [= <- <-]; cbn; rewrite ?app_nil_r, ?Ed; by split.
Qed.
Lemma handleAll_reached rs s ok s' : handleAll apply_ rs s = (ok, s') → ∃ app, reached s s' app.
Proof.
  revert s. induction rs as [|r rs IH]; intros s; cbn; [intros [= <- <-]; exists []; by apply reached_refl|].
  destruct (apply_ r s) as [ok1 s1] eqn:Er. apply apply_reached in Er. destruct ok1; [|intros [= <- <-]; by eexists].
  intros (app & Ha)%IH. eexists. by eapply reached_trans.
Qed.
Lemma replay_reached s : ∃ app, reached s (tryReplayWAL s) app.
Proof.
  unfold tryReplayWAL. destruct (wal s) as [w|]; [|exists []; by apply reached_refl].
  destruct (Replay apply_ w (disk s) s) as [[[[n ok] w'] d'] s'] eqn:Er. unfold Replay in Er.
  assert (s' = s ∨ ∃ rs ok, handleAll apply_ rs s = (ok, s')) as Hs.
  { destruct (wclosed w); [left; congruence|]. destruct (osRead _) as [[] d]; cbn [negb] in Er; [|left; congruence].
    destruct (scan _ []) as [records []]; cbn [negb] in Er; [|left; congruence]. right. exists records.
    destruct (handleAll apply_ records s) as [ok1 s1]. exists ok1. destruct ok1; cbn [negb] in Er; [|congruence].
    case_decide; [congruence|]. destruct (osTruncate d) as [[] d1]; cbn [negb] in Er; congruence. }
  destruct Hs as [->|(rs & ok1 & (app & H)%handleAll_reached)]; [exists []; by apply reached_refl|].
  exists app. by eapply reached_to.
Qed.

Lemma logAppend_quiet r s ok s' : logAppend r s = (ok, s') → applied s' = applied s ∧ backend s' = backend s.
Proof. unfold logAppend. destruct (wal s) as [w|]; [destruct (Append r w (disk s)) as [[? ?] ?]|]; by intros [= <- <-]. Qed.
Lemma offer_quiet now r s e s' : offer opts now r s = (e, s') → applied s' = applied s ∧ backend s' = backend s.
Proof.
  unfold offer, spill. destruct (_ <? _); [by intros [= <- <-]|].
  destruct (logAppend r s) as [ok s1] eqn:El. apply logAppend_quiet in El as [Ha Hb]. destruct ok; intros [= <- <-]; by split.
Qed.
Lemma allowWrite_quiet now r s e s' : allowWrite now r s = (e, s') → applied s' = applied s ∧ backend s' = backend s.
Proof. unfold allowWrite. destruct (closing s); [by intros [= <- <-]|]. destruct (Allow _ _ _) as [[] ?]; by intros [= <- <-]. Qed.

Lemma worker_reached now s : ∃ app, reached s (workerStep opts now s) app.
Proof.
  unfold workerStep. destruct (worker s) as [|a [|r todo] failed|batch|[|r batch] tripped| |].
  - unfold drainBatch. exists []. destruct (take _ _); by apply reached_refl.
  - exists []. by apply reached_refl.
  - destruct (apply_ r s) as [ok s1] eqn:Er. apply apply_reached in Er. eexists. by eapply reached_to.
  - exists []. by apply reached_refl.
  - exists []. by apply reached_refl.
  - destruct (logAppend r s) as [ok s1] eqn:El. apply logAppend_quiet in El as [Ha Hb]. exists [].
    destruct ok; [|case_decide]; by apply reached_refl.
  - destruct (replay_reached s) as (app & H). exists app. by eapply reached_to.
  - exists []. by apply reached_refl.
Qed.
Lemma drain_reached e s : ∃ app, reached s (closeDrain e s) app.
Proof.
  unfold closeDrain. destruct (ch s) as [|r rest]; [exists []; by apply reached_refl|].
  destruct (apply_ r (set_ch rest s)) as [ok s1] eqn:Er. apply apply_reached in Er. exists (if ok then [r] else []).
  eapply (reached_from s (set_ch rest s)); [|done..]. eapply reached_to; [exact Er|..];
    destruct ok; cbn; [by destruct e| |by destruct e|]; (destruct (wal s1); [|by destruct e]);
    destruct (logAppend r s1) as [ok2 s2] eqn:El; apply logAppend_quiet in El as [Ha Hb]; by destruct ok2, e.
Qed.
Lemma qstep_reached s s' : qstep opts s s' → ∃ app, reached s s' app.
Proof.
  destruct 1 as [now r s' _ Ha|now r e s' Ha|now r e s' _ Ho|now _|_ _| |_ _|e _|_].
  - apply allowWrite_quiet in Ha as [??]. exists []. by apply reached_refl.
  - apply allowWrite_quiet in Ha as [??]. exists []. by apply reached_refl.
  - apply offer_quiet in Ho as [??]. exists []. by apply reached_refl.
  - apply worker_reached.
  - exists []. by apply reached_refl.
  - exists []. unfold CloseBegin. destruct (closing s); by apply reached_refl.
  - exists []. by apply reached_refl.
  - apply drain_reached.
  - destruct (replay_reached s) as (app & H). exists app. unfold closeFinish. by eapply reached_to.
Qed.

(** A run with the list of the writes that reached the backend, in order: those
    of the queue and the log, which the store counts as applied, and the
    synchronous ones. *)
Inductive hstep : Store * list walRecord → Store * list walRecord → Prop :=
| hs_queue s s' h new : qstep opts s s' → applied s' = applied s ++ new → hstep (s, h) (s', h ++ new)
| hs_sync t k raw s h :
    hstep (s, h) ((SetSync t k raw s).2, h ++ if (SetSync t k raw s).1 then [mkRec 0 t k raw false] else []).

Definition lastWrite (key : string * string) (h : list walRecord) : option walRecord :=
  last (filter (fun r => (Table r, Key r) = key) h).

Lemma lastWrite_snoc key h r : lastWrite key (h ++ [r]) = if decide ((Table r, Key r) = key) then Some r else lastWrite key h.
Proof. unfold lastWrite. rewrite filter_app. cbn. case_decide; [by rewrite last_snoc|by rewrite app_nil_r]. Qed.

Lemma foldl_wr m h key : foldl wr m h !! key =
  match lastWrite key h with Some r => if Deleted r then None else Some (Value r) | None => m !! key end.
Proof.
  induction h as [|r h IH] using rev_ind; [done|]. rewrite foldl_app, lastWrite_snoc. cbn [foldl]. unfold wr at 1.
  case_decide as Hk; [subst key; destruct (Deleted r); [apply lookup_delete_eq|apply lookup_insert_eq]|].
  destruct (Deleted r); [rewrite lookup_delete_ne by done|rewrite lookup_insert_ne by done]; apply IH.
Qed.

Lemma hrun_rows x y : rtc hstep x y → ∃ new, y.2 = x.2 ++ new ∧ kvOf (backend y.1) = foldl wr (kvOf (backend x.1)) new ∧
  rtc (step opts) x.1 y.1 ∧ ∃ app, applied y.1 = applied x.1 ++ app ∧ app `sublist_of` new.
Proof.
  induction 1 as [x|x y z Hs _ (new & H1 & H2 & H3 & app & H4 & H5)].
  { exists []. rewrite app_nil_r. split_and!; [done..|]. exists []. by rewrite app_nil_r. }
  destruct Hs as [s s' h n Hq Hn|t k raw s h]; cbn [fst snd] in *.
  - exists (n ++ new). rewrite H1, H2, H4, Hn, foldl_app, !app_assoc.
    destruct (qstep_reached _ _ Hq) as (n' & Ha & ->). assert (n' = n) as -> by (rewrite Ha in Hn; by apply app_inv_head in Hn).
    split_and!; [done..|eapply rtc_l; [by apply st_queue|done]|]. exists (n ++ app). rewrite app_assoc. split; [done|]. by apply sublist_app.
  - revert H1 H2 H3 H4. unfold SetSync. destruct (Storage.Put t k raw (backend s)) as [ok b] eqn:Hp. cbn [fst snd backend applied].
    intros H1 H2 H3 H4. exists ((if ok then [mkRec 0 t k raw false] else []) ++ new). rewrite H1, H2, foldl_app, app_assoc, (kv_put _ _ _ _ _ _ Hp).
    split_and!; [done|by destruct ok| |].
    + eapply rtc_l; [|exact H3]. pose proof (st_sync opts s t k raw) as Hst. unfold SetSync in Hst. by rewrite Hp in Hst.
    + exists app. split; [done|]. destruct ok; [by apply sublist_cons|done].
Qed.

(** C28. What the database holds: in every reachable state of the write-back store
    (without a log, or from a log that holds whole records), each key has the
    value of the last write that reached the database, in the order they did,
    queued, replayed or synchronous (none, if that deleted it; what it had
    before, if there was no write); and once the queue is empty and no write is
    under way, logged, given up as a dead letter or dropped by Close, every
    write that was accepted is among them.  This holds over every backend with
    rows, in particular SQLite. *)
Theorem database_holds_last w0 rs0 d0 b0 s h :
  match w0 with Some w => logged w rs0 | None => rs0 = [] end → rtc hstep (NewStore opts w0 d0 b0, []) (s, h) →
  (∀ key, kvOf (backend s) !! key =
     match lastWrite key h with Some r => if Deleted r then None else Some (Value r) | None => kvOf b0 !! key end) ∧
  (ch s = [] → flight s = [] → (∀ rs, holds s rs → rs = []) → dead s = [] → lost s = [] → ∀ r, r ∈ accepted s → r ∈ h).
Proof.
  intros Hw Hr. destruct (hrun_rows _ _ Hr) as (new & Hh & Hkv & Hst & ap & Happ & Hsub). cbn in Hh, Hkv, Hst, Happ. subst h.
  split; [intros key; rewrite Hkv; apply foldl_wr|]. intros H1 H2 H3 H4 H5 r Hacc.
  destruct (reach_Inv _ _ _ Hst (New_Inv opts w0 rs0 d0 b0 Hw)) as [rs [Hrs _ Hk _ _]]. apply Hk in Hacc.
  rewrite H1, H2, (H3 rs Hrs), H4, H5 in Hacc. cbn in Hacc. rewrite app_nil_r in Hacc.
  rewrite Happ in Hacc. by eapply elem_of_sublist.
Qed.
End Rows.

(** ** Reads and counters over SQL *)

Section Reads.
Context {J : RecordJson} {L : RecordJsonLaws J} {E : Engine} {SL : SqliteLaws E} {D : Type} {O : OS D}.
Variable opts : Options.
Notation Store := (@Store (@DB E) D).

(** [Get] up to the decoding of the bytes, and [IncrBy]: both go straight to the
    backend, past the queue and the breaker. *)
Definition Get (table key : string) (s : Store) : serr + list Z := SqlStore.Get table key (backend s).
Definition IncrBy (table key : string) (delta : Z) (s : Store) : (serr + Z) * Store :=
  let '(r, db) := SqlStore.IncrBy sqliteDialect table key delta (backend s) in
  (r, mkStore (ch s) (breaker s) (closing s) (wal s) (disk s) db (worker s) (closer s)
        (calling s) (accepted s) (applied s) (dead s) (lost s)).

(** A read sees the last write that reached the database, not those still in the
    queue or the log: it returns that value, that there is none, or an error of
    the database. *)
Theorem get_sees_database w0 rs0 d0 b0 (s : Store) h t k :
  match w0 with Some w => logged w rs0 | None => rs0 = [] end → rtc (hstep opts) (NewStore opts w0 d0 b0, []) (s, h) →
  Get t k s = inl SqlError ∨
  Get t k s = match lastWrite (t, k) h with
              | Some r => if Deleted r then inl SqlNotFound else inr (Value r)
              | None => match kvT (tabs b0) !! (t, k) with Some v => inr v | None => inl SqlNotFound end
              end.
Proof.
  intros Hw Hr. destruct (hrun_rows opts _ _ Hr) as (new & Hh & Hkv & _). cbn in Hh, Hkv. subst h.
  assert (kvT (tabs (backend s)) !! (t, k) = foldl wr (kvT (tabs b0)) new !! (t, k)) as Hrow by (by rewrite Hkv).
  rewrite foldl_wr in Hrow. unfold Get, SqlStore.Get.
  destruct (queryRow_one SBlob (kvT (tabs (backend s)) !! (t, k)) selectKV [SText t; SText k] (backend s)) as [Hq|Hq].
  { intros rows. apply query_selectKV. }
  - left. by rewrite Hq.
  - right. rewrite Hq, Hrow. destruct (lastWrite (t, k) new) as [r|]; [by destruct (Deleted r)|]. by destruct (kvT (tabs b0) !! (t, k)).
Qed.

(** A counter is a table of its own: adding to it changes no row. *)
Lemma IncrBy_rows t k n (s : Store) : in_i64 (default 0 (ctrT (tabs (backend s)) !! (t, k)) + n) →
  kvT (tabs (backend (IncrBy t k n s).2)) = kvT (tabs (backend s)).
Proof.
  intros Hn. unfold IncrBy, SqlStore.IncrBy, IncrExec. destruct (exec _ _ (backend s)) as [[] db] eqn:He; cbn [snd backend].
  - by rewrite (exec_upsertCounter _ _ _ _ _ Hn He).
  - by rewrite (exec_fail _ _ _ _ He).
Qed.
End Reads.

(** ** A run over SQLite *)

Notation dstore := (@Store (@DB sqlite_engine) (list nat)).
Definition dbStart : dstore := NewStore demoOpts (Some emptyWAL) [] emptyDB.
(** A synchronous write, then a queued one of the same key that the worker takes. *)
Definition db1 : dstore := (SetSync (Table recA) (Key recA) [1] dbStart).2.
Definition db2 : dstore := let s := (allowWrite 0 recA db1).2 in set_calling (calling s ++ [recA]) s.
Definition db3 : dstore := (offer demoOpts 0 recA (set_calling (remove_first recA (calling db2)) db2)).2.
Definition db4 : dstore := workerStep demoOpts 0 db3.
Definition db5 : dstore := workerStep demoOpts 0 db4.
Definition dbDone : dstore := workerStep demoOpts 0 db5.
Definition dbHistory : list walRecord := [mkRec 0 (Table recA) (Key recA) [1] false; recA].

Lemma db_run : rtc (hstep demoOpts) (dbStart, []) (dbDone, dbHistory).
Proof.
  eapply rtc_l; [apply (hs_sync demoOpts (Table recA) (Key recA) [1])|].
  eapply rtc_l; [apply (hs_queue demoOpts db1 db2 _ []); [eapply (st_allow _ _ 0 recA); [cbn; tauto|vm_compute; reflexivity]|vm_compute; reflexivity]|].
  eapply rtc_l; [apply (hs_queue demoOpts db2 db3 _ []); [eapply (st_offer _ _ 0 recA None); [change (calling db2) with [recA]; by left|vm_compute; reflexivity]|vm_compute; reflexivity]|].
  eapply rtc_l; [apply (hs_queue demoOpts db3 db4 _ []); [apply st_work; vm_compute; discriminate|vm_compute; reflexivity]|].
  eapply rtc_l; [apply (hs_queue demoOpts db4 db5 _ [recA]); [apply st_work; vm_compute; discriminate|vm_compute; reflexivity]|].
  eapply rtc_l; [apply (hs_queue demoOpts db5 dbDone _ []); [apply st_work; vm_compute; discriminate|vm_compute; reflexivity]|].
  apply rtc_refl.
Qed.

Lemma database_holds_last_witness : kvT (backend dbDone) !! (Table recA, Key recA) = Some (Value recA) ∧
  accepted dbDone = [recA] ∧ recA ∈ dbHistory.
Proof.
  destruct (database_holds_last (B := @DB sqlite_engine) demoOpts (Some emptyWAL) [] [] emptyDB dbDone dbHistory emptyWAL_logged db_run) as [Hk Ha].
  split; [apply (Hk (Table recA, Key recA))|]. split; [vm_compute; reflexivity|].
  apply Ha; [vm_compute; reflexivity..| |vm_compute; reflexivity|vm_compute; reflexivity|change (accepted dbDone) with [recA]; by left].
  intros rs Hh. unfold holds in Hh. change (wal dbDone) with (Some emptyWAL) in Hh. destruct Hh as (_ & Hh & Hc).
  destruct Hc as [|r rs [[-> | ->] _] _]; [done|vm_compute in Hh; discriminate..].
Defined.
