(* ===== verification/RedisStore.v ===== *)
(** * The Redis backend (internal/storage/redisstore/redis.go)

    The go-redis client is the class [RedisClient]; [ClientLaws] is what Redis
    documents of the commands, on one keyspace.  A score is a double: the ones
    that arise here are integers, so that a double is the integer it stands for
    and [f64] the rounding of an integer to one.  A command that go-redis sent
    twice, because an answer was lost, is outside the laws. *)

From Stdlib Require Import Ascii.
From S2P Require Import Prelude MemStore StoreOps.

(** ** Doubles *)

(** The double nearest to an integer, ties to even. *)
Definition f64 (z : Z) : Z :=
  if decide (Z.abs z ≤ 2^53) then z else
  let e := 2 ^ (Z.log2 (Z.abs z) - 52) in
  let q := Z.abs z / e in
  let r := Z.abs z mod e in
  let q := if decide (2 * r < e) then q else if decide (e < 2 * r) then q + 1 else if Z.even q then q else q + 1 in
  Z.sgn z * (q * e).

(** int64 of a double; out of range, what amd64 makes of it. *)
Definition i64OfF64 (z : Z) : Z := if decide (- 2^63 ≤ z < 2^63) then z else - 2^63.

Definition exact (z : Z) : Prop := Z.abs z ≤ 2^53.
#[export] Instance exact_dec z : Decision (exact z).
Proof. unfold exact. apply _. Defined.

Lemma f64_exact z : exact z → f64 z = z.
Proof. intros H. unfold f64. by rewrite decide_True. Qed.
Lemma i64_exact z : exact z → i64OfF64 z = z.
Proof. unfold exact. intros H. unfold i64OfF64. rewrite decide_True; [done|lia]. Qed.

(** ** The client *)

Class RedisClient := {
  RDB : Type;
  rPing : RDB → bool;
  rGet : string → RDB → option (option (list Z));                (* an error, redis.Nil or the value *)
  rSet : string → list Z → RDB → bool * RDB;
  rDel : string → RDB → bool * RDB;
  rIncrBy : string → Z → RDB → option Z * RDB;
  rZAdd : string → Z → string → RDB → bool * RDB;
  rZIncrBy : string → Z → string → RDB → option Z * RDB;
  rZRevRange : string → Z → Z → RDB → option (list (string * Z));
  rZRank : string → string → RDB → option (option Z) }.

Inductive rserr := RedisError | RedisNotFound.

Record Config := mkConfig { Addr : string; KeyPrefix : string; DialTimeout : Z; MaxRetries : Z }.

Section Backend.
Context `{RedisClient}.

(** What New fills in. *)
Definition defaults (cfg : Config) : Config :=
  mkConfig (Addr cfg) (if decide (KeyPrefix cfg = EmptyString) then "rangame" else KeyPrefix cfg)
    (if DialTimeout cfg <=? 0 then 2 * 1000000000 else DialTimeout cfg) (MaxRetries cfg).

Record Backend := mkBackend { client : RDB; prefix : string }.

Definition New (cfg : Config) (server : RDB) : option Backend :=
  let cfg := defaults cfg in
  if rPing server then Some (mkBackend server (KeyPrefix cfg)) else None.

Definition kvKey (p table key : string) : string := p +:+ ":" +:+ "kv" +:+ ":" +:+ table +:+ ":" +:+ key.
Definition ctrKey (p table key : string) : string := p +:+ ":" +:+ "ctr" +:+ ":" +:+ table +:+ ":" +:+ key.
Definition zsetKey (p table : string) : string := p +:+ ":" +:+ "zset" +:+ ":" +:+ table.

Definition set_client (b : Backend) (r : RDB) : Backend := mkBackend r (prefix b).

Definition Get (table key : string) (b : Backend) : rserr + list Z :=
  match rGet (kvKey (prefix b) table key) (client b) with
  | None => inl RedisError
  | Some None => inl RedisNotFound
  | Some (Some raw) => inr raw
  end.
Definition Put (table key : string) (raw : list Z) (b : Backend) : (rserr + unit) * Backend :=
  let '(ok, r) := rSet (kvKey (prefix b) table key) raw (client b) in
  (if ok then inr () else inl RedisError, set_client b r).
Definition Delete (table key : string) (b : Backend) : (rserr + unit) * Backend :=
  let '(ok, r) := rDel (kvKey (prefix b) table key) (client b) in
  (if ok then inr () else inl RedisError, set_client b r).
Definition IncrBy (table key : string) (delta : Z) (b : Backend) : (rserr + Z) * Backend :=
  let '(v, r) := rIncrBy (ctrKey (prefix b) table key) delta (client b) in
  (match v with Some v => inr v | None => inl RedisError end, set_client b r).

Definition ZAdd (table member : string) (sc : Z) (b : Backend) : (rserr + unit) * Backend :=
  let '(ok, r) := rZAdd (zsetKey (prefix b) table) (f64 sc) member (client b) in
  (if ok then inr () else inl RedisError, set_client b r).
Definition ZIncrBy (table member : string) (delta : Z) (b : Backend) : (rserr + Z) * Backend :=
  let '(v, r) := rZIncrBy (zsetKey (prefix b) table) (f64 delta) member (client b) in
  (match v with Some v => inr (i64OfF64 v) | None => inl RedisError end, set_client b r).
Definition ZRevRange (table : string) (start stop : Z) (b : Backend) : rserr + list RankItem :=
  match rZRevRange (zsetKey (prefix b) table) start stop (client b) with
  | None => inl RedisError
  | Some zs => inr ((fun '(m, sc) => mkItem m (i64OfF64 sc)) <$> zs)
  end.
Definition ZRank (table member : string) (b : Backend) : rserr + Z :=
  match rZRank (zsetKey (prefix b) table) member (client b) with
  | None => inl RedisError
  | Some None => inl RedisNotFound
  | Some (Some n) => inr n
  end.
End Backend.

(** ** What Redis does *)

Inductive rval := VBytes (b : list Z) | VNum (n : Z) | VZSet (z : gmap string Z).

(** ZREVRANGE's stretch of a list; negative indices count from the end. *)
Definition stretch {A} (start stop : Z) (l : list A) : list A :=
  let n := zlen l in
  let lo := Z.max 0 (if start <? 0 then start + n else start) in
  let hi := if stop <? 0 then stop + n else stop in
  take (Z.to_nat (hi - lo + 1)) (drop (Z.to_nat lo) l).

Definition zsetAt (key : string) (K : gmap string rval) : option (gmap string Z) :=
  match K !! key with None => Some ∅ | Some (VZSet z) => Some z | Some _ => None end.

Class ClientLaws (C : RedisClient) := {
  keys : RDB → gmap string rval;
  get_law key r v : rGet key r = Some v →
    match keys r !! key with None => v = None | Some (VBytes b) => v = Some b | Some _ => True end;
  set_law key v r r' : rSet key v r = (true, r') → keys r' = <[key := VBytes v]> (keys r);
  set_err key v r r' : rSet key v r = (false, r') → keys r' = keys r ∨ keys r' = <[key := VBytes v]> (keys r);
  del_law key r r' : rDel key r = (true, r') → keys r' = delete key (keys r);
  del_err key r r' : rDel key r = (false, r') → keys r' = keys r ∨ keys r' = delete key (keys r);
  incr_law key n r v r' : rIncrBy key n r = (Some v, r') →
    match keys r !! key with
    | None => v = n ∧ keys r' = <[key := VNum n]> (keys r)
    | Some (VNum m) => v = m + n ∧ - 2^63 ≤ m + n < 2^63 ∧ keys r' = <[key := VNum (m + n)]> (keys r)
    | Some _ => True
    end;
  incr_err key n r r' : rIncrBy key n r = (None, r') → keys r' = keys r ∨
    match keys r !! key with
    | None => keys r' = <[key := VNum n]> (keys r)
    | Some (VNum m) => keys r' = <[key := VNum (m + n)]> (keys r)
    | Some _ => False
    end;
  zadd_law key sc m r z : zsetAt key (keys r) = Some z → ∀ ok r', rZAdd key sc m r = (ok, r') →
    keys r' = <[key := VZSet (<[m := sc]> z)]> (keys r) ∨ ok = false ∧ keys r' = keys r;
  zincr_law key d m r z : zsetAt key (keys r) = Some z → ∀ v r', rZIncrBy key d m r = (v, r') →
    let s := f64 (default 0 (z !! m) + d) in
    (v = Some s ∨ v = None) ∧ keys r' = <[key := VZSet (<[m := s]> z)]> (keys r) ∨ v = None ∧ keys r' = keys r;
  zrevrange_law key a b r z l : zsetAt key (keys r) = Some z → rZRevRange key a b r = Some l →
    l = (λ it, (Member it, Score it)) <$> stretch a b (reverse (sortSlice fwdLe (items z)));
  zrank_law key m r z v : zsetAt key (keys r) = Some z → rZRank key m r = Some v →
    v = (λ sc, zlen (filter (ranksBelow (mkItem m sc)) (items z))) <$> z !! m }.

(** ** A client with the laws *)

#[export] Instance map_client : RedisClient := {|
  RDB := gmap string rval;
  rPing _ := true;
  rGet key r := match r !! key with None => Some None | Some (VBytes b) => Some (Some b) | Some _ => None end;
  rSet key v r := (true, <[key := VBytes v]> r);
  rDel key r := (true, delete key r);
  rIncrBy key n r :=
    match r !! key with
    | None => (Some n, <[key := VNum n]> r)
    | Some (VNum m) => if decide (- 2^63 ≤ m + n < 2^63) then (Some (m + n), <[key := VNum (m + n)]> r) else (None, r)
    | Some _ => (None, r)
    end;
  rZAdd key sc m r :=
    match zsetAt key r with Some z => (true, <[key := VZSet (<[m := sc]> z)]> r) | None => (false, r) end;
  rZIncrBy key d m r :=
    match zsetAt key r with
    | Some z => let s := f64 (default 0 (z !! m) + d) in (Some s, <[key := VZSet (<[m := s]> z)]> r)
    | None => (None, r)
    end;
  rZRevRange key a b r :=
    (λ z, (λ it, (Member it, Score it)) <$> stretch a b (reverse (sortSlice fwdLe (items z)))) <$> zsetAt key r;
  rZRank key m r :=
    (λ z, (λ sc, zlen (filter (ranksBelow (mkItem m sc)) (items z))) <$> z !! m) <$> zsetAt key r |}.

#[export] Instance map_client_laws : ClientLaws map_client.
Proof.
  refine {| keys := (λ r, r) : @RDB map_client → gmap string rval |}; cbn; intros.
  - destruct (r !! key) as [[]|]; by simplify_eq.
  - by simplify_eq.
  - by simplify_eq.
  - by simplify_eq.
  - by simplify_eq.
  - destruct (r !! key) as [[]|]; [done| |done|]; repeat case_decide; by simplify_eq.
  - destruct (r !! key) as [[]|]; repeat case_decide; simplify_eq; by left.
  - simplify_option_eq. by left.
  - simplify_option_eq. left. split; [by left|done].
  - by simplify_option_eq.
  - by simplify_option_eq.
Defined.

(** ** Keys *)

Fixpoint noColon (s : string) : bool :=
  match s with EmptyString => true | String c s => negb (Ascii.eqb c ":"%char) && noColon s end.

Lemma table_key t k t' k' : noColon t = true → noColon t' = true →
  (t +:+ ":" +:+ k)%string = (t' +:+ ":" +:+ k')%string → (t, k) = (t', k').
Proof.
  revert t'. induction t as [|c t IH]; intros [|c' t'] Ht Ht'; cbn in *.
  - intros H. injection H as H. assert (k = k') as -> by exact H. done.
  - intros H. injection H as <- _. done.
  - intros H. injection H as -> _. done.
  - intros H. injection H as <- H. apply andb_prop in Ht as [_ Ht], Ht' as [_ Ht']. pose proof (IH t' Ht Ht' H). congruence.
Qed.

Lemma kvKey_inj p t k t' k' : noColon t = true → noColon t' = true → kvKey p t k = kvKey p t' k' → (t, k) = (t', k').
Proof. unfold kvKey. intros ?? [= H]%(inj (String.app p)). by apply table_key. Qed.
Lemma ctrKey_inj p t k t' k' : noColon t = true → noColon t' = true → ctrKey p t k = ctrKey p t' k' → (t, k) = (t', k').
Proof. unfold ctrKey. intros ?? [= H]%(inj (String.app p)). by apply table_key. Qed.
Lemma zsetKey_inj p t t' : zsetKey p t = zsetKey p t' → t = t'.
Proof. unfold zsetKey. by intros [= H]%(inj (String.app p)). Qed.
Lemma kv_ctr p t k t' k' : kvKey p t k ≠ ctrKey p t' k'.
Proof. unfold kvKey, ctrKey. by intros [=]%(inj (String.app p)). Qed.
Lemma kv_zset p t k t' : kvKey p t k ≠ zsetKey p t'.
Proof. unfold kvKey, zsetKey. by intros [=]%(inj (String.app p)). Qed.
Lemma ctr_zset p t k t' : ctrKey p t k ≠ zsetKey p t'.
Proof. unfold ctrKey, zsetKey. by intros [=]%(inj (String.app p)). Qed.
#[local] Hint Resolve kv_ctr kv_zset ctr_zset not_eq_sym : redis.

(** ** The same calls as the memory store *)

Definition ofRedis {A} (f : A → resp) (r : rserr + A) : resp :=
  match r with inr a => f a | inl RedisNotFound => RNotFound | inl _ => ROther end.

Definition redisStep `{RedisClient} (o : op) (b : Backend) : resp * Backend :=
  match o with
  | OGet t k => (ofRedis RBytes (RedisStore.Get t k b), b)
  | OPut t k v => let '(r, b) := RedisStore.Put t k v b in (ofRedis (λ _, RUnit) r, b)
  | ODelete t k => let '(r, b) := RedisStore.Delete t k b in (ofRedis (λ _, RUnit) r, b)
  | OIncrBy t k n => let '(r, b) := RedisStore.IncrBy t k n b in (ofRedis RInt r, b)
  | OZAdd t m n => let '(r, b) := RedisStore.ZAdd t m n b in (ofRedis (λ _, RUnit) r, b)
  | OZIncrBy t m n => let '(r, b) := RedisStore.ZIncrBy t m n b in (ofRedis RInt r, b)
  | OZRevRange t a c => (ofRedis RItems (RedisStore.ZRevRange t a c b), b)
  | OZRank t m => (ofRedis RInt (RedisStore.ZRank t m b), b)
  end.

(** Table names without a colon, scores a double holds, and for a range
    members that no two of which are tied. *)
Definition fits (o : op) (s : MemoryStorage) : Prop :=
  match o with
  | OGet t _ | OPut t _ _ | ODelete t _ => noColon t = true
  | OIncrBy t k n => noColon t = true ∧ - 2^63 ≤ default 0 (incr s !! t ≫= (.!! k)) + n < 2^63
  | OZAdd _ _ n => exact n
  | OZIncrBy t m n => exact n ∧ exact (default 0 (zrow t s !! m) + n)
  | OZRevRange t a b => - 2^62 ≤ a < 2^62 ∧ - 2^62 ≤ b < 2^62 ∧ Z.of_nat (size (zrow t s)) < 2^62 ∧ NoDup (Score <$> items (zrow t s))
  | OZRank _ _ => True
  end.
#[export] Instance fits_dec o s : Decision (fits o s).
Proof. destruct o; cbn; apply _. Defined.

Record Rep (p : string) (K : gmap string rval) (s : MemoryStorage) : Prop := {
  rep_kv t k : noColon t = true → K !! kvKey p t k = VBytes <$> (kv s !! t ≫= (.!! k));
  rep_ctr t k : noColon t = true → K !! ctrKey p t k = VNum <$> (incr s !! t ≫= (.!! k));
  rep_zset t : zsetAt (zsetKey p t) K = Some (zrow t s);
  rep_exact t m sc : zrow t s !! m = Some sc → exact sc }.

(** ** Updates of the keyspace *)

Lemma zsetAt_ne key key' v K : key ≠ key' → zsetAt key (<[key' := v]> K) = zsetAt key K.
Proof. intros H. unfold zsetAt. by rewrite lookup_insert_ne. Qed.
Lemma zsetAt_del key key' K : key ≠ key' → zsetAt key (delete key' K) = zsetAt key K.
Proof. intros H. unfold zsetAt. by rewrite lookup_delete_ne. Qed.

Lemma rows_insert {A} (mm : gmap string (gmap string A)) t k v t' k' :
  (<[t := <[k := v]> (default ∅ (mm !! t))]> mm !! t' ≫= (.!! k')) =
  if decide ((t, k) = (t', k')) then Some v else mm !! t' ≫= (.!! k').
Proof.
  destruct (decide (t = t')) as [->|Ht].
  - rewrite lookup_insert_eq. cbn. case_decide; simplify_eq; [by rewrite lookup_insert_eq|].
    rewrite lookup_insert_ne by congruence. destruct (mm !! t'); cbn; [done|]. by rewrite lookup_empty.
  - rewrite lookup_insert_ne by done. rewrite decide_False by congruence. done.
Qed.

Section Laws.
Context {C : RedisClient} {L : ClientLaws C}.
Variable p : string.
Implicit Types r : @RDB C.

Notation rep r s := (Rep p (keys r) s).

Lemma redis_rep_put K s t k v : noColon t = true → Rep p K s → Rep p (<[kvKey p t k := VBytes v]> K) (memStep (OPut t k v) s).2.
Proof.
  intros Ht HR. split; cbn.
  - intros t' k' Ht'. unfold default, id in *. pose proof (rows_insert (kv s) t k v t' k') as Hr. unfold default, id in Hr. rewrite Hr.
    case_decide as He; [simplify_eq; by rewrite lookup_insert_eq|]. rewrite lookup_insert_ne; [by apply HR|].
    intros Hk. by apply He, (kvKey_inj p).
  - intros t' k' Ht'. rewrite lookup_insert_ne by apply kv_ctr. by apply HR.
  - intros t'. rewrite zsetAt_ne by apply not_eq_sym, kv_zset. apply HR.
  - apply HR.
Qed.

Lemma redis_rep_del K s t k : noColon t = true → Rep p K s → Rep p (delete (kvKey p t k) K) (memStep (ODelete t k) s).2.
Proof.
  intros Ht HR. cbn. assert (∀ t' k', noColon t' = true → delete (kvKey p t k) K !! kvKey p t' k' =
    VBytes <$> if decide ((t, k) = (t', k')) then None else kv s !! t' ≫= (.!! k')) as Hd.
  { intros t' k' Ht'. case_decide as He; [simplify_eq; by rewrite lookup_delete_eq|]. rewrite lookup_delete_ne; [by apply HR|].
    intros Hk. by apply He, (kvKey_inj p). }
  split.
  - intros t' k' Ht'. rewrite Hd by done. f_equal. destruct (kv s !! t) as [row|] eqn:Hr; cbn.
    + destruct (decide (t = t')) as [<-|Hne].
      * rewrite lookup_insert_eq, Hr. cbn. case_decide; simplify_eq; [by rewrite lookup_delete_eq|].
        rewrite lookup_delete_ne by congruence. done.
      * rewrite lookup_insert_ne by done. by rewrite decide_False by congruence.
    + case_decide; simplify_eq; by rewrite ?Hr.
  - intros t' k' Ht'. rewrite lookup_delete_ne by apply kv_ctr. destruct (kv s !! t); by apply HR.
  - intros t'. rewrite zsetAt_del by apply not_eq_sym, kv_zset. destruct (kv s !! t); apply HR.
  - destruct (kv s !! t); apply HR.
Qed.

Lemma redis_rep_incr K s t k v : noColon t = true → Rep p K s →
  Rep p (<[ctrKey p t k := VNum v]> K) (mkMem (kv s) (zset s) (<[t := <[k := v]> (default ∅ (incr s !! t))]> (incr s))).
Proof.
  intros Ht HR. split; cbn.
  - intros t' k' Ht'. rewrite lookup_insert_ne by apply not_eq_sym, kv_ctr. by apply HR.
  - intros t' k' Ht'. pose proof (rows_insert (incr s) t k v t' k') as Hr. rewrite Hr.
    case_decide as He; [simplify_eq; by rewrite lookup_insert_eq|]. rewrite lookup_insert_ne; [by apply HR|].
    intros Hk. by apply He, (ctrKey_inj p).
  - intros t'. rewrite zsetAt_ne by apply not_eq_sym, ctr_zset. apply HR.
  - apply HR.
Qed.

Lemma redis_rep_zset K s t m v : exact v → Rep p K s →
  Rep p (<[zsetKey p t := VZSet (<[m := v]> (zrow t s))]> K) (set_zrow t (<[m := v]> (zrow t s)) s).
Proof.
  intros Hv HR. split; cbn.
  - intros t' k' Ht'. rewrite lookup_insert_ne by apply not_eq_sym, kv_zset. by apply HR.
  - intros t' k' Ht'. rewrite lookup_insert_ne by apply not_eq_sym, ctr_zset. by apply HR.
  - intros t'. destruct (decide (t' = t)) as [->|Hne].
    + unfold zsetAt, zrow, set_zrow. cbn. by rewrite !lookup_insert_eq.
    + rewrite zsetAt_ne by (intros H; by apply Hne, (zsetKey_inj p)). rewrite (rep_zset _ _ _ HR).
      unfold zrow, set_zrow. cbn. by rewrite lookup_insert_ne.
  - intros t' m' sc. unfold zrow at 1, set_zrow. cbn. destruct (decide (t' = t)) as [->|Hne].
    + rewrite lookup_insert_eq. cbn. rewrite lookup_insert_Some. intros [[_ <-]|[_ H]]; [done|]. by apply (rep_exact _ _ _ HR) in H.
    + rewrite lookup_insert_ne by done. intros H. by apply (rep_exact _ _ _ HR t' m').
Qed.

(** ** Ranges *)

Lemma StronglySorted_reverse {A} (R : relation A) l : StronglySorted R l → StronglySorted (flip R) (reverse l).
Proof.
  induction 1 as [|x l Hl IH Hx]; [constructor|]. rewrite reverse_cons. apply StronglySorted_app. split_and!.
  - intros y z Hy Hz. apply list_elem_of_singleton in Hz as ->. rewrite elem_of_reverse in Hy. exact (proj1 (Forall_forall _ _) Hx y Hy).
  - done.
  - repeat constructor.
Qed.

(** Without ties, Redis's descending order is the one of the memory store. *)
Lemma reverse_forward row : NoDup (Score <$> items row) →
  reverse (sortSlice fwdLe (items row)) = sortSlice revLe (items row).
Proof.
  intros Hnd. assert (sortSlice fwdLe (items row) ≡ₚ items row) as Hp by apply merge_sort_Permutation.
  apply (sortSlice_unique revLe); [by rewrite reverse_Permutation|].
  assert (StronglySorted fwdLe (sortSlice fwdLe (items row))) as Hs by (apply sortSlice_sorted; apply _).
  rewrite <- Hp in Hnd. apply StronglySorted_reverse in Hs. rewrite <- reverse_Permutation, <- fmap_reverse in Hnd.
  induction Hs as [|x l Hl IH Hx]; [constructor|]. rewrite fmap_cons in Hnd. apply NoDup_cons in Hnd as [Hni Hnd].
  constructor; [by apply IH|]. apply Forall_forall. intros y Hy. destruct (proj1 (Forall_forall _ _) Hx y Hy) as [?|[He _]]; [by left|].
  destruct Hni. rewrite <- He. by apply list_elem_of_fmap_2.
Qed.

Lemma range_items K s t a b : Rep p K s → fits (OZRevRange t a b) s →
  MemStore.ZRevRange t a b s = Ok ((λ '(m, sc), mkItem m (i64OfF64 sc)) <$>
    ((λ it, (Member it, Score it)) <$> stretch a b (reverse (sortSlice fwdLe (items (zrow t s)))))).
Proof.
  intros HR (Ha & Hb & Hn & Hnd). destruct (ranking_order t a b s Ha Hb Hn) as (l & Hl & _ & Hs & Hu & ->).
  rewrite reverse_forward by done. rewrite (Hu (sortSlice revLe (items (zrow t s)))).
  2: unfold sortSlice; apply merge_sort_Permutation. 2: apply sortSlice_sorted; apply _.
  f_equal. fold (stretch a b l). rewrite <- list_fmap_compose. symmetry. rewrite <- (list_fmap_id (stretch a b l)) at 2.
  apply list_fmap_ext. intros i it Hit. cbn. rewrite i64_exact; [by destruct it|].
  apply (rep_exact _ _ _ HR t (Member it)). apply Hl. unfold stretch in Hit.
  apply list_elem_of_lookup_2, elem_of_take in Hit as (j & Hj & _). rewrite lookup_drop in Hj. by apply list_elem_of_lookup_2 in Hj.
Qed.

(** ** One call *)

(** An error leaves the keyspace as it was, or as the call would have left it. *)
Definition Simulates (o : op) (s : MemoryStorage) (rb : resp * Backend) : Prop :=
  let '(r', s') := memStep o s in
  prefix rb.2 = p ∧ ((rb.1 = r' ∧ Rep p (keys (client rb.2)) s') ∨
    (rb.1 = ROther ∧ (Rep p (keys (client rb.2)) s ∨ Rep p (keys (client rb.2)) s'))).

Lemma redis_get t k s c : noColon t = true → Rep p (keys c) s → Simulates (OGet t k) s (redisStep (OGet t k) (mkBackend c p)).
Proof.
  intros Ht HR. unfold Simulates. cbn [redisStep memStep fst snd prefix client]. split; [done|].
  unfold RedisStore.Get. cbn [prefix client]. destruct (rGet _ c) as [v|] eqn:Hg; [left|right; split; [done|by left]].
  split; [|done]. apply get_law in Hg. rewrite (rep_kv _ _ _ HR) in Hg by done. unfold MemStore.Get.
  destruct (kv s !! t) as [row|]; cbn in *; [|by subst]. by destruct (row !! k); cbn in *; subst.
Qed.

Lemma redis_put t k v s c : noColon t = true → Rep p (keys c) s → Simulates (OPut t k v) s (redisStep (OPut t k v) (mkBackend c p)).
Proof.
  intros Ht HR. pose proof (redis_rep_put _ s t k v Ht HR) as HR'. unfold Simulates. cbn [redisStep]. unfold RedisStore.Put. cbn [client prefix].
  destruct (rSet _ v c) as [[] c'] eqn:He; (split; [done|]); cbn [fst snd set_client client].
  - left. split; [done|]. by rewrite (set_law _ _ _ _ He).
  - right. split; [done|]. destruct (set_err _ _ _ _ He) as [-> | ->]; auto.
Qed.

Lemma redis_delete t k s c : noColon t = true → Rep p (keys c) s → Simulates (ODelete t k) s (redisStep (ODelete t k) (mkBackend c p)).
Proof.
  intros Ht HR. pose proof (redis_rep_del _ s t k Ht HR) as HR'. unfold Simulates. cbn [redisStep]. unfold RedisStore.Delete. cbn [client prefix].
  destruct (rDel _ c) as [[] c'] eqn:He; cbn [memStep MemStore.Del fst snd set_client client]; (split; [done|]).
  - left. split; [done|]. by rewrite (del_law _ _ _ He).
  - right. split; [done|]. destruct (del_err _ _ _ He) as [-> | ->]; auto.
Qed.

Lemma redis_incr t k n s c : fits (OIncrBy t k n) s → Rep p (keys c) s →
  Simulates (OIncrBy t k n) s (redisStep (OIncrBy t k n) (mkBackend c p)).
Proof.
  intros [Ht Hn] HR. set (v := default 0 (incr s !! t ≫= (.!! k)) + n) in *.
  pose proof (redis_rep_incr _ s t k v Ht HR) as HR'. pose proof (rep_ctr _ _ _ HR t k Ht) as Hk.
  assert (memStep (OIncrBy t k n) s = (RInt v, mkMem (kv s) (zset s) (<[t := <[k := v]> (default ∅ (incr s !! t))]> (incr s)))) as Hm.
  { cbn -[wrap_i64]. assert (wrap_i64 (default 0 (default ∅ (incr s !! t) !! k) + n) = v) as Hw.
    { subst v. destruct (incr s !! t); cbn in *; [|rewrite lookup_empty]; by apply wrap_i64_id. }
    unfold default, id in *. by rewrite Hw. }
  unfold Simulates. rewrite Hm. cbn [redisStep]. unfold RedisStore.IncrBy. cbn [client prefix].
  destruct (rIncrBy _ n c) as [[w|] c'] eqn:He; cbn [fst snd set_client client prefix]; (split; [done|]).
  - left. apply incr_law in He. rewrite Hk in He. subst v. destruct (incr s !! t ≫= (.!! k)); cbn in He, HR'.
    + destruct He as (-> & _ & ->). by split.
    + destruct He as (-> & ->). by split.
  - right. split; [done|]. apply incr_err in He. rewrite Hk in He. subst v.
    destruct (incr s !! t ≫= (.!! k)); cbn in He, HR'; destruct He as [-> | ->]; auto.
Qed.

Lemma redis_zadd t m n s c : exact n → Rep p (keys c) s → Simulates (OZAdd t m n) s (redisStep (OZAdd t m n) (mkBackend c p)).
Proof.
  intros Hn HR. pose proof (redis_rep_zset _ s t m n Hn HR) as HR'. unfold Simulates. cbn [redisStep]. unfold RedisStore.ZAdd. cbn [client prefix].
  rewrite f64_exact by done. destruct (rZAdd _ n m c) as [ok c'] eqn:He. cbn [memStep fst snd set_client client]. split; [done|].
  destruct (zadd_law _ _ _ _ _ (rep_zset _ _ _ HR t) _ _ He) as [Hk|[-> Hk]]; rewrite Hk.
  - destruct ok; [left|right]; auto.
  - right. auto.
Qed.

Lemma redis_zincr t m n s c : fits (OZIncrBy t m n) s → Rep p (keys c) s →
  Simulates (OZIncrBy t m n) s (redisStep (OZIncrBy t m n) (mkBackend c p)).
Proof.
  intros [Hn Hs] HR. pose proof (redis_rep_zset _ s t m _ Hs HR) as HR'. unfold Simulates. cbn [redisStep memStep].
  unfold RedisStore.ZIncrBy, MemStore.ZIncrBy. rewrite wrap_i64_id by (unfold exact in Hs; lia). cbn [client prefix].
  rewrite f64_exact by done. destruct (rZIncrBy _ n m c) as [w c'] eqn:He. cbn [fst snd set_client client]. split; [done|].
  pose proof (zincr_law _ _ _ _ _ (rep_zset _ _ _ HR t) _ _ He) as Hl. cbn zeta in Hl. rewrite f64_exact in Hl by done.
  destruct Hl as [[[-> | ->] Hk]|[-> Hk]]; rewrite Hk; [left|right; auto..]. by rewrite i64_exact.
Qed.

Lemma redis_range t a e s c : fits (OZRevRange t a e) s → Rep p (keys c) s →
  Simulates (OZRevRange t a e) s (redisStep (OZRevRange t a e) (mkBackend c p)).
Proof.
  intros Hf HR. unfold Simulates. cbn [redisStep memStep fst snd client prefix]. split; [done|].
  rewrite (range_items _ s t a e HR Hf). unfold RedisStore.ZRevRange. cbn [client prefix].
  destruct (rZRevRange _ a e c) as [l|] eqn:He; [left|right; auto]. split; [|done].
  by rewrite (zrevrange_law _ _ _ _ _ _ (rep_zset _ _ _ HR t) He).
Qed.

Lemma redis_rank t m s c : Rep p (keys c) s → Simulates (OZRank t m) s (redisStep (OZRank t m) (mkBackend c p)).
Proof.
  intros HR. unfold Simulates. cbn [redisStep memStep fst snd client prefix]. split; [done|].
  rewrite rank_counts. unfold RedisStore.ZRank. cbn [client prefix].
  destruct (rZRank _ m c) as [v|] eqn:He; [left|right; auto]. split; [|done].
  rewrite (zrank_law _ _ _ _ _ (rep_zset _ _ _ HR t) He). by destruct (zrow t s !! m).
Qed.

Lemma redis_step o s b : prefix b = p → Rep p (keys (client b)) s → fits o s → Simulates o s (redisStep o b).
Proof.
  destruct b as [c p']. cbn [prefix client]. intros -> HR Hf. destruct o; cbn [fits] in Hf.
  - by apply redis_get.
  - by apply redis_put.
  - by apply redis_delete.
  - by apply redis_incr.
  - by apply redis_zadd.
  - by apply redis_zincr.
  - by apply redis_range.
  - by apply redis_rank.
Qed.

(** ** Runs *)

Definition redisRun : list op → Backend → list resp * Backend := runOps redisStep.

(** The backend holds the memory store under its key prefix. *)
Definition holdsMem (b : Backend) (s : MemoryStorage) : Prop := prefix b = p ∧ Rep p (keys (client b)) s.

Lemma redis_simulates : simulates fits holdsMem redisStep.
Proof.
  intros o b s [Hp HR] Hf. pose proof (redis_step o s b Hp HR Hf) as Hs. unfold Simulates in Hs. unfold holdsMem.
  destruct (memStep o s) as [r' s1]. cbn [fst snd]. tauto.
Qed.

End Laws.

(** ** A run of the client *)

Definition demoOps : list op :=
  [OPut "p" "a" [123; 125]; OGet "p" "a"; OGet "p" "b:c"; OIncrBy "c" "a" 7; OIncrBy "c" "a" (-2); OZAdd "r" "amy" 5; OZAdd "r" "bob" 9;
   OZIncrBy "r" "cat" 7; OZRevRange "r" 0 (-2); OZRevRange "r" 2 1; OZRank "r" "cat"; OZRank "r" "dan"; ODelete "p" "a"; OGet "p" "a"].
Definition demoBackend : option (@Backend map_client) := New (mkConfig "localhost:6379" EmptyString 0 0) ∅.

Definition demoReplies : list resp :=
  [RUnit; RBytes [123; 125]; RNotFound; RInt 7; RInt 5; RUnit; RUnit; RInt 7;
   RItems [mkItem "bob" 9; mkItem "cat" 7]; RItems []; RInt 1; RNotFound; RUnit; RNotFound].


(** ** Where the two part *)

Definition rankBackend : @Backend map_client :=
  (redisRun [OZAdd "r" "amy" 5; OZAdd "r" "bob" 5; OPut "a:b" "c" [1]] (mkBackend ∅ "rangame")).2.

(** Members of equal score come in descending order of name from Redis and in
    ascending order from the other two stores. *)
Lemma ties_come_reversed :
  (redisStep (OZRevRange "r" 0 (-1)) rankBackend).1 = RItems [mkItem "bob" 5; mkItem "amy" 5] ∧
  (memRun [OZAdd "r" "amy" 5; OZAdd "r" "bob" 5; OZRevRange "r" 0 (-1)] NewMemoryStorage).1 =
    [RUnit; RUnit; RItems [mkItem "amy" 5; mkItem "bob" 5]].
Proof. split; vm_compute; reflexivity. Qed.

(** The key "c" of the table "a:b" is the key "b:c" of the table "a". *)
Lemma tables_share_a_key : (redisStep (OGet "a" "b:c") rankBackend).1 = RBytes [1].
Proof. vm_compute. reflexivity. Qed.

(** Beyond 2^53 a score is rounded. *)
Lemma large_score_rounded :
  (redisRun [OZAdd "r" "amy" (2^53 + 1); OZRevRange "r" 0 0] (mkBackend (∅ : @RDB map_client) "rangame")).1 =
    [RUnit; RItems [mkItem "amy" (2^53)]].
Proof. vm_compute. reflexivity. Qed.
