(* ===== verification/Profile.v ===== *)
(** * Player profiles (internal/storage/profile.go, profile_query.go, pkg/framework/profile.go)

    Profiles are stored as JSON under one table of any [Storage]; the proofs use
    only the law of the interface.  The JSON of a profile is a parameter with
    the round trip encoding/json documents for values JSON can represent.  A
    patch is a Go map of fields: it is applied in an order the runtime picks,
    so the definitions take the list of fields in that order. *)

From Stdlib Require Import Ascii.
From S2P Require Import Prelude MemStore.

(** The values a field of a patch can hold, by their dynamic type. *)
Inductive any :=
| anyInt (n : Z)
| anyInt32 (n : Z)
| anyInt64 (n : Z)
| anyStrings (l : list string)
| anyMap (l : list (string * any))
| anyOther (tag : Z).

(** [None] is the nil map. *)
Record PlayerProfile := mkProfile {
  UID : string;
  Level : Z;
  Exp : Z;
  Coin : Z;
  Gem : Z;
  Settings : option (list (string * any));
  Achievements : list string;
  Extra : option (gmap string any);
  UpdatedAt : Z }.

Definition zeroProfile : PlayerProfile := mkProfile "" 0 0 0 0 None [] None 0.

Definition profileTable : string := "player_profile".

Definition set_UID (u : string) (p : PlayerProfile) : PlayerProfile :=
  mkProfile u (Level p) (Exp p) (Coin p) (Gem p) (Settings p) (Achievements p) (Extra p) (UpdatedAt p).
Definition stamp (u : string) (now : Z) (p : PlayerProfile) : PlayerProfile :=
  mkProfile u (Level p) (Exp p) (Coin p) (Gem p) (Settings p) (Achievements p) (Extra p) now.
Definition set_Level (v : Z) (p : PlayerProfile) : PlayerProfile :=
  mkProfile (UID p) v (Exp p) (Coin p) (Gem p) (Settings p) (Achievements p) (Extra p) (UpdatedAt p).
Definition set_Exp (v : Z) (p : PlayerProfile) : PlayerProfile :=
  mkProfile (UID p) (Level p) v (Coin p) (Gem p) (Settings p) (Achievements p) (Extra p) (UpdatedAt p).
Definition set_Settings (v : list (string * any)) (p : PlayerProfile) : PlayerProfile :=
  mkProfile (UID p) (Level p) (Exp p) (Coin p) (Gem p) (Some v) (Achievements p) (Extra p) (UpdatedAt p).
Definition set_Achievements (v : list string) (p : PlayerProfile) : PlayerProfile :=
  mkProfile (UID p) (Level p) (Exp p) (Coin p) (Gem p) (Settings p) v (Extra p) (UpdatedAt p).
(** [p.Extra[k] = v], making the map when it is nil. *)
Definition put_Extra (k : string) (v : any) (p : PlayerProfile) : PlayerProfile :=
  mkProfile (UID p) (Level p) (Exp p) (Coin p) (Gem p) (Settings p) (Achievements p)
            (Some (<[k := v]> (default ∅ (Extra p)))) (UpdatedAt p).

(** ** Fields *)

Definition wrap_i32 (z : Z) : Z := (z + 2^31) mod 2^32 - 2^31.

Definition toInt32 (v : any) : option Z :=
  match v with
  | anyInt n => Some (wrap_i32 n)
  | anyInt32 n => Some n
  | anyInt64 n => Some (wrap_i32 n)
  | _ => None
  end.
Definition toInt64 (v : any) : option Z :=
  match v with anyInt n | anyInt32 n | anyInt64 n => Some n | _ => None end.

(** strings.HasPrefix with strings.TrimPrefix. *)
Fixpoint cutPrefix (pre s : string) : option string :=
  match pre, s with
  | EmptyString, s => Some s
  | String a pre, String b s => if Ascii.eqb a b then cutPrefix pre s else None
  | _, _ => None
  end.

(** The part of the profile a key writes to. *)
Inductive target := TLevel | TExp | TSettings | TAchievements | TExtra (k : string).
#[global] Instance target_eq_dec : EqDecision target.
Proof. solve_decision. Defined.

Definition applyPatchField (p : PlayerProfile) (key : string) (val : any) : PlayerProfile :=
  match cutPrefix "extra." key with
  | Some field => put_Extra field val p
  | None =>
      if String.eqb key "level" then match toInt32 val with Some i => set_Level i p | None => p end
      else if String.eqb key "exp" then match toInt64 val with Some i => set_Exp i p | None => p end
      else if String.eqb key "settings" then match val with anyMap m => set_Settings m p | _ => p end
      else if String.eqb key "achievements" then match val with anyStrings l => set_Achievements l p | _ => p end
      else put_Extra key val p
  end.

Definition ApplyProfilePatch (p : PlayerProfile) (fields : list (string * any)) : PlayerProfile :=
  fold_left (fun p '(k, v) => applyPatchField p k v) fields p.

(** ** The store *)

Class ProfileJson := {
  encodeProfile : PlayerProfile → option (list Z);
  decodeProfile : list Z → option PlayerProfile;
  jsonProfile : PlayerProfile → Prop }.
Class ProfileJsonLaws (J : ProfileJson) :=
  decode_encode p raw : jsonProfile p → encodeProfile p = Some raw → decodeProfile raw = Some p.

Inductive perr := ErrNilProfile | ErrEncode | ErrStore (e : sterr).

Section ProfileStore.
Context {S : Type} {St : Storage S} {J : ProfileJson}.

(** Unmarshal fails on bytes that are not a profile. *)
Definition Load (now : Z) (uid : string) (s : S) : perr + PlayerProfile :=
  match sGet profileTable uid s with
  | inl StorageNotFound => inr (stamp uid now zeroProfile)
  | inl e => inl (ErrStore e)
  | inr raw =>
      match decodeProfile raw with
      | None => inl (ErrStore StorageOther)
      | Some p => inr (if decide (UID p = EmptyString) then set_UID uid p else p)
      end
  end.

(** The error, the profile as the caller sees it afterwards, and the storage. *)
Definition saveWith (put : string → string → list Z → S → option sterr * S)
    (now : Z) (uid : string) (p : option PlayerProfile) (s : S) : option perr * option PlayerProfile * S :=
  match p with
  | None => (Some ErrNilProfile, None, s)
  | Some p =>
      let p := stamp uid now p in
      match encodeProfile p with
      | None => (Some ErrEncode, Some p, s)
      | Some raw => let '(e, s) := put profileTable uid raw s in (ErrStore <$> e, Some p, s)
      end
  end.
Definition Save : Z → string → option PlayerProfile → S → option perr * option PlayerProfile * S := saveWith sSet.
Definition SaveSync : Z → string → option PlayerProfile → S → option perr * option PlayerProfile * S := saveWith sSetSync.

Definition Patch (now : Z) (uid : string) (fields : list (string * any)) (s : S) : option perr * S :=
  match Load now uid s with
  | inl e => (Some e, s)
  | inr p =>
      match encodeProfile (ApplyProfilePatch p fields) with
      | None => (Some ErrEncode, s)
      | Some raw => let '(e, s) := sSetSync profileTable uid raw s in (ErrStore <$> e, s)
      end
  end.

Definition Query : Z → string → S → perr + PlayerProfile := Load.

(** The goroutines write distinct keys: the order does not matter. *)
Definition BatchQuery (now : Z) (uids : list string) (s : S) : gmap string PlayerProfile :=
  fold_left (fun out u => match Load now u s with inr p => <[u := p]> out | inl _ => out end) uids ∅.
End ProfileStore.

(** ** Patches *)

Definition targetOf (key : string) : target :=
  match cutPrefix "extra." key with
  | Some field => TExtra field
  | None =>
      if String.eqb key "level" then TLevel else if String.eqb key "exp" then TExp
      else if String.eqb key "settings" then TSettings else if String.eqb key "achievements" then TAchievements
      else TExtra key
  end.

(** Writing a value to a target, for values of the target's type. *)
Definition write (tg : target) (v : any) (p : PlayerProfile) : PlayerProfile :=
  match tg with
  | TLevel => match toInt32 v with Some i => set_Level i p | None => p end
  | TExp => match toInt64 v with Some i => set_Exp i p | None => p end
  | TSettings => match v with anyMap m => set_Settings m p | _ => p end
  | TAchievements => match v with anyStrings l => set_Achievements l p | _ => p end
  | TExtra k => put_Extra k v p
  end.

Lemma applyPatchField_write p k v : applyPatchField p k v = write (targetOf k) v p.
Proof.
  unfold applyPatchField, targetOf. destruct (cutPrefix _ k); [done|].
  do 4 (destruct (String.eqb k _); [done|]). done.
Qed.

Lemma write_comm tg v tg' v' p : tg ≠ tg' → write tg v (write tg' v' p) = write tg' v' (write tg v p).
Proof.
  intros Hne. destruct tg, tg'; try done; cbn; repeat case_match; try done.
  unfold put_Extra. cbn. rewrite insert_insert_ne by congruence. done.
Qed.

Lemma write_keeps tg v p : Coin (write tg v p) = Coin p ∧ Gem (write tg v p) = Gem p ∧ UID (write tg v p) = UID p.
Proof. destruct tg; cbn; repeat case_match; done. Qed.

Lemma ApplyProfilePatch_keeps fields p :
  Coin (ApplyProfilePatch p fields) = Coin p ∧ Gem (ApplyProfilePatch p fields) = Gem p ∧ UID (ApplyProfilePatch p fields) = UID p.
Proof.
  revert p. induction fields as [|[k v] fields IH]; intros p; [done|]. cbn. rewrite applyPatchField_write.
  destruct (IH (write (targetOf k) v p)) as (H1 & H2 & H3). destruct (write_keeps (targetOf k) v p) as (? & ? & ?).
  split_and!; etrans; done.
Qed.

(** The order of a patch does not matter: when no two of its fields write
    the same part of the profile, every order in which the runtime may range
    over the map gives the same profile; and no field, whatever its name,
    changes the coins, the gems or the identity of the player. *)
Theorem patch_order_independent p fields fields' :
  NoDup ((fun f => targetOf f.1) <$> fields) → fields' ≡ₚ fields →
  ApplyProfilePatch p fields' = ApplyProfilePatch p fields ∧
  Coin (ApplyProfilePatch p fields) = Coin p ∧ Gem (ApplyProfilePatch p fields) = Gem p ∧
  UID (ApplyProfilePatch p fields) = UID p.
Proof.
  intros Hnd Hp. split; [|apply ApplyProfilePatch_keeps].
  symmetry in Hp. revert p Hnd. induction Hp as [|[k v] l l' Hp IH|[k v] [k' v'] l|l1 l2 l3 Hp1 IH1 Hp2 IH2]; intros p Hnd.
  - done.
  - cbn. apply IH. rewrite fmap_cons in Hnd. by apply NoDup_cons in Hnd as [_ ?].
  - cbn. rewrite !applyPatchField_write, write_comm; [done|]. rewrite !fmap_cons in Hnd. cbn in Hnd.
    apply NoDup_cons in Hnd as [Hn _]. intros He. apply Hn. rewrite <- He. by left.
  - rewrite IH2; [by apply IH1|]. by rewrite <- Hp1.
Qed.

(** Finding. Two keys can name the same part of a profile; which of the two
    values stays is up to the iteration order of the map. *)
Theorem patch_order_matters :
  ApplyProfilePatch zeroProfile [("score", anyInt 1); ("extra.score", anyInt 2)]%string ≠
  ApplyProfilePatch zeroProfile [("extra.score", anyInt 2); ("score", anyInt 1)]%string.
Proof. intros H. apply (f_equal (fun p => default ∅ (Extra p) !! "score"%string)) in H. vm_compute in H. discriminate. Qed.

Section Laws.
Context {S : Type} {St : Storage S} {SL : StorageLaws S St} {J : ProfileJson} {JL : ProfileJsonLaws J}.

(** A patch is a read-modify-write: when it succeeds, loading the profile
    gives what was loaded before with the fields applied, and no other player's
    profile has changed. *)
Theorem patch_load now now' uid fields s s' p :
  Load now uid s = inr p → jsonProfile (ApplyProfilePatch p fields) → uid ≠ EmptyString → UID p ≠ EmptyString →
  Patch now uid fields s = (None, s') →
  Load now' uid s' = inr (ApplyProfilePatch p fields) ∧ ∀ u, u ≠ uid → Load now' u s' = Load now' u s.
Proof.
  intros Hl Hj Hu Hp. unfold Patch. rewrite Hl. destruct (encodeProfile _) as [raw|] eqn:Er; [|done].
  destruct (sSetSync profileTable uid raw s) as [[e|] s1] eqn:Es; [done|]. intros [= <-]. split.
  - unfold Load. rewrite (setSync_get _ _ _ _ _ Es), (decode_encode _ raw) by done.
    rewrite decide_False; [done|]. destruct (ApplyProfilePatch_keeps fields p) as (_ & _ & ->). done.
  - intros u Hne. unfold Load. rewrite (setSync_other _ _ _ _ _ _ u Es) by congruence. done.
Qed.

(** What SaveSync wrote, Load returns, with the identity and time stamped. *)
Lemma saveSync_load now now' uid p q s s' :
  SaveSync now uid (Some p) s = (None, q, s') → jsonProfile (stamp uid now p) → uid ≠ EmptyString →
  q = Some (stamp uid now p) ∧ Load now' uid s' = inr (stamp uid now p).
Proof.
  unfold SaveSync, saveWith. destruct (encodeProfile _) as [raw|] eqn:Er; [|done].
  destruct (sSetSync profileTable uid raw s) as [[e|] s1] eqn:Es; [done|]. intros [= <- <-] Hj Hu. split; [done|].
  unfold Load. rewrite (setSync_get _ _ _ _ _ Es), (decode_encode _ raw) by done. by rewrite decide_False.
Qed.
End Laws.

(** ** A concrete store *)

(** A JSON of the first four numbers of a profile without maps. *)
#[export] Instance demoProfileJson : ProfileJson := {|
  encodeProfile p := Some [Level p; Exp p; Coin p; Gem p];
  decodeProfile raw := match raw with
                       | [a; b; c; d] => Some (mkProfile "u1" a b c d None [] None 0)
                       | _ => None
                       end;
  jsonProfile p := UID p = "u1"%string ∧ Settings p = None ∧ Achievements p = [] ∧ Extra p = None ∧ UpdatedAt p = 0 |}.

#[export] Instance demoProfileJson_laws : ProfileJsonLaws demoProfileJson.
Proof. intros [] raw (? & ? & ? & ? & ?) [= <-]. cbn in *. by subst. Qed.

Lemma patch_order_independent_witness :
  ApplyProfilePatch zeroProfile [("extra.a", anyInt 2); ("level", anyInt 7)]%string =
  ApplyProfilePatch zeroProfile [("level", anyInt 7); ("extra.a", anyInt 2)]%string.
Proof.
  apply (patch_order_independent zeroProfile [("level", anyInt 7); ("extra.a", anyInt 2)]%string
           [("extra.a", anyInt 2); ("level", anyInt 7)]%string).
  - apply (bool_decide_unpack _). vm_compute. exact I.
  - apply Permutation_swap.
Defined.

Lemma patch_load_witness : ∃ s',
  Patch 0 "u1" [("level", anyInt 7)]%string NewMemoryStorage = (None, s') ∧
  Load 5 "u1" s' = inr (mkProfile "u1" 7 0 0 0 None [] None 0).
Proof.
  eexists. split; [vm_compute; reflexivity|].
  apply (patch_load 0 5 "u1" [("level", anyInt 7)]%string NewMemoryStorage _ (stamp "u1" 0 zeroProfile)); try done;
    vm_compute; reflexivity.
Defined.
