(* ===== verification/Players.v ===== *)
(** * Player actors and profile patches (internal/app/server.go: onSessionStart,
    onSessionRelease, playerActor; internal/app/profile_patch.go)

    Every player with a session has an actor that loads the profile, applies the
    patches rooms send, and saves.  A patch goes to the mailbox of the actor, or
    to the store when there is no actor to take it.  The model interleaves the
    session callbacks, the goroutines of the actors and the callers of Patch; one
    call of the profile store is one step, and so is one callback of an actor.
    Of the actor engine it keeps the mailbox, the stop signal and the order of
    Init, messages and OnStop (see Actor.v).  The profile store is always
    configured ([Build] creates it), so the tests for a missing one are left out. *)

From S2P Require Import Prelude MemStore Profile.

(** ** State *)

(** [Invoke] closures are the periodic checkpoint. *)
Inductive pmsg := MPatch (k : nat) (fields : list (string * any)) | MCheckpoint.

(** [Starting]: Init has not run; [Finished]: no more messages, OnStop has not run. *)
Inductive stage := Starting | Serving | Finished | Gone.
Record playerActor := mkPA {
  puid : string;
  psess : Z;
  pprofile : option PlayerProfile;
  pticking : bool;
  pmail : list pmsg;
  pstopping : bool;
  pstage : stage }.

(** A caller of [patchRouter.Patch]. *)
Inductive cpc := CResolve | CTell (id : Z) | CWait (id : Z) | CFallback | CDone (e : option perr) | CGaveUp (id : Z).
Record caller := mkCaller { cuid : string; cfields : list (string * any); cpc_ : cpc }.

Inductive pevent := EvMatchCancel (uid : string) | EvLeaveRoom (room uid : string) | EvSetProfile (sess : Z) (p : PlayerProfile).

Section Players.
Context {S : Type} {St : Storage S} {J : ProfileJson}.

Record Server := mkServer {
  pstore : S;
  players : gmap string Z;
  actors : gmap Z playerActor;
  nextID : Z;
  toStop : list Z;              (** [onSessionRelease] between its lock and [engine.Stop] *)
  callers : gmap nat caller;
  pout : list pevent;
  patched : list (Z * nat) }.   (** ghost: the patches the actors applied, in order *)

Definition set_store (v : S) (w : Server) : Server :=
  mkServer v (players w) (actors w) (nextID w) (toStop w) (callers w) (pout w) (patched w).
Definition set_actor (id : Z) (a : playerActor) (w : Server) : Server :=
  mkServer (pstore w) (players w) (<[id := a]> (actors w)) (nextID w) (toStop w) (callers w) (pout w) (patched w).
Definition set_caller (k : nat) (c : caller) (w : Server) : Server :=
  mkServer (pstore w) (players w) (actors w) (nextID w) (toStop w) (<[k := c]> (callers w)) (pout w) (patched w).
Definition say (es : list pevent) (w : Server) : Server :=
  mkServer (pstore w) (players w) (actors w) (nextID w) (toStop w) (callers w) (pout w ++ es) (patched w).
Definition goto (p : cpc) (c : caller) : caller := mkCaller (cuid c) (cfields c) p.
Definition set_mail (m : list pmsg) (a : playerActor) : playerActor :=
  mkPA (puid a) (psess a) (pprofile a) (pticking a) m (pstopping a) (pstage a).
Definition set_stopping (a : playerActor) : playerActor :=
  mkPA (puid a) (psess a) (pprofile a) (pticking a) (pmail a) true (pstage a).
Definition set_stage (s : stage) (a : playerActor) : playerActor :=
  mkPA (puid a) (psess a) (pprofile a) (pticking a) (pmail a) (pstopping a) s.
Definition set_profile (p : option PlayerProfile) (a : playerActor) : playerActor :=
  mkPA (puid a) (psess a) p (pticking a) (pmail a) (pstopping a) (pstage a).

(** ** Session callbacks *)

(** The capacity of a player's mailbox; a message over it kicks the actor. *)
Definition playerMailbox : Z := 1024.

Definition onSessionStart (uid : string) (sess : Z) (w : Server) : Server :=
  match players w !! uid with
  | Some _ => w
  | None =>
      let id := nextID w + 1 in
      mkServer (pstore w) (<[uid := id]> (players w)) (<[id := mkPA uid sess None false [] false Starting]> (actors w)) id
        (toStop w) (callers w) (pout w) (patched w)
  end.

Definition onSessionRelease (uid room : string) (w : Server) : Server :=
  let w := say (EvMatchCancel uid :: if decide (room = ""%string) then [] else [EvLeaveRoom room uid]) w in
  mkServer (pstore w) (delete uid (players w)) (actors w) (nextID w)
    (match players w !! uid with Some id => id :: toStop w | None => toStop w end) (callers w) (pout w) (patched w).
(** [engine.Stop], the last line of the release. *)
Definition stopNext (w : Server) : Server :=
  match toStop w with
  | [] => w
  | id :: rest =>
      mkServer (pstore w) (players w) (alter set_stopping id (actors w)) (nextID w) rest (callers w) (pout w) (patched w)
  end.

(** ** The engine *)

Inductive terr := ErrActorNotFound | ErrKicked.
Definition Tell (id : Z) (m : pmsg) (w : Server) : option terr * Server :=
  match actors w !! id with
  | None => (Some ErrActorNotFound, w)
  | Some a =>
      match pstage a with
      | Finished | Gone => (Some ErrActorNotFound, w)
      | _ =>
          if zlen (pmail a) <? playerMailbox then (None, set_actor id (set_mail (pmail a ++ [m]) a) w)
          else (Some ErrKicked, set_actor id (set_stopping a) w)
      end
  end.

(** ** The player actor *)

Section Actor.
Context (checkpoint : Z) (now : Z).

Definition Init (a : playerActor) (w : Server) : playerActor * Server :=
  match Load now (puid a) (pstore w) with
  | inl _ => (a, w)
  | inr p =>
      (mkPA (puid a) (psess a) (Some p) (0 <? checkpoint) (pmail a) (pstopping a) (pstage a), say [EvSetProfile (psess a) p] w)
  end.

(** The answer, the actor and the store afterwards. *)
Definition applyPatch (fields : list (string * any)) (a : playerActor) (s : S) : option perr * playerActor * S :=
  match pprofile a with
  | None => let '(e, s) := Patch now (puid a) fields s in (e, a, s)
  | Some p =>
      let '(e, q, s) := SaveSync now (puid a) (Some (ApplyProfilePatch p fields)) s in (e, set_profile q a, s)
  end.

(** The answer goes to a buffered channel: a caller that gave up does not see it. *)
Definition answer (k : nat) (e : option perr) (w : Server) : Server :=
  match callers w !! k with
  | Some c => match cpc_ c with CWait _ => set_caller k (goto (CDone e) c) w | _ => w end
  | None => w
  end.

Definition OnMessage (id : Z) (m : pmsg) (a : playerActor) (w : Server) : Server :=
  match m with
  | MPatch k fields =>
      let '(e, a, s) := applyPatch fields a (pstore w) in
      answer k e (mkServer s (players w) (<[id := a]> (actors w)) (nextID w) (toStop w) (callers w) (pout w) (patched w ++ [(id, k)]))
  | MCheckpoint =>
      match pprofile a with
      | None => set_actor id a w
      | Some p => let '(_, q, s) := Save now (puid a) (Some p) (pstore w) in set_actor id (set_profile q a) (set_store s w)
      end
  end.

Definition OnStop (a : playerActor) (s : S) : S :=
  match pprofile a with
  | None => s
  | Some p => snd (SaveSync now (puid a) (Some p) s)
  end.
End Actor.

(** ** Patches of rooms *)

(** One step of a caller: find the actor, send the message, or fall back to the store. *)
Definition patchStep (now : Z) (k : nat) (c : caller) (w : Server) : Server :=
  match cpc_ c with
  | CResolve => set_caller k (goto (match players w !! cuid c with Some id => CTell id | None => CFallback end) c) w
  | CTell id =>
      match Tell id (MPatch k (cfields c)) w with
      | (None, w) => set_caller k (goto (CWait id) c) w
      | (Some _, w) => set_caller k (goto CFallback c) w
      end
  | CFallback => let '(e, s) := Patch now (cuid c) (cfields c) (pstore w) in set_caller k (goto (CDone e) c) (set_store s w)
  | _ => w
  end.

(** ** Steps *)

Inductive pstep (checkpoint : Z) : Server → Server → Prop :=
| ps_start w uid sess : pstep checkpoint w (onSessionStart uid sess w)
| ps_release w uid room : pstep checkpoint w (onSessionRelease uid room w)
| ps_stop w : pstep checkpoint w (stopNext w)
| ps_init w id a a' w' now : actors w !! id = Some a → pstage a = Starting → Init checkpoint now a w = (a', w') →
    pstep checkpoint w (set_actor id (set_stage (if pstopping a then Finished else Serving) a') w')
| ps_message w id a m rest now : actors w !! id = Some a → pstage a = Serving → pmail a = m :: rest →
    pstep checkpoint w (OnMessage now id m (set_mail rest a) w)
| ps_tick w id a : actors w !! id = Some a → pticking a = true → pstopping a = false → pstep checkpoint w (snd (Tell id MCheckpoint w))
(* The loop ends after a stop signal, with an empty mailbox or in the middle of a batch. *)
| ps_finish w id a : actors w !! id = Some a → pstage a = Serving → pstopping a = true → pstep checkpoint w (set_actor id (set_stage Finished a) w)
| ps_onstop w id a now : actors w !! id = Some a → pstage a = Finished →
    pstep checkpoint w (set_actor id (set_stage Gone a) (set_store (OnStop now a (pstore w)) w))
| ps_call w k uid fields : callers w !! k = None → pstep checkpoint w (set_caller k (mkCaller uid fields CResolve) w)
| ps_caller w k c now : callers w !! k = Some c → pstep checkpoint w (patchStep now k c w)
(* The context of the call is done. *)
| ps_giveup w k c id : callers w !! k = Some c → cpc_ c = CWait id → pstep checkpoint w (set_caller k (goto (CGaveUp id) c) w).

Definition newServer (s : S) : Server := mkServer s ∅ ∅ 0 [] ∅ [] [].
End Players.
Arguments Server : clear implicits.
