(* ===== verification/PlayersThm.v ===== *)
(** * Theorems on player actors and profile patches *)

From S2P Require Import Prelude MemStore Profile Players.

(** What the actors rely on: a write is visible to later reads, at once and
    whether or not it was synchronous, and touches one key; a write that fails
    was made or not made. *)
Class VisibleWrites (S : Type) (St : Storage S) : Prop := {
  set_visible t k v s e s' : sSet t k v s = (e, s') → sGet t k s' = inr v ∨ e ≠ None ∧ sGet t k s' = sGet t k s;
  set_other t k v s e s' t' k' : sSet t k v s = (e, s') → (t', k') ≠ (t, k) → sGet t' k' s' = sGet t' k' s;
  setSync_visible t k v s e s' : sSetSync t k v s = (e, s') → sGet t k s' = inr v ∨ e ≠ None ∧ sGet t k s' = sGet t k s;
  setSync_elsewhere t k v s e s' t' k' : sSetSync t k v s = (e, s') → (t', k') ≠ (t, k) → sGet t' k' s' = sGet t' k' s }.

#[export] Instance memory_visible : VisibleWrites MemoryStorage memory_Storage.
Proof.
  assert (Hv : ∀ t k v s e s', set_ t k v s = (e, s') → Get t k s' = inr v) by (intros t k v s e s' [= <- <-]; unfold Get; cbn; by rewrite !lookup_insert_eq).
  assert (Ho : ∀ t k v s e s' t' k', set_ t k v s = (e, s') → (t', k') ≠ (t, k) → Get t' k' s' = Get t' k' s).
  { intros t k v s e s' t' k' H. injection H as <- <-. exact (setSync_other (S := MemoryStorage) t k v s _ t' k' eq_refl). }
  split; cbn; eauto.
Qed.

(** ** Profiles up to identity and time stamp *)

Lemma applyPatchField_stamp u t p k v : applyPatchField (stamp u t p) k v = stamp u t (applyPatchField p k v).
Proof. rewrite !applyPatchField_write. destruct (targetOf k); cbn; repeat case_match; done. Qed.
Lemma ApplyProfilePatch_stamp u t p fs : ApplyProfilePatch (stamp u t p) fs = stamp u t (ApplyProfilePatch p fs).
Proof.
  revert p. induction fs as [|[k v] fs IH]; intros p; [done|]. cbn. rewrite applyPatchField_stamp. apply IH.
Qed.
Lemma stamp_stamp u t u' t' p : stamp u t (stamp u' t' p) = stamp u t p.
Proof. done. Qed.

Section Thm.
Context {S : Type} {St : Storage S} {V : VisibleWrites S St} {J : ProfileJson}.
Context (checkpoint : Z).
Implicit Types w : Server S.
Notation pstep := (pstep checkpoint).

Definition patchOf (m : pmsg) : option nat := match m with MPatch k _ => Some k | MCheckpoint => None end.
Notation mailed a := (omap patchOf (pmail a)).

Definition answered (c : caller) : Prop := match cpc_ c with CDone _ | CGaveUp _ => True | _ => False end.

(** The bookkeeping of messages, calls and actors. *)
Record PInv w : Prop := {
  pv_players u i : players w !! u = Some i → ∃ a, actors w !! i = Some a ∧ puid a = u;
  pv_id i : is_Some (actors w !! i) → i ≤ nextID w;
  pv_mail i a k f : actors w !! i = Some a → MPatch k f ∈ pmail a →
    ∃ c, callers w !! k = Some c ∧ cfields c = f ∧ cuid c = puid a ∧ (cpc_ c = CWait i ∨ cpc_ c = CGaveUp i) ∧ k ∉ (patched w).*2;
  pv_mails i a : actors w !! i = Some a → NoDup (mailed a);
  pv_done k : k ∈ (patched w).*2 → ∃ c, callers w !! k = Some c ∧ answered c;
  pv_once : NoDup (patched w).*2;
  pv_tell k c i : callers w !! k = Some c → cpc_ c = CTell i → ∃ a, actors w !! i = Some a ∧ puid a = cuid c }.

(** ** The bookkeeping is kept *)

Lemma PInv_actor w i a a' : actors w !! i = Some a → puid a' = puid a → (∀ k f, MPatch k f ∈ pmail a' → MPatch k f ∈ pmail a) →
  NoDup (mailed a') → PInv w → PInv (set_actor i a' w).
Proof.
  intros Ha Hu Hm Hn [I1 I2 I3 I4 I5 I6 I7].
  assert (Hl : ∀ j b, actors w !! j = Some b → ∃ b', actors (set_actor i a' w) !! j = Some b' ∧ puid b' = puid b).
  { intros j b Hb. cbn. destruct (decide (j = i)) as [->|Hj]; [|rewrite lookup_insert_ne by done; eauto].
    rewrite lookup_insert_eq. simplify_eq. eauto. }
  split; try done; cbn.
  - intros u j (b & Hb & <-)%I1. by apply Hl.
  - intros j [b [[<- _]|[_ Hb]]%lookup_insert_Some]; [apply I2; eauto|apply I2; eauto].
  - intros j b k f [[<- <-]|[_ Hb]]%lookup_insert_Some Hk; [|by eapply I3]. rewrite Hu. by eapply I3, Hm.
  - intros j b [[<- <-]|[_ Hb]]%lookup_insert_Some; [done|by eapply I4].
  - intros k c j Hc Hp. destruct (I7 k c j Hc Hp) as (b & Hb & <-). by apply Hl.
Qed.
Lemma PInv_store w s : PInv w → PInv (set_store s w).
Proof. intros [I1 I2 I3 I4 I5 I6 I7]. by split. Qed.
Lemma PInv_say w es : PInv w → PInv (say es w).
Proof. intros [I1 I2 I3 I4 I5 I6 I7]. by split. Qed.

Lemma mailed_app (m m' : list pmsg) : omap patchOf (m ++ m') = omap patchOf m ++ omap patchOf m'.
Proof. apply omap_app. Qed.
Lemma elem_of_mailed k (ms : list pmsg) : k ∈ omap patchOf ms ↔ ∃ f, MPatch k f ∈ ms.
Proof.
  rewrite list_elem_of_omap. split; [intros ([k' f|] & Hm & [= <-]); eauto|intros [f Hm]; by exists (MPatch k f)].
Qed.

(** A caller that changes its program counter, the rest unchanged. *)
Lemma PInv_caller w k c p : callers w !! k = Some c → ¬ answered c → (∀ i, cpc_ c ≠ CWait i) → (∀ i, p ≠ CWait i) →
  (∀ i, p = CTell i → ∃ a, actors w !! i = Some a ∧ puid a = cuid c) → PInv w → PInv (set_caller k (goto p c) w).
Proof.
  intros Hc Ha Hw Hp Ht [I1 I2 I3 I4 I5 I6 I7]. split; try done; cbn.
  - intros i a k' f Hi Hm. destruct (I3 i a k' f Hi Hm) as (c' & Hc' & ? & ? & Hpc & ?).
    destruct (decide (k' = k)) as [->|Hk]; [|rewrite lookup_insert_ne by done; eauto 10].
    simplify_eq. destruct Hpc as [Hpc|Hpc]; [by apply Hw in Hpc|]. exfalso. apply Ha. unfold answered. by rewrite Hpc.
  - intros k' Hk'. destruct (I5 k' Hk') as (c' & Hc' & Ha'). destruct (decide (k' = k)) as [->|Hk]; [by simplify_eq|].
    rewrite lookup_insert_ne by done. eauto.
  - intros k' c' i [[<- <-]|[_ Hc']]%lookup_insert_Some; [apply Ht|by eapply I7].
Qed.

Lemma PInv_tell w i a m : actors w !! i = Some a → patchOf m = None → PInv w → PInv (snd (Tell i m w)).
Proof.
  intros Ha Hm HI. unfold Tell. rewrite Ha.
  assert (Hm' : ∀ k f, MPatch k f ∈ pmail a ++ [m] → MPatch k f ∈ pmail a).
  { intros k f [?|E%list_elem_of_singleton]%elem_of_app; [done|]. by subst m. }
  destruct (pstage a); try done; case_match; cbn; (eapply PInv_actor; [done..| |exact HI]); cbn;
    rewrite ?mailed_app; cbn; rewrite ?Hm, ?app_nil_r; by eapply pv_mails.
Qed.

Lemma PInv_send w k c i a : callers w !! k = Some c → cpc_ c = CTell i → actors w !! i = Some a → puid a = cuid c → PInv w →
  PInv (set_caller k (goto (CWait i) c) (set_actor i (set_mail (pmail a ++ [MPatch k (cfields c)]) a) w)).
Proof.
  intros Hc Hp Ha Hu [I1 I2 I3 I4 I5 I6 I7].
  assert (Hnp : k ∉ (patched w).*2).
  { intros (c' & Hc' & Ha')%I5. simplify_eq. unfold answered in Ha'. by rewrite Hp in Ha'. }
  assert (Hnm : ∀ j b f, actors w !! j = Some b → MPatch k f ∉ pmail b).
  { intros j b f Hb Hm. destruct (I3 j b k f Hb Hm) as (c' & Hc' & _ & _ & [E|E] & _); simplify_eq; congruence. }
  set (a' := set_mail _ a).
  assert (Hl : ∀ j b, actors w !! j = Some b → ∃ b', <[i := a']> (actors w) !! j = Some b' ∧ puid b' = puid b).
  { intros j b Hb. destruct (decide (j = i)) as [->|Hj]; [|rewrite lookup_insert_ne by done; eauto]. rewrite lookup_insert_eq. simplify_eq. eauto. }
  split; try done; cbn.
  - intros u j (b & Hb & <-)%I1. by apply Hl.
  - intros j [b [[<- _]|[_ Hb]]%lookup_insert_Some]; apply I2; eauto.
  - intros j b k' f Hb Hm.
    assert ((∃ b', actors w !! j = Some b' ∧ puid b' = puid b ∧ MPatch k' f ∈ pmail b') ∨ (j = i ∧ k' = k ∧ f = cfields c ∧ puid b = puid a))
      as [(b' & Hb' & Hu' & Hm')|(-> & -> & -> & Hu')].
    { apply lookup_insert_Some in Hb as [[<- <-]|[_ Hb]]; [|by eauto]. cbn in Hm. apply elem_of_app in Hm as [Hm|E%list_elem_of_singleton]; [by eauto|].
      injection E as -> ->. by auto. }
    + destruct (I3 j b' k' f Hb' Hm') as (c' & Hc' & ? & ? & ?). assert (k' ≠ k) by (intros ->; by eapply Hnm).
      rewrite lookup_insert_ne by done. rewrite <- Hu'. eauto.
    + exists (goto (CWait i) c). rewrite lookup_insert_eq. split_and!; try done; [cbn; congruence|by left].
  - intros j b [[<- <-]|[_ Hb]]%lookup_insert_Some; [|by eapply I4]. cbn. rewrite mailed_app. apply NoDup_app. split_and!.
    + by eapply I4.
    + intros k' [f Hf']%elem_of_mailed. cbn. intros ->%list_elem_of_singleton. by eapply Hnm.
    + by apply NoDup_singleton.
  - intros k' Hk'. destruct (I5 k' Hk') as (c' & Hc' & Ha'). assert (k' ≠ k) by congruence. rewrite lookup_insert_ne by done. eauto.
  - intros k' c' j [[_ E]|[_ Hc']]%lookup_insert_Some; [by subst c'|]. intros Hpc. destruct (I7 k' c' j Hc' Hpc) as (b & Hb & <-). by apply Hl.
Qed.

Lemma PInv_patch w now k c : callers w !! k = Some c → PInv w → PInv (patchStep now k c w).
Proof.
  intros Hc HI. unfold patchStep. destruct (cpc_ c) as [|i| | | |] eqn:Hp; try done;
    assert (Hna : ¬ answered c) by (intros Hx; unfold answered in Hx; by rewrite Hp in Hx); assert (Hnw : ∀ i, cpc_ c ≠ CWait i) by (intros; by rewrite Hp).
  - apply PInv_caller; try done; [by case_match|]. intros i. case_match; [|done]. intros [= ->]. by apply (pv_players _ HI).
  - assert (Hf : PInv (set_caller k (goto CFallback c) w)) by (by apply PInv_caller).
    destruct (pv_tell _ HI k c i Hc Hp) as (a & Ha & Hu). unfold Tell. rewrite Ha.
    destruct (pstage a); try done; destruct (zlen (pmail a) <? playerMailbox); try (by apply PInv_send);
      (apply (PInv_actor (set_caller k (goto CFallback c) w) i a (set_stopping a)); [done..|exact (pv_mails _ HI i a Ha)|done]).
  - destruct (Patch now (cuid c) (cfields c) (pstore w)) as [e s]. apply (PInv_store _ s) in HI.
    by apply PInv_caller.
Qed.

(** An actor takes a message. *)
Lemma PInv_message w now i a m rest : actors w !! i = Some a → pmail a = m :: rest → PInv w → PInv (OnMessage now i m (set_mail rest a) w).
Proof.
  intros Ha Hm HI. pose proof HI as [I1 I2 I3 I4 I5 I6 I7].
  assert (Hsub : ∀ k f, MPatch k f ∈ rest → MPatch k f ∈ pmail a) by (intros; rewrite Hm; by right).
  assert (Hnd : NoDup (omap patchOf rest)).
  { pose proof (I4 i a Ha) as Hn. rewrite Hm in Hn. cbn in Hn. destruct (patchOf m); [by apply NoDup_cons in Hn as [_ ?]|done]. }
  destruct m as [k f|]; cbn [OnMessage set_mail pprofile puid].
  - destruct (applyPatch now f _ (pstore w)) as [[e a'] s] eqn:E.
    assert (Ha' : puid a' = puid a ∧ pmail a' = rest).
    { unfold applyPatch in E. cbn [set_mail pprofile puid] in E. destruct (pprofile a); [destruct (SaveSync _ _ _ _) as [[? ?] ?]|destruct (Patch _ _ _ _)]; by simplify_eq. }
    destruct Ha' as [Hu Hr].
    destruct (I3 i a k f Ha ltac:(rewrite Hm; by left)) as (c & Hc & Hf & Hcu & Hpc & Hnp).
    assert (Hkr : ∀ f', MPatch k f' ∉ rest).
    { intros f' Hk. pose proof (I4 i a Ha) as Hn. rewrite Hm in Hn. cbn in Hn. apply NoDup_cons in Hn as [Hn _]. apply Hn, elem_of_mailed. eauto. }
    apply (PInv_actor w i a a') in HI; [|done|done|by rewrite Hr|by rewrite Hr].
    destruct HI as [J1 J2 J3 J4 J5 J6 J7]. unfold answer. cbn. rewrite Hc.
    assert (Hother : ∀ j b k' f', <[i := a']> (actors w) !! j = Some b → MPatch k' f' ∈ pmail b → k' ≠ k).
    { intros j b k' f' Hb Hk' ->. destruct (J3 j b k f' Hb Hk') as (c' & Hc' & _ & _ & Hpc' & _). cbn in Hc'. simplify_eq.
      assert (j = i) as -> by (destruct Hpc, Hpc'; congruence). rewrite lookup_insert_eq in Hb. simplify_eq. by eapply Hkr. }
    assert (Hans : ∀ k' c', callers w !! k' = Some c' → (k' = k → answered c') → k' ∈ (patched w).*2 ++ [k] → ∃ c, callers w !! k' = Some c ∧ answered c).
    { intros k' c' Hc' Hk' [?|E'%list_elem_of_singleton]%elem_of_app; [by apply I5|]. eauto. }
    set (cs' := match cpc_ c with CWait _ => <[k := goto (CDone e) c]> (callers w) | _ => callers w end).
    assert (Hcs : ∀ k', k' ≠ k → cs' !! k' = callers w !! k') by (intros k' Hk'; unfold cs'; case_match; try done; by rewrite lookup_insert_ne).
    assert (Hck : ∃ c', cs' !! k = Some c' ∧ answered c').
    { unfold cs', answered. destruct Hpc as [Hpc|Hpc]; rewrite Hpc; [rewrite lookup_insert_eq|]; eexists; (split; [done|]); [done|by rewrite Hpc]. }
    assert (Hw : match cpc_ c with CWait _ => set_caller k (goto (CDone e) c) (mkServer s (players w) (<[i := a']> (actors w)) (nextID w) (toStop w) (callers w) (pout w) (patched w ++ [(i, k)]))
      | _ => mkServer s (players w) (<[i := a']> (actors w)) (nextID w) (toStop w) (callers w) (pout w) (patched w ++ [(i, k)]) end =
      mkServer s (players w) (<[i := a']> (actors w)) (nextID w) (toStop w) cs' (pout w) (patched w ++ [(i, k)])) by (unfold cs'; by case_match).
    rewrite Hw. clear Hw. split; cbn; try done.
    + intros j b k' f' Hb Hk'. pose proof (Hother _ _ _ _ Hb Hk') as Hne. destruct (J3 j b k' f' Hb Hk') as (c' & Hc' & ? & ? & ? & ?).
      exists c'. rewrite Hcs by done. rewrite fmap_app, not_elem_of_app. split_and!; try done. cbn. by intros ?%list_elem_of_singleton.
    + intros k'. rewrite fmap_app. destruct (decide (k' = k)) as [->|Hk']; [done|]. rewrite Hcs by done.
      intros [?|?%list_elem_of_singleton]%elem_of_app; [by apply I5|done].
    + rewrite fmap_app. apply NoDup_app. split_and!; [done| |by apply NoDup_singleton]. intros x Hx. cbn. by intros ->%list_elem_of_singleton.
    + intros k' c' j Hk' Hp'. apply (J7 k' c' j); [|done]. cbn. destruct (decide (k' = k)) as [->|Hk2]; [|by rewrite <- Hcs].
      destruct Hck as (c2 & Hc2 & Ha2). simplify_eq. unfold answered in Ha2. by rewrite Hp' in Ha2.
  - destruct (pprofile a) as [p|]; [destruct (Save _ _ _ _) as [[e q] s]|].
    + apply (PInv_actor w i a) with (a' := set_profile q (set_mail rest a)) in HI; [|done..]. by apply (PInv_store _ s) in HI.
    + by eapply PInv_actor.
Qed.

Lemma PInv_step w w' : pstep w w' → PInv w → PInv w'.
Proof.
  intros Hs HI. pose proof HI as [I1 I2 I3 I4 I5 I6 I7].
  destruct Hs as [w u ss|w u room|w|w i a a' w' now Ha Hst E|w i a m rest now Ha Hst Hm|w i a Ha _ _|w i a Ha Hst _|w i a now Ha Hst|w k u f Hk|w k c now Hc|w k c i Hc Hp].
  - unfold onSessionStart. destruct (players w !! u) eqn:Hu; [done|]. set (i := nextID w + 1). set (a0 := mkPA _ _ _ _ _ _ _).
    assert (Hfr : actors w !! i = None).
    { destruct (actors w !! i) eqn:Hi; [|done]. pose proof (I2 i (mk_is_Some _ _ Hi)). unfold i in *. lia. }
    assert (Hl : ∀ j b, actors w !! j = Some b → <[i := a0]> (actors w) !! j = Some b) by (intros j b Hb; rewrite lookup_insert_ne; congruence).
    split; try done; cbn.
    + intros u' j [[<- <-]|[_ (b & Hb & <-)%I1]]%lookup_insert_Some; [rewrite lookup_insert_eq; eauto|eauto].
    + intros j [b [[<- _]|[_ Hb]]%lookup_insert_Some]; [lia|]. pose proof (I2 j (mk_is_Some _ _ Hb)). unfold i. lia.
    + intros j b k f [[<- <-]|[_ Hb]]%lookup_insert_Some; [by intros ?%not_elem_of_nil|by eapply I3].
    + intros j b [[<- <-]|[_ Hb]]%lookup_insert_Some; [apply NoDup_nil_2|by eapply I4].
    + intros k c j Hc Hp. destruct (I7 k c j Hc Hp) as (b & Hb & <-). eauto.
  - unfold onSessionRelease. split; try done. cbn. intros u' j [_ ?]%lookup_delete_Some. by apply I1.
  - unfold stopNext. destruct (toStop w) as [|i rest]; [done|]. destruct (actors w !! i) as [a|] eqn:Ha.
    + apply (PInv_actor w i a (set_stopping a)) in HI; [|done..|exact (I4 i a Ha)]. destruct HI as [J1 J2 J3 J4 J5 J6 J7]. cbn in *.
      rewrite (alter_alt_Some set_stopping _ i a) by done. by split.
    + rewrite alter_id' by done. by split.
  - assert (Ha' : puid a' = puid a ∧ pmail a' = pmail a ∧ (w' = w ∨ ∃ es, w' = say es w)).
    { unfold Init in E. destruct (Load _ _ _); simplify_eq; eauto. }
    destruct Ha' as (Hu & Hm & Hw). assert (HI' : PInv w' ∧ actors w' = actors w) by (destruct Hw as [->|[es ->]]; [done|split; [by apply PInv_say|done]]).
    destruct HI' as [HI' Hac]. eapply PInv_actor; [by rewrite Hac|done| |cbn; rewrite Hm; by eapply I4|done]. cbn. by rewrite Hm.
  - by apply PInv_message.
  - by eapply PInv_tell.
  - eapply PInv_actor; [done..|exact (I4 i a Ha)|done].
  - eapply PInv_actor; [done..|exact (I4 i a Ha)|by apply PInv_store].
  - assert (Hne : ∀ k' c, callers w !! k' = Some c → k' ≠ k) by congruence.
    split; try done; cbn.
    + intros i a k' f' Ha Hm. destruct (I3 i a k' f' Ha Hm) as (c & Hc & ?). exists c. rewrite lookup_insert_ne by (symmetry; by eapply Hne). done.
    + intros k' (c & Hc & ?)%I5. exists c. rewrite lookup_insert_ne by (symmetry; by eapply Hne). done.
    + intros k' c i [[_ <-]|[_ Hc]]%lookup_insert_Some; [done|by eapply I7].
  - by apply PInv_patch.
  - split; try done; cbn.
    + intros j a k' f' Ha Hm. destruct (I3 j a k' f' Ha Hm) as (c' & Hc' & ? & ? & Hpc & ?). destruct (decide (k' = k)) as [->|Hk].
      * simplify_eq. exists (goto (CGaveUp i) c). rewrite lookup_insert_eq. split_and!; try done. right. cbn. destruct Hpc; congruence.
      * exists c'. rewrite lookup_insert_ne by done. eauto.
    + intros k' (c' & Hc' & Ha')%I5. destruct (decide (k' = k)) as [->|Hk]; [rewrite lookup_insert_eq|rewrite lookup_insert_ne by done]; by eexists.
    + intros k' c' j [[_ <-]|[_ Hc']]%lookup_insert_Some; [done|by eapply I7].
Qed.
Lemma PInv_new s : PInv (newServer s).
Proof.
  split; cbn.
  - intros u i. by rewrite lookup_empty.
  - intros i [a Ha]. by rewrite lookup_empty in Ha.
  - intros i a k f Ha. by rewrite lookup_empty in Ha.
  - intros i a Ha. by rewrite lookup_empty in Ha.
  - by intros k ?%not_elem_of_nil.
  - apply NoDup_nil_2.
  - intros k c i Hc. by rewrite lookup_empty in Hc.
Qed.

(** ** What the store holds *)

Lemma saveWith_key put now u p s e q s' u' :
  put = sSet ∨ put = sSetSync → saveWith put now u (Some p) s = (e, q, s') →
  q = Some (stamp u now p) ∧ (u' ≠ u → sGet profileTable u' s' = sGet profileTable u' s) ∧
  (sGet profileTable u s' = sGet profileTable u s ∧ e ≠ None ∨ ∃ raw, encodeProfile (stamp u now p) = Some raw ∧ sGet profileTable u s' = inr raw).
Proof.
  intros Hput. unfold saveWith. destruct (encodeProfile (stamp u now p)) as [raw|]; [|intros [= <- <- <-]; split_and!; auto].
  destruct (put profileTable u raw s) as [e1 s1] eqn:E. intros [= <- <- <-]. split_and!; [done|..].
  - intros Hne. destruct Hput as [-> | ->]; [eapply set_other|eapply setSync_elsewhere]; [exact E|congruence|exact E|congruence].
  - assert (sGet profileTable u s1 = inr raw ∨ e1 ≠ None ∧ sGet profileTable u s1 = sGet profileTable u s) as [?|[He ?]].
    { destruct Hput as [-> | ->]; [by eapply set_visible|by eapply setSync_visible]. }
    + right. eauto.
    + left. split; [done|]. by destruct e1.
Qed.
Lemma Patch_other now u fs s e s' u' : Patch now u fs s = (e, s') → u' ≠ u → sGet profileTable u' s' = sGet profileTable u' s.
Proof.
  unfold Patch. destruct (Load now u s) as [e0|p]; [by intros [= _ <-]|]. destruct (encodeProfile _) as [raw|]; [|by intros [= _ <-]].
  destruct (sSetSync profileTable u raw s) as [e1 s1] eqn:E. intros [= _ <-] Hne. eapply setSync_elsewhere; [exact E|congruence].
Qed.

(** ** A player whose actor lives *)

Section Life.
Context (u : string) (id : Z).

(** The actor of the player is registered, serves and has not been told to stop. *)
Definition alive w : Prop :=
  players w !! u = Some id ∧ ∃ a, actors w !! id = Some a ∧ puid a = u ∧ pstage a = Serving ∧ pstopping a = false.
(** Nobody else writes the player's profile: earlier actors are gone, and no call
    of Patch for the player has turned to the store or to another actor. *)
Definition settled w : Prop :=
  (∀ i a, actors w !! i = Some a → puid a = u → i = id ∨ pstage a = Gone) ∧
  (∀ k c, callers w !! k = Some c → cuid c = u → cpc_ c ≠ CFallback ∧ ∀ i, cpc_ c = CTell i → i = id).

Definition profileOf w (i : Z) : option PlayerProfile := actors w !! i ≫= pprofile.
Definition fieldsOf w (k : nat) : list (string * any) := match callers w !! k with Some c => cfields c | None => [] end.
(** A profile with the fields of some calls applied in order. *)
Definition replayed w (p : PlayerProfile) (ks : list nat) : PlayerProfile := foldl (fun p k => ApplyProfilePatch p (fieldsOf w k)) p ks.
(** The calls the actor has applied after the first [n] patches of the history. *)
Definition own (l : list (Z * nat)) : list nat := (filter (fun x => x.1 = id) l).*2.
Definition appliedSince (n : nat) w : list nat := own (drop n (patched w)).

Lemma own_app l l' : own (l ++ l') = own l ++ own l'.
Proof. unfold own. by rewrite filter_app, fmap_app. Qed.
Lemma replayed_stamp w t p ks : replayed w (stamp u t p) ks = stamp u t (replayed w p ks).
Proof. unfold replayed. revert p. induction ks as [|k ks IH]; intros p; [done|]. cbn. rewrite ApplyProfilePatch_stamp. apply IH. Qed.
Lemma replayed_fields w w' p ks : (∀ k, k ∈ ks → fieldsOf w' k = fieldsOf w k) → replayed w' p ks = replayed w p ks.
Proof.
  unfold replayed. revert p. induction ks as [|k ks IH]; intros p Hk; [done|]. cbn. rewrite Hk by left. apply IH. intros k' ?. apply Hk. by right.
Qed.

Context (w0 : Server S) (p0 : PlayerProfile).
Notation since := (appliedSince (length (patched w0))).

(** The stored profile holds the patch of the call [k]. *)
Definition saved w (k : nat) : Prop := ∃ l1 l2 t raw, since w = l1 ++ l2 ∧ k ∈ l1 ∧
  sGet profileTable u (pstore w) = inr raw ∧ encodeProfile (stamp u t (replayed w p0 l1)) = Some raw.

Record Life w : Prop := {
  lf_inv : PInv w;
  lf_alive : alive w;
  lf_settled : settled w;
  lf_prefix : patched w0 `prefix_of` patched w;
  lf_mem : ∃ p, profileOf w id = Some p ∧ stamp u 0 p = stamp u 0 (replayed w p0 (since w));
  lf_saved k c : callers w !! k = Some c → cuid c = u → cpc_ c = CDone None →
    (∃ c0, callers w0 !! k = Some c0 ∧ cpc_ c0 = CDone None) ∨ saved w k }.

Definition keepsCalls w w' : Prop := ∀ k c, callers w !! k = Some c → ∃ c', callers w' !! k = Some c' ∧ cfields c' = cfields c.
Lemma since_known w k : PInv w → k ∈ since w → is_Some (callers w !! k).
Proof.
  intros HI Hk. unfold appliedSince, own in Hk. apply list_elem_of_fmap in Hk as ([i k'] & -> & [_ Hk]%list_elem_of_filter).
  destruct (pv_done _ HI k') as (c & Hc & _); [|by eexists]. apply list_elem_of_fmap. exists (i, k'). split; [done|].
  rewrite <- (take_drop (length (patched w0)) (patched w)). apply elem_of_app. by right.
Qed.
Lemma since_app w w' ex : patched w0 `prefix_of` patched w → patched w' = patched w ++ ex → since w' = since w ++ own ex.
Proof. intros [l Hl] Hw. unfold appliedSince. rewrite Hw, Hl, <- (assoc_L app), !drop_app_length. apply own_app. Qed.

(** A step of somebody else. *)
Lemma Life_frame w w' ex : Life w → PInv w' → alive w' → settled w' → patched w' = patched w ++ ex → own ex = [] →
  profileOf w' id = profileOf w id → sGet profileTable u (pstore w') = sGet profileTable u (pstore w) → keepsCalls w w' →
  (∀ k c, callers w' !! k = Some c → cuid c = u → cpc_ c = CDone None → ∃ c0, callers w !! k = Some c0 ∧ cuid c0 = u ∧ cpc_ c0 = CDone None) →
  Life w'.
Proof.
  intros [L1 L2 L3 L4 L5 L6] HI' Ha' Hs' Hp Hex Hprof Hst Hk Hd.
  assert (Hsince : since w' = since w) by (rewrite (since_app w w' ex) by done; by rewrite Hex, app_nil_r).
  assert (Hf : ∀ k, k ∈ since w → fieldsOf w' k = fieldsOf w k).
  { intros k Hin. destruct (since_known w k L1 Hin) as [c Hc]. destruct (Hk k c Hc) as (c' & Hc' & E). unfold fieldsOf. by rewrite Hc, Hc', E. }
  split; try done.
  - rewrite Hp. by apply prefix_app_r.
  - destruct L5 as (p & Hpp & Hs). exists p. rewrite Hprof, Hsince, (replayed_fields w w') by done. done.
  - intros k c Hc Hu Hdn. destruct (Hd k c Hc Hu Hdn) as (c0 & Hc0 & Hu0 & Hd0). destruct (L6 k c0 Hc0 Hu0 Hd0) as [?|(l1 & l2 & t & raw & E & Hin & Hg & He)]; [by left|].
    right. exists l1, l2, t, raw. rewrite Hsince, Hst, (replayed_fields w w'); [done|]. intros k' Hk'. apply Hf. rewrite E. apply elem_of_app. by left.
Qed.

Lemma alive_actor w i a : settled w → alive w → actors w !! i = Some a → i ≠ id → pstage a ≠ Gone → puid a ≠ u.
Proof. intros [H _] _ Ha Hi Hg Hu. by destruct (H i a Ha Hu). Qed.

(** An actor that changes, but not its identity or profile. *)
Lemma settled_actor w i a a' : actors w !! i = Some a → puid a' = puid a → (pstage a = Gone → pstage a' = Gone) → settled w → settled (set_actor i a' w).
Proof.
  intros Ha Hu Hg [H1 H2]. split; [|done]. cbn. intros j b [[<- <-]|[_ Hb]]%lookup_insert_Some Hb'; [|by eapply H1].
  rewrite Hu in Hb'. destruct (H1 i a Ha Hb'); auto.
Qed.
Lemma profileOf_actor w i a a' : actors w !! i = Some a → (i = id → pprofile a' = pprofile a) → profileOf (set_actor i a' w) id = profileOf w id.
Proof.
  intros Ha Hp. unfold profileOf. cbn. destruct (decide (i = id)) as [->|Hi]; [rewrite lookup_insert_eq, Ha; by apply Hp|by rewrite lookup_insert_ne].
Qed.
Lemma Life_actor w i a a' : Life w → actors w !! i = Some a → puid a' = puid a → (pstage a = Gone → pstage a' = Gone) →
  pprofile a' = pprofile a → PInv (set_actor i a' w) → alive (set_actor i a' w) → Life (set_actor i a' w).
Proof.
  intros HL Ha Hu Hg Hp HI Hal. apply (Life_frame w _ []); try done.
  - eapply settled_actor; [done..|apply HL].
  - cbn. by rewrite app_nil_r.
  - by eapply profileOf_actor.
  - intros k c Hc. by exists c.
  - intros k c Hc Hcu Hd. by exists c.
Qed.
(** A caller that moves on without being done. *)
Lemma Life_caller w k c c' s : Life w → callers w !! k = Some c → cuid c' = cuid c → cfields c' = cfields c → (cuid c = u → cpc_ c' ≠ CDone None) →
  (cuid c = u → cpc_ c' ≠ CFallback ∧ ∀ i, cpc_ c' = CTell i → i = id) → sGet profileTable u s = sGet profileTable u (pstore w) →
  PInv (set_caller k c' (set_store s w)) → Life (set_caller k c' (set_store s w)).
Proof.
  intros HL Hc Hu Hf Hd Hp Hs HI. apply (Life_frame w _ []); try done.
  - apply HL.
  - destruct (lf_settled _ HL) as [H1 H2]. split; [done|]. cbn. intros k' c1 [[<- <-]|[_ Hc1]]%lookup_insert_Some Hu1; [apply Hp; congruence|by eapply H2].
  - cbn. by rewrite app_nil_r.
  - intros k' c1 Hc1. cbn. destruct (decide (k' = k)) as [->|Hk]; [rewrite lookup_insert_eq; simplify_eq; eauto|rewrite lookup_insert_ne by done; eauto].
  - cbn. intros k' c1 [[<- <-]|[_ Hc1]]%lookup_insert_Some Hu1 Hd1; [|eauto]. exfalso. by apply Hd; [congruence|].
Qed.

Definition wrote w (p : PlayerProfile) : Prop := ∃ raw t, sGet profileTable u (pstore w) = inr raw ∧ encodeProfile (stamp u t p) = Some raw.

(** A save of the player's actor, after new patches or none. *)
Lemma Life_write w w' ex p' : Life w → PInv w' → alive w' → settled w' → patched w' = patched w ++ ex → keepsCalls w w' →
  profileOf w' id = Some p' → stamp u 0 p' = stamp u 0 (replayed w' p0 (since w ++ own ex)) →
  (sGet profileTable u (pstore w') = sGet profileTable u (pstore w) ∨ wrote w' p') →
  (∀ k c, callers w' !! k = Some c → cuid c = u → cpc_ c = CDone None →
    (∃ c0, callers w !! k = Some c0 ∧ cuid c0 = u ∧ cpc_ c0 = CDone None) ∨ k ∈ own ex ∧ wrote w' p') →
  Life w'.
Proof.
  intros [L1 L2 L3 L4 L5 L6] HI' Ha' Hs' Hp Hk Hprof Hmem Hst Hd.
  assert (Hsince : since w' = since w ++ own ex) by (by apply since_app).
  assert (Hf : ∀ k, k ∈ since w → fieldsOf w' k = fieldsOf w k).
  { intros k Hin. destruct (since_known w k L1 Hin) as [c Hc]. destruct (Hk k c Hc) as (c' & Hc' & E). unfold fieldsOf. by rewrite Hc, Hc', E. }
  assert (Hall : ∀ k, k ∈ since w' → wrote w' p' → saved w' k).
  { intros k Hin (raw & t & Hg & He). exists (since w'), [], t, raw. rewrite app_nil_r. split_and!; try done.
    rewrite <- He. f_equal. rewrite Hsince. apply (f_equal (stamp u t)) in Hmem. exact (eq_sym Hmem). }
  split; try done.
  - rewrite Hp. by apply prefix_app_r.
  - exists p'. by rewrite Hsince.
  - intros k c Hc Hu Hdn. destruct (Hd k c Hc Hu Hdn) as [(c0 & Hc0 & Hu0 & Hd0)|[Hin Hw]].
    + destruct (L6 k c0 Hc0 Hu0 Hd0) as [?|(l1 & l2 & t & raw & E & Hin & Hg & He)]; [by left|right].
      destruct Hst as [Hst|Hw]; [|apply Hall; [|done]; rewrite Hsince, E, !elem_of_app; auto].
      exists l1, (l2 ++ own ex), t, raw. rewrite Hsince, Hst, E, <- (assoc_L app). split_and!; try done.
      rewrite <- He. do 2 f_equal. apply replayed_fields. intros k' Hk'. apply Hf. rewrite E. apply elem_of_app. by left.
    + right. apply Hall; [|done]. rewrite Hsince, elem_of_app. auto.
Qed.

Lemma own_self k : own [(id, k)] = [k].
Proof. unfold own. by rewrite filter_cons_True. Qed.
Lemma own_not i k : i ≠ id → own [(i, k)] = [].
Proof. intros Hi. unfold own. by rewrite filter_cons_False. Qed.
Lemma answer_pc k e w k' c' : callers (answer k e w) !! k' = Some c' →
  callers w !! k' = Some c' ∨ k' = k ∧ cpc_ c' = CDone e ∧ ∃ c i, callers w !! k = Some c ∧ cpc_ c = CWait i ∧ cuid c' = cuid c.
Proof.
  unfold answer. destruct (callers w !! k) as [c|] eqn:Hc; [|by left]. destruct (cpc_ c) eqn:Hp; try by left.
  cbn. intros [[<- <-]|[_ ?]]%lookup_insert_Some; [right|by left]. split_and!; try done. eauto.
Qed.
Lemma answer_keeps k e w : keepsCalls w (answer k e w) ∧ pstore (answer k e w) = pstore w ∧ players (answer k e w) = players w ∧
  actors (answer k e w) = actors w ∧ patched (answer k e w) = patched w.
Proof.
  unfold answer. destruct (callers w !! k) as [c|] eqn:Hc; [|split_and!; try done; intros ? c' ?; by exists c'].
  destruct (cpc_ c) eqn:Hp; split_and!; try done; intros k' c' Hc'; try (by exists c'). cbn.
  destruct (decide (k' = k)) as [->|Hk]; [rewrite lookup_insert_eq; simplify_eq; eauto|rewrite lookup_insert_ne by done; eauto].
Qed.
Lemma settled_answer k e w : settled w → settled (answer k e w).
Proof.
  intros [H1 H2]. destruct (answer_keeps k e w) as (_ & _ & _ & Ha & _). split; [by rewrite Ha|].
  intros k' c' Hc' Hu. destruct (answer_pc _ _ _ _ _ Hc') as [?|(-> & Hp & _)]; [by eapply H2|]. by rewrite Hp.
Qed.

(** The player's actor takes a message. *)
Lemma Life_own w now a m rest : Life w → actors w !! id = Some a → pmail a = m :: rest → alive (OnMessage now id m (set_mail rest a) w) →
  Life (OnMessage now id m (set_mail rest a) w).
Proof.
  intros HL Ha Hm Hal. pose proof (PInv_message w now id a m rest Ha Hm (lf_inv _ HL)) as HI.
  pose proof HL as [L1 (_ & a0 & Ha0 & Hau & _) L3 L4 L5 _]. rewrite Ha in Ha0. injection Ha0 as <-. destruct L5 as (p & Hp & Hmem).
  unfold profileOf in Hp. rewrite Ha in Hp. cbn in Hp.
  destruct m as [k f|]; cbn [OnMessage set_mail pprofile puid] in *.
  - unfold applyPatch in *. cbn [set_mail pprofile puid] in *. rewrite Hp, Hau in *.
    destruct (SaveSync now u (Some (ApplyProfilePatch p f)) (pstore w)) as [[e q] s] eqn:E.
    destruct (saveWith_key sSetSync now u (ApplyProfilePatch p f) (pstore w) e q s u (or_intror eq_refl) E) as (-> & _ & Hst).
    set (w1 := mkServer _ _ _ _ _ _ _ _) in *. destruct (answer_keeps k e w1) as (K1 & K2 & K3 & K4 & K5).
    destruct (pv_mail _ L1 id a k f Ha ltac:(rewrite Hm; by left)) as (c & Hc & Hcf & Hcu & _).
    assert (Hk : fieldsOf (answer k e w1) k = f).
    { destruct (K1 k c Hc) as (c' & Hc' & Hcf'). unfold fieldsOf. by rewrite Hc', Hcf'. }
    refine (Life_write w _ [(id, k)] (stamp u now (ApplyProfilePatch p f)) HL HI Hal _ _ K1 _ _ _ _).
    + destruct L3 as [S1 S2]. apply settled_answer. split; [|done]. cbn. intros i b [[<- <-]|[_ Hb]]%lookup_insert_Some; [by left|by eapply S1].
    + by rewrite K5.
    + unfold profileOf. rewrite K4. cbn. by rewrite lookup_insert_eq.
    + rewrite own_self. unfold replayed. rewrite foldl_app. cbn [foldl]. rewrite Hk. fold (replayed (answer k e w1) p0 (since w)).
      rewrite (replayed_fields w (answer k e w1)).
      * rewrite stamp_stamp, <- !ApplyProfilePatch_stamp. by rewrite Hmem.
      * intros k' (c' & Hc')%(since_known _ _ L1). destruct (K1 k' c' Hc') as (c2 & Hc2 & Hf2). unfold fieldsOf. by rewrite Hc2, Hc', Hf2.
    + unfold wrote. rewrite K2. cbn. destruct Hst as [[Hst _]|(raw & He & Hg)]; [by left|right]. exists raw, now. by rewrite stamp_stamp.
    + intros k' c' Hc' Hu' Hd'. destruct (answer_pc _ _ _ _ _ Hc') as [Hc1|(-> & Hpd & _)]; [left; eauto|]. right.
      rewrite own_self. split; [by left|]. unfold wrote. rewrite K2. cbn. destruct Hst as [[_ Hne]|(raw & He & Hg)].
      * exfalso. apply Hne. congruence.
      * exists raw, now. by rewrite stamp_stamp.
  - rewrite Hp, Hau in *. destruct (Save now u (Some p) (pstore w)) as [[e q] s] eqn:E.
    destruct (saveWith_key sSet now u p (pstore w) e q s u (or_introl eq_refl) E) as (-> & _ & Hst).
    refine (Life_write w _ [] (stamp u now p) HL HI Hal _ _ _ _ _ _ _).
    + by eapply (settled_actor _ id a).
    + cbn. by rewrite app_nil_r.
    + intros k c Hc. by exists c.
    + unfold profileOf. cbn. by rewrite lookup_insert_eq.
    + unfold own. cbn. rewrite app_nil_r. exact Hmem.
    + unfold wrote. cbn. destruct Hst as [[Hst _]|(raw & He & Hg)]; [by left|right]. exists raw, now. by rewrite stamp_stamp.
    + intros k c Hc Hu Hd. left. by exists c.
Qed.

(** Another actor takes a message. *)
Lemma Life_foreign w now i a m rest : Life w → actors w !! i = Some a → pstage a = Serving → pmail a = m :: rest → i ≠ id →
  Life (OnMessage now i m (set_mail rest a) w).
Proof.
  intros HL Ha Hst Hm Hi. pose proof (PInv_message w now i a m rest Ha Hm (lf_inv _ HL)) as HI.
  assert (Hau : puid a ≠ u) by (eapply alive_actor; [apply HL|apply HL|done..|by rewrite Hst]).
  pose proof (lf_alive _ HL) as (Hpl & a0 & Ha0 & Hrest).
  destruct m as [k f|]; cbn [OnMessage set_mail pprofile puid] in *.
  - destruct (applyPatch now f _ (pstore w)) as [[e a'] s] eqn:E.
    assert (Hx : puid a' = puid a ∧ sGet profileTable u s = sGet profileTable u (pstore w)).
    { unfold applyPatch in E. cbn [set_mail pprofile puid] in E. destruct (pprofile a) as [p|].
      - destruct (SaveSync now (puid a) (Some (ApplyProfilePatch p f)) (pstore w)) as [[e1 q1] s1] eqn:E1. simplify_eq. split; [done|].
        by eapply (saveWith_key sSetSync); [by right|exact E1|].
      - destruct (Patch now (puid a) f (pstore w)) as [e1 s1] eqn:E1. simplify_eq. split; [done|]. by eapply Patch_other. }
    destruct Hx as [Hu' Hs']. set (w1 := mkServer _ _ _ _ _ _ _ _) in *. destruct (answer_keeps k e w1) as (K1 & K2 & K3 & K4 & K5).
    destruct (pv_mail _ (lf_inv _ HL) i a k f Ha ltac:(rewrite Hm; by left)) as (c & Hc & Hcf & Hcu & _).
    apply (Life_frame w _ [(i, k)]); try done.
    + split; [by rewrite K3|]. rewrite K4. cbn. rewrite lookup_insert_ne by done. eauto.
    + destruct (lf_settled _ HL) as [S1 S2]. apply settled_answer. split; [|done]. cbn.
      intros j b [[<- <-]|[_ Hb]]%lookup_insert_Some; [intros; congruence|by eapply S1].
    + by apply own_not.
    + unfold profileOf. rewrite K4. cbn. by rewrite lookup_insert_ne.
    + by rewrite K2.
    + intros k' c' Hc' Hu1 Hd'. destruct (answer_pc _ _ _ _ _ Hc') as [Hc1|(-> & _ & c2 & j & Hc2 & _ & Hcu2)]; [eauto|]. cbn in Hc2. congruence.
  - assert (Hx : ∀ a' s, puid a' = puid a → sGet profileTable u s = sGet profileTable u (pstore w) → PInv (set_actor i a' (set_store s w)) →
      Life (set_actor i a' (set_store s w))).
    { intros a' s Hu' Hs' HI'. apply (Life_frame w _ []); try done.
      - split; [done|]. cbn. rewrite lookup_insert_ne by done. eauto.
      - destruct (lf_settled _ HL) as [S1 S2]. split; [|done]. cbn. intros j b [[<- <-]|[_ Hb]]%lookup_insert_Some; [intros; congruence|by eapply S1].
      - cbn. by rewrite app_nil_r.
      - unfold profileOf. cbn. by rewrite lookup_insert_ne.
      - intros k c Hc. by exists c.
      - intros k c Hc ? ?. by exists c. }
    destruct (pprofile a) as [p|] eqn:Hp.
    + destruct (Save now (puid a) (Some p) (pstore w)) as [[e q] s] eqn:E. apply Hx; try done. by eapply (saveWith_key sSet); [by left|exact E|].
    + by apply (Hx _ (pstore w)).
Qed.

(** A caller moves: for the player it finds the living actor, whose mailbox takes
    the message (a refusal would stop the actor). *)
Lemma Life_patch w now k c : Life w → callers w !! k = Some c → alive (patchStep now k c w) → Life (patchStep now k c w).
Proof.
  intros HL Hc Hal. pose proof (PInv_patch w now k c Hc (lf_inv _ HL)) as HI. pose proof (lf_settled _ HL) as [S1 S2].
  pose proof (lf_alive _ HL) as (Hpl & a0 & Ha0 & Hu0 & Hst0 & Hsp0). unfold patchStep in *.
  destruct (cpc_ c) as [|i|i| |e|i] eqn:Hp; try done.
  - refine (Life_caller w k c (goto _ c) (pstore w) HL Hc eq_refl eq_refl _ _ eq_refl HI); intros Hu.
    + by destruct (players w !! cuid c).
    + rewrite Hu, Hpl. cbn. split; [done|]. by intros ? [= <-].
  - destruct (pv_tell _ (lf_inv _ HL) k c i Hc Hp) as (a & Ha & Hau).
    assert (Hfb : cuid c ≠ u → Life (set_caller k (goto CFallback c) w)).
    { intros Hne. refine (Life_caller w k c (goto _ c) (pstore w) HL Hc eq_refl eq_refl _ _ eq_refl _); [done..|].
      apply PInv_caller; try done; [intros Hx; unfold answered in Hx; by rewrite Hp in Hx|by rewrite Hp|apply PInv_store, HL]. }
    unfold Tell in *. rewrite Ha in *.
    assert (Hown : cuid c = u → i = id) by (intros Hu; by apply (S2 k c Hc Hu)).
    destruct (decide (cuid c = u)) as [Hu|Hne].
    + rewrite (Hown Hu) in *. rewrite Ha0 in Ha. injection Ha as <-. rewrite Hst0 in *.
      destruct (zlen (pmail a0) <? playerMailbox); cycle 1.
      { exfalso. destruct Hal as (_ & b & Hb & _ & _ & Hsp). cbn in Hb. rewrite lookup_insert_eq in Hb. by simplify_eq. }
      apply (Life_frame w _ []); try done; cbn.
      * split; cbn; [intros j b [[<- <-]|[_ Hb]]%lookup_insert_Some; [by left|by eapply S1]|].
        intros k' c' [[<- <-]|[_ Hc']]%lookup_insert_Some; [done|by eapply S2].
      * by rewrite app_nil_r.
      * by eapply (profileOf_actor w id a0).
      * intros k' c' Hc'. cbn. destruct (decide (k' = k)) as [->|Hk]; [rewrite lookup_insert_eq; simplify_eq; by eexists|rewrite lookup_insert_ne by done; eauto].
      * intros k' c' [[<- <-]|[_ Hc']]%lookup_insert_Some; [done|eauto].
    + destruct (pstage a) eqn:Hsa; try (by apply Hfb);
        (destruct (zlen (pmail a) <? playerMailbox); (apply (Life_frame w _ []); try done; cbn;
          [split; cbn; [intros j b [[<- <-]|[_ Hb]]%lookup_insert_Some; [cbn; intros; congruence|by eapply S1]|
                        intros k' c' [[<- <-]|[_ Hc']]%lookup_insert_Some; [done|by eapply S2]]
          |by rewrite app_nil_r
          |by eapply (profileOf_actor w i a)
          |intros k' c' Hc'; cbn; destruct (decide (k' = k)) as [->|Hk]; [rewrite lookup_insert_eq; simplify_eq; by eexists|rewrite lookup_insert_ne by done; eauto]
          |intros k' c' [[<- <-]|[_ Hc']]%lookup_insert_Some; [done|eauto]])).
  - assert (Hne : cuid c ≠ u) by (intros Hu; by apply (S2 k c Hc Hu)).
    destruct (Patch now (cuid c) (cfields c) (pstore w)) as [e s] eqn:E.
    refine (Life_caller w k c (goto _ c) s HL Hc eq_refl eq_refl _ _ _ HI); [done..|]. eapply Patch_other; [exact E|congruence].
Qed.

Lemma Life_step w w' : pstep w w' → alive w' → Life w → Life w'.
Proof.
  intros Hs Hal HL. pose proof (PInv_step w w' Hs (lf_inv _ HL)) as HI. pose proof (lf_settled _ HL) as [S1 S2].
  pose proof (lf_alive _ HL) as (Hpl & a0 & Ha0 & Hu0 & Hst0 & Hsp0).
  assert (Hsame : ∀ w', PInv w' → alive w' → actors w' = actors w → patched w' = patched w → pstore w' = pstore w → callers w' = callers w → Life w').
  { intros w1 HI1 Hal1 H1 H2 H3 H4. apply (Life_frame w _ []); try done.
    - split; [by rewrite H1|by rewrite H4].
    - by rewrite H2, app_nil_r.
    - unfold profileOf. by rewrite H1.
    - by rewrite H3.
    - intros k c Hc. exists c. by rewrite H4.
    - rewrite H4. eauto. }
  destruct Hs as [w u' ss|w u' room|w|w i a a' w' now Ha Hst E|w i a m rest now Ha Hst Hm|w i a Ha _ Hsp|w i a Ha Hst Hsp|w i a now Ha Hst|w k u' f Hk|w k c now Hc|w k c i Hc Hp].
  - unfold onSessionStart in *. destruct (players w !! u') eqn:Hu'; [done|]. apply (Life_frame w _ []); try done; cbn.
    + assert (u' ≠ u) by congruence. split; [|done]. cbn. intros i a [[<- <-]|[_ Ha]]%lookup_insert_Some; [done|by eapply S1].
    + by rewrite app_nil_r.
    + unfold profileOf. cbn. pose proof (pv_id _ (lf_inv _ HL) id ltac:(eauto)). by rewrite lookup_insert_ne by lia.
    + intros k c Hc. by exists c.
    + eauto.
  - by apply Hsame.
  - unfold stopNext in *. destruct (toStop w) as [|i rest]; [done|]. destruct (actors w !! i) as [a|] eqn:Ha.
    + rewrite (alter_alt_Some set_stopping _ i a) in * by done. apply (Life_frame w _ []); try done; cbn.
      * split; [|done]. cbn. intros j b [[<- <-]|[_ Hb]]%lookup_insert_Some; [exact (S1 i a Ha)|by eapply S1].
      * by rewrite app_nil_r.
      * by eapply (profileOf_actor w i a (set_stopping a)).
      * intros k c Hc. by exists c.
      * eauto.
    + rewrite alter_id' in * by done. by apply Hsame.
  - assert (Hi : i ≠ id) by congruence. assert (Hau : puid a ≠ u) by (eapply alive_actor; [apply HL|apply HL|done..|by rewrite Hst]).
    assert (Hw : puid a' = puid a ∧ (w' = w ∨ ∃ es, w' = say es w)) by (unfold Init in E; destruct (Load _ _ _); simplify_eq; eauto).
    destruct Hw as [Hu' Hw]. assert (Hfields : actors w' = actors w ∧ patched w' = patched w ∧ pstore w' = pstore w ∧ callers w' = callers w)
      by (destruct Hw as [->|[es ->]]; done). destruct Hfields as (F1 & F2 & F3 & F4). apply (Life_frame w _ []); try done; cbn.
    + split; cbn; [|by rewrite F4]. rewrite F1. intros j b [[<- <-]|[_ Hb]]%lookup_insert_Some; [cbn; intros; congruence|by eapply S1].
    + by rewrite F2, app_nil_r.
    + unfold profileOf. cbn. by rewrite F1, lookup_insert_ne.
    + by rewrite F3.
    + intros k c Hc. exists c. cbn. by rewrite F4.
    + rewrite F4. eauto.
  - destruct (decide (i = id)) as [->|Hi]; [by apply Life_own|by apply Life_foreign].
  - revert HI Hal. unfold Tell. rewrite Ha. destruct (pstage a) eqn:Hst; try done;
      (destruct (zlen (pmail a) <? playerMailbox); intros HI Hal; (eapply (Life_actor w i a); [done..|by rewrite Hst|done|done|done])).
  - apply (Life_actor w i a); try done. by rewrite Hst.
  - assert (Hi : i ≠ id) by congruence. assert (Hau : puid a ≠ u) by (eapply alive_actor; [apply HL|apply HL|done..|by rewrite Hst]).
    apply (Life_frame w _ []); try done; cbn.
    + split; [|done]. cbn. intros j b [[<- <-]|[_ Hb]]%lookup_insert_Some; [cbn; intros; congruence|by eapply S1].
    + by rewrite app_nil_r.
    + unfold profileOf. cbn. by rewrite lookup_insert_ne.
    + unfold OnStop. destruct (pprofile a) as [p|]; [|done]. destruct (SaveSync now (puid a) (Some p) (pstore w)) as [[e q] s] eqn:E.
      by eapply (saveWith_key sSetSync); [by right|exact E|].
    + intros k c Hc. by exists c.
    + eauto.
  - apply (Life_frame w _ []); try done; cbn.
    + split; [done|]. cbn. intros k' c' [[<- <-]|[_ Hc']]%lookup_insert_Some; [done|by eapply S2].
    + by rewrite app_nil_r.
    + intros k' c' Hc'. exists c'. cbn. rewrite lookup_insert_ne by congruence. done.
    + intros k' c' [[<- <-]|[_ Hc']]%lookup_insert_Some; [done|eauto].
  - by apply Life_patch.
  - apply (Life_caller w k c (goto (CGaveUp i) c) (pstore w)); done.
Qed.
End Life.

Definition reach s0 w : Prop := rtc pstep (newServer s0) w.
(** Runs in which the player's actor stays registered and is not told to stop. *)
Definition livesOn (u : string) (id : Z) : Server S → Server S → Prop := rtc (fun w w' => pstep w w' ∧ alive u id w').

(** C38. Patches are not lost while a player's actor lives, over a store that
    shows every write, also an asynchronous one, to the reads that follow
    ([VisibleWrites]: the in-memory store does; the write-back store of
    Storage.v does not, see [set_not_visible] and [queued_undoes_sync]): from any
    state in which the actor serves with the loaded profile [p0] and nobody else
    writes the profile, through any interleaving of sessions, actors,
    checkpoints, callers of Patch and failing writes, every call is applied at
    most once, the actor's profile is [p0] with the applied patches in order, and
    once a call has been answered with success the stored profile holds its
    patch, on top of all the patches before it; no call for the player bypasses
    the actor. *)
Theorem patches_kept s0 w0 w u id p0 :
  reach s0 w0 → alive u id w0 → settled u id w0 → profileOf w0 id = Some p0 → livesOn u id w0 w →
  let ks := appliedSince id (length (patched w0)) w in
  NoDup ks ∧
  (∃ p, profileOf w id = Some p ∧ stamp u 0 p = stamp u 0 (replayed w p0 ks)) ∧
  (∀ k c, callers w !! k = Some c → cuid c = u → cpc_ c = CDone None →
    (∃ c0, callers w0 !! k = Some c0 ∧ cpc_ c0 = CDone None) ∨ saved u id w0 p0 w k) ∧
  (∀ k c, callers w !! k = Some c → cuid c = u → cpc_ c ≠ CFallback).
Proof.
  intros Hr Hal Hs Hp Hl.
  assert (H0 : Life u id w0 p0 w0).
  { split; try done.
    - eapply (rtc_keeps pstep PInv); [apply PInv_step|exact Hr|apply PInv_new].
    - exists p0. unfold appliedSince. rewrite drop_ge by done. done.
    - intros k c Hc _ Hd. left. eauto. }
  assert (HL : Life u id w0 p0 w).
  { eapply (rtc_keeps _ (Life u id w0 p0)); [|exact Hl|exact H0]. intros w1 w2 [Hst Ha2]. by apply Life_step. }
  split_and!.
  - eapply sublist_NoDup; [apply (pv_once _ (lf_inv _ _ _ _ _ HL))|]. unfold appliedSince, own.
    apply fmap_sublist. etrans; [apply sublist_filter|apply sublist_drop].
  - apply HL.
  - apply HL.
  - intros k c Hc Hu. exact (proj1 (proj2 (lf_settled _ _ _ _ _ HL) k c Hc Hu)).
Qed.
End Thm.

(** ** Examples *)

(** Runs as lists of actions. *)
Inductive pact := AStart (u : string) | ARelease (u : string) | AStop | AInit (i : Z) | AMsg (i : Z) | ATick (i : Z) | AFinish (i : Z)
  | AOnStop (i : Z) | ACall (k : nat) (u : string) (f : list (string * any)) | ACaller (k : nat).

Definition stageIs (s : stage) (a : playerActor) : bool :=
  match s, pstage a with Starting, Starting | Serving, Serving | Finished, Finished | Gone, Gone => true | _, _ => false end.
Lemma stageIs_eq s a : stageIs s a = true → pstage a = s.
Proof. unfold stageIs. by destruct s, (pstage a). Qed.

Definition doAct (x : pact) (w : Server MemoryStorage) : option (Server MemoryStorage) :=
  match x with
  | AStart u => Some (onSessionStart u 1 w)
  | ARelease u => Some (onSessionRelease u "" w)
  | AStop => Some (stopNext w)
  | AInit i => a ← actors w !! i;
      if stageIs Starting a then let '(a', w') := Init 60 0 a w in Some (set_actor i (set_stage (if pstopping a then Finished else Serving) a') w') else None
  | AMsg i => a ← actors w !! i;
      if stageIs Serving a then match pmail a with m :: rest => Some (OnMessage 0 i m (set_mail rest a) w) | [] => None end else None
  | ATick i => a ← actors w !! i; if pticking a && negb (pstopping a) then Some (snd (Tell i MCheckpoint w)) else None
  | AFinish i => a ← actors w !! i; if stageIs Serving a && pstopping a then Some (set_actor i (set_stage Finished a) w) else None
  | AOnStop i => a ← actors w !! i;
      if stageIs Finished a then Some (set_actor i (set_stage Gone a) (set_store (OnStop 0 a (pstore w)) w)) else None
  | ACall k u f => match callers w !! k with None => Some (set_caller k (mkCaller u f CResolve) w) | _ => None end
  | ACaller k => c ← callers w !! k; Some (patchStep 0 k c w)
  end.
Fixpoint doAll (xs : list pact) (w : Server MemoryStorage) : option (Server MemoryStorage) :=
  match xs with [] => Some w | x :: xs => w ← doAct x w; doAll xs w end.

Lemma doAct_step x w w' : doAct x w = Some w' → pstep 60 w w'.
Proof.
  destruct x; cbn [doAct]; try (intros [= <-]; constructor); intros E.
  - destruct (actors w !! i) as [a|] eqn:Ha; [|done]. cbn [mbind option_bind] in E. destruct (stageIs Starting a) eqn:Hs; [|done]. apply stageIs_eq in Hs.
    destruct (Init 60 0 a w) as [a' w1] eqn:Ei. simplify_eq. by eapply ps_init.
  - destruct (actors w !! i) as [a|] eqn:Ha; [|done]. cbn [mbind option_bind] in E. destruct (stageIs Serving a) eqn:Hs; [|done]. apply stageIs_eq in Hs.
    destruct (pmail a) as [|m rest] eqn:Hm; [done|]. injection E as <-. by eapply ps_message.
  - destruct (actors w !! i) as [a|] eqn:Ha; [|done]. cbn [mbind option_bind] in E. destruct (pticking a) eqn:Ht, (pstopping a) eqn:Hp; try done.
    injection E as <-. by eapply ps_tick.
  - destruct (actors w !! i) as [a|] eqn:Ha; [|done]. cbn [mbind option_bind] in E. destruct (stageIs Serving a) eqn:Hs; [|done]. apply stageIs_eq in Hs.
    destruct (pstopping a) eqn:Hp; [|done]. injection E as <-. by apply ps_finish.
  - destruct (actors w !! i) as [a|] eqn:Ha; [|done]. cbn [mbind option_bind] in E. destruct (stageIs Finished a) eqn:Hs; [|done]. apply stageIs_eq in Hs.
    injection E as <-. by apply ps_onstop.
  - destruct (callers w !! k) eqn:Hk; [done|]. injection E as <-. by apply ps_call.
  - destruct (callers w !! k) as [c|] eqn:Hk; [|done]. injection E as <-. by apply ps_caller.
Qed.
Lemma doAll_reach xs w w' : doAll xs w = Some w' → rtc (pstep 60) w w'.
Proof.
  revert w. induction xs as [|x xs IH]; intros w; cbn; [intros [= <-]; apply rtc_refl|].
  destruct (doAct x w) as [w1|] eqn:E; [|done]. intros H%IH. eapply rtc_l; [by eapply doAct_step|done].
Qed.

Definition store0 : MemoryStorage := NewMemoryStorage.
Definition after (xs : list pact) : Server MemoryStorage := default (newServer store0) (doAll xs (newServer store0)).
Definition seven : list (string * any) := [("level"%string, anyInt 7)].
Definition isDone (w : Server MemoryStorage) (k : nat) : bool :=
  match callers w !! k with Some c => match cpc_ c with CDone None => true | _ => false end | None => false end.
Definition levelOf (w : Server MemoryStorage) : option Z := match Load 0 "u1" (pstore w) with inr p => Some (Level p) | inl _ => None end.
Lemma after_reach xs : is_Some (doAll xs (newServer store0)) → reach 60 store0 (after xs).
Proof. unfold after. intros [w E]. rewrite E. by apply (doAll_reach xs). Qed.

(** A player logs in and the profile is loaded; a room patches the level. *)
Definition demoW0 : Server MemoryStorage := after [AStart "u1"; AInit 1].
Definition demoPatch : list pact := [ACall 0 "u1" seven; ACaller 0; ACaller 0; AMsg 1].

Definition aliveb (w : Server MemoryStorage) : bool :=
  bool_decide (players w !! "u1"%string = Some 1) &&
  match actors w !! 1 with Some a => bool_decide (puid a = "u1"%string) && stageIs Serving a && negb (pstopping a) | None => false end.
Lemma aliveb_alive w : aliveb w = true → alive "u1" 1 w.
Proof.
  unfold aliveb. destruct (actors w !! 1) as [a|] eqn:Ha; [|by rewrite andb_false_r]. rewrite !andb_true_iff.
  intros [H1%bool_decide_eq_true [[H2%bool_decide_eq_true H3%stageIs_eq] H4%negb_true_iff]]. split; [done|]. by exists a.
Qed.
Fixpoint doLives (xs : list pact) (w : Server MemoryStorage) : option (Server MemoryStorage) :=
  match xs with [] => Some w | x :: xs => w ← doAct x w; if aliveb w then doLives xs w else None end.
Lemma doLives_livesOn xs w w' : doLives xs w = Some w' → livesOn 60 "u1" 1 w w'.
Proof.
  revert w. induction xs as [|x xs IH]; intros w; cbn [doLives]; [intros [= <-]; apply rtc_refl|].
  destruct (doAct x w) as [w1|] eqn:E; [|done]. cbn [mbind option_bind]. destruct (aliveb w1) eqn:Ha; [|done]. intros H%IH.
  eapply rtc_l; [split; [by eapply doAct_step|by apply aliveb_alive]|done].
Qed.
Definition demoW1 : Server MemoryStorage := default demoW0 (doLives demoPatch demoW0).
Definition demoP0 : PlayerProfile := stamp "u1" 0 zeroProfile.

Lemma demoW0_settled : settled "u1" 1 demoW0.
Proof.
  split; [|by intros k c Hc]. intros i a Ha _. left. vm_compute in Ha. destruct i as [|[]|]; try done.
Qed.

Lemma patches_kept_witness : saved "u1" 1 demoW0 demoP0 demoW1 0 ∧ levelOf demoW1 = Some 7.
Proof.
  split; [|vm_compute; reflexivity].
  destruct (patches_kept 60 store0 demoW0 demoW1 "u1" 1 demoP0) as (_ & _ & H & _).
  - apply after_reach. vm_compute. by eexists.
  - apply aliveb_alive. vm_compute. reflexivity.
  - exact demoW0_settled.
  - vm_compute. reflexivity.
  - apply (doLives_livesOn demoPatch). vm_compute. reflexivity.
  - destruct (H 0%nat (mkCaller "u1" seven (CDone None))) as [(c0 & Hc0 & _)|Hs]; [vm_compute; reflexivity..| |exact Hs].
    vm_compute in Hc0. discriminate.
Defined.

(** Finding.  The comment of the router says that a patch which finds no actor can
    go to the store, since nobody will overwrite it.  A released session is
    unregistered before its actor is stopped: a patch in between is stored and
    answered with success, and then the actor's last save puts the old profile back. *)
Theorem release_loses_patch :
  let w := after [AStart "u1"; AInit 1; ACall 0 "u1" seven; ARelease "u1"; ACaller 0; ACaller 0; AStop; AFinish 1; AOnStop 1] in
  reach 60 store0 w ∧ isDone w 0 = true ∧ levelOf w = Some 0.
Proof. split_and!; [apply after_reach; vm_compute; by eexists|vm_compute; reflexivity..]. Qed.

(** Finding.  When a player logs in again, the new actor may load the profile
    before the old one has drained its mailbox: the patch the old actor saves and
    answers is overwritten by the next checkpoint of the new one. *)
Theorem relogin_loses_patch :
  let w := after [AStart "u1"; AInit 1; ACall 0 "u1" seven; ACaller 0; ACaller 0; ARelease "u1"; AStop; AStart "u1"; AInit 2;
                  AMsg 1; AFinish 1; AOnStop 1; ATick 2; AMsg 2] in
  reach 60 store0 w ∧ isDone w 0 = true ∧ levelOf w = Some 0.
Proof. split_and!; [apply after_reach; vm_compute; by eexists|vm_compute; reflexivity..]. Qed.

(** Finding.  A full mailbox refuses the patch and the router turns to the store
    although the actor still runs: its next save puts the old profile back. *)
Theorem full_mailbox_loses_patch :
  let w := after ([AStart "u1"; AInit 1] ++ replicate 1024 (ATick 1) ++ [ACall 0 "u1" seven; ACaller 0; ACaller 0; ACaller 0; AMsg 1]) in
  reach 60 store0 w ∧ isDone w 0 = true ∧ levelOf w = Some 0.
Proof. split_and!; [apply after_reach; vm_compute; by eexists|vm_compute; reflexivity..]. Qed.

(** Finding.  An actor that was stopped by a full mailbox stays registered: the
    start of the next session of a reconnecting player leaves it alone, and the
    player has no actor. *)
Theorem kicked_not_respawned :
  let w := after ([AStart "u1"; AInit 1] ++ replicate 1025 (ATick 1) ++ replicate 1024 (AMsg 1) ++ [AFinish 1; AOnStop 1; AStart "u1"]) in
  reach 60 store0 w ∧ players w !! "u1"%string = Some 1 ∧ (pstage <$> actors w !! 1) = Some Gone ∧ actors w !! 2 = None.
Proof. split_and!; [apply after_reach; vm_compute; by eexists|vm_compute; reflexivity..]. Qed.
