(* ===== verification/Admin.v ===== *)
(** * The administration interface (internal/admin/admin.go; StartClusterDrain of
    internal/app/role.go)

    One function per endpoint from a request to a response; only the drain
    callback changes anything outside, here the world [W].  Parsing of addresses
    and durations belongs to the standard library and is given by parameters.
    Requests have clean paths (the mux redirects the others). *)

From Stdlib Require Import Ascii.
From S2P Require Import Prelude Redis Registry MemStore Profile Obs Drain.

Definition minute : Z := 60 * 10^9.

Record request := mkReq { method : string; path : string; query : string → string; xForwardedFor : string; remoteAddr : string }.

Inductive body :=
| BText (s : string)
| BError (s : string)
| BNoRegistry
| BNodes (ns : list NodeInfo)
| BMetrics (ls : list (line (F := Z)))
| BEmpty
| BDrained
| BProfile (p : PlayerProfile)
| BProfiles (ps : gmap string PlayerProfile).
Record response := mkResp { status : Z; rbody : body }.

Definition StatusOK : Z := 200.
Definition StatusBadRequest : Z := 400.
Definition StatusForbidden : Z := 403.
Definition StatusNotFound : Z := 404.
Definition StatusMethodNotAllowed : Z := 405.
Definition StatusInternalServerError : Z := 500.
Definition StatusNotImplemented : Z := 501.
Definition StatusServiceUnavailable : Z := 503.
Definition StatusGatewayTimeout : Z := 504.

(** strings.Split at a comma. *)
Fixpoint splitComma (cur s : string) : list string :=
  match s with
  | EmptyString => [cur]
  | String a s' => if Ascii.eqb a "," then cur :: splitComma "" s' else splitComma (cur +:+ String a EmptyString) s'
  end.

Section Admin.
Context {W : Type}.
(** The host of host:port; whether a host is an IP address and a loopback one; a
    duration in nanoseconds. *)
Context (splitHostPort : string → option string) (parseLoopback : string → option bool) (parseDuration : string → option Z).

(** What [NewServer] is given beside the parts it calls. *)
Record Config := mkConfig { Addr : string; TrustedCIDRs : list string; DrainDeadline : Z }.

(** A callback of the drain: whether it succeeded and the world afterwards, or a
    panic ([None]). *)
Definition DrainFn : Type := Z → W → option (bool * W).
(** [profileQ]: a query of one player and of many. *)
Record profileService := mkPS { psQuery : string → option PlayerProfile; psBatch : list string → gmap string PlayerProfile }.

Record Server := mkServer {
  addr : string;
  exporter : option (PrometheusExporter (F := Z));
  registry : option (option (list NodeInfo));   (** what [List] answers, when there is a registry *)
  profileQ : option profileService;
  ready : bool;
  drainFn : option DrainFn;
  closed : bool }.

Definition NewServer (cfg : Config) (e : option PrometheusExporter) (r : option (option (list NodeInfo))) (d : option DrainFn)
    (q : option profileService) : Server :=
  mkServer (Addr cfg) e r q false d false.
Definition SetReady (b : bool) (s : Server) : Server := mkServer (addr s) (exporter s) (registry s) (profileQ s) b (drainFn s) (closed s).
Definition SetDrainFn (d : DrainFn) (s : Server) : Server := mkServer (addr s) (exporter s) (registry s) (profileQ s) (ready s) (Some d) (closed s).
Definition SetProfileQueryService (q : profileService) (s : Server) : Server :=
  mkServer (addr s) (exporter s) (registry s) (Some q) (ready s) (drainFn s) (closed s).
Definition Shutdown (s : Server) : Server := mkServer (addr s) (exporter s) (registry s) (profileQ s) (ready s) (drainFn s) true.

(** ** Endpoints *)

Definition handler : Type := Server → request → W → res (response * W).

Definition handleHealthz : handler := fun s r w => Ok (mkResp StatusOK (BText "ok"), w).
Definition handleReadyz : handler := fun s r w =>
  Ok (if ready s then mkResp StatusOK (BText "ready") else mkResp StatusServiceUnavailable (BText "not ready"), w).
Definition handleMetrics (taken : nat) : handler := fun s r w =>
  Ok (match exporter s with None => mkResp StatusNotImplemented BEmpty | Some e => mkResp StatusOK (BMetrics (PrometheusText taken e)) end, w).

Definition handleNodes : handler := fun s r w =>
  Ok (match registry s with
      | None => mkResp StatusOK BNoRegistry
      | Some None => mkResp StatusInternalServerError (BError "list failed")
      | Some (Some ns) => mkResp StatusOK (BNodes ns)
      end, w).

(** The time limit a request asks for: a limit that does not parse is ignored. *)
Definition drainDeadline (r : request) : Z :=
  let d := query r "deadline" in
  if decide (d = ""%string) then 20 * minute else default (20 * minute) (parseDuration d).
Definition handleDrain : handler := fun s r w =>
  if decide (method r ≠ "POST"%string) then Ok (mkResp StatusMethodNotAllowed (BError "POST required"), w) else
  match drainFn s with
  | None => Ok (mkResp StatusBadRequest (BError "drain not available"), w)
  | Some fn =>
      match fn (drainDeadline r) w with
      | None => Panic
      | Some (ok, w) => Ok (if ok : bool then mkResp StatusOK BDrained else mkResp StatusGatewayTimeout (BError "drain_timeout"), w)
      end
  end.

Definition playersPrefix : string := "/admin/players/".
Definition handlePlayerProfile : handler := fun s r w =>
  if decide (method r ≠ "GET"%string) then Ok (mkResp StatusMethodNotAllowed (BError "GET required"), w) else
  match profileQ s with
  | None => Ok (mkResp StatusNotImplemented (BError "profile_query_unavailable"), w)
  | Some q =>
      let uid := default (path r) (cutPrefix playersPrefix (path r)) in
      if decide (uid = ""%string) then Ok (mkResp StatusBadRequest (BError "uid required"), w) else
      let batch := query r "batch" in
      Ok (if decide (batch = ""%string) then
            match psQuery q uid with
            | None => mkResp StatusInternalServerError (BError "query failed")
            | Some p => mkResp StatusOK (BProfile p)
            end
          else mkResp StatusOK (BProfiles (psBatch q (splitComma "" batch))), w)
  end.

(** ** Middleware *)

Definition ipGuard (h : handler) : handler := fun s r w =>
  if decide (xForwardedFor r ≠ ""%string) then Ok (mkResp StatusForbidden (BError "external source rejected"), w) else
  match splitHostPort (remoteAddr r) with
  | None => Ok (mkResp StatusForbidden (BError "bad remote addr"), w)
  | Some host =>
      match parseLoopback host with
      | Some true => h s r w
      | _ => Ok (mkResp StatusForbidden (BError "non-loopback source rejected"), w)
      end
  end.

(** A panic of a handler is answered; what the callback did before is unknown. *)
Definition withRecover (h : handler) (after : W) : handler := fun s r w =>
  match h s r w with
  | Panic => Ok (mkResp StatusInternalServerError (BError "internal error"), after)
  | x => x
  end.

Definition hasPrefix (p s : string) : bool := match cutPrefix p s with Some _ => true | None => false end.
Definition mux (taken : nat) : handler := fun s r w =>
  let p := path r in
  if String.eqb p "/healthz" then handleHealthz s r w
  else if String.eqb p "/readyz" then handleReadyz s r w
  else if String.eqb p "/metrics" then handleMetrics taken s r w
  else if String.eqb p "/admin/nodes" then ipGuard handleNodes s r w
  else if String.eqb p "/admin/drain" then ipGuard handleDrain s r w
  else if hasPrefix playersPrefix p then ipGuard handlePlayerProfile s r w
  else Ok (mkResp StatusNotFound (BText "404 page not found"), w).

Definition serveHTTP (taken : nat) (after : W) : handler := withRecover (mux taken) after.

(** ** Theorems *)

(** A request of the node itself, not through a proxy. *)
Definition local (r : request) : Prop := xForwardedFor r = ""%string ∧ ∃ h, splitHostPort (remoteAddr r) = Some h ∧ parseLoopback h = Some true.

Lemma ipGuard_cases h s r w : (local r ∧ ipGuard h s r w = h s r w) ∨ ∃ e, ipGuard h s r w = Ok (mkResp StatusForbidden (BError e), w).
Proof.
  unfold ipGuard, local. case_decide as Hx; [by eauto|]. destruct (splitHostPort (remoteAddr r)) as [host|]; [|by eauto].
  destruct (parseLoopback host) as [[]|] eqn:Hl; [left|by eauto..]. split; [|done]. split; [destruct (decide (xForwardedFor r = ""%string)); [done|by destruct Hx]|eauto].
Qed.

(** The administration interface is closed to other hosts and only drains:
    every request is answered; whatever is under /admin that exists is answered
    with 403 unless the request comes from the node itself and through no proxy;
    and a request changes the node only if it is such a local POST to /admin/drain
    on a node with a drain callback, which is called once with the time limit of
    the request. *)
Theorem admin_closed taken after s r w :
  ∃ resp w', serveHTTP taken after s r w = Ok (resp, w') ∧
    (hasPrefix "/admin/" (path r) = true → status resp ≠ StatusForbidden → status resp ≠ StatusNotFound → local r) ∧
    (w' ≠ w → path r = "/admin/drain"%string ∧ local r ∧ method r = "POST"%string ∧
       ∃ fn, drainFn s = Some fn ∧ (fn (drainDeadline r) w = None ∧ w' = after ∨ ∃ ok, fn (drainDeadline r) w = Some (ok, w'))).
Proof.
  unfold serveHTTP, withRecover, mux.
  assert (Hkeep : ∀ resp, (hasPrefix "/admin/" (path r) = true → status resp ≠ StatusForbidden → status resp ≠ StatusNotFound → local r) →
    ∃ resp' w', Ok (resp, w) = Ok (resp', w') ∧
      (hasPrefix "/admin/" (path r) = true → status resp' ≠ StatusForbidden → status resp' ≠ StatusNotFound → local r) ∧
      (w' ≠ w → path r = "/admin/drain"%string ∧ local r ∧ method r = "POST"%string ∧
       ∃ fn, drainFn s = Some fn ∧ (fn (drainDeadline r) w = None ∧ w' = after ∨ ∃ ok, fn (drainDeadline r) w = Some (ok, w')))) by (intros resp Hr; exists resp, w; split; [done|]; split; [done|]; by intros []).
  assert (Hout : ∀ p, path r = p → hasPrefix "/admin/" p = false → hasPrefix "/admin/" (path r) ≠ true) by (intros p -> ->; done).
  destruct (String.eqb_spec (path r) "/healthz") as [Hp|_]; [apply Hkeep; intros Hx; by destruct (Hout _ Hp eq_refl Hx)|].
  destruct (String.eqb_spec (path r) "/readyz") as [Hp|_]; [apply Hkeep; intros Hx; by destruct (Hout _ Hp eq_refl Hx)|].
  destruct (String.eqb_spec (path r) "/metrics") as [Hp|_]; [apply Hkeep; intros Hx; by destruct (Hout _ Hp eq_refl Hx)|].
  destruct (String.eqb_spec (path r) "/admin/nodes") as [Hp|_].
  { destruct (ipGuard_cases handleNodes s r w) as [[Hl ->]|[e ->]]; by apply Hkeep. }
  destruct (String.eqb_spec (path r) "/admin/drain") as [Hp|_].
  { destruct (ipGuard_cases handleDrain s r w) as [[Hl ->]|[e ->]]; [|by apply Hkeep]. unfold handleDrain.
    case_decide as Hm; [by apply Hkeep|]. assert (Hpost : method r = "POST"%string) by (destruct (decide (method r = "POST"%string)); [done|by destruct Hm]). destruct (drainFn s) as [fn|] eqn:Hf; [|by apply Hkeep].
    destruct (fn (drainDeadline r) w) as [[ok w1]|] eqn:E; do 2 eexists; (split; [reflexivity|]); (split; [done|]); intros _; eauto 10. }
  destruct (hasPrefix playersPrefix (path r)).
  { destruct (ipGuard_cases handlePlayerProfile s r w) as [[Hl ->]|[e ->]]; [|by apply Hkeep]. unfold handlePlayerProfile.
    case_decide; [by apply Hkeep|]. destruct (profileQ s) as [q|]; [|by apply Hkeep]. case_decide; by apply Hkeep. }
  apply Hkeep. by intros _ _ [].
Qed.

(** Finding.  The trusted networks and the default time limit of the configuration
    are dropped: documented to admit other sources and to set the limit of a drain,
    they have no effect. *)
Theorem config_ignored cfg nets dl e reg d q :
  NewServer cfg e reg d q = NewServer (mkConfig (Addr cfg) nets dl) e reg d q.
Proof. done. Qed.
End Admin.
