(* ===== verification/Match.v ===== *)
(** * The in-process matchmaker (internal/match/match.go)

    [Maker] keeps one queue of requests per module and rule code, and the queue
    each waiting player is in.  Tables are opened through the room manager,
    which the matchmaker sees as [RoomService]; its theorems are proved against
    that interface.  The notifications of [ResultFunc] are collected in order. *)

From S2P Require Import Prelude Envelope.

Record Rule := mkRule { Module_ : string; rCode : string; Players : Z }.
Record entry := mkEntry { eUID : string; eSeq : Z; eRule : Rule }.

(** What the matchmaker calls of [room.Manager]; [R] is its state. A call that
    never returns is [OutOfFuel]: [Join] waits for the answer of the room. *)
Class RoomService (R E : Type) := {
  CreateRoom : string → R → res ((E + string) * R);
  Join : string → string → R → res (option E * R);
  Leave : string → string → R → res R }.

(** What the matchmaker relies on: every call returns, be it with an error. *)
Class RoomsAnswer (R E : Type) `{RS : RoomService R E} : Prop := {
  create_returns module r : ∃ x, CreateRoom module r = Ok x;
  join_returns room uid r : ∃ x, Join room uid r = Ok x;
  leave_returns room uid r : ∃ x, Leave room uid r = Ok x }.

Inductive merr := ErrAlreadyQueued | ErrBadRule.

Section Match.
Context {R E : Type} `{RS : RoomService R E}.

(** One call of [onResult]: the player, the sequence number of the request, and
    the room or the error. *)
Record result := mkResult { resUID : string; resSeq : Z; resRoom : string; resErr : option E }.

Record Maker := mkMaker {
  queues : gmap string (list entry);
  byUID : gmap string string;
  rooms : R;
  results : list result }.

Definition New (r : R) : Maker := mkMaker ∅ ∅ r [].

Definition queueKeyStr (module code : string) : string := (module +:+ "|" +:+ code)%string.
Definition queueKey (r : Rule) : string := queueKeyStr (Module_ r) (rCode r).

(** A missing queue of the Go map is the nil slice. *)
Definition queue (m : Maker) (key : string) : list entry := default [] (queues m !! key).

Definition notifyAll (matched : list entry) (roomID : string) (err : option E) (m : Maker) : Maker :=
  mkMaker (queues m) (byUID m) (rooms m)
    (results m ++ map (fun e => mkResult (eUID e) (eSeq e) roomID err) matched).

Definition set_rooms (r : R) (m : Maker) : Maker := mkMaker (queues m) (byUID m) r (results m).

(** The players before [uid] leave the room again. *)
Fixpoint leaveBefore (roomID uid : string) (l : list entry) (r : R) : res R :=
  match l with
  | [] => Ok r
  | j :: l' =>
      if decide (eUID j = uid) then Ok r else
      let! r := Leave roomID (eUID j) r in leaveBefore roomID uid l' r
  end.

Fixpoint joinAll (roomID : string) (todo : list entry) (r : R) : res (option (entry * E) * R) :=
  match todo with
  | [] => Ok (None, r)
  | e :: todo' =>
      let! (err, r) := Join roomID (eUID e) r in
      match err with
      | Some err => Ok (Some (e, err), r)
      | None => joinAll roomID todo' r
      end
  end.

(** [matched[0]] panics on an empty table. *)
Definition settle (matched : list entry) (m : Maker) : res Maker :=
  match matched with
  | [] => Panic
  | first :: _ =>
      let! (room, r) := CreateRoom (Module_ (eRule first)) (rooms m) in
      match room with
      | inl err => Ok (notifyAll matched "" (Some err) (set_rooms r m))
      | inr roomID =>
          let! (failed, r) := joinAll roomID matched r in
          match failed with
          | Some (e, err) =>
              let! r := leaveBefore roomID (eUID e) matched r in
              Ok (notifyAll matched "" (Some err) (set_rooms r m))
          | None => Ok (notifyAll matched roomID None (set_rooms r m))
          end
      end
  end.

Definition dropAll (l : list entry) (b : gmap string string) : gmap string string :=
  foldl (fun b e => delete (eUID e) b) b l.

Definition Enqueue (uid : string) (rule : Rule) (seq : Z) (m : Maker) : res (option merr * Maker) :=
  if decide (Module_ rule = ""%string ∨ Players rule ≤ 0) then Ok (Some ErrBadRule, m) else
  let key := queueKey rule in
  if decide (is_Some (byUID m !! uid)) then Ok (Some ErrAlreadyQueued, m) else
  let q := queue m key ++ [mkEntry uid seq rule] in
  if zlen q <? Players rule then
    Ok (None, mkMaker (<[key := q]> (queues m)) (<[uid := key]> (byUID m)) (rooms m) (results m))
  else
    let! matched := slice q 0 (Players rule) in
    let! remain := slice q (Players rule) (zlen q) in
    let m := mkMaker (<[key := remain]> (queues m)) (dropAll matched (byUID m)) (rooms m) (results m) in
    let! m := settle matched m in
    Ok (None, m).

Fixpoint removeEntry (uid : string) (q : list entry) : list entry :=
  match q with
  | [] => []
  | e :: q' => if decide (eUID e = uid) then q' else e :: removeEntry uid q'
  end.

Definition Cancel (uid : string) (m : Maker) : bool * Maker :=
  match byUID m !! uid with
  | None => (false, m)
  | Some key =>
      let q := queue m key in
      (* the queue is assigned only when the loop finds the player *)
      let qs := if existsb (fun e => bool_decide (eUID e = uid)) q
                then <[key := removeEntry uid q]> (queues m) else queues m in
      (true, mkMaker qs (delete uid (byUID m)) (rooms m) (results m))
  end.

Definition QueueDepth (module code : string) (m : Maker) : Z := zlen (queue m (queueKeyStr module code)).

(** ** The request handlers of the server (internal/app/server.go) *)

(** [defs]: the match rule of each registered module's room definition. *)
Definition matchRuleFor (defs : gmap string Rule) (module code : string) : Rule :=
  match defs !! module with
  | Some r =>
      if 0 <? Players r
      then mkRule (if decide (Module_ r = ""%string) then module else Module_ r) code (Players r)
      else mkRule module code 1
  | None => mkRule module code 1
  end.

Definition mapMatchErr (e : merr) : ErrCode :=
  match e with
  | ErrAlreadyQueued => NewErr ErrInQueue []
  | ErrBadRule => NewErr ErrDecode (str "unknown match module")
  end.

(** The handler of [MsgMatch]: no response body, the outcome follows through
    [onResult]. *)
Definition handleMatch (defs : gmap string Rule) (uid module code : string) (seq : Z) (m : Maker)
    : res (option ErrCode * Maker) :=
  let! (e, m) := Enqueue uid (matchRuleFor defs module code) seq m in
  Ok (option_map mapMatchErr e, m).

(** The handler of [MsgMatchCancel] answers with an empty body. *)
Definition handleMatchCancel (uid : string) (m : Maker) : res (option ErrCode * Maker) := Ok (None, m).

(** ** The waiting players *)

Definition uids (l : list entry) : list string := map eUID l.

(** The number of players a queue waits for: the callers take it from the
    module's room definition, so it depends on the queue only. *)
Variable size : string → Z.

(** Every waiting player is in exactly one queue, the one [byUID] names, once;
    no queue holds a full table. *)
Record MInv (m : Maker) : Prop := {
  mi_once : ∀ key, NoDup (uids (queue m key));
  mi_index : ∀ uid key, byUID m !! uid = Some key ↔ uid ∈ uids (queue m key);
  mi_short : ∀ key, queue m key = [] ∨ zlen (queue m key) < size key }.

Inductive mstep : Maker → Maker → Prop :=
| ms_enqueue uid rule seq m e m' : Players rule = size (queueKey rule) →
    Enqueue uid rule seq m = Ok (e, m') → mstep m m'
| ms_cancel uid m : mstep m (Cancel uid m).2
| ms_rooms r m : mstep m (set_rooms r m).

Inductive mreach (r0 : R) : Maker → Prop :=
| mr_new : mreach r0 (New r0)
| mr_step m m' : mreach r0 m → mstep m m' → mreach r0 m'.

Lemma queue_insert m qs b r rs key q key' :
  qs = <[key := q]> (queues m) →
  queue (mkMaker qs b r rs) key' = if decide (key' = key) then q else queue m key'.
Proof.
  intros ->. unfold queue. cbn [queues]. case_decide; [subst; by rewrite lookup_insert_eq|].
  by rewrite lookup_insert_ne.
Qed.

Lemma dropAll_lookup l : ∀ b uid,
  dropAll l b !! uid = if decide (uid ∈ uids l) then None else b !! uid.
Proof.
  induction l as [|e l IH]; intros b uid; cbn; [rewrite decide_False by (by intros ?%elem_of_nil); done|].
  change (foldl _ _ l) with (dropAll l (delete (eUID e) b)). rewrite IH.
  destruct (decide (uid ∈ uids l)) as [Hin|Hni].
  - rewrite decide_True by (by right). done.
  - destruct (decide (uid = eUID e)) as [->|Hne].
    + rewrite lookup_delete_eq. by rewrite decide_True by left.
    + rewrite lookup_delete_ne by done. rewrite decide_False; [done|].
      by intros [?|?]%elem_of_cons.
Qed.

Lemma settle_keeps matched m m' : settle matched m = Ok m' →
  ∃ rid err, queues m' = queues m ∧ byUID m' = byUID m ∧
    results m' = results m ++ map (fun e => mkResult (eUID e) (eSeq e) rid err) matched ∧
    (is_Some err → rid = ""%string).
Proof.
  unfold settle. destruct matched as [|first rest]; [done|].
  destruct (CreateRoom _ _) as [[[err|rid] r]| |]; cbn [rbind]; [|.. |done|done].
  - intros [= <-]. by exists ""%string, (Some err).
  - destruct (joinAll _ _ r) as [[[[e err]|] r']| |]; cbn [rbind]; [|..|done|done].
    + destruct (leaveBefore _ _ _ r') as [r''| |]; cbn [rbind]; [|done..].
      intros [= <-]. by exists ""%string, (Some err).
    + intros [= <-]. exists rid, None. split_and!; [done..|by intros []].
Qed.

Lemma joinAll_returns `{!RoomsAnswer R E} room l r : ∃ x, joinAll room l r = Ok x.
Proof.
  revert r. induction l as [|e l IH]; intros r; cbn [joinAll]; [by eexists|].
  destruct (join_returns room (eUID e) r) as [[[err|] r'] ->]; cbn [rbind]; [by eexists|apply IH].
Qed.
Lemma leaveBefore_returns `{!RoomsAnswer R E} room uid l r : ∃ x, leaveBefore room uid l r = Ok x.
Proof.
  revert r. induction l as [|e l IH]; intros r; cbn [leaveBefore]; [by eexists|]. case_decide; [by eexists|].
  destruct (leave_returns room (eUID e) r) as [r' ->]. apply IH.
Qed.
Lemma settle_returns `{!RoomsAnswer R E} matched m : matched ≠ [] → ∃ m', settle matched m = Ok m'.
Proof.
  unfold settle. destruct matched as [|first rest]; [done|]. intros _.
  destruct (create_returns (Module_ (eRule first)) (rooms m)) as [[[err|rid] r] ->]; cbn [rbind]; [by eexists|].
  destruct (joinAll_returns rid (first :: rest) r) as [[[[e err]|] r'] ->]; cbn [rbind]; [|by eexists].
  destruct (leaveBefore_returns rid (eUID e) (first :: rest) r') as [r'' ->]. by eexists.
Qed.

Lemma uids_removeEntry uid q : uids (removeEntry uid q) = remove_first uid (uids q).
Proof. unfold uids. induction q as [|e q IH]; [done|]. cbn. case_decide; [done|]. cbn. by rewrite IH. Qed.

(** ** Preservation *)

Definition validRule (rule : Rule) : Prop := Module_ rule ≠ ""%string ∧ 0 < Players rule.
#[export] Instance validRule_dec rule : Decision (validRule rule).
Proof. unfold validRule. apply _. Defined.

(** The queue of an accepted request, the new player last. *)
Definition arrived (uid : string) (rule : Rule) (seq : Z) (m : Maker) : list entry :=
  queue m (queueKey rule) ++ [mkEntry uid seq rule].

Lemma Enqueue_waits uid rule seq m :
  validRule rule → byUID m !! uid = None → zlen (arrived uid rule seq m) < Players rule →
  Enqueue uid rule seq m =
    Ok (None, mkMaker (<[queueKey rule := arrived uid rule seq m]> (queues m))
                      (<[uid := queueKey rule]> (byUID m)) (rooms m) (results m)).
Proof.
  intros [Hm Hp] Hb Hz. unfold Enqueue. rewrite decide_False by (intros [?|?]; [done|lia]).
  rewrite Hb, decide_False by (by intros []). fold (arrived uid rule seq m).
  by rewrite (proj2 (Z.ltb_lt _ _)).
Qed.

(** A request that completes a table leaves the rest to [settle]. *)
Lemma Enqueue_settles uid rule seq m :
  validRule rule → byUID m !! uid = None → Players rule ≤ zlen (arrived uid rule seq m) →
  let n := Z.to_nat (Players rule) in
  let q := arrived uid rule seq m in
  Enqueue uid rule seq m =
    let! m := settle (take n q) (mkMaker (<[queueKey rule := drop n q]> (queues m))
                (dropAll (take n q) (byUID m)) (rooms m) (results m)) in Ok (None, m).
Proof.
  intros [Hm Hp] Hb Hz n q.
  unfold Enqueue. rewrite decide_False by (intros [?|?]; [done|lia]).
  rewrite Hb, decide_False by (by intros []). fold (arrived uid rule seq m). fold q. fold q in Hz.
  rewrite (proj2 (Z.ltb_ge _ _)) by lia.
  rewrite !slice_range by lia. cbn [rbind]. rewrite Z.sub_0_r. change (drop (Z.to_nat 0) q) with q. fold n.
  by rewrite (take_ge (drop n q)) by (rewrite length_drop; unfold zlen, n in *; lia).
Qed.

Lemma Enqueue_table uid rule seq m e m' :
  validRule rule → byUID m !! uid = None → Players rule ≤ zlen (arrived uid rule seq m) →
  let n := Z.to_nat (Players rule) in
  let q := arrived uid rule seq m in
  Enqueue uid rule seq m = Ok (e, m') →
  ∃ rid err, e = None ∧
    queues m' = <[queueKey rule := drop n q]> (queues m) ∧ byUID m' = dropAll (take n q) (byUID m) ∧
    results m' = results m ++ map (fun e => mkResult (eUID e) (eSeq e) rid err) (take n q) ∧
    (is_Some err → rid = ""%string).
Proof.
  intros Hv Hb Hz n q. rewrite Enqueue_settles by done. fold n q.
  destruct (settle _ _) as [m1| |] eqn:Es; cbn [rbind]; [|done..]. intros [= <- <-].
  destruct (settle_keeps _ _ _ Es) as (rid & err & H1 & H2 & H3 & H4). by exists rid, err.
Qed.

Lemma Enqueue_refused uid rule seq m :
  ¬ (validRule rule ∧ byUID m !! uid = None) →
  ∃ e, Enqueue uid rule seq m = Ok (Some e, m) ∧ (e = ErrBadRule ↔ ¬ validRule rule).
Proof.
  intros Hn. unfold Enqueue, validRule in *. destruct (decide _) as [Hbad|Hok].
  - exists ErrBadRule. split; [done|]. split; [|done]. intros _ [H1 H2]. destruct Hbad; [done|lia].
  - assert (Module_ rule ≠ ""%string ∧ 0 < Players rule) as Hv.
    { split; [intros H; apply Hok; by left|]. destruct (decide (Players rule ≤ 0)); [|lia]. destruct Hok; by right. }
    exists ErrAlreadyQueued. destruct (byUID m !! uid) eqn:Eb.
    + rewrite decide_True by done. split; [done|]. split; [done|by intros []].
    + destruct Hn. done.
Qed.

Lemma uids_arrived uid rule seq m :
  uids (arrived uid rule seq m) = uids (queue m (queueKey rule)) ++ [uid].
Proof. unfold uids, arrived. by rewrite map_app. Qed.

Lemma not_queued m uid key : MInv m → byUID m !! uid = None → uid ∉ uids (queue m key).
Proof. intros Hi Hb Hin. apply (mi_index m Hi) in Hin. congruence. Qed.

Lemma arrived_once uid rule seq m : MInv m → byUID m !! uid = None → NoDup (uids (arrived uid rule seq m)).
Proof.
  intros Hi Hb. rewrite uids_arrived. apply NoDup_app. split_and!; [apply (mi_once m Hi)| |apply NoDup_singleton].
  intros u Hu ->%list_elem_of_singleton. by eapply not_queued.
Qed.

Lemma Enqueue_waits_MInv uid rule seq m b r rs :
  MInv m → byUID m !! uid = None → zlen (arrived uid rule seq m) < size (queueKey rule) →
  b = <[uid := queueKey rule]> (byUID m) →
  MInv (mkMaker (<[queueKey rule := arrived uid rule seq m]> (queues m)) b r rs).
Proof.
  intros Hi Hb Hz ->. split; intros *; rewrite ?(queue_insert m _ _ _ _ _ _ _ eq_refl); cbn [byUID].
  - case_decide; [by apply arrived_once|apply (mi_once m Hi)].
  - destruct (decide (key = queueKey rule)) as [->|Hk].
    + rewrite uids_arrived, elem_of_app, list_elem_of_singleton. destruct (decide (uid0 = uid)) as [->|Hu].
      * rewrite lookup_insert_eq. split; auto.
      * rewrite lookup_insert_ne by done. rewrite (mi_index m Hi). naive_solver.
    + destruct (decide (uid0 = uid)) as [->|Hu].
      * rewrite lookup_insert_eq. split; [by intros [= <-]|]. intros Hin. by destruct (not_queued m uid key Hi Hb).
      * rewrite lookup_insert_ne by done. apply (mi_index m Hi).
  - case_decide; [subst; by right|apply (mi_short m Hi)].
Qed.

(** With the sizes of the queues, a table takes the whole queue. *)
Lemma table_whole uid rule seq m :
  MInv m → Players rule = size (queueKey rule) → 0 < Players rule →
  Players rule ≤ zlen (arrived uid rule seq m) → zlen (arrived uid rule seq m) = Players rule.
Proof.
  intros Hi Hs Hp Hz. unfold arrived in *. rewrite zlen_snoc in *.
  destruct (mi_short m Hi (queueKey rule)) as [Eq|Eq]; [rewrite Eq in *; rewrite zlen_nil in *|]; lia.
Qed.

Lemma Enqueue_table_MInv uid rule seq m b r rs :
  MInv m → byUID m !! uid = None → b = dropAll (arrived uid rule seq m) (byUID m) →
  MInv (mkMaker (<[queueKey rule := []]> (queues m)) b r rs).
Proof.
  intros Hi Hb ->. split; intros *; rewrite ?(queue_insert m _ _ _ _ _ _ _ eq_refl); cbn [byUID].
  - case_decide; [apply NoDup_nil_2|apply (mi_once m Hi)].
  - rewrite dropAll_lookup, uids_arrived. destruct (decide (key = queueKey rule)) as [->|Hk].
    + case_decide as Hin; [split; [done|by intros ?%elem_of_nil]|].
      rewrite (mi_index m Hi). split; [|by intros ?%elem_of_nil]. intros Hq. destruct Hin. apply elem_of_app. by left.
    + case_decide as Hin; [|apply (mi_index m Hi)]. split; [done|]. intros Hq. exfalso.
      apply elem_of_app in Hin as [Hin| ->%list_elem_of_singleton].
      * apply (mi_index m Hi) in Hin, Hq. congruence.
      * by destruct (not_queued m uid key Hi Hb).
  - case_decide; [by left|apply (mi_short m Hi)].
Qed.

(** What an accepted request does, once it returns. *)
Lemma Enqueue_accepted uid rule seq m e m' :
  MInv m → validRule rule → Players rule = size (queueKey rule) → byUID m !! uid = None →
  let q := arrived uid rule seq m in
  Enqueue uid rule seq m = Ok (e, m') →
  e = None ∧ MInv m' ∧
    (∀ key, key ≠ queueKey rule → queue m' key = queue m key) ∧
    (if decide (zlen q < Players rule) then queue m' (queueKey rule) = q ∧ results m' = results m
     else queue m' (queueKey rule) = [] ∧ ∃ rid err, (is_Some err → rid = ""%string) ∧
            results m' = results m ++ map (fun e => mkResult (eUID e) (eSeq e) rid err) q).
Proof.
  intros Hi Hv Hs Hb q. case_decide as Hz.
  - rewrite Enqueue_waits by done. intros [= <- <-].
    split; [done|]. split; [apply Enqueue_waits_MInv; try done; unfold q in Hz; lia|].
    split; [intros key Hk|]; rewrite (queue_insert m _ _ _ _ _ _ _ eq_refl);
      [by rewrite decide_False|by rewrite decide_True].
  - intros (rid & err & -> & H1 & H2 & H3 & H4)%Enqueue_table; [|done|done|unfold q in Hz; lia].
    fold q in H1, H2, H3. destruct Hv as [_ Hp].
    pose proof (table_whole uid rule seq m Hi Hs Hp ltac:(unfold q in Hz; lia)) as Hlen. fold q in Hlen.
    assert (Z.to_nat (Players rule) = length q) as En by (unfold zlen in Hlen; lia).
    rewrite En, firstn_all in H2, H3. rewrite En, drop_all in H1. destruct m' as [qs b r rs]. cbn in *. subst.
    split; [done|]. split; [by eapply Enqueue_table_MInv|].
    split; [intros key Hk|]; rewrite (queue_insert m _ _ _ _ _ _ _ eq_refl);
      [by rewrite decide_False|]. rewrite decide_True by done. split; [done|]. by exists rid, err.
Qed.

Lemma Enqueue_returns `{!RoomsAnswer R E} uid rule seq m : ∃ x, Enqueue uid rule seq m = Ok x.
Proof.
  destruct (decide (validRule rule ∧ byUID m !! uid = None)) as [[Hv Hb]|Hn].
  2: { destruct (Enqueue_refused uid rule seq m Hn) as (e & -> & _). by eexists. }
  destruct (decide (zlen (arrived uid rule seq m) < Players rule)) as [Hz|Hz].
  - rewrite Enqueue_waits by done. by eexists.
  - rewrite Enqueue_settles by (done || lia). cbv zeta. destruct (settle_returns (take (Z.to_nat (Players rule)) (arrived uid rule seq m))
      (mkMaker (<[queueKey rule := drop (Z.to_nat (Players rule)) (arrived uid rule seq m)]> (queues m))
         (dropAll (take (Z.to_nat (Players rule)) (arrived uid rule seq m)) (byUID m)) (rooms m) (results m))) as [m1 ->].
    + destruct Hv as [_ Hp]. intros Habs. apply (f_equal length) in Habs. rewrite length_take in Habs. cbn in Habs.
      unfold zlen in Hz. lia.
    + by eexists.
Qed.

Lemma existsb_uid uid q : existsb (fun e => bool_decide (eUID e = uid)) q = true ↔ uid ∈ uids q.
Proof.
  rewrite existsb_exists. unfold uids. rewrite list_elem_of_In, in_map_iff.
  split; intros (e & H1 & H2); exists e; [apply bool_decide_eq_true in H2; naive_solver|].
  split; [done|]. by apply bool_decide_eq_true.
Qed.

Lemma Cancel_spec uid m : MInv m →
  MInv (Cancel uid m).2 ∧ (Cancel uid m).1 = bool_decide (is_Some (byUID m !! uid)) ∧
  results (Cancel uid m).2 = results m ∧ byUID (Cancel uid m).2 !! uid = None ∧
  ∀ key, queue (Cancel uid m).2 key = removeEntry uid (queue m key).
Proof.
  intros Hi. unfold Cancel. destruct (byUID m !! uid) as [k|] eqn:Eb; cbn [fst snd].
  - assert (Hin : uid ∈ uids (queue m k)) by by apply (mi_index m Hi).
    rewrite (proj2 (existsb_uid uid _) Hin).
    assert (Hq : ∀ key, queue (mkMaker (<[k := removeEntry uid (queue m k)]> (queues m)) (delete uid (byUID m))
                          (rooms m) (results m)) key = removeEntry uid (queue m key)).
    { intros key. rewrite (queue_insert m _ _ _ _ _ _ _ eq_refl). case_decide as Hk; [by subst|].
      assert (uid ∉ uids (queue m key)) as Hni.
      { intros Hin'. apply (mi_index m Hi) in Hin'. congruence. }
      clear -Hni. induction (queue m key) as [|e q IH]; [done|]. cbn in *.
      rewrite decide_False by (intros <-; apply Hni; by left). f_equal. apply IH. contradict Hni. by right. }
    split_and!; [|done|done|apply lookup_delete_eq|exact Hq]. split; intros *; rewrite ?Hq, ?uids_removeEntry; cbn [byUID].
    + apply NoDup_remove_first, (mi_once m Hi).
    + rewrite elem_of_remove_first by apply (mi_once m Hi). rewrite <- (mi_index m Hi).
      rewrite lookup_delete_Some. naive_solver.
    + destruct (mi_short m Hi key) as [Eq|Eq]; [left; by rewrite Eq|right].
      pose proof (f_equal length (uids_removeEntry uid (queue m key))) as Hl. unfold uids in Hl. rewrite !length_map in Hl.
      destruct (decide (uid ∈ uids (queue m key))) as [Hu|Hu].
      * pose proof (length_remove_first _ _ Hu) as H2. unfold uids in H2. rewrite length_map in H2. unfold zlen in *. lia.
      * pose proof (remove_first_notin _ _ Hu) as H2. unfold uids in H2. rewrite H2, length_map in Hl. unfold zlen in *. lia.
  - split_and!; try done. intros key. assert (uid ∉ uids (queue m key)) as Hni by by apply not_queued.
    clear -Hni. induction (queue m key) as [|e q IH]; [done|]. cbn in *.
    rewrite decide_False by (intros <-; apply Hni; by left). f_equal. apply IH. contradict Hni. by right.
Qed.

Lemma New_MInv r0 : MInv (New r0).
Proof.
  split; intros *; cbn; [apply NoDup_nil_2| |by left]. rewrite lookup_empty. split; [done|by intros ?%elem_of_nil].
Qed.

Lemma match_mstep_MInv m m' : MInv m → mstep m m' → MInv m'.
Proof.
  intros Hi. destruct 1 as [uid rule seq m e m' Hs He|uid m|r m].
  - destruct (decide (validRule rule ∧ byUID m !! uid = None)) as [[Hv Hb]|Hn].
    + by apply Enqueue_accepted in He as (_ & HI & _).
    + destruct (Enqueue_refused uid rule seq m Hn) as (e' & Ee & _). congruence.
  - by apply Cancel_spec.
  - destruct Hi as [H1 H2 H3]. by split.
Qed.

Lemma match_mreach_MInv r0 m : mreach r0 m → MInv m.
Proof. induction 1; [apply New_MInv|by eapply match_mstep_MInv]. Qed.

(** The matchmaker's indexes agree between requests: a player waits in at most
    one queue, once, and [byUID] names exactly that queue; no queue is left with
    a full table; and, when the calls of the room manager return, so does every
    request. *)
Theorem match_consistent `{!RoomsAnswer R E} r0 m : mreach r0 m →
  MInv m ∧ ∀ uid rule seq, ∃ e m', Enqueue uid rule seq m = Ok (e, m').
Proof.
  intros Hi%match_mreach_MInv. split; [done|]. intros uid rule seq.
  destruct (Enqueue_returns uid rule seq m) as [[e m'] ->]. eauto.
Qed.
End Match.

Arguments Maker : clear implicits.
Arguments result : clear implicits.

(** ** First come, first served *)

Section Fifo.
Context {R E : Type} `{RS : RoomService R E}.
Variable rule : Rule.
Hypothesis valid : validRule rule.

Fixpoint enqueueAll (us : list (string * Z)) (m : Maker R E) : res (Maker R E) :=
  match us with
  | [] => Ok m
  | (uid, seq) :: us' => let! (_, m) := Enqueue uid rule seq m in enqueueAll us' m
  end.

(** A table that was settled: its players with their sequence numbers, and the
    outcome they were all told. *)
Record table := mkTable { seated : list (string * Z); outcome : string * option E }.

Definition told (t : table) : list (result E) :=
  map (fun p => mkResult p.1 p.2 (outcome t).1 (outcome t).2) (seated t).

Definition waiting (m : Maker R E) : list (string * Z) :=
  map (fun e => (eUID e, eSeq e)) (queue m (queueKey rule)).

Record Served (us : list (string * Z)) (tables : list table) (m : Maker R E) : Prop := {
  sv_inv : MInv (fun _ => Players rule) m;
  sv_else : ∀ key, key ≠ queueKey rule → queue m key = [];
  sv_told : results m = concat (map told tables);
  sv_full : Forall (fun t => zlen (seated t) = Players rule) tables;
  sv_order : concat (map seated tables) ++ waiting m = us }.

Lemma arrived_pairs uid seq m :
  map (fun e => (eUID e, eSeq e)) (arrived uid rule seq m) = waiting m ++ [(uid, seq)].
Proof. unfold arrived, waiting. by rewrite map_app. Qed.

Lemma Served_fresh us tables m uid : Served us tables m → uid ∉ map fst us → byUID m !! uid = None.
Proof.
  intros [Hi He _ _ Ho] Hu. destruct (byUID m !! uid) as [key|] eqn:Eb; [|done]. exfalso.
  apply (mi_index _ _ Hi) in Eb. destruct (decide (key = queueKey rule)) as [->|Hk].
  - apply Hu. rewrite <- Ho, map_app. apply elem_of_app. right. unfold waiting. by rewrite map_map.
  - rewrite He in Eb by done. by apply elem_of_nil in Eb.
Qed.

Lemma Served_step us tables m uid seq e m' :
  Served us tables m → uid ∉ map fst us → Enqueue uid rule seq m = Ok (e, m') →
  ∃ tables', Served (us ++ [(uid, seq)]) tables' m'.
Proof.
  intros HS Hu Ee. pose proof (Served_fresh _ _ _ _ HS Hu) as Hb. destruct HS as [Hi He Ht Hf Ho].
  destruct (Enqueue_accepted (fun _ => Players rule) uid rule seq m e m' Hi valid eq_refl Hb Ee) as (_ & Hi' & Hk & Hq).
  case_decide as Hz.
  - destruct Hq as [Hq Hr]. exists tables. split; try done.
    + intros key Hne. by rewrite Hk, He.
    + by rewrite Hr.
    + rewrite <- Ho. unfold waiting at 1. rewrite Hq, arrived_pairs. by rewrite app_assoc.
  - destruct Hq as [Hq (rid & err & _ & Hr)].
    exists (tables ++ [mkTable (waiting m ++ [(uid, seq)]) (rid, err)]). split; try done.
    + intros key Hne. by rewrite Hk, He.
    + rewrite Hr, map_app, concat_app, Ht. f_equal. cbn. rewrite app_nil_r. unfold told. cbn [seated outcome fst snd].
      rewrite <- arrived_pairs, map_map. done.
    + apply Forall_app. split; [done|]. constructor; [|constructor]. cbn [seated].
      rewrite <- arrived_pairs. unfold zlen. rewrite length_map.
      pose proof (table_whole (fun _ => Players rule) uid rule seq m Hi eq_refl (proj2 valid)). unfold zlen in *. lia.
    + rewrite map_app, concat_app. cbn. rewrite app_nil_r. unfold waiting at 2. rewrite Hq. cbn.
      rewrite app_nil_r, <- Ho. by rewrite app_assoc.
Qed.

Context `{!RoomsAnswer R E}.

Lemma Served_run todo : ∀ us tables m,
  Served us tables m → NoDup (map fst (us ++ todo)) →
  ∃ m' tables', enqueueAll todo m = Ok m' ∧ Served (us ++ todo) tables' m'.
Proof.
  induction todo as [|[uid seq] todo IH]; intros us tables m HS Hnd; cbn [enqueueAll].
  - rewrite app_nil_r. eauto.
  - destruct (Enqueue_returns uid rule seq m) as [[e m'] Ee]. rewrite Ee. cbn [rbind].
    destruct (Served_step us tables m uid seq e m' HS) as (tables' & HS'); [|done|].
    { rewrite map_app in Hnd. apply NoDup_app in Hnd as (_ & Hd & _). intros Hin. apply (Hd _ Hin). by left. }
    replace (us ++ (uid, seq) :: todo) with ((us ++ [(uid, seq)]) ++ todo) in *
      by by rewrite <- app_assoc. by eapply IH.
Qed.

(** C16. Matching is first come, first served: when distinct players ask for
    the same game, one request handled after the other, and the calls of the
    room manager return (with whatever outcome; a join waits for the room's
    answer, see [RoomsAnswer]), every request returns and the tables are filled in the order of
    arrival, each with exactly the number of players of the rule, everyone at a
    table is told the same outcome once under the sequence number of the own
    request, and fewer than a table's worth of players is still waiting. *)
Theorem match_fifo r0 us : NoDup (map fst us) →
  ∃ m tables, enqueueAll us (New r0) = Ok m ∧
    concat (map seated tables) ++ waiting m = us ∧
    Forall (fun t => zlen (seated t) = Players rule) tables ∧
    results m = concat (map told tables) ∧
    zlen (waiting m) < Players rule.
Proof.
  intros Hnd. destruct (Served_run us [] [] (New r0)) as (m & tables & Ee & [Hi He Ht Hf Ho]); [|done|].
  { split; try done. apply New_MInv. }
  exists m, tables. split_and!; try done. unfold waiting, zlen. rewrite length_map.
  destruct (mi_short _ _ Hi (queueKey rule)) as [Eq|Eq]; [rewrite Eq; cbn; apply valid|exact Eq].
Qed.
End Fifo.

(** ** Concrete runs *)

(** A room service that opens every room and admits everyone. *)
#[export] Instance openRooms : RoomService nat string := {
  CreateRoom _ n := Ok (inr "room"%string, S n);
  Join _ _ n := Ok (None, n);
  Leave _ _ n := Ok n }.
#[export] Instance openRooms_answer : RoomsAnswer nat string.
Proof. split; intros; by eexists. Qed.

Definition snakeRule : Rule := mkRule "snake" "ranked" 2.
Definition snakeDefs : gmap string Rule := {["snake"%string := snakeRule]}.
Definition okMaker (x : res (option ErrCode * Maker nat string)) : Maker nat string :=
  match x with Ok (_, m) => m | _ => New O end.
Definition oneWaiting : Maker nat string := okMaker (handleMatch snakeDefs "a" "snake" "ranked" 7 (New O)).

Lemma match_consistent_witness :
  MInv (fun _ => 2) oneWaiting ∧
  ∀ uid rule seq, ∃ e m', Enqueue uid rule seq oneWaiting = Ok (e, m').
Proof.
  apply (match_consistent (fun _ => 2) O oneWaiting). eapply mr_step; [apply mr_new|].
  apply (ms_enqueue _ "a" snakeRule 7 _ None); reflexivity.
Defined.

Lemma match_fifo_witness :
  ∃ m tables, enqueueAll snakeRule [("a"%string, 7); ("b"%string, 3); ("c"%string, 1)] (New O) = Ok m ∧
    concat (map seated tables) ++ waiting snakeRule m = [("a"%string, 7); ("b"%string, 3); ("c"%string, 1)] ∧
    Forall (fun t => zlen (seated t) = 2) tables ∧
    results m = concat (map told tables) ∧
    zlen (waiting snakeRule m) < 2.
Proof.
  apply (match_fifo snakeRule); [split; [discriminate|reflexivity]|exact openRooms_answer|].
  apply (bool_decide_unpack _). vm_compute. exact I.
Defined.

(** Finding. A cancel request is answered as done and does nothing: the player stays in
    the queue and is seated with the next one who asks, although [Cancel] of the
    matchmaker would have taken the player out. *)
Theorem cancel_request_ignored :
  handleMatchCancel "a" oneWaiting = Ok (None, oneWaiting) ∧
  byUID oneWaiting !! "a"%string = Some "snake|ranked"%string ∧
  map resUID (results (okMaker (handleMatch snakeDefs "b" "snake" "ranked" 3 oneWaiting)))
    = ["a"%string; "b"%string] ∧
  byUID (Cancel "a" oneWaiting).2 !! "a"%string = None.
Proof. split_and!; vm_compute; reflexivity. Qed.

(** Finding. A queue shared by requests for different table sizes breaks the index: the
    newcomer who completes somebody else's smaller table stays in the queue
    without an index entry, so [Cancel] does not find the player, a second
    request is accepted, and the player is seated at a table alone, twice. *)
Theorem mixed_sizes_lose_player :
  let m := okMaker (handleMatch ∅ "b" "snake|x" "y" 3
             (okMaker (handleMatch snakeDefs "a" "snake" "x|y" 7 (New O)))) in
  uids (queue m "snake|x|y") = ["b"%string] ∧ byUID m !! "b"%string = None ∧ (Cancel "b" m).1 = false ∧
  map resUID (results (okMaker (handleMatch snakeDefs "b" "snake" "x|y" 4 m))) = ["a"; "b"; "b"]%string.
Proof. split_and!; vm_compute; reflexivity. Qed.
