(* ===== verification/MatchRedis.v ===== *)
(** * The distributed matchmaker (internal/cluster/match_redis.go)

    One sorted set per module and rule code; a Lua script adds a player and,
    when the table is full, takes the players of the table out.  The caller of
    the script that fills a table opens the room and reports the result.  The
    room settler and the node picker are injected; the calls of the settler and
    of [onResult] are recorded. *)

From S2P Require Import Prelude GoStrings Match Redis Registry.
From Stdlib Require Import SpecFloat.

(** A rule with its score range. *)
Record MatchRule := mkMRule { base : Rule; ScoreMin : Z; ScoreMax : Z }.

Definition float_of (z : Z) : score := binary_normalize 53 1024 z 0 false.

(** [float64(rule.ScoreMin+rule.ScoreMax) / 2.0] *)
Definition scoreFor (r : MatchRule) : score :=
  SFdiv 53 1024 (float_of (wrap_i64 (ScoreMin r + ScoreMax r))) (float_of 2).

Inductive rmerr := ErrRedisAlreadyQueued | ErrRedisBadRule | ErrEval (e : option rerr).

Section Matcher.
Context {R E : Type} `{X : Redis R}.
(** [pick]: the node for a module; [settle]: the room of a table on a node. *)
Context (pick : option (string → E + string)) (settle : list string → Rule → string → E + string).

Record result := mkRes { resUID : string; resSeq : Z; resRoom : string; resErr : option E }.

Record RedisMatcher := mkRM {
  prefix : string;
  qttl : Z;
  byUID : gmap string string;
  tables : list (list string);   (** tables handed to the settler *)
  results : list result }.

Definition NewRedisMatcher (keyPrefix : string) (queueTTL : Z) : RedisMatcher :=
  mkRM (if decide (keyPrefix = ""%string) then "match:queue:" else keyPrefix)
       (if decide (queueTTL = 0) then 5 * 60 * second else queueTTL) ∅ [] [].

Definition queueKey_ (m : RedisMatcher) (r : MatchRule) : string := prefix m +:+ queueKey (base r).

(** [for i = 1, #uids do redis.call('ZREM', key, uids[i]) end] *)
Fixpoint zremAll (now : Z) (key : string) (uids : list string) : script R unit :=
  match uids with
  | [] => sret ()
  | u :: uids' =>
      let* _ := (fun r => match ZREM now key u r with inl e => (inl e, r) | inr (_, r') => (inr (), r') end) in
      zremAll now key uids'
  end.

Definition enqueueScript (now : Z) (key uid : string) (s : score) (players ttlSecs : Z) : script R (option (list string)) :=
  let* old := query (ZSCORE now key uid) in
  match old with
  | Some _ => sfail (ErrReply "already_queued")
  | None =>
      let* _ := cmdE (ZADD now key s uid) in
      let* _ := cmd (EXPIRE now key (ttlSecs * second)) in
      let* n := query (ZCARD now key) in
      if decide (players ≤ Z.of_nat n) then
        let* uids := query (ZRANGE now key (Z.to_nat players)) in
        let* _ := zremAll now key uids in
        sret (Some uids)
      else sret None
  end.

Definition notify (uid : string) (seq : Z) (room : string) (e : option E) (m : RedisMatcher) : RedisMatcher :=
  mkRM (prefix m) (qttl m) (byUID m) (tables m) (results m ++ [mkRes uid seq room e]).

(** [uids[0]] panics on an empty table. *)
Definition settleAndNotify (uids : list string) (rule : MatchRule) (triggerSeq : Z) (m : RedisMatcher) : res RedisMatcher :=
  match uids with
  | [] => Panic
  | first :: _ =>
      match match pick with None => inr ""%string | Some p => p (Module_ (base rule)) end with
      | inl err => Ok (notify first triggerSeq "" (Some err) m)
      | inr node =>
          let m := mkRM (prefix m) (qttl m) (byUID m) (tables m ++ [uids]) (results m) in
          match settle uids (base rule) node with
          | inl err => Ok (notify first triggerSeq "" (Some err) m)
          | inr room => Ok (notify first triggerSeq room None m)
          end
      end
  end.

Definition Enqueue (w : net) (now : Z) (uid : string) (rule : MatchRule) (seq : Z) (m : RedisMatcher) (r : R)
    : res (option rmerr * RedisMatcher * R) :=
  if decide (Module_ (base rule) = ""%string ∨ Players (base rule) ≤ 0) then Ok (Some ErrRedisBadRule, m, r) else
  match call w (enqueueScript now (queueKey_ m rule) uid (scoreFor rule) (Players (base rule)) (Z.quot (qttl m) second)) r with
  | (None, r) => Ok (Some (ErrEval None), m, r)
  | (Some (inl e), r) =>
      if decide (e = ErrReply "already_queued") then Ok (Some ErrRedisAlreadyQueued, m, r)
      else Ok (Some (ErrEval (Some e)), m, r)
  | (Some (inr None), r) =>
      Ok (None, mkRM (prefix m) (qttl m) (<[uid := queueKey (base rule)]> (byUID m)) (tables m) (results m), r)
  | (Some (inr (Some uids)), r) =>
      let! m := settleAndNotify uids rule seq m in Ok (None, m, r)
  end.

(** The scan visits every queue; errors of ZREM are ignored. *)
Fixpoint zremEverywhere (now : Z) (uid : string) (keys : list string) (r : R) : Z * R :=
  match keys with
  | [] => (0, r)
  | k :: keys' =>
      match ZREM now k uid r with
      | inr (b, r) => let '(n, r) := zremEverywhere now uid keys' r in ((if b then 1 else 0) + n, r)
      | inl _ => zremEverywhere now uid keys' r
      end
  end.

Definition Cancel (now : Z) (uid : string) (m : RedisMatcher) (r : R) : bool * RedisMatcher * R :=
  let known := bool_decide (is_Some (byUID m !! uid)) in
  let m := mkRM (prefix m) (qttl m) (delete uid (byUID m)) (tables m) (results m) in
  let '(n, r) := zremEverywhere now uid (SCAN now (prefix m) r) r in
  (known || (0 <? n), m, r).

(** An error reads as zero. *)
Definition QueueDepth (now : Z) (module code : string) (m : RedisMatcher) (r : R) : Z :=
  match ZCARD now (prefix m +:+ queueKeyStr module code) r with inr n => Z.of_nat n | inl _ => 0 end.
End Matcher.

(** ** The queue of one rule *)

Section Thm.
Context {R E : Type} `{X : Redis R} {L : RedisLaws X}.
Context (pick : option (string → E + string)) (settle : list string → Rule → string → E + string).

(** At a time, the queue holds exactly these players. *)
Definition waits (now : Z) (key : string) (q : gset string) (r : R) : Prop :=
  ∃ z, dZSet now key (dataset r) = inr z ∧ dom z = q.

Lemma deadline_later now key (d : db) : match deadline now key d with Some t => now < t | None => True end.
Proof. unfold deadline. destruct (d !! key) as [[v [t|]]|]; [|done..]. by case_decide. Qed.

Lemma live_zset now key (z : gmap string score) (d0 d : db) : live now key (<[key := (RZSet z, deadline now key d0)]> d) = Some (RZSet z).
Proof.
  unfold live. rewrite lookup_insert_eq. pose proof (deadline_later now key d0) as H.
  destruct (deadline now key d0); [by rewrite decide_True|done].
Qed.

(** Adding a player and renewing the lifetime. *)
Lemma zadd_expire now key s uid secs q r : 0 < secs → waits now key q r → ∃ r1,
  (let* _ := cmdE (ZADD now key s uid) in cmd (EXPIRE now key (secs * second))) r = (inr (), r1) ∧
  ∃ z, dom z = {[uid]} ∪ q ∧ dataset r1 !! key = Some (RZSet z, Some (now + secs * second)).
Proof.
  intros Hs (z & Hz & Hq). unfold sbind, cmdE, cmd. pose proof (zadd_law now key s uid r) as Ha.
  unfold dZAdd in Ha. rewrite Hz in Ha. destruct (ZADD now key s uid r) as [|r1]; [done|]. cbn in Ha. injection Ha as Ha.
  eexists. split; [reflexivity|]. exists (<[uid := s]> z). split; [rewrite dom_insert_L; by rewrite Hq|].
  rewrite expire_law, Ha. unfold dExpire.
  rewrite live_zset.
  rewrite decide_True by (unfold second; lia). apply lookup_insert_eq.
Qed.

Lemma zremAll_spec now key uids q r : waits now key q r → ∃ r',
  zremAll now key uids r = (inr (), r') ∧ waits now key (q ∖ list_to_set uids) r'.
Proof.
  revert q r. induction uids as [|u uids IH]; intros q r Hw; cbn [zremAll].
  { exists r. split; [done|]. cbn. by rewrite difference_empty_L. }
  destruct Hw as (z & Hz & Hq). unfold sbind.
  pose proof (zrem_law now key u r) as Hr. unfold dZRem in Hr. rewrite Hz in Hr.
  assert (∃ b r1, ZREM now key u r = inr (b, r1) ∧ waits now key (q ∖ {[u]}) r1) as (b & r1 & -> & Hw1).
  { destruct (z !! u) as [su|] eqn:Eu.
    - case_decide as He; destruct (ZREM now key u r) as [|[b r1]]; try done; cbn in Hr; injection Hr as -> Hr;
        eexists _, _; (split; [reflexivity|]).
      + exists ∅. split; [|rewrite dom_empty_L, <- Hq, <- (dom_delete_L z), He; by rewrite dom_empty_L].
        unfold dZSet, live. by rewrite Hr, lookup_delete_eq.
      + exists (delete u z). split; [|by rewrite dom_delete_L, Hq]. rewrite Hr. unfold dZSet. by rewrite live_zset.
    - destruct (ZREM now key u r) as [|[b r1]]; [done|]. cbn in Hr. injection Hr as -> Hr. eexists _, _.
      split; [reflexivity|]. exists z. rewrite Hr. split; [done|]. apply not_elem_of_dom in Eu. set_solver. }
  destruct (IH _ _ Hw1) as (r' & E' & Hw'). exists r'. split; [done|].
  replace (q ∖ list_to_set (u :: uids)) with ((q ∖ {[u]}) ∖ list_to_set uids) by (apply leibniz_equiv; set_solver). done.
Qed.

(** What the script does to a queue of fewer players than a table holds: the
    new player waits, or the table is taken out whole. *)
Lemma script_spec now key uid s players secs q r :
  0 < secs → waits now key q r → uid ∉ q → Z.of_nat (size q) < players →
  ∃ r', 
    (Z.of_nat (size q) + 1 < players ∧ enqueueScript now key uid s players secs r = (inr None, r') ∧
       ∀ t, t < now + secs * second → waits t key ({[uid]} ∪ q) r') ∨
    (∃ uids, Z.of_nat (size q) + 1 = players ∧ enqueueScript now key uid s players secs r = (inr (Some uids), r') ∧
       NoDup uids ∧ list_to_set uids = {[uid]} ∪ q ∧ waits now key ∅ r').
Proof.
  intros Hs Hw Hu Hp. destruct (zadd_expire now key s uid secs q r Hs Hw) as (r1 & E1 & z1 & Hd1 & Hk1).
  destruct Hw as (z & Hz & Hq).
  assert (Hz1 : ∀ t, t < now + secs * second → dZSet t key (dataset r1) = inr z1).
  { intros t Ht. unfold dZSet, live. rewrite Hk1. by rewrite decide_True. }
  assert (Hz1' := Hz1 now ltac:(unfold second; lia)).
  assert (Hsz : Z.of_nat (base.size z1) = Z.of_nat (size q) + 1).
  { rewrite <- (size_dom (D := gset string) z1), Hd1, size_union by set_solver. rewrite size_singleton. lia. }
  assert (Hx : enqueueScript now key uid s players secs r =
    if decide (players ≤ Z.of_nat (size q) + 1)
    then (let* uids := query (ZRANGE now key (Z.to_nat players)) in let* _ := zremAll now key uids in sret (Some uids)) r1
    else (inr None, r1)).
  { unfold enqueueScript, sbind at 1, query at 1. rewrite zscore_law, Hz. cbn [fmap sum_fmap].
    rewrite (proj1 (not_elem_of_dom z uid)) by by rewrite Hq.
    unfold sbind at 1 2. unfold sbind at 1 in E1. destruct (cmdE (ZADD now key s uid) r) as [[|] r0]; [done|].
    rewrite E1. unfold sbind at 1, query at 1. rewrite zcard_law, Hz1'. cbn [fmap sum_fmap]. rewrite Hsz. by case_decide. }
  rewrite Hx. case_decide as Hfull; cycle 1.
  { exists r1. left. split; [lia|]. split; [done|]. intros t Ht. exists z1. split; [by apply Hz1|done]. }
  unfold sbind at 1 3, query. pose proof (zrange_law now key (Z.to_nat players) r1) as Hrg. rewrite Hz1' in Hrg.
  destruct (ZRANGE now key (Z.to_nat players) r1) as [|uids]; [done|]. destruct Hrg as (o & Hnd & Ho & _ & ->).
  assert (Hdo : list_to_set o = dom z1).
  { apply leibniz_equiv. intros u. by rewrite elem_of_list_to_set, Ho, elem_of_dom. }
  assert (Hlen : length o = Z.to_nat players).
  { assert (length o = base.size z1); [|lia]. rewrite <- (size_dom (D := gset string) z1), <- Hdo. by rewrite size_list_to_set. }
  rewrite take_ge by lia.
  destruct (zremAll_spec now key o (dom z1) r1) as (r' & E' & Hw'); [by exists z1|].
  unfold sbind. rewrite E'. exists r'. right. exists o. split; [lia|]. split; [done|]. split; [done|].
  split; [by rewrite Hdo, Hd1|]. replace (∅ : gset string) with (dom z1 ∖ list_to_set o); [done|].
  rewrite Hdo. by apply difference_diag_L.
Qed.

(** ** Many requests for one rule *)

Record request := mkReq { at_ : Z; who : string; seq_ : Z }.

Fixpoint enqueueAll (rule : MatchRule) (qs : list request) (m : RedisMatcher (E := E)) (r : R) : res (RedisMatcher (E := E) * R) :=
  match qs with
  | [] => Ok (m, r)
  | q :: qs' =>
      let! x := Enqueue pick settle Done (at_ q) (who q) rule (seq_ q) m r in
      let '(_, m, r) := x in enqueueAll rule qs' m r
  end.

(** The groups of [n] in order of arrival, and who is left. *)
Fixpoint groups (n : nat) (acc us : list string) : list (list string) * list string :=
  match us with
  | [] => ([], acc)
  | u :: us' =>
      if decide (S (length acc) = n) then let '(gs, rest) := groups n [] us' in ((acc ++ [u]) :: gs, rest)
      else groups n (acc ++ [u]) us'
  end.

(** Requests in order of time, less than the lifetime of a queue apart. *)
Fixpoint within (life last : Z) (qs : list request) : Prop :=
  match qs with [] => True | q :: qs' => last ≤ at_ q < last + life ∧ within life (at_ q) qs' end.

Lemma waits_empty_later now t key r : now ≤ t → waits now key ∅ r → waits t key ∅ r.
Proof.
  intros Ht (z & Hz & Hd). apply dom_empty_inv_L in Hd as ->. exists ∅. split; [|apply dom_empty_L].
  revert Hz. unfold dZSet, live. destruct (dataset r !! key) as [[v [d|]]|]; [|done..].
  repeat case_decide; try done; lia.
Qed.

Lemma settle_tables uids rule seq (m : RedisMatcher (E := E)) :
  uids ≠ [] → match pick with None => True | Some p => ∃ n, p (Module_ (base rule)) = inr n end →
  ∃ m', settleAndNotify pick settle uids rule seq m = Ok m' ∧
    prefix m' = prefix m ∧ qttl m' = qttl m ∧ tables m' = tables m ++ [uids].
Proof.
  intros Hne Hp. unfold settleAndNotify. destruct uids as [|f us]; [done|].
  assert (∃ n, match pick with None => inr ""%string | Some p => p (Module_ (base rule)) end = inr n) as [n ->].
  { destruct pick; [done|by eexists]. }
  destruct (settle _ _ n); eexists; (split; [reflexivity|]); done.
Qed.

Section Run.
Context (rule : MatchRule) (m0 : RedisMatcher (E := E)).
Notation key := (queueKey_ m0 rule).
Notation secs := (Z.quot (qttl m0) second).
Notation N := (Z.to_nat (Players (base rule))).
Hypothesis Hrule : Module_ (base rule) ≠ ""%string.
Hypothesis Hplayers : 0 < Players (base rule).
Hypothesis Hsecs : 0 < secs.
Hypothesis Hpick : match pick with None => True | Some p => ∃ n, p (Module_ (base rule)) = inr n end.

(** One request: the player joins those waiting, or completes their table. *)
Lemma enqueue_step q acc (m : RedisMatcher (E := E)) r :
  prefix m = prefix m0 → qttl m = qttl m0 → waits (at_ q) key (list_to_set acc) r →
  NoDup (acc ++ [who q]) → (length acc < N)%nat →
  ∃ m' r', Enqueue pick settle Done (at_ q) (who q) rule (seq_ q) m r = Ok (None, m', r') ∧
    prefix m' = prefix m0 ∧ qttl m' = qttl m0 ∧
    (if decide (S (length acc) = N)
     then (∃ us, us ≡ₚ acc ++ [who q] ∧ tables m' = tables m ++ [us]) ∧
          ∀ t, at_ q ≤ t → waits t key (list_to_set []) r'
     else tables m' = tables m ∧
          ∀ t, t < at_ q + secs * second → waits t key (list_to_set (acc ++ [who q])) r').
Proof.
  intros Hpr Hq Hw Hnd Hlen.
  assert (Hnd' := Hnd). apply NoDup_app in Hnd' as (Ha & Hnew & _).
  assert (who q ∉ acc) as Hni by (intros Hi; apply (Hnew _ Hi); by apply list_elem_of_singleton).
  assert (Hsz : size (list_to_set acc : gset string) = length acc) by by rewrite size_list_to_set.
  destruct (script_spec (at_ q) key (who q) (scoreFor rule) (Players (base rule)) secs (list_to_set acc) r)
    as (r' & Hs); [done|done|by rewrite elem_of_list_to_set|lia|].
  assert (Hset : ({[who q]} ∪ list_to_set acc : gset string) = list_to_set (acc ++ [who q])).
  { rewrite list_to_set_app_L. set_solver. }
  rewrite Hset in Hs. unfold Enqueue. rewrite decide_False by (intros [?|?]; [done|lia]). cbn [call].
  unfold queueKey_ in *. rewrite Hpr, Hq. destruct Hs as [(Hlt & -> & Hwt)|(uids & Heq & -> & Hnu & Hsu & Hwt)].
  - eexists _, r'. split; [reflexivity|]. split; [done|]. split; [done|]. rewrite decide_False by lia. done.
  - assert (Hperm : uids ≡ₚ acc ++ [who q]).
    { apply NoDup_Permutation; [done|done|]. intros x. by rewrite <- !(elem_of_list_to_set (C := gset string)), Hsu. }
    destruct (settle_tables uids rule (seq_ q) m) as (m' & -> & Hp' & Hq' & Ht'); [|done|].
    { intros ->. apply Permutation_nil in Hperm. by destruct acc. }
    eexists m', r'. split; [reflexivity|]. split; [by rewrite Hp'|]. split; [by rewrite Hq'|].
    rewrite decide_True by lia. split; [by exists uids|]. intros t Ht. by apply (waits_empty_later (at_ q)).
Qed.

Lemma enqueueAll_spec qs t0 acc (m : RedisMatcher (E := E)) r :
  prefix m = prefix m0 → qttl m = qttl m0 →
  (∀ t, t0 ≤ t < t0 + secs * second → waits t key (list_to_set acc) r) →
  NoDup (acc ++ map who qs) → (length acc < N)%nat → within (secs * second) t0 qs →
  ∃ m' r' ts, enqueueAll rule qs m r = Ok (m', r') ∧ tables m' = tables m ++ ts ∧
    Forall2 (≡ₚ) ts (groups N acc (map who qs)).1 ∧
    waits (from_option at_ t0 (last qs)) key (list_to_set (groups N acc (map who qs)).2) r'.
Proof.
  revert t0 acc m r. induction qs as [|q qs IH]; intros t0 acc m r Hpr Hq Hw Hnd Hlen Hin.
  { exists m, r, []. split; [done|]. rewrite app_nil_r. split; [done|]. split; [constructor|].
    apply Hw. unfold second in *. cbn. lia. }
  destruct Hin as [Hat Hin]. cbn [map] in Hnd |- *. rewrite cons_middle, app_assoc in Hnd.
  assert (Hnd1 := Hnd). apply NoDup_app in Hnd1 as (Hnd1 & _ & Hnd2).
  destruct (enqueue_step q acc m r Hpr Hq (Hw _ Hat) Hnd1 Hlen) as (m1 & r1 & E1 & Hp1 & Hq1 & H1).
  assert (Hl : from_option at_ t0 (last (q :: qs)) = from_option at_ (at_ q) (last qs)).
  { rewrite last_cons. by destruct (last qs). }
  rewrite Hl. cbn [enqueueAll groups]. rewrite E1. cbn. case_decide as Hd.
  - destruct H1 as [(us & Hus & Ht1) Hw1].
    destruct (IH (at_ q) [] m1 r1) as (m' & r' & ts & -> & Ht & Hf & Hwf); try done.
    { intros t [Ht _]. by apply Hw1. }
    { cbn. lia. }
    exists m', r', (us :: ts). destruct (groups N [] (map who qs)) as [gs rest]. cbn in *. split; [done|].
    split; [by rewrite Ht, Ht1, <- app_assoc|]. split; [by constructor|done].
  - destruct H1 as [Ht1 Hw1].
    destruct (IH (at_ q) (acc ++ [who q]) m1 r1) as (m' & r' & ts & -> & Ht & Hf & Hwf); try done.
    { intros t Ht. apply Hw1. lia. }
    { rewrite length_app. cbn. lia. }
    exists m', r', ts. split; [done|]. by rewrite Ht, Ht1.
Qed.
End Run.

(** Players who ask for the same game, each less than the lifetime of the
    queue after the one before, are seated by the shared matcher as the
    in-memory one seats them: every table handed to the settler is, as a set,
    the next group of [Players] in order of arrival, nobody is seated twice or
    dropped, and the queue is left with exactly those who do not fill a table.
    For every Redis server that follows the documented commands. *)
Theorem redis_tables_match rule qs t0 (m : RedisMatcher (E := E)) r :
  Module_ (base rule) ≠ ""%string → 0 < Players (base rule) → 0 < Z.quot (qttl m) second →
  match pick with None => True | Some p => ∃ n, p (Module_ (base rule)) = inr n end →
  waits t0 (queueKey_ m rule) ∅ r → NoDup (map who qs) →
  within (Z.quot (qttl m) second * second) t0 qs →
  ∃ m' r' ts, enqueueAll rule qs m r = Ok (m', r') ∧ tables m' = tables m ++ ts ∧
    Forall2 (≡ₚ) ts (groups (Z.to_nat (Players (base rule))) [] (map who qs)).1 ∧
    waits (from_option at_ t0 (last qs)) (queueKey_ m rule)
      (list_to_set (groups (Z.to_nat (Players (base rule))) [] (map who qs)).2) r'.
Proof.
  intros. apply (enqueueAll_spec rule m); try done.
  - intros t [Ht _]. by apply (waits_empty_later t0).
  - cbn. lia.
Qed.
End Thm.

(** Five players, tables of two. *)
Definition demoRule : MatchRule := mkMRule (mkRule "quiz" "r" 2) 0 0.
Definition demoMatcher : RedisMatcher (E := unit) := NewRedisMatcher "" 0.
Definition demoQs : list request :=
  [mkReq 1 "d" 1; mkReq 2 "b" 2; mkReq 3 "c" 3; mkReq 4 "a" 4; mkReq 5 "e" 5].

Lemma redis_tables_match_witness : ∃ m' r',
  enqueueAll None (fun _ _ _ => inr "r1"%string) demoRule demoQs demoMatcher (∅ : db) = Ok (m', r') ∧
  waits 5 (queueKey_ demoMatcher demoRule) (list_to_set ["e"%string]) r'.
Proof.
  assert (H1 : waits 0 (queueKey_ demoMatcher demoRule) ∅ (∅ : db)).
  { exists ∅. split; [reflexivity|]. by rewrite dom_empty_L. }
  assert (H2 : NoDup (map who demoQs)) by (apply (bool_decide_eq_true_1 _); vm_compute; reflexivity).
  assert (H3 : within (Z.quot (qttl demoMatcher) second * second) 0 demoQs) by (vm_compute; repeat split; discriminate).
  destruct (redis_tables_match None (fun _ _ _ => inr "r1"%string) demoRule demoQs 0 demoMatcher (∅ : db)
    ltac:(discriminate) ltac:(reflexivity) ltac:(reflexivity) I H1 H2 H3) as (m' & r' & ts & H4 & _ & _ & H5).
  exists m', r'. split; [exact H4|exact H5].
Defined.

(** ** What the callers are told *)

Definition demoPair : res (RedisMatcher (E := unit) * db) :=
  enqueueAll None (fun _ _ _ => inr "r1"%string) demoRule [mkReq 1 "a" 10; mkReq 2 "b" 20] demoMatcher ∅.

(** The table that the second player completes is reported to its first member
    by name, with the second player's sequence number; nobody else is told. *)
Lemma wrong_player_told :
  (let! x := demoPair in Ok (tables x.1, results x.1)) = Ok ([["a"; "b"]%string], [mkRes "a" 20 "r1" None]).
Proof. vm_compute. reflexivity. Qed.

(** A seated player stays in the index of its server: cancelling still answers
    that the player was waiting, although no queue holds anybody. *)
Lemma cancel_after_seating :
  (let! x := demoPair in Ok (x.2, (Cancel 3 "a" x.1 x.2).1.1)) = Ok (∅, true).
Proof. vm_compute. reflexivity. Qed.

(** A player may wait for two games at once. *)
Lemma waits_twice :
  (let! x := Enqueue None (fun _ _ _ => inr "r1"%string) Done 1 "a" demoRule 1 demoMatcher (∅ : db) in
   let! y := Enqueue None (fun _ _ _ => inr "r1"%string) Done 2 "a" (mkMRule (mkRule "card" "r" 2) 0 0) 2 x.1.2 x.2 in
   Ok (x.1.1, y.1.1, QueueDepth 2 "quiz" "r" y.1.2 y.2, QueueDepth 2 "card" "r" y.1.2 y.2)) = Ok (None, None, 1, 1).
Proof. vm_compute. reflexivity. Qed.
