(* ===== verification/Bot.v ===== *)
(** * The benchmark client (bench/bot/bot.go)

    A bot is a client of the public protocol: it dials, logs in, sends requests
    and reads frames off a WebSocket.  Its state is the struct [Bot], with the
    messages it has written.  The messages that arrive are an argument; after
    the last one the connection reports a read error.  The outcome of a write
    is the environment's. *)

From Stdlib Require Import SpecFloat.
From S2P Require Import Prelude Frame Proto ProtoThm Envelope GoStrings ConnLink Connector MatchRedis.

Record Bot := mkBot {
  botID : Z;
  botCodec : Z;
  botUID : string;
  token : string;
  seq : Z;
  recvBuf : list Z;
  pingsSent : Z;
  pongsRecv : Z;
  msgsSent : Z;
  msgsRecv : Z;
  errors : Z;
  reconnects : Z;
  latencySum : Z;
  latencyCount : Z;
  latencyMax : Z;
  sent : list (list Z) }.              (* WebSocket messages written *)

(** [New] *)
Definition New (id : Z) (uid : string) (codec : Z) : Bot :=
  mkBot id codec uid ""%string 0 [] 0 0 0 0 0 0 0 0 0 [].

Inductive berr :=
| BotDial
| BotCodec (e : cerr)
| BotFrame (e : frame_err)
| BotWrite
| BotRead
| BotRefused (code : Z)
| BotDone.                             (* ctx.Err() *)

Definition set_token (t : string) (b : Bot) : Bot :=
  mkBot (botID b) (botCodec b) (botUID b) t (seq b) (recvBuf b) (pingsSent b) (pongsRecv b) (msgsSent b) (msgsRecv b)
    (errors b) (reconnects b) (latencySum b) (latencyCount b) (latencyMax b) (sent b).
Definition set_buf (buf : list Z) (b : Bot) : Bot :=
  mkBot (botID b) (botCodec b) (botUID b) (token b) (seq b) buf (pingsSent b) (pongsRecv b) (msgsSent b) (msgsRecv b)
    (errors b) (reconnects b) (latencySum b) (latencyCount b) (latencyMax b) (sent b).
Definition addPing (b : Bot) : Bot :=
  mkBot (botID b) (botCodec b) (botUID b) (token b) (seq b) (recvBuf b) (pingsSent b + 1) (pongsRecv b) (msgsSent b) (msgsRecv b)
    (errors b) (reconnects b) (latencySum b) (latencyCount b) (latencyMax b) (sent b).
Definition addSent (b : Bot) : Bot :=
  mkBot (botID b) (botCodec b) (botUID b) (token b) (seq b) (recvBuf b) (pingsSent b) (pongsRecv b) (msgsSent b + 1) (msgsRecv b)
    (errors b) (reconnects b) (latencySum b) (latencyCount b) (latencyMax b) (sent b).
Definition addRecv (b : Bot) : Bot :=
  mkBot (botID b) (botCodec b) (botUID b) (token b) (seq b) (recvBuf b) (pingsSent b) (pongsRecv b) (msgsSent b) (msgsRecv b + 1)
    (errors b) (reconnects b) (latencySum b) (latencyCount b) (latencyMax b) (sent b).
Definition addError (b : Bot) : Bot :=
  mkBot (botID b) (botCodec b) (botUID b) (token b) (seq b) (recvBuf b) (pingsSent b) (pongsRecv b) (msgsSent b) (msgsRecv b)
    (errors b + 1) (reconnects b) (latencySum b) (latencyCount b) (latencyMax b) (sent b).
Definition addReconnect (b : Bot) : Bot :=
  mkBot (botID b) (botCodec b) (botUID b) (token b) (seq b) (recvBuf b) (pingsSent b) (pongsRecv b) (msgsSent b) (msgsRecv b)
    (errors b) (reconnects b + 1) (latencySum b) (latencyCount b) (latencyMax b) (sent b).
Definition addPong (b : Bot) : Bot :=
  mkBot (botID b) (botCodec b) (botUID b) (token b) (seq b) (recvBuf b) (pingsSent b) (pongsRecv b + 1) (msgsSent b) (msgsRecv b)
    (errors b) (reconnects b) (latencySum b) (latencyCount b) (latencyMax b) (sent b).
Definition addLatency (ns : Z) (b : Bot) : Bot :=
  mkBot (botID b) (botCodec b) (botUID b) (token b) (seq b) (recvBuf b) (pingsSent b) (pongsRecv b) (msgsSent b) (msgsRecv b)
    (errors b) (reconnects b) (wrap_i64 (latencySum b + ns)) (latencyCount b + 1)
    (if ns >? latencyMax b then ns else latencyMax b) (sent b).

(** [atomic.AddUint32(&b.seq, 1)] *)
Definition nextSeq (b : Bot) : Z * Bot :=
  let s := (seq b + 1) mod 2^32 in
  (s, mkBot (botID b) (botCodec b) (botUID b) (token b) s (recvBuf b) (pingsSent b) (pongsRecv b) (msgsSent b) (msgsRecv b)
    (errors b) (reconnects b) (latencySum b) (latencyCount b) (latencyMax b) (sent b)).

(** [writeOK]: whether the connection takes the message. *)
Definition writeFrame (writeOK : bool) (f : Frame) (b : Bot) : option berr * Bot :=
  match snd (EncodeFrame f) with
  | inl e => (Some (BotFrame e), b)
  | inr raw =>
      if writeOK then
        (None, mkBot (botID b) (botCodec b) (botUID b) (token b) (seq b) (recvBuf b) (pingsSent b) (pongsRecv b) (msgsSent b)
                 (msgsRecv b) (errors b) (reconnects b) (latencySum b) (latencyCount b) (latencyMax b) (sent b ++ [raw]))
      else (Some BotWrite, b)
  end.

(** ** Reading frames *)

(** [conn.SetReadLimit(256 * 1024)] of ConnectTo and Reconnect: reading a longer
    message is an error, and so is every read after it. *)
Definition readLimit : Z := 256 * 1024.

(** The loop of [recvFrame] on the buffer and the messages still to come: the
    result, the buffer after it and the messages left. *)
Fixpoint recvLoop (ms : list (list Z)) (buf : list Z) : res ((berr + Frame) * list Z * list (list Z)) :=
  let more :=
    match ms with
    | [] => Ok (inl BotRead, buf, [])
    | data :: ms => if zlen data <=? readLimit then recvLoop ms (buf ++ data) else Ok (inl BotRead, buf, [])
    end in
  if decide (buf = []) then more else
  let! x := DecodeFrame buf 0 in
  match x with
  | (inr f, rest) => Ok (inr f, rest, ms)
  | (inl ErrEOF, _) => more
  | (inl ErrUnexpectedEOF, _) => more
  | (inl e, _) => Ok (inl (BotFrame e), buf, ms)
  end.

Definition recvFrame (ms : list (list Z)) (b : Bot) : res ((berr + Frame) * Bot * list (list Z)) :=
  let! (x, ms) := recvLoop ms (recvBuf b) in
  let '(r, buf) := x in
  Ok (r, set_buf buf b, ms).

(** ** Requests *)

Section Client.
Context (cs : codecs).

Definition pingReq (clientTS : Z) : list (finfo * value) := [
  (mkField "ClientTS" "varint,1,opt,name=client_ts,proto3" true, VInt 64 clientTS)].
Definition matchReq (module code : string) : list (finfo * value) := [
  (mkField "Module" "bytes,1,opt,name=module,proto3" true, VString (str module));
  (mkField "Code" "bytes,2,opt,name=code,proto3" true, VString (str code))].
Definition moveReq (dir : Z) : list (finfo * value) := [
  (mkField "Dir" "varint,1,opt,name=dir,proto3" true, VInt 64 dir)].
Definition callReq (score : Z) : list (finfo * value) := [
  (mkField "Score" "varint,1,opt,name=score,proto3" true, VInt 64 score)].
Definition playReq (ids : list Z) : list (finfo * value) := [
  (mkField "IDs" "varint,1,rep,packed,name=ids,proto3" true, VSlice (KInt 64) (map (VInt 64) ids))].
Definition loginReq (uid : string) (codec : Z) : list (finfo * value) := [
  (mkField "UID" "bytes,1,opt,name=uid,proto3" true, VString (str uid));
  (mkField "Token" "bytes,2,opt,name=token,proto3" true, VString []);
  (mkField "ProtocolVer" "varint,3,opt,name=protocol_ver,proto3" true, VUint 32 1);
  (mkField "Codec" "varint,4,opt,name=codec,proto3" true, VUint 32 codec);
  (mkField "Platform" "bytes,5,opt,name=platform,proto3" true, VString (str "bot"))].
Definition reconnectReq (t : string) : list (finfo * value) := [
  (mkField "ReconnectToken" "bytes,1,opt,name=reconnect_token,proto3" true, VString (str t));
  (mkField "LastReliableSeq" "varint,2,opt,name=last_reliable_seq,proto3" true, VUint 32 0)].

(** A pointer to a request. *)
Definition ptr (fs : list (finfo * value)) : option value := Some (VPtr (typeOf (VStruct fs)) (Some (VStruct fs))).

Definition newFrame (msgID : Z) (raw : list Z) (b : Bot) : Frame * Bot :=
  let '(s, b) := nextSeq b in (mkFrame ProtocolVer msgID (botCodec b) s [] raw, b).

(** The senders differ in the message and in the counter they bump.  A bot
    with an unregistered codec calls a nil interface. *)
Definition sendMsg (writeOK : bool) (msgID : Z) (fs : list (finfo * value)) (count : Bot → Bot) (b : Bot) : res (option berr * Bot) :=
  let! c := MustGet (botCodec b) cs in
  let! raw := cMarshal c (ptr fs) in
  match raw with
  | inl e => Ok (Some (BotCodec (ECodec e)), b)
  | inr raw =>
      let '(f, b) := newFrame msgID raw b in
      Ok (writeFrame writeOK f (count b))
  end.

(** [now] is time.Now().UnixMilli(). *)
Definition Ping (now : Z) (writeOK : bool) (b : Bot) : res (option berr * Bot) :=
  sendMsg writeOK MsgPing (pingReq now) addPing b.
Definition MsgMatch : Z := 0x0100.
Definition SendMatch (module code : string) (writeOK : bool) (b : Bot) : res (option berr * Bot) :=
  sendMsg writeOK MsgMatch (matchReq module code) addSent b.
Definition SendMove (dir : Z) (writeOK : bool) (b : Bot) : res (option berr * Bot) :=
  sendMsg writeOK 0x1000 (moveReq dir) addSent b.
Definition SendCall (score : Z) (writeOK : bool) (b : Bot) : res (option berr * Bot) :=
  sendMsg writeOK 0x1300 (callReq score) addSent b.
Definition SendPlay (ids : list Z) (writeOK : bool) (b : Bot) : res (option berr * Bot) :=
  sendMsg writeOK 0x1301 (playReq ids) addSent b.

(** ** Handshakes *)

Definition loginRespType : kind := typeOf (VStruct (LoginResp "" 0 "")).
Definition reconnectRespType : kind := typeOf (VStruct (ReconnectResp "" false)).
(** The first field of both responses is the token. *)
Definition respToken (v : value) : string :=
  match v with VPtr _ (Some (VStruct ((_, VString t) :: _))) => unstr t | _ => ""%string end.

(** The answer to a handshake request: the body of an OK envelope.  A decoded
    envelope is never nil. *)
Definition awaitReply (ms : list (list Z)) (b : Bot) : res ((berr + list Z) * Bot * list (list Z)) :=
  let! (x, ms) := recvFrame ms b in
  let '(r, b) := x in
  match r with
  | inl e => Ok (inl e, b, ms)
  | inr resp =>
      let! env := DecodeEnvelope cs resp in
      match env with
      | inl e => Ok (inl (BotCodec e), b, ms)
      | inr None => Panic
      | inr (Some env) =>
          if decide (eCode env ≠ OK) then Ok (inl (BotRefused (eCode env)), b, ms)
          else Ok (inr (eBody env), b, ms)
      end
  end.

Definition login (writeOK : bool) (ms : list (list Z)) (b : Bot) : res (option berr * Bot * list (list Z)) :=
  match Envelope.Get (botCodec b) cs with
  | inl e => Ok (Some (BotCodec e), b, ms)
  | inr c =>
      let! raw := cMarshal c (ptr (loginReq (botUID b) (botCodec b))) in
      match raw with
      | inl e => Ok (Some (BotCodec (ECodec e)), b, ms)
      | inr raw =>
          let '(f, b) := newFrame MsgLogin raw b in
          match writeFrame writeOK f b with
          | (Some e, b) => Ok (Some e, b, ms)
          | (None, b) =>
              let! (x, ms) := awaitReply ms b in
              match x with
              | (inl e, b) => Ok (Some e, b, ms)
              | (inr body, b) =>
                  let! lr := cUnmarshal c body (newMsg loginRespType) in
                  match lr with
                  | inl e => Ok (Some (BotCodec (ECodec e)), b, ms)
                  | inr v => Ok (None, set_token (respToken v) b, ms)
                  end
              end
          end
      end
  end.

(** [ConnectTo] and the dial of [Reconnect]: [dialed] is whether it succeeds. *)
Definition ConnectTo (dialed writeOK : bool) (ms : list (list Z)) (b : Bot) : res (option berr * Bot * list (list Z)) :=
  if dialed then login writeOK ms b else Ok (Some BotDial, b, ms).

(** Encoding and decoding errors are ignored: the body of a request that
    failed to encode is nil, and [partialToken] is the token a failed decode
    leaves. *)
Definition Reconnect (partialToken : list Z → string) (dialed writeOK : bool) (ms : list (list Z)) (b : Bot)
    : res (option berr * Bot * list (list Z)) :=
  let b := addReconnect b in
  if negb dialed then Ok (Some BotDial, b, ms) else
  let b := set_buf [] b in
  let! c := MustGet (botCodec b) cs in
  let! raw := cMarshal c (ptr (reconnectReq (token b))) in
  let raw := match raw with inr raw => raw | inl _ => [] end in
  let '(f, b) := newFrame MsgReconnect raw b in
  match writeFrame writeOK f b with
  | (Some e, b) => Ok (Some e, b, ms)
  | (None, b) =>
      let! (x, ms) := awaitReply ms b in
      match x with
      | (inl e, b) => Ok (Some e, b, ms)
      | (inr body, b) =>
          let! rr := cUnmarshal c body (newMsg reconnectRespType) in
          Ok (None, set_token (match rr with inr v => respToken v | inl _ => partialToken body end) b, ms)
      end
  end.

(** ** The receive loop *)

Definition pongType : kind := typeOf (VStruct (Pong 0 0)).

(** One frame: the counters and, for a pong, the latency. [now] is
    time.Now().UnixMilli() at that point. *)
Definition onRecv (now : Z) (f : Frame) (b : Bot) : res Bot :=
  let b := addRecv b in
  if decide (MsgID f = MsgPong) then
    let! c := MustGet (botCodec b) cs in
    let! p := cUnmarshal c (Body f) (newMsg pongType) in
    let b := match p with
             | inr v =>
                 let ts := pingTS v in
                 if decide (ts > 0) then
                   let lat := wrap_i64 (now - ts) in
                   if decide (lat > 0) then addLatency (wrap_i64 (lat * 10^6)) b else b
                 else b
             | inl _ => b
             end in
    Ok (addPong b)
  else Ok b.

(** [RecvLoop]: the frames handed to the handler, until a read fails or the
    context ends ([live], asked before each frame).  Every frame consumes bytes,
    so the number of bytes bounds the loop. *)
Fixpoint recvFrames (fuel : nat) (clock : nat → Z) (live : nat → bool) (i : nat) (ms : list (list Z)) (b : Bot)
    : res (list Frame * berr * Bot) :=
  match fuel with
  | O => OutOfFuel
  | S fuel =>
      if negb (live i) then Ok ([], BotDone, b) else
      let! (x, ms) := recvFrame ms b in
      match x with
      | (inl e, b) => Ok ([], e, addError b)
      | (inr f, b) =>
          let! b := onRecv (clock i) f b in
          let! (y, b) := recvFrames fuel clock live (S i) ms b in
          let '(fs, e) := y in
          Ok (f :: fs, e, b)
      end
  end.

Definition RecvLoop (clock : nat → Z) (live : nat → bool) (ms : list (list Z)) (b : Bot) : res (list Frame * berr * Bot) :=
  recvFrames (S (length (recvBuf b) + length (concat ms))) clock live 0 ms b.
End Client.

(** ** Metrics *)

Record BotMetrics := mkMetrics {
  mID : Z; mPingsSent : Z; mPongsRecv : Z; mMsgsSent : Z; mMsgsRecv : Z; mErrors : Z; mReconnects : Z;
  LatencyAvgMS : spec_float; LatencyMaxMS : spec_float }.

Definition millis : spec_float := float_of (10^6).
Definition fdiv (a b : spec_float) : spec_float := SFdiv 53 1024 a b.

Definition Metrics (b : Bot) : BotMetrics :=
  mkMetrics (botID b) (pingsSent b) (pongsRecv b) (msgsSent b) (msgsRecv b) (errors b) (reconnects b)
    (if latencyCount b >? 0 then fdiv (fdiv (float_of (latencySum b)) (float_of (latencyCount b))) millis
     else float_of 0)
    (fdiv (float_of (latencyMax b)) millis).
