(* ===== verification/BotThm.v ===== *)
(** * The benchmark client: what it reads (bench/bot/bot.go)

    Reading frames off WebSocket messages, the login handshake against the
    server's answer, and what the client makes of a pong. *)

From Stdlib Require Import SpecFloat.
From S2P Require Import Prelude Frame ProtoWire Proto ProtoThm Envelope GoStrings ConnLink Connector ConnectorThm Bot.

(** ** Frames out of messages *)

(** Messages within the client's read limit. *)
Definition readable (ms : list (list Z)) : Prop := Forall (fun m => zlen m ≤ readLimit) ms.
#[global] Instance readable_dec ms : Decision (readable ms).
Proof. unfold readable. apply _. Defined.

(** The bytes still to be read begin with a frame: the loop returns it and
    keeps the rest. *)
Lemma recvLoop_frame f rest ms : Frame.sendable 0 f → readable ms → ∀ buf,
  buf ++ concat ms = encoding (normalize f) ++ rest →
  ∃ buf' ms', recvLoop ms buf = Ok (inr (normalize f), buf', ms') ∧ buf' ++ concat ms' = rest ∧ readable ms'.
Proof.
  intros Hf Hms. pose proof Hf as (Hwf & Hr & Hp & Hm). induction Hms as [|m ms Hlim Hms IH]; intros buf E.
  - cbn [concat] in E. rewrite app_nil_r in E. subst buf. cbn [recvLoop]. rewrite decide_False.
    + rewrite decode_encoding by done. cbn [rbind]. exists rest, []. split; [done|]. split; [by rewrite app_nil_r|constructor].
    + intros E%app_nil%proj1. apply (f_equal zlen) in E. rewrite zlen_encoding in E. change (zlen []) with 0 in E.
      pose proof (zlen_nonneg (Body (normalize f))). pose proof (zlen_nonneg (Route (normalize f))).
      unfold payload_len, headerFixedLen, routeLenSize in E. case_decide; lia.
  - assert (Hnext : ∃ buf' ms', recvLoop ms (buf ++ m) = Ok (inr (normalize f), buf', ms') ∧ buf' ++ concat ms' = rest ∧ readable ms').
    { apply IH. by rewrite <- app_assoc. }
    assert (readable (m :: ms)) as Hall by by constructor.
    cbn [recvLoop]. rewrite (proj2 (Z.leb_le _ _) Hlim). destruct (decide (buf = [])) as [Hb|Hb]; [by apply Hnext|].
    apply app_eq_inv in E as [(k & -> & ->)|(k & E1 & E2)].
    + rewrite decode_encoding by done. cbn [rbind]. eexists _, _. split; [done|]. by split.
    + destruct (decide (k = [])) as [-> |Hk].
      * rewrite app_nil_r in E1. cbn in E2. subst rest. rewrite <- E1, <- (app_nil_r (encoding _)).
        rewrite decode_encoding by done. cbn [rbind]. eexists _, _. split; [done|]. by split.
      * destruct (decode_cut f 0 buf Hf) as (e & r & -> & He).
        { by exists k. } { intros ->. rewrite <- app_nil_r in E1 at 1. by apply app_inv_head in E1. }
        cbn [rbind]. by destruct He as [-> | ->].
Qed.

Lemma recvLoop_end ms : concat ms = [] → recvLoop ms [] = Ok (inl BotRead, [], []).
Proof.
  induction ms as [|m ms IH]; [done|]. cbn [concat recvLoop]. intros [-> E]%app_nil. rewrite decide_True by done. cbn.
  by apply IH.
Qed.

Lemma pong_returns c data : CodecReturns c → ∃ x, cUnmarshal c data (newMsg pongType) = Ok x.
Proof.
  intros HR. destruct (decode_returns c data (fieldsOf pongType) HR) as [[e He]|(fs & He & Hty)]; [|done|by eexists; exact He|by eexists; exact He].
  cbn. repeat split; done.
Qed.

(** ** The receive loop *)

Definition isPong (f : Frame) : Prop := MsgID f = MsgPong.
#[global] Instance isPong_dec f : Decision (isPong f).
Proof. unfold isPong. apply _. Defined.

Section Recv.
Context (cs : codecs) (HR : ∀ t c, cs !! t = Some c → CodecReturns c).

(** The counters a frame bumps; nothing else of the client's state but the
    latencies changes. *)
Lemma onRecv_run now f b : is_Some (cs !! botCodec b) →
  ∃ b', onRecv cs now f b = Ok b' ∧ botCodec b' = botCodec b ∧ recvBuf b' = recvBuf b ∧ errors b' = errors b ∧
    msgsRecv b' = msgsRecv b + 1 ∧ pongsRecv b' = pongsRecv b + (if decide (isPong f) then 1 else 0).
Proof.
  intros [c Hc]. unfold onRecv. destruct (decide (MsgID f = MsgPong)) as [Hp|Hp];
    [rewrite (decide_True (P := isPong f)) by done|rewrite (decide_False (P := isPong f)) by done; eexists; split_and!; [done..|cbn; lia]].
  unfold MustGet, Envelope.Get. cbn [botCodec addRecv]. rewrite Hc. cbn [rbind].
  destruct (pong_returns c (Body f) (HR _ _ Hc)) as [x ->]. cbn [rbind].
  destruct x as [e|v]; [by eexists|]. do 2 (case_decide; [|by eexists]). by eexists.
Qed.

Lemma encoding_nonempty f : (0 < length (encoding f))%nat.
Proof. unfold encoding. rewrite !length_app. cbn. lia. Qed.

Lemma recvFrames_run clock fs : Forall (Frame.sendable 0) fs → ∀ fuel i ms b,
  is_Some (cs !! botCodec b) → readable ms → (length fs < fuel)%nat → recvBuf b ++ concat ms = Frame.wire fs →
  ∃ b', recvFrames cs fuel clock (fun _ => true) i ms b = Ok (normalize <$> fs, BotRead, b') ∧
    recvBuf b' = [] ∧ errors b' = errors b + 1 ∧ msgsRecv b' = msgsRecv b + zlen fs ∧
    pongsRecv b' = pongsRecv b + zlen (filter isPong fs).
Proof.
  induction 1 as [|f fs Hf Hfs IH]; intros [|fuel] i ms b Hc Hms Hn E; try (cbn in Hn; lia); cbn [recvFrames negb].
  - unfold Frame.wire in E. cbn in E. apply app_nil in E as [E1 E2]. unfold recvFrame. rewrite E1, recvLoop_end by done.
    cbn [rbind]. eexists. split_and!; [done..|cbn; unfold zlen; cbn; lia|cbn; unfold zlen; cbn; lia].
  - unfold Frame.wire in E. rewrite fmap_cons in E. cbn [concat] in E. fold (Frame.wire fs) in E.
    destruct (recvLoop_frame f (Frame.wire fs) ms Hf Hms _ E) as (buf' & ms' & HL & E' & Hms'). unfold recvFrame. rewrite HL. cbn [rbind].
    destruct (onRecv_run (clock i) (normalize f) (set_buf buf' b)) as (b1 & -> & Hc1 & Hb1 & He1 & Hm1 & Hp1); [done|].
    cbn [rbind]. destruct (IH fuel (S i) ms' b1) as (b2 & -> & Hb2 & He2 & Hm2 & Hp2).
    + by rewrite Hc1. + done. + cbn in Hn. lia. + by rewrite Hb1.
    + cbn [rbind]. eexists. split; [done|]. split_and!; [done|rewrite He2, He1; done|..].
      * rewrite Hm2, Hm1, zlen_cons. cbn [msgsRecv set_buf]. lia.
      * rewrite Hp2, Hp1, filter_cons. change (decide (isPong (normalize f))) with (decide (isPong f)). cbn [pongsRecv set_buf].
        destruct (decide (isPong f)); rewrite ?zlen_cons; lia.
Qed.

Lemma length_wire fs : (length fs ≤ length (Frame.wire fs))%nat.
Proof.
  unfold Frame.wire. induction fs as [|f fs IH]; [done|]. rewrite fmap_cons. cbn [concat length]. rewrite length_app.
  pose proof (encoding_nonempty (normalize f)). lia.
Qed.

(** C40. The client reads what the server sent, however the bytes are cut into
    WebSocket messages of at most the client's read limit of 256 KiB (a longer
    one is a read error), as long as every frame is within the 64 KiB the
    client accepts: frames may share a message or span several, and the receive
    loop hands every one of them to its handler, in order, counts them and the
    pongs among them, keeps no byte, and ends with the connection's read error,
    counted once. *)
Theorem client_reads_all clock fs ms b :
  is_Some (cs !! botCodec b) → Forall (Frame.sendable 0) fs → Forall (fun m => zlen m ≤ readLimit) ms →
  recvBuf b ++ concat ms = Frame.wire fs →
  ∃ b', RecvLoop cs clock (fun _ => true) ms b = Ok (normalize <$> fs, BotRead, b') ∧
    recvBuf b' = [] ∧ errors b' = errors b + 1 ∧ msgsRecv b' = msgsRecv b + zlen fs ∧
    pongsRecv b' = pongsRecv b + zlen (filter isPong fs).
Proof.
  intros Hc Hfs Hms E. apply recvFrames_run; [done..| |done]. apply (f_equal length) in E. rewrite length_app in E.
  pose proof (length_wire fs). lia.
Qed.
End Recv.

(** ** Logging in *)

Lemma codec_normalize f : CodecType (normalize f) = CodecType f.
Proof.
  unfold CodecType, normalize. cbn [Flag set_flag]. 
  destruct (decide (Route f ≠ [])) as [Hr|Hr]; apply Z.bits_inj'; intros n Hn;
    rewrite !Z.land_spec, ?Z.lor_spec, ?Z.ldiff_spec; change FlagCodecMask with (Z.ones 4); change FlagRoute with (2^7);
    rewrite Z.pow2_bits_eqb by lia; rewrite Z.testbit_ones_nonneg by lia;
    destruct (Z.eqb_spec 7 n); destruct (Z.ltb_spec n 4); try lia; destruct (Z.testbit (Flag f) n); done.
Qed.

Lemma loginResp_message t h u : - 2^63 ≤ h < 2^63 → message (LoginResp t h u).
Proof.
  intros Hh. split; [apply (bool_decide_unpack _); vm_compute; exact I|].
  unfold LoginResp. repeat apply Forall_cons_2; [..|apply Forall_nil_2]; cbn [fst snd].
  - apply (fieldOK_single _ _ _ "bytes" 1); [done..|unfold validNumber; lia|done|]. by right.
  - apply (fieldOK_single _ _ _ "varint" 2); [done..|unfold validNumber; lia|done|]. right.
    split_and!; [done|by right; right; right|lia|lia].
  - apply (fieldOK_single _ _ _ "bytes" 3); [done..|unfold validNumber; lia|done|]. by right.
Qed.

Section Login.
Context (cs : codecs).
Hypothesis Hproto : cs !! TypeProtobuf = Some ProtoCodec.

(** A client logs in: when the server answers the request with an OK
    envelope around its login response and the connection takes the request,
    the handshake returns without an error, whatever the cuts between the
    messages that carry the answer, having written the one frame of the
    request with the next sequence number; the client then holds the
    reconnect token the server issued and has read nothing beyond the answer. *)
Theorem login_gets_token tok hb sid s raw body reply rest ms b :
  botCodec b = TypeProtobuf → - 2^63 ≤ hb < 2^63 → u32 s →
  Marshal (ptr (loginReq (botUID b) TypeProtobuf)) = ret body → zlen body ≤ 2^31 →
  Marshal (Some (VStruct (LoginResp tok hb sid))) = ret raw → Forall is_byte raw → zlen raw < 2^63 →
  NewOKFrameFor cs TypeProtobuf MsgLogin s (Some (VStruct (LoginResp tok hb sid))) = Ok (inr reply) →
  Frame.sendable 0 reply → readable ms →
  recvBuf b ++ concat ms = encoding (normalize reply) ++ rest →
  ∃ b' ms', login cs true ms b = Ok (None, b', ms') ∧ token b' = tok ∧
    sent b' = sent b ++ [encoding (normalize (mkFrame ProtocolVer MsgLogin TypeProtobuf ((seq b + 1) mod 2^32) [] body))] ∧
    recvBuf b' ++ concat ms' = rest.
Proof.
  intros Hc Hh Hs Hbody Hbz Hraw Hbytes Hz Hreply Hsend Hms E.
  destruct (frame_decodes cs TypeProtobuf ProtoCodec MsgLogin s OK [] (Some (VStruct (LoginResp tok hb sid))) raw)
    as (f & Hf & _ & _ & _ & Hdec); [done|apply _|unfold TypeProtobuf; lia|done|unfold u16, OK; lia|by split|].
  unfold NewOKFrameFor in Hreply. rewrite Hf in Hreply. injection Hreply as ->.
  unfold login, Envelope.Get. rewrite Hc, Hproto. cbn [cMarshal ProtoCodec]. rewrite Hbody. cbn [rbind ret].
  unfold newFrame, nextSeq. cbn [botCodec]. rewrite Hc. unfold writeFrame. rewrite EncodeFrame_ok; cycle 1.
  { unfold zlen. cbn. lia. }
  { unfold payload_len, headerFixedLen, routeLenSize. cbn [Route Body]. rewrite decide_False by (by intros []). lia. }
  cbn [snd]. unfold awaitReply, recvFrame. cbn [recvBuf].
  destruct (recvLoop_frame reply rest ms Hsend Hms _ E) as (buf' & ms' & -> & E' & _). cbn [rbind].
  assert (DecodeEnvelope cs (normalize reply) = DecodeEnvelope cs reply) as ->.
  { unfold DecodeEnvelope. by rewrite codec_normalize. }
  rewrite Hdec; cycle 1.
  { destruct Hsend as (_ & _ & Hp & _). unfold payload_len, headerFixedLen, routeLenSize in Hp.
    pose proof (zlen_nonneg (Route reply)). case_decide; lia. }
  cbn [rbind eCode eBody]. rewrite decide_False by (by intros []). cbn [rbind].
  destruct (message_decodes _ (fun _ => true) (loginResp_message tok hb sid Hh)) as (bs & Hbs & Hu).
  rewrite Hraw in Hbs. injection Hbs as <-. rewrite known_all in Hu. specialize (Hu Hz loginRespType).
  unfold newMsg. change (zero loginRespType) with (VStruct (zeros (LoginResp tok hb sid))).
  cbn [cUnmarshal ProtoCodec]. rewrite Hu. cbn [rbind ret]. eexists _, _. split; [done|].
  split; [cbn; apply unstr_str|]. split; [done|]. exact E'.
Qed.
End Login.

(** ** Examples *)

(** Finding. The latency of a pong is not measured: the server wraps the pong in
    the response envelope, whose first field is the sequence number, and the
    client decodes the envelope as if it were the pong.  A pong that answers
    the ping number 5 after 3 ms counts as a round trip of the time since the
    epoch less 5 ms. *)
Theorem latency_from_envelope : ∃ f b,
  NewOKFrameFor demoCodecs TypeProtobuf MsgPong 5 (Some (VStruct (Pong 1700000000000 1700000000001))) = Ok (inr f) ∧
  onRecv demoCodecs 1700000000003 f (New 1 "u" TypeProtobuf) = Ok b ∧
  latencyCount b = 1 ∧ latencyMax b = (1700000000003 - 5) * 10^6.
Proof. eexists _, _. split; [vm_compute; reflexivity|]. split; [vm_compute; reflexivity|]. by split. Qed.

Lemma demoBot_codec : is_Some (demoCodecs !! botCodec (New 1 "u" TypeProtobuf)).
Proof. by eexists. Qed.

(** Two frames cut in the middle of the first length field and inside the
    second frame. *)
Lemma client_reads_all_witness : ∃ b',
  RecvLoop demoCodecs (fun _ => 0) (fun _ => true)
    [take 3 (Frame.wire [f1; f2]); drop 3 (enc f1) ++ take 5 (enc f2); []; drop 5 (enc f2)] (New 1 "u" TypeProtobuf)
    = Ok ([f1; f2], BotRead, b') ∧ msgsRecv b' = 2.
Proof.
  destruct (client_reads_all demoCodecs demoCodecs_return (fun _ => 0) [f1; f2]
    [take 3 (Frame.wire [f1; f2]); drop 3 (enc f1) ++ take 5 (enc f2); []; drop 5 (enc f2)] (New 1 "u" TypeProtobuf)
    demoBot_codec demo_sendable ltac:(apply (bool_decide_unpack _); vm_compute; exact I) eq_refl) as (b' & H & _ & _ & Hm & _).
  exists b'. by split.
Defined.

Definition demoReply : Frame := Eval vm_compute in
  match NewOKFrameFor demoCodecs TypeProtobuf MsgLogin 1 (Some (VStruct (LoginResp "tok" 15000 "u"))) with
  | Ok (inr f) => f | _ => mkFrame 0 0 0 0 [] [] end.
Definition demoRaw : list Z := Eval vm_compute in
  match Marshal (Some (VStruct (LoginResp "tok" 15000 "u"))) with Ok (inr b) => b | _ => [] end.
Definition demoReqBody : list Z := Eval vm_compute in
  match Marshal (ptr (loginReq "u" TypeProtobuf)) with Ok (inr b) => b | _ => [] end.
Definition demoMsgs : list (list Z) := Eval vm_compute in
  [take 7 (encoding (normalize demoReply)); drop 7 (encoding (normalize demoReply))].

Lemma demoReply_sendable : Frame.sendable 0 demoReply.
Proof.
  split; [|vm_compute; split_and!; discriminate].
  split; try (apply (bool_decide_unpack _); vm_compute; exact I); unfold is_byte, is_u32; vm_compute; split; discriminate || reflexivity.
Qed.

Lemma login_gets_token_witness : ∃ b' ms',
  login demoCodecs true demoMsgs (New 1 "u" TypeProtobuf) = Ok (None, b', ms') ∧ token b' = "tok"%string.
Proof.
  pose proof (login_gets_token demoCodecs eq_refl "tok" 15000 "u" 1 demoRaw demoReqBody demoReply [] demoMsgs (New 1 "u" TypeProtobuf)) as H.
  destruct H as (b' & ms' & H & Ht & _); [..|exists b', ms'; split; [exact H|exact Ht]].
  - reflexivity.
  - lia.
  - unfold u32. lia.
  - vm_compute. reflexivity.
  - vm_compute. discriminate.
  - vm_compute. reflexivity.
  - apply (bool_decide_unpack _). vm_compute. exact I.
  - vm_compute. reflexivity.
  - vm_compute. reflexivity.
  - exact demoReply_sendable.
  - apply (bool_decide_unpack _). vm_compute. exact I.
  - vm_compute. reflexivity.
Defined.
