(* ===== verification/Actor.v ===== *)
(** * The actor engine (internal/actor: registry.go, mailbox.go, supervisor.go, engine.go)

    Every actor is a goroutine that serves a bounded mailbox.  The engine state
    holds the processes with their mailboxes and the point their [run] loop has
    reached; other goroutines interleave with the loops through [Spawn], [Tell],
    [Stop] and [Shutdown].  The behaviour of an actor (its Init, OnMessage and
    OnStop, and the Invoke closures it is sent) is a parameter: a function from
    the actor's state to the state after the call, whether it asked to stop, and
    whether it panicked.  [accepted] and [handled] are ghost histories. *)

From S2P Require Import Prelude.

(** ** The registry *)

Record Registry := mkRegistry {
  regUID : gmap string Z;
  regRoom : gmap string Z;
  idToUID : gmap Z string;
  idToRoom : gmap Z string }.

Definition NewRegistry : Registry := mkRegistry ∅ ∅ ∅ ∅.

(** The body shared by [BindUID] and [BindRoom]: drop what the id and the key
    were bound to, then bind them to each other. *)
Definition bindPair (key : string) (id : Z) (fwd : gmap string Z) (bwd : gmap Z string)
    : gmap string Z * gmap Z string :=
  let fwd := match bwd !! id with Some old => delete old fwd | None => fwd end in
  let bwd := match fwd !! key with Some oldID => delete oldID bwd | None => bwd end in
  (<[key := id]> fwd, <[id := key]> bwd).

Definition BindUID (uid : string) (id : Z) (r : Registry) : Registry :=
  let '(f, b) := bindPair uid id (regUID r) (idToUID r) in mkRegistry f (regRoom r) b (idToRoom r).
Definition BindRoom (roomID : string) (id : Z) (r : Registry) : Registry :=
  let '(f, b) := bindPair roomID id (regRoom r) (idToRoom r) in mkRegistry (regUID r) f (idToUID r) b.

Definition LookupUID (uid : string) (r : Registry) : option Z := regUID r !! uid.
Definition LookupRoom (roomID : string) (r : Registry) : option Z := regRoom r !! roomID.

Definition unbindPair (id : Z) (fwd : gmap string Z) (bwd : gmap Z string) : gmap string Z * gmap Z string :=
  match bwd !! id with
  | Some key => (delete key fwd, delete id bwd)
  | None => (fwd, bwd)
  end.

Definition Unbind (id : Z) (r : Registry) : Registry :=
  let '(fu, bu) := unbindPair id (regUID r) (idToUID r) in
  let '(fr, br) := unbindPair id (regRoom r) (idToRoom r) in
  mkRegistry fu fr bu br.

(** ** Mailbox policies *)

Inductive onFull := FullDrop | FullKick | FullBlock | FullOther.
Record MailboxPolicy := mkPolicy { Capacity : Z; OnFull : onFull; DrainBatch : Z }.

Definition defaultCapacity : Z := 1024.
Definition defaultDrainBatch : Z := 64.

Definition normalizePolicy (p : MailboxPolicy) : MailboxPolicy :=
  mkPolicy
    (if Capacity p <=? 0 then defaultCapacity else Capacity p)
    (match OnFull p with FullOther => FullKick | f => f end)
    (if DrainBatch p <=? 0 then defaultDrainBatch else DrainBatch p).

(** ** Supervision: panics within a sliding window of 60 s (nanoseconds) *)

Definition panicWindow : Z := 60 * 10^9.
Definition maxPanicInWindow : Z := 3.

Definition notePanic (now : Z) (panics : list Z) : bool * list Z :=
  let cutoff := now - panicWindow in
  let panics := filter (fun t => cutoff < t) panics ++ [now] in
  (maxPanicInWindow <=? zlen panics, panics).

Section Engine.
(** [A]: states of actors; [M]: envelopes. *)
Context {A M : Type}.

Record outcome := mkOutcome { after : A; stops : bool; panics_ : bool }.
Variable onInit : A → outcome.
Variable exec : M → A → outcome.
Variable onStop : A → outcome.

(** Where the goroutine of a process is: before Init, at the select of [run],
    in [drainBatch] with [i] iterations left, in [drainRemaining], returned. *)
Inductive pc := AtInit | AtSelect | InBatch (i : nat) | InDrain | Returned.

Record process := mkProc {
  pactor : A;
  mb : list M;
  policy : MailboxPolicy;
  parent : Z;
  stopping : bool;               (* stopSig closed and stopping set, by beginDrain *)
  panics : list Z;
  at_ : pc;
  accepted : list M;
  handled : list M }.

Definition set_at (c : pc) (p : process) : process :=
  mkProc (pactor p) (mb p) (policy p) (parent p) (stopping p) (panics p) c (accepted p) (handled p).
Definition beginDrain (p : process) : process :=
  mkProc (pactor p) (mb p) (policy p) (parent p) true (panics p) (at_ p) (accepted p) (handled p).
Definition set_panics (l : list Z) (p : process) : process :=
  mkProc (pactor p) (mb p) (policy p) (parent p) (stopping p) l (at_ p) (accepted p) (handled p).
Definition set_actor (a : A) (p : process) : process :=
  mkProc a (mb p) (policy p) (parent p) (stopping p) (panics p) (at_ p) (accepted p) (handled p).
Definition enqueue (m : M) (p : process) : process :=
  mkProc (pactor p) (mb p ++ [m]) (policy p) (parent p) (stopping p) (panics p) (at_ p) (accepted p ++ [m]) (handled p).
Definition dequeue (m : M) (rest : list M) (p : process) : process :=
  mkProc (pactor p) rest (policy p) (parent p) (stopping p) (panics p) (at_ p) (accepted p) (handled p ++ [m]).

(** [safeCall]: the call's effects, then the recovery of a panic. *)
Definition safeCall (now : Z) (fn : A → outcome) (p : process) : process :=
  let o := fn (pactor p) in
  let p := set_actor (after o) p in
  let p := if stops o then beginDrain p else p in
  if panics_ o then
    let '(limit, l) := notePanic now (panics p) in
    let p := set_panics l p in
    if limit then beginDrain p else p
  else p.

(** The mailbox's head is received and handled. *)
Definition handleOne (now : Z) (m : M) (rest : list M) (p : process) : process :=
  safeCall now (exec m) (dequeue m rest p).

(** One step of [run].  A goroutine at the select may take the stop signal once
    it is closed, or the head of the mailbox ([sig]); [None]: it blocks. *)
Definition runStep (now : Z) (sig : bool) (p : process) : option process :=
  match at_ p with
  | AtInit =>
      let p := safeCall now onInit p in
      Some (set_at (if stopping p then Returned else AtSelect) p)
  | AtSelect =>
      if sig then (if stopping p then Some (set_at InDrain p) else None) else
      match mb p with
      | [] => None
      | m :: rest =>
          let p := handleOne now m rest p in
          Some (set_at (if stopping p then InDrain else InBatch (Z.to_nat (DrainBatch (policy p)))) p)
      end
  | InBatch i =>
      match i, mb p with
      | S i', m :: rest =>
          let p := handleOne now m rest p in
          Some (set_at (if stopping p then Returned else InBatch i') p)
      | _, _ => Some (set_at (if stopping p then Returned else AtSelect) p)
      end
  | InDrain =>
      match mb p with
      | [] => Some (set_at Returned p)
      | m :: rest => Some (handleOne now m rest p)
      end
  | Returned => None
  end.

(** ** The engine *)

Record engine := mkEngine {
  nextID : Z;
  procs : gmap Z process;
  reg : Registry;
  stopAll : bool;
  watchers : gmap Z (list Z);    (* parent -> children in its notification channel *)
  actorCount : Z }.

Definition NewEngine : engine := mkEngine 0 ∅ NewRegistry false ∅ 0.

Definition set_procs (ps : gmap Z process) (e : engine) : engine :=
  mkEngine (nextID e) ps (reg e) (stopAll e) (watchers e) (actorCount e).
Definition set_reg (r : Registry) (e : engine) : engine :=
  mkEngine (nextID e) (procs e) r (stopAll e) (watchers e) (actorCount e).

(** The id counter is a uint64. *)
Definition Spawn (a : A) (pol : MailboxPolicy) (par : Z) (e : engine) : Z * engine :=
  let id := to_u64 (nextID e + 1) in
  let p := mkProc a [] (normalizePolicy pol) par false [] AtInit [] [] in
  (id, mkEngine id (<[id := p]> (procs e)) (reg e) (stopAll e) (watchers e) (actorCount e + 1)).

Inductive terr := ErrActorNotFound | ErrDropped | ErrKicked | ErrShuttingDown.

(** [None]: the caller blocks on a full mailbox of policy block. *)
Definition Tell (target : Z) (env : M) (e : engine) : option (option terr * engine) :=
  match procs e !! target with
  | None => Some (Some ErrActorNotFound, e)
  | Some p =>
      if zlen (mb p) <? Capacity (policy p) then
        Some (None, set_procs (<[target := enqueue env p]> (procs e)) e)
      else
        match OnFull (policy p) with
        | FullDrop => Some (Some ErrDropped, e)
        | FullKick => Some (Some ErrKicked, set_procs (<[target := beginDrain p]> (procs e)) e)
        | _ => if stopAll e then Some (Some ErrShuttingDown, e) else None
        end
  end.

Definition Stop (id : Z) (e : engine) : engine :=
  match procs e !! id with
  | Some p => set_procs (<[id := beginDrain p]> (procs e)) e
  | None => e
  end.

(** The part of [Shutdown] that does not wait. *)
Definition Shutdown (e : engine) : engine :=
  mkEngine (nextID e) (beginDrain <$> procs e) (reg e) true (watchers e) (actorCount e).

Definition WatchChild (par : Z) (e : engine) : engine :=
  match watchers e !! par with
  | Some _ => e
  | None => mkEngine (nextID e) (procs e) (reg e) (stopAll e) (<[par := []]> (watchers e)) (actorCount e)
  end.

(** The channel holds 64 notifications; further ones are dropped. *)
Definition notifyParent (par child : Z) (e : engine) : engine :=
  if decide (par = 0) then e else
  match watchers e !! par with
  | None => e
  | Some l =>
      if zlen l <? 64
      then mkEngine (nextID e) (procs e) (reg e) (stopAll e) (<[par := l ++ [child]]> (watchers e)) (actorCount e)
      else e
  end.

(** [finish] of a process that returned from [run]; the process leaves the
    table, so a second call finds nothing. *)
Definition finish (id : Z) (p : process) (e : engine) : engine :=
  let e := mkEngine (nextID e) (delete id (procs e)) (Unbind id (reg e)) (stopAll e) (watchers e) (actorCount e - 1) in
  notifyParent (parent p) id e.

(** One step of the goroutine of process [id]. *)
Definition stepProc (now : Z) (sig : bool) (id : Z) (e : engine) : option engine :=
  match procs e !! id with
  | None => None
  | Some p =>
      match at_ p with
      | Returned => Some (finish id (safeCall now onStop p) e)
      | _ => p' ← runStep now sig p; Some (set_procs (<[id := p']> (procs e)) e)
      end
  end.

Inductive estep : engine → engine → Prop :=
| es_spawn a pol par e : estep e (Spawn a pol par e).2
| es_tell target env e r e' : Tell target env e = Some (r, e') → estep e e'
| es_stop id e : estep e (Stop id e)
| es_shutdown e : estep e (Shutdown e)
| es_watch par e : estep e (WatchChild par e)
| es_bindUID uid id e : estep e (set_reg (BindUID uid id (reg e)) e)
| es_bindRoom room id e : estep e (set_reg (BindRoom room id (reg e)) e)
| es_proc now sig id e e' : stepProc now sig id e = Some e' → estep e e'.

Inductive ereach : engine → Prop :=
| er_new : ereach NewEngine
| er_step e e' : ereach e → estep e e' → ereach e'.
End Engine.
