(* ===== verification/ActorTimer.v ===== *)
(** * Timers of actors (schedule, After and Every of internal/actor/engine.go)

    The server builds its engine without a scheduler, so the timers of rooms and
    games are those of the Go runtime: a one-shot starts a goroutine that posts
    the callback to the actor's own mailbox, a periodic timer has a goroutine of
    its own that posts on every tick until the actor stops.  The model has the
    timers beside the engine of Actor.v; ticks, posts, cancellations and the
    engine interleave freely.  Go 1.24: the channel of a ticker holds one tick,
    and none once it is stopped. *)

From S2P Require Import Prelude Actor.

Section ActorTimer.
Context {A M : Type}.
Variable onInit onStop : A → @outcome A.
Variable exec : M → A → @outcome A.
Notation engine := (@engine A M).
Notation estep := (estep onInit exec onStop).

(** [fn] is the envelope with the callback.  [armed]: the runtime timer runs;
    [ticked]: a tick waits in the ticker's channel; [posting]: a goroutine is
    about to call [Tell]; [live]: the goroutine of a periodic timer exists.
    [born] and [posts] record when the timer was made and how many of its posts
    were accepted. *)
Record atimer := mkTimer {
  owner : Z;
  fn : M;
  period : option Z;
  due : Z;
  armed : bool;
  ticked : bool;
  posting : bool;
  live : bool;
  born : Z;
  posts : nat }.

(** [time.NewTicker] panics unless the period is positive; [time.AfterFunc]
    takes a negative delay for none. *)
Definition schedule (periodic : bool) (now d self : Z) (f : M) : res atimer :=
  if periodic then
    if decide (d ≤ 0) then Panic else Ok (mkTimer self f (Some d) (now + d) true false false true now 0)
  else Ok (mkTimer self f None (now + Z.max 0 d) true false false false now 0).
Definition After := schedule false.
Definition Every := schedule true.

Definition Cancel (t : atimer) : atimer :=
  mkTimer (owner t) (fn t) (period t) (due t) false false (posting t) (live t) (born t) (posts t).

(** The runtime at time [now]: the goroutine of an [AfterFunc] starts; a tick is
    sent unless one is waiting, and the next one is the first after [now]. *)
Definition expire (now : Z) (t : atimer) : option atimer :=
  if negb (armed t) || (now <? due t) then None else
  match period t with
  | None => Some (mkTimer (owner t) (fn t) None (due t) false (ticked t) true (live t) (born t) (posts t))
  | Some d => Some (mkTimer (owner t) (fn t) (Some d) (due t + d * (1 + (now - due t) / d)) true true (posting t) (live t) (born t) (posts t))
  end.

(** The select of the goroutine of a periodic timer: a tick, or the stop. *)
Definition receive (t : atimer) : option atimer :=
  if live t && ticked t && negb (posting t)
  then Some (mkTimer (owner t) (fn t) (period t) (due t) (armed t) false true true (born t) (posts t)) else None.
Definition quit (e : engine) (t : atimer) : option atimer :=
  let stopSig := match procs e !! owner t with Some p => stopping p | None => true end in
  if live t && negb (posting t) && (stopSig || stopAll e)
  then Some (mkTimer (owner t) (fn t) (period t) (due t) false false false false (born t) (posts t)) else None.

(** [post]; [None]: nothing to post, or [Tell] blocks. *)
Definition post (t : atimer) (e : engine) : option (atimer * engine) :=
  if negb (posting t) then None else
  '(r, e) ← Tell (owner t) (fn t) e;
  let n := match r with None => S (posts t) | Some _ => posts t end in
  Some (mkTimer (owner t) (fn t) (period t) (due t) (armed t) (ticked t) false (live t) (born t) n, e).

(** ** Interleaving *)

Record world := mkWorld { weng : engine; timers : gmap nat atimer; now : Z }.

Inductive wstep : world → world → Prop :=
| ws_time later w : now w ≤ later → wstep w (mkWorld (weng w) (timers w) later)
| ws_engine e w : estep (weng w) e → wstep w (mkWorld e (timers w) (now w))
| ws_schedule i periodic d self f t w : timers w !! i = None → is_Some (procs (weng w) !! self) →
    schedule periodic (now w) d self f = Ok t → wstep w (mkWorld (weng w) (<[i := t]> (timers w)) (now w))
| ws_cancel i t w : timers w !! i = Some t → wstep w (mkWorld (weng w) (<[i := Cancel t]> (timers w)) (now w))
| ws_expire i t t' w : timers w !! i = Some t → expire (now w) t = Some t' →
    wstep w (mkWorld (weng w) (<[i := t']> (timers w)) (now w))
| ws_receive i t t' w : timers w !! i = Some t → receive t = Some t' →
    wstep w (mkWorld (weng w) (<[i := t']> (timers w)) (now w))
| ws_quit i t t' w : timers w !! i = Some t → quit (weng w) t = Some t' →
    wstep w (mkWorld (weng w) (<[i := t']> (timers w)) (now w))
| ws_post i t t' e w : timers w !! i = Some t → post t (weng w) = Some (t', e) →
    wstep w (mkWorld e (<[i := t']> (timers w)) (now w)).

Definition start (t0 : Z) : world := mkWorld NewEngine ∅ t0.

(** ** How often and when *)

Definition b2n (b : bool) : nat := if b then 1 else 0.
(** Posts made, under way and due. *)
Definition fired (t : atimer) : nat := posts t + b2n (posting t) + b2n (ticked t).

Definition ATInv (at_ : Z) (t : atimer) : Prop :=
  born t ≤ at_ ∧
  match period t with
  | None => born t ≤ due t ∧ ticked t = false ∧ (fired t + b2n (armed t) ≤ 1)%nat ∧ (fired t = O ∨ due t ≤ at_)
  | Some d => 0 < d ∧ Z.of_nat (fired t) * d ≤ due t - d - born t ∧ due t - d ≤ at_
  end.

Lemma ATInv_later a b t : a ≤ b → ATInv a t → ATInv b t.
Proof.
  intros Hab [Hb H]. split; [lia|]. destruct (period t); [lia|]. destruct H as (? & ? & ? & [?|?]); split_and!; auto; right; lia.
Qed.
Lemma schedule_ATInv periodic at_ d self f t : schedule periodic at_ d self f = Ok t → ATInv at_ t.
Proof.
  unfold schedule. destruct periodic; [case_decide as Hd; [done|]|]; intros [= <-]; unfold ATInv, fired; cbn; split; lia.
Qed.
Lemma expire_ATInv at_ t t' : ATInv at_ t → expire at_ t = Some t' → ATInv at_ t'.
Proof.
  intros [Hb H]. unfold expire. destruct (armed t) eqn:Ea; [|done]. cbn [negb orb]. destruct (Z.ltb_spec at_ (due t)); [done|].
  destruct (period t) as [d|] eqn:Ep; intros [= <-]; unfold ATInv, fired in *; cbn [period born due posts posting ticked armed].
  - destruct H as (Hd & Hc & Hl). split; [done|].
    pose proof (Z.div_pos (at_ - due t) d ltac:(lia) Hd). pose proof (Z.mul_div_le (at_ - due t) d Hd).
    destruct (ticked t); cbn [b2n] in *; split_and!; nia.
  - destruct H as (Hbd & Ht & Hc & Hl). rewrite Ht in *. split; [done|].
    destruct (posting t); cbn [b2n] in *; split_and!; try done; try lia; by right.
Qed.
Lemma receive_ATInv at_ t t' : ATInv at_ t → receive t = Some t' → ATInv at_ t'.
Proof.
  intros [Hb H]. unfold receive. destruct (live t), (ticked t) eqn:Et, (posting t) eqn:Ep; try done.
  intros [= <-]. unfold ATInv, fired in *; cbn [period born due posts posting ticked armed]. rewrite Et, Ep in H. cbn [b2n] in *.
  destruct (period t); [split_and!; lia|]. by destruct H as (_ & ? & _).
Qed.
(** Cancelling and quitting only take ticks away. *)
Lemma ATInv_quiet at_ t t' : ATInv at_ t → period t' = period t → born t' = born t → due t' = due t →
  ticked t' = false → armed t' = false → (posts t' + b2n (posting t') ≤ posts t + b2n (posting t))%nat → ATInv at_ t'.
Proof.
  unfold ATInv, fired. intros [Hb H] -> -> -> -> -> Hle. split; [done|]. cbn [b2n].
  destruct (period t) as [d|]; [split_and!; nia|]. destruct H as (? & Ht & Hc & Hl). rewrite Ht in *. cbn [b2n] in *.
  split_and!; [done..|lia|]. destruct Hl as [Hl|?]; [left; lia|by right].
Qed.
Lemma quit_ATInv at_ e t t' : ATInv at_ t → quit e t = Some t' → ATInv at_ t'.
Proof. unfold quit. intros H. destruct (_ && _); [|done]. intros [= <-]. apply (ATInv_quiet _ _ _ H); cbn; auto; lia. Qed.
Lemma post_split t e t' e' : post t e = Some (t', e') → posting t = true ∧ posting t' = false ∧ period t' = period t ∧
  born t' = born t ∧ due t' = due t ∧ armed t' = armed t ∧ ticked t' = ticked t ∧ (posts t' ≤ S (posts t))%nat.
Proof.
  unfold post. destruct (posting t); [|done]. cbn [negb]. destruct (Tell _ _ e) as [[r e1]|]; [|done]. intros [= <- <-].
  cbn. split_and!; try done. destruct r; lia.
Qed.
Lemma post_ATInv at_ t e t' e' : ATInv at_ t → post t e = Some (t', e') → ATInv at_ t'.
Proof.
  unfold ATInv, fired. intros [Hb H] (Hp & Hp' & -> & -> & -> & -> & -> & Hle)%post_split. split; [done|].
  rewrite Hp' in *. rewrite Hp in H. cbn [b2n] in *. destruct (period t); [split_and!; nia|].
  destruct H as (? & Ht & Hc & Hl). rewrite Ht in *. cbn [b2n] in *. split_and!; [done..|lia|]. destruct Hl as [Hl|?]; [left; lia|by right].
Qed.

Lemma reach_ATInv t0 w i t : rtc wstep (start t0) w → timers w !! i = Some t → ATInv (now w) t.
Proof.
  intros H. revert i t. remember (start t0) as w0 eqn:E.
  assert (∀ i t, timers w0 !! i = Some t → ATInv (now w0) t) as H0 by (by subst).
  clear E. induction H as [|w w1 w2 Hs _ IH]; [done|]. apply IH. clear IH. intros j u.
  assert (∀ t (P : ATInv (now w) t) i, <[i := t]> (timers w) !! j = Some u → ATInv (now w) u) as Hput.
  { intros t P i [[_ <-]|[_ Hl]]%lookup_insert_Some; [done|by eapply H0]. }
  destruct Hs; cbn [timers now]; try (eapply Hput).
  - intros Hl. eapply ATInv_later; [done|by eapply H0].
  - apply H0.
  - by eapply schedule_ATInv.
  - eapply ATInv_quiet; [by eapply H0|..]; cbn; auto; lia.
  - eapply expire_ATInv; [by eapply H0|done].
  - eapply receive_ATInv; [by eapply H0|done].
  - eapply quit_ATInv; [by eapply H0|done].
  - eapply post_ATInv; [by eapply H0|done].
Qed.

(** Once the runtime timer is stopped and no tick waits, only the post under way
    can still come. *)
Definition stopped (n : nat) (t : atimer) : Prop :=
  armed t = false ∧ ticked t = false ∧ (posts t + b2n (posting t) ≤ n)%nat.

Lemma stopped_step n i w w' : wstep w w' → (∃ t, timers w !! i = Some t ∧ stopped n t) → ∃ t, timers w' !! i = Some t ∧ stopped n t.
Proof.
  intros Hs (t & Ht & Ha & Hk & Hp).
  assert (∀ j u u', timers w !! j = Some u → (stopped n u → stopped n u') →
    ∃ t, <[j := u']> (timers w) !! i = Some t ∧ stopped n t) as Hput.
  { intros j u u' Hu HP. destruct (decide (j = i)) as [->|Hne]; [|rewrite lookup_insert_ne by done; by exists t].
    rewrite lookup_insert_eq. exists u'. split; [done|]. simplify_eq. by apply HP. }
  destruct Hs as [| |j ? ? ? ? u|j u|j u u' ? Hu Hx|j u u' ? Hu Hx|j u u' ? Hu Hx|j u u' e ? Hu Hx]; cbn [timers]; try (by exists t);
    try (eapply Hput; [done|intros (Ea & Ek & El)]).
  - rewrite lookup_insert_ne by congruence. by exists t.
  - by split_and!.
  - unfold expire in Hx. by rewrite Ea in Hx.
  - unfold receive in Hx. rewrite Ek, andb_false_r in Hx. done.
  - unfold quit in Hx. destruct (live u); [|done]. destruct (posting u) eqn:Ep; [done|]. cbn [negb andb] in Hx.
    destruct (_ || _); [|done]. injection Hx as <-. split_and!; [done..|]. cbn in *. lia.
  - apply post_split in Hx as (Hp1 & Hp2 & _ & _ & _ & Ha' & Hk' & Hle). split_and!; [by rewrite Ha'|by rewrite Hk'|]. rewrite Hp2. rewrite Hp1 in El. cbn in *. lia.
Qed.

Lemma stopped_run n i w w' : rtc wstep w w' → (∃ t, timers w !! i = Some t ∧ stopped n t) → ∃ t, timers w' !! i = Some t ∧ stopped n t.
Proof. induction 1; eauto using stopped_step. Qed.

(** C20. Timers of actors keep their promises in every reachable state, whatever
    the actors, the engine and other timers do in between: the callback of a
    one-shot is posted to the actor's mailbox at most once and never before its
    delay is over; of a periodic one at most as often as whole periods have
    passed; and once the timer is cancelled, at most a post that was already
    under way is still made. *)
Theorem timers_on_time t0 w i t : rtc wstep (start t0) w → timers w !! i = Some t →
  match period t with
  | None => (posts t ≤ 1)%nat ∧ (posts t = O ∨ born t ≤ due t ≤ now w)
  | Some d => 0 < d ∧ Z.of_nat (posts t) * d ≤ now w - born t
  end ∧
  ∀ w', rtc wstep (mkWorld (weng w) (<[i := Cancel t]> (timers w)) (now w)) w' →
    ∃ t', timers w' !! i = Some t' ∧ (posts t' ≤ posts t + b2n (posting t))%nat.
Proof.
  intros Hr Ht. split.
  - destruct (reach_ATInv t0 w i t Hr Ht) as [Hb H]. unfold fired in H.
    destruct (period t) as [d|]; [split; [lia|nia]|]. destruct H as (? & _ & ? & [?|?]); (split; [lia|]); [left; lia|by right].
  - intros w' H. assert (∃ t', timers w' !! i = Some t' ∧ stopped (posts t + b2n (posting t)) t') as (t' & Ht' & _ & _ & Hle).
    { eapply stopped_run; [exact H|]. exists (Cancel t). cbn [timers]. by rewrite lookup_insert_eq. }
    exists t'. split; [done|lia].
Qed.

(** Nor is a timer lost: when it is due and the actor's mailbox has room, the
    goroutines can go on to post the callback behind what waits there. *)
Theorem due_timer_posts w i t p : timers w !! i = Some t → armed t = true → due t ≤ now w → posting t = false →
  (is_Some (period t) → live t = true) → procs (weng w) !! owner t = Some p → zlen (mb p) < Capacity (policy p) →
  ∃ w' t', rtc wstep w w' ∧ timers w' !! i = Some t' ∧ posts t' = S (posts t) ∧
    procs (weng w') !! owner t = Some (enqueue (fn t) p).
Proof.
  intros Ht Ha Hd Hp Hl Ho Hc.
  assert (∀ w u, weng w = weng w → timers w !! i = Some u → posting u = true → owner u = owner t → fn u = fn t → posts u = posts t →
    procs (weng w) !! owner t = Some p →
    ∃ w' t', wstep w w' ∧ timers w' !! i = Some t' ∧ posts t' = S (posts t) ∧ procs (weng w') !! owner t = Some (enqueue (fn t) p)) as Hpost.
  { intros w1 u _ Hu Hpu Eo Ef Ep Ho1. destruct (post u (weng w1)) as [[u' e']|] eqn:Ex;
      unfold post in Ex; rewrite Hpu in Ex; cbn [negb] in Ex; unfold Tell in Ex; rewrite Eo, Ho1 in Ex;
      rewrite (proj2 (Z.ltb_lt _ _) Hc) in Ex; cbn in Ex; [|done].
    injection Ex as <- <-. eexists _, _. split.
    { eapply ws_post; [exact Hu|]. unfold post. rewrite Hpu. cbn [negb]. unfold Tell. rewrite Eo, Ho1, (proj2 (Z.ltb_lt _ _) Hc). cbn. reflexivity. }
    cbn [timers weng procs set_procs]. rewrite lookup_insert_eq. split; [reflexivity|]. cbn [posts].
    split; [by rewrite Ep|]. rewrite Ef. apply lookup_insert_eq. }
  destruct (expire (now w) t) as [t1|] eqn:Ex; cycle 1.
  { unfold expire in Ex. rewrite Ha in Ex. cbn [negb orb] in Ex. destruct (Z.ltb_spec (now w) (due t)); [lia|]. by destruct (period t). }
  pose proof (ws_expire i t t1 w Ht Ex) as Hs1.
  unfold expire in Ex. rewrite Ha in Ex. cbn [negb orb] in Ex. destruct (Z.ltb_spec (now w) (due t)); [lia|].
  destruct (period t) as [d|] eqn:Epd; injection Ex as <-.
  - specialize (Hl (mk_is_Some _ _ eq_refl)).
    set (t1 := mkTimer _ _ _ _ _ _ _ _ _ _) in Hs1.
    set (w1 := mkWorld _ _ _) in Hs1.
    assert (∃ t2, receive t1 = Some t2 ∧ posting t2 = true ∧ owner t2 = owner t ∧ fn t2 = fn t ∧ posts t2 = posts t) as (t2 & Hx & ? & ? & ? & ?).
    { unfold receive, t1. cbn. rewrite Hl, Hp. cbn. by eexists. }
    pose proof (ws_receive i t1 t2 w1 (lookup_insert_eq _ _ _) Hx) as Hs2. set (w2 := mkWorld _ _ _) in Hs2.
    destruct (Hpost w2 t2 eq_refl (lookup_insert_eq _ _ _)) as (w' & t' & Hs & ?); try done.
    exists w', t'. split; [by eapply rtc_l, rtc_l, rtc_once|done].
  - match type of Hs1 with wstep _ ?w1 => destruct (Hpost w1 _ eq_refl (lookup_insert_eq _ _ _)) as (w' & t' & Hs & ?); try done end.
    exists w', t'. split; [by eapply rtc_l, rtc_once|done].
Qed.

(** Finding. Cancelling a periodic timer stops its ticks but not its goroutine:
    it waits, with nothing to receive, until the actor or the engine stops. *)
Theorem cancelled_ticker_waits e t p : live t = true → procs e !! owner t = Some p → stopping p = false → stopAll e = false →
  live (Cancel t) = true ∧ receive (Cancel t) = None ∧ quit e (Cancel t) = None.
Proof.
  intros Hl Hp Hs Ha. unfold receive, quit. cbn. rewrite Hl, Hp, Hs, Ha. split_and!; [done..|]. by destruct (posting t).
Qed.
End ActorTimer.

(** ** A tick *)

Definition calm (x : unit) : @outcome unit := mkOutcome x false false.
Notation dworld := (@world unit nat).
Notation dtimer := (@atimer nat).
Definition demoEngine : @engine unit nat := (Spawn tt (mkPolicy 0 FullDrop 0) 0 NewEngine).2.
(** An actor sets a timer of period 10 at time 0; at time 25 its first tick
    comes, late, and is posted. *)
Definition demoT0 : dtimer := mkTimer 1 7%nat (Some 10) 10 true false false true 0 0.
Definition demoT1 : dtimer := mkTimer 1 7%nat (Some 10) 30 true true false true 0 0.
Definition demoT2 : dtimer := mkTimer 1 7%nat (Some 10) 30 true false true true 0 0.
Definition demoT3 : dtimer := mkTimer 1 7%nat (Some 10) 30 true false false true 0 1.
Definition demoPosted : @engine unit nat :=
  match Tell 1 7%nat demoEngine with Some (_, e) => e | None => demoEngine end.
Definition demoWorld : dworld := mkWorld demoPosted {[0%nat := demoT3]} 25.

Lemma demo_reach : rtc (wstep calm calm (fun _ => calm)) (start 0) demoWorld.
Proof.
  eapply rtc_l; [apply (ws_engine _ _ _ demoEngine), es_spawn|].
  eapply rtc_l; [apply (ws_schedule _ _ _ 0%nat true 10 1 7%nat demoT0); [done|by eexists|reflexivity]|].
  eapply rtc_l; [apply (ws_time _ _ _ 25); done|].
  eapply rtc_l; [apply (ws_expire _ _ _ 0%nat demoT0 demoT1); reflexivity|].
  eapply rtc_l; [apply (ws_receive _ _ _ 0%nat demoT1 demoT2); reflexivity|].
  eapply rtc_l; [apply (ws_post _ _ _ 0%nat demoT2 demoT3 demoPosted); reflexivity|]. apply rtc_refl.
Qed.

Lemma timers_on_time_witness : timers demoWorld !! 0%nat = Some demoT3 ∧ 0 < 10 ∧ 1 * 10 ≤ 25 - 0.
Proof.
  split; [reflexivity|].
  apply (timers_on_time calm calm (fun _ => calm) 0 demoWorld 0%nat demoT3 demo_reach eq_refl).
Defined.

(** Finding. Every with a delay that is not positive panics here; with a
    scheduler, to which the engine is documented to be equivalent, it makes a
    timer that fires once. *)
Theorem zero_period_panics {N} now self (f : N) : Every now 0 self f = Panic.
Proof. reflexivity. Qed.
