(* ===== verification/ActorThm.v ===== *)
(** * Guarantees of the actor engine

    The registry's maps are inverse to each other; a mailbox never exceeds its
    capacity and is served first in, first out without loss or duplication; a
    process stopped at the select handles all it accepted before it returns;
    the supervisor counts exactly the panics of the last minute. *)

From S2P Require Import Prelude Actor.

(** ** The registry *)

Definition inverse (fwd : gmap string Z) (bwd : gmap Z string) : Prop :=
  ∀ key id, fwd !! key = Some id ↔ bwd !! id = Some key.

Record RegOK (r : Registry) : Prop := {
  ro_uid : inverse (regUID r) (idToUID r);
  ro_room : inverse (regRoom r) (idToRoom r) }.

Lemma bindPair_inverse key id fwd bwd :
  inverse fwd bwd → inverse (bindPair key id fwd bwd).1 (bindPair key id fwd bwd).2.
Proof.
  intros Hi. unfold bindPair.
  set (f := match bwd !! id with Some old => delete old fwd | None => fwd end).
  assert (Hf : ∀ k i, f !! k = Some i ↔ fwd !! k = Some i ∧ i ≠ id).
  { intros k i. unfold f. destruct (bwd !! id) as [old|] eqn:Eo.
    - apply Hi in Eo. rewrite lookup_delete_Some. split.
      + intros [Hne Hk]. split; [done|]. intros ->. apply Hi in Hk, Eo. congruence.
      + intros [Hk Hne]. split; [|done]. intros ->. congruence.
    - split; [|tauto]. intros Hk. split; [done|]. intros ->. apply Hi in Hk. congruence. }
  set (b := match f !! key with Some oldID => delete oldID bwd | None => bwd end).
  assert (Hb : ∀ k i, b !! i = Some k ↔ bwd !! i = Some k ∧ (k ≠ key ∨ i = id)).
  { intros k i. unfold b. destruct (f !! key) as [oldID|] eqn:Eo.
    - apply Hf in Eo as [Eo Hne]. rewrite lookup_delete_Some. apply Hi in Eo. split.
      + intros [Hn Hk]. split; [done|]. destruct (decide (k = key)) as [->|]; [|by left].
        exfalso. apply Hi in Hk, Eo. congruence.
      + intros [Hk Hd]. split; [|done]. intros ->. destruct Hd; congruence.
    - split; [|tauto]. intros Hk. split; [done|]. destruct (decide (k = key)) as [->|]; [|by left]. right.
      destruct (decide (i = id)) as [|Hne]; [done|]. exfalso. apply Hi in Hk.
      assert (f !! key = Some i) by (apply Hf; done). congruence. }
  cbn [fst snd]. intros k i. rewrite !lookup_insert_Some, Hf, Hb, <- (Hi k i). naive_solver.
Qed.

Lemma unbindPair_inverse id fwd bwd :
  inverse fwd bwd → inverse (unbindPair id fwd bwd).1 (unbindPair id fwd bwd).2 ∧
  (unbindPair id fwd bwd).2 !! id = None.
Proof.
  intros Hi. unfold unbindPair. destruct (bwd !! id) as [key|] eqn:E; cbn [fst snd]; [|done].
  split; [|apply lookup_delete_eq]. intros k i. rewrite !lookup_delete_Some, (Hi k i).
  pose proof (proj2 (Hi _ _) E) as E'.
  split; intros [Hn Hk]; (split; [|done]); intros ->; [|apply Hi in Hk]; congruence.
Qed.

Lemma BindUID_OK uid id r : RegOK r → RegOK (BindUID uid id r).
Proof.
  intros [H1 H2]. pose proof (bindPair_inverse uid id _ _ H1) as Hb. unfold BindUID.
  destruct (bindPair uid id (regUID r) (idToUID r)). by split.
Qed.

Lemma BindRoom_OK room id r : RegOK r → RegOK (BindRoom room id r).
Proof.
  intros [H1 H2]. pose proof (bindPair_inverse room id _ _ H2) as Hb. unfold BindRoom.
  destruct (bindPair room id (regRoom r) (idToRoom r)). by split.
Qed.

Lemma Unbind_OK id r : RegOK r →
  RegOK (Unbind id r) ∧ idToUID (Unbind id r) !! id = None ∧ idToRoom (Unbind id r) !! id = None.
Proof.
  intros [H1 H2]. pose proof (unbindPair_inverse id _ _ H1) as [Hu1 Hu2].
  pose proof (unbindPair_inverse id _ _ H2) as [Hr1 Hr2]. unfold Unbind.
  destruct (unbindPair id (regUID r) (idToUID r)), (unbindPair id (regRoom r) (idToRoom r)). by split_and!.
Qed.

(** ** Supervision *)

(** The panic times a process remembers after the panics [ts]. *)
Definition remembered (ts : list Z) : list Z := foldl (fun l t => (notePanic t l).2) [] ts.

Lemma filter_filter_weaker c c' (l : list Z) :
  c' ≤ c → filter (fun t => c < t) (filter (fun t => c' < t) l) = filter (fun t => c < t) l.
Proof.
  intros Hc. induction l as [|t l IH]; [done|].
  destruct (decide (c' < t)) as [H'|H'].
  - rewrite (filter_cons_True (λ t, c' < t)) by done.
    destruct (decide (c < t)); [rewrite !(filter_cons_True (λ t, c < t)) by done|rewrite !(filter_cons_False (λ t, c < t)) by done];
      by rewrite IH.
  - rewrite (filter_cons_False (λ t, c' < t)) by done. rewrite IH.
    by rewrite (filter_cons_False (λ t, c < t)) by lia.
Qed.

Lemma remembered_window ts : ∀ c,
  Forall (fun t => t - panicWindow ≤ c) ts →
  filter (fun t => c < t) (remembered ts) = filter (fun t => c < t) ts.
Proof.
  induction ts as [|t ts IH] using rev_ind; intros c Hall; [done|].
  apply Forall_app in Hall as [Hall Ht]. apply Forall_cons_1 in Ht as [Ht _].
  unfold remembered. rewrite foldl_snoc. fold (remembered ts). cbn [notePanic snd].
  rewrite !filter_app. rewrite filter_filter_weaker; [|exact Ht].
  rewrite IH; [done|exact Hall].
Qed.

(** C19. Supervision counts exactly the recent panics: whatever panics a process
    had before, in the order they happened, a panic at [now] stops the actor if
    and only if at least three of them, this one included, fall within the last
    sixty seconds. *)
Theorem panic_supervision ts now :
  Forall (fun t => t ≤ now) ts →
  (notePanic now (remembered ts)).1
    = (3 <=? zlen (filter (fun t => now - panicWindow < t) (ts ++ [now]))).
Proof.
  intros Hall. unfold notePanic. cbn [fst]. unfold maxPanicInWindow. f_equal. rewrite zlen_snoc, filter_app, zlen_app.
  rewrite (filter_cons_True _ now) by (unfold panicWindow; lia). cbn [filter list_filter].
  rewrite (remembered_window ts (now - panicWindow)); [done|].
  eapply Forall_impl; [exact Hall|]. cbn. lia.
Qed.

Lemma panic_supervision_witness :
  Forall (fun t => t ≤ 100 * 10^9) [0; 50 * 10^9; 90 * 10^9] ∧
  (notePanic (100 * 10^9) (remembered [0; 50 * 10^9; 90 * 10^9])).1
    = (3 <=? zlen (filter (fun t => 100 * 10^9 - panicWindow < t) ([0; 50 * 10^9; 90 * 10^9] ++ [100 * 10^9]))).
Proof.
  assert (H : Forall (fun t => t ≤ 100 * 10^9) [0; 50 * 10^9; 90 * 10^9]) by (repeat constructor; lia).
  split; [exact H|]. exact (panic_supervision _ _ H).
Defined.

(** ** Mailboxes *)

Section Engine.
Context {A M : Type}.
Variable onInit : A → @outcome A.
Variable exec : M → A → @outcome A.
Variable onStop : A → @outcome A.
Notation process := (@process A M).
Notation engine := (@engine A M).
Notation ereach := (@ereach A M onInit exec onStop).

Record PInv (p : process) : Prop := {
  pi_cap : 0 < Capacity (policy p);
  pi_batch : 0 < DrainBatch (policy p);
  pi_bound : zlen (mb p) ≤ Capacity (policy p);
  pi_fifo : handled p ++ mb p = accepted p }.

(** The fields the invariant speaks of. *)
Definition view (p : process) := (policy p, mb p, handled p, accepted p).

Lemma PInv_view p p' : view p' = view p → PInv p → PInv p'.
Proof. unfold view. intros [= H1 H2 H3 H4] []. split; congruence. Qed.

Lemma safeCall_view now fn (p : process) : view (safeCall now fn p) = view p.
Proof. unfold safeCall. destruct (fn _) as [a s pn]; cbn. destruct s, pn; try done; by destruct (_ <=? _). Qed.

Lemma safeCall_stopping now fn (p : process) : stopping p = true → stopping (safeCall now fn p) = true.
Proof.
  intros Hs. unfold safeCall. destruct (fn _) as [a s pn]; cbn. destruct s, pn; cbn; try done;
    destruct (_ <=? _); cbn; done.
Qed.

Lemma safeCall_at now fn (p : process) : at_ (safeCall now fn p) = at_ p.
Proof. unfold safeCall. destruct (fn _) as [a s pn]; cbn. destruct s, pn; try done; by destruct (_ <=? _). Qed.

Lemma handleOne_view now m rest (p : process) :
  view (handleOne exec now m rest p) = (policy p, rest, handled p ++ [m], accepted p).
Proof. unfold handleOne. by rewrite safeCall_view. Qed.

Lemma handleOne_PInv now m rest p : mb p = m :: rest → PInv p → PInv (handleOne exec now m rest p).
Proof.
  intros Hm [H1 H2 H3 H4]. pose proof (handleOne_view now m rest p) as Hv. unfold view in Hv. injection Hv as E1 E2 E3 E4.
  split; rewrite ?E1, ?E2, ?E3, ?E4; try done.
  - rewrite Hm, zlen_cons in H3. lia.
  - rewrite <- H4, Hm. by rewrite <- app_assoc.
Qed.

Lemma set_at_PInv c p : PInv p → PInv (set_at c p).
Proof. by apply PInv_view. Qed.

Lemma runStep_PInv now sig p p' : runStep onInit exec now sig p = Some p' → PInv p → PInv p'.
Proof.
  unfold runStep. intros Hr Hp. repeat case_match; simplify_eq;
    try apply set_at_PInv; try (eapply PInv_view; [apply safeCall_view|done]); try (by apply handleOne_PInv); done.
Qed.

Lemma normalize_pos pol : 0 < Capacity (normalizePolicy pol) ∧ 0 < DrainBatch (normalizePolicy pol).
Proof.
  unfold normalizePolicy, defaultCapacity, defaultDrainBatch. cbn.
  split; match goal with |- context [?a <=? 0] => destruct (Z.leb_spec a 0); lia end.
Qed.

Record EInv (e : engine) : Prop := {
  ei_procs : ∀ id p, procs e !! id = Some p → PInv p;
  ei_reg : RegOK (reg e) }.

Lemma EInv_insert id p e : EInv e → PInv p → EInv (set_procs (<[id := p]> (procs e)) e).
Proof.
  intros [H1 H2] Hp. split; [|done]. cbn. intros i q [[<- <-]|[_ Hq]]%lookup_insert_Some; [done|by eapply H1].
Qed.

Lemma notifyParent_EInv par child e : EInv e → EInv (notifyParent par child e).
Proof. intros [H1 H2]. unfold notifyParent. repeat case_match; by split. Qed.

Lemma estep_EInv e e' : EInv e → estep onInit exec onStop e e' → EInv e'.
Proof.
  intros He. pose proof He as [Hp Hr]. destruct 1 as [a pol par e|target env e r e' Ht|id e|e|par e|uid id e|room id e|now sig id e e' Hs].
  - split; [|done]. cbn. intros i q [[<- <-]|[_ Hq]]%lookup_insert_Some; [|by eapply Hp].
    pose proof (normalize_pos pol) as []. split; try done. cbn [mb policy]. rewrite zlen_nil. lia.
  - unfold Tell in Ht. destruct (procs e !! target) as [p|] eqn:Ep; [|by simplify_eq].
    pose proof (Hp _ _ Ep) as HP. destruct (zlen (mb p) <? Capacity (policy p)) eqn:Ez.
    + simplify_eq. apply EInv_insert; [done|]. apply Z.ltb_lt in Ez. destruct HP as [Q1 Q2 Q3 Q4].
      split; cbn; try done; [rewrite zlen_snoc; lia|]. by rewrite app_assoc, Q4.
    + repeat case_match; simplify_eq; try done; apply EInv_insert; try done; by eapply PInv_view; [|exact HP].
  - unfold Stop. destruct (procs e !! id) as [p|] eqn:Ep; [|done]. apply EInv_insert; [done|].
    eapply PInv_view; [|by eapply Hp]. done.
  - split; [|done]. cbn. intros i q Hq. rewrite lookup_fmap in Hq. destruct (procs e !! i) as [p|] eqn:Ep; [|done].
    cbn in Hq. simplify_eq. eapply PInv_view; [|by eapply Hp]. done.
  - unfold WatchChild. case_match; by split.
  - split; [done|]. by apply BindUID_OK.
  - split; [done|]. by apply BindRoom_OK.
  - unfold stepProc in Hs. destruct (procs e !! id) as [p|] eqn:Ep; [|done].
    assert (∀ q, runStep onInit exec now sig p = Some q → PInv q) as Hstep.
    { intros q Hq. eapply runStep_PInv; [exact Hq|by eapply Hp]. }
    destruct (at_ p); cbn in Hs;
      try (destruct (runStep onInit exec now sig p) as [q|]; cbn in Hs; simplify_eq; apply EInv_insert; auto; fail).
    simplify_eq. apply notifyParent_EInv. split; cbn.
    + intros i q [_ Hq]%lookup_delete_Some. by eapply Hp.
    + by apply Unbind_OK.
Qed.

Lemma ereach_EInv e : ereach e → EInv e.
Proof.
  induction 1; [|by eapply estep_EInv]. split; [intros id p; cbn; by rewrite lookup_empty|].
  split; intros k i; cbn; rewrite !lookup_empty; split; done.
Qed.

(** Backpressure bounds memory: in every reachable engine, no mailbox holds
    more messages than its capacity, and every capacity is positive. *)
Theorem mailbox_bounded e id p : ereach e → procs e !! id = Some p →
  zlen (mb p) ≤ Capacity (policy p) ∧ 0 < Capacity (policy p).
Proof. intros He%ereach_EInv Hp. destruct (ei_procs e He id p Hp). done. Qed.

(** *** What was sent to whom *)

(** What the goroutines around the engine can see: an actor was spawned, and
    under which id; a [Tell] came back, and with which answer. *)
Inductive ev := Spawned (id : Z) (a : A) | Told (target : Z) (m : M) (r : option terr).

(** Runs of the engine with what they showed. *)
Inductive erun : list ev → engine → Prop :=
| erun_new : erun [] NewEngine
| erun_spawn tr e a pol par : erun tr e → erun (tr ++ [Spawned (Spawn a pol par e).1 a]) (Spawn a pol par e).2
| erun_tell tr e target m r e' : erun tr e → Tell target m e = Some (r, e') → erun (tr ++ [Told target m r]) e'
| erun_stop tr e id : erun tr e → erun tr (Stop id e)
| erun_shutdown tr e : erun tr e → erun tr (Shutdown e)
| erun_watch tr e par : erun tr e → erun tr (WatchChild par e)
| erun_bindUID tr e uid id : erun tr e → erun tr (set_reg (BindUID uid id (reg e)) e)
| erun_bindRoom tr e room id : erun tr e → erun tr (set_reg (BindRoom room id (reg e)) e)
| erun_proc tr e now sig id e' : erun tr e → stepProc onInit exec onStop now sig id e = Some e' → erun tr e'.

(** The actor last spawned under an id, and the messages [Tell] accepted for it
    since, oldest first. *)
Definition record_ (id : Z) (b : option (A * list M)) (x : ev) : option (A * list M) :=
  match x with
  | Spawned i a => if decide (i = id) then Some (a, []) else b
  | Told i m None => if decide (i = id) then prod_map Datatypes.id (.++ [m]) <$> b else b
  | Told _ _ (Some _) => b
  end.
Definition sentTo (id : Z) (tr : list ev) : option (A * list M) := foldl (record_ id) None tr.

(** The state of an actor that was initialised and then given these messages. *)
Definition served (a : A) (ms : list M) : A := foldl (fun a m => after (exec m a)) (after (onInit a)) ms.

Definition servedBy (a : A) (p : process) : Prop :=
  match at_ p with
  | AtInit => handled p = [] ∧ pactor p = a
  | _ => pactor p = served a (handled p)
  end.

Lemma erun_ereach tr e : erun tr e → ereach e.
Proof. induction 1; [apply er_new|eapply er_step; [done|]..]; by econstructor. Qed.
Lemma ereach_erun e : ereach e → ∃ tr, erun tr e.
Proof.
  induction 1 as [|e e' _ [tr Hr] Hs]; [eexists; apply erun_new|].
  destruct Hs; eexists; [by apply erun_spawn|by eapply erun_tell|by apply erun_stop|by apply erun_shutdown|
    by apply erun_watch|by apply erun_bindUID|by apply erun_bindRoom|by eapply erun_proc].
Qed.

Lemma safeCall_actor now fn (p : process) : pactor (safeCall now fn p) = after (fn (pactor p)).
Proof. unfold safeCall. cbv zeta. destruct (stops _), (panics_ _); try destruct (notePanic _ _) as [[] ?]; done. Qed.

Lemma served_snoc a ms m : served a (ms ++ [m]) = after (exec m (served a ms)).
Proof. unfold served. by rewrite foldl_app. Qed.

Lemma handleOne_served now m rest a (p : process) : at_ p ≠ AtInit → servedBy a p →
  pactor (handleOne exec now m rest p) = served a (handled p ++ [m]) ∧ handled (handleOne exec now m rest p) = handled p ++ [m].
Proof.
  intros Ha Hs. unfold handleOne. rewrite safeCall_actor, served_snoc. split.
  - unfold servedBy in Hs. by destruct (at_ p); [|rewrite <- Hs..].
  - pose proof (safeCall_view now (exec m) (dequeue m rest p)) as Hv. by injection Hv.
Qed.

Lemma servedBy_other a (p p' : process) : at_ p ≠ AtInit → at_ p' ≠ AtInit →
  pactor p' = pactor p → handled p' = handled p → servedBy a p → servedBy a p'.
Proof. unfold servedBy. intros H1 H2 -> ->. by destruct (at_ p), (at_ p'). Qed.

Lemma runStep_served now sig a p p' : runStep onInit exec now sig p = Some p' → servedBy a p →
  servedBy a p' ∧ accepted p' = accepted p.
Proof.
  intros E Hs. split.
  2: { revert E. unfold runStep, handleOne.
       assert (∀ fn q, accepted (safeCall now fn q) = accepted q) as Hacc
         by (intros fn q; pose proof (safeCall_view now fn q) as Hv; by injection Hv).
       repeat case_match; intros [= <-]; cbn; by rewrite ?Hacc. }
  assert (∀ m rest, at_ p ≠ AtInit → pactor (handleOne exec now m rest p) = served a (handled p ++ [m]) ∧
    handled (handleOne exec now m rest p) = handled p ++ [m]) as Hone by (intros; by apply handleOne_served).
  revert E. unfold runStep. destruct (at_ p) as [| |i| |] eqn:Ea; [| | | |done].
  - intros [= <-]. unfold servedBy in Hs. rewrite Ea in Hs. destruct Hs as [Hh Hp].
    pose proof (safeCall_view now onInit p) as Hv. injection Hv as _ _ Hv _. rewrite Hh in Hv.
    pose proof (safeCall_actor now onInit p) as Hx. rewrite Hp in Hx.
    destruct (stopping (safeCall now onInit p)); cbn; by rewrite Hv, Hx.
  - destruct sig; [case_match; [|done]; intros [= <-]; eapply (servedBy_other a p); cbn; by rewrite ?Ea|].
    destruct (mb p) as [|m rest]; [done|]. destruct (Hone m rest) as [H1 H2]; [done|].
    intros [= <-]. case_match; unfold servedBy; cbn; by rewrite H1, H2.
  - destruct i as [|i]; [|destruct (mb p) as [|m rest]].
    1,2: intros [= <-]; eapply (servedBy_other a p); cbn; rewrite ?Ea; try done; by case_match.
    destruct (Hone m rest) as [H1 H2]; [done|]. intros [= <-]. case_match; unfold servedBy; cbn; by rewrite H1, H2.
  - destruct (mb p) as [|m rest]; [intros [= <-]; eapply (servedBy_other a p); cbn; by rewrite ?Ea|].
    destruct (Hone m rest) as [H1 H2]; [done|]. intros [= <-]. unfold servedBy.
    assert (at_ (handleOne exec now m rest p) = InDrain) as -> by (unfold handleOne; by rewrite safeCall_at).
    by rewrite H1, H2.
Qed.

(** The books of a run: for each process, the actor it was spawned with and the
    messages accepted since, which its loop serves in order. *)
Definition booked (tr : list ev) (id : Z) (p : process) : Prop :=
  ∃ a, sentTo id tr = Some (a, accepted p) ∧ servedBy a p.

Lemma booked_beginDrain tr id p : booked tr id p → booked tr id (beginDrain p).
Proof. done. Qed.

Lemma sentTo_snoc id tr x : sentTo id (tr ++ [x]) = record_ id (sentTo id tr) x.
Proof. unfold sentTo. by rewrite foldl_app. Qed.

Lemma erun_booked tr e : erun tr e → ∀ id p, procs e !! id = Some p → booked tr id p.
Proof.
  induction 1 as [|tr e a pol par _ IH|tr e target m r e' _ IH Ht|tr e i _ IH|tr e _ IH|tr e par _ IH|tr e uid i _ IH|
    tr e room i _ IH|tr e now sig i e' _ IH Hs]; intros id p Hp; cbn in Hp; try (by apply IH).
  - by rewrite lookup_empty in Hp.
  - unfold booked. rewrite sentTo_snoc. cbn [record_ Spawn fst]. apply lookup_insert_Some in Hp as [[<- <-]|[Hne Hp]].
    + rewrite decide_True by done. exists a. split; [done|]. by split.
    + rewrite decide_False by done. by apply IH.
  - unfold booked. rewrite sentTo_snoc. cbn [record_]. revert Ht. unfold Tell.
    destruct (procs e !! target) as [q|] eqn:Eq; [|intros [= <- <-]; by apply IH].
    destruct (zlen (mb q) <? Capacity (policy q)).
    + intros [= <- <-]. cbn in Hp. apply lookup_insert_Some in Hp as [[<- <-]|[Hne Hp]].
      * rewrite decide_True by done. destruct (IH _ _ Eq) as (a & -> & Hs). by exists a.
      * rewrite decide_False by done. by apply IH.
    + destruct (OnFull (policy q)); try (case_match; [|done]); intros [= <- <-]; try (by apply IH).
      cbn in Hp. apply lookup_insert_Some in Hp as [[<- <-]|[Hne Hp]]; [|by apply IH].
      by apply booked_beginDrain, IH.
  - revert Hp. unfold Stop. destruct (procs e !! i) as [q|] eqn:Eq; [|by apply IH]. cbn.
    intros [[<- <-]|[Hne Hp]]%lookup_insert_Some; [|by apply IH]. by apply booked_beginDrain, IH.
  - rewrite lookup_fmap in Hp. destruct (procs e !! id) as [q|] eqn:Eq; [|done]. injection Hp as <-.
    by apply booked_beginDrain, IH.
  - revert Hp. unfold WatchChild. case_match; by apply IH.
  - revert Hs. unfold stepProc. destruct (procs e !! i) as [q|] eqn:Eq; [|done].
    assert (∀ q', runStep onInit exec now sig q = Some q' → booked tr i q') as Hrun.
    { intros q' E. destruct (IH _ _ Eq) as (a & H1 & H2). destruct (runStep_served _ _ a _ _ E H2) as [H3 H4].
      exists a. by rewrite H4. }
    destruct (at_ q); cbn;
      try (destruct (runStep onInit exec now sig q) as [q'|]; cbn; [|done]; intros [= <-]; cbn in Hp;
        apply lookup_insert_Some in Hp as [[<- <-]|[_ Hp]]; [by apply Hrun|by apply IH]).
    intros [= <-]. apply IH. revert Hp. unfold finish, notifyParent. cbn.
    assert (∀ ps, delete i ps !! id = Some p → ps !! id = Some p) as Hdel by (by intros ps [_ ?]%lookup_delete_Some).
    repeat case_match; cbn; apply Hdel.
Qed.

(** C17. An actor is a FIFO queue: whatever goroutines send to it and whenever
    its loop runs, the messages whose [Tell] came back without an error since
    the actor was spawned are, in that order, the ones it was given and the
    ones in its mailbox. It was given none before [Init] ran; after that its
    state is what [Init] and then [OnMessage] on each of the given messages,
    one by one, make of the actor it was spawned with. So nothing is handled
    twice, out of order or without having been sent, and while the process
    lives nothing accepted is lost. *)
Theorem actor_fifo tr e id p : erun tr e → procs e !! id = Some p →
  ∃ a given, sentTo id tr = Some (a, given ++ mb p) ∧
    match at_ p with
    | AtInit => given = [] ∧ pactor p = a
    | _ => pactor p = foldl (fun a m => after (exec m a)) (after (onInit a)) given
    end.
Proof.
  intros Hr Hp. destruct (erun_booked tr e Hr id p Hp) as (a & Ha & Hs). apply erun_ereach, ereach_EInv in Hr.
  exists a, (handled p). split; [|exact Hs]. destruct (ei_procs e Hr id p Hp) as [_ _ _ Hq]. by rewrite Hq.
Qed.

(** The registry never contradicts itself: an actor is the one a uid or a
    room id resolves to if and only if that uid or room id is the one recorded
    for the actor. *)
Theorem registry_bijective e : ereach e →
  (∀ uid id, LookupUID uid (reg e) = Some id ↔ idToUID (reg e) !! id = Some uid) ∧
  (∀ room id, LookupRoom room (reg e) = Some id ↔ idToRoom (reg e) !! id = Some room).
Proof. intros He%ereach_EInv. destruct (ei_reg e He) as [H1 H2]. split; [exact H1|exact H2]. Qed.

(** ** Stopping *)

(** [n] steps of one goroutine, the clock and the choices of the select given. *)
Fixpoint runN (n : nat) (now : nat → Z) (sig : nat → bool) (p : process) : option process :=
  match n with
  | O => Some p
  | S n' => p' ← runStep onInit exec (now n) (sig n) p; runN n' now sig p'
  end.

Lemma drain_all now sig : ∀ p, at_ p = InDrain →
  ∃ p', runN (S (length (mb p))) now sig p = Some p' ∧ at_ p' = Returned ∧ mb p' = [] ∧
        handled p' = handled p ++ mb p.
Proof.
  intros p. remember (length (mb p)) as n eqn:Hn. revert p Hn.
  induction n as [|n IH]; intros p Hn Ha.
  - destruct (mb p) eqn:Em; [|done]. eexists. split; [|].
    + cbn. unfold runStep. by rewrite Ha, Em.
    + cbn. rewrite Em. split_and!; [done..|]. by rewrite app_nil_r.
  - destruct (mb p) as [|m rest] eqn:Em; [done|]. cbn in Hn.
    pose proof (handleOne_view (now (S (S n))) m rest p) as Hv. unfold view in Hv. injection Hv as _ E2 E3 _.
    destruct (IH (handleOne exec (now (S (S n))) m rest p)) as (p' & Hr & Ha' & Hm' & Hh').
    + rewrite E2. lia.
    + unfold handleOne. by rewrite safeCall_at.
    + exists p'. split_and!; try done.
      * change (runN (S (S n)) now sig p) with
          (q ← runStep onInit exec (now (S (S n))) (sig (S (S n))) p; runN (S n) now sig q).
        unfold runStep. rewrite Ha, Em. exact Hr.
      * rewrite Hh', E2, E3, <- app_assoc. done.
Qed.

(** C18. Graceful stop: once its goroutine takes the stop signal at the select, a
    process handles every message it had accepted and returns, after one step
    per message and two more, unless it is sent more in the meantime. *)
Theorem graceful_stop e id p now sig :
  ereach e → procs e !! id = Some p → at_ p = AtSelect → stopping p = true →
  (sig (S (S (length (mb p)))) = true) →
  ∃ p', runN (S (S (length (mb p)))) now sig p = Some p' ∧
    at_ p' = Returned ∧ mb p' = [] ∧ handled p' = accepted p.
Proof.
  intros He%ereach_EInv Hp Ha Hs Hsig. destruct (ei_procs e He id p Hp) as [_ _ _ Hf].
  destruct (drain_all now sig (set_at InDrain p) eq_refl) as (p' & Hr & Ha' & Hm' & Hh').
  exists p'. split_and!; [|done..|].
  - change (runN (S (S (length (mb p)))) now sig p) with
      (q ← runStep onInit exec (now (S (S (length (mb p))))) (sig (S (S (length (mb p))))) p;
       runN (S (length (mb p))) now sig q).
    unfold runStep. rewrite Ha, Hs, Hsig. exact Hr.
  - rewrite Hh'. exact Hf.
Qed.
End Engine.

(** ** Concrete runs *)

(** An actor that stops itself on message 1 and panics on message 9. *)
Definition idleInit (a : unit) : @outcome unit := mkOutcome a false false.
Definition demoExec (m : Z) (a : unit) : @outcome unit := mkOutcome a (m =? 1) (m =? 9).
Notation dereach := (ereach idleInit demoExec idleInit).

Definition okTell (target m : Z) (e : @engine unit Z) : @engine unit Z :=
  match Tell target m e with Some (_, e') => e' | None => e end.
Definition okStep (sig : bool) (id : Z) (e : @engine unit Z) : @engine unit Z :=
  default e (stepProc idleInit demoExec idleInit 0 sig id e).

(** One actor at its select with three messages waiting. *)
Definition oneActor : @engine unit Z := (Spawn tt (mkPolicy 0 FullOther 0) 0 NewEngine).2.
Definition threeWaiting : @engine unit Z := okTell 1 2 (okTell 1 1 (okTell 1 0 (okStep false 1 oneActor))).
Definition procAt (id : Z) (e : @engine unit Z) : @process unit Z :=
  default (mkProc tt [] (mkPolicy 1 FullKick 1) 0 false [] Returned [] []) (procs e !! id).

Lemma tell_reach target m e : dereach e → is_Some (Tell target m e) → dereach (okTell target m e).
Proof.
  intros He [[r e'] Ht]. eapply er_step; [exact He|]. unfold okTell. rewrite Ht. by eapply es_tell.
Qed.

Lemma step_reach sig id e : dereach e → is_Some (stepProc idleInit demoExec idleInit 0 sig id e) → dereach (okStep sig id e).
Proof.
  intros He [e' Hs]. eapply er_step; [exact He|]. unfold okStep. rewrite Hs. by eapply es_proc.
Qed.

Lemma threeWaiting_reach : dereach threeWaiting.
Proof.
  unfold threeWaiting. repeat (apply tell_reach; [|vm_compute; eauto]).
  apply step_reach; [|vm_compute; eauto]. eapply er_step; [apply er_new|]. apply es_spawn.
Qed.

Lemma mailbox_bounded_witness :
  zlen (mb (procAt 1 threeWaiting)) ≤ Capacity (policy (procAt 1 threeWaiting)) ∧ 0 < Capacity (policy (procAt 1 threeWaiting)).
Proof.
  apply (mailbox_bounded idleInit demoExec idleInit threeWaiting 1); [exact threeWaiting_reach|vm_compute; reflexivity].
Defined.

(** An actor that writes down what it is told. *)
Definition noteInit (a : list Z) : @outcome (list Z) := mkOutcome (a ++ [100]) false false.
Definition noteExec (m : Z) (a : list Z) : @outcome (list Z) := mkOutcome (a ++ [m]) false false.
Definition noteTell (m : Z) (e : @engine (list Z) Z) : @engine (list Z) Z :=
  match Tell 1 m e with Some (_, e') => e' | None => e end.
Definition noteStep (e : @engine (list Z) Z) : @engine (list Z) Z :=
  default e (stepProc noteInit noteExec noteInit 0 false 1 e).
(** Three messages, two of them handled. *)
Definition noted : @engine (list Z) Z :=
  noteStep (noteStep (noteTell 7 (noteTell 6 (noteTell 5 (noteStep (Spawn [] (mkPolicy 0 FullOther 0) 0 NewEngine).2))))).
Definition notedTrace : list (@ev (list Z) Z) := [Spawned 1 []; Told 1 5 None; Told 1 6 None; Told 1 7 None].

Notation noteRun := (erun noteInit noteExec noteInit).
Lemma noteStep_run tr e : noteRun tr e → is_Some (stepProc noteInit noteExec noteInit 0 false 1 e) → noteRun tr (noteStep e).
Proof. intros Hr [e' E]. unfold noteStep. rewrite E. by eapply erun_proc. Qed.
Lemma noteTell_run tr m e : noteRun tr e → fst <$> Tell 1 m e = Some None → noteRun (tr ++ [Told 1 m None]) (noteTell m e).
Proof.
  intros Hr. unfold noteTell. destruct (Tell 1 m e) as [[r e']|] eqn:E; [|done]. cbn. intros [= ->]. by eapply erun_tell.
Qed.

Lemma noted_run : noteRun notedTrace noted.
Proof.
  change notedTrace with ([Spawned 1 []] ++ [Told 1 5 None] ++ [Told 1 6 None] ++ [Told 1 7 None] : list (@ev (list Z) Z)).
  rewrite !app_assoc. unfold noted. do 2 (apply noteStep_run; [|vm_compute; eauto]).
  do 3 (apply noteTell_run; [|vm_compute; reflexivity]). apply noteStep_run; [|vm_compute; eauto].
  exact (erun_spawn _ _ _ [] NewEngine [] (mkPolicy 0 FullOther 0) 0 (erun_new _ _ _)).
Qed.

Lemma actor_fifo_witness :
  ∃ p, procs noted !! 1 = Some p ∧ mb p = [7] ∧ pactor p = [100; 5; 6].
Proof.
  assert (is_Some (procs noted !! 1)) as [p Hp] by (vm_compute; eauto). exists p. split; [exact Hp|].
  assert (mb p = [7] ∧ at_ p = InBatch 63) as [Hm Ha].
  { revert Hp. vm_compute. intros [= <-]. split; reflexivity. }
  split; [exact Hm|].
  destruct (actor_fifo noteInit noteExec noteInit notedTrace noted 1 p noted_run Hp) as (a & given & Hs & Hg).
  rewrite Ha in Hg. rewrite Hm in Hs. vm_compute in Hs. injection Hs as <- Hgiven.
  assert (given = [5; 6]) as ->.
  { apply (app_inj_tail given [5; 6] 7 7). symmetry. exact Hgiven. }
  exact Hg.
Defined.

Definition bound : @engine unit Z := set_reg (BindRoom "r" 1 (reg oneActor)) oneActor.

Lemma registry_bijective_witness :
  (∀ uid id, LookupUID uid (reg bound) = Some id ↔ idToUID (reg bound) !! id = Some uid) ∧
  (∀ room id, LookupRoom room (reg bound) = Some id ↔ idToRoom (reg bound) !! id = Some room).
Proof.
  apply (registry_bijective idleInit demoExec idleInit bound). eapply er_step; [|apply es_bindRoom].
  eapply er_step; [apply er_new|apply es_spawn].
Defined.

Definition stoppedAtSelect : @engine unit Z := Stop 1 threeWaiting.

Lemma graceful_stop_witness :
  ∃ p', runN idleInit demoExec 5 (fun _ => 0) (fun _ => true) (procAt 1 stoppedAtSelect) = Some p' ∧
    at_ p' = Returned ∧ mb p' = [] ∧ handled p' = [0; 1; 2].
Proof.
  apply (graceful_stop idleInit demoExec idleInit stoppedAtSelect 1 (procAt 1 stoppedAtSelect) (fun _ => 0) (fun _ => true));
    try (vm_compute; reflexivity).
  eapply er_step; [exact threeWaiting_reach|apply es_stop].
Defined.

(** Finding. A stop during a batch loses accepted messages: an actor that stops itself
    while [drainBatch] runs returns from its loop with messages in the mailbox.
    They were accepted by [Tell], the process is removed from the table, and
    nobody handles them; a caller that waits for the reply to one of them, as
    [Join] of the room manager does, waits forever. *)
Theorem batch_stop_loses_messages :
  dereach (okStep false 1 (okStep false 1 threeWaiting)) ∧
  at_ (procAt 1 (okStep false 1 (okStep false 1 threeWaiting))) = Returned ∧
  mb (procAt 1 (okStep false 1 (okStep false 1 threeWaiting))) = [2] ∧
  procs (okStep false 1 (okStep false 1 (okStep false 1 threeWaiting))) = ∅.
Proof.
  split; [|split_and!; vm_compute; reflexivity].
  repeat (apply step_reach; [|vm_compute; eauto]). exact threeWaiting_reach.
Qed.
