(* ===== verification/Router.v ===== *)
(** * Message routing (internal/router: router.go, middleware.go, msgctx.go;
      internal/transport/ratelimit.go)

    [Dispatch] runs on the read pump of a connection: it finds the route,
    decodes the request, runs the authentication and rate-limit middleware,
    locates the actor and puts an envelope in its mailbox; the handler itself
    runs later in the actor, as the closure [runInvoke].  Handlers and
    middleware are functions of the request that read and change a state and
    may panic ([out]); the deferred recovers of the code turn panics back into
    results, with the state as the panic left it.  The engine is seen through
    the interface [Dispatcher]; the engine of Actor.v is an instance.

    Rates are float64: the token bucket computes with the IEEE operations of
    the standard library. *)

From Stdlib Require Import SpecFloat.
From S2P Require Import Prelude Frame ProtoWire Proto ProtoThm Envelope Actor.

(** ** The token bucket *)

Notation float64 := spec_float.
Definition fadd : float64 → float64 → float64 := SFadd 53 1024.
Definition fsub : float64 → float64 → float64 := SFsub 53 1024.
Definition fmul : float64 → float64 → float64 := SFmul 53 1024.
Definition fdiv : float64 → float64 → float64 := SFdiv 53 1024.
(** The conversion of an integer. *)
Definition float_of (z : Z) : float64 := binary_normalize 53 1024 z 0 false.

(** time.Duration.Seconds. *)
Definition Seconds (d : Z) : float64 :=
  fadd (float_of (Z.quot d (10^9))) (fdiv (float_of (Z.rem d (10^9))) (float_of (10^9))).

Record TokenBucket := mkBucket { rate : float64; capacity : float64; tokens : float64; last_ : Z }.

Definition NewTokenBucket (r c : float64) (now : Z) : TokenBucket := mkBucket r c c now.

Definition AllowN (now : Z) (n : float64) (b : TokenBucket) : bool * TokenBucket :=
  if SFleb (rate b) (S754_zero false) then (true, b) else
  let b := if last_ b <? now then
             let t := fadd (tokens b) (fmul (Seconds (now - last_ b)) (rate b)) in
             let t := if SFltb (capacity b) t then capacity b else t in
             mkBucket (rate b) (capacity b) t now
           else b in
  if SFltb (tokens b) n then (false, b)
  else (true, mkBucket (rate b) (capacity b) (fsub (tokens b) n) (last_ b)).

Definition Allow (now : Z) (b : TokenBucket) : bool * TokenBucket := AllowN now (float_of 1) b.

(** ** Per-user buckets *)

Notation rateBuckets := (gmap string TokenBucket).

Definition allow (uid : string) (now : Z) (r burst : float64) (bs : rateBuckets) : bool * rateBuckets :=
  let tb := match bs !! uid with Some tb => tb | None => NewTokenBucket r burst now end in
  let '(ok, tb) := Allow now tb in (ok, <[uid := tb]> bs).

Definition DeleteBucket (uid : string) (bs : rateBuckets) : rateBuckets := delete uid bs.

(** ** Sources, contexts, handlers *)

(** What a source implements: [sAuth] and [sRoom] are [None] when it is not an
    Authenticator or a RoomSource. *)
Record Source := mkSource { sUID : string; sAuth : option bool; sRoom : option string }.

Record msgCtx := mkCtx {
  cUID : string; cMsgID : Z; cSeq : Z; cTrace : string; cCodec : Z; cSrc : Source }.

(** An error: an [ErrCode] (found by errors.As), or another with its text. *)
Inductive herr := HCode (e : ErrCode) | HOther (text : list Z).

Definition asErrCode (e : herr) : ErrCode :=
  match e with HCode ec => ec | HOther text => NewErr ErrInternal text end.

(** The outcome of code that changes a state of type [W] and may panic, or wait
    for an answer that never comes. *)
Inductive out (W A : Type) := Ret (a : A) (w : W) | Pan (w : W) | Hang.
Arguments Ret {W A} a w.
Arguments Pan {W A} w.
Arguments Hang {W A}.

Definition HandlerFunc (W : Type) : Type := msgCtx → value → W → out W (option value * option herr).
Definition Middleware (W : Type) : Type := HandlerFunc W → HandlerFunc W.

(** The loop wraps from the last to the first. *)
Definition chain {W} (h : HandlerFunc W) (mws : list (Middleware W)) : HandlerFunc W :=
  fold_left (fun h mw => mw h) (reverse mws) h.

(** ** The router *)

Inductive targetKind := targetPlayer | targetRoom.

(** The part of the router that changes while it runs. *)
Record runtime := mkRT { buckets : rateBuckets; metrics : option (gmap string Z) }.

Definition Inc (name : string) (rt : runtime) : runtime :=
  mkRT (buckets rt) ((fun m => <[name := default 0 (m !! name) + 1]> m) <$> metrics rt).

(** What the router needs of the engine; [None]: the caller blocks. *)
Class Dispatcher (E M : Type) := {
  dTell : Z → M → E → option (option terr * E);
  ResolvePlayer : string → E → option Z;
  ResolveRoom : string → E → option Z }.

#[export] Instance engine_Dispatcher {A M} : Dispatcher (@engine A M) M := {|
  dTell := Tell;
  ResolvePlayer uid e := LookupUID uid (reg e);
  ResolveRoom room e := LookupRoom room (reg e) |}.

Section Router.
Context {App : Type}.

(** [factory] is the value the request factory makes; a room route has no
    handler. *)
Record routeEntry := mkRoute {
  factory : value; rtarget : targetKind; snapshot : bool; handler : option (HandlerFunc (runtime * App)) }.

Record Router := mkRouter {
  routes : gmap Z routeEntry;
  custom : list (Middleware (runtime * App));
  ratePerSec : float64;
  rateBurst : float64;
  authFree : gmap Z bool }.

Definition defaultAuthFree : gmap Z bool := list_to_map [(0x0001, true); (0x0010, true); (0x0011, true)].

Inductive option_ :=
| WithRateLimit (r b : float64)
| WithAuthFree (ids : list Z)
| WithMiddleware (mws : list (Middleware (runtime * App))).

Definition applyOption (r : Router) (o : option_) : Router :=
  match o with
  | WithRateLimit rt b => mkRouter (routes r) (custom r) rt b (authFree r)
  | WithAuthFree ids => mkRouter (routes r) (custom r) (ratePerSec r) (rateBurst r) (fold_left (fun m id => <[id := true]> m) ids ∅)
  | WithMiddleware mws => mkRouter (routes r) (custom r ++ mws) (ratePerSec r) (rateBurst r) (authFree r)
  end.

Definition New (opts : list option_) : Router :=
  fold_left applyOption opts (mkRouter ∅ [] (S754_zero false) (S754_zero false) defaultAuthFree).

Definition Register (id : Z) (f : value) (h : HandlerFunc (runtime * App)) (r : Router) : Router :=
  mkRouter (<[id := mkRoute f targetPlayer false (Some h)]> (routes r)) (custom r) (ratePerSec r) (rateBurst r) (authFree r).
Definition RegisterRoom (id : Z) (f : value) (snap : bool) (r : Router) : Router :=
  mkRouter (<[id := mkRoute f targetRoom snap None]> (routes r)) (custom r) (ratePerSec r) (rateBurst r) (authFree r).

(** *** Middleware *)

Definition authMiddleware {X} (r : Router) : Middleware (runtime * X) := fun next ctx req w =>
  if default false (authFree r !! cMsgID ctx) then next ctx req w else
  match sAuth (cSrc ctx) with
  | Some true => next ctx req w
  | _ => Ret (None, Some (HCode (NewErr ErrUnauthorized []))) w
  end.

Definition rateLimitMiddleware {X} (now : Z) (r : Router) : Middleware (runtime * X) := fun next ctx req w =>
  if SFltb (S754_zero false) (ratePerSec r) then
    let '(ok, bs) := allow (cUID ctx) now (ratePerSec r) (rateBurst r) (buckets w.1) in
    let rt := mkRT bs (metrics w.1) in
    if ok then next ctx req (rt, w.2)
    else Ret (None, Some (HCode (NewErr ErrRateLimited []))) (Inc "msg_rate_limited_total" rt, w.2)
  else next ctx req w.

Definition recoverMiddleware {X} : Middleware (runtime * X) := fun next ctx req w =>
  match next ctx req w with
  | Ret a w => Ret a w
  | Pan w => Ret (None, Some (HCode (NewErr ErrInternal (str "handler panic")))) w
  | Hang => Hang
  end.

Definition traceMiddleware {X} : Middleware (runtime * X) := fun next => next.

Definition metricMiddleware {X} : Middleware (runtime * X) := fun next ctx req w =>
  match next ctx req (Inc "msg_in_total" w.1, w.2) with
  | Ret (resp, None) w => Ret (resp, None) w
  | Ret (resp, Some e) w => Ret (resp, Some e) (Inc "msg_err_total" w.1, w.2)
  | Pan w => Pan w
  | Hang => Hang
  end.

Definition preMws {X} (now : Z) (r : Router) : list (Middleware (runtime * X)) :=
  [authMiddleware r; rateLimitMiddleware now r].
Definition inMws (r : Router) : list (Middleware (runtime * App)) :=
  [recoverMiddleware; traceMiddleware; metricMiddleware] ++ custom r.

(** *** Replies *)

Variable cs : codecs.

(** The frames sent: none when the frame cannot be built. *)
Definition sendFrame (m : cres Frame) : res (list Frame) :=
  match m with
  | Ok (inr f) => Ok [f]
  | Ok (inl _) => Ok []
  | Panic => Panic
  | OutOfFuel => OutOfFuel
  end.

Definition sendError (f : Frame) (ec : ErrCode) : res (list Frame) :=
  sendFrame (NewErrorFrameFor cs (CodecType f) (MsgID f) (Seq f) (ecCode ec) (ecMsg ec) None).

(** [msgCtx.Reply]. *)
Definition Reply (ctx : msgCtx) (resp : option value) (err : option herr) : res (list Frame) :=
  match err with
  | Some e =>
      sendFrame (NewErrorFrameFor cs (cCodec ctx) (cMsgID ctx) (cSeq ctx) (ecCode (asErrCode e)) (ecMsg (asErrCode e)) None)
  | None =>
      match resp with
      | Some v => sendFrame (NewOKFrameFor cs (cCodec ctx) (cMsgID ctx) (cSeq ctx) (Some v))
      | None => Ok []
      end
  end.

(** *** The actor's side *)

(** The closure in the envelope of a personal message; the frames it sends. *)
Definition runInvoke (r : Router) (ctx : msgCtx) (f : Frame) (entry : routeEntry) (req : value) (w : runtime * App)
    : res ((runtime * App) * list Frame) :=
  let h := match handler entry with Some h => h | None => fun _ _ w => Pan w end in
  match chain h (inMws r) ctx req w with
  | Pan _ => Panic
  | Hang => OutOfFuel
  | Ret (_, Some e) w => let! fs := sendError f (asErrCode e) in Ok (w, fs)
  | Ret (Some v, None) w =>
      let! fs := sendFrame (NewOKFrameFor cs (CodecType f) (cMsgID ctx) (Seq f) (Some v)) in Ok (w, fs)
  | Ret (None, None) w => Ok (w, [])
  end.

(** *** Dispatch *)

Inductive payload := PMsg (v : value) | PInvoke (ctx : msgCtx) (f : Frame) (entry : routeEntry) (req : value).
Record Envelope_ := mkEnv { evMsgID : Z; evSeq : Z; evSender : string; evTrace : string; evPayload : payload }.

Context {E : Type} {Disp : Dispatcher E Envelope_}.

Definition tellErrToCode (e : terr) : ErrCode :=
  match e with
  | ErrDropped => NewErr ErrOverloaded []
  | Actor.ErrKicked => NewErr Envelope.ErrKicked []
  | ErrActorNotFound => NewErr ErrUnauthorized []
  | ErrShuttingDown => NewErr ErrMaintenance []
  end.

(** The closure at the end of the chain: it fills the captured target. *)
Definition resolve (entry : routeEntry) (src : Source) (e : E) : HandlerFunc (runtime * option Z) := fun _ _ w =>
  match rtarget entry with
  | targetPlayer =>
      match ResolvePlayer (sUID src) e with
      | None => Ret (None, Some (HCode (NewErr ErrUnauthorized []))) w
      | Some id => Ret (None, None) (w.1, Some id)
      end
  | targetRoom =>
      match sRoom src with
      | None => Ret (None, Some (HCode (NewErr ErrNotInRoom []))) w
      | Some room =>
          match ResolveRoom room e with
          | None => Ret (None, Some (HCode (NewErr ErrNotInRoom []))) w
          | Some id => Ret (None, None) (w.1, Some id)
          end
      end
  end.

Record dout := mkDout { dRT : runtime; dEng : E; dSent : list Frame }.

(** The text of a codec error. *)
Variable errText : perr → list Z.

(** [None]: blocked in Tell. *)
Definition Dispatch (now : Z) (trace : string) (r : Router) (src : Source) (f : Frame) (rt : runtime) (e : E)
    : res (option dout) :=
  let ctx := mkCtx (sUID src) (MsgID f) (Seq f) trace (CodecType f) src in
  let reject rt e ec := let! fs := sendError f ec in Ok (Some (mkDout rt e fs)) in
  match routes r !! cMsgID ctx with
  | None => reject rt e (NewErr ErrUnknownMsg [])
  | Some entry =>
      match Get (CodecType f) cs with
      | inl _ => reject rt e (NewErr ErrUnknownMsg (str "codec not supported"))
      | inr codec =>
          match (if decide (Body f = []) then ret (factory entry) else cUnmarshal codec (Body f) (factory entry)) with
          | Ok (inl er) => reject rt e (NewErr ErrDecode (errText er))
          | Panic => reject rt e (NewErr ErrInternal [])
          | OutOfFuel => OutOfFuel
          | Ok (inr req) =>
              match chain (resolve entry src e) (preMws now r) ctx req (rt, None) with
              | Pan w => reject w.1 e (NewErr ErrInternal [])
              | Hang => OutOfFuel
              | Ret (_, Some er) w => reject w.1 e (asErrCode er)
              | Ret (_, None) w =>
                  let env := mkEnv (cMsgID ctx) (Seq f) (sUID src) trace
                               (match rtarget entry with
                                | targetRoom => PMsg req
                                | targetPlayer => PInvoke ctx f entry req
                                end) in
                  match dTell (default 0 w.2) env e with
                  | None => Ok None
                  | Some (None, e) => Ok (Some (mkDout w.1 e []))
                  | Some (Some te, e) => reject w.1 e (tellErrToCode te)
                  end
              end
          end
      end
  end.
End Router.
