(* ===== verification/RouterThm.v ===== *)
(** * Every request is delivered or answered

    A request that is not put in the mailbox of the right actor is answered
    with exactly one error frame that carries its message id and sequence
    number; nobody who is not logged in gets past the router; a handler that
    panics is answered like one that fails. *)

From Stdlib Require Import SpecFloat.
From S2P Require Import Prelude Frame ProtoWire Proto ProtoThm Envelope Actor Router.

(** The loop of [chain] puts the first middleware outermost. *)
Lemma chain_cons {W} (h : HandlerFunc W) mw mws : chain h (mw :: mws) = mw (chain h mws).
Proof. unfold chain. rewrite reverse_cons. by rewrite fold_left_app. Qed.

(** [f'] answers the request [f] with the given code, text and body. *)
Definition answers (cs : codecs) (f f' : Frame) (code : Code) (msg body : list Z) : Prop :=
  MsgID f' = MsgID f ∧ Seq f' = Seq f ∧ CodecType f' = CodecType f ∧
  (zlen (Body f') < 2^63 → DecodeEnvelope cs f' = Ok (inr (Some (mkEnvelope (Seq f) code msg body)))).

Section Proofs.
Context {App E : Type} {Disp : Dispatcher E (@Envelope_ App)}.
Variable cs : codecs.
Variable errText : perr → list Z.
Implicit Types (r : @Router App) (f : Frame) (e : E).

Lemma CodecType_range f : 0 ≤ CodecType f < 16.
Proof.
  unfold CodecType. change FlagCodecMask with (Z.ones 4). rewrite Z.land_ones by lia. apply Z.mod_pos_bound. lia.
Qed.

Lemma NewErr_msg code msg : ecMsg (NewErr code (ecMsg (NewErr code msg))) = ecMsg (NewErr code msg).
Proof.
  unfold NewErr. cbn. destruct (decide (msg = [])); [|by rewrite decide_False].
  destruct (decide (Message code = [])); done.
Qed.

(** A codec that is registered and lawful answers. *)
Lemma sendError_answers c f ec : cs !! CodecType f = Some c → LawfulCodec c → u32 (Seq f) → u16 (ecCode ec) →
  ∃ f', sendError cs f ec = Ok [f'] ∧ answers cs f f' (ecCode ec) (ecMsg (NewErr (ecCode ec) (ecMsg ec))) [].
Proof.
  intros Hc HL Hs Hcode. destruct (frame_decodes cs (CodecType f) c (MsgID f) (Seq f) (ecCode ec) (ecMsg ec) None [])
    as (f' & Hf & H1 & H2 & H3 & H4); try done; [apply CodecType_range|].
  exists f'. unfold sendError. by rewrite Hf.
Qed.

Definition routerCodes : list Code :=
  [ErrUnknownMsg; ErrDecode; ErrUnauthorized; ErrRateLimited; Envelope.ErrKicked; ErrNotInRoom; ErrInternal; ErrOverloaded; ErrMaintenance].

Lemma routerCodes_u16 code : code ∈ routerCodes → u16 code.
Proof. unfold routerCodes, u16. rewrite !elem_of_cons, elem_of_nil. intros; destruct_or!; subst; vm_compute; split; congruence. Qed.

(** The actor a route leads to. *)
Definition located (entry : @routeEntry App) (src : Source) e (id : Z) : Prop :=
  match rtarget entry with
  | targetPlayer => ResolvePlayer (sUID src) e = Some id
  | targetRoom => ∃ room, sRoom src = Some room ∧ ResolveRoom room e = Some id
  end.

(** A stage of the read pump passes, knowing [P], or refuses with a code. *)
Definition passes (entry : @routeEntry App) (src : Source) e (P : Prop) (o : out (runtime * option Z) (option value * option herr)) : Prop :=
  (∃ rt' id, o = Ret (None, None) (rt', Some id) ∧ P ∧ located entry src e id) ∨
  (∃ rt' code, o = Ret (None, Some (HCode (NewErr code []))) (rt', None) ∧ code ∈ routerCodes).

Lemma passes_refuse entry src e P rt code : code ∈ routerCodes →
  passes entry src e P (Ret (None, Some (HCode (NewErr code []))) (rt, None)).
Proof. right. eauto. Qed.

Ltac refuse := apply passes_refuse; unfold routerCodes; set_solver.

Lemma resolve_passes entry src e ctx req rt (P : Prop) : P → passes entry src e P (resolve entry src e ctx req (rt, None)).
Proof.
  intros HP. unfold resolve. destruct (rtarget entry) eqn:Et.
  - destruct (ResolvePlayer (sUID src) e) as [id|] eqn:Er; [left|refuse].
    exists rt, id. unfold located. by rewrite Et.
  - destruct (sRoom src) as [room|] eqn:Es; [|refuse]. destruct (ResolveRoom room e) as [id|] eqn:Er; [left|refuse].
    exists rt, id. unfold located. rewrite Et. eauto.
Qed.

Lemma rate_passes now r entry src e ctx req rt (P : Prop) : P →
  passes entry src e P (rateLimitMiddleware now r (resolve entry src e) ctx req (rt, None)).
Proof.
  intros HP. unfold rateLimitMiddleware. destruct (SFltb _ _); [|by apply resolve_passes].
  destruct (allow _ _ _ _ _) as [[] bs]; [by apply resolve_passes|refuse].
Qed.

(** The chain of the read pump: authentication, rate limit, location. *)
Lemma pre_passes now r entry src ctx req rt e : cSrc ctx = src →
  passes entry src e (authFree r !! cMsgID ctx = Some true ∨ sAuth src = Some true)
    (chain (resolve entry src e) (preMws now r) ctx req (rt, None)).
Proof.
  intros Hsrc. unfold preMws. rewrite !chain_cons. change (chain (resolve entry src e) []) with (resolve entry src e).
  unfold authMiddleware. rewrite Hsrc. destruct (authFree r !! cMsgID ctx) as [[]|] eqn:Ef; cbn [default from_option id];
    [apply rate_passes; by left| |]; (destruct (sAuth src) as [[]|] eqn:Ea; [apply rate_passes; by right|refuse..]).
Qed.

Lemma tell_code te : ecCode (tellErrToCode te) ∈ routerCodes.
Proof. destruct te; unfold routerCodes; cbn; set_solver. Qed.

(** The result of a dispatch: the frame was delivered to the actor of its
    route, by somebody allowed to, or it was answered once with an error. *)
Definition settled r (src : Source) f e (o : @dout E) : Prop :=
  (dSent o = [] ∧ ∃ entry id env,
     routes r !! MsgID f = Some entry ∧ (authFree r !! MsgID f = Some true ∨ sAuth src = Some true) ∧
     located entry src e id ∧ dTell id env e = Some (None, dEng o) ∧
     evMsgID env = MsgID f ∧ evSeq env = Seq f ∧ evSender env = sUID src) ∨
  (∃ f' code msg, dSent o = [f'] ∧ code ∈ routerCodes ∧ answers cs f f' code msg []).

Lemma reject_settled c r src f e rt e' ec : cs !! CodecType f = Some c → LawfulCodec c → u32 (Seq f) → ecCode ec ∈ routerCodes →
  ∃ o, (let! fs := sendError cs f ec in Ok (Some (mkDout rt e' fs))) = Ok (Some o) ∧ settled r src f e o.
Proof.
  intros Hc HL Hs Hcode. destruct (sendError_answers c f ec Hc HL Hs (routerCodes_u16 _ Hcode)) as (f' & -> & Ha).
  eexists. split; [done|]. right. eauto 10.
Qed.

(** C23. Every request is delivered or answered: with a lawful codec for the
    frame's type, [Dispatch] does not panic, and either blocks on the mailbox
    of the target, or puts exactly one envelope with the request's id, sequence
    number and sender in the mailbox of the actor of its route (the sender's
    player or the sender's room) and sends nothing, or sends exactly one error
    frame that carries the request's message id, sequence number and codec and
    decodes to one of the router's codes.  Only authenticated sources, and the
    message ids that need no authentication, are delivered. *)
Theorem dispatch_settles now trace r src f rt e c :
  cs !! CodecType f = Some c → LawfulCodec c → u32 (Seq f) →
  (∀ entry, routes r !! MsgID f = Some entry → cUnmarshal c (Body f) (factory entry) ≠ OutOfFuel) →
  (Dispatch cs errText now trace r src f rt e = Ok None ∧ ∃ id env, dTell id env e = None) ∨
  ∃ o, Dispatch cs errText now trace r src f rt e = Ok (Some o) ∧ settled r src f e o.
Proof.
  intros Hc HL Hs Hfuel. unfold Dispatch. cbn [cMsgID].
  assert (∀ rt' e' code msg, code ∈ routerCodes →
    ∃ o, (let! fs := sendError cs f (NewErr code msg) in Ok (Some (mkDout rt' e' fs))) = Ok (Some o) ∧ settled r src f e o) as Hrej
    by (intros; by eapply reject_settled).
  destruct (routes r !! MsgID f) as [entry|] eqn:Er; [|right; apply Hrej; unfold routerCodes; set_solver].
  unfold Get. rewrite Hc. specialize (Hfuel entry eq_refl).
  destruct (if decide (Body f = []) then ret (factory entry) else cUnmarshal c (Body f) (factory entry)) as [[er|req]| |] eqn:Eu;
    [right; apply Hrej; unfold routerCodes; set_solver| |right; apply Hrej; unfold routerCodes; set_solver|by destruct (decide _)].
  set (ctx := mkCtx _ _ _ _ _ _).
  destruct (pre_passes now r entry src ctx req rt e eq_refl) as [(rt' & id & -> & Ha & Hloc)|(rt' & code & -> & Hcode)].
  2: { right. by apply Hrej. }
  cbn [fst snd default from_option Datatypes.id]. set (env := mkEnv _ _ _ _ _).
  destruct (dTell id env e) as [[[te|] e']|] eqn:Et; [| |left; eauto].
  - right. apply (reject_settled c); [done..|apply tell_code].
  - right. eexists. split; [done|]. left. split; [done|]. exists entry, id, env. done.
Qed.

(** Nobody who is not logged in gets past the router: a request that needs
    authentication, from a source that has none, changes nothing (not the
    engine, and not the sender's rate budget) and is answered with 2001. *)
Theorem unauthenticated_refused now trace r src f rt e c entry req :
  cs !! CodecType f = Some c → LawfulCodec c → u32 (Seq f) →
  routes r !! MsgID f = Some entry → authFree r !! MsgID f ≠ Some true → sAuth src ≠ Some true →
  (if decide (Body f = []) then ret (factory entry) else cUnmarshal c (Body f) (factory entry)) = ret req →
  ∃ f', Dispatch cs errText now trace r src f rt e = Ok (Some (mkDout rt e [f'])) ∧
    answers cs f f' ErrUnauthorized (str "unauthorized") [].
Proof.
  intros Hc HL Hs Hr Hf Ha Hu. unfold Dispatch. cbn [cMsgID]. rewrite Hr. unfold Get. rewrite Hc, Hu. unfold ret.
  unfold preMws. rewrite chain_cons. unfold authMiddleware at 1. cbn [cMsgID cSrc].
  assert (default false (authFree r !! MsgID f) = false) as -> by (by destruct (authFree r !! MsgID f) as [[]|]).
  destruct (sendError_answers c f (NewErr ErrUnauthorized []) Hc HL Hs) as (f' & Hsend & Hans).
  { apply routerCodes_u16. unfold routerCodes. set_solver. }
  exists f'. destruct (sAuth src) as [[]|]; [done|..]; cbn [fst asErrCode]; rewrite Hsend; done.
Qed.

(** C24. A handler's outcome is the client's answer: in the actor, after the
    route's own middleware, a result is answered with code 0 and its encoding,
    an error with its code, and a panic with 4001 and no panic of the actor;
    nothing is sent for an empty result, nor while the handler does not return.
    In every case the state is the one the handler left. *)
Theorem invoke_answers r ctx f entry h req w c :
  cs !! CodecType f = Some c → LawfulCodec c → u32 (Seq f) → cMsgID ctx = MsgID f → handler entry = Some h →
  match chain h (custom r) ctx req (Inc "msg_in_total" w.1, w.2) with
  | Pan w' => ∃ f', runInvoke cs r ctx f entry req w = Ok (w', [f']) ∧ answers cs f f' ErrInternal (str "handler panic") []
  | Ret (_, Some er) w' =>
      u16 (ecCode (asErrCode er)) →
      ∃ f' msg, runInvoke cs r ctx f entry req w = Ok ((Inc "msg_err_total" w'.1, w'.2), [f']) ∧
        answers cs f f' (ecCode (asErrCode er)) msg []
  | Ret (Some v, None) w' =>
      ∀ raw, cMarshal c (Some v) = ret raw → Forall is_byte raw →
      ∃ f', runInvoke cs r ctx f entry req w = Ok (w', [f']) ∧ answers cs f f' OK (str "ok") raw
  | Ret (None, None) w' => runInvoke cs r ctx f entry req w = Ok (w', [])
  | Hang => runInvoke cs r ctx f entry req w = OutOfFuel
  end.
Proof.
  intros Hc HL Hs Hid Hh. unfold runInvoke. rewrite Hh. unfold inMws. cbn [app]. rewrite !chain_cons.
  unfold recoverMiddleware, traceMiddleware, metricMiddleware.
  destruct (chain h (custom r) ctx req (Inc "msg_in_total" w.1, w.2)) as [[[v|] [er|]] w'|w'|]; [| | | | |done].
  - intros Hcode. destruct (sendError_answers c f (asErrCode er) Hc HL Hs Hcode) as (f' & -> & Ha). cbn [rbind]. eauto.
  - intros raw Hraw Hb.
    destruct (frame_decodes cs (CodecType f) c (MsgID f) (Seq f) OK [] (Some v) raw) as (f' & Hf & ? & ? & ? & ?);
      try done; try apply CodecType_range.
    exists f'. unfold NewOKFrameFor. rewrite Hid, Hf. done.
  - intros Hcode. destruct (sendError_answers c f (asErrCode er) Hc HL Hs Hcode) as (f' & -> & Ha). cbn [rbind]. eauto.
  - done.
  - destruct (sendError_answers c f (NewErr ErrInternal (str "handler panic")) Hc HL Hs) as (f' & Hsend & Ha).
    { apply routerCodes_u16. unfold routerCodes. cbn. set_solver. }
    exists f'. cbn [asErrCode]. rewrite Hsend. done.
Qed.
End Proofs.

(** Finding. A frame whose codec is not registered is not answered at all: the
    refusal is encoded with the codec that does not exist. *)
Theorem unknown_codec_unanswered : ∃ o : dout,
  Dispatch (App := unit) (E := @engine unit (@Envelope_ unit)) (Envelope.Register ProtoCodec ∅) (fun _ => []) 0 ""
    (Register 7 (VStruct []) (fun _ _ w => Ret (None, None) w) (New []))
    (mkSource "u" (Some true) None) (mkFrame 1 7 5 1 [] []) (mkRT ∅ None) NewEngine = Ok (Some o) ∧
  dSent o = [] ∧ dEng o = NewEngine.
Proof. eexists. split; [vm_compute; reflexivity|]. done. Qed.

(** ** A concrete router *)

Definition demoCodecs : codecs := Envelope.Register ProtoCodec ∅.
Definition demoPanic : HandlerFunc (runtime * Z) := fun _ _ w => Pan (w.1, w.2 + 1).
Definition demoRouter : @Router Z := Register 0x1100 (VPtr (KStruct []) (Some (VStruct []))) demoPanic (New []).
Definition demoFrame : Frame := mkFrame 1 0x1100 1 7 [] [].
Definition demoEngine : @engine unit (@Envelope_ Z) := mkEngine 0 ∅ (BindUID "u" 3 NewRegistry) false ∅ 0.
Definition demoRT : runtime := mkRT ∅ None.

Lemma dispatch_settles_witness :
  (Dispatch demoCodecs (fun _ => []) 0 "" demoRouter (mkSource "u" (Some true) None) demoFrame demoRT demoEngine = Ok None ∧
   ∃ id env, dTell id env demoEngine = None) ∨
  ∃ o, Dispatch demoCodecs (fun _ => []) 0 "" demoRouter (mkSource "u" (Some true) None) demoFrame demoRT demoEngine = Ok (Some o) ∧
    settled demoCodecs demoRouter (mkSource "u" (Some true) None) demoFrame demoEngine o.
Proof.
  apply (dispatch_settles demoCodecs (fun _ => []) 0 "" demoRouter (mkSource "u" (Some true) None) demoFrame demoRT demoEngine ProtoCodec).
  - reflexivity.
  - apply _.
  - unfold u32. cbn. lia.
  - intros entry [= <-]. vm_compute. discriminate.
Defined.

Lemma unauthenticated_refused_witness : ∃ f',
  Dispatch demoCodecs (fun _ => []) 0 "" demoRouter (mkSource "u" (Some false) None) demoFrame demoRT demoEngine
    = Ok (Some (mkDout demoRT demoEngine [f'])) ∧
  answers demoCodecs demoFrame f' ErrUnauthorized (str "unauthorized") [].
Proof.
  eapply (unauthenticated_refused demoCodecs (fun _ => []) 0 "" demoRouter (mkSource "u" (Some false) None) demoFrame demoRT demoEngine ProtoCodec).
  - reflexivity.
  - apply _.
  - unfold u32. cbn. lia.
  - reflexivity.
  - vm_compute. discriminate.
  - discriminate.
  - reflexivity.
Defined.

Lemma invoke_answers_witness : ∃ f',
  runInvoke demoCodecs demoRouter (mkCtx "u" 0x1100 7 "" 1 (mkSource "u" (Some true) None)) demoFrame
    (mkRoute (VStruct []) targetPlayer false (Some demoPanic)) (VStruct []) (demoRT, 41) = Ok ((demoRT, 42), [f']) ∧
  answers demoCodecs demoFrame f' ErrInternal (str "handler panic") [].
Proof.
  apply (invoke_answers demoCodecs demoRouter (mkCtx "u" 0x1100 7 "" 1 (mkSource "u" (Some true) None)) demoFrame
    (mkRoute (VStruct []) targetPlayer false (Some demoPanic)) demoPanic (VStruct []) (demoRT, 41) ProtoCodec).
  - reflexivity.
  - apply _.
  - unfold u32. cbn. lia.
  - reflexivity.
  - reflexivity.
Defined.
