(* ===== verification/RoomCtx.v ===== *)
(** * The room context handed to game logic (pkg/framework/room.go, internal/room/room.go)

    A game reads and changes its room only through [framework.RoomCtx].  The
    room side of that interface is the record [rctx]: the member table with
    the connection state of each member, the fields of [roomActor] that
    [doClose] touches, the pending timers with the closure each will run, and
    the calls that leave the room (pushes, storage, profile writes) in the
    order they were made. *)

From S2P Require Import Prelude.

(** Identifiers of the framework messages the games send. *)
Definition MsgMemberChange : Z := 0x0112.
Definition MsgKick : Z := 0x0020.

Section RoomCtx.
(** [M]: message bodies of the game; [CB]: its timer closures. *)
Context {M CB : Type}.

(** Calls that leave the room. A broadcast records the members it fans out to. *)
Inductive event :=
| EvBroadcast (to : list string) (id : Z) (m : M)
| EvSnapshot (to : list string) (id : Z) (m : M)
| EvPush (uid : string) (id : Z) (m : M)
| EvIncrBy (table key : string) (delta : Z)
| EvSetSync (table key : string) (m : M)
| EvZIncrBy (table member : string) (delta : Z)
| EvPatch (uid field : string) (v : Z)
| EvSetRoomID (uid room : string)
| EvStop.

Record rctx := mkRctx {
  roomID : string;
  members : gmap string bool;      (* uid -> Online() *)
  morder : list string;            (* roomActor.order *)
  closing : bool;
  ticking : bool;                  (* tickTimer armed *)
  maxArmed : bool;                 (* maxTimer armed *)
  timers : gmap nat CB;            (* pending After callbacks *)
  nextHandle : nat;
  profileStore : bool;             (* ProfileStore() <> nil *)
  nowMs : Z;                       (* time.Now() *)
  out : list event }.

Definition set_members (r : rctx) ms o : rctx :=
  mkRctx (roomID r) ms o (closing r) (ticking r) (maxArmed r) (timers r) (nextHandle r)
         (profileStore r) (nowMs r) (out r).
Definition set_closing (r : rctx) : rctx :=
  mkRctx (roomID r) (members r) (morder r) true false false (timers r) (nextHandle r)
         (profileStore r) (nowMs r) (out r).
Definition set_timers (r : rctx) ts n : rctx :=
  mkRctx (roomID r) (members r) (morder r) (closing r) (ticking r) (maxArmed r) ts n
         (profileStore r) (nowMs r) (out r).

Definition emits (r : rctx) (es : list event) : rctx :=
  mkRctx (roomID r) (members r) (morder r) (closing r) (ticking r) (maxArmed r) (timers r)
         (nextHandle r) (profileStore r) (nowMs r) (out r ++ es).
Definition emit (r : rctx) (e : event) : rctx := emits r [e].

(** [Member(uid)]: present members only, with their [Online()]. *)
Definition Member (r : rctx) (uid : string) : option bool := members r !! uid.

(** [if m, ok := r.Member(uid); ok && !m.Online()] *)
Definition memberOffline (r : rctx) (uid : string) : bool :=
  match Member r uid with Some online => negb online | None => false end.

(** The members a fan-out reaches: table order, present, not excepted. *)
Definition recipients (r : rctx) (except : list string) : list string :=
  filter (fun u => u ∉ except ∧ is_Some (members r !! u)) (morder r).

Definition Broadcast (r : rctx) (id : Z) (m : M) (except : list string) : rctx :=
  emit r (EvBroadcast (recipients r except) id m).
Definition BroadcastSnapshot (r : rctx) (id : Z) (m : M) (except : list string) : rctx :=
  emit r (EvSnapshot (recipients r except) id m).

(** [if m, ok := r.Member(uid); ok { m.Push(id, msg) }] *)
Definition PushTo (r : rctx) (uid : string) (id : Z) (m : M) : rctx :=
  match Member r uid with Some _ => emit r (EvPush uid id m) | None => r end.

(** [After]: arms a timer, returns its handle. *)
Definition After (r : rctx) (cb : CB) : nat * rctx :=
  (nextHandle r, set_timers r (<[nextHandle r := cb]> (timers r)) (S (nextHandle r))).
(** [Handle.Cancel]. *)
Definition Cancel (r : rctx) (h : nat) : rctx :=
  set_timers r (delete h (timers r)) (nextHandle r).

(** [Close]: the room actor handles the close message at once, on the same
    goroutine: OnDestroy of the logic, then the members are released. *)
Definition doClose (onDestroy : rctx → rctx) (r : rctx) : rctx :=
  if closing r then r else
  let r := set_closing r in
  let r := onDestroy r in
  let r := emits r ((fun p => EvSetRoomID (fst p) EmptyString) <$> map_to_list (members r)) in
  let r := set_members r ∅ [] in
  emit r EvStop.
End RoomCtx.

Arguments event : clear implicits.
Arguments rctx : clear implicits.

(** ** Facts shared by the games *)

Section Facts.
Context {M CB : Type}.
Implicit Types r : rctx M CB.

Lemma emits_emits r es es' : emits (emits r es) es' = emits r (es ++ es').
Proof. unfold emits; simpl. by rewrite app_assoc. Qed.

Lemma emits_nil r : emits r [] = r.
Proof. destruct r; unfold emits; simpl. by rewrite app_nil_r. Qed.

Lemma recipients_member r except u : u ∈ recipients r except → is_Some (members r !! u) ∧ u ∉ except.
Proof. unfold recipients. rewrite list_elem_of_filter. tauto. Qed.

Lemma doClose_closing onDestroy r :
  (∀ r', closing (onDestroy r') = closing r') → closing (doClose onDestroy r) = true.
Proof. intros H. unfold doClose. destruct (closing r) eqn:E; [done|]. simpl. by rewrite H. Qed.

Lemma doClose_idem onDestroy r :
  (∀ r', closing (onDestroy r') = closing r') →
  doClose onDestroy (doClose onDestroy r) = doClose onDestroy r.
Proof.
  intros H. unfold doClose at 1. by rewrite doClose_closing.
Qed.
End Facts.
