(* ===== verification/Room.v ===== *)
(** * The room actor and the room manager (internal/room/room.go)

    [roomActor] runs any game: the interface [framework.RoomLogic] is the class
    [RoomLogic], whose instances are the games.  The state of a room is the
    state of its game, which contains the room context of RoomCtx.v (members,
    order, timers, closing flag and the calls that left the room).
    [TameLogic] is what a room relies on: a callback changes the members only
    by closing the room.  Under that contract the room's own invariants hold
    for every interleaving of joins, leaves, messages and timers. *)

From S2P Require Import Prelude Envelope Actor RoomCtx.

(** ** Configuration *)

Record RoomConfig := mkRoomConfig {
  cfgModule : string;
  MaxPlayers : Z;
  MaxDuration : Z;
  TickInterval : Z;
  Mailbox : MailboxPolicy }.

(** The defaults [CreateRoom] fills in. *)
Definition roomConfig (defaultTick : Z) (defaultPolicy : MailboxPolicy) (module : string) (cfg : RoomConfig) : RoomConfig :=
  mkRoomConfig
    (if decide (cfgModule cfg = ""%string) then module else cfgModule cfg)
    (if MaxPlayers cfg <=? 0 then 8 else MaxPlayers cfg)
    (MaxDuration cfg)
    (if TickInterval cfg <=? 0 then defaultTick else TickInterval cfg)
    (if Capacity (Mailbox cfg) <=? 0 then defaultPolicy else Mailbox cfg).

(** [NewManager]'s default tick. *)
Definition managerTick (d : Z) : Z := if d <=? 0 then 100 * 10^6 else d.

Notation modules := (gmap string RoomConfig).
(** [RegisterModule] copies the table and stores the copy. *)
Definition RegisterModule (cfg : RoomConfig) (ms : modules) : modules := <[cfgModule cfg := cfg]> ms.
Definition ModuleDef (module : string) (ms : modules) : option RoomConfig := ms !! module.

(** ** The interface of game logic *)

Class RoomLogic (S M CB Req : Type) := {
  room_of : S → rctx M CB;
  with_room : rctx M CB → S → S;
  lOnCreate : RoomConfig → S → S;
  lOnJoin : string → S → res S;
  lOnMessage : string → Req → S → res S;
  lTick : S → res S;
  lOnLeave : string → S → res S;
  lOnEmpty : S → res S;
  lOnDestroy : S → rctx M CB → rctx M CB;
  lOnTimeout : option (S → res S);       (* framework.TimeoutLogic, optional *)
  lFire : CB → S → res S }.              (* a callback the game armed with After *)

Section Room.
Context {S M CB Req : Type} `{RL : RoomLogic S M CB Req}.
Implicit Types s : S.

Definition onRoom (f : rctx M CB → rctx M CB) s : S := with_room (f (room_of s)) s.

Definition arm (maxTimer : bool) (r : rctx M CB) : rctx M CB :=
  mkRctx (roomID r) (members r) (morder r) (closing r) true maxTimer (timers r) (nextHandle r)
         (profileStore r) (nowMs r) (out r).

(** [Init]: the logic's OnCreate, then the tick timer and the game's time limit. *)
Definition Init (cfg : RoomConfig) s : S := onRoom (arm (0 <? MaxDuration cfg)) (lOnCreate cfg s).

Definition closeRoom s : S := onRoom (doClose (lOnDestroy s)) s.

Definition roomSize s : Z := Z.of_nat (size (members (room_of s))).

(** The reply of [handleJoin] is the first component; [online] is what the
    session reports. *)
Definition handleJoin (cfg : RoomConfig) (uid : string) (online : bool) s : res (option ErrCode * S) :=
  let r := room_of s in
  if closing r then Ok (Some (NewErr ErrNotInRoom (str "room closing")), s) else
  match members r !! uid with
  | Some _ => Ok (None, s)
  | None =>
      if roomSize s >=? MaxPlayers cfg then Ok (Some (NewErr ErrRoomFull []), s) else
      let s := onRoom (fun r => emit (set_members r (<[uid := online]> (members r)) (morder r ++ [uid]))
                                     (EvSetRoomID uid (roomID r))) s in
      let! s := lOnJoin uid s in
      Ok (None, s)
  end.

(** [removeOrder] is [remove_first]. *)
Definition handleLeave (uid : string) s : res S :=
  let r := room_of s in
  if closing r then Ok s else
  match members r !! uid with
  | None => Ok s
  | Some _ =>
      let s := onRoom (fun r => emit (set_members r (delete uid (members r)) (remove_first uid (morder r)))
                                     (EvSetRoomID uid ""%string)) s in
      let! s := lOnLeave uid s in
      if decide (roomSize s = 0) then lOnEmpty s else Ok s
  end.

Inductive roomMsg :=
| joinMsg (uid : string) (online : bool)
| leaveMsg (uid : string)
| closeMsg
| playMsg (sender : string) (req : Req).

(** The reply to a join, if the message asked for one, and the room after it. *)
Definition OnMessage (cfg : RoomConfig) (m : roomMsg) s : res (option (option ErrCode) * S) :=
  match m with
  | joinMsg uid online => let! (e, s) := handleJoin cfg uid online s in Ok (Some e, s)
  | leaveMsg uid => let! s := handleLeave uid s in Ok (None, s)
  | closeMsg => Ok (None, closeRoom s)
  | playMsg sender req =>
      match members (room_of s) !! sender with
      | None => Ok (None, s)
      | Some _ => let! s := lOnMessage sender req s in Ok (None, s)
      end
  end.

(** The closures of the two timers [Init] arms. *)
Definition onTick s : res S := lTick s.
Definition onMaxDuration s : res S :=
  match lOnTimeout with
  | Some f => let! s := f s in Ok (closeRoom s)
  | None => Ok (closeRoom s)
  end.

(** [Kick]: the notice, then the leave. *)
Definition Kick (uid : string) (notice : M) s : res S :=
  match members (room_of s) !! uid with
  | None => Ok s
  | Some _ => handleLeave uid (onRoom (fun r => PushTo r uid RoomCtx.MsgKick notice) s)
  end.

(** [Members]: the players in joining order. *)
Definition Members s : list string :=
  filter (fun u => is_Some (members (room_of s) !! u)) (morder (room_of s)).

(** ** The contract of game logic *)

(** Events that belong to the room and that no callback may emit by itself. *)
Definition roomEvent (e : event M) : bool :=
  match e with EvStop | EvSetRoomID _ _ => true | _ => false end.

Record quiet (r r' : rctx M CB) : Prop := {
  q_id : roomID r' = roomID r;
  q_members : members r' = members r;
  q_order : morder r' = morder r;
  q_closing : closing r' = closing r;
  q_out : ∃ es, out r' = out r ++ es ∧ Forall (fun e => roomEvent e = false) es }.

(** What a callback may do to its room: quiet changes, and closing it. *)
Inductive tame : rctx M CB → rctx M CB → Prop :=
| tame_refl r : tame r r
| tame_quiet r r1 r2 : tame r r1 → quiet r1 r2 → tame r r2
| tame_close d r r1 : tame r r1 → (∀ x, quiet x (d x)) → tame r (doClose d r1).

Class TameLogic : Prop := {
  room_with r s : room_of (with_room r s) = r;
  tame_create cfg s : tame (room_of s) (room_of (lOnCreate cfg s));
  tame_join uid s s' : lOnJoin uid s = Ok s' → tame (room_of s) (room_of s');
  tame_message uid req s s' : lOnMessage uid req s = Ok s' → tame (room_of s) (room_of s');
  tame_tick s s' : lTick s = Ok s' → tame (room_of s) (room_of s');
  tame_leave uid s s' : lOnLeave uid s = Ok s' → tame (room_of s) (room_of s');
  tame_empty s s' : lOnEmpty s = Ok s' → tame (room_of s) (room_of s');
  tame_destroy s r : quiet r (lOnDestroy s r);
  tame_timeout f s s' : lOnTimeout = Some f → f s = Ok s' → tame (room_of s) (room_of s');
  tame_fire cb s s' : lFire cb s = Ok s' → tame (room_of s) (room_of s') }.
End Room.

(** ** Fan-out

    A broadcast encodes the message once per codec and delivers it to the
    members in joining order.  [codecOf] is the codec of a member's session,
    [cs] the registry of codecs; the result lists the bodies handed to
    [PushEncoded].  A member whose codec fails to encode gets nothing. *)
Section FanOut.
Context {M CB : Type}.
Variable cs : codecs.
Variable codecOf : string → Z.
Variable msg : option Proto.value.

(** [MustGet(c).Marshal(msg)]: the body, or [None] when encoding fails. *)
Definition encodeFor (c : Z) : res (option (list Z)) :=
  let! codec := MustGet c cs in
  match cMarshal codec msg with
  | Ok (inr body) => Ok (Some body)
  | Ok (inl _) => Ok None
  | Panic => Panic
  | OutOfFuel => OutOfFuel
  end.

Fixpoint fanLoop (except : gset string) (ms : gmap string bool) (us : list string)
    (bodies : gmap Z (option (list Z))) (sent : list (string * list Z)) : res (list (string * list Z)) :=
  match us with
  | [] => Ok sent
  | uid :: us' =>
      if decide (uid ∈ except) then fanLoop except ms us' bodies sent else
      match ms !! uid with
      | None => fanLoop except ms us' bodies sent
      | Some _ =>
          let c := codecOf uid in
          let! (e, bodies) :=
            match bodies !! c with
            | Some e => Ok (e, bodies)
            | None => let! e := encodeFor c in Ok (e, <[c := e]> bodies)
            end in
          fanLoop except ms us' bodies (match e with Some body => sent ++ [(uid, body)] | None => sent end)
      end
  end.

Definition exceptSet (except : list string) : gset string := list_to_set except.

Definition fanOut (r : rctx M CB) (except : list string) : res (list (string * list Z)) :=
  fanLoop (exceptSet except) (members r) (morder r) ∅ [].

(** The reference: every recipient's message encoded on its own. *)
Fixpoint encodeEach (us : list string) (sent : list (string * list Z)) : res (list (string * list Z)) :=
  match us with
  | [] => Ok sent
  | uid :: us' =>
      let! e := encodeFor (codecOf uid) in
      encodeEach us' (match e with Some body => sent ++ [(uid, body)] | None => sent end)
  end.
End FanOut.
