(* ===== verification/RoomThm.v ===== *)
(** * Invariants of a room, for every tame game

    The member table and the joining order always agree, the room never exceeds
    its configured size, a closed room is empty and stopped exactly once, and a
    session carries the room's id exactly while its player is a member. *)

From S2P Require Import Prelude Envelope Actor RoomCtx Room.

Section Events.
Context {M : Type}.

(** The room a session was last told to be in, as a flag. *)
Definition tellRoom (u : string) (b : bool) (e : event M) : bool :=
  match e with
  | EvSetRoomID v rid => if decide (v = u) then negb (bool_decide (rid = ""%string)) else b
  | _ => b
  end.
Definition inRoom (es : list (event M)) (u : string) : bool := foldl (tellRoom u) false es.

(** The players in the order in which their sessions were told they are in the
    room, less those whose sessions were told they left. *)
Definition joinStep (l : list string) (e : event M) : list string :=
  match e with
  | EvSetRoomID v rid => if decide (rid = ""%string) then remove_first v l else l ++ [v]
  | _ => l
  end.
Definition joined (es : list (event M)) : list string := foldl joinStep [] es.

Definition isStop (e : event M) : bool := match e with EvStop => true | _ => false end.
Definition stopCount (es : list (event M)) : nat := length (filter (fun e => isStop e = true) es).

Lemma inRoom_app es es' u : inRoom (es ++ es') u = foldl (tellRoom u) (inRoom es u) es'.
Proof. apply foldl_app. Qed.

Lemma stopCount_app es es' : stopCount (es ++ es') = (stopCount es + stopCount es')%nat.
Proof. unfold stopCount. by rewrite filter_app, length_app. Qed.

Lemma joined_app es es' : joined (es ++ es') = foldl joinStep (joined es) es'.
Proof. apply foldl_app. Qed.

Lemma quiet_joined es l : Forall (fun e : event M => roomEvent e = false) es → foldl joinStep l es = l.
Proof. induction 1 as [|e es He _ IH]; [done|]. cbn [foldl]. by destruct e. Qed.

(** Releasing every member, in whatever order, leaves nobody. *)
Lemma release_joined (ms : list (string * bool)) l :
  NoDup l → (∀ u, u ∈ l → u ∈ map fst ms) → foldl joinStep l ((fun p => EvSetRoomID p.1 ""%string) <$> ms) = [].
Proof.
  revert l. induction ms as [|[v x] ms IH]; intros l Hnd Hl; cbn [fmap list_fmap foldl map fst].
  - destruct l as [|u l]; [done|]. exfalso. apply (elem_of_nil u), Hl. by left.
  - cbn [joinStep]. rewrite decide_True by done. apply IH; [by apply NoDup_remove_first|].
    intros u [Hu Hne]%elem_of_remove_first; [|done]. apply Hl in Hu as [?|?]%elem_of_cons; done.
Qed.

Lemma quiet_events es u b : Forall (fun e : event M => roomEvent e = false) es →
  foldl (tellRoom u) b es = b ∧ stopCount es = 0%nat.
Proof.
  induction 1 as [|e es He _ [IH1 IH2]]; [done|]. cbn [foldl]. destruct e; try done.
Qed.

Lemma release_events (ms : list (string * bool)) u b :
  foldl (tellRoom u) b ((fun p => EvSetRoomID p.1 ""%string) <$> ms) = (if decide (u ∈ map fst ms) then false else b) ∧
  stopCount ((fun p => @EvSetRoomID M p.1 ""%string) <$> ms) = 0%nat.
Proof.
  revert b. induction ms as [|[v x] ms IH]; intros b; cbn [fmap list_fmap foldl map fst].
  - rewrite decide_False by (by intros ?%elem_of_nil). done.
  - destruct (IH (tellRoom u b (EvSetRoomID v ""%string))) as [-> H2]. split; [|exact H2].
    cbn [tellRoom]. destruct (decide (u ∈ map fst ms)) as [Hin|Hni].
    + by rewrite decide_True by (by right).
    + destruct (decide (v = u)) as [->|Hne]; [by rewrite decide_True by left|].
      rewrite decide_False; [done|]. intros [?|?]%elem_of_cons; [by subst|done].
Qed.
End Events.
Arguments stopCount : simpl never.
Arguments inRoom : simpl never.
Arguments joined : simpl never.

Section Ctx.
Context {M CB : Type}.
Implicit Types r : rctx M CB.

Record RInv (max : Z) r : Prop := {
  ri_id : roomID r ≠ ""%string;
  ri_nodup : NoDup (morder r);
  ri_order : ∀ u, u ∈ morder r ↔ is_Some (members r !! u);
  ri_size : Z.of_nat (size (members r)) ≤ max;
  ri_closed : closing r = true → members r = ∅;
  ri_stop : stopCount (out r) = (if closing r then 1 else 0)%nat;
  ri_sess : ∀ u, inRoom (out r) u = bool_decide (is_Some (members r !! u));
  ri_joined : morder r = joined (out r) }.

Lemma quiet_RInv max r r' : RInv max r → quiet r r' → RInv max r'.
Proof.
  intros [H1 H2 H3 H4 H5 H6 H7 H8] [Q1 Q2 Q3 Q4 (es & Q5 & Q6)].
  split; rewrite ?Q1, ?Q2, ?Q3, ?Q4, ?Q5; try done.
  - rewrite stopCount_app. destruct (quiet_events es ""%string false Q6) as [_ ->]. lia.
  - intros u. rewrite inRoom_app. destruct (quiet_events es u (inRoom (out r) u) Q6) as [-> _]. apply H7.
  - by rewrite joined_app, quiet_joined.
Qed.

Lemma doClose_RInv max d r : 0 ≤ max → (∀ x, quiet x (d x)) → RInv max r → RInv max (doClose d r).
Proof.
  intros Hmax Hd Hr. unfold doClose. destruct (closing r) eqn:Ec; [done|]. destruct Hr as [H1 H2 H3 H4 H5 H6 H7 H8].
  destruct (Hd (set_closing r)) as [Q1 Q2 Q3 Q4 (es & Q5 & Q6)]. rewrite Ec in H6.
  split; cbn in *; rewrite ?Q1, ?Q2, ?Q4, ?Q5; try done.
  - apply NoDup_nil_2.
  - intros u. rewrite lookup_empty. split; [by intros ?%elem_of_nil|by intros []].
  - rewrite !stopCount_app, H6. destruct (quiet_events es ""%string false Q6) as [_ ->].
    destruct (release_events (M := M) (map_to_list (members r)) ""%string false) as [_ ->]. done.
  - intros u. rewrite !inRoom_app. cbn [foldl tellRoom].
    destruct (quiet_events es u (inRoom (out r) u) Q6) as [-> _].
    destruct (release_events (M := M) (map_to_list (members r)) u (inRoom (out r) u)) as [-> _].
    rewrite lookup_empty, bool_decide_false by (by intros []). case_decide as Hin; [done|].
    rewrite H7. apply bool_decide_false. intros [x Hx]. apply Hin. apply list_elem_of_fmap.
    exists (u, x). split; [done|]. by apply elem_of_map_to_list.
  - rewrite !joined_app, (quiet_joined es) by done. rewrite <- H8, release_joined; [done..|].
    intros u [x Hx]%H3. apply list_elem_of_fmap. exists (u, x). split; [done|]. by apply elem_of_map_to_list.
Qed.

Lemma tame_RInv max r r' : 0 ≤ max → tame r r' → RInv max r → RInv max r'.
Proof.
  intros Hmax. induction 1 as [|r r1 r2 _ IH Hq|d r r1 _ IH Hd]; intros Hr; [done|..].
  - eapply quiet_RInv; [by apply IH|done].
  - apply doClose_RInv; auto.
Qed.

Lemma join_RInv max r uid b :
  RInv max r → closing r = false → members r !! uid = None → Z.of_nat (size (members r)) < max →
  RInv max (emit (set_members r (<[uid := b]> (members r)) (morder r ++ [uid])) (EvSetRoomID uid (roomID r))).
Proof.
  intros [H1 H2 H3 H4 H5 H6 H7 H8] Hc Hu Hz. split; cbn; try done.
  - apply NoDup_app. split_and!; [done| |apply NoDup_singleton].
    intros u Hin ->%list_elem_of_singleton. apply H3 in Hin. rewrite Hu in Hin. by destruct Hin.
  - intros u. rewrite elem_of_app, list_elem_of_singleton, H3, lookup_insert_is_Some'. naive_solver.
  - rewrite map_size_insert_None by done. lia.
  - congruence.
  - rewrite stopCount_app, H6. cbn. rewrite Hc. done.
  - intros u. rewrite inRoom_app. cbn [foldl tellRoom]. rewrite H7. case_decide as Hd.
    + subst. rewrite lookup_insert_eq, (bool_decide_false _ H1). by rewrite bool_decide_true.
    + by rewrite lookup_insert_ne.
  - rewrite joined_app, <- H8. cbn. by rewrite decide_False.
Qed.

Lemma leave_RInv max r uid :
  RInv max r → closing r = false → is_Some (members r !! uid) →
  RInv max (emit (set_members r (delete uid (members r)) (remove_first uid (morder r))) (EvSetRoomID uid ""%string)).
Proof.
  intros [H1 H2 H3 H4 H5 H6 H7 H8] Hc Hu. split; cbn; try done.
  - by apply NoDup_remove_first.
  - intros u. rewrite elem_of_remove_first, H3 by done. rewrite lookup_delete_is_Some. naive_solver.
  - rewrite map_size_delete. destruct Hu as [x ->]. lia.
  - congruence.
  - rewrite stopCount_app, H6. cbn. rewrite Hc. done.
  - intros u. rewrite inRoom_app. cbn [foldl tellRoom]. rewrite H7. case_decide as Hd.
    + subst. rewrite lookup_delete_eq. by rewrite (bool_decide_false (is_Some None)) by (by intros []).
    + by rewrite lookup_delete_ne.
  - rewrite joined_app, <- H8. done.
Qed.
End Ctx.

(** ** Reachable rooms *)

Section Reach.
Context {S M CB Req : Type} `{RL : RoomLogic S M CB Req} `{TL : !TameLogic (RL := RL)}.
Implicit Types s : S.

(** A session going on- or offline changes what [Online] reports. *)
Inductive rstep (cfg : RoomConfig) : S → S → Prop :=
| rs_msg m s r s' : OnMessage cfg m s = Ok (r, s') → rstep cfg s s'
| rs_tick s s' : onTick s = Ok s' → rstep cfg s s'
| rs_max s s' : onMaxDuration s = Ok s' → rstep cfg s s'
| rs_fire cb s s' : lFire cb s = Ok s' → rstep cfg s s'
| rs_kick uid notice s s' : Kick uid notice s = Ok s' → rstep cfg s s'
| rs_online s ms : dom ms = dom (members (room_of s)) →
    rstep cfg s (onRoom (fun r => set_members r ms (morder r)) s).

(** A room as [CreateRoom] makes it, around a fresh game. *)
Definition freshRoom (r : rctx M CB) : Prop :=
  roomID r ≠ ""%string ∧ members r = ∅ ∧ morder r = [] ∧ closing r = false ∧ out r = [].

Inductive rreach (cfg : RoomConfig) : S → Prop :=
| rr_init s : freshRoom (room_of s) → rreach cfg (Init cfg s)
| rr_step s s' : rreach cfg s → rstep cfg s s' → rreach cfg s'.

Definition Good (cfg : RoomConfig) s : Prop := RInv (MaxPlayers cfg) (room_of s).

Lemma fresh_RInv max r : 0 ≤ max → freshRoom r → RInv max r.
Proof.
  intros Hm (H1 & H2 & H3 & H4 & H5). split; rewrite ?H2, ?H3, ?H4, ?H5; try done.
  - apply NoDup_nil_2.
  - intros u. rewrite lookup_empty. split; [by intros ?%elem_of_nil|by intros []].
Qed.

Lemma arm_quiet b (r : rctx M CB) : quiet r (arm b r).
Proof. split; try done. exists []. by rewrite app_nil_r. Qed.

Lemma closeRoom_Good cfg s : 0 ≤ MaxPlayers cfg → Good cfg s → Good cfg (closeRoom s).
Proof.
  intros Hm Hg. unfold Good, closeRoom, onRoom. rewrite room_with.
  apply doClose_RInv; [done| |done]. apply tame_destroy.
Qed.

Lemma handleLeave_Good cfg uid s s' :
  0 ≤ MaxPlayers cfg → Good cfg s → handleLeave uid s = Ok s' → Good cfg s'.
Proof.
  intros Hm Hg. unfold handleLeave. destruct (closing _) eqn:Ec; [by intros [= <-]|].
  destruct (members (room_of s) !! uid) eqn:Eu; [|by intros [= <-]].
  match goal with |- context [lOnLeave uid ?x] => set (s1 := x) end.
  assert (Good cfg s1) as Hg1.
  { unfold Good, s1, onRoom. rewrite room_with. by apply leave_RInv. }
  destruct (lOnLeave uid s1) as [s2| |] eqn:El; cbn [rbind]; try done.
  assert (Good cfg s2) as Hg2 by (eapply tame_RInv; [done|by eapply tame_leave|exact Hg1]).
  case_decide; [|by intros [= <-]]. intros He. eapply tame_RInv; [done|by eapply tame_empty|exact Hg2].
Qed.

Lemma handleJoin_Good cfg uid online s e s' :
  0 ≤ MaxPlayers cfg → Good cfg s → handleJoin cfg uid online s = Ok (e, s') → Good cfg s'.
Proof.
  intros Hm Hg. unfold handleJoin. destruct (closing _) eqn:Ec; [by intros [= <- <-]|].
  destruct (members (room_of s) !! uid) eqn:Eu; [by intros [= <- <-]|].
  destruct (roomSize s >=? MaxPlayers cfg) eqn:Ez; [by intros [= <- <-]|].
  match goal with |- context [lOnJoin uid ?x] => set (s1 := x) end.
  assert (Good cfg s1) as Hg1.
  { unfold Good, s1, onRoom. rewrite room_with. apply join_RInv; try done. unfold roomSize in Ez. lia. }
  destruct (lOnJoin uid s1) as [s2| |] eqn:El; cbn [rbind]; try done. intros [= <- <-].
  eapply tame_RInv; [done|by eapply tame_join|exact Hg1].
Qed.

Lemma onMaxDuration_Good cfg s s' :
  0 ≤ MaxPlayers cfg → Good cfg s → onMaxDuration s = Ok s' → Good cfg s'.
Proof.
  intros Hm Hg. unfold onMaxDuration. destruct lOnTimeout as [f|] eqn:Ef.
  - destruct (f s) as [s1| |] eqn:E; cbn [rbind]; try done. intros [= <-]. apply closeRoom_Good; [done|].
    eapply tame_RInv; [done|by eapply tame_timeout|exact Hg].
  - intros [= <-]. by apply closeRoom_Good.
Qed.

Lemma push_quiet (r : rctx M CB) uid id m : quiet r (PushTo r uid id m).
Proof.
  unfold PushTo. destruct (Member r uid); [|split; try done; exists []; by rewrite app_nil_r].
  split; try done. exists [EvPush uid id m]. split; [done|]. by repeat constructor.
Qed.

Lemma rstep_Good cfg s s' : 0 ≤ MaxPlayers cfg → Good cfg s → rstep cfg s s' → Good cfg s'.
Proof.
  intros Hm Hg. destruct 1 as [m s r s' Hs|s s' Hs|s s' Hs|cb s s' Hs|uid notice s s' Hs|s ms Hd].
  - destruct m as [uid online|uid| |sender req]; cbn in Hs.
    + destruct (handleJoin cfg uid online s) as [[e s1]| |] eqn:E; cbn in Hs; simplify_eq. by eapply handleJoin_Good.
    + destruct (handleLeave uid s) as [s1| |] eqn:E; cbn in Hs; simplify_eq. by eapply handleLeave_Good.
    + simplify_eq. by apply closeRoom_Good.
    + destruct (members _ !! sender); [|by simplify_eq].
      destruct (lOnMessage sender req s) as [s1| |] eqn:E; cbn in Hs; simplify_eq.
      eapply tame_RInv; [done|by eapply tame_message|exact Hg].
  - eapply tame_RInv; [done|by eapply tame_tick|exact Hg].
  - by eapply onMaxDuration_Good.
  - eapply tame_RInv; [done|by eapply tame_fire|exact Hg].
  - unfold Kick in Hs. destruct (members _ !! uid); [|by simplify_eq].
    eapply handleLeave_Good; [done| |exact Hs]. unfold Good, onRoom. rewrite room_with.
    eapply quiet_RInv; [exact Hg|apply push_quiet].
  - unfold Good, onRoom. rewrite room_with. destruct Hg as [H1 H2 H3 H4 H5 H6 H7 H8].
    assert (∀ u, is_Some (ms !! u) ↔ is_Some (members (room_of s) !! u)) as Hsome.
    { intros u. rewrite <- !elem_of_dom. by rewrite Hd. }
    split; cbn; try done.
    + intros u. by rewrite Hsome.
    + rewrite <- (size_dom (D := gset string)), Hd, size_dom. done.
    + intros Hc. apply (dom_empty_inv_L (D := gset string)). rewrite Hd, (H5 Hc). apply dom_empty_L.
    + intros u. rewrite H7. by apply bool_decide_ext.
Qed.

Lemma rreach_Good cfg s : 0 ≤ MaxPlayers cfg → rreach cfg s → Good cfg s.
Proof.
  intros Hm. induction 1 as [s Hf|s s' _ IH Hs]; [|by eapply rstep_Good].
  unfold Good, Init, onRoom. rewrite room_with. eapply quiet_RInv; [|apply arm_quiet].
  eapply tame_RInv; [done|apply tame_create|]. by apply fresh_RInv.
Qed.

(** C21. A room never holds more players than its configuration allows, lists
    each member exactly once, in the order in which their sessions were told
    that they joined, and is empty once closed, whatever joins, leaves, kicks,
    messages, ticks, timers and time limits it serves, for every game that
    respects the room contract. *)
Theorem room_members cfg s : 0 ≤ MaxPlayers cfg → rreach cfg s →
  roomSize s ≤ MaxPlayers cfg ∧ NoDup (Members s) ∧ Members s = joined (out (room_of s)) ∧
  (∀ u, u ∈ Members s ↔ is_Some (members (room_of s) !! u)) ∧
  (closing (room_of s) = true → Members s = []).
Proof.
  intros Hm Hr. destruct (rreach_Good cfg s Hm Hr) as [H1 H2 H3 H4 H5 _ _ H8].
  assert (Members s = morder (room_of s)) as Hmem.
  { apply filter_all. apply Forall_forall. intros u. apply H3. }
  split_and!; [done|by rewrite Hmem..|]. intros Hc. rewrite Hmem. specialize (H5 Hc).
  destruct (morder (room_of s)) as [|u l]; [done|]. destruct (proj1 (H3 u) ltac:(by left)) as [x Hx].
  rewrite H5, lookup_empty in Hx. done.
Qed.

(** The sessions follow the room: at every moment a session has been told it
    is in the room exactly when its player is a member, and the room's actor has
    been stopped exactly once if the room is closed and not at all otherwise. *)
Theorem room_sessions cfg s : 0 ≤ MaxPlayers cfg → rreach cfg s →
  (∀ u, inRoom (out (room_of s)) u = bool_decide (is_Some (members (room_of s) !! u))) ∧
  stopCount (out (room_of s)) = (if closing (room_of s) then 1 else 0)%nat.
Proof. intros Hm Hr. destruct (rreach_Good cfg s Hm Hr). done. Qed.

(** The reply to a join request, in full: a closing room refuses with 3001, a
    member is admitted again without effect, a full room refuses with 3002, and
    otherwise the player becomes a member before the game is told; unless the
    game panics, the reply is then success. *)
Theorem join_reply cfg uid online s : 0 ≤ MaxPlayers cfg → rreach cfg s →
  (closing (room_of s) = true →
     handleJoin cfg uid online s = Ok (Some (NewErr ErrNotInRoom (str "room closing")), s)) ∧
  (uid ∈ Members s → handleJoin cfg uid online s = Ok (None, s)) ∧
  (closing (room_of s) = false → uid ∉ Members s → roomSize s = MaxPlayers cfg →
     handleJoin cfg uid online s = Ok (Some (NewErr ErrRoomFull []), s)) ∧
  (closing (room_of s) = false → uid ∉ Members s → roomSize s < MaxPlayers cfg →
     ∃ s1, Members s1 = Members s ++ [uid] ∧ inRoom (out (room_of s1)) uid = true ∧
       handleJoin cfg uid online s = (let! s2 := lOnJoin uid s1 in Ok (None, s2))).
Proof.
  intros Hm Hr. destruct (rreach_Good cfg s Hm Hr) as [H1 H2 H3 H4 H5 _ _ H8].
  assert (Members s = morder (room_of s)) as Hmem.
  { apply filter_all. apply Forall_forall. intros u. apply H3. }
  rewrite Hmem, H3. unfold handleJoin. split_and!.
  - by intros ->.
  - intros [b Hb]. destruct (closing (room_of s)) eqn:Ec; [|by rewrite Hb].
    rewrite H5, lookup_empty in Hb by done. done.
  - intros -> Hn Hz. apply eq_None_not_Some in Hn. rewrite Hn. by rewrite (proj2 (Z.geb_le _ _)) by lia.
  - intros -> Hn Hz. apply eq_None_not_Some in Hn. rewrite Hn.
    destruct (roomSize s >=? MaxPlayers cfg) eqn:E; [apply Z.geb_le in E; lia|].
    eexists. split_and!; [| |reflexivity].
    + unfold Members, onRoom. rewrite room_with. cbn. apply filter_all, Forall_forall. intros u Hu.
      apply lookup_insert_is_Some'. apply elem_of_app in Hu as [Hu| ->%list_elem_of_singleton]; [right; by apply H3|by left].
    + unfold onRoom. rewrite room_with. cbn. rewrite inRoom_app. cbn. rewrite decide_True by done.
      by rewrite bool_decide_false.
Qed.
End Reach.

(** ** Fan-out *)

Section FanOut.
Context {M CB : Type}.

Lemma fanLoop_each cs codecOf msg except (ms : gmap string bool) us : ∀ bodies sent,
  (∀ c e, bodies !! c = Some e → encodeFor cs msg c = Ok e) →
  fanLoop cs codecOf msg except ms us bodies sent =
  encodeEach cs codecOf msg (filter (fun u => u ∉ except ∧ is_Some (ms !! u)) us) sent.
Proof.
  induction us as [|u us IH]; intros bodies sent Hb; [done|]. cbn [fanLoop].
  destruct (decide (u ∈ except)) as [Hin|Hni].
  - rewrite filter_cons_False by tauto. by apply IH.
  - destruct (ms !! u) as [b|] eqn:Eu.
    + rewrite filter_cons_True by (split; [done|by rewrite Eu]). cbn [encodeEach].
      destruct (bodies !! codecOf u) as [e|] eqn:Ec.
      * rewrite (Hb _ _ Ec). cbn [rbind]. by apply IH.
      * destruct (encodeFor cs msg (codecOf u)) as [e| |] eqn:Ee; cbn [rbind]; try done.
        apply IH. intros c e' [[<- <-]|[_ Hc]]%lookup_insert_Some; [done|by apply Hb].
    + rewrite filter_cons_False by (intros [_ [x Hx]]; congruence). by apply IH.
Qed.

(** Encoding once per codec is encoding for everybody: a broadcast reaches
    exactly the members not excepted, in joining order, each with the message
    as its own codec encodes it; sharing the encodings changes nothing, not
    even when a codec fails or is not registered. *)
Theorem fanOut_each cs codecOf msg (r : rctx M CB) except :
  fanOut cs codecOf msg r except = encodeEach cs codecOf msg (recipients r except) [].
Proof.
  unfold fanOut, recipients. rewrite fanLoop_each by (intros c e; by rewrite lookup_empty).
  f_equal. apply list_filter_iff. intros u. unfold exceptSet. by rewrite elem_of_list_to_set.
Qed.
End FanOut.
