(* ===== verification/DdzCards.v ===== *)
(** * Cards and hand types of doudizhu (games/doudizhu/cards.go, messages.go)

    A Go map is iterated in an unspecified order: every function that ranges
    over the rank table takes the enumeration [ord] it happens to see, and
    [classify] is the run on the canonical one.  [classify_spec] is the
    rule-book reading of the nine hand types. *)

From S2P Require Import Prelude.

(** ** Cards *)
Record Card := mkCard { Suit : Z; Rank : Z; Joker : Z }.

#[export] Instance Card_eq_dec : EqDecision Card.
Proof. solve_decision. Defined.

(** [Card.ID] *)
Definition ID (c : Card) : Z :=
  if decide (Joker c >= 0) then 100 + Joker c else Suit c * 100 + Rank c.

(** [Card.Less] *)
Definition Less (c o : Card) : bool := Rank c <? Rank o.

Definition fullDeck : list Card :=
  (suit ← seqZ 0 4; rank ← seqZ 3 13; [mkCard suit rank (-1)]) ++
  [mkCard 0 16 0] ++ [mkCard 0 17 1].

Inductive ctype :=
| TypeInvalid | TypeSingle | TypePair | TypeTriple | TypeTriple1 | TypeTriple2
| TypeStraight | TypePlane | TypeBomb | TypeRocket.

#[export] Instance ctype_eq_dec : EqDecision ctype.
Proof. solve_decision. Defined.

(** ** Recognition *)

(** [m[k]] on a Go map of ints: zero when absent. *)
Definition mget (m : gmap Z Z) (k : Z) : Z := default 0 (m !! k).

Definition rankCounts (cards : list Card) : gmap Z Z :=
  foldl (fun m c => <[Rank c := mget m (Rank c) + 1]> m) ∅ cards.

(** [for r, c := range m { if c == v { return r } }] *)
Fixpoint findCount (v : Z) (ord : list (Z * Z)) : option Z :=
  match ord with
  | [] => None
  | (r, c) :: ord => if c =? v then Some r else findCount v ord
  end.

(** The loop of the triples: [all] is the inner [range m]. *)
Fixpoint tripleLoop (n : Z) (all ord : list (Z * Z)) : option (ctype * Z) :=
  match ord with
  | [] => None
  | (r, c) :: ord =>
      if c >=? 3 then
        let rest := n - 3 in
        if rest =? 0 then Some (TypeTriple, r)
        else if rest =? 1 then Some (TypeTriple1, r)
        else if rest =? 2 then
          if existsb (fun '(r2, c2) => negb (r2 =? r) && (c2 =? 2)) all
          then Some (TypeTriple2, r) else tripleLoop n all ord
        else tripleLoop n all ord
      else tripleLoop n all ord
  end.

Definition allSingles (ord : list (Z * Z)) : bool := forallb (fun '(_, c) => c =? 1) ord.

(** [sort.Ints] *)
Definition sortInts (l : list Z) : list Z := merge_sort Z.le l.

Definition ranksSorted (ord : list (Z * Z)) : list Z := sortInts (ord.*1).

(** [for i := 1; i < len(rs); i++ { if rs[i] != rs[i-1]+1 { return false } }] *)
Fixpoint consecutive (rs : list Z) : bool :=
  match rs with
  | x :: ((y :: _) as t) => (y =? x + 1) && consecutive t
  | _ => true
  end.

Definition isStraight (ord : list (Z * Z)) (n : Z) : bool :=
  let rs := ranksSorted ord in
  (zlen rs =? n) && consecutive rs && (default 0 (last rs) <=? 14).

(** The ranks with exactly three cards, in iteration order. *)
Definition tripleRanks (ord : list (Z * Z)) : list Z := (filter (fun p => p.2 = 3) ord).*1.

Definition isPlane (ord : list (Z * Z)) (k : Z) : bool :=
  if forallb (fun '(_, c) => c =? 3) ord then
    let groups := ord.*1 in
    if negb (zlen groups =? k) || (k <? 2) then false else
    let groups := sortInts groups in
    if default 0 (last groups) >? 14 then false else consecutive groups
  else false.

Definition planeMainRank (ord : list (Z * Z)) (k : Z) : Z :=
  default 0 (last (sortInts (tripleRanks ord))).

Definition maxRank (ord : list (Z * Z)) : Z :=
  foldl (fun mx p => if p.1 >? mx then p.1 else mx) 0 ord.

Definition classify_ord (ord : list (Z * Z)) (cards : list Card) : ctype * Z :=
  match cards with
  | [] => (TypeInvalid, 0)
  | c0 :: _ =>
      let n := zlen cards in
      let m := rankCounts cards in
      if (n =? 2) && (mget m 16 =? 1) && (mget m 17 =? 1) then (TypeRocket, 17) else
      if n =? 1 then (TypeSingle, Rank c0) else
      match (if n =? 2 then findCount 2 ord else None) with
      | Some r => (TypePair, r)
      | None =>
      match (if n =? 4 then findCount 4 ord else None) with
      | Some r => (TypeBomb, r)
      | None =>
      match (if n >=? 3 then tripleLoop n ord ord else None) with
      | Some tr => tr
      | None =>
          if (n >=? 5) && (allSingles ord && isStraight ord n) then (TypeStraight, maxRank ord) else
          if (n >=? 6) && (n mod 3 =? 0) && isPlane ord (n / 3)
          then (TypePlane, planeMainRank ord (n / 3)) else (TypeInvalid, 0)
      end end end
  end.

Definition classify (cards : list Card) : ctype * Z :=
  classify_ord (map_to_list (rankCounts cards)) cards.

Definition mainRankOf (cards : list Card) : Z :=
  if decide (cards = []) then 0 else snd (classify cards).

Definition canBeat (newType : ctype) (newMain newN : Z) (lastType : ctype) (lastMain lastN : Z) : bool :=
  if decide (newType = TypeRocket) then true else
  if decide (lastType = TypeRocket) then false else
  if decide (newType = TypeBomb) then
    if decide (lastType = TypeBomb) then newMain >? lastMain else true
  else if decide (lastType = TypeBomb) then false else
  if decide (newType ≠ lastType ∨ newN ≠ lastN) then false else newMain >? lastMain.

(** ** The rules *)

(** [classify_spec cards t r]: the ranks of [cards] form a hand of type [t]
    whose main rank is [r]. *)
Inductive classify_spec (cards : list Card) : ctype → Z → Prop :=
| spec_single r : Rank <$> cards = [r] → classify_spec cards TypeSingle r
| spec_rocket : Rank <$> cards ≡ₚ [16; 17] → classify_spec cards TypeRocket 17
| spec_pair r : Rank <$> cards ≡ₚ [r; r] → classify_spec cards TypePair r
| spec_triple r : Rank <$> cards ≡ₚ [r; r; r] → classify_spec cards TypeTriple r
| spec_triple1 r x : x ≠ r → Rank <$> cards ≡ₚ [r; r; r; x] → classify_spec cards TypeTriple1 r
| spec_triple2 r x : x ≠ r → Rank <$> cards ≡ₚ [r; r; r; x; x] → classify_spec cards TypeTriple2 r
| spec_bomb r : Rank <$> cards ≡ₚ [r; r; r; r] → classify_spec cards TypeBomb r
| spec_straight r k : 5 ≤ k → r ≤ 14 → Rank <$> cards ≡ₚ seqZ (r - k + 1) k →
    classify_spec cards TypeStraight r
| spec_plane r k : 2 ≤ k → r ≤ 14 → Rank <$> cards ≡ₚ (x ← seqZ (r - k + 1) k; [x; x; x]) →
    classify_spec cards TypePlane r.

(** ** Counting lemmas *)

Section Counting.
Context {A : Type} `{EqDecision A}.
Implicit Types l k : list A.

Lemma count_cons (x y : A) l : count x (y :: l) = ((if decide (y = x) then 1 else 0) + count x l)%nat.
Proof. unfold count. rewrite filter_cons. by case_decide. Qed.

Lemma count_nil (x : A) : count x [] = 0%nat.
Proof. done. Qed.

Lemma count_elem_of x l : (0 < count x l)%nat ↔ x ∈ l.
Proof.
  induction l as [|y l IH]; [unfold count; simpl; rewrite elem_of_nil; lia|].
  rewrite count_cons, elem_of_cons, <- IH. case_decide; naive_solver lia.
Qed.

Lemma count_0 x l : count x l = 0%nat ↔ x ∉ l.
Proof. rewrite <- count_elem_of. lia. Qed.

Lemma count_le_length x l : (count x l ≤ length l)%nat.
Proof. unfold count. apply length_filter. Qed.

Lemma count_split r l : l ≡ₚ replicate (count r l) r ++ filter (.≠ r) l.
Proof.
  induction l as [|y l IH]; [done|]. rewrite count_cons. case_decide as E.
  - subst. rewrite filter_cons_False by naive_solver. simpl. by rewrite <- IH.
  - rewrite filter_cons_True by done. simpl. rewrite IH at 1. by rewrite Permutation_middle.
Qed.

Lemma length_rest r l : length l = (count r l + length (filter (.≠ r) l))%nat.
Proof. rewrite (count_split r l) at 1. by rewrite length_app, length_replicate. Qed.

Lemma count_rest r x l : x ≠ r → count x (filter (.≠ r) l) = count x l.
Proof.
  intros Hx. induction l as [|y l IH]; [done|]. rewrite count_cons, filter_cons.
  case_decide as E1; rewrite ?count_cons, IH; case_decide; naive_solver.
Qed.

Lemma perm_of_count l k : (∀ x, count x l = count x k) → l ≡ₚ k.
Proof.
  revert k. induction l as [|x l IH]; intros k H.
  - destruct k as [|y k]; [done|]. specialize (H y). rewrite count_cons, decide_True in H by done.
    unfold count in H at 1. simpl in H. lia.
  - assert (x ∈ k) as Hx.
    { apply count_elem_of. rewrite <- H, count_cons, decide_True by done. lia. }
    apply elem_of_Permutation in Hx as [k' Hk]. rewrite Hk. f_equiv. apply IH.
    intros y. specialize (H y). rewrite (count_perm y _ _ Hk), !count_cons in H. lia.
Qed.

Lemma count_replicate (x r : A) n : count x (replicate n r) = if decide (r = x) then n else 0%nat.
Proof. induction n as [|n IH]; simpl; [by case_decide|]. rewrite count_cons, IH. case_decide; lia. Qed.
End Counting.

(** ** The rank table *)

Definition ranks (cards : list Card) : list Z := Rank <$> cards.

Lemma rankCounts_snoc cards c :
  rankCounts (cards ++ [c]) = <[Rank c := mget (rankCounts cards) (Rank c) + 1]> (rankCounts cards).
Proof. unfold rankCounts. by rewrite foldl_app. Qed.

Lemma rankCounts_lookup cards r :
  rankCounts cards !! r =
    (if decide (count r (ranks cards) = 0%nat) then None else Some (Z.of_nat (count r (ranks cards)))).
Proof.
  induction cards as [|c cards IH] using rev_ind; [done|].
  rewrite rankCounts_snoc. unfold ranks in *. rewrite fmap_app, count_app. cbn [fmap list_fmap].
  rewrite count_cons. change (count r []) with 0%nat.
  destruct (decide (Rank c = r)) as [->|Hne].
  - rewrite lookup_insert_eq, decide_False by lia. f_equal. unfold mget. rewrite IH.
    case_decide; simpl; lia.
  - rewrite lookup_insert_ne by done. by rewrite IH, !Nat.add_0_r.
Qed.

Lemma mget_rankCounts cards r : mget (rankCounts cards) r = Z.of_nat (count r (ranks cards)).
Proof. unfold mget. rewrite rankCounts_lookup. case_decide; simpl; lia. Qed.

(** An order in which the rank table of [cards] may be iterated. *)
Definition rangeOf (cards : list Card) (ord : list (Z * Z)) : Prop :=
  ord ≡ₚ map_to_list (rankCounts cards).

Lemma rangeOf_refl cards : rangeOf cards (map_to_list (rankCounts cards)).
Proof. unfold rangeOf. reflexivity. Qed.
#[export] Hint Resolve rangeOf_refl : game.

Section Range.
Context (cards : list Card) (ord : list (Z * Z)).
Hypothesis Hord : rangeOf cards ord.
#[local] Notation l := (ranks cards) (only parsing).

Lemma range_elem r c : (r, c) ∈ ord ↔ c = Z.of_nat (count r l) ∧ r ∈ l.
Proof.
  unfold rangeOf in Hord. rewrite Hord, elem_of_map_to_list, rankCounts_lookup.
  rewrite <- count_elem_of. case_decide; naive_solver lia.
Qed.

Lemma range_NoDup : NoDup (ord.*1).
Proof. rewrite Hord. apply NoDup_fst_map_to_list. Qed.

Lemma range_keys r : r ∈ ord.*1 ↔ r ∈ l.
Proof.
  rewrite list_elem_of_fmap. split.
  - intros ([r' c] & -> & H). by apply range_elem in H as [_ ?].
  - intros H. exists (r, Z.of_nat (count r l)). split; [done|]. by apply range_elem.
Qed.

Lemma findCount_Some v r : findCount v ord = Some r → Z.of_nat (count r l) = v ∧ r ∈ l.
Proof.
  assert (∀ o, (∀ p, p ∈ o → p ∈ ord) → findCount v o = Some r → (r, v) ∈ ord) as H.
  { induction o as [|[r' c] o IH]; simpl; [done|]. intros Hin.
    destruct (c =? v) eqn:E; [|set_solver]. intros [= ->].
    apply Z.eqb_eq in E as ->. set_solver. }
  intros Hf. apply H in Hf; [|done]. apply range_elem in Hf. naive_solver.
Qed.

Lemma findCount_None v : findCount v ord = None → ∀ r, r ∈ l → Z.of_nat (count r l) ≠ v.
Proof.
  assert (∀ o, findCount v o = None → ∀ r, (r, v) ∉ o) as H.
  { induction o as [|[r' c] o IH]; simpl; [set_solver|].
    destruct (c =? v) eqn:E; [done|]. apply Z.eqb_neq in E. set_solver. }
  intros Hf r Hr E. apply (H _ Hf r). apply range_elem. naive_solver.
Qed.

Lemma tripleLoop_Some n t r :
  tripleLoop n ord ord = Some (t, r) →
  (3 ≤ count r l)%nat ∧
  ((n = 3 ∧ t = TypeTriple) ∨ (n = 4 ∧ t = TypeTriple1) ∨
   (n = 5 ∧ t = TypeTriple2 ∧ ∃ x, x ≠ r ∧ count x l = 2%nat)).
Proof.
  assert (∀ o, (∀ p, p ∈ o → p ∈ ord) → tripleLoop n ord o = Some (t, r) →
    (3 ≤ count r l)%nat ∧ ((n = 3 ∧ t = TypeTriple) ∨ (n = 4 ∧ t = TypeTriple1) ∨
     (n = 5 ∧ t = TypeTriple2 ∧ ∃ x, x ≠ r ∧ count x l = 2%nat))) as H; [|by apply H].
  induction o as [|[r' c] o IH]; cbn [tripleLoop]; [done|]. intros Hin.
  assert (Hrc : (r', c) ∈ ord) by set_solver. apply range_elem in Hrc as [-> Hr'].
  assert (IH' := IH ltac:(set_solver)). clear IH.
  destruct (Z.geb_spec (Z.of_nat (count r' l)) 3); [|done].
  destruct (Z.eqb_spec (n - 3) 0); [intros [= <- <-]; split; [lia|]; left; split; [lia|done]|].
  destruct (Z.eqb_spec (n - 3) 1);
    [intros [= <- <-]; split; [lia|]; right; left; split; [lia|done]|].
  destruct (Z.eqb_spec (n - 3) 2); [|done].
  destruct (existsb _ ord) eqn:Ex; [|done]. intros [= <- <-].
  split; [lia|]. right; right. split; [lia|]. split; [done|].
  apply existsb_exists in Ex as ([x c2] & Hx & Hb). apply andb_prop in Hb as [Hb1 Hb2].
  apply list_elem_of_In, range_elem in Hx as [-> Hx].
  apply negb_true_iff, Z.eqb_neq in Hb1. apply Z.eqb_eq in Hb2. exists x. split; [done|lia].
Qed.

Lemma tripleLoop_None n :
  tripleLoop n ord ord = None → ∀ r, (3 ≤ count r l)%nat →
  n ≠ 3 ∧ n ≠ 4 ∧ (n = 5 → ∀ x, x ≠ r → count x l ≠ 2%nat).
Proof.
  assert (∀ o, tripleLoop n ord o = None → ∀ r, (r, Z.of_nat (count r l)) ∈ o → (3 ≤ count r l)%nat →
    n ≠ 3 ∧ n ≠ 4 ∧ (n = 5 → ∀ x, x ≠ r → count x l ≠ 2%nat)) as H.
  { induction o as [|[r' c] o IH]; cbn [tripleLoop]; [set_solver|]. intros Hn r Hr H3.
    apply elem_of_cons in Hr as [[= <- <-]|Hr].
    - rewrite (proj2 (Z.geb_le _ 3)) in Hn by lia.
      destruct (Z.eqb_spec (n - 3) 0); [done|]. destruct (Z.eqb_spec (n - 3) 1); [done|].
      split; [lia|]. split; [lia|]. intros -> x Hx Hc. cbn in Hn.
      destruct (existsb _ ord) eqn:Ex; [done|].
      assert (existsb (λ '(r2, c2), negb (r2 =? r) && (c2 =? 2)) ord = true); [|congruence].
      apply existsb_exists. exists (x, Z.of_nat (count x l)). split.
      + apply list_elem_of_In, range_elem. split; [done|]. apply count_elem_of. lia.
      + apply Z.eqb_neq in Hx. rewrite Hx, Hc. done.
    - apply (IH); [|done..]. destruct (c >=? 3); [|done].
      destruct (n - 3 =? 0); [done|]. destruct (n - 3 =? 1); [done|].
      destruct (n - 3 =? 2); [|done]. by destruct (existsb _ ord). }
  intros Hn r H3. apply (H _ Hn r); [|done]. apply range_elem.
  split; [done|]. apply count_elem_of. lia.
Qed.
End Range.

(** ** Runs of consecutive ranks *)

Lemma consecutive_seqZ a l : consecutive (a :: l) = true ↔ a :: l = seqZ a (zlen (a :: l)).
Proof.
  revert a. induction l as [|b l IH]; intros a.
  - rewrite zlen_cons, zlen_nil. by rewrite seqZ_cons by lia.
  - rewrite seqZ_cons by zlia.
    replace (Z.pred (zlen (a :: b :: l))) with (zlen (b :: l)) by zlia.
    change (consecutive (a :: b :: l)) with ((b =? a + 1) && consecutive (b :: l)).
    rewrite andb_true_iff, IH, Z.eqb_eq. split.
    + intros [-> H]. rewrite <- Z.add_1_r. by rewrite <- H.
    + intros [= H]. assert (b = Z.succ a) as ->.
      { rewrite seqZ_cons in H by zlia. by injection H. }
      split; [lia|]. done.
Qed.

Lemma last_seqZ a n : 0 < n → last (seqZ a n) = Some (a + n - 1).
Proof.
  intros. replace n with (Z.of_nat (S (Z.to_nat (n - 1)))) by lia.
  rewrite seqZ_S, last_snoc. f_equal. lia.
Qed.

Lemma Sorted_seqZ a n : Sorted Z.le (seqZ a n).
Proof.
  remember (Z.to_nat n) as k eqn:Hk. revert a n Hk. induction k as [|k IH]; intros a n Hk.
  - rewrite seqZ_nil by lia. constructor.
  - rewrite seqZ_cons by lia. constructor; [apply IH; lia|].
    destruct (decide (0 < Z.pred n)); [rewrite seqZ_cons by done; constructor; lia|].
    rewrite seqZ_nil by lia. constructor.
Qed.

Lemma sortInts_perm l : sortInts l ≡ₚ l.
Proof. apply merge_sort_Permutation. Qed.

Lemma sortInts_run l r k :
  0 < k → l ≡ₚ seqZ (r - k + 1) k →
  sortInts l = seqZ (r - k + 1) k ∧ last (sortInts l) = Some r ∧ consecutive (sortInts l) = true.
Proof.
  intros Hk Hp. assert (sortInts l = seqZ (r - k + 1) k) as ->.
  { apply (Sorted_unique Z.le); [apply Sorted_merge_sort, _|apply Sorted_seqZ|].
    by rewrite sortInts_perm. }
  split; [done|]. rewrite last_seqZ by done. split; [f_equal; lia|].
  rewrite seqZ_cons by done. apply consecutive_seqZ.
  rewrite zlen_cons. unfold zlen. rewrite length_seqZ.
  replace (Z.of_nat (Z.to_nat (Z.pred k)) + 1) with k by lia. by rewrite <- seqZ_cons.
Qed.

Lemma run_of_consecutive l :
  l ≠ [] → consecutive (sortInts l) = true →
  l ≡ₚ seqZ (default 0 (last (sortInts l)) - zlen l + 1) (zlen l).
Proof.
  intros Hne Hc. pose proof (sortInts_perm l) as Hp.
  assert (Hlen : zlen (sortInts l) = zlen l) by (unfold zlen; by rewrite Hp).
  destruct (sortInts l) as [|a t] eqn:E; [by apply Permutation_nil in Hp|].
  apply consecutive_seqZ in Hc. rewrite Hc, Hlen.
  assert (0 < zlen l) by (rewrite <- Hlen; zlia).
  rewrite last_seqZ by done. simpl. replace (a + zlen l - 1 - zlen l + 1) with a by lia.
  by rewrite <- Hlen, <- Hc, <- E, sortInts_perm.
Qed.

Lemma maxRank_max ord :
  0 ≤ maxRank ord ∧ (∀ r, r ∈ ord.*1 → r ≤ maxRank ord) ∧ (maxRank ord = 0 ∨ maxRank ord ∈ ord.*1).
Proof.
  unfold maxRank. induction ord as [|[r c] ord IH] using rev_ind; [set_solver|].
  rewrite foldl_app, fmap_app. cbn [foldl fmap list_fmap fst].
  set (mx := foldl _ 0 ord) in *. destruct IH as (H0 & Hle & Hin).
  destruct (Z.gtb_spec r mx); (split; [lia|]); split; try set_solver by lia.
  all: intros x; rewrite elem_of_app, list_elem_of_singleton; intros [Hx| ->]; [|lia].
  all: apply Hle in Hx; lia.
Qed.

Section RunTypes.
Context (cards : list Card) (ord : list (Z * Z)).
Hypothesis Hord : rangeOf cards ord.
#[local] Notation l := (ranks cards) (only parsing).

Lemma keys_perm_singles : (∀ r, r ∈ l → count r l = 1%nat) → ord.*1 ≡ₚ l.
Proof.
  intros H1. apply perm_of_count. intros x.
  pose proof (range_keys cards ord Hord x) as Hk. fold l in Hk.
  destruct (decide (x ∈ l)) as [Hx|Hx].
  - rewrite (H1 x Hx). pose proof (range_NoDup cards ord Hord) as Hnd.
    apply Hk, elem_of_Permutation in Hx as [k Hx]. rewrite Hx in Hnd.
    apply NoDup_cons in Hnd as [Hn _].
    rewrite (count_perm _ _ _ Hx), count_cons, decide_True by done. by rewrite (proj2 (count_0 x k)).
  - rewrite (proj2 (count_0 x l)) by done. apply count_0. by rewrite Hk.
Qed.

Lemma perm_triples : (∀ r, r ∈ l → count r l = 3%nat) → l ≡ₚ (x ← ord.*1; [x; x; x]).
Proof.
  intros H3. apply perm_of_count. intros x.
  pose proof (range_keys cards ord Hord x) as Hk. fold l in Hk.
  pose proof (range_NoDup cards ord Hord) as Hnd.
  assert (∀ ks : list Z, NoDup ks →
    count x (y ← ks; [y; y; y]) = if decide (x ∈ ks) then 3%nat else 0%nat) as Hc.
  { clear. induction 1 as [|y ks Hy _ IH]; [done|]. cbn [mbind list_bind]. cbn [app].
    rewrite !count_cons, IH. destruct (decide (y = x)) as [->|Hne].
    - rewrite (decide_False (P := x ∈ ks)), decide_True by set_solver. done.
    - destruct (decide (x ∈ ks)); [rewrite decide_True by set_solver|rewrite decide_False by set_solver]; done. }
  rewrite Hc by done. case_decide as Hx.
  - apply H3. by apply Hk.
  - apply count_0. by rewrite <- Hk.
Qed.

Lemma allSingles_spec : allSingles ord = true ↔ ∀ r, r ∈ l → count r l = 1%nat.
Proof.
  unfold allSingles. rewrite forallb_forall. split.
  - intros H r Hr. specialize (H (r, Z.of_nat (count r l))). cbn beta iota in H.
    rewrite <- list_elem_of_In, (range_elem cards ord Hord), Z.eqb_eq in H. fold l in H. specialize (H (conj eq_refl Hr)). lia.
  - intros H [r c] Hin. apply list_elem_of_In, (range_elem cards ord Hord) in Hin as [-> Hr].
    fold l. by rewrite H.
Qed.

Lemma allTriples_spec :
  forallb (fun '(_, c) => c =? 3) ord = true ↔ ∀ r, r ∈ l → count r l = 3%nat.
Proof.
  rewrite forallb_forall. split.
  - intros H r Hr. specialize (H (r, Z.of_nat (count r l))). cbn beta iota in H.
    rewrite <- list_elem_of_In, (range_elem cards ord Hord), Z.eqb_eq in H. fold l in H. specialize (H (conj eq_refl Hr)). lia.
  - intros H [r c] Hin. apply list_elem_of_In, (range_elem cards ord Hord) in Hin as [-> Hr].
    fold l. by rewrite H.
Qed.
End RunTypes.

Lemma tripleRanks_all ord :
  forallb (fun '(_, c) => c =? 3) ord = true → tripleRanks ord = ord.*1.
Proof.
  unfold tripleRanks. induction ord as [|[r c] ord IH]; [done|]. cbn [forallb].
  intros [Hc%Z.eqb_eq Ha]%andb_prop. rewrite filter_cons_True by done.
  rewrite !fmap_cons. by rewrite IH.
Qed.

(** ** [classify] implements the rules *)

Lemma zlen_ranks cards : zlen (ranks cards) = zlen cards.
Proof. unfold zlen, ranks. by rewrite length_fmap. Qed.

(** Ranks of the cards in play: 3 to 17. *)
Definition rank_ok (c : Card) : Prop := 0 < Rank c.

Section Classify.
Context (cards : list Card) (ord : list (Z * Z)).
Hypothesis Hord : rangeOf cards ord.
Hypothesis Hok : Forall rank_ok cards.
#[local] Notation l := (ranks cards) (only parsing).

(** [count r l] cards of rank [r] and [k] others. *)
Lemma split_ranks r j k :
  zlen cards = Z.of_nat (j + k) → count r l = j →
  ∃ rest, l ≡ₚ replicate j r ++ rest ∧ length rest = k ∧ r ∉ rest ∧ ∀ x, x ≠ r → count x rest = count x l.
Proof.
  intros Hn Hj. exists (filter (.≠ r) l). rewrite <- Hj. split; [apply count_split|].
  split; [|split].
  - pose proof (length_rest r l). rewrite <- zlen_ranks in Hn. unfold zlen in Hn.
    fold l in Hn. rewrite Hj in *. lia.
  - rewrite list_elem_of_filter. naive_solver.
  - intros x Hx. by apply count_rest.
Qed.

Lemma triple_sound t r :
  tripleLoop (zlen cards) ord ord = Some (t, r) →
  (zlen cards = 4 → count r l ≠ 4%nat) → classify_spec cards t r.
Proof.
  intros Ht H4. apply (tripleLoop_Some cards ord Hord) in Ht as [H3 Ht]. fold l in H3, Ht.
  pose proof (count_le_length r l) as Hle.
  assert (Hlen : Z.of_nat (length l) = zlen cards) by (rewrite <- zlen_ranks; done).
  destruct Ht as [[Hn ->]|[[Hn ->]|(Hn & -> & x & Hx & H2)]].
  - destruct (split_ranks r 3 0) as ([|] & Hp & Hl & _); [lia|lia| |done].
    by apply spec_triple.
  - destruct (split_ranks r 3 1) as ([|x [|]] & Hp & Hl & Hr & _); [lia|specialize (H4 Hn); lia|done| |done].
    apply (spec_triple1 _ r x); [set_solver|done].
  - assert (count r l = 3%nat) as Hr3.
    { pose proof (length_rest r l). pose proof (count_le_length x (filter (.≠ r) l)).
      rewrite count_rest in H0 by done. lia. }
    destruct (split_ranks r 3 2) as (rest & Hp & Hl & Hr & Hc); [lia|done|].
    specialize (Hc x Hx). rewrite H2 in Hc.
    assert (rest ≡ₚ [x; x]) as Hrest.
    { rewrite (count_split x rest), Hc. pose proof (length_rest x rest).
      destruct (filter (.≠ x) rest); [done|simpl in *; lia]. }
    apply (spec_triple2 _ r x); [done|]. fold (ranks cards) l. by rewrite Hp, Hrest.
Qed.

Lemma straight_sound :
  0 < zlen cards → 5 ≤ zlen cards → allSingles ord = true → isStraight ord (zlen cards) = true →
  classify_spec cards TypeStraight (maxRank ord).
Proof.
  intros Hn H5 Hs Hst. pose proof (proj1 (allSingles_spec cards ord Hord) Hs) as Hs1. clear Hs; rename Hs1 into Hs.
  pose proof (keys_perm_singles cards ord Hord Hs) as Hk. fold l in Hk.
  unfold isStraight, ranksSorted in Hst. apply andb_prop in Hst as [Hst H14].
  apply andb_prop in Hst as [Hlen Hc]. apply Z.eqb_eq in Hlen. apply Z.leb_le in H14.
  assert (Hz : zlen (ord.*1) = zlen cards).
  { unfold zlen. rewrite Hk. unfold ranks. by rewrite length_fmap. }
  assert (ord.*1 ≠ []) as Hne by (intros E; rewrite E in Hz; unfold zlen in Hz; simpl in Hz; unfold zlen in *; lia).
  pose proof (run_of_consecutive _ Hne Hc) as Hrun. rewrite Hz in Hrun.
  set (mx := default 0 (last (sortInts ord.*1))) in *.
  assert (maxRank ord = mx) as ->.
  { destruct (maxRank_max ord) as (H0 & Hle & Hin).
    assert (mx ∈ ord.*1) as Hmx by (rewrite Hrun, elem_of_seqZ; lia).
    specialize (Hle _ Hmx). destruct Hin as [Hin|Hin].
    - assert (0 < mx); [|lia]. rewrite Hk in Hmx. unfold ranks in Hmx.
      apply list_elem_of_fmap in Hmx as (c & -> & Hcin). by eapply Forall_forall in Hok.
    - rewrite Hrun, elem_of_seqZ in Hin. lia. }
  apply (spec_straight _ mx (zlen cards)); [done|done|].
  fold (ranks cards) l. by rewrite <- Hk.
Qed.

Lemma plane_sound :
  isPlane ord (zlen cards / 3) = true → classify_spec cards TypePlane (planeMainRank ord (zlen cards / 3)).
Proof.
  intros H. unfold isPlane in H. destruct (forallb _ ord) eqn:Ha; [|done].
  assert (tripleRanks ord = ord.*1) as Htr.
  { by apply tripleRanks_all. }
  destruct (negb _ || _) eqn:Hb; [done|]. apply orb_false_iff in Hb as [Hb1 Hb2].
  apply negb_false_iff, Z.eqb_eq in Hb1. apply Z.ltb_ge in Hb2.
  destruct (_ >? 14) eqn:H14; [done|]. rewrite Z.gtb_ltb in H14. apply Z.ltb_ge in H14.
  assert (ord.*1 ≠ []) as Hne by (intros E; rewrite E in Hb1; unfold zlen in Hb1; simpl in Hb1; unfold zlen in *; lia).
  pose proof (run_of_consecutive _ Hne H) as Hrun.
  unfold planeMainRank. rewrite Htr. eapply (spec_plane _ _ (zlen ord.*1)); [lia|done|].
  pose proof (proj1 (allTriples_spec cards ord Hord) Ha) as Ha3.
  fold (ranks cards). rewrite (perm_triples cards ord Hord Ha3). by rewrite Hrun at 1.
Qed.

End Classify.

Lemma classify_sound cards ord t r :
  rangeOf cards ord → Forall rank_ok cards → classify_ord ord cards = (t, r) → t ≠ TypeInvalid → classify_spec cards t r.
Proof.
  intros Hord Hok. unfold classify_ord. destruct cards as [|c0 cs] eqn:Ec; [naive_solver|]. rewrite <- Ec in *.
  assert (Hpos : 0 < zlen cards) by (rewrite Ec; zlia).
  rewrite !mget_rankCounts. 
  destruct (_ && _ && _) eqn:Hrk.
  { apply andb_prop in Hrk as [Hrk H17]. apply andb_prop in Hrk as [H2 H16].
    apply Z.eqb_eq in H2, H16, H17. intros [= <- <-] _. apply spec_rocket.
    destruct (split_ranks cards 16 1 1) as ([|x [|]] & Hp & Hl & Hr & Hc); [lia|lia|done| |done].
    assert (17 ≠ 16) as H1716 by lia. specialize (Hc 17 H1716).
    rewrite count_cons in Hc. change (count 17 []) with 0%nat in Hc.
    case_decide; [subst; done|lia]. }
  destruct (Z.eqb_spec (zlen cards) 1) as [H1|H1].
  { intros [= <- <-] _. apply spec_single. rewrite Ec in *. destruct cs; [done|zlia]. }
  destruct (if zlen cards =? 2 then findCount 2 ord else None) as [r2|] eqn:E2.
  { destruct (Z.eqb_spec (zlen cards) 2); [|done]. intros [= <- <-] _.
    apply (findCount_Some cards ord Hord) in E2 as [E2 _]. 
    destruct (split_ranks cards r2 2 0) as ([|] & Hp & Hl & _); [lia|lia| |done]. by apply spec_pair. }
  destruct (if zlen cards =? 4 then findCount 4 ord else None) as [r4|] eqn:E4.
  { destruct (Z.eqb_spec (zlen cards) 4); [|done]. intros [= <- <-] _.
    apply (findCount_Some cards ord Hord) in E4 as [E4 _]. 
    destruct (split_ranks cards r4 4 0) as ([|] & Hp & Hl & _); [lia|lia| |done]. by apply spec_bomb. }
  destruct (if zlen cards >=? 3 then tripleLoop (zlen cards) ord ord else None) as [tr|] eqn:E3.
  { destruct (zlen cards >=? 3); [|done]. intros -> _. apply (triple_sound cards ord); [done..|]. intros H4 Hc.
    rewrite H4 in E4. cbn in E4. apply (findCount_None cards ord Hord 4 E4 r); [|lia].
    apply count_elem_of. lia. }
  destruct ((zlen cards >=? 5) && _) eqn:Es.
  { apply andb_prop in Es as [H5 Es]. apply andb_prop in Es as [Es1 Es2]. apply Z.geb_le in H5.
    intros [= <- <-] _. by apply straight_sound. }
  destruct ((zlen cards >=? 6) && _ && _) eqn:Ep; [|intros E Hne; congruence].
  apply andb_prop in Ep as [_ Ep]. intros [= <- <-] _. by apply plane_sound.
Qed.

(** The counts of a hand whose ranks are known. *)
Lemma count_of_perm cards L x : Rank <$> cards ≡ₚ L → count x (ranks cards) = count x L.
Proof. apply count_perm. Qed.

Lemma zlen_of_perm cards L : Rank <$> cards ≡ₚ L → zlen cards = zlen L.
Proof. intros H. rewrite <- zlen_ranks. unfold ranks, zlen. by rewrite H. Qed.

(** Decide equalities between counts over an explicit list of ranks. *)
Ltac count_case := rewrite ?count_cons, ?count_nil in *; repeat case_decide; subst; simpl in *; try done; try lia.

Lemma findCount_unique cards ord v r :
  rangeOf cards ord → 0 < v → Z.of_nat (count r (ranks cards)) = v →
  (∀ x, Z.of_nat (count x (ranks cards)) = v → x = r) → findCount v ord = Some r.
Proof.
  intros Hord Hv Hr Hu. destruct (findCount v ord) as [r'|] eqn:E.
  - apply (findCount_Some cards ord Hord) in E as [E _]. f_equal. auto.
  - exfalso. apply (findCount_None cards ord Hord v E r); [|done]. apply count_elem_of. lia.
Qed.

Lemma findCount_absent cards ord v :
  rangeOf cards ord → (∀ x, x ∈ ranks cards → Z.of_nat (count x (ranks cards)) ≠ v) → findCount v ord = None.
Proof.
  intros Hord Hn. destruct (findCount v ord) as [r'|] eqn:E; [|done].
  apply (findCount_Some cards ord Hord) in E as [E Hin]. by apply Hn in E.
Qed.

Lemma tripleLoop_unique cards ord n t r :
  rangeOf cards ord → (3 ≤ count r (ranks cards))%nat →
  (∀ x, (3 ≤ count x (ranks cards))%nat → x = r) →
  (n = 3 ∧ t = TypeTriple ∨ n = 4 ∧ t = TypeTriple1 ∨
   n = 5 ∧ t = TypeTriple2 ∧ ∃ x, x ≠ r ∧ count x (ranks cards) = 2%nat) →
  tripleLoop n ord ord = Some (t, r).
Proof.
  intros Hord H3 Hu Hn. destruct (tripleLoop n ord ord) as [[t' r']|] eqn:E.
  - apply (tripleLoop_Some cards ord Hord) in E as [E1 E2]. rewrite (Hu _ E1) in *.
    do 2 f_equal. naive_solver lia.
  - exfalso. destruct (tripleLoop_None cards ord Hord n E r H3) as (Ha & Hb & Hc).
    destruct Hn as [[? _]|[[? _]|(-> & _ & x & Hx & H2)]]; [done|done|]. by apply (Hc eq_refl x Hx).
Qed.

Lemma tripleLoop_absent cards ord n :
  rangeOf cards ord → (n ∉ [3; 4; 5] ∨ ∀ x, (count x (ranks cards) < 3)%nat) →
  tripleLoop n ord ord = None.
Proof.
  intros Hord Hn. destruct (tripleLoop n ord ord) as [[t r]|] eqn:E; [|done].
  apply (tripleLoop_Some cards ord Hord) in E as [E1 E2]. destruct Hn as [Hn|Hn].
  - set_solver.
  - specialize (Hn r). lia.
Qed.

(** The hands of at most five cards. *)
Inductive smallSpec (r : Z) : list Z → ctype → Prop :=
| small_pair : smallSpec r [r; r] TypePair
| small_triple : smallSpec r [r; r; r] TypeTriple
| small_triple1 x : x ≠ r → smallSpec r [r; r; r; x] TypeTriple1
| small_triple2 x : x ≠ r → smallSpec r [r; r; r; x; x] TypeTriple2
| small_bomb : smallSpec r [r; r; r; r] TypeBomb
| small_rocket : r = 17 → smallSpec r [16; 17] TypeRocket.

Lemma classify_small cards ord t r L :
  rangeOf cards ord → Rank <$> cards ≡ₚ L → smallSpec r L t → classify_ord ord cards = (t, r).
Proof.
  intros Hord Hp Ht. pose proof (zlen_of_perm _ _ Hp) as Hn.
  assert (Hc := fun x => count_of_perm cards L x Hp).
  unfold classify_ord. destruct cards as [|c0 cs] eqn:Ec.
  { cbn in Hp. apply Permutation_nil_l in Hp. subst L. inversion Ht. }
  rewrite <- Ec in *. rewrite !mget_rankCounts, !Hc, !Hn.
  destruct Ht as [| |x Hx|x Hx| |Hr].
  - change (zlen [r; r]) with 2.
    assert ((Z.of_nat (count 16 [r; r]) =? 1) = false) as -> by (apply Z.eqb_neq; count_case).
    cbn [Z.eqb Pos.eqb andb]. rewrite (findCount_unique cards ord 2 r); [done|done|lia|rewrite Hc; by count_case|].
    intros y Hy. rewrite Hc in Hy. by count_case.
  - change (zlen [r; r; r]) with 3. cbn [Z.eqb Pos.eqb andb Z.geb Z.compare Pos.compare Pos.compare_cont].
    rewrite (tripleLoop_unique cards ord 3 TypeTriple r); [done|done|rewrite Hc; by count_case| |tauto].
    intros y Hy. rewrite Hc in Hy. by count_case.
  - change (zlen [r; r; r; x]) with 4. cbn [Z.eqb Pos.eqb andb Z.geb Z.compare Pos.compare Pos.compare_cont].
    rewrite (findCount_absent cards ord 4); [|done|intros y _; rewrite Hc; by count_case].
    rewrite (tripleLoop_unique cards ord 4 TypeTriple1 r); [done|done|rewrite Hc; by count_case| |tauto].
    intros y Hy. rewrite Hc in Hy. by count_case.
  - change (zlen [r; r; r; x; x]) with 5. cbn [Z.eqb Pos.eqb andb Z.geb Z.compare Pos.compare Pos.compare_cont].
    rewrite (tripleLoop_unique cards ord 5 TypeTriple2 r); [done|done|rewrite Hc; by count_case| |].
    + intros y Hy. rewrite Hc in Hy. by count_case.
    + right; right. do 2 (split; [done|]). exists x. split; [done|]. rewrite Hc. by count_case.
  - change (zlen [r; r; r; r]) with 4. cbn [Z.eqb Pos.eqb andb Z.geb Z.compare Pos.compare Pos.compare_cont].
    rewrite (findCount_unique cards ord 4 r); [done|done|lia|rewrite Hc; by count_case|].
    intros y Hy. rewrite Hc in Hy. by count_case.
  - by subst.
Qed.

Lemma classify_run_straight cards ord r k :
  rangeOf cards ord → Forall rank_ok cards → 5 ≤ k → r ≤ 14 →
  Rank <$> cards ≡ₚ seqZ (r - k + 1) k → classify_ord ord cards = (TypeStraight, r).
Proof.
  intros Hord Hok H5 H14 Hp. assert (Hn := zlen_of_perm _ _ Hp).
  assert (zlen cards = k) as Hk by (rewrite Hn; unfold zlen; rewrite length_seqZ; lia). clear Hn.
  assert (Hs : ∀ x, x ∈ ranks cards → count x (ranks cards) = 1%nat).
  { intros x Hx. assert (Hnd := NoDup_seqZ (r - k + 1) k). rewrite <- Hp in Hnd.
    apply elem_of_Permutation in Hx as [l' Hl]. fold (ranks cards) in Hnd. rewrite Hl in Hnd.
    apply NoDup_cons in Hnd as [Hx _]. rewrite (count_perm _ _ _ Hl), count_cons, decide_True by done.
    by rewrite (proj2 (count_0 x l')). }
  assert (Hkeys := keys_perm_singles cards ord Hord Hs). unfold ranks in Hkeys. rewrite Hp in Hkeys.
  unfold classify_ord. destruct cards as [|c0 cs] eqn:Ec; [unfold zlen in Hk; simpl in Hk; lia|].
  rewrite <- Ec in *. rewrite Hk.
  rewrite (proj2 (Z.eqb_neq k 2)), (proj2 (Z.eqb_neq k 1)), (proj2 (Z.eqb_neq k 4)) by lia. cbn [andb].
  rewrite (proj2 (Z.geb_le k 3)), (proj2 (Z.geb_le k 5)) by lia.
  rewrite (tripleLoop_absent cards ord k); [|done|right; intros x].
  2: { destruct (decide (x ∈ ranks cards)) as [Hx|Hx]; [rewrite (Hs x Hx); lia|].
       rewrite (proj2 (count_0 x _) Hx). lia. }
  rewrite (proj2 (allSingles_spec cards ord Hord) Hs). cbn [andb].
  destruct (sortInts_run (ord.*1) r k) as (H1 & H2 & H3); [lia|done|].
  unfold isStraight, ranksSorted. rewrite H3, H2, H1. unfold zlen at 1. rewrite length_seqZ.
  rewrite (proj2 (Z.eqb_eq _ k)), (proj2 (Z.leb_le _ 14)) by (simpl; lia). cbn [andb]. f_equal.
  destruct (maxRank_max ord) as (Hm0 & Hle & Hin).
  assert (r ∈ ord.*1) as Hr by (rewrite Hkeys, elem_of_seqZ; lia). specialize (Hle _ Hr).
  destruct Hin as [Hin|Hin]; [|rewrite Hkeys, elem_of_seqZ in Hin; lia].
  rewrite Hkeys, <- Hp in Hr. apply list_elem_of_fmap in Hr as (c & -> & Hcin).
  eapply Forall_forall in Hok; [|done]. unfold rank_ok in Hok. lia.
Qed.

Lemma count_triples (x : Z) (ks : list Z) :
  NoDup ks → count x (y ← ks; [y; y; y]) = if decide (x ∈ ks) then 3%nat else 0%nat.
Proof.
  induction 1 as [|y ks Hy _ IH]; [done|]. cbn [mbind list_bind]. cbn [app].
  rewrite !count_cons, IH. destruct (decide (y = x)) as [->|Hne].
  - rewrite (decide_False (P := x ∈ ks)), decide_True by set_solver. done.
  - destruct (decide (x ∈ ks)); [rewrite decide_True by set_solver|rewrite decide_False by set_solver]; done.
Qed.

Lemma classify_run_plane cards ord r k :
  rangeOf cards ord → 2 ≤ k → r ≤ 14 →
  Rank <$> cards ≡ₚ (x ← seqZ (r - k + 1) k; [x; x; x]) → classify_ord ord cards = (TypePlane, r).
Proof.
  intros Hord H2 H14 Hp. set (ks := seqZ (r - k + 1) k) in *.
  assert (Hks : NoDup ks) by apply NoDup_seqZ.
  assert (Hc : ∀ x, count x (ranks cards) = if decide (x ∈ ks) then 3%nat else 0%nat).
  { intros x. unfold ranks. rewrite (count_perm _ _ _ Hp). by apply count_triples. }
  assert (zlen cards = 3 * k) as Hk.
  { rewrite (zlen_of_perm _ _ Hp). unfold zlen.
    assert (∀ l : list Z, length (y ← l; [y; y; y]) = (3 * length l)%nat) as ->.
    { clear. induction l as [|y l IH]; [done|]. cbn [mbind list_bind app length].
      change (list_bind _ _ (λ y0, [y0; y0; y0]) l) with (y ← l; [y; y; y]). rewrite IH. lia. }
    unfold ks. rewrite length_seqZ. lia. }
  assert (Ha : ∀ x, x ∈ ranks cards → count x (ranks cards) = 3%nat).
  { intros x Hx. apply count_elem_of in Hx. rewrite Hc in *. case_decide; [done|lia]. }
  assert (Hkeys : ord.*1 ≡ₚ ks).
  { apply NoDup_Permutation; [by apply (range_NoDup cards)|done|]. intros x.
    rewrite (range_keys cards ord Hord), <- count_elem_of, Hc. case_decide; split; try done; lia. }
  unfold classify_ord. destruct cards as [|c0 cs] eqn:Ec; [unfold zlen in Hk; simpl in Hk; lia|].
  rewrite <- Ec in *. rewrite Hk.
  rewrite (proj2 (Z.eqb_neq (3*k) 2)), (proj2 (Z.eqb_neq (3*k) 1)), (proj2 (Z.eqb_neq (3*k) 4)) by lia.
  cbn [andb]. rewrite (proj2 (Z.geb_le (3*k) 3)), (proj2 (Z.geb_le (3*k) 6)) by lia.
  rewrite (tripleLoop_absent cards ord (3*k)); [|done|left].
  2: { rewrite !not_elem_of_cons. split_and!; [lia..|set_solver]. }
  assert (allSingles ord = false) as ->.
  { apply not_true_iff_false. intros Hs. pose proof (proj1 (allSingles_spec cards ord Hord) Hs r) as Hr.
    rewrite <- count_elem_of, Hc in Hr. rewrite decide_True in Hr; [lia|].
    unfold ks. rewrite elem_of_seqZ. lia. }
  rewrite andb_false_r. rewrite (Z.mul_comm 3 k), Z_mod_mult, Z_div_mult by lia. cbn [Z.eqb andb].
  pose proof (proj2 (allTriples_spec cards ord Hord) Ha) as Ht.
  destruct (sortInts_run (ord.*1) r k) as (H1 & H3 & H4); [lia|done|].
  unfold isPlane, planeMainRank. rewrite Ht, (tripleRanks_all ord Ht), H3, H4.
  assert (zlen ord.*1 = k) as -> by (unfold zlen; rewrite Hkeys; unfold ks; rewrite length_seqZ; lia).
  rewrite Z.eqb_refl, (proj2 (Z.ltb_ge k 2)) by lia. cbn [negb orb].
  rewrite Z.gtb_ltb. cbn [from_option id].
  by rewrite (proj2 (Z.ltb_ge 14 r)) by lia.
Qed.

Lemma classify_complete cards ord t r :
  rangeOf cards ord → Forall rank_ok cards → classify_spec cards t r → classify_ord ord cards = (t, r).
Proof.
  intros Hord Hok. destruct 1 as [r Hp|Hp|r Hp|r Hp|r x Hx Hp|r x Hx Hp|r Hp|r k H5 H14 Hp|r k H2 H14 Hp].
  all: try (eapply classify_small; [done|exact Hp|by constructor]).
  - destruct cards as [|c [|]]; [done| |done]. cbn in Hp. by injection Hp as <-.
  - by eapply classify_run_straight.
  - by eapply classify_run_plane.
Qed.

Lemma classify_invalid_rank cards ord r :
  rangeOf cards ord → classify_ord ord cards = (TypeInvalid, r) → r = 0.
Proof.
  intros Hord. unfold classify_ord. destruct cards as [|c0 cs] eqn:Ec; [congruence|]. rewrite <- Ec in *.
  intros H.
  destruct (if zlen cards >=? 3 then tripleLoop (zlen cards) ord ord else None) as [[t' r']|] eqn:E3.
  - destruct (zlen cards >=? 3); [|done]. apply (tripleLoop_Some cards ord Hord) in E3 as [_ E3].
    repeat case_match; naive_solver congruence.
  - repeat case_match; congruence.
Qed.

(** C2. Hand recognition is exactly the rule book: on cards of positive rank,
    [classify] answers type [t <> Invalid] with main rank [r] if and only if
    the ranks form such a hand (nine types, with the four-of-a-kind read as a
    bomb and not as a triple with a kicker, and runs not reaching 2 or a joker). *)
Theorem classify_correct (cards : list Card) (t : ctype) (r : Z) :
  Forall rank_ok cards →
  (classify cards = (t, r) ∧ t ≠ TypeInvalid) ↔ classify_spec cards t r.
Proof.
  intros Hok. unfold classify. split.
  - intros [H Ht]. eapply classify_sound; eauto with game.
  - intros H. split; [apply classify_complete; eauto with game|]. by destruct H.
Qed.

Lemma classify_correct_witness :
  Forall rank_ok [mkCard 0 7 (-1); mkCard 1 7 (-1); mkCard 0 4 (-1); mkCard 2 7 (-1)] ∧
  classify_spec [mkCard 0 7 (-1); mkCard 1 7 (-1); mkCard 0 4 (-1); mkCard 2 7 (-1)] TypeTriple1 7.
Proof.
  assert (Forall rank_ok [mkCard 0 7 (-1); mkCard 1 7 (-1); mkCard 0 4 (-1); mkCard 2 7 (-1)]) as H
    by (repeat constructor).
  split; [exact H|]. apply (classify_correct _ TypeTriple1 7 H). split; [vm_compute; reflexivity|done].
Defined.

(** The verdict does not depend on the unspecified iteration order of the
    Go maps: whatever order the rank table is ranged over, [classify] returns
    the same type and main rank. *)
Theorem classify_order_independent (cards : list Card) (ord : list (Z * Z)) :
  Forall rank_ok cards → ord ≡ₚ map_to_list (rankCounts cards) →
  classify_ord ord cards = classify cards.
Proof.
  intros Hok Hord. unfold classify.
  set (can := map_to_list (rankCounts cards)) in *. assert (Hcan : rangeOf cards can) by apply rangeOf_refl.
  destruct (classify_ord ord cards) as [t r] eqn:E1, (classify_ord can cards) as [t' r'] eqn:E2.
  destruct (decide (t = TypeInvalid)) as [->|Ht].
  - destruct (decide (t' = TypeInvalid)) as [->|Ht'].
    + by rewrite (classify_invalid_rank _ _ _ Hord E1), (classify_invalid_rank _ _ _ Hcan E2).
    + apply (classify_sound _ _ _ _ Hcan Hok) in E2; [|done].
      apply (classify_complete _ ord _ _ Hord Hok) in E2. congruence.
  - apply (classify_sound _ _ _ _ Hord Hok) in E1; [|done].
    apply (classify_complete _ can _ _ Hcan Hok) in E1. congruence.
Qed.

Lemma classify_order_independent_witness :
  [(4, 2); (9, 3)] ≡ₚ map_to_list (rankCounts
     [mkCard 0 9 (-1); mkCard 0 4 (-1); mkCard 1 9 (-1); mkCard 2 9 (-1); mkCard 3 4 (-1)]) ∧
  classify [mkCard 0 9 (-1); mkCard 0 4 (-1); mkCard 1 9 (-1); mkCard 2 9 (-1); mkCard 3 4 (-1)]
    = (TypeTriple2, 9).
Proof.
  assert ([(4, 2); (9, 3)] ≡ₚ map_to_list (rankCounts
     [mkCard 0 9 (-1); mkCard 0 4 (-1); mkCard 1 9 (-1); mkCard 2 9 (-1); mkCard 3 4 (-1)])) as H.
  { vm_compute. by first [reflexivity | apply Permutation_swap]. }
  split; [exact H|].
  assert (Forall rank_ok
    [mkCard 0 9 (-1); mkCard 0 4 (-1); mkCard 1 9 (-1); mkCard 2 9 (-1); mkCard 3 4 (-1)]) as Hok
    by (repeat constructor).
  rewrite <- (classify_order_independent _ _ Hok H). vm_compute. reflexivity.
Defined.

(** A play as [applyPlay] compares it: type, main rank, number of cards. *)
Definition play : Type := ctype * Z * Z.
Definition beats (a b : play) : bool := canBeat a.1.1 a.1.2 a.2 b.1.1 b.1.2 b.2.

Lemma beats_iff a b :
  beats a b = true ↔
  a.1.1 = TypeRocket ∨
  (b.1.1 ≠ TypeRocket ∧
   ((a.1.1 = TypeBomb ∧ (b.1.1 = TypeBomb → b.1.2 < a.1.2)) ∨
    (a.1.1 ≠ TypeBomb ∧ b.1.1 ≠ TypeBomb ∧ a.1.1 = b.1.1 ∧ a.2 = b.2 ∧ b.1.2 < a.1.2))).
Proof.
  unfold beats, canBeat. rewrite !Z.gtb_ltb.
  destruct (decide (a.1.1 = TypeRocket)); [tauto|].
  destruct (decide (b.1.1 = TypeRocket)); [split; [done|tauto]|].
  destruct (decide (a.1.1 = TypeBomb)).
  { destruct (decide (b.1.1 = TypeBomb)); [rewrite Z.ltb_lt|]; tauto. }
  destruct (decide (b.1.1 = TypeBomb)); [split; [done|tauto]|].
  destruct (decide (a.1.1 ≠ b.1.1 ∨ a.2 ≠ b.2)) as [Hd|Hd]; [split; [done|naive_solver]|].
  rewrite Z.ltb_lt.
  assert (a.1.1 = b.1.1) by (apply dec_stable; tauto). assert (a.2 = b.2) by (apply dec_stable; tauto). tauto.
Qed.

(** C3. Beating is a strict order on plays: it is transitive, and two plays
    never beat each other unless both are the (unique) rocket; bombs beat every
    ordinary play and the rocket beats everything. *)
Theorem canBeat_strict_order (a b c : play) :
  (beats a b = true → beats b c = true → beats a c = true) ∧
  ¬ (beats a b = true ∧ beats b a = true ∧ ¬ (a.1.1 = TypeRocket ∧ b.1.1 = TypeRocket)) ∧
  (a.1.1 = TypeRocket → beats a b = true) ∧
  (a.1.1 = TypeBomb → b.1.1 ≠ TypeBomb → b.1.1 ≠ TypeRocket → beats a b = true ∧ beats b a = false).
Proof.
  split; [|split; [|split]].
  - rewrite !beats_iff. intros Hab Hbc.
    destruct Hab as [?|(Nb & [[Ba Ia]|(NBa & NBb & Tab & Nab & Lab)])]; [tauto|..];
    destruct Hbc as [?|(Nc & [[Bb Ib]|(NBb' & NBc & Tbc & Nbc & Lbc)])]; try tauto; try congruence;
      right; (split; [done|]).
    + left. split; [done|]. intros Bc. specialize (Ia Bb). specialize (Ib Bc). lia.
    + right. split_and!; try congruence; lia.
  - rewrite !beats_iff. intros (Hab & Hba & Hn).
    destruct Hab as [?|(Nb & [[Ba Ia]|(NBa & NBb & Tab & Nab & Lab)])];
    destruct Hba as [?|(Nc & [[Bb Ib]|(NBb' & NBc & Tbc & Nbc & Lbc)])]; try tauto; try congruence; try lia.
    specialize (Ia Bb). specialize (Ib Ba). lia.
  - rewrite beats_iff. tauto.
  - intros. split; [rewrite beats_iff; right; split; [done|]; left; split; [done|congruence]|].
    apply not_true_iff_false. rewrite beats_iff. intros [?|(? & [[? ?]|(? & ? & ? & ? & ?)])]; congruence.
Qed.
