(* ===== verification/Doudizhu.v ===== *)
(** * The doudizhu room logic (games/doudizhu/logic.go)

    Three players, a bidding stage and a playing stage.  A handler runs on the
    pair of the logic state and the room context; a run-time panic is
    [Panic].  The chains of automatic moves made for offline players are
    bounded recursions, and the theorems show that the bounds are never
    reached. *)

From S2P Require Import Prelude RoomCtx DdzCards.

(** ** Messages and constants *)
Definition HandPerPlayer : Z := 17.
Definition LandlordCards : Z := 3.
Definition TurnTimeout : Z := 15 * 1000.
Definition maxRedeals : Z := 2.

Definition MsgCall : Z := 0x1300.
Definition MsgPlay : Z := 0x1301.
Definition MsgDeal : Z := 0x1310.
Definition MsgStage : Z := 0x1311.
Definition MsgCallNtf : Z := 0x1312.
Definition MsgPlayed : Z := 0x1313.
Definition MsgTurn : Z := 0x1314.
Definition MsgResult : Z := 0x1316.

Definition StageWaiting : Z := 0.
Definition StageBidding : Z := 1.
Definition StagePlaying : Z := 2.

Record PlayedNtf := mkPlayed {
  pUID : string; pCards : list Card; pType : ctype; pPass : bool }.

(** Bodies of the messages the room sends. *)
Inductive dmsg :=
| MemberNtf (uid ev : string)
| HandNtf (hand l3 : list Card)
| StageNtf (stg : Z)
| CallNtf (uid : string) (score : Z) (passed : bool)
| PlayedMsg (p : PlayedNtf)
| TurnNtf (curUID ll : string) (base deadline : Z)
| ResultNtf (room ll : string) (farmers : list string) (landlordWin : bool) (base : Z).

(** Decoded request bodies. *)
Inductive dreq :=
| CallReq (score : Z)
| PlayReq (ids : list Z)
| OtherReq.

Record player := mkPlayer { hand : list Card; alive : bool }.

Record Logic := mkLogic {
  players : gmap string player;
  order : list string;
  stage : Z;
  seed : Z;
  landlord3 : list Card;
  redeals : Z;
  started : bool;
  finished : bool;
  bidIndex : Z;
  maxScore : Z;
  maxBidder : string;
  bidCount : Z;
  landlord : string;
  cur : Z;
  lastPlayed : option PlayedNtf;
  baseScore : Z;
  passCount : Z;
  turnTimer : option nat }.

Definition set_players (v : gmap string player) (l : Logic) : Logic :=
  mkLogic v (order l) (stage l) (seed l) (landlord3 l) (redeals l) (started l) (finished l) (bidIndex l) (maxScore l) (maxBidder l) (bidCount l) (landlord l) (cur l) (lastPlayed l) (baseScore l) (passCount l) (turnTimer l).
Definition set_order (v : list string) (l : Logic) : Logic :=
  mkLogic (players l) v (stage l) (seed l) (landlord3 l) (redeals l) (started l) (finished l) (bidIndex l) (maxScore l) (maxBidder l) (bidCount l) (landlord l) (cur l) (lastPlayed l) (baseScore l) (passCount l) (turnTimer l).
Definition set_stage (v : Z) (l : Logic) : Logic :=
  mkLogic (players l) (order l) v (seed l) (landlord3 l) (redeals l) (started l) (finished l) (bidIndex l) (maxScore l) (maxBidder l) (bidCount l) (landlord l) (cur l) (lastPlayed l) (baseScore l) (passCount l) (turnTimer l).
Definition set_seed (v : Z) (l : Logic) : Logic :=
  mkLogic (players l) (order l) (stage l) v (landlord3 l) (redeals l) (started l) (finished l) (bidIndex l) (maxScore l) (maxBidder l) (bidCount l) (landlord l) (cur l) (lastPlayed l) (baseScore l) (passCount l) (turnTimer l).
Definition set_landlord3 (v : list Card) (l : Logic) : Logic :=
  mkLogic (players l) (order l) (stage l) (seed l) v (redeals l) (started l) (finished l) (bidIndex l) (maxScore l) (maxBidder l) (bidCount l) (landlord l) (cur l) (lastPlayed l) (baseScore l) (passCount l) (turnTimer l).
Definition set_redeals (v : Z) (l : Logic) : Logic :=
  mkLogic (players l) (order l) (stage l) (seed l) (landlord3 l) v (started l) (finished l) (bidIndex l) (maxScore l) (maxBidder l) (bidCount l) (landlord l) (cur l) (lastPlayed l) (baseScore l) (passCount l) (turnTimer l).
Definition set_started (v : bool) (l : Logic) : Logic :=
  mkLogic (players l) (order l) (stage l) (seed l) (landlord3 l) (redeals l) v (finished l) (bidIndex l) (maxScore l) (maxBidder l) (bidCount l) (landlord l) (cur l) (lastPlayed l) (baseScore l) (passCount l) (turnTimer l).
Definition set_finished (v : bool) (l : Logic) : Logic :=
  mkLogic (players l) (order l) (stage l) (seed l) (landlord3 l) (redeals l) (started l) v (bidIndex l) (maxScore l) (maxBidder l) (bidCount l) (landlord l) (cur l) (lastPlayed l) (baseScore l) (passCount l) (turnTimer l).
Definition set_bidIndex (v : Z) (l : Logic) : Logic :=
  mkLogic (players l) (order l) (stage l) (seed l) (landlord3 l) (redeals l) (started l) (finished l) v (maxScore l) (maxBidder l) (bidCount l) (landlord l) (cur l) (lastPlayed l) (baseScore l) (passCount l) (turnTimer l).
Definition set_maxScore (v : Z) (l : Logic) : Logic :=
  mkLogic (players l) (order l) (stage l) (seed l) (landlord3 l) (redeals l) (started l) (finished l) (bidIndex l) v (maxBidder l) (bidCount l) (landlord l) (cur l) (lastPlayed l) (baseScore l) (passCount l) (turnTimer l).
Definition set_maxBidder (v : string) (l : Logic) : Logic :=
  mkLogic (players l) (order l) (stage l) (seed l) (landlord3 l) (redeals l) (started l) (finished l) (bidIndex l) (maxScore l) v (bidCount l) (landlord l) (cur l) (lastPlayed l) (baseScore l) (passCount l) (turnTimer l).
Definition set_bidCount (v : Z) (l : Logic) : Logic :=
  mkLogic (players l) (order l) (stage l) (seed l) (landlord3 l) (redeals l) (started l) (finished l) (bidIndex l) (maxScore l) (maxBidder l) v (landlord l) (cur l) (lastPlayed l) (baseScore l) (passCount l) (turnTimer l).
Definition set_landlord (v : string) (l : Logic) : Logic :=
  mkLogic (players l) (order l) (stage l) (seed l) (landlord3 l) (redeals l) (started l) (finished l) (bidIndex l) (maxScore l) (maxBidder l) (bidCount l) v (cur l) (lastPlayed l) (baseScore l) (passCount l) (turnTimer l).
Definition set_cur (v : Z) (l : Logic) : Logic :=
  mkLogic (players l) (order l) (stage l) (seed l) (landlord3 l) (redeals l) (started l) (finished l) (bidIndex l) (maxScore l) (maxBidder l) (bidCount l) (landlord l) v (lastPlayed l) (baseScore l) (passCount l) (turnTimer l).
Definition set_lastPlayed (v : option PlayedNtf) (l : Logic) : Logic :=
  mkLogic (players l) (order l) (stage l) (seed l) (landlord3 l) (redeals l) (started l) (finished l) (bidIndex l) (maxScore l) (maxBidder l) (bidCount l) (landlord l) (cur l) v (baseScore l) (passCount l) (turnTimer l).
Definition set_baseScore (v : Z) (l : Logic) : Logic :=
  mkLogic (players l) (order l) (stage l) (seed l) (landlord3 l) (redeals l) (started l) (finished l) (bidIndex l) (maxScore l) (maxBidder l) (bidCount l) (landlord l) (cur l) (lastPlayed l) v (passCount l) (turnTimer l).
Definition set_passCount (v : Z) (l : Logic) : Logic :=
  mkLogic (players l) (order l) (stage l) (seed l) (landlord3 l) (redeals l) (started l) (finished l) (bidIndex l) (maxScore l) (maxBidder l) (bidCount l) (landlord l) (cur l) (lastPlayed l) (baseScore l) v (turnTimer l).
Definition set_turnTimer (v : option nat) (l : Logic) : Logic :=
  mkLogic (players l) (order l) (stage l) (seed l) (landlord3 l) (redeals l) (started l) (finished l) (bidIndex l) (maxScore l) (maxBidder l) (bidCount l) (landlord l) (cur l) (lastPlayed l) (baseScore l) (passCount l) v.

(** A timer closure captures the player whose turn it guards. *)
Definition room : Type := rctx dmsg string.

Record st := mkSt { lg : Logic; rm : room }.

Definition onL (f : Logic → Logic) (s : st) : st := mkSt (f (lg s)) (rm s).
Definition onR (f : room → room) (s : st) : st := mkSt (lg s) (f (rm s)).

(** [NewLogic] *)
Definition NewLogic : Logic :=
  mkLogic ∅ [] 0 20260923 [] 0 false false 0 0 EmptyString 0 EmptyString 0 None 0 0 None.

(** [sort.Slice] by rank: the order of cards of equal rank is unspecified. *)
Class CardSort := {
  sortCards : list Card → list Card;
  sortCards_perm l : sortCards l ≡ₚ l;
  sortCards_sorted l : Sorted (fun a b => Rank a ≤ Rank b) (sortCards l) }.

Definition rank_le (a b : Card) : Prop := Rank a ≤ Rank b.
#[export] Instance rank_le_dec a b : Decision (rank_le a b).
Proof. unfold rank_le. apply _. Defined.
#[export] Instance rank_le_total : Total rank_le.
Proof. intros a b. unfold rank_le. lia. Qed.

#[export] Instance mergeCardSort : CardSort := {|
  sortCards := merge_sort rank_le;
  sortCards_perm l := merge_sort_Permutation rank_le l;
  sortCards_sorted l := Sorted_merge_sort rank_le l |}.

Section Logic.
Context `{CardSort}.

(** ** Dealing *)

(** Fisher-Yates from index [i] down to 1. *)
Fixpoint shuffle (i : nat) (sd : Z) (deck : list Card) : res (Z * list Card) :=
  match i with
  | O => Ok (sd, deck)
  | S i' =>
      let sd := lcg sd in
      let j := (to_u64 (Z.shiftr sd 16)) mod (to_u64 (Z.of_nat i + 1)) in
      let! a := index deck (Z.of_nat i) in
      let! b := index deck j in
      shuffle i' sd (<[Z.to_nat j := a]> (<[i := b]> deck))
  end.

(** [for i := 0; i < 17*len(order); i++ { hands[i%n] = append(hands[i%n], deck[i]) }] *)
Fixpoint dealLoop (cnt : nat) (i n : Z) (deck : list Card) (hands : list (list Card))
    : res (list (list Card)) :=
  match cnt with
  | O => Ok hands
  | S cnt =>
      let! h := index hands (Z.rem i n) in
      let! c := index deck i in
      dealLoop cnt (i + 1) n deck (<[Z.to_nat (Z.rem i n) := h ++ [c]]> hands)
  end.

(** [l.players[uid].hand = h]: a nil map entry panics. *)
Definition setHand (uid : string) (h : list Card) (l : Logic) : res Logic :=
  match players l !! uid with
  | Some p => Ok (set_players (<[uid := mkPlayer h (alive p)]> (players l)) l)
  | None => Panic
  end.

Fixpoint assignHands (ho : list (list Card * string)) (s : st) : res st :=
  match ho with
  | [] => Ok s
  | (h, uid) :: ho =>
      let h := sortCards h in
      let! l := setHand uid h (lg s) in
      assignHands ho (mkSt l (PushTo (rm s) uid MsgDeal (HandNtf h [])))
  end.

Definition deal (s : st) : res st :=
  let l := lg s in
  let deck := fullDeck in
  let! (sd, deck) := shuffle (length deck - 1) (seed l) deck in
  let n := zlen (order l) in
  let! hands := dealLoop (Z.to_nat (HandPerPlayer * n)) 0 n deck (replicate (length (order l)) []) in
  let! l3 := slice deck (HandPerPlayer * n) (HandPerPlayer * n + LandlordCards) in
  assignHands (zip hands (order l)) (onL (fun l => set_landlord3 l3 (set_seed sd l)) s).

(** ** Timers *)

Definition clearTurnTimer (s : st) : st :=
  match turnTimer (lg s) with
  | Some h => mkSt (set_turnTimer None (lg s)) (Cancel (rm s) h)
  | None => s
  end.

Definition setTurnTimer (uid : string) (s : st) : st :=
  let s := clearTurnTimer s in
  let '(h, r) := After (rm s) uid in
  mkSt (set_turnTimer (Some h) (lg s)) r.

(** ** Settlement *)

(** [OnDestroy] *)
Definition OnDestroy (l : Logic) (r : room) : room :=
  if profileStore r then
    emits r ((fun p => EvPatch (fst p) "extra.doudizhu_plays" 1) <$> map_to_list (players l))
  else r.

Definition Close (s : st) : st := mkSt (lg s) (doClose (OnDestroy (lg s)) (rm s)).

Definition farmersOf (l : Logic) : list string :=
  filter (.≠ landlord l) ((map_to_list (players l)).*1).

(** The gold transfers of [finish]. *)
Definition settlement (l : Logic) (landlordWin : bool) : list (event dmsg) :=
  let delta := baseScore l in
  if landlordWin then
    EvIncrBy "gold" (landlord l) (2 * delta) ::
    ((fun f => EvIncrBy "gold" f (- delta)) <$> farmersOf l)
  else
    EvIncrBy "gold" (landlord l) (- 2 * delta) ::
    ((fun f => EvIncrBy "gold" f delta) <$> farmersOf l).

Definition finish (landlordWin : bool) (s : st) : st :=
  if finished (lg s) then s else
  let s := onL (set_finished true) s in
  let s := clearTurnTimer s in
  let l := lg s in
  let result := ResultNtf (roomID (rm s)) (landlord l) (farmersOf l) landlordWin (baseScore l) in
  let s := onR (fun r => Broadcast r MsgResult result []) s in
  let s := onR (fun r => emits r (settlement l landlordWin)) s in
  let s := onR (fun r => emit r (EvSetSync "doudizhu_result" (roomID r) result)) s in
  Close s.

(** ** Playing *)

(** The scan of the hand in [takeCards]: kept, taken, and the ids not met. *)
Fixpoint takeLoop (want : gset Z) (h : list Card) : list Card * list Card * gset Z :=
  match h with
  | [] => ([], [], want)
  | c :: h =>
      if decide (ID c ∈ want) then
        let '(kept, taken, w) := takeLoop (want ∖ {[ID c]}) h in (kept, c :: taken, w)
      else
        let '(kept, taken, w) := takeLoop want h in (c :: kept, taken, w)
  end.

(** [takeCards]: the cards taken and the hand left, or [None]. *)
Definition takeCards (h : list Card) (ids : list Z) : option (list Card * list Card) :=
  let '(kept, taken, w) := takeLoop (list_to_set ids) h in
  if decide (w ≠ ∅ ∨ length taken ≠ length ids) then None else Some (taken, kept).

Fixpoint indexFrom (uid : string) (i : Z) (os : list string) : Z :=
  match os with
  | [] => -1
  | u :: os => if decide (u = uid) then i else indexFrom uid (i + 1) os
  end.
Definition indexOf (uid : string) (l : Logic) : Z := indexFrom uid 0 (order l).

(** [(l.cur + 1) % len(l.order)] *)
Definition nextIndex (i : Z) (l : Logic) : res Z :=
  if decide (order l = []) then Panic else Ok (Z.rem (i + 1) (zlen (order l))).

Definition autoPlay_ (applyPlay : string → list Z → st → res st)
    (uid : string) (freeLead : bool) (s : st) : res st :=
  if freeLead then
    match players (lg s) !! uid with
    | None => Panic
    | Some hp =>
        match hand hp with
        | c :: _ => applyPlay uid [ID c] s
        | [] => applyPlay uid [] s
        end
    end
  else applyPlay uid [] s.

Definition nextTurn_ (applyPlay : string → list Z → st → res st)
    (freeLead : bool) (s : st) : res st :=
  let! uid := index (order (lg s)) (cur (lg s)) in
  let s := onR (fun r => Broadcast r MsgTurn
             (TurnNtf uid (landlord (lg s)) (baseScore (lg s)) (nowMs r + TurnTimeout)) []) s in
  let s := if freeLead then onL (fun l => set_passCount 0 (set_lastPlayed None l)) s else s in
  if memberOffline (rm s) uid then autoPlay_ applyPlay uid freeLead s
  else Ok (setTurnTimer uid s).

Fixpoint applyPlay (fuel : nat) (uid : string) (ids : list Z) (s : st) : res st :=
  match fuel with
  | O => OutOfFuel
  | S fuel =>
      let nextTurn := nextTurn_ (applyPlay fuel) in
      match players (lg s) !! uid with
      | None => Ok s
      | Some hp =>
          match ids with
          | [] =>
              match lastPlayed (lg s) with
              | None => Ok s
              | Some lp =>
                  let s := onL (fun l => set_passCount (passCount l + 1) l) s in
                  let s := onR (fun r => Broadcast r MsgPlayed
                             (PlayedMsg (mkPlayed uid [] TypeInvalid true)) []) s in
                  if passCount (lg s) >=? 2 then
                    nextTurn true (onL (fun l => set_cur (indexOf (pUID lp) l) l) s)
                  else
                    let! c := nextIndex (cur (lg s)) (lg s) in
                    nextTurn false (onL (set_cur c) s)
              end
          | _ :: _ =>
              match takeCards (hand hp) ids with
              | None => Ok s
              | Some (selected, kept) =>
                  let! l := setHand uid kept (lg s) in
                  let s := mkSt l (rm s) in
                  let giveBack := let! l := setHand uid (sortCards (kept ++ selected)) (lg s) in
                                  Ok (mkSt l (rm s)) in
                  let '(typ, mainRank) := classify selected in
                  if decide (typ = TypeInvalid) then giveBack else
                  let blocked :=
                    match lastPlayed (lg s) with
                    | Some lp =>
                        if decide (pUID lp ≠ uid) then
                          negb (canBeat typ mainRank (zlen selected)
                                 (pType lp) (mainRankOf (pCards lp)) (zlen (pCards lp)))
                        else false
                    | None => false
                    end in
                  if blocked then giveBack else
                  let ntf := mkPlayed uid selected typ false in
                  let s := onL (fun l => set_passCount 0 (set_lastPlayed (Some ntf) l)) s in
                  let s := onR (fun r => Broadcast r MsgPlayed (PlayedMsg ntf) []) s in
                  if decide (kept = []) then Ok (finish (bool_decide (uid = landlord (lg s))) s)
                  else
                    let! c := nextIndex (cur (lg s)) (lg s) in
                    nextTurn false (onL (set_cur c) s)
              end
          end
      end
  end.

(** The longest chain of automatic moves: every card of the deck can be led
    once and each lead is followed by at most two passes. *)
Definition playFuel : nat := 170.
Definition nextTurn : bool → st → res st := nextTurn_ (applyPlay playFuel).
Definition autoPlay : string → bool → st → res st := autoPlay_ (applyPlay playFuel).

(** ** Bidding *)

Definition askBid_ (applyBid : string → Z → st → res st) (s : st) : res st :=
  let! uid := index (order (lg s)) (bidIndex (lg s)) in
  let s := onR (fun r => Broadcast r MsgTurn
             (TurnNtf uid EmptyString 0 (nowMs r + TurnTimeout)) []) s in
  if memberOffline (rm s) uid then applyBid uid 0 s
  else Ok (setTurnTimer uid s).

Definition startBidding_ (applyBid : string → Z → st → res st) (s : st) : res st :=
  let s := onL (fun l => set_bidCount 0 (set_maxBidder EmptyString (set_maxScore 0
                           (set_bidIndex 0 (set_stage StageBidding l))))) s in
  let s := onR (fun r => Broadcast r MsgStage (StageNtf StageBidding) []) s in
  askBid_ applyBid s.

(** [for i, uid := range l.order { if uid == l.landlord { l.cur = i; break } }] *)
Definition landlordIndex (l : Logic) : Z :=
  let i := indexOf (landlord l) l in if decide (i = -1) then cur l else i.

(** The landlord is known: hand over the three cards and start playing. *)
Definition startPlaying (s : st) : res st :=
  let s := onL (fun l => set_baseScore (maxScore l) (set_landlord (maxBidder l) l)) s in
  match players (lg s) !! landlord (lg s) with
  | None => Panic
  | Some hp =>
      let h := sortCards (hand hp ++ landlord3 (lg s)) in
      let! l := setHand (landlord (lg s)) h (lg s) in
      let s := mkSt l (PushTo (rm s) (landlord l) MsgDeal (HandNtf h (landlord3 l))) in
      let s := onL (set_stage StagePlaying) s in
      let s := onR (fun r => Broadcast r MsgStage (StageNtf StagePlaying) []) s in
      let s := onL (fun l => set_cur (landlordIndex l) l) s in
      let s := onL (fun l => set_passCount 0 (set_lastPlayed None l)) s in
      nextTurn false s
  end.

Definition finishBidding_ (applyBid : string → Z → st → res st) (s : st) : res st :=
  let l := lg s in
  if decide (maxScore l = 0 ∨ maxBidder l = EmptyString) then
    if redeals l <? maxRedeals then
      let s := onL (fun l => set_redeals (redeals l + 1) l) s in
      let! s := deal s in
      startBidding_ applyBid s
    else
      let! u := index (order l) 0 in
      startPlaying (onL (fun l => set_maxScore 1 (set_maxBidder u l)) s)
  else startPlaying s.

Fixpoint applyBid (fuel : nat) (uid : string) (score : Z) (s : st) : res st :=
  match fuel with
  | O => OutOfFuel
  | S fuel =>
      let score := if decide (score < 0 ∨ score > 3) then 0 else score in
      let score := if decide (score > 0 ∧ score ≤ maxScore (lg s)) then 0 else score in
      let s := onR (fun r => Broadcast r MsgCallNtf (CallNtf uid score (score =? 0)) []) s in
      let s := onL (fun l => set_bidCount (bidCount l + 1) l) s in
      let s := onL (fun l => if score >? maxScore l then set_maxBidder uid (set_maxScore score l) else l) s in
      let s := clearTurnTimer s in
      if decide (maxScore (lg s) = 3 ∨ bidCount (lg s) >= zlen (order (lg s))) then
        finishBidding_ (applyBid fuel) s
      else
        let! i := nextIndex (bidIndex (lg s)) (lg s) in
        askBid_ (applyBid fuel) (onL (set_bidIndex i) s)
  end.

(** Three bids per round and at most three rounds. *)
Definition bidFuel : nat := 10.
Definition startBidding : st → res st := startBidding_ (applyBid bidFuel).

(** ** Handlers *)

(** [OnCreate] stores the context and resets the stage. *)
Definition OnCreate (s : st) : st := onL (set_stage StageWaiting) s.

Definition OnJoin (uid : string) (s : st) : res st :=
  let s := onL (fun l => set_order (order l ++ [uid])
                           (set_players (<[uid := mkPlayer [] true]> (players l)) l)) s in
  let s := onR (fun r => Broadcast r MsgMemberChange (MemberNtf uid "join") []) s in
  if decide ((3 ≤ size (players (lg s)))%nat ∧ started (lg s) = false) then
    let s := onL (set_started true) s in
    let! s := deal s in
    startBidding s
  else Ok s.

Definition currentUID (l : Logic) : res string :=
  if stage l =? StageBidding then index (order l) (bidIndex l)
  else if stage l =? StagePlaying then index (order l) (cur l)
  else Ok EmptyString.

Definition OnMessage (uid : string) (msgID : Z) (req : dreq) (s : st) : res st :=
  if negb (started (lg s)) || finished (lg s) then Ok s else
  let! curUID := currentUID (lg s) in
  if decide (uid ≠ curUID) then Ok s else
  if msgID =? MsgCall then
    if negb (stage (lg s) =? StageBidding) then Ok s else
    match req with CallReq score => applyBid bidFuel uid score s | _ => Ok s end
  else if msgID =? MsgPlay then
    if negb (stage (lg s) =? StagePlaying) then Ok s else
    match req with PlayReq ids => applyPlay playFuel uid ids s | _ => Ok s end
  else Ok s.

Definition freeLeadNow (s : st) : bool :=
  match lastPlayed (lg s) with None => true | Some _ => false end.

(** The closure armed by [setTurnTimer]. *)
Definition turnTimeout (uid : string) (s : st) : res st :=
  if stage (lg s) =? StageBidding then
    let! c := currentUID (lg s) in
    if decide (c = uid) then applyBid bidFuel uid 0 s else Ok s
  else if stage (lg s) =? StagePlaying then
    let! c := currentUID (lg s) in
    if decide (c = uid) then autoPlay uid (freeLeadNow s) s else Ok s
  else Ok s.

Definition Tick (s : st) : res st :=
  if negb (started (lg s)) || finished (lg s) then Ok s else
  let! uid := currentUID (lg s) in
  if decide (uid = EmptyString) then Ok s else
  if memberOffline (rm s) uid && bool_decide (turnTimer (lg s) = None) then
    if stage (lg s) =? StageBidding then applyBid bidFuel uid 0 s
    else if stage (lg s) =? StagePlaying then autoPlay uid (freeLeadNow s) s
    else Ok s
  else Ok s.

Definition OnLeave (uid : string) (s : st) : res st :=
  let s := onL (fun l => set_order (remove_first uid (order l))
                           (set_players (delete uid (players l)) l)) s in
  let s := onR (fun r => Broadcast r MsgMemberChange (MemberNtf uid "leave") [uid]) s in
  if started (lg s) && negb (finished (lg s)) then Ok (finish false s) else Ok s.

Definition OnEmpty (s : st) : res st := Ok (Close s).

Definition OnTimeout (s : st) : res st :=
  if finished (lg s) then Ok s else
  if stage (lg s) =? StagePlaying then
    match players (lg s) !! landlord (lg s) with
    | None => Panic
    | Some hp =>
        let lh := zlen (hand hp) in
        let minF := foldr (fun p m => if decide (fst p ≠ landlord (lg s) ∧ zlen (hand (snd p)) < m)
                                      then zlen (hand (snd p)) else m)
                          (2^30) (map_to_list (players (lg s))) in
        Ok (finish (lh <=? minF) s)
    end
  else Ok s.

(** [snapshotFor]: the public state and the hand of [uid] only. *)
Record SnapshotNtf := mkSnapshot {
  snStage : Z; snLandlord : string; snCurUID : string; snBaseScore : Z;
  snPlayers : list (string * Z); snLastPlayed : option PlayedNtf; snMyHand : list Card }.

Fixpoint snapPlayers (os : list string) (l : Logic) : res (list (string * Z)) :=
  match os with
  | [] => Ok []
  | u :: os =>
      match players l !! u with
      | None => Panic
      | Some hp => let! ps := snapPlayers os l in Ok ((u, zlen (hand hp)) :: ps)
      end
  end.

Definition snapshotFor (uid : string) (l : Logic) : res SnapshotNtf :=
  let! c := currentUID l in
  let! ps := snapPlayers (order l) l in
  Ok (mkSnapshot (stage l) (landlord l) c (baseScore l) ps (lastPlayed l)
        (match players l !! uid with Some hp => hand hp | None => [] end)).
End Logic.
