(* ===== verification/DoudizhuInv.v ===== *)
(** * Invariants of a doudizhu game

    The game invariant ([BInv] while bidding, [PInv] while playing, [Done] at
    the end), its preservation by every handler, and with it: no handler
    panics or runs out of fuel, the 54 cards are conserved, hands stay private
    and the settlement is zero-sum. *)

From S2P Require Import Prelude RoomCtx DdzCards Doudizhu.

(** ** Reading the trace *)

(** Cards laid on the table. *)
Definition playedIn (e : event dmsg) : list Card :=
  match e with EvBroadcast _ _ (PlayedMsg p) => pCards p | _ => [] end.
Definition played (es : list (event dmsg)) : list Card := es ≫= playedIn.

(** Gold moved by an event. *)
Definition goldIn (e : event dmsg) : Z :=
  match e with EvIncrBy t _ d => if decide (t = "gold"%string) then d else 0 | _ => 0 end.
Fixpoint gold (es : list (event dmsg)) : Z :=
  match es with [] => 0 | e :: es => goldIn e + gold es end.

(** A message that shows no hand. *)
Definition handless (m : dmsg) : Prop :=
  match m with HandNtf _ _ => False | _ => True end.

(** Hands leave the room only as a push to one player. *)
Definition public (e : event dmsg) : Prop :=
  match e with
  | EvBroadcast _ _ m | EvSnapshot _ _ m | EvSetSync _ _ m => handless m
  | _ => True
  end.

Lemma played_app es es' : played (es ++ es') = played es ++ played es'.
Proof. unfold played. by rewrite bind_app. Qed.

Lemma gold_app es es' : gold (es ++ es') = gold es + gold es'.
Proof. induction es; simpl; lia. Qed.

(** Events that move neither cards nor gold and show no hand. *)
Definition quiet (e : event dmsg) : Prop := playedIn e = [] ∧ goldIn e = 0 ∧ public e.

Lemma played_quiet es : Forall quiet es → played es = [].
Proof. induction 1 as [|e es (H & _) _ IH]; [done|]. unfold played in *. cbn. by rewrite H, IH. Qed.

Lemma gold_quiet es : Forall quiet es → gold es = 0.
Proof. induction 1 as [|e es (_ & H & _) _ IH]; simpl; [done|lia]. Qed.

Lemma public_quiet es : Forall quiet es → Forall public es.
Proof. intros H. eapply Forall_impl; [exact H|]. intros e (_ & _ & ?). done. Qed.

Lemma bind_nil_elem {A B} (f : A → list B) l : (∀ x, x ∈ l → f x = []) → l ≫= f = [].
Proof.
  induction l as [|x l IH]; intros Hf; [done|]. cbn. rewrite (Hf x) by set_solver.
  apply IH. set_solver.
Qed.

(** What a room emitted between two points. *)
Definition extends (P : list (event dmsg) → Prop) (r r' : room) : Prop :=
  ∃ es, out r' = out r ++ es ∧ P es.

(** ** Hands *)

Definition handsOf (ps : gmap string player) : list Card := map_to_list ps ≫= (fun p => hand p.2).

Lemma handsOf_insert ps uid q :
  handsOf (<[uid := q]> ps) ≡ₚ hand q ++ handsOf (delete uid ps).
Proof.
  unfold handsOf. rewrite <- insert_delete_eq, map_to_list_insert by apply lookup_delete_eq.
  done.
Qed.

Lemma handsOf_lookup ps uid p :
  ps !! uid = Some p → handsOf ps ≡ₚ hand p ++ handsOf (delete uid ps).
Proof. intros Hp. rewrite <- (insert_id ps uid p Hp) at 1. apply handsOf_insert. Qed.

Lemma handsOf_update ps uid p h a rest :
  ps !! uid = Some p → hand p ≡ₚ h ++ rest →
  handsOf ps ≡ₚ handsOf (<[uid := mkPlayer h a]> ps) ++ rest.
Proof.
  intros Hp Hh. rewrite (handsOf_lookup _ _ _ Hp), handsOf_insert, Hh. simpl.
  by rewrite <- !app_assoc, (Permutation_app_comm rest).
Qed.

(** A table of three seats and its hands. *)
Record seats (os : list string) (ps : gmap string player) : Prop := {
  seats_nodup : NoDup os;
  seats_three : length os = 3%nat;
  seats_dom u : u ∈ os ↔ is_Some (ps !! u) }.

Lemma seats_zlen os ps : seats os ps → zlen os = 3.
Proof. intros [_ H _]. unfold zlen. lia. Qed.

Lemma seats_insert os ps u q : seats os ps → u ∈ os → seats os (<[u := q]> ps).
Proof.
  intros [H1 H2 H3] Hu. split; try done. intros v.
  destruct (decide (u = v)) as [->|].
  - rewrite lookup_insert_eq. split; [eauto|done].
  - by rewrite lookup_insert_ne.
Qed.

Lemma seats_index os ps i :
  seats os ps → 0 ≤ i < 3 → ∃ u p, os !! Z.to_nat i = Some u ∧ index os i = Ok u ∧ ps !! u = Some p.
Proof.
  intros Hs Hi. destruct (index_in_range os i) as (u & H1 & H2).
  { rewrite (seats_zlen _ _ Hs). done. }
  destruct (proj1 (seats_dom _ _ Hs u)) as [p Hp]; [by apply list_elem_of_lookup_2 in H1|]. eauto.
Qed.

Lemma three_hands a b c ps pa pb pc :
  seats [a; b; c] ps → ps !! a = Some pa → ps !! b = Some pb → ps !! c = Some pc →
  map_to_list ps ≡ₚ [(a, pa); (b, pb); (c, pc)].
Proof.
  intros Hs Ha Hb Hc.
  apply NoDup_Permutation.
  - apply NoDup_map_to_list.
  - eapply NoDup_fmap_1 with (f := fst). exact (seats_nodup _ _ Hs).
  - intros [u p]. rewrite elem_of_map_to_list. split.
    + intros Hp. assert (u ∈ [a; b; c]) as Hu by (apply (seats_dom _ _ Hs); eauto).
      rewrite !elem_of_cons in *. destruct Hu as [->|[->|[->|[]%elem_of_nil]]]; naive_solver.
    + rewrite !elem_of_cons, elem_of_nil. naive_solver.
Qed.

(** ** Taking cards out of a hand *)

Lemma takeLoop_spec want h kept taken w :
  takeLoop want h = (kept, taken, w) →
  h ≡ₚ kept ++ taken ∧ NoDup (ID <$> taken) ∧
  (list_to_set (ID <$> taken) : gset Z) ⊆ want ∧ w = want ∖ list_to_set (ID <$> taken).
Proof.
  revert want kept taken w. induction h as [|c h IH]; intros want kept taken w; cbn [takeLoop].
  - intros [= <- <- <-]. split; [done|]. split; [constructor|]. set_solver.
  - case_decide as Hc.
    + destruct (takeLoop (want ∖ {[ID c]}) h) as [[k t] w'] eqn:E. intros [= <- <- <-].
      apply IH in E as (Hp & Hnd & Hsub & ->). split; [by rewrite Hp, Permutation_middle|].
      rewrite fmap_cons. cbn [list_to_set]. split; [constructor; [|done]|split].
      * intros Hin. apply (elem_of_list_to_set (C := gset Z)) in Hin. set_solver.
      * set_solver.
      * set_solver.
    + destruct (takeLoop want h) as [[k t] w'] eqn:E. intros [= <- <- <-].
      apply IH in E as (Hp & Hrest). split; [by rewrite Hp|done].
Qed.

Lemma takeCards_Some h ids taken kept :
  takeCards h ids = Some (taken, kept) → h ≡ₚ kept ++ taken ∧ ID <$> taken ≡ₚ ids.
Proof.
  unfold takeCards. destruct (takeLoop _ h) as [[k t] w] eqn:E. case_decide as Hd; [done|].
  intros [= <- <-]. apply takeLoop_spec in E as (Hp & Hnd & Hsub & ->). split; [done|].
  assert (Hw : (list_to_set ids : gset Z) ∖ list_to_set (ID <$> t) = ∅)
    by (apply dec_stable; tauto).
  assert (Hlen : length t = length ids) by (apply dec_stable; tauto).
  apply submseteq_length_Permutation.
  - apply NoDup_submseteq; [done|]. intros x Hx.
    apply (elem_of_list_to_set (C := gset Z)), Hsub, elem_of_list_to_set in Hx. done.
  - rewrite length_fmap. lia.
Qed.

Lemma takeLoop_complete want h :
  NoDup (ID <$> h) → want ⊆ list_to_set (ID <$> h) →
  ∃ kept taken, takeLoop want h = (kept, taken, ∅) ∧ length taken = size want.
Proof.
  revert want. induction h as [|c h IH]; intros want Hnd Hsub.
  - exists [], []. cbn in Hsub. assert (want = ∅) as -> by set_solver. done.
  - rewrite fmap_cons in Hnd, Hsub. apply NoDup_cons in Hnd as [Hc Hnd]. cbn [takeLoop].
    case_decide as Hin.
    + destruct (IH (want ∖ {[ID c]}) Hnd) as (k & t & -> & Ht); [cbn in Hsub; set_solver|].
      exists k, (c :: t). split; [done|]. cbn [length]. rewrite Ht.
      rewrite size_difference, size_singleton by set_solver.
      assert (size want ≠ 0%nat); [|lia]. rewrite size_empty_iff. set_solver.
    + destruct (IH want Hnd) as (k & t & -> & Ht); [cbn in Hsub; set_solver|]. eauto.
Qed.

Lemma takeCards_None_iff h ids :
  NoDup (ID <$> h) → takeCards h ids = None ↔ ¬ (NoDup ids ∧ ids ⊆ ID <$> h).
Proof.
  intros Hnd. split.
  - intros Hn [Hi Hs]. destruct (takeLoop_complete (list_to_set ids) h Hnd) as (k & t & Ht & Hl).
    { intros x Hx. apply elem_of_list_to_set in Hx. apply elem_of_list_to_set. auto. }
    unfold takeCards in Hn. rewrite Ht in Hn. rewrite size_list_to_set in Hl by done.
    rewrite decide_False in Hn; [done|]. tauto.
  - intros Hn. destruct (takeCards h ids) as [[taken kept]|] eqn:E; [|done]. exfalso. apply Hn.
    apply takeCards_Some in E as [Hp Hids]. rewrite <- Hids. split.
    + rewrite Hp, fmap_app in Hnd. by apply NoDup_app in Hnd as (_ & _ & ?).
    + intros x Hx. rewrite Hids, <- Hids in Hx. rewrite Hp, fmap_app. set_solver.
Qed.

(** ** Dealing *)

Lemma length_fullDeck : length fullDeck = 54%nat.
Proof. reflexivity. Qed.

Lemma swap_perm (l : list Card) (i j : nat) a b :
  l !! i = Some a → l !! j = Some b → <[j := a]> (<[i := b]> l) ≡ₚ l.
Proof.
  intros Ha Hb. destruct (decide (i = j)) as [->|Hij].
  { rewrite list_insert_insert_eq. simplify_eq. by rewrite list_insert_id. }
  assert (∀ l' : list Card, ∀ k x y, l' !! k = Some y → x :: l' ≡ₚ y :: <[k := x]> l') as Hins.
  { intros l' k x y Hk. rewrite insert_take_drop by (by eapply lookup_lt_Some).
    rewrite <- (take_drop_middle l' k y Hk) at 1. rewrite <- !Permutation_middle. apply perm_swap. }
  apply (Permutation_cons_inv (a := b)).
  assert (<[i := b]> l !! j = Some b) as Hj by (by rewrite list_lookup_insert_ne).
  rewrite <- (Hins (<[i := b]> l) j a b Hj). by rewrite <- (Hins l i b a Ha).
Qed.

Lemma shuffle_run i sd deck :
  (i < length deck)%nat → zlen deck < 2^64 → run (shuffle i sd deck) (fun '(_, d) => d ≡ₚ deck).
Proof.
  revert sd deck. induction i as [|i IH]; intros sd deck Hi Hmax; [by apply run_Ok|]. cbn [shuffle].
  set (j := to_u64 _ mod _).
  destruct (lookup_lt_is_Some_2 deck (S i) Hi) as [a Ha].
  assert (0 ≤ j < zlen deck) as Hjr.
  { unfold j. unfold zlen in *. assert (to_u64 (Z.of_nat (S i) + 1) = Z.of_nat (S i) + 1) as ->.
    { unfold to_u64. apply Z.mod_small. lia. }
    pose proof (Z.mod_pos_bound (to_u64 (Z.shiftr (lcg sd) 16)) (Z.of_nat (S i) + 1)). lia. }
  destruct (index_in_range deck j Hjr) as (b & Hb & Hbi).
  rewrite (index_lookup deck (S i) a Ha), Hbi. cbn [rbind].
  eapply run_mono; [apply IH; unfold zlen in *; rewrite !length_insert; lia|].
  intros [sd' d] Hd. rewrite Hd. by apply swap_perm.
Qed.

(** Three cards of the round-robin loop, one for each of three hands. *)
Lemma dealLoop_three m a deck h0 h1 h2 :
  (3 * (a + m) ≤ length deck)%nat →
  run (dealLoop (3 * m) (Z.of_nat (3 * a)) 3 deck [h0; h1; h2]) (fun hs =>
    ∃ k0 k1 k2, hs = [h0 ++ k0; h1 ++ k1; h2 ++ k2] ∧
      length k0 = m ∧ length k1 = m ∧ length k2 = m ∧
      k0 ++ k1 ++ k2 ≡ₚ take (3 * m) (drop (3 * a) deck)).
Proof.
  revert a h0 h1 h2. induction m as [|m IH]; intros a h0 h1 h2 Hlen.
  { exists [], [], []. by rewrite !app_nil_r. }
  destruct (lookup_lt_is_Some_2 deck (3 * a)) as [c0 Hc0]; [lia|].
  destruct (lookup_lt_is_Some_2 deck (3 * a + 1)) as [c1 Hc1]; [lia|].
  destruct (lookup_lt_is_Some_2 deck (3 * a + 2)) as [c2 Hc2]; [lia|].
  replace (3 * S m)%nat with (S (S (S (3 * m)))) by lia. cbn [dealLoop].
  assert (Hr0 : Z.rem (Z.of_nat (3 * a)) 3 = 0).
  { rewrite Z.rem_mod_nonneg by lia. Z.div_mod_to_equations. lia. }
  assert (Hr1 : Z.rem (Z.of_nat (3 * a) + 1) 3 = 1).
  { rewrite Z.rem_mod_nonneg by lia. Z.div_mod_to_equations. lia. }
  assert (Hr2 : Z.rem (Z.of_nat (3 * a) + 1 + 1) 3 = 2).
  { rewrite Z.rem_mod_nonneg by lia. Z.div_mod_to_equations. lia. }
  rewrite Hr0, Hr1, Hr2. rewrite (index_lookup deck (3 * a) c0 Hc0).
  replace (Z.of_nat (3 * a) + 1) with (Z.of_nat (3 * a + 1)) by lia.
  rewrite (index_lookup deck (3 * a + 1) c1 Hc1).
  replace (Z.of_nat (3 * a + 1) + 1) with (Z.of_nat (3 * a + 2)) by lia.
  rewrite (index_lookup deck (3 * a + 2) c2 Hc2).
  change (index [h0; h1; h2] 0) with (Ok h0). cbn [rbind Z.to_nat].
  change (<[0%nat := h0 ++ [c0]]> [h0; h1; h2]) with [h0 ++ [c0]; h1; h2].
  change (index [h0 ++ [c0]; h1; h2] 1) with (Ok h1). cbn [rbind].
  change (<[Pos.to_nat 1 := h1 ++ [c1]]> [h0 ++ [c0]; h1; h2]) with [h0 ++ [c0]; h1 ++ [c1]; h2].
  change (index [h0 ++ [c0]; h1 ++ [c1]; h2] 2) with (Ok h2). cbn [rbind].
  change (<[Pos.to_nat 2 := h2 ++ [c2]]> [h0 ++ [c0]; h1 ++ [c1]; h2])
    with [h0 ++ [c0]; h1 ++ [c1]; h2 ++ [c2]].
  replace (Z.of_nat (3 * a + 2) + 1) with (Z.of_nat (3 * S a)) by lia.
  eapply run_mono; [apply IH; lia|].
  intros hs (k0 & k1 & k2 & -> & H0 & H1 & H2 & Hp).
  exists (c0 :: k0), (c1 :: k1), (c2 :: k2). rewrite <- !app_assoc. cbn [app length].
  split; [done|]. do 3 (split; [lia|]).
  replace (3 * S m)%nat with (S (S (S (3 * m)))) by lia.
  rewrite (drop_S deck c0 (3 * a)), (drop_S deck c1 (S (3 * a))), (drop_S deck c2 (S (S (3 * a))))
    by (try done; rewrite <- ?Hc1, <- ?Hc2; f_equal; lia).
  cbn [take]. rewrite <- !Permutation_middle. do 3 f_equiv.
  replace (S (S (S (3 * a)))) with (3 * S a)%nat by lia. done.
Qed.

Section Inv.
Context `{CardSort}.

(** The room context changed only by quiet events. *)
Definition quietly (r r' : room) : Prop := ∃ es, r' = emits r es ∧ Forall quiet es.

Lemma quietly_refl r : quietly r r.
Proof. exists []. by rewrite emits_nil. Qed.

Lemma quietly_trans r1 r2 r3 : quietly r1 r2 → quietly r2 r3 → quietly r1 r3.
Proof.
  intros (es & -> & H1) (es' & -> & H2). exists (es ++ es'). rewrite emits_emits.
  split; [done|]. by apply Forall_app.
Qed.

Lemma quietly_push r uid id m : quietly r (PushTo r uid id m).
Proof.
  unfold PushTo. destruct (Member r uid); [|apply quietly_refl].
  exists [EvPush uid id m]. split; [done|]. by repeat constructor.
Qed.

Lemma assignHands_run a b c h0 h1 h2 s :
  seats [a; b; c] (players (lg s)) →
  run (assignHands [(h0, a); (h1, b); (h2, c)] s) (fun s' =>
    ∃ ps', lg s' = set_players ps' (lg s) ∧ seats [a; b; c] ps' ∧ quietly (rm s) (rm s') ∧
      handsOf ps' ≡ₚ h0 ++ h1 ++ h2 ∧
      ∀ u p, ps' !! u = Some p → hand p ≡ₚ h0 ∨ hand p ≡ₚ h1 ∨ hand p ≡ₚ h2).
Proof.
  intros Hs. pose proof (seats_dom _ _ Hs) as Hdom.
  pose proof (seats_nodup _ _ Hs) as Hnd.
  apply NoDup_cons in Hnd as [Ha Hnd]. apply NoDup_cons in Hnd as [Hb Hnd].
  assert (a ≠ b ∧ a ≠ c ∧ b ≠ c) as (Hab & Hac & Hbc) by set_solver.
  destruct (proj1 (Hdom a)) as [pa Hpa]; [set_solver|].
  destruct (proj1 (Hdom b)) as [pb Hpb]; [set_solver|].
  destruct (proj1 (Hdom c)) as [pc Hpc]; [set_solver|].
  cbn [assignHands]. unfold setHand. rewrite Hpa. cbn [rbind lg players set_players].
  rewrite (lookup_insert_ne _ a b) by naive_solver. rewrite Hpb. cbn [rbind lg players set_players].
  rewrite (lookup_insert_ne _ b c), (lookup_insert_ne _ a c) by naive_solver. rewrite Hpc.
  cbn [rbind lg rm players set_players run].
  eexists. split; [reflexivity|].
  set (qa := mkPlayer (sortCards h0) (alive pa)). set (qb := mkPlayer (sortCards h1) (alive pb)).
  set (qc := mkPlayer (sortCards h2) (alive pc)).
  assert (Hs' : seats [a; b; c] (<[c := qc]> (<[b := qb]> (<[a := qa]> (players (lg s)))))).
  { do 3 (apply seats_insert; [|set_solver]). done. }
  assert (Hm : map_to_list (<[c := qc]> (<[b := qb]> (<[a := qa]> (players (lg s)))))
                 ≡ₚ [(a, qa); (b, qb); (c, qc)]).
  { apply three_hands; [done|..].
    - rewrite !lookup_insert_ne by naive_solver. by rewrite lookup_insert_eq.
    - rewrite lookup_insert_ne by naive_solver. by rewrite lookup_insert_eq.
    - by rewrite lookup_insert_eq. }
  split; [done|]. split; [|split].
  - eapply quietly_trans; [|apply quietly_push]. eapply quietly_trans; apply quietly_push.
  - unfold handsOf. rewrite Hm. cbn. by rewrite !sortCards_perm, app_nil_r.
  - intros u p Hp. apply elem_of_map_to_list in Hp. rewrite Hm, !elem_of_cons, elem_of_nil in Hp.
    destruct Hp as [[= -> ->]|[[= -> ->]|[[= -> ->]|[]]]]; cbn [hand qa qb qc];
      [left|right; left|right; right]; apply sortCards_perm.
Qed.

(** What a deal establishes. *)
Record dealt (os : list string) (ps : gmap string player) (l3 : list Card) : Prop := {
  dealt_seats : seats os ps;
  dealt_17 u p : ps !! u = Some p → length (hand p) = 17%nat;
  dealt_l3 : length l3 = 3%nat;
  dealt_deck : handsOf ps ++ l3 ≡ₚ fullDeck }.

Lemma deal_run s :
  seats (order (lg s)) (players (lg s)) →
  run (deal s) (fun s' => ∃ sd ps' l3,
    lg s' = set_players ps' (set_landlord3 l3 (set_seed sd (lg s))) ∧
    dealt (order (lg s)) ps' l3 ∧ quietly (rm s) (rm s')).
Proof.
  intros Hs. unfold deal.
  pose proof (seats_three _ _ Hs) as H3.
  destruct (order (lg s)) as [|a [|b [|c [|]]]] eqn:Ho; try discriminate H3.
  cbv zeta. rewrite length_fullDeck.
  eapply run_bind; [apply shuffle_run; unfold zlen; rewrite length_fullDeck; lia|].
  intros [sd deck] Hdeck.
  assert (Hlen : length deck = 54%nat) by (rewrite Hdeck; apply length_fullDeck).
  change (zlen [a; b; c]) with 3. change (HandPerPlayer * 3) with 51.
  change (Z.to_nat 51) with (3 * 17)%nat. cbn [length replicate].
  eapply run_bind; [apply (dealLoop_three 17 0); lia|].
  intros hs (k0 & k1 & k2 & -> & H0 & H1 & H2 & Hp). cbn [app] in *.
  unfold LandlordCards. rewrite slice_range by (unfold zlen; lia). cbn [rbind zip_with].
  eapply run_mono.
  { apply (assignHands_run a b c). cbn [lg onL players set_landlord3 set_seed]. done. }
  intros s' (ps' & Hl & Hs' & Hq & Hh & Hu). exists sd, ps'. eexists. split; [exact Hl|].
  split; [|done]. split; [done|..].
  - intros u p Hup. by destruct (Hu u p Hup) as [->|[->| ->]].
  - rewrite length_take, length_drop. lia.
  - rewrite Hh, Hp, <- Hdeck. rewrite drop_0.
    change (Z.to_nat 51) with 51%nat. change (Z.to_nat (51 + 3 - 51)) with 3%nat.
    rewrite (take_ge (drop 51 deck)) by (rewrite length_drop; lia). by rewrite take_drop.
Qed.

(** ** The playing stage *)

Definition TInv (r : room) : Prop := gold (out r) = 0 ∧ Forall public (out r).

Lemma TInv_quiet r r' es : TInv r → out r' = out r ++ es → Forall quiet es → TInv r'.
Proof.
  intros [Hg Hp] Ho Hq. split; rewrite Ho.
  - by rewrite gold_app, Hg, gold_quiet.
  - apply Forall_app. split; [done|]. by apply public_quiet.
Qed.

(** The last play on the table and whose turn it is. *)
Definition lastOK (l : Logic) : Prop :=
  match lastPlayed l with
  | None => passCount l = 0
  | Some lp =>
      0 ≤ passCount l ≤ 1 ∧
      (∃ i, order l !! i = Some (pUID lp) ∧ cur l = (Z.of_nat i + 1 + passCount l) mod 3) ∧
      pCards lp ≠ [] ∧ pType lp ≠ TypeInvalid ∧ fst (classify (pCards lp)) = pType lp
  end.

Record PInv (s : st) : Prop := {
  pi_live : started (lg s) = true ∧ finished (lg s) = false ∧ stage (lg s) = StagePlaying;
  pi_seats : seats (order (lg s)) (players (lg s));
  pi_cur : 0 ≤ cur (lg s) < 3;
  pi_landlord : landlord (lg s) ∈ order (lg s);
  pi_base : 1 ≤ baseScore (lg s) ≤ 3;
  pi_hands u p : players (lg s) !! u = Some p → hand p ≠ [];
  pi_last : lastOK (lg s);
  pi_cards : handsOf (players (lg s)) ++ played (out (rm s)) ≡ₚ fullDeck;
  pi_trace : TInv (rm s) }.

(** A game ended by a player who went out. *)
Record Done (s : st) : Prop := {
  dn_finished : finished (lg s) = true;
  dn_closed : closing (rm s) = true;
  dn_cards : handsOf (players (lg s)) ++ played (out (rm s)) ≡ₚ fullDeck;
  dn_trace : TInv (rm s);
  dn_winner : ∃ u p to fs, players (lg s) !! u = Some p ∧ hand p = [] ∧
    EvBroadcast to MsgResult (ResultNtf (roomID (rm s)) (landlord (lg s)) fs
      (bool_decide (u = landlord (lg s))) (baseScore (lg s))) ∈ out (rm s) }.

Lemma clear_lg s : lg (clearTurnTimer s) = set_turnTimer None (lg s).
Proof.
  unfold clearTurnTimer. destruct (turnTimer (lg s)) eqn:E; [done|].
  destruct s as [l r]. cbn in *. destruct l; cbn in *. by subst.
Qed.

Lemma clear_rm s : ∃ ts, rm (clearTurnTimer s) = set_timers (rm s) ts (nextHandle (rm s)).
Proof.
  unfold clearTurnTimer. destruct (turnTimer (lg s)); [by eexists|].
  exists (timers (rm s)). destruct s as [l r]. by destruct r.
Qed.

Lemma PInv_ext s s' t es :
  PInv s → lg s' = set_turnTimer t (lg s) → out (rm s') = out (rm s) ++ es → Forall quiet es → PInv s'.
Proof.
  intros [H1 H2 H3 H4 H5 H6 H7 H8 H9] Hl Ho Hq. split; rewrite ?Hl.
  1-7: assumption.
  - rewrite Ho, played_app, (played_quiet es), app_nil_r by done. exact H8.
  - by eapply TInv_quiet.
Qed.

Lemma setTurnTimer_PInv uid s : PInv s → PInv (setTurnTimer uid s).
Proof.
  intros Hs. destruct (clear_rm s) as [ts Hr].
  eapply (PInv_ext s _ _ []); [done|..|constructor].
  - unfold setTurnTimer. cbn [After lg]. by rewrite clear_lg.
  - unfold setTurnTimer. cbn [After rm]. rewrite Hr. by rewrite app_nil_r.
Qed.

(** *** Settlement *)

Lemma keys_of_seats os ps : seats os ps → (map_to_list ps).*1 ≡ₚ os.
Proof.
  intros [Hnd _ Hdom]. apply NoDup_Permutation; [apply NoDup_fst_map_to_list|done|].
  intros u. rewrite Hdom. rewrite list_elem_of_fmap. split.
  - intros ([v p] & -> & Hv). apply elem_of_map_to_list in Hv. eauto.
  - intros [p Hp]. exists (u, p). split; [done|]. by apply elem_of_map_to_list.
Qed.

Lemma farmers_two l :
  seats (order l) (players l) → landlord l ∈ order l → length (farmersOf l) = 2%nat.
Proof.
  intros Hs Hll. unfold farmersOf. rewrite (keys_of_seats _ _ Hs).
  rewrite <- remove_first_filter by apply (seats_nodup _ _ Hs).
  pose proof (length_remove_first _ _ Hll). pose proof (seats_three _ _ Hs). lia.
Qed.

Lemma gold_const f d (fs : list string) :
  (∀ u, goldIn (f u) = d) → gold (f <$> fs) = d * Z.of_nat (length fs).
Proof.
  intros Hf. induction fs as [|u fs IH]; [simpl; lia|].
  rewrite fmap_cons. cbn [gold length]. rewrite Hf, IH. lia.
Qed.

Lemma settlement_zero l win :
  seats (order l) (players l) → landlord l ∈ order l → gold (settlement l win) = 0.
Proof.
  intros Hs Hll. pose proof (farmers_two l Hs Hll) as H2. unfold settlement. destruct win; cbn [gold goldIn].
  - rewrite (gold_const _ (- baseScore l)) by done. rewrite H2, decide_True by done. lia.
  - rewrite (gold_const _ (baseScore l)) by done. rewrite H2, decide_True by done. lia.
Qed.

Lemma settlement_events l win e : e ∈ settlement l win → playedIn e = [] ∧ public e.
Proof.
  unfold settlement. destruct win; rewrite elem_of_cons, list_elem_of_fmap;
    intros [->|(? & -> & _)]; done.
Qed.

(** Everything [finish] adds to the trace. *)
Lemma finish_out win s :
  finished (lg s) = false →
  ∃ es, out (rm (finish win s)) =
    out (rm s) ++
    [EvBroadcast (recipients (rm s) []) MsgResult
       (ResultNtf (roomID (rm s)) (landlord (lg s)) (farmersOf (lg s)) win (baseScore (lg s)))] ++
    settlement (lg s) win ++
    [EvSetSync "doudizhu_result" (roomID (rm s))
       (ResultNtf (roomID (rm s)) (landlord (lg s)) (farmersOf (lg s)) win (baseScore (lg s)))] ++ es
    ∧ Forall quiet es ∧ closing (rm (finish win s)) = true ∧
    roomID (rm (finish win s)) = roomID (rm s) ∧
    lg (finish win s) = set_turnTimer None (set_finished true (lg s)).
Proof.
  intros Hf. unfold finish. rewrite Hf. set (s1 := clearTurnTimer _).
  assert (Hl : lg s1 = set_turnTimer None (set_finished true (lg s))) by (unfold s1; by rewrite clear_lg).
  destruct (clear_rm (onL (set_finished true) s)) as [ts Hr]. fold s1 in Hr.
  cbn [onL rm] in Hr. unfold Close, onR. cbn [lg rm]. rewrite Hl, Hr.
  unfold doClose. destruct (closing _) eqn:Ec.
  - exists []. rewrite app_nil_r. cbn in Ec |- *. rewrite <- !app_assoc. split; [done|].
    split; [constructor|]. done.
  - cbn in Ec. unfold OnDestroy. cbn [profileStore set_closing emit emits Broadcast set_timers].
    exists ((if profileStore (rm s) then
              (fun p => EvPatch (fst p) "extra.doudizhu_plays" 1) <$> map_to_list (players (lg s)) else []) ++
            ((fun p => EvSetRoomID (fst p) EmptyString) <$> map_to_list (members (rm s))) ++ [EvStop]).
    split; [|split].
    + destruct (profileStore (rm s)); cbn; rewrite <- !app_assoc; reflexivity.
    + rewrite !Forall_app. split_and!; [|by apply Forall_fmap, Forall_true|by repeat constructor].
      destruct (profileStore (rm s)); [|constructor]. by apply Forall_fmap, Forall_true.
    + by destruct (profileStore (rm s)).
Qed.

Lemma finish_done s u p :
  finished (lg s) = false → seats (order (lg s)) (players (lg s)) →
  landlord (lg s) ∈ order (lg s) →
  handsOf (players (lg s)) ++ played (out (rm s)) ≡ₚ fullDeck → TInv (rm s) →
  players (lg s) !! u = Some p → hand p = [] →
  Done (finish (bool_decide (u = landlord (lg s))) s).
Proof.
  intros Hf Hs Hll Hc [Hg Hp] Hu Hh.
  destruct (finish_out (bool_decide (u = landlord (lg s))) s Hf) as (es & Ho & Hq & Hcl & Hid & Hl).
  assert (Forall public (settlement (lg s) (bool_decide (u = landlord (lg s))))) as Hsp.
  { apply Forall_forall. intros e He. by apply settlement_events in He as [_ ?]. }
  assert (played (settlement (lg s) (bool_decide (u = landlord (lg s)))) = []) as Hsn.
  { unfold played. apply bind_nil_elem. intros e He. by apply settlement_events in He as [? _]. }
  split.
  - by rewrite Hl.
  - done.
  - rewrite Hl, Ho, !played_app, Hsn, (played_quiet es) by done. cbn. by rewrite app_nil_r.
  - split; rewrite Ho.
    + rewrite !gold_app, Hg, settlement_zero, (gold_quiet es) by done. done.
    + rewrite !Forall_app. split_and!; try done; [by repeat constructor..|]. by apply public_quiet.
  - eexists u, p, _, _. rewrite Hl, Hid, Ho. do 2 (split; [done|]).
    apply elem_of_app. right. apply elem_of_cons. by left.
Qed.

(** *** The chain of moves *)

(** Calls of [applyPlay] that can still follow, the pending one included. *)
Definition need (s : st) : nat :=
  3 * length (handsOf (players (lg s))) +
  match lastPlayed (lg s) with None => 1 | Some _ => Z.to_nat (3 - passCount (lg s)) end.

Definition PPost (s : st) : Prop := PInv s ∨ Done s.

(** [uid] is to move. *)
Definition toMove (uid : string) (s : st) : Prop := order (lg s) !! Z.to_nat (cur (lg s)) = Some uid.

Definition resetLead (l : Logic) : Logic := set_passCount 0 (set_lastPlayed None l).

Lemma indexFrom_lookup os i uid k :
  NoDup os → os !! i = Some uid → indexFrom uid k os = k + Z.of_nat i.
Proof.
  revert i k. induction os as [|u os IH]; intros i k Hnd Hi; [done|]. cbn [indexFrom].
  apply NoDup_cons in Hnd as [Hu Hnd]. destruct i as [|i]; cbn in Hi.
  - injection Hi as <-. rewrite decide_True by done. lia.
  - rewrite decide_False by (intros ->; apply Hu; by eapply list_elem_of_lookup_2).
    rewrite (IH i) by done. lia.
Qed.

Lemma nextIndex_run i l ps :
  seats (order l) ps → 0 ≤ i → nextIndex i l = Ok ((i + 1) mod 3) ∧ 0 ≤ (i + 1) mod 3 < 3.
Proof.
  intros Hs Hi. unfold nextIndex. rewrite decide_False.
  2: { intros E. pose proof (seats_three _ _ Hs). rewrite E in *. done. }
  rewrite (seats_zlen _ _ Hs), Z.rem_mod_nonneg by lia. split; [done|].
  apply Z.mod_pos_bound. lia.
Qed.

Section Chain.
Context (fuel : nat).
Hypothesis IH : ∀ uid ids s,
  PInv s → toMove uid s → (need s ≤ fuel)%nat → run (applyPlay fuel uid ids s) PPost.

Lemma nextTurn_chain (free : bool) s :
  PInv (if free then onL resetLead s else s) →
  (need (if free then onL resetLead s else s) ≤ fuel)%nat →
  run (nextTurn_ (applyPlay fuel) free s) PPost.
Proof.
  set (s1 := if free then onL resetLead s else s). intros Hs Hn.
  assert (Hord : order (lg s) = order (lg s1) ∧ cur (lg s) = cur (lg s1)) by (by destruct free).
  destruct Hord as [Ho Hc].
  destruct (seats_index _ _ _ (pi_seats _ Hs) (pi_cur _ Hs)) as (uid & hp & Hu & Hi & Hp).
  unfold nextTurn_. rewrite Ho, Hc, Hi. cbn [rbind].
  cbv zeta. match goal with |- context [memberOffline (rm ?x) uid] => set (s2 := x) end.
  assert (Hs2 : PInv s2 ∧ lg s2 = lg s1).
  { assert (lg s2 = lg s1) as Hl by (by destruct free). split; [|done].
    eapply (PInv_ext s1 s2 (turnTimer (lg s1))); [done|rewrite Hl; by destruct (lg s1)| |].
    - unfold s1, s2. destruct free; cbn; reflexivity.
    - by repeat constructor. }
  destruct Hs2 as [Hs2 Hl].
  destruct (memberOffline (rm s2) uid); [|left; by apply setTurnTimer_PInv].
  assert (Hcall : ∀ ids, run (applyPlay fuel uid ids s2) PPost).
  { intros ids. apply IH; [done|unfold toMove; by rewrite Hl|unfold need; rewrite Hl; exact Hn]. }
  unfold autoPlay_. destruct free; [|apply Hcall]. rewrite Hl, Hp.
  destruct (hand hp); apply Hcall.
Qed.

Lemma pass_chain uid s lp :
  PInv s → toMove uid s → (need s ≤ S fuel)%nat → lastPlayed (lg s) = Some lp →
  run (applyPlay (S fuel) uid [] s) PPost.
Proof.
  intros Hs Ht Hn Hlp. cbn [applyPlay].
  destruct (seats_index _ _ _ (pi_seats _ Hs) (pi_cur _ Hs)) as (uid' & hp & Hu & _ & Hp).
  unfold toMove in Ht. rewrite Hu in Ht. injection Ht as ->. rewrite Hp, Hlp.
  pose proof (pi_last _ Hs) as Hlast. unfold lastOK in Hlast. rewrite Hlp in Hlast.
  destruct Hlast as (Hpc & (i & Hi & Hcur) & Hcards).
  set (s1 := onL (fun l => set_passCount (passCount l + 1) l) s).
  set (s2 := onR _ s1). change (passCount (lg s2)) with (passCount (lg s) + 1).
  assert (Hout : out (rm s2) = out (rm s) ++
    [EvBroadcast (recipients (rm s) []) MsgPlayed (PlayedMsg (mkPlayed uid [] TypeInvalid true))]) by done.
  assert (Hq : Forall quiet [EvBroadcast (recipients (rm s) []) MsgPlayed
    (PlayedMsg (mkPlayed uid [] TypeInvalid true))]) by (by repeat constructor).
  unfold need in Hn. rewrite Hlp in Hn. pose proof (lookup_lt_Some _ _ _ Hi) as Hi3.
  rewrite (seats_three _ _ (pi_seats _ Hs)) in Hi3.
  destruct (Z.geb_spec (passCount (lg s) + 1) 2) as [H2|H2].
  - apply nextTurn_chain.
    + destruct Hs as [Q1 Q2 Q3 Q4 Q5 Q6 Q7 Q8 Q9]. split; try assumption.
      * change (0 ≤ indexOf (pUID lp) (lg s) < 3). unfold indexOf.
        rewrite (indexFrom_lookup _ i) by (done || apply (seats_nodup _ _ Q2)). lia.
      * done.
      * change (out (rm (onL resetLead _))) with (out (rm s2)).
        rewrite Hout, played_app, (played_quiet _ Hq), app_nil_r. exact Q8.
      * eapply TInv_quiet; [exact Q9|exact Hout|done].
    + unfold need. cbn [onL lg resetLead lastPlayed set_passCount set_lastPlayed set_cur s2 s1 onR players]. lia.
  - destruct (nextIndex_run (cur (lg s)) (lg s2) _ (pi_seats _ Hs)) as [Hni Hr]; [apply (pi_cur _ Hs)|].
    change (cur (lg s2)) with (cur (lg s)). rewrite Hni. cbn [rbind].
    apply nextTurn_chain.
    + destruct Hs as [Q1 Q2 Q3 Q4 Q5 Q6 Q7 Q8 Q9]. split; try assumption.
      * unfold lastOK. cbn [onL lg set_cur lastPlayed passCount set_passCount s2 s1 onR order cur]. rewrite Hlp.
        split; [lia|]. split; [|done]. exists i. split; [done|]. rewrite Hcur.
        rewrite Zplus_mod_idemp_l. f_equal. lia.
      * change (out (rm (onL (set_cur _) s2))) with (out (rm s2)).
        rewrite Hout, played_app, (played_quiet _ Hq), app_nil_r. exact Q8.
      * eapply TInv_quiet; [exact Q9|exact Hout|done].
    + unfold need. cbn [onL lg set_cur lastPlayed passCount set_passCount s2 s1 onR players]. rewrite Hlp. lia.
Qed.

(** A rejected play puts the cards back: same cards, same game. *)
Lemma giveBack_PInv s uid hp h :
  PInv s → players (lg s) !! uid = Some hp → h ≡ₚ hand hp →
  PInv (mkSt (set_players (<[uid := mkPlayer h (alive hp)]> (players (lg s))) (lg s)) (rm s)).
Proof.
  intros [Q1 Q2 Q3 Q4 Q5 Q6 Q7 Q8 Q9] Hp Hh. split; try assumption.
  - apply seats_insert; [done|]. apply (seats_dom _ _ Q2). eauto.
  - cbn [lg players set_players]. intros u p. destruct (decide (uid = u)) as [->|Hne].
    + rewrite lookup_insert_eq. intros [= <-]. cbn [hand]. intros ->.
      apply (Q6 _ _ Hp). by apply Permutation_nil in Hh.
    + rewrite lookup_insert_ne by done. apply Q6.
  - cbn [lg rm players set_players]. rewrite handsOf_insert. cbn [hand].
    rewrite Hh, <- handsOf_lookup by done. exact Q8.
Qed.

Lemma play_chain uid ids s :
  ids ≠ [] → PInv s → toMove uid s → (need s ≤ S fuel)%nat →
  run (applyPlay (S fuel) uid ids s) PPost.
Proof.
  intros Hids Hs Ht Hn. cbn [applyPlay].
  destruct (seats_index _ _ _ (pi_seats _ Hs) (pi_cur _ Hs)) as (uid' & hp & Hu & _ & Hp).
  unfold toMove in Ht. rewrite Hu in Ht. injection Ht as ->. rewrite Hp.
  destruct ids as [|id ids]; [done|].
  destruct (takeCards (hand hp) (id :: ids)) as [[sel kept]|] eqn:Et; [|by left].
  apply takeCards_Some in Et as [Hhp Hsel].
  assert (Hsel0 : sel ≠ []) by (intros ->; by apply Permutation_nil in Hsel).
  unfold setHand at 1. rewrite Hp. cbn [rbind].
  set (ps1 := <[uid := mkPlayer kept (alive hp)]> (players (lg s))).
  set (s1 := mkSt (set_players ps1 (lg s)) (rm s)).
  match goal with |- context [if decide (_ = TypeInvalid) then ?g else _] => set (back := g) end.
  assert (Hback : run back PPost).
  { assert (back = Ok (mkSt (set_players
      (<[uid := mkPlayer (sortCards (kept ++ sel)) (alive hp)]> (players (lg s))) (lg s)) (rm s))) as ->.
    { unfold back, setHand, s1, ps1. cbn [lg rm players set_players].
      rewrite lookup_insert_eq. cbn [rbind alive]. by rewrite insert_insert_eq. }
    left. apply giveBack_PInv; [done|done|]. by rewrite sortCards_perm, <- Hhp. }
  destruct (classify sel) as [typ mr] eqn:Ecl. destruct (decide (typ = TypeInvalid)); [done|].
  cbv zeta. match goal with |- context [if ?b then back else _] => destruct b end; [done|].
  set (ntf := mkPlayed uid sel typ false).
  set (s2 := onR _ (onL _ s1)).
  assert (Hout : out (rm s2) = out (rm s) ++ [EvBroadcast (recipients (rm s) []) MsgPlayed (PlayedMsg ntf)]) by done.
  assert (Huo : uid ∈ order (lg s)) by (by eapply list_elem_of_lookup_2).
  assert (Hseats : seats (order (lg s2)) (players (lg s2))) by (apply seats_insert; [apply (pi_seats _ Hs)|done]).
  assert (Hcards : handsOf (players (lg s2)) ++ played (out (rm s2)) ≡ₚ fullDeck).
  { rewrite Hout, played_app.
    assert (played [EvBroadcast (recipients (rm s) []) MsgPlayed (PlayedMsg ntf)] = sel) as ->
      by (cbn; apply app_nil_r).
    rewrite <- (pi_cards _ Hs).
    rewrite (handsOf_update (players (lg s)) uid hp kept (alive hp) sel) by done.
    rewrite <- app_assoc. apply Permutation_app; [done|apply Permutation_app_comm]. }
  assert (HT : TInv (rm s2)).
  { destruct (pi_trace _ Hs) as [Hg Hpub]. split; rewrite Hout.
    - rewrite gold_app, Hg. done.
    - apply Forall_app. split; [done|]. by repeat constructor. }
  destruct (decide (kept = [])) as [Hk|Hk].
  { right. change (landlord (lg s2)) with (landlord (lg s2)).
    eapply (finish_done s2 uid (mkPlayer kept (alive hp))); try done.
    - apply (pi_live _ Hs).
    - apply (pi_landlord _ Hs).
    - change (players (lg s2)) with ps1. by apply lookup_insert_eq. }
  destruct (nextIndex_run (cur (lg s)) (lg s2) _ Hseats) as [Hni Hr]; [apply (pi_cur _ Hs)|].
  change (cur (lg s2)) with (cur (lg s)). rewrite Hni. cbn [rbind].
  apply nextTurn_chain.
  - destruct Hs as [Q1 Q2 Q3 Q4 Q5 Q6 Q7 Q8 Q9]. split; try assumption.
    + cbn [onL lg set_cur s2 onR players set_passCount set_lastPlayed s1 set_players].
      intros u p. unfold ps1. destruct (decide (uid = u)) as [->|Hne].
      * rewrite lookup_insert_eq. by intros [= <-].
      * rewrite lookup_insert_ne by done. apply Q6.
    + unfold lastOK. cbn [onL lg set_cur s2 onR lastPlayed passCount set_passCount set_lastPlayed s1 set_players order cur].
      unfold ntf. cbn [pCards pType pUID]. rewrite Ecl.
      split; [lia|]. split; [|by split_and!].
      exists (Z.to_nat (cur (lg s))). split; [done|]. f_equal. lia.
  - unfold need in *. cbn [onL lg set_cur s2 onR lastPlayed passCount set_passCount set_lastPlayed s1 set_players players].
    assert (length (handsOf (players (lg s))) = length (handsOf ps1) + length sel)%nat as Hlen.
    { rewrite (handsOf_update (players (lg s)) uid hp kept (alive hp) sel) by done. by rewrite length_app. }
    destruct sel; [done|]. cbn [length] in Hlen.
    pose proof (pi_last _ Hs) as Hl. unfold lastOK in Hl. destruct (lastPlayed (lg s)); lia.
Qed.
End Chain.

Lemma applyPlay_run fuel uid ids s :
  PInv s → toMove uid s → (need s ≤ fuel)%nat → run (applyPlay fuel uid ids s) PPost.
Proof.
  revert uid ids s. induction fuel as [|fuel IH]; intros uid ids s Hs Ht Hn.
  { exfalso. unfold need in Hn. pose proof (pi_last _ Hs) as Hl. unfold lastOK in Hl.
    destruct (lastPlayed (lg s)); lia. }
  destruct ids as [|id ids]; [|by apply play_chain].
  destruct (lastPlayed (lg s)) as [lp|] eqn:E; [by eapply pass_chain|].
  cbn [applyPlay]. rewrite E. destruct (players (lg s) !! uid); by left.
Qed.

Lemma need_playFuel s : PInv s → (need s ≤ playFuel)%nat.
Proof.
  intros Hs. unfold need, playFuel. pose proof (pi_cards _ Hs) as Hc.
  apply Permutation_length in Hc. rewrite length_app, length_fullDeck in Hc.
  pose proof (pi_last _ Hs) as Hl. unfold lastOK in Hl. destruct (lastPlayed (lg s)); lia.
Qed.

Lemma nextTurn_run (free : bool) s :
  PInv (if free then onL resetLead s else s) → run (nextTurn free s) PPost.
Proof.
  intros Hs. apply nextTurn_chain; [apply applyPlay_run|done|]. by apply need_playFuel.
Qed.

Lemma autoPlay_run uid free s : PInv s → toMove uid s → run (autoPlay uid free s) PPost.
Proof.
  intros Hs Ht. unfold autoPlay, autoPlay_.
  assert (∀ ids, run (applyPlay playFuel uid ids s) PPost) as Hc.
  { intros ids. apply applyPlay_run; [done|done|by apply need_playFuel]. }
  destruct free; [|apply Hc].
  destruct (seats_index _ _ _ (pi_seats _ Hs) (pi_cur _ Hs)) as (uid' & hp & Hu & _ & Hp).
  unfold toMove in Ht. rewrite Hu in Ht. injection Ht as ->. rewrite Hp.
  destruct (hand hp); apply Hc.
Qed.

(** ** The bidding stage *)

Record BInv (s : st) : Prop := {
  bi_live : started (lg s) = true ∧ finished (lg s) = false ∧ stage (lg s) = StageBidding;
  bi_dealt : dealt (order (lg s)) (players (lg s)) (landlord3 (lg s));
  bi_count : 0 ≤ bidCount (lg s) < 3;
  bi_index : bidIndex (lg s) = bidCount (lg s);
  bi_score : 0 ≤ maxScore (lg s) ≤ 2;
  bi_bidder : 0 < maxScore (lg s) → maxBidder (lg s) ∈ order (lg s);
  bi_redeals : 0 ≤ redeals (lg s) ≤ 2;
  bi_table : played (out (rm s)) = [];
  bi_trace : TInv (rm s) }.

Definition Live (s : st) : Prop := BInv s ∨ PInv s.
Definition Post (s : st) : Prop := Live s ∨ Done s.

(** Bids that can still follow, the pending one included. *)
Definition bidNeed (l : Logic) : nat := Z.to_nat (3 * (2 - redeals l) + (3 - bidCount l)).

Lemma PPost_Post r : run r PPost → run r Post.
Proof. intros Hr. eapply run_mono; [exact Hr|]. intros s [?|?]; unfold Post, Live; auto. Qed.

Lemma BInv_ext s s' t es :
  BInv s → lg s' = set_turnTimer t (lg s) → out (rm s') = out (rm s) ++ es → Forall quiet es → BInv s'.
Proof.
  intros [H1 H2 H3 H4 H5 H6 H7 H8 H9] Hl Ho Hq. split; rewrite ?Hl.
  1-7: assumption.
  - by rewrite Ho, played_app, (played_quiet es), app_nil_r by done.
  - by eapply TInv_quiet.
Qed.

Lemma setTurnTimer_BInv uid s : BInv s → BInv (setTurnTimer uid s).
Proof.
  intros Hs. destruct (clear_rm s) as [ts Hr].
  eapply (BInv_ext s _ _ []); [done|..|constructor].
  - unfold setTurnTimer. cbn [After lg]. by rewrite clear_lg.
  - unfold setTurnTimer. cbn [After rm]. rewrite Hr. by rewrite app_nil_r.
Qed.

(** The state in which the landlord is known. *)
Record Settled (s : st) : Prop := {
  se_live : started (lg s) = true ∧ finished (lg s) = false;
  se_dealt : dealt (order (lg s)) (players (lg s)) (landlord3 (lg s));
  se_score : 1 ≤ maxScore (lg s) ≤ 3;
  se_bidder : maxBidder (lg s) ∈ order (lg s);
  se_table : played (out (rm s)) = [];
  se_trace : TInv (rm s) }.

Lemma quietly_out r r' : quietly r r' → ∃ es, out r' = out r ++ es ∧ Forall quiet es.
Proof. intros (es & -> & Hq). by exists es. Qed.

Lemma startPlaying_run s : Settled s → run (startPlaying s) PPost.
Proof.
  intros [[Hst Hfin] [Hseats H17 H3 Hdeck] Hsc Hbid Htab Htr]. unfold startPlaying.
  set (s1 := onL _ s). change (landlord (lg s1)) with (maxBidder (lg s)).
  destruct (proj1 (seats_dom _ _ Hseats (maxBidder (lg s))) Hbid) as [hp Hhp].
  change (players (lg s1)) with (players (lg s)). rewrite Hhp.
  set (h := sortCards _). unfold setHand. change (players (lg s1)) with (players (lg s)). rewrite Hhp.
  cbn [rbind]. set (ps := <[maxBidder (lg s) := mkPlayer h (alive hp)]> (players (lg s))).
  destruct (list_elem_of_lookup_1 _ _ Hbid) as [i Hi].
  pose proof (lookup_lt_Some _ _ _ Hi) as Hi3. rewrite (seats_three _ _ Hseats) in Hi3.
  assert (Hix : indexFrom (maxBidder (lg s)) 0 (order (lg s)) = Z.of_nat i)
    by (rewrite (indexFrom_lookup _ i) by (done || apply (seats_nodup _ _ Hseats)); lia).
  match goal with |- run (nextTurn false ?x) _ => set (s2 := x) end.
  destruct (quietly_out _ _ (quietly_push (rm s) (maxBidder (lg s)) MsgDeal (HandNtf h (landlord3 (lg s)))))
    as (es & Hes & Hqs).
  assert (Hout : ∃ to, out (rm s2) = out (rm s) ++ es ++ [EvBroadcast to MsgStage (StageNtf StagePlaying)]).
  { eexists. unfold s2. cbn [onL onR rm emit emits Broadcast out]. rewrite app_assoc. f_equal. exact Hes. }
  destruct Hout as [to Hout].
  assert (Hq : Forall quiet (es ++ [EvBroadcast to MsgStage (StageNtf StagePlaying)])).
  { apply Forall_app. split; [done|]. by repeat constructor. }
  assert (Hcur : cur (lg s2) = Z.of_nat i).
  { unfold s2. cbn [onL lg set_passCount set_lastPlayed set_cur cur]. unfold landlordIndex, indexOf.
    cbn [onR onL lg s1 set_baseScore set_landlord landlord order set_stage set_players]. rewrite Hix.
    by rewrite decide_False by lia. }
  apply nextTurn_run. split; try done.
  - by apply seats_insert.
  - rewrite Hcur. lia.
  - change (∀ u p, ps !! u = Some p → hand p ≠ []). intros u p. unfold ps.
    destruct (decide (maxBidder (lg s) = u)) as [<-|Hne].
    + rewrite lookup_insert_eq. intros [= <-] E. cbn [hand] in E.
      pose proof (Permutation_length (sortCards_perm (hand hp ++ landlord3 (lg s1)))) as Hl.
      fold h in Hl. rewrite E, length_app in Hl. specialize (H17 _ _ Hhp). simpl in Hl. lia.
    + rewrite lookup_insert_ne by done. intros Hp E. specialize (H17 _ _ Hp). by rewrite E in H17.
  - rewrite Hout, played_app, Htab, (played_quiet _ Hq), app_nil_r. change (players (lg s2)) with ps.
    unfold ps. rewrite handsOf_insert. cbn [hand]. unfold h. rewrite sortCards_perm.
    change (landlord3 (lg s1)) with (landlord3 (lg s)).
    rewrite <- Hdeck, (handsOf_lookup _ _ _ Hhp), <- !app_assoc.
    apply Permutation_app; [done|]. apply Permutation_app_comm.
  - by eapply TInv_quiet.
Qed.

(** After a bid was recorded: the round may be over. *)
Record Bidden (s : st) : Prop := {
  bd_live : started (lg s) = true ∧ finished (lg s) = false ∧ stage (lg s) = StageBidding;
  bd_dealt : dealt (order (lg s)) (players (lg s)) (landlord3 (lg s));
  bd_score : 0 ≤ maxScore (lg s) ≤ 3;
  bd_bidder : 0 < maxScore (lg s) → maxBidder (lg s) ∈ order (lg s);
  bd_redeals : 0 ≤ redeals (lg s) ≤ 2;
  bd_table : played (out (rm s)) = [];
  bd_trace : TInv (rm s) }.

Section BidChain.
Context (fuel : nat).
Hypothesis IH : ∀ uid score s,
  BInv s → uid ∈ order (lg s) → (bidNeed (lg s) ≤ fuel)%nat → run (applyBid fuel uid score s) Post.

Lemma askBid_chain s : BInv s → (bidNeed (lg s) ≤ fuel)%nat → run (askBid_ (applyBid fuel) s) Post.
Proof.
  intros Hs Hn. unfold askBid_. pose proof (dealt_seats _ _ _ (bi_dealt _ Hs)) as Hseats.
  destruct (seats_index _ _ (bidIndex (lg s)) Hseats) as (uid & hp & Hu & Hi & Hp).
  { rewrite (bi_index _ Hs). apply (bi_count _ Hs). }
  rewrite Hi. cbn [rbind]. match goal with |- context [memberOffline (rm ?x) uid] => set (s1 := x) end.
  assert (Hs1 : BInv s1).
  { eapply (BInv_ext s s1 (turnTimer (lg s))); [done| | reflexivity |by repeat constructor].
    destruct s as [l r]. by destruct l. }
  destruct (memberOffline (rm s1) uid); [|left; left; by apply setTurnTimer_BInv].
  apply IH; [done| |done]. by eapply list_elem_of_lookup_2.
Qed.

Lemma startBidding_chain s :
  started (lg s) = true → finished (lg s) = false →
  dealt (order (lg s)) (players (lg s)) (landlord3 (lg s)) →
  0 ≤ redeals (lg s) ≤ 2 → played (out (rm s)) = [] → TInv (rm s) →
  (3 * (2 - Z.to_nat (redeals (lg s))) + 3 ≤ fuel)%nat →
  run (startBidding_ (applyBid fuel) s) Post.
Proof.
  intros Hst Hf Hd Hr Ht HT Hn. unfold startBidding_. apply askBid_chain.
  - split; try done; cbn [onL onR lg rm set_stage set_bidIndex set_maxScore set_maxBidder set_bidCount
      bidCount maxScore out emit emits Broadcast]; try lia.
    + by rewrite played_app, Ht.
    + eapply (TInv_quiet (rm s)); [done|reflexivity|by repeat constructor].
  - unfold bidNeed. cbn [onL onR lg set_stage set_bidIndex set_maxScore set_maxBidder set_bidCount
      bidCount redeals]. lia.
Qed.

Lemma finishBidding_chain s :
  Bidden s → (3 * (2 - Z.to_nat (redeals (lg s))) ≤ fuel)%nat →
  run (finishBidding_ (applyBid fuel) s) Post.
Proof.
  intros Hs Hn. unfold finishBidding_. pose proof (dealt_seats _ _ _ (bd_dealt _ Hs)) as Hseats.
  destruct (decide (maxScore (lg s) = 0 ∨ maxBidder (lg s) = EmptyString)) as [Hno|Hyes].
  - destruct (Z.ltb_spec (redeals (lg s)) maxRedeals) as [Hr|Hr].
    + eapply run_bind; [by apply deal_run|].
      intros s' (sd & ps & l3 & Hl & Hd & Hq). destruct Hs as [(Q1 & Q1' & Q1'') Q2 Q3 Q4 Q5 Q6 Q7].
      destruct (quietly_out _ _ Hq) as (es & Ho & Hqs). unfold maxRedeals in Hr.
      apply startBidding_chain; rewrite ?Hl; try done.
      * cbn. lia.
      * rewrite Ho, played_app, (played_quiet es), app_nil_r by done. exact Q6.
      * by eapply TInv_quiet.
      * cbn [onL lg set_redeals redeals set_players set_landlord3 set_seed]. lia.
    + destruct (seats_index _ _ 0 Hseats) as (u & hp & Hu & Hi & _); [lia|].
      rewrite Hi. cbn [rbind]. apply PPost_Post, startPlaying_run.
      destruct Hs as [(Q1 & Q1' & Q1'') Q2 Q3 Q4 Q5 Q6 Q7]. split; try done; cbn; try lia.
      by eapply list_elem_of_lookup_2.
  - apply PPost_Post, startPlaying_run. destruct Hs as [(Q1 & Q1' & Q1'') Q2 Q3 Q4 Q5 Q6 Q7].
    split; try done; [lia|]. apply Q4. lia.
Qed.
End BidChain.

Lemma applyBid_run fuel uid score s :
  BInv s → uid ∈ order (lg s) → (bidNeed (lg s) ≤ fuel)%nat → run (applyBid fuel uid score s) Post.
Proof.
  revert uid score s. induction fuel as [|fuel IH]; intros uid score s Hs Hu Hn.
  { exfalso. pose proof (bi_count _ Hs). pose proof (bi_redeals _ Hs). unfold bidNeed in Hn. lia. }
  cbn [applyBid]. cbv zeta.
  match goal with |- context [CallNtf uid ?x _] => set (sc := x) end.
  assert (Hsc : 0 ≤ sc ≤ 3 ∧ (sc = 0 ∨ maxScore (lg s) < sc)).
  { unfold sc. destruct (decide (score < 0 ∨ score > 3)); case_decide; lia. }
  match goal with |- context [clearTurnTimer ?x] => set (s1 := x) end. set (s2 := clearTurnTimer s1).
  assert (Hl2 : lg s2 = set_turnTimer None (lg s1)) by apply clear_lg.
  destruct (clear_rm s1) as [ts Hr2]. fold s2 in Hr2.
  assert (Hout : ∃ to, out (rm s2) = out (rm s) ++ [EvBroadcast to MsgCallNtf (CallNtf uid sc (sc =? 0))]).
  { eexists. rewrite Hr2. reflexivity. }
  destruct Hout as [to Hout].
  assert (Hq : Forall quiet [EvBroadcast to MsgCallNtf (CallNtf uid sc (sc =? 0))]) by (by repeat constructor).
  set (l1 := set_bidCount (bidCount (lg s) + 1) (lg s)).
  assert (Hl1 : lg s1 = if sc >? maxScore l1 then set_maxBidder uid (set_maxScore sc l1) else l1) by done.
  pose proof (bi_count _ Hs) as Hcnt. pose proof (bi_redeals _ Hs) as Hred.
  assert (Hfields : order (lg s2) = order (lg s) ∧ players (lg s2) = players (lg s) ∧
    landlord3 (lg s2) = landlord3 (lg s) ∧ redeals (lg s2) = redeals (lg s) ∧
    bidCount (lg s2) = bidCount (lg s) + 1 ∧ bidIndex (lg s2) = bidIndex (lg s) ∧
    started (lg s2) = started (lg s) ∧ finished (lg s2) = finished (lg s) ∧ stage (lg s2) = stage (lg s)).
  { rewrite Hl2, Hl1. by destruct (sc >? maxScore l1). }
  destruct Hfields as (F1 & F2 & F3 & F4 & F5 & F6 & F7 & F8 & F9).
  assert (Hmax : 0 ≤ maxScore (lg s2) ≤ 3 ∧ (0 < maxScore (lg s2) → maxBidder (lg s2) ∈ order (lg s))).
  { rewrite Hl2, Hl1. pose proof (bi_score _ Hs). pose proof (bi_bidder _ Hs).
    destruct (Z.gtb_spec sc (maxScore l1)); cbn; [split; [lia|done]|split; [lia|done]]. }
  assert (Hb : Bidden s2).
  { destruct Hs as [Q1 Q2 Q3 Q4 Q5 Q6 Q7 Q8 Q9]. split; rewrite ?F1, ?F2, ?F3, ?F4, ?F7, ?F8, ?F9; try done.
    - apply Hmax.
    - apply Hmax.
    - by rewrite Hout, played_app, Q8.
    - by eapply TInv_quiet. }
  case_decide as Hend.
  - apply finishBidding_chain; [done..|]. rewrite F4. unfold bidNeed in Hn. lia.
  - rewrite F1 in Hend. rewrite (seats_zlen _ _ (dealt_seats _ _ _ (bi_dealt _ Hs))) in Hend.
    assert (Hse : seats (order (lg s2)) (players (lg s2))) by apply (dealt_seats _ _ _ (bd_dealt _ Hb)).
    destruct (nextIndex_run (bidIndex (lg s2)) (lg s2) _ Hse) as [Hni _].
    { rewrite F6, (bi_index _ Hs). lia. }
    rewrite Hni. cbn [rbind]. apply askBid_chain; [done| |].
    + destruct Hb as [Q1 Q2 Q3 Q4 Q5 Q6 Q7]. split; try assumption; cbn [onL lg set_bidIndex bidCount bidIndex maxScore].
      * lia.
      * rewrite F6, F5, (bi_index _ Hs). apply Z.mod_small. lia.
      * lia.
    + unfold bidNeed in *. cbn [onL lg set_bidIndex redeals bidCount]. rewrite F4, F5. lia.
Qed.

(** ** Handlers *)

Lemma toMove_current s u : PInv s → currentUID (lg s) = Ok u → toMove u s.
Proof.
  intros Hs. unfold currentUID. destruct (pi_live _ Hs) as (_ & _ & ->). cbn.
  intros Hi. by apply index_Some in Hi as [_ ?].
Qed.

Lemma current_PInv s : PInv s → ∃ u, currentUID (lg s) = Ok u ∧ toMove u s.
Proof.
  intros Hs. unfold currentUID. destruct (pi_live _ Hs) as (_ & _ & ->). cbn.
  destruct (seats_index _ _ _ (pi_seats _ Hs) (pi_cur _ Hs)) as (u & hp & Hu & Hi & _). eauto.
Qed.

Lemma current_BInv s : BInv s → ∃ u, currentUID (lg s) = Ok u ∧ u ∈ order (lg s).
Proof.
  intros Hs. unfold currentUID. destruct (bi_live _ Hs) as (_ & _ & ->). cbn.
  destruct (seats_index _ _ (bidIndex (lg s)) (dealt_seats _ _ _ (bi_dealt _ Hs))) as (u & hp & Hu & Hi & _).
  { rewrite (bi_index _ Hs). apply (bi_count _ Hs). }
  exists u. split; [done|]. by eapply list_elem_of_lookup_2.
Qed.

Lemma applyPlay_Post uid ids s : PInv s → toMove uid s → run (applyPlay playFuel uid ids s) Post.
Proof. intros. apply PPost_Post, applyPlay_run; [done|done|by apply need_playFuel]. Qed.

Lemma autoPlay_Post uid free s : PInv s → toMove uid s → run (autoPlay uid free s) Post.
Proof. intros. by apply PPost_Post, autoPlay_run. Qed.

Lemma applyBid_Post uid score s : BInv s → uid ∈ order (lg s) → run (applyBid bidFuel uid score s) Post.
Proof.
  intros Hs Hu. apply applyBid_run; [done|done|].
  pose proof (bi_count _ Hs). pose proof (bi_redeals _ Hs). unfold bidNeed, bidFuel. lia.
Qed.

Lemma OnMessage_Live uid id req s : Live s → run (OnMessage uid id req s) Post.
Proof.
  intros Hs. assert (HP : Post s) by (by left). unfold OnMessage.
  destruct (negb (started (lg s)) || finished (lg s)); [done|].
  destruct Hs as [Hs|Hs].
  - destruct (current_BInv s Hs) as (u & Hu & Hin). rewrite Hu. cbn [rbind].
    case_decide as E; [done|]. subst u. destruct (id =? MsgCall).
    + destruct (negb _); [done|]. destruct req; try done. by apply applyBid_Post.
    + destruct (id =? MsgPlay); [|done]. by destruct (bi_live _ Hs) as (_ & _ & ->).
  - destruct (current_PInv s Hs) as (u & Hu & Hin). rewrite Hu. cbn [rbind].
    case_decide as E; [done|]. subst u. destruct (id =? MsgCall).
    + by destruct (pi_live _ Hs) as (_ & _ & ->).
    + destruct (id =? MsgPlay); [|done]. destruct (negb _); [done|].
      destruct req; try done. by apply applyPlay_Post.
Qed.

Lemma turnTimeout_Live uid s : Live s → run (turnTimeout uid s) Post.
Proof.
  intros Hs. assert (HP : Post s) by (by left). unfold turnTimeout. destruct Hs as [Hs|Hs].
  - destruct (bi_live _ Hs) as (_ & _ & ->). cbn [Z.eqb Pos.eqb StageBidding StagePlaying].
    destruct (current_BInv s Hs) as (u & -> & Hin). cbn [rbind].
    case_decide; [subst; by apply applyBid_Post|done].
  - destruct (pi_live _ Hs) as (_ & _ & ->). cbn [Z.eqb Pos.eqb StageBidding StagePlaying].
    destruct (current_PInv s Hs) as (u & -> & Hin). cbn [rbind].
    case_decide; [subst; by apply autoPlay_Post|done].
Qed.

Lemma Tick_Live s : Live s → run (Tick s) Post.
Proof.
  intros Hs. assert (HP : Post s) by (by left). unfold Tick.
  destruct (negb (started (lg s)) || finished (lg s)); [done|]. destruct Hs as [Hs|Hs].
  - destruct (current_BInv s Hs) as (u & -> & Hin). cbn [rbind]. case_decide; [done|].
    destruct (_ && _); [|done]. destruct (bi_live _ Hs) as (_ & _ & ->). cbn [Z.eqb Pos.eqb StageBidding StagePlaying]. by apply applyBid_Post.
  - destruct (current_PInv s Hs) as (u & -> & Hin). cbn [rbind]. case_decide; [done|].
    destruct (_ && _); [|done]. destruct (pi_live _ Hs) as (_ & _ & ->). cbn [Z.eqb Pos.eqb StageBidding StagePlaying]. by apply autoPlay_Post.
Qed.

(** Before the third player sits down. *)
Record Waiting (s : st) : Prop := {
  wa_live : started (lg s) = false ∧ finished (lg s) = false ∧ stage (lg s) = StageWaiting;
  wa_nodup : NoDup (order (lg s));
  wa_few : (length (order (lg s)) < 3)%nat;
  wa_dom u : u ∈ order (lg s) ↔ is_Some (players (lg s) !! u);
  wa_redeals : redeals (lg s) = 0;
  wa_table : played (out (rm s)) = [];
  wa_trace : TInv (rm s) }.

Lemma OnJoin_Waiting uid s :
  Waiting s → uid ∉ order (lg s) → run (OnJoin uid s) (fun s' => Waiting s' ∨ Post s').
Proof.
  intros [(W1 & W1' & W1'') W2 W3 W4 W5 W6 W7] Hu. unfold OnJoin. set (s1 := onR _ (onL _ s)).
  assert (Hnd : NoDup (order (lg s1))) by (apply NoDup_app; split_and!; [done|set_solver|apply NoDup_singleton]).
  assert (Hdom : ∀ u, u ∈ order (lg s1) ↔ is_Some (players (lg s1) !! u)).
  { intros u. cbn [s1 onR onL lg set_order set_players order players].
    rewrite elem_of_app, list_elem_of_singleton. destruct (decide (uid = u)) as [->|Hne].
    - rewrite lookup_insert_eq. naive_solver.
    - rewrite lookup_insert_ne by done. rewrite <- W4. naive_solver. }
  assert (HT : played (out (rm s1)) = [] ∧ TInv (rm s1)).
  { split; [cbn [s1 onR onL rm Broadcast emit emits out]; by rewrite played_app, W6|].
    eapply TInv_quiet; [exact W7|reflexivity|by repeat constructor]. }
  rewrite (size_of_order _ _ Hnd Hdom). case_decide as Hd.
  - assert (H3 : length (order (lg s1)) = 3%nat).
    { destruct Hd as [Hd _]. cbn [s1 onR onL lg set_order set_players order] in *.
      rewrite length_app in *. simpl in *. lia. }
    eapply run_bind; [apply deal_run; split; [exact Hnd|exact H3|exact Hdom]|].
    intros s' (sd & ps & l3 & Hl & Hdl & Hq). destruct (quietly_out _ _ Hq) as (es & Ho & Hqs).
    eapply run_mono; [|by intros x Hx; right; exact Hx]. unfold startBidding.
    apply startBidding_chain; rewrite ?Hl; try done.
    + intros. apply applyBid_run; done.
    + cbn. lia.
    + rewrite Ho, played_app, (played_quiet es), app_nil_r by done. apply HT.
    + eapply TInv_quiet; [apply HT|exact Ho|done].
    + cbn [lg onL set_started set_players set_landlord3 set_seed redeals s1 onR set_order]. rewrite W5.
      unfold bidFuel. lia.
  - left. split; try done; try tauto.
    destruct (decide (3 ≤ length (order (lg s1)))%nat) as [Hge|Hlt]; [|lia]. exfalso. apply Hd. done.
Qed.
End Inv.
