(* ===== verification/DoudizhuGame.v ===== *)
(** * Theorems on whole doudizhu games

    The game as a transition system whose steps are the handlers the room
    actor calls, and what holds in every reachable state. *)

From S2P Require Import Prelude RoomCtx DdzCards Doudizhu DoudizhuInv.

(** ** The transition system *)

Section Game.
Context `{CardSort}.

(** One callback of the room actor. [gs_env] is everything that happens to the
    room outside the logic between two callbacks: members connect and
    disconnect, the clock advances, timers come and go. The guards of
    [gs_join] and [gs_leave] are those of the room actor: a closing room
    handles neither, nobody is seated twice and MaxPlayers is three.
    [gs_timer] is the closure of a turn timer, at any time and for any player:
    also one that was already in the mailbox when the game finished, as long as
    it returns (it can panic then: [stale_timer_panics]). *)
Inductive gstep : st → st → Prop :=
| gs_join uid s s' : closing (rm s) = false → (length (order (lg s)) < 3)%nat →
    uid ∉ order (lg s) → OnJoin uid s = Ok s' → gstep s s'
| gs_msg uid id req s s' : OnMessage uid id req s = Ok s' → gstep s s'
| gs_tick s s' : Tick s = Ok s' → gstep s s'
| gs_timer uid s s' : turnTimeout uid s = Ok s' → gstep s s'
| gs_leave uid s s' : closing (rm s) = false → OnLeave uid s = Ok s' → gstep s s'
| gs_timeout s s' : OnTimeout s = Ok s' → gstep s s'
| gs_close s : gstep s (Close s)
| gs_env s r : out r = out (rm s) → closing r = closing (rm s) → roomID r = roomID (rm s) →
    gstep s (mkSt (lg s) r).

Inductive greach (s0 : st) : st → Prop :=
| gr_start : greach s0 s0
| gr_step s s' : greach s0 s → gstep s s' → greach s0 s'.

(** A new room: fresh logic, nothing sent yet. *)
Definition newGame (r : room) : st := OnCreate (mkSt NewLogic r).

(** The game is over: settled, room closed, no hand was ever shown. *)
Definition Over (s : st) : Prop :=
  finished (lg s) = true ∧ closing (rm s) = true ∧ Forall public (out (rm s)).

Definition GInv (s : st) : Prop := Waiting s ∨ Live s ∨ Over s.

(** ** Preservation *)

Lemma newGame_Waiting r : out r = [] → Waiting (newGame r).
Proof.
  intros Ho. split; try done; cbn.
  - apply NoDup_nil_2.
  - lia.
  - intros u. rewrite lookup_empty. split; [by intros ?%elem_of_nil|by intros []].
  - by rewrite Ho.
  - split; cbn; by rewrite Ho.
Qed.

Lemma Live_started s : Live s → started (lg s) = true ∧ finished (lg s) = false.
Proof. intros [Hs|Hs]; [destruct (bi_live _ Hs)|destruct (pi_live _ Hs)]; tauto. Qed.

Lemma Live_public s : Live s → Forall public (out (rm s)).
Proof. intros [Hs|Hs]; [apply (bi_trace _ Hs)|apply (pi_trace _ Hs)]. Qed.

Lemma finish_Over win s :
  finished (lg s) = false → Forall public (out (rm s)) → Over (finish win s).
Proof.
  intros Hf Hp. destruct (finish_out win s Hf) as (es & Ho & Hq & Hc & _ & Hl).
  unfold Over. rewrite Hl, Ho. split_and!; try done. rewrite !Forall_app. split_and!; try done.
  - by repeat constructor.
  - apply Forall_forall. intros e He. by apply settlement_events in He as [_ ?].
  - by repeat constructor.
  - by apply public_quiet.
Qed.

Lemma idle_Ok s uid id req :
  started (lg s) = false ∨ finished (lg s) = true → OnMessage uid id req s = Ok s ∧ Tick s = Ok s.
Proof.
  intros Hi. unfold OnMessage, Tick.
  by destruct Hi as [-> | ->]; rewrite ?orb_true_r.
Qed.

(** Handlers that keep a waiting room waiting. *)
Lemma OnLeave_Waiting uid s : Waiting s → ∃ s', OnLeave uid s = Ok s' ∧ Waiting s'.
Proof.
  intros [(W1 & W1' & W1'') W2 W3 W4 W5 W6 W7]. eexists. split.
  { unfold OnLeave. cbn [onL onR lg started set_order set_players]. by rewrite W1. }
  split; try done; cbn [onL onR lg rm order players set_order set_players emit emits Broadcast out].
  - by apply NoDup_remove_first.
  - rewrite remove_first_filter by done. pose proof (length_filter (.≠ uid) (order (lg s))). lia.
  - intros u. rewrite elem_of_remove_first by done. destruct (decide (u = uid)) as [->|Hne].
    + rewrite lookup_delete_eq. split; [tauto|by intros []].
    + rewrite lookup_delete_ne, <- W4 by done. tauto.
  - by rewrite played_app, W6.
  - eapply TInv_quiet; [exact W7|reflexivity|by repeat constructor].
Qed.

Lemma OnLeave_Live uid s : Live s → ∃ s', OnLeave uid s = Ok s' ∧ Over s'.
Proof.
  intros Hs. destruct (Live_started s Hs) as [Hst Hf]. pose proof (Live_public s Hs) as Hp.
  eexists. split.
  { unfold OnLeave. cbn [onL onR lg started finished set_order set_players]. by rewrite Hst, Hf. }
  apply finish_Over; [done|]. cbn. apply Forall_app. split; [done|]. by repeat constructor.
Qed.

Lemma OnTimeout_Live s : Live s → ∃ s', OnTimeout s = Ok s' ∧ GInv s'.
Proof.
  intros Hs. destruct (Live_started s Hs) as [Hst Hf]. pose proof (Live_public s Hs) as Hp.
  unfold OnTimeout. rewrite Hf. destruct Hs as [Hs|Hs].
  - destruct (bi_live _ Hs) as (_ & _ & ->). exists s. split; [done|]. right; left; by left.
  - destruct (pi_live _ Hs) as (_ & _ & ->). cbn [Z.eqb Pos.eqb StagePlaying].
    destruct (proj1 (seats_dom _ _ (pi_seats _ Hs) (landlord (lg s))) (pi_landlord _ Hs)) as [hp ->].
    eexists. split; [done|]. right; right. by apply finish_Over.
Qed.

Lemma Post_GInv s : Post s → GInv s.
Proof.
  intros [Hs|[D1 D2 D3 [_ D4] D5]]; [by right; left|]. right; right. by split_and!.
Qed.

Lemma env_GInv s r :
  out r = out (rm s) → closing r = closing (rm s) → GInv s → GInv (mkSt (lg s) r).
Proof.
  intros Ho Hc Hs. assert (Hx : out r = out (rm s) ++ []) by (by rewrite app_nil_r).
  assert (Ht : lg s = set_turnTimer (turnTimer (lg s)) (lg s)) by (by destruct (lg s)).
  destruct Hs as [[W1 W2 W3 W4 W5 W6 W7]|[[Hs|Hs]|(O1 & O2 & O3)]].
  - left. split; try done; cbn [lg rm]; [by rewrite Ho|]. eapply TInv_quiet; [exact W7|exact Hx|constructor].
  - right; left; left. eapply (BInv_ext s); [done|exact Ht|exact Hx|constructor].
  - right; left; right. eapply (PInv_ext s); [done|exact Ht|exact Hx|constructor].
  - right; right. unfold Over. cbn [lg rm]. rewrite Ho, Hc. done.
Qed.

(** Closing the room adds profile writes and session releases only. *)
Lemma Close_quiet s : ∃ es, out (rm (Close s)) = out (rm s) ++ es ∧ Forall quiet es.
Proof.
  unfold Close, doClose. cbn [rm]. destruct (closing (rm s)).
  { exists []. by rewrite app_nil_r. }
  assert (Hf : ∀ A (f : A → event dmsg) l, (∀ x, quiet (f x)) → Forall quiet (f <$> l)).
  { intros A f l Hq. apply Forall_fmap, Forall_true. exact Hq. }
  unfold OnDestroy. cbn [set_closing profileStore].
  destruct (profileStore (rm s)); cbn; rewrite <- ?app_assoc; eexists; (split; [reflexivity|]);
    repeat apply Forall_app_2; try (apply Hf; done); by repeat constructor.
Qed.

Lemma Close_GInv s : GInv s → GInv (Close s).
Proof.
  destruct (Close_quiet s) as (es & Ho & Hq).
  assert (Hl : lg (Close s) = set_turnTimer (turnTimer (lg s)) (lg s)) by (cbn; by destruct (lg s)).
  intros [[W1 W2 W3 W4 W5 W6 W7]|[[Hs|Hs]|(O1 & O2 & O3)]].
  - left. split; try done; [|by eapply TInv_quiet]. by rewrite Ho, played_app, W6, (played_quiet es).
  - right; left; left. by eapply (BInv_ext s).
  - right; left; right. by eapply (PInv_ext s).
  - right; right. unfold Over. rewrite Ho. split_and!; [done| |].
    + unfold Close, doClose. cbn [rm]. by rewrite O2.
    + apply Forall_app. split; [done|by apply public_quiet].
Qed.

(** ** Closures that run after the end

    Cancelling a turn timer does not withdraw a closure that is already in the
    mailbox. What such a closure leaves when it returns: a finished, closing
    game that has shown nothing more than broadcasts and pushes to one. *)
Definition keepsOver (s s' : st) : Prop :=
  finished (lg s) = true →
  finished (lg s') = true ∧ closing (rm s') = closing (rm s) ∧
  ∃ es, out (rm s') = out (rm s) ++ es ∧ Forall public es.

#[local] Instance keepsOver_preorder : PreOrder keepsOver.
Proof.
  split; [intros s Hf; split_and!; [done..|]; exists []; by rewrite app_nil_r|].
  intros s1 s2 s3 H1 H2 (F2 & C2 & es & O2 & P2)%H1. destruct (H2 F2) as (F3 & C3 & es' & O3 & P3).
  split_and!; [done|congruence|]. exists (es ++ es'). rewrite O3, O2, app_assoc.
  split; [done|by apply Forall_app].
Qed.

Lemma keepsOver_intro s s' es :
  finished (lg s') = finished (lg s) → closing (rm s') = closing (rm s) →
  out (rm s') = out (rm s) ++ es → Forall public es → keepsOver s s'.
Proof. intros Hf Hc Ho Hp H1. rewrite Hf. split_and!; eauto. Qed.

Lemma keepsOver_same s s' :
  finished (lg s') = finished (lg s) → closing (rm s') = closing (rm s) →
  out (rm s') = out (rm s) → keepsOver s s'.
Proof. intros Hf Hc Ho. eapply (keepsOver_intro _ _ []); [done..| |constructor]. by rewrite app_nil_r. Qed.

Lemma clearTurnTimer_over s : keepsOver s (clearTurnTimer s).
Proof.
  destruct (clear_rm s) as [ts Hr]. apply keepsOver_same; try by rewrite Hr.
  unfold clearTurnTimer. by destruct (turnTimer (lg s)).
Qed.

Lemma setTurnTimer_over uid s : keepsOver s (setTurnTimer uid s).
Proof. etrans; [apply clearTurnTimer_over|]. by apply keepsOver_same. Qed.

Lemma finish_over win s : keepsOver s (finish win s).
Proof. intros Hf. unfold finish. rewrite Hf. by apply (reflexivity (R := keepsOver)). Qed.

Lemma setHand_finished uid h l l' : setHand uid h l = Ok l' → finished l' = finished l.
Proof. unfold setHand. destruct (players l !! uid); [|done]. by intros [= <-]. Qed.

Lemma setHand_over uid h s l : setHand uid h (lg s) = Ok l → keepsOver s (mkSt l (rm s)).
Proof.
  unfold setHand. destruct (players (lg s) !! uid); [|done]. intros [= <-]. by apply keepsOver_same.
Qed.

(** One broadcast that shows no hand, and a change of the other fields. *)
Lemma broadcast_over s s' to id m :
  finished (lg s') = finished (lg s) → closing (rm s') = closing (rm s) →
  out (rm s') = out (rm s) ++ [EvBroadcast to id m] → public (EvBroadcast to id m) → keepsOver s s'.
Proof. intros ??? Hp. eapply keepsOver_intro; [done..|]. by repeat constructor. Qed.

Lemma nextTurn_over (play : string → list Z → st → res st) free s s' :
  (∀ u ids s s', play u ids s = Ok s' → keepsOver s s') → nextTurn_ play free s = Ok s' → keepsOver s s'.
Proof.
  intros Hplay. unfold nextTurn_, autoPlay_.
  destruct (index (order (lg s)) (cur (lg s))) as [uid| |]; cbn [rbind]; [|done..]. cbv zeta.
  match goal with |- context [memberOffline (rm ?x) uid] => set (s1 := x) end.
  assert (H1 : keepsOver s s1) by (unfold s1; destruct free; by eapply broadcast_over).
  destruct (memberOffline (rm s1) uid).
  - intros E. transitivity s1; [done|]. destruct free; [|by eapply Hplay].
    destruct (players (lg s1) !! uid) as [hp|]; [|done]. destruct (hand hp); by eapply Hplay.
  - intros [= <-]. etrans; [exact H1|]. apply setTurnTimer_over.
Qed.

Lemma giveBack_over uid h s s' :
  (let! l := setHand uid h (lg s) in Ok (mkSt l (rm s))) = Ok s' → keepsOver s s'.
Proof.
  destruct (setHand uid h (lg s)) eqn:E; cbn [rbind]; [|done..]. intros [= <-]. by eapply setHand_over.
Qed.

Lemma applyPlay_over fuel uid ids s s' : applyPlay fuel uid ids s = Ok s' → keepsOver s s'.
Proof.
  revert uid ids s s'. induction fuel as [|fuel IH]; intros uid ids s s'; [done|]. cbn [applyPlay].
  destruct (players (lg s) !! uid) as [hp|] eqn:Hp; [|by intros [= <-]].
  destruct ids as [|id ids].
  - destruct (lastPlayed (lg s)) as [lp|]; [|by intros [= <-]]. cbv zeta.
    match goal with |- context [passCount (lg ?x) >=? 2] => set (s1 := x) end.
    assert (H1 : keepsOver s s1) by (by eapply broadcast_over).
    destruct (passCount (lg s1) >=? 2); [|destruct (nextIndex _ _); cbn [rbind]; [|done..]];
      intros E; (etrans; [exact H1|]); (etrans; [|by eapply nextTurn_over]); by apply keepsOver_same.
  - destruct (takeCards (hand hp) (id :: ids)) as [[sel kept]|]; [|by intros [= <-]].
    destruct (setHand uid kept (lg s)) as [l| |] eqn:El; cbn [rbind]; [|done..].
    apply setHand_over in El as Hl. cbv zeta. destruct (classify sel) as [typ mr].
    destruct (decide (typ = TypeInvalid)); [intros E; etrans; [exact Hl|by eapply giveBack_over]|].
    match goal with |- (if ?b then _ else _) = _ → _ => destruct b end.
    { intros E; etrans; [exact Hl|by eapply giveBack_over]. }
    destruct (decide (kept = [])).
    + intros [= <-]. etrans; [exact Hl|]. etrans; [|apply finish_over]. by eapply broadcast_over.
    + destruct (nextIndex _ _); cbn [rbind]; [|done..]. intros E. etrans; [exact Hl|].
      etrans; [|by eapply nextTurn_over]. by eapply broadcast_over.
Qed.

Lemma PushTo_over l s uid id m :
  finished l = finished (lg s) → public (EvPush uid id m) → keepsOver s (mkSt l (PushTo (rm s) uid id m)).
Proof.
  intros Hf Hp. unfold PushTo. destruct (Member (rm s) uid); [|by apply keepsOver_same].
  eapply keepsOver_intro; [done..|]. by repeat constructor.
Qed.

Lemma assignHands_over ho s s' : assignHands ho s = Ok s' → keepsOver s s'.
Proof.
  revert s. induction ho as [|[h uid] ho IH]; intros s; cbn [assignHands]; [by intros [= <-]|].
  destruct (setHand uid (sortCards h) (lg s)) as [l| |] eqn:El; cbn [rbind]; [|done..].
  apply setHand_finished in El. intros E. etrans; [|by eapply IH]. by apply PushTo_over.
Qed.

Lemma deal_over s s' : deal s = Ok s' → keepsOver s s'.
Proof.
  unfold deal. destruct (shuffle _ _ _) as [[sd deck]| |]; cbn [rbind]; [|done..].
  destruct (dealLoop _ _ _ _ _); cbn [rbind]; [|done..]. destruct (slice _ _ _); cbn [rbind]; [|done..].
  intros E. etrans; [|by eapply assignHands_over]. by apply keepsOver_same.
Qed.

Lemma startPlaying_over s s' : startPlaying s = Ok s' → keepsOver s s'.
Proof.
  unfold startPlaying. cbv zeta. destruct (players _ !! _) as [hp|]; [|done].
  match goal with |- context [setHand _ _ (lg ?x)] => set (s1 := x) end.
  assert (H1 : keepsOver s s1) by (by apply keepsOver_same).
  destruct (setHand _ _ _) as [l| |] eqn:El; cbn [rbind]; [|done..]. apply setHand_finished in El.
  unfold nextTurn. intros E%nextTurn_over; [|apply applyPlay_over]. etrans; [exact H1|].
  etrans; [|exact E]. etrans; [by apply (PushTo_over l)|]. by eapply broadcast_over.
Qed.

Lemma askBid_over (bid : string → Z → st → res st) s s' :
  (∀ u n s s', bid u n s = Ok s' → keepsOver s s') → askBid_ bid s = Ok s' → keepsOver s s'.
Proof.
  intros Hb. unfold askBid_. destruct (index _ _) as [uid| |]; cbn [rbind]; [|done..]. cbv zeta.
  destruct (memberOffline _ uid); [intros E; etrans; [|by eapply Hb]|intros [= <-]; etrans; [|apply setTurnTimer_over]];
    by eapply broadcast_over.
Qed.

Lemma applyBid_over fuel uid score s s' : applyBid fuel uid score s = Ok s' → keepsOver s s'.
Proof.
  revert uid score s s'. induction fuel as [|fuel IH]; intros uid score s s'; [done|]. cbn [applyBid]. cbv zeta.
  match goal with |- context [clearTurnTimer ?x] => set (s1 := x) end.
  assert (H1 : keepsOver s s1).
  { unfold s1. cbv [onL onR]. case_match; by eapply broadcast_over. }
  pose proof (clearTurnTimer_over s1) as H2. set (s2 := clearTurnTimer s1) in *.
  case_decide; intros E; (etrans; [exact H1|]); (etrans; [exact H2|]).
  - revert E. unfold finishBidding_. case_decide; [|by apply startPlaying_over].
    case_match.
    + destruct (deal _) as [s3| |] eqn:Ed; cbn [rbind]; [|done..]. apply deal_over in Ed. intros E.
      etrans; [by apply keepsOver_same|]. etrans; [exact Ed|]. etrans; [|eapply askBid_over; [exact IH|exact E]].
      by eapply broadcast_over.
    + destruct (index _ _); cbn [rbind]; [|done..]. intros E%startPlaying_over. etrans; [|exact E].
      by apply keepsOver_same.
  - destruct (nextIndex _ _); cbn [rbind] in E; [|done..]. etrans; [|eapply askBid_over; [exact IH|exact E]].
    by apply keepsOver_same.
Qed.

Lemma autoPlay_over uid free s s' : autoPlay uid free s = Ok s' → keepsOver s s'.
Proof.
  unfold autoPlay, autoPlay_. generalize playFuel as fuel. intros fuel. destruct free; [|apply applyPlay_over].
  destruct (players (lg s) !! uid) as [hp|]; [|done]. destruct (hand hp); apply applyPlay_over.
Qed.

Lemma turnTimeout_over uid s s' : turnTimeout uid s = Ok s' → keepsOver s s'.
Proof.
  unfold turnTimeout. generalize bidFuel as fuel. intros fuel.
  destruct (stage (lg s) =? StageBidding); [|destruct (stage (lg s) =? StagePlaying); [|by intros [= <-]]].
  all: destruct (currentUID (lg s)) as [c| |]; cbn [rbind]; [|done..]; destruct (decide (c = uid)).
  1: intros E; by eapply applyBid_over. 2: intros E; by eapply autoPlay_over. all: by intros [= <-].
Qed.

Lemma turnTimeout_Over uid s s' : Over s → turnTimeout uid s = Ok s' → Over s'.
Proof.
  intros (O1 & O2 & O3) E%turnTimeout_over. destruct (E O1) as (F & C & es & Ho & Hp). unfold Over.
  rewrite Ho, C. split_and!; [done..|]. by apply Forall_app.
Qed.

Lemma run_Post_GInv m s' : run m Post → m = Ok s' → GInv s'.
Proof. intros Hr ->. by apply Post_GInv. Qed.

Lemma gstep_GInv s s' : gstep s s' → GInv s → GInv s'.
Proof.
  intros Hstep Hinv.
  destruct Hstep as [uid x x' Hc Hlen Hu E|uid id req x x' E|x x' E|uid x x' E|uid x x' Hc E|x x' E|x|x r H1 H2 _];
    [| | | | | |by apply Close_GInv|by apply env_GInv].
  all: destruct Hinv as [HW|[HL|HO]].
  - pose proof (OnJoin_Waiting uid x HW Hu) as Hr. rewrite E in Hr.
    destruct Hr as [?|?]; [by left|by apply Post_GInv].
  - exfalso. destruct HL as [HB|HP].
    + pose proof (seats_three _ _ (dealt_seats _ _ _ (bi_dealt _ HB))). lia.
    + pose proof (seats_three _ _ (pi_seats _ HP)). lia.
  - exfalso. destruct HO as (_ & HO & _). congruence.
  - destruct (idle_Ok x uid id req) as [Hi _]; [left; apply HW|]. left. congruence.
  - eapply run_Post_GInv; [by apply OnMessage_Live|done].
  - destruct (idle_Ok x uid id req) as [Hi _]; [right; apply HO|]. right; right. congruence.
  - destruct (idle_Ok x EmptyString 0 OtherReq) as [_ Hi]; [left; apply HW|]. left. congruence.
  - eapply run_Post_GInv; [by apply Tick_Live|done].
  - destruct (idle_Ok x EmptyString 0 OtherReq) as [_ Hi]; [right; apply HO|]. right; right. congruence.
  - left. revert E. unfold turnTimeout. destruct (wa_live _ HW) as (_ & _ & ->). cbn. by intros [= <-].
  - eapply run_Post_GInv; [by apply turnTimeout_Live|done].
  - right; right. by eapply turnTimeout_Over.
  - destruct (OnLeave_Waiting uid x HW) as (y & Hy & HW'). left. congruence.
  - destruct (OnLeave_Live uid x HL) as (y & Hy & HO'). right; right. congruence.
  - exfalso. destruct HO as (_ & HO & _). congruence.
  - left. revert E. unfold OnTimeout. destruct (wa_live _ HW) as (_ & -> & ->). cbn. by intros [= <-].
  - destruct (OnTimeout_Live x HL) as (y & Hy & HO'). congruence.
  - right; right. revert E. unfold OnTimeout. destruct HO as (Hfin & Hrest). rewrite Hfin. intros [= <-]. done.
Qed.

Lemma reach_GInv r s : out r = [] → greach (newGame r) s → GInv s.
Proof.
  intros Ho. induction 1 as [|s s' _ IH Hs]; [left; by apply newGame_Waiting|]. by eapply gstep_GInv.
Qed.

(** ** The trace only grows *)

Definition ext (s s' : st) : Prop := ∃ es, out (rm s') = out (rm s) ++ es.

#[local] Instance ext_preorder : PreOrder ext.
Proof.
  split; [intros s; exists []; by rewrite app_nil_r|].
  intros s1 s2 s3 [es H1] [es' H2]. exists (es ++ es'). by rewrite H2, H1, app_assoc.
Qed.

Lemma ext_same s s' : out (rm s') = out (rm s) → ext s s'.
Proof. unfold ext. intros ->. exists []. by rewrite app_nil_r. Qed.

Lemma setTurnTimer_ext uid s : ext s (setTurnTimer uid s).
Proof.
  destruct (clear_rm s) as [ts Hr]. apply ext_same. unfold setTurnTimer. cbn [After rm]. by rewrite Hr.
Qed.

Lemma finish_ext win s : ext s (finish win s).
Proof.
  destruct (finished (lg s)) eqn:Hf; [unfold finish; by rewrite Hf|].
  destruct (finish_out win s Hf) as (es & Ho & _). eexists. exact Ho.
Qed.

Lemma nextTurn_ext_gen (play : string → list Z → st → res st) free s s' :
  (∀ u ids s s', play u ids s = Ok s' → ext s s') → nextTurn_ play free s = Ok s' → ext s s'.
Proof.
  intros Hplay. unfold nextTurn_, autoPlay_.
  destruct (index (order (lg s)) (cur (lg s))) as [uid| |]; cbn [rbind]; [|done..]. cbv zeta.
  match goal with |- context [memberOffline (rm ?x) uid] => set (s1 := x) end.
  assert (H1 : ext s s1) by (unfold s1; destruct free; eexists; reflexivity).
  destruct (memberOffline (rm s1) uid).
  - intros E. transitivity s1; [done|]. destruct free; [|by eapply Hplay].
    destruct (players (lg s1) !! uid) as [hp|]; [|done]. destruct (hand hp); by eapply Hplay.
  - intros [= <-]. etrans; [exact H1|]. apply setTurnTimer_ext.
Qed.

Lemma applyPlay_ext fuel uid ids s s' : applyPlay fuel uid ids s = Ok s' → ext s s'.
Proof.
  revert uid ids s s'. induction fuel as [|fuel IH]; intros uid ids s s'; [done|]. cbn [applyPlay].
  destruct (players (lg s) !! uid) as [hp|] eqn:Hp; [|by intros [= <-]].
  destruct ids as [|id ids].
  - destruct (lastPlayed (lg s)) as [lp|]; [|by intros [= <-]]. cbv zeta.
    match goal with |- context [passCount (lg ?x) >=? 2] => set (s1 := x) end.
    assert (H1 : ext s s1) by (eexists; reflexivity).
    destruct (passCount (lg s1) >=? 2); [|destruct (nextIndex _ _); cbn [rbind]; [|done..]];
      intros E; (etrans; [exact H1|]); (etrans; [|by eapply nextTurn_ext_gen]); by apply ext_same.
  - destruct (takeCards (hand hp) (id :: ids)) as [[sel kept]|]; [|by intros [= <-]].
    unfold setHand. rewrite Hp. cbn [rbind lg rm players set_players]. rewrite lookup_insert_eq. cbn [rbind].
    destruct (classify sel) as [typ mr].
    destruct (decide (typ = TypeInvalid)); [by intros [= <-]; apply ext_same|].
    match goal with |- context [if ?b then Ok _ else _] => destruct b end.
    { intros [= <-]. by apply ext_same. }
    destruct (decide (kept = [])).
    + intros [= <-]. etrans; [|apply finish_ext]. eexists. reflexivity.
    + destruct (nextIndex _ _); cbn [rbind]; [|done..]. intros E.
      etrans; [|by eapply nextTurn_ext_gen]. eexists. reflexivity.
Qed.

(** ** Correctness of a game *)

Lemma current_Live s : Live s → ∃ u, currentUID (lg s) = Ok u.
Proof.
  intros [Hs|Hs]; [destruct (current_BInv _ Hs) as (u & ? & _)|destruct (current_PInv _ Hs) as (u & ? & _)]; eauto.
Qed.

Lemma Live_seats s : Live s → seats (order (lg s)) (players (lg s)).
Proof. intros [Hs|Hs]; [apply (dealt_seats _ _ _ (bi_dealt _ Hs))|apply (pi_seats _ Hs)]. Qed.

Lemma snapPlayers_Ok os l :
  (∀ u, u ∈ os → is_Some (players l !! u)) → ∃ ps, snapPlayers os l = Ok ps.
Proof.
  induction os as [|u os IH]; intros Hd; cbn; [by eexists|].
  destruct (Hd u) as [hp ->]; [set_solver|]. destruct IH as [ps ->]; [set_solver|]. by eexists.
Qed.

Lemma snapshot_Ok uid s : GInv s → finished (lg s) = false → ∃ sn, snapshotFor uid (lg s) = Ok sn.
Proof.
  intros Hinv Hf. assert ((∃ u, currentUID (lg s) = Ok u) ∧
    ∀ u, u ∈ order (lg s) → is_Some (players (lg s) !! u)) as [[u Hu] Hd].
  { destruct Hinv as [HW|[HL|HO]].
    - split; [|intros; by apply (wa_dom _ HW)]. unfold currentUID. destruct (wa_live _ HW) as (_ & _ & ->). by eexists.
    - split; [by apply current_Live|]. intros. by apply (seats_dom _ _ (Live_seats _ HL)).
    - exfalso. destruct HO as (? & _). congruence. }
  destruct (snapPlayers_Ok _ _ Hd) as [ps Hps]. unfold snapshotFor. rewrite Hu. cbn [rbind]. rewrite Hps. by eexists.
Qed.

(** C4. No handler panics: in every state a room can reach, [OnMessage],
    [Tick] and [OnTimeout] return, and so do [OnJoin] and [OnLeave] as long as
    the room actor calls them (a closing room does not), all within the
    recursion bounds of the chains of automatic moves. The closure of a turn
    timer and the snapshot for a returning player return until the game ends.
    After the end nothing is claimed of a closure that was already in the
    mailbox: it may panic ([stale_timer_panics]); but whatever it leaves behind,
    a message, a tick and the room's timeout still return and change nothing. *)
Theorem game_never_panics r s :
  out r = [] → greach (newGame r) s →
  (∀ uid id req, ∃ s', OnMessage uid id req s = Ok s') ∧ (∃ s', Tick s = Ok s') ∧ (∃ s', OnTimeout s = Ok s') ∧
  (closing (rm s) = false → ∀ uid, ∃ s', OnLeave uid s = Ok s') ∧
  (closing (rm s) = false → ∀ uid, (length (order (lg s)) < 3)%nat → uid ∉ order (lg s) →
    ∃ s', OnJoin uid s = Ok s') ∧
  (finished (lg s) = false → ∀ uid, (∃ s', turnTimeout uid s = Ok s') ∧ ∃ sn, snapshotFor uid (lg s) = Ok sn) ∧
  (finished (lg s) = true → closing (rm s) = true ∧
    ∀ left, finished (lg left) = true →
      (∀ uid id req, OnMessage uid id req left = Ok left) ∧ Tick left = Ok left ∧ OnTimeout left = Ok left).
Proof.
  intros Ho Hr. pose proof (reach_GInv r s Ho Hr) as Hinv.
  assert (Hpost : ∀ m : res st, run m Post → ∃ s', m = Ok s').
  { intros m (x & ? & _)%run_exists. eauto. }
  assert (Hend : ∀ y, finished (lg y) = true →
    (∀ uid id req, OnMessage uid id req y = Ok y) ∧ Tick y = Ok y ∧ OnTimeout y = Ok y).
  { intros y Hy. split_and!; [intros; by apply idle_Ok; right|by apply (idle_Ok y EmptyString 0 OtherReq); right|].
    unfold OnTimeout. by rewrite Hy. }
  destruct Hinv as [HW|[HL|HO]].
  - pose proof (idle_Ok s EmptyString 0 OtherReq (or_introl (proj1 (wa_live _ HW)))) as [_ Ht].
    destruct (wa_live _ HW) as (W1 & W2 & W3). split_and!; [|by eauto| | | | |congruence].
    + intros. exists s. by apply idle_Ok; left.
    + unfold OnTimeout. rewrite W2, W3. by eexists.
    + intros _ uid. destruct (OnLeave_Waiting uid s HW) as (s' & ? & _). eauto.
    + intros _ uid _ Hu. apply OnJoin_Waiting, run_exists in Hu as (s' & ? & _); eauto.
    + intros _ uid. split; [|apply snapshot_Ok; [by left|done]]. unfold turnTimeout. rewrite W3. by eexists.
  - split_and!.
    + intros. by apply Hpost, OnMessage_Live.
    + by apply Hpost, Tick_Live.
    + destruct (OnTimeout_Live s HL) as (s' & ? & _). eauto.
    + intros _ uid. destruct (OnLeave_Live uid s HL) as (s' & ? & _). eauto.
    + intros _ uid Hl. pose proof (seats_three _ _ (Live_seats _ HL)). lia.
    + intros Hf uid. split; [by apply Hpost, turnTimeout_Live|]. apply snapshot_Ok; [by right; left|done].
    + destruct (Live_started s HL) as [_ ->]. done.
  - destruct HO as (O1 & O2 & O3). destruct (Hend s O1) as (E1 & E2 & E3).
    split_and!; [intros; eexists; apply E1|eauto..| | |].
    + by rewrite O2.
    + by rewrite O2.
    + by rewrite O1.
    + done.
Qed.

(** The three cards that are nobody's until the landlord is known. *)
Definition aside (l : Logic) : list Card := if stage l =? StageBidding then landlord3 l else [].

(** C5. The 54 cards are conserved: while a game is on, the three hands, the
    landlord's cards still aside and the cards on the table are exactly the
    deck, whatever was bid, played, rejected or redealt. *)
Theorem cards_conserved r s :
  out r = [] → greach (newGame r) s → started (lg s) = true → finished (lg s) = false →
  seats (order (lg s)) (players (lg s)) ∧
  handsOf (players (lg s)) ++ aside (lg s) ++ played (out (rm s)) ≡ₚ fullDeck.
Proof.
  intros Ho Hr Hst Hf. destruct (reach_GInv r s Ho Hr) as [HW|[HL|HO]].
  - destruct (wa_live _ HW) as (? & _). congruence.
  - split; [by apply Live_seats|]. unfold aside. destruct HL as [HB|HP].
    + destruct (bi_live _ HB) as (_ & _ & ->). cbn [Z.eqb Pos.eqb StageBidding].
      rewrite (bi_table _ HB), app_nil_r. apply (dealt_deck _ _ _ (bi_dealt _ HB)).
    + destruct (pi_live _ HP) as (_ & _ & ->). cbn [Z.eqb Pos.eqb StageBidding StagePlaying].
      apply (pi_cards _ HP).
  - destruct HO as (? & _). congruence.
Qed.

(** C6. Hands stay private: nothing a room ever broadcasts, snapshots or
    stores contains a hand; hands leave only as a push to one player. *)
Theorem hands_private r s : out r = [] → greach (newGame r) s → Forall public (out (rm s)).
Proof.
  intros Ho Hr. destruct (reach_GInv r s Ho Hr) as [HW|[HL|HO]].
  - apply (wa_trace _ HW).
  - by apply Live_public.
  - apply HO.
Qed.

(** C7. A message that ends the game settles it correctly: the room closes,
    some player has emptied the hand and the result names the landlord's side
    the winner exactly when that player is the landlord; all gold moved so far
    sums to zero and no card was lost. *)
Theorem game_settled r s uid id req s' :
  out r = [] → greach (newGame r) s → finished (lg s) = false →
  OnMessage uid id req s = Ok s' → finished (lg s') = true →
  closing (rm s') = true ∧ gold (out (rm s')) = 0 ∧
  handsOf (players (lg s')) ++ played (out (rm s')) ≡ₚ fullDeck ∧
  ∃ u p to fs, players (lg s') !! u = Some p ∧ hand p = [] ∧
    EvBroadcast to MsgResult (ResultNtf (roomID (rm s')) (landlord (lg s')) fs
      (bool_decide (u = landlord (lg s'))) (baseScore (lg s'))) ∈ out (rm s').
Proof.
  intros Ho Hr Hf E Hfin. destruct (reach_GInv r s Ho Hr) as [HW|[HL|(? & _)]]; [| |congruence].
  - destruct (idle_Ok s uid id req) as [Hi _]; [left; apply HW|]. congruence.
  - pose proof (OnMessage_Live uid id req s HL) as Hp. rewrite E in Hp.
    destruct Hp as [Hs'|[D1 D2 D3 [D4 _] D5]]; [apply Live_started in Hs'; naive_solver congruence|].
    by split_and!.
Qed.

(** A play the rules allow for [uid] in [s]: cards with those ids are in the
    hand, they form a valid type and beat what another player laid down. *)
Definition legalPlay (s : st) (uid : string) (ids : list Z) (sel kept : list Card) : Prop :=
  ∃ hp, players (lg s) !! uid = Some hp ∧ hand hp ≡ₚ kept ++ sel ∧ ID <$> sel ≡ₚ ids ∧
    fst (classify sel) ≠ TypeInvalid ∧
    ∀ lp, lastPlayed (lg s) = Some lp → pUID lp ≠ uid →
      canBeat (fst (classify sel)) (snd (classify sel)) (zlen sel)
        (pType lp) (mainRankOf (pCards lp)) (zlen (pCards lp)) = true.

(** What one shown play leads to: its broadcast, then the turn of the player in
    seat [c]. *)
Definition shown (s s' : st) (p : PlayedNtf) (c : Z) : Prop :=
  ∃ to to' u es, index (order (lg s)) c = Ok u ∧
    out (rm s') = out (rm s) ++ EvBroadcast to MsgPlayed (PlayedMsg p) ::
      EvBroadcast to' MsgTurn (TurnNtf u (landlord (lg s)) (baseScore (lg s)) (nowMs (rm s) + TurnTimeout)) :: es.

(** Nothing changed, up to the order of the cards in the hand of [uid]. *)
Definition untouched (s s' : st) (uid : string) : Prop :=
  rm s' = rm s ∧ ∃ ps, lg s' = set_players ps (lg s) ∧
    (∀ u, u ≠ uid → ps !! u = players (lg s) !! u) ∧
    option_Forall2 (fun p q => hand p ≡ₚ hand q ∧ alive p = alive q) (players (lg s) !! uid) (ps !! uid).

Lemma untouched_refl s uid : untouched s s uid.
Proof.
  split; [done|]. exists (players (lg s)). split; [by destruct (lg s)|]. split; [done|].
  destruct (players (lg s) !! uid); by constructor.
Qed.

Lemma nextTurn_turn fuel free s s' :
  nextTurn_ (applyPlay fuel) free s = Ok s' →
  ∃ to u es, index (order (lg s)) (cur (lg s)) = Ok u ∧ out (rm s') = out (rm s) ++
    EvBroadcast to MsgTurn (TurnNtf u (landlord (lg s)) (baseScore (lg s)) (nowMs (rm s) + TurnTimeout)) :: es.
Proof.
  unfold nextTurn_, autoPlay_. destruct (index (order (lg s)) (cur (lg s))) as [uid| |]; cbn [rbind]; [|done..].
  cbv zeta. match goal with |- context [memberOffline (rm ?x) uid] => set (s1 := x) end. intros E.
  assert (H1 : ext s1 s').
  { destruct (memberOffline (rm s1) uid); [|injection E as <-; apply setTurnTimer_ext]. revert E.
    destruct free; [|apply applyPlay_ext]. destruct (players (lg s1) !! uid) as [hp|]; [|done].
    destruct (hand hp); apply applyPlay_ext. }
  destruct H1 as [es ->]. exists (recipients (rm s) []), uid, es. split; [done|].
  unfold s1. by destruct free; cbn; rewrite <- app_assoc.
Qed.

Lemma shown_turn s s1 s' to p c :
  out (rm s1) = out (rm s) ++ [EvBroadcast to MsgPlayed (PlayedMsg p)] →
  order (lg s1) = order (lg s) → landlord (lg s1) = landlord (lg s) → baseScore (lg s1) = baseScore (lg s) →
  nowMs (rm s1) = nowMs (rm s) → cur (lg s1) = c →
  (∃ fuel free, nextTurn_ (applyPlay fuel) free s1 = Ok s') → shown s s' p c.
Proof.
  intros Ho H1 H2 H3 H4 <- (fuel & free & (to' & u & es & Hu & E)%nextTurn_turn).
  exists to, to', u, es. rewrite H1, H2, H3, H4, Ho, <- app_assoc in *. by rewrite E.
Qed.

Lemma applyPlay_pass fuel uid s s' :
  applyPlay (S fuel) uid [] s = Ok s' →
  untouched s s' uid ∨
  ∃ lp c, lastPlayed (lg s) = Some lp ∧
    (if passCount (lg s) + 1 >=? 2 then c = indexOf (pUID lp) (lg s) else nextIndex (cur (lg s)) (lg s) = Ok c) ∧
    shown s s' (mkPlayed uid [] TypeInvalid true) c.
Proof.
  cbn [applyPlay]. destruct (players (lg s) !! uid) as [hp|]; [|intros [= <-]; left; apply untouched_refl].
  destruct (lastPlayed (lg s)) as [lp|]; [|intros [= <-]; left; apply untouched_refl]. cbv zeta.
  cbn [onL onR lg passCount set_passCount]. intros E. right. exists lp. revert E.
  destruct (passCount (lg s) + 1 >=? 2).
  - intros E. eexists. split_and!; [done..|]. eapply shown_turn; [..|do 2 eexists; exact E]; reflexivity.
  - match goal with |- context [nextIndex ?a ?b] => change (nextIndex a b) with (nextIndex (cur (lg s)) (lg s)) end.
    destruct (nextIndex (cur (lg s)) (lg s)) as [c| |]; cbn [rbind]; [|done..].
    intros E. exists c. split_and!; [done..|]. eapply shown_turn; [..|do 2 eexists; exact E]; reflexivity.
Qed.

Lemma applyPlay_legal fuel uid id ids s s' :
  applyPlay (S fuel) uid (id :: ids) s = Ok s' →
  untouched s s' uid ∨
  ∃ sel kept, legalPlay s uid (id :: ids) sel kept ∧
    ((kept = [] ∧ ∃ to es, out (rm s') = out (rm s) ++
        EvBroadcast to MsgPlayed (PlayedMsg (mkPlayed uid sel (fst (classify sel)) false)) :: es ∧
        finished (lg s') = true) ∨
     ∃ c, kept ≠ [] ∧ nextIndex (cur (lg s)) (lg s) = Ok c ∧
       shown s s' (mkPlayed uid sel (fst (classify sel)) false) c).
Proof.
  cbn [applyPlay]. destruct (players (lg s) !! uid) as [hp|] eqn:Hp; [|intros [= <-]; left; apply untouched_refl].
  destruct (takeCards (hand hp) (id :: ids)) as [[sel kept]|] eqn:Et; [|intros [= <-]; left; apply untouched_refl].
  apply takeCards_Some in Et as [Hh Hids].
  unfold setHand. rewrite Hp. cbn [rbind lg rm players set_players]. rewrite lookup_insert_eq.
  cbn [rbind alive]. rewrite insert_insert_eq.
  assert (Hback : untouched s (mkSt (set_players (<[uid := mkPlayer (sortCards (kept ++ sel)) (alive hp)]>
    (players (lg s))) (lg s)) (rm s)) uid).
  { split; [done|]. eexists. split; [reflexivity|]. rewrite lookup_insert_eq, Hp. split.
    - intros u Hu. by rewrite lookup_insert_ne.
    - constructor. cbn [hand alive]. by rewrite sortCards_perm, Hh. }
  destruct (classify sel) as [typ mr] eqn:Ecl.
  destruct (decide (typ = TypeInvalid)) as [|Hty]; [intros [= <-]; by left|].
  set (blocked := match lastPlayed _ with Some _ => _ | None => _ end).
  destruct blocked eqn:Eb; [intros [= <-]; by left|]. intros E. right. exists sel, kept. rewrite Ecl. split.
  - exists hp. rewrite Ecl. split_and!; try done. intros lp Hlp Hne. subst blocked. cbn [lg set_players lastPlayed] in Eb.
    rewrite Hlp in Eb. rewrite decide_True in Eb by done. by apply negb_false_iff.
  - revert E. destruct (decide (kept = [])); cbn [fst].
    + intros [= <-]. left. split; [done|]. match goal with |- context [finish ?w ?x] => set (s1 := x); set (b := w) end.
      destruct (finish_ext b s1) as [es Hes]. exists (recipients (rm s) []), es. rewrite Hes. split.
      * unfold s1. cbn. by rewrite <- app_assoc.
      * unfold finish. destruct (finished (lg s1)) eqn:Hf; [done|]. cbn. unfold clearTurnTimer. by case_match.
    + cbn [onL onR lg set_cur].
      match goal with |- context [nextIndex ?a ?b] => change (nextIndex a b) with (nextIndex (cur (lg s)) (lg s)) end.
      destruct (nextIndex (cur (lg s)) (lg s)) as [c| |]; cbn [rbind]; [|done..].
      intros E. right. exists c. split_and!; [done..|]. eapply shown_turn; [..|do 2 eexists; exact E]; reflexivity.
Qed.

(** C8. The server is authoritative over plays: a play request either changes
    nothing at all (up to the order of the cards in the sender's own hand), or
    the sender is the player to move in the playing stage and it is one of two
    things. A play, whose broadcast shows exactly the cards asked for, which
    the sender holds, which form a valid type and which beat the last play of
    another player. A pass, while there is a play on the table. The broadcast
    is followed at once by the turn of the next seat (after the second pass in
    a row, of the player whose play stands), unless the play emptied the hand,
    which ends the game. *)
Theorem play_authoritative uid ids s s' :
  OnMessage uid MsgPlay (PlayReq ids) s = Ok s' →
  untouched s s' uid ∨
  currentUID (lg s) = Ok uid ∧ stage (lg s) = StagePlaying ∧
  ((∃ sel kept, legalPlay s uid ids sel kept ∧
     ((kept = [] ∧ ∃ to es, out (rm s') = out (rm s) ++
         EvBroadcast to MsgPlayed (PlayedMsg (mkPlayed uid sel (fst (classify sel)) false)) :: es ∧
         finished (lg s') = true) ∨
      ∃ c, kept ≠ [] ∧ nextIndex (cur (lg s)) (lg s) = Ok c ∧
        shown s s' (mkPlayed uid sel (fst (classify sel)) false) c)) ∨
   ids = [] ∧ ∃ lp c, lastPlayed (lg s) = Some lp ∧
     (if passCount (lg s) + 1 >=? 2 then c = indexOf (pUID lp) (lg s) else nextIndex (cur (lg s)) (lg s) = Ok c) ∧
     shown s s' (mkPlayed uid [] TypeInvalid true) c).
Proof.
  unfold OnMessage. assert (Hsame : ∀ x, Ok s = Ok x → untouched s x uid) by (intros ? [= <-]; apply untouched_refl).
  destruct (negb (started (lg s)) || finished (lg s)); [by left; apply Hsame|].
  destruct (currentUID (lg s)) as [c| |] eqn:Ec; cbn [rbind]; [|done..].
  destruct (decide (uid ≠ c)) as [|Hu]; [by left; apply Hsame|].
  apply dec_stable in Hu as ->. cbn [Z.eqb Pos.eqb MsgPlay MsgCall].
  destruct (Z.eqb_spec (stage (lg s)) StagePlaying) as [Hstg|]; cbn [negb]; [|by left; apply Hsame].
  unfold playFuel. destruct ids as [|id ids].
  - intros [?|H1]%applyPlay_pass; [by left|]. right. eauto.
  - intros [?|H1]%applyPlay_legal; [by left|]. right. eauto.
Qed.

(** Dealing is fair: with three seated players, [deal] gives each 17
    cards and lays 3 aside, and together these are the 54 cards of the deck. *)
Theorem deal_fair s :
  seats (order (lg s)) (players (lg s)) →
  ∃ s', deal s = Ok s' ∧ seats (order (lg s')) (players (lg s')) ∧
    (∀ u p, players (lg s') !! u = Some p → length (hand p) = 17%nat) ∧
    length (landlord3 (lg s')) = 3%nat ∧ handsOf (players (lg s')) ++ landlord3 (lg s') ≡ₚ fullDeck.
Proof.
  intros Hs. pose proof (deal_run s Hs) as (s' & E & sd & ps & l3 & Hl & [D1 D2 D3 D4] & _)%run_exists.
  exists s'. split; [done|]. rewrite Hl. done.
Qed.

(** Exactness. [takeCards] takes exactly the cards asked for: on a hand without
    duplicate cards it fails exactly when the request repeats an id or names a
    card outside the hand, and otherwise splits the hand into the requested
    cards and the rest. *)
Theorem takeCards_exact h ids :
  NoDup (ID <$> h) →
  match takeCards h ids with
  | None => ¬ (NoDup ids ∧ ids ⊆ ID <$> h)
  | Some (taken, kept) => (NoDup ids ∧ ids ⊆ ID <$> h) ∧ h ≡ₚ kept ++ taken ∧ ID <$> taken ≡ₚ ids
  end.
Proof.
  intros Hnd. destruct (takeCards h ids) as [[taken kept]|] eqn:E.
  - split; [|by apply takeCards_Some]. apply dec_stable. intros Hn.
    apply (takeCards_None_iff h ids Hnd) in Hn. congruence.
  - by apply (takeCards_None_iff h ids Hnd).
Qed.

Lemma settlement_gold l win :
  gold (settlement l win) =
  (if win then 1 else -1) * (2 * baseScore l - baseScore l * zlen (farmersOf l)).
Proof.
  unfold settlement, zlen. destruct win; cbn [gold goldIn]; rewrite decide_True by done.
  - rewrite (gold_const _ (- baseScore l)) by done. lia.
  - rewrite (gold_const _ (baseScore l)) by done. lia.
Qed.

(** The farmers left when [uid] is removed from the table. *)
Lemma farmers_after_leave l uid :
  seats (order l) (players l) → landlord l ∈ order l → uid ∈ order l →
  zlen (farmersOf (set_order (remove_first uid (order l)) (set_players (delete uid (players l)) l)))
  = if decide (uid = landlord l) then 2 else 1.
Proof.
  intros Hs Hll Hu. unfold farmersOf. cbn [landlord players set_order set_players].
  assert (Hkeys : (map_to_list (delete uid (players l))).*1 ≡ₚ remove_first uid (order l)).
  { apply NoDup_Permutation; [apply NoDup_fst_map_to_list|apply NoDup_remove_first, (seats_nodup _ _ Hs)|].
    intros v. rewrite elem_of_remove_first by apply (seats_nodup _ _ Hs). rewrite (seats_dom _ _ Hs).
    rewrite list_elem_of_fmap. split.
    - intros ([v' p] & -> & Hv). apply elem_of_map_to_list, lookup_delete_Some in Hv as [? ?]. cbn. naive_solver.
    - intros [[p Hp] Hne]. exists (v, p). split; [done|].
      apply elem_of_map_to_list. by rewrite lookup_delete_ne. }
  unfold zlen. rewrite Hkeys.
  pose proof (NoDup_remove_first uid _ (seats_nodup _ _ Hs)) as Hnd.
  rewrite <- remove_first_filter by done. pose proof (length_remove_first _ _ Hu) as H1.
  pose proof (seats_three _ _ Hs) as H3. case_decide as E.
  - subst uid. rewrite (remove_first_notin (landlord l)); [lia|].
    intros Hin. apply elem_of_remove_first in Hin; [naive_solver|apply (seats_nodup _ _ Hs)].
  - assert (Hin : landlord l ∈ remove_first uid (order l)).
    { apply elem_of_remove_first; [apply (seats_nodup _ _ Hs)|naive_solver]. }
    pose proof (length_remove_first _ _ Hin). lia.
Qed.

(** A player who leaves during play ends the game as a farmers' win,
    whoever leaves: the landlord pays twice the base score and every remaining
    farmer receives it once. The transfers sum to zero only when it is the
    landlord who left; when a farmer leaves, one base score vanishes. *)
Theorem leave_settlement r s uid :
  out r = [] → greach (newGame r) s → stage (lg s) = StagePlaying → finished (lg s) = false →
  uid ∈ order (lg s) →
  ∃ s' to fs, OnLeave uid s = Ok s' ∧ finished (lg s') = true ∧ closing (rm s') = true ∧
    EvBroadcast to MsgResult (ResultNtf (roomID (rm s)) (landlord (lg s)) fs false (baseScore (lg s)))
      ∈ out (rm s') ∧
    gold (out (rm s')) = if decide (uid = landlord (lg s)) then 0 else - baseScore (lg s).
Proof.
  intros Ho Hr Hstg Hf Hu. destruct (reach_GInv r s Ho Hr) as [HW|[[HB|HP]|(HO & _)]].
  - destruct (wa_live _ HW) as (_ & _ & Hx). by rewrite Hx in Hstg.
  - destruct (bi_live _ HB) as (_ & _ & Hx). by rewrite Hx in Hstg.
  - destruct (pi_live _ HP) as (Hst & _ & _). unfold OnLeave.
    set (s1 := onR _ (onL _ s)). replace (started (lg s1) && negb (finished (lg s1))) with true
      by (cbn [s1 onR onL lg started finished set_order set_players]; rewrite Hst, Hf; reflexivity).
    destruct (finish_out false s1) as (es & Ho1 & Hq & Hc & Hid & Hl); [done|].
    do 3 eexists. split; [reflexivity|]. rewrite Hl, Ho1. split; [done|]. split; [done|]. split.
    + apply elem_of_app. right. apply elem_of_app. left. apply list_elem_of_singleton. reflexivity.
    + assert (Hg : gold (out (rm s1)) = 0).
      { cbn [s1 onR onL rm Broadcast emit emits out]. rewrite gold_app. pose proof (proj1 (pi_trace _ HP)). cbn. lia. }
      rewrite !gold_app, Hg, (gold_quiet es Hq), settlement_gold.
      cbn [gold goldIn]. cbn [s1 onR onL lg].
      rewrite (farmers_after_leave (lg s) uid (pi_seats _ HP) (pi_landlord _ HP) Hu).
      change (baseScore (set_order _ (set_players _ (lg s)))) with (baseScore (lg s)).
      case_decide; lia.
  - congruence.
Qed.
End Game.

(** ** A concrete game *)

(** A room with three connected members. *)
Definition demoRoom : room :=
  mkRctx "r1" (list_to_map [("a", true); ("b", true); ("c", true)]) ["a"; "b"; "c"] false true true ∅ 0 true 0 [].

Definition getOk (m : res st) : st := match m with Ok s => s | _ => mkSt NewLogic demoRoom end.

Definition join (uid : string) (s : st) : st := getOk (OnJoin uid s).
Definition call (uid : string) (score : Z) (s : st) : st := getOk (OnMessage uid MsgCall (CallReq score) s).
Definition isOk (m : res st) : bool := match m with Ok _ => true | _ => false end.

Lemma getOk_step m : isOk m = true → m = Ok (getOk m).
Proof. by destruct m. Qed.

Lemma join_step s0 uid s :
  greach s0 s → closing (rm s) = false → (length (order (lg s)) <? 3)%nat = true →
  bool_decide (uid ∉ order (lg s)) = true → isOk (OnJoin uid s) = true → greach s0 (join uid s).
Proof.
  intros Hr Hc Hl Hu Ho. eapply gr_step; [exact Hr|]. eapply gs_join; [done| | |by apply getOk_step].
  - by apply Nat.ltb_lt.
  - by apply bool_decide_eq_true in Hu.
Qed.

Lemma call_step s0 uid score s :
  greach s0 s → isOk (OnMessage uid MsgCall (CallReq score) s) = true → greach s0 (call uid score s).
Proof. intros Hr Ho. eapply gr_step; [exact Hr|]. by eapply gs_msg, getOk_step. Qed.

Definition demoSeated : st := join "c" (join "b" (join "a" (newGame demoRoom))).
(** The third player bids three and becomes the landlord. *)
Definition demoPlaying : st := call "c" 3 (call "b" 0 (call "a" 0 demoSeated)).

Ltac by_compute := vm_compute; reflexivity.

Lemma demoSeated_reach : greach (newGame demoRoom) demoSeated.
Proof. do 3 (apply join_step; [|by_compute..]). apply gr_start. Qed.

Lemma demoPlaying_reach : greach (newGame demoRoom) demoPlaying.
Proof. do 3 (apply call_step; [|by_compute]). apply demoSeated_reach. Qed.

Lemma game_never_panics_witness :
  isOk (OnMessage "a" MsgCall (CallReq 2) demoSeated) = true ∧ isOk (Tick demoPlaying) = true.
Proof.
  split.
  - destruct (proj1 (game_never_panics demoRoom demoSeated eq_refl demoSeated_reach) "a" MsgCall (CallReq 2))
      as [s' ->]. reflexivity.
  - destruct (proj1 (proj2 (game_never_panics demoRoom demoPlaying eq_refl demoPlaying_reach))) as [s' ->].
    reflexivity.
Defined.

Lemma cards_conserved_witness : 
  handsOf (players (lg demoPlaying)) ++ aside (lg demoPlaying) ++ played (out (rm demoPlaying)) ≡ₚ fullDeck.
Proof.
  exact (proj2 (cards_conserved demoRoom demoPlaying eq_refl demoPlaying_reach
    ltac:(vm_compute; reflexivity) ltac:(vm_compute; reflexivity))).
Defined.

Lemma hands_private_witness : Forall public (out (rm demoPlaying)).
Proof. exact (hands_private demoRoom demoPlaying eq_refl demoPlaying_reach). Defined.

(** The landlord leads the lowest card; the two offline farmers pass. *)
Definition lead (s : st) : st := getOk (OnMessage "c" MsgPlay (PlayReq
  match players (lg s) !! "c"%string with Some hp => ID <$> take 1 (hand hp) | None => [] end) s).

Lemma lead_step s0 s : greach s0 s → isOk (OnMessage "c" MsgPlay (PlayReq
  match players (lg s) !! "c"%string with Some hp => ID <$> take 1 (hand hp) | None => [] end) s) = true →
  greach s0 (lead s).
Proof. intros Hr Ho. eapply gr_step; [exact Hr|]. by eapply gs_msg, getOk_step. Qed.

Definition loneRoom : room :=
  mkRctx "r1" (list_to_map [("a", false); ("b", false); ("c", true)]) ["a"; "b"; "c"] false true true ∅ 0 true 0 [].
Definition loneLast : st :=
  Nat.iter 19 lead (call "c" 3 (join "c" (join "b" (join "a" (newGame loneRoom))))).

Lemma loneLast_reach : greach (newGame loneRoom) loneLast.
Proof.
  unfold loneLast. do 19 (apply lead_step; [|by_compute]). apply call_step; [|by_compute].
  do 3 (apply join_step; [|by_compute..]). apply gr_start.
Qed.

Lemma game_settled_witness : gold (out (rm (lead loneLast))) = 0 ∧ closing (rm (lead loneLast)) = true.
Proof.
  destruct (game_settled loneRoom loneLast "c" MsgPlay (PlayReq
    match players (lg loneLast) !! "c"%string with Some hp => ID <$> take 1 (hand hp) | None => [] end)
    (lead loneLast) eq_refl loneLast_reach) as (H1 & H2 & _).
  - by_compute.
  - apply getOk_step. by_compute.
  - by_compute.
  - split; [exact H2|exact H1].
Defined.

Lemma play_authoritative_witness :
  currentUID (lg loneLast) = Ok "c"%string ∧ out (rm (lead loneLast)) ≠ out (rm loneLast).
Proof.
  assert (Hne : out (rm (lead loneLast)) ≠ out (rm loneLast)).
  { intros E. apply (f_equal length) in E. revert E. vm_compute. discriminate. }
  split; [|exact Hne].
  destruct (play_authoritative "c"
    [match players (lg loneLast) !! "c"%string with Some hp => match hand hp with x :: _ => ID x | [] => 0 end | None => 0 end]
    loneLast (lead loneLast)) as [(E & _)|(Hc & _)].
  - by_compute.
  - destruct (Hne (f_equal out E)).
  - exact Hc.
Defined.

Lemma demoSeated_seats : seats (order (lg demoSeated)) (players (lg demoSeated)).
Proof.
  destruct (reach_GInv demoRoom demoSeated eq_refl demoSeated_reach) as [HW|[HL|(HO & _)]].
  - destruct (wa_live _ HW) as (Hs & _). revert Hs. vm_compute. discriminate.
  - by apply Live_seats.
  - revert HO. vm_compute. discriminate.
Qed.

Lemma deal_fair_witness :
  seats (order (lg demoSeated)) (players (lg demoSeated)) ∧ isOk (deal demoSeated) = true.
Proof.
  split; [exact demoSeated_seats|]. destruct (deal_fair demoSeated demoSeated_seats) as (s' & -> & _). reflexivity.
Defined.

Lemma takeCards_exact_witness :
  takeCards [mkCard 0 5 (-1); mkCard 1 5 (-1); mkCard 2 7 (-1)] [ID (mkCard 1 5 (-1)); ID (mkCard 1 9 (-1))] = None ∧
  ¬ (NoDup [ID (mkCard 1 5 (-1)); ID (mkCard 1 9 (-1))] ∧
     [ID (mkCard 1 5 (-1)); ID (mkCard 1 9 (-1))] ⊆ ID <$> [mkCard 0 5 (-1); mkCard 1 5 (-1); mkCard 2 7 (-1)]).
Proof.
  split; [by_compute|].
  exact (takeCards_exact [mkCard 0 5 (-1); mkCard 1 5 (-1); mkCard 2 7 (-1)] [ID (mkCard 1 5 (-1)); ID (mkCard 1 9 (-1))]
    ltac:(apply (bool_decide_eq_true_1 _); vm_compute; reflexivity)).
Defined.

Lemma leave_settlement_witness :
  ∃ s', OnLeave "a" demoPlaying = Ok s' ∧ gold (out (rm s')) = -3.
Proof.
  destruct (leave_settlement demoRoom demoPlaying "a" eq_refl demoPlaying_reach) as (s' & to & fs & E & _ & _ & _ & Hg).
  - by_compute.
  - by_compute.
  - apply (bool_decide_eq_true_1 _). by_compute.
  - exists s'. split; [exact E|]. rewrite Hg. by_compute.
Defined.

(** Finding. A turn timer that fired before the game ended is still in the mailbox
    when a leaving player ends it, and cancelling does not withdraw it. Its
    closure then finds the stage still [StagePlaying] and the seat list
    shortened: in a reachable game it indexes past the end and panics. *)
Theorem stale_timer_panics :
  ∃ s h s', greach (newGame demoRoom) s ∧ timers (rm s) !! h = Some "c"%string ∧
    finished (lg s) = false ∧ OnLeave "a" s = Ok s' ∧ finished (lg s') = true ∧
    turnTimeout "c" s' = Panic.
Proof.
  exists demoPlaying, (default 0%nat (turnTimer (lg demoPlaying))), (getOk (OnLeave "a" demoPlaying)).
  split; [exact demoPlaying_reach|]. split_and!; by_compute.
Qed.
