(* ===== verification/Scenarios.v ===== *)
(** * The benchmark scenarios (bench/bot/scenarios.go)

    The behaviour of one bot in each scenario.  The players of the snake and
    doudizhu scenarios are state machines driven by the frames they receive;
    a frame is its message id with the decoded body, and a body of another type
    stands for one that does not decode.  The load scenarios are driven by
    ticks.  The totals of a run are computed as [runScenario] does. *)

From Stdlib Require Import SpecFloat.
From S2P Require Import Prelude RoomCtx MatchRedis Bot DdzCards Doudizhu.

(** ** The doudizhu player *)

Definition msgDDZDeal : Z := 0x1310.
Definition msgDDZStage : Z := 0x1311.
Definition msgDDZCall : Z := 0x1312.
Definition msgDDZPlayed : Z := 0x1313.
Definition msgDDZTurn : Z := 0x1314.
Definition msgDDZResult : Z := 0x1316.
Definition ddzStageBidding : Z := 1.
Definition ddzStagePlaying : Z := 2.

(** [ddzCardID]; the client's card has the fields of the room's. *)
Definition ddzCardID (c : Card) : Z :=
  if decide (Joker c >= 0) then 100 + Joker c else Suit c * 100 + Rank c.

(** The last real play the bot has seen. *)
Record lastPlay := mkLast { lpUID : string; lpCards : list Card; lpPass : bool }.

Section Pick.
Context `{CardSort}.

(** [pickSinglePlay]: an empty result is a pass.  [cp] has the length of the
    hand, so [cp[0]] exists. *)
Definition pickSinglePlay (hand : list Card) (last : option lastPlay) (uid : string) : list Z :=
  match hand with
  | [] => []
  | _ :: _ =>
      let cp := sortCards hand in
      let free := match last with None => true | Some l => lpPass l || bool_decide (lpUID l = uid) end in
      if free then match cp with c :: _ => [ddzCardID c] | [] => [] end else
      let cards := match last with Some l => lpCards l | None => [] end in
      let lastMain := foldl (fun m c => if Rank c >? m then Rank c else m) 0 cards in
      match list_find (fun c => Rank c > lastMain) cp with
      | Some (_, c) => [ddzCardID c]
      | None => []
      end
  end.
End Pick.

(** [removeCards] *)
Definition removeCards (hand played : list Card) : list Card :=
  let rm : gset Z := list_to_set (ddzCardID <$> played) in
  filter (fun c => ddzCardID c ∉ rm) hand.

(** The outcome a bot records. *)
Record DdzOutcome := mkOutcome { oLandlord : string; oLandlordWin : bool; oBaseScore : Z }.

(** The variables of a bot's goroutine; [agOver] once it has returned, with
    the result it wrote if the frame decoded. *)
Record agent := mkAgent {
  agHand : list Card;
  agStage : Z;
  agCur : string;
  agMax : Z;
  agLast : option lastPlay;
  agOver : option (option DdzOutcome) }.

Definition newAgent : agent := mkAgent [] 0 ""%string 0 None None.

Section Agent.
Context `{CardSort}.

(** [act]: the request sent when it is the bot's turn. *)
Definition act (uid : string) (a : agent) : option (Z * dreq) :=
  if decide (agCur a ≠ uid) then None else
  if decide (agStage a = ddzStageBidding) then
    let score := if decide (agMax a < 3) then agMax a + 1 else 0 in
    Some (0x1300, CallReq score)
  else if decide (agStage a = ddzStagePlaying) then
    Some (0x1301, PlayReq (pickSinglePlay (agHand a) (agLast a) uid))
  else None.

(** One frame: the variables after it and the request it makes the bot send. *)
Definition onFrame (uid : string) (f : Z * dmsg) (a : agent) : agent * option (Z * dreq) :=
  let '(id, m) := f in
  if decide (id = msgDDZDeal) then
    match m with
    | HandNtf h l3 => (mkAgent (h ++ l3) (agStage a) (agCur a) (agMax a) (agLast a) (agOver a), None)
    | _ => (a, None)
    end
  else if decide (id = msgDDZStage) then
    match m with
    | StageNtf stg => (mkAgent (agHand a) stg (agCur a) (agMax a) (agLast a) (agOver a), None)
    | _ => (a, None)
    end
  else if decide (id = msgDDZCall) then
    match m with
    | CallNtf _ score _ =>
        (if score >? agMax a then mkAgent (agHand a) (agStage a) (agCur a) score (agLast a) (agOver a) else a, None)
    | _ => (a, None)
    end
  else if decide (id = msgDDZPlayed) then
    match m with
    | PlayedMsg p =>
        if pPass p then (a, None) else
        (mkAgent (if decide (pUID p = uid) then removeCards (agHand a) (pCards p) else agHand a)
                 (agStage a) (agCur a) (agMax a) (Some (mkLast (pUID p) (pCards p) false)) (agOver a), None)
    | _ => (a, None)
    end
  else if decide (id = msgDDZTurn) then
    match m with
    | TurnNtf c _ _ _ =>
        let a := mkAgent (agHand a) (agStage a) c (agMax a) (agLast a) (agOver a) in (a, act uid a)
    | _ => (a, None)
    end
  else if decide (id = msgDDZResult) then
    (mkAgent (agHand a) (agStage a) (agCur a) (agMax a) (agLast a)
       (Some match m with ResultNtf _ ll _ win base => Some (mkOutcome ll win base) | _ => None end), None)
  else (a, None).
End Agent.

(** ** The snake player *)

Definition msgSnakeState : Z := 0x1001.
Definition msgSnakeResult : Z := 0x1002.

Record PlayOutcome := mkPlay { poWinner : string; poRounds : Z }.
Record snakeBot := mkSnakeBot { sbStarted : bool; sbDir : Z; sbOver : option PlayOutcome }.
Definition newSnakeBot : snakeBot := mkSnakeBot false 1 None.

(** [res] is what the result frame decodes to (zero values on failure). *)
Definition snakeFrame (id : Z) (res : PlayOutcome) (b : snakeBot) : snakeBot :=
  if decide (id = msgSnakeState) then mkSnakeBot true (sbDir b) (sbOver b)
  else if decide (id = msgSnakeResult) then mkSnakeBot (sbStarted b) (sbDir b) (Some res)
  else b.

(** Every 300 ms: the direction sent, once the game has started. *)
Definition snakeTick (b : snakeBot) : snakeBot * option Z :=
  if sbStarted b then
    let dir := Z.rem (sbDir b) 4 + 1 in (mkSnakeBot true dir (sbOver b), Some dir)
  else (b, None).

(** ** Load scenarios *)

Inductive mode := Heartbeat | Broadcasting | Random | Reconnecting.
Inductive action := DoPing | DoMatch.

(** A tick of bot [idx] of [n]: what it sends and whether it has now asked for
    a match.  With no bots there is no tick. *)
Definition scenarioTick (md : mode) (n slowPct idx : Z) (matchSent : bool) : list action * bool :=
  match md with
  | Heartbeat => ([DoPing], matchSent)
  | Broadcasting => if matchSent then ([DoPing], true) else ([DoMatch], true)
  | Random =>
      let ping := if Z.quot (idx * 100) n >=? slowPct then [DoPing] else [] in
      if negb matchSent && (Z.rem idx 2 =? 0) then (ping ++ [DoMatch], true) else (ping, matchSent)
  | Reconnecting => ([DoPing], matchSent)
  end.

(** The number of connections cut every five seconds. *)
Definition kickCount (n reconnectPct : Z) : Z :=
  let kick := Z.quot (n * reconnectPct) 100 in if kick <? 1 then 1 else kick.

Record Result := mkResult {
  TotalBots : Z; ActiveBots : Z; TotalPings : Z; TotalPongs : Z; TotalSends : Z; TotalRecvs : Z; TotalErrors : Z;
  TotalReconnects : Z; ResLatencyAvg : spec_float; ResLatencyMax : spec_float }.

Definition fgt (a b : spec_float) : bool := match SFcompare a b with Some Gt => true | _ => false end.

(** One iteration of the summing loop. *)
Definition addMetrics (r : Result) (b : Bot) : Result :=
  let m := Metrics b in
  mkResult (TotalBots r) (ActiveBots r) (wrap_i64 (TotalPings r + mPingsSent m)) (wrap_i64 (TotalPongs r + mPongsRecv m))
    (wrap_i64 (TotalSends r + mMsgsSent m)) (wrap_i64 (TotalRecvs r + mMsgsRecv m)) (wrap_i64 (TotalErrors r + mErrors m))
    (wrap_i64 (TotalReconnects r + mReconnects m)) (ResLatencyAvg r)
    (if fgt (LatencyMaxMS m) (ResLatencyMax r) then LatencyMaxMS m else ResLatencyMax r).

(** The totals of [runScenario] over the bots it started. *)
Definition summarize (active : Z) (bots : list Bot) : Result :=
  let r := foldl addMetrics (mkResult (zlen bots) active 0 0 0 0 0 0 (float_of 0) (float_of 0)) bots in
  let totalSum := foldl (fun s b => wrap_i64 (s + latencySum b)) 0 bots in
  let totalCount := foldl (fun s b => wrap_i64 (s + latencyCount b)) 0 bots in
  if totalCount >? 0 then
    mkResult (TotalBots r) (ActiveBots r) (TotalPings r) (TotalPongs r) (TotalSends r) (TotalRecvs r) (TotalErrors r)
      (TotalReconnects r) (fdiv (fdiv (float_of totalSum) (float_of totalCount)) millis) (ResLatencyMax r)
  else r.
