(* ===== verification/BotTable.v ===== *)
(** * Bots at a table

    The doudizhu scenario composed with the room it plays in: three bots, each
    reading the frames the room sent it at its own pace, and the room serving
    the requests they send.  Any interleaving of receptions and requests is a
    run of [tstep].  This file is about the asynchrony only: if, whenever all
    frames have been read, the game answers the request of the bot to move and
    gets closer to its end, then every run comes to the end of the game and of
    every bot. *)

From S2P Require Import Prelude RoomCtx DdzCards Doudizhu Scenarios.

(** ** Frames *)

Notation frame := (Z * dmsg)%type.

Definition frameIn (u : string) (e : event dmsg) : list frame :=
  match e with
  | EvBroadcast to id m | EvSnapshot to id m => if decide (u ∈ to) then [(id, m)] else []
  | EvPush v id m => if decide (v = u) then [(id, m)] else []
  | _ => []
  end.
Definition framesTo (u : string) (es : list (event dmsg)) : list frame := es ≫= frameIn u.

Lemma framesTo_app u es es' : framesTo u (es ++ es') = framesTo u es ++ framesTo u es'.
Proof. apply bind_app. Qed.

(** The frame that tells [u] it is to move, and the last frame of a game. *)
Definition myTurn (u : string) (f : frame) : Prop :=
  f.1 = msgDDZTurn ∧ match f.2 with TurnNtf c _ _ _ => c = u | _ => False end.
Definition isResult (f : frame) : Prop := f.1 = msgDDZResult.

Section Table.
Context `{CardSort}.

Definition view (u : string) (fs : list frame) : agent := foldl (fun a f => (onFrame u f a).1) newAgent fs.

Lemma view_snoc u fs f : view u (fs ++ [f]) = (onFrame u f (view u fs)).1.
Proof. unfold view. by rewrite foldl_app. Qed.

Lemma onFrame_request u f a a' rq : onFrame u f a = (a', Some rq) → myTurn u f ∧ act u a' = Some rq.
Proof.
  destruct f as [id m]. unfold onFrame. repeat case_decide; destruct m; try done; try (by destruct (pPass p)).
  intros [= <- Ha]. split; [|done]. split; [done|]. cbn. unfold act in Ha. cbn [agCur] in Ha. by case_decide.
Qed.

Lemma onFrame_myTurn u f a : myTurn u f → (onFrame u f a).2 = act u (onFrame u f a).1.
Proof. destruct f as [id m]. intros [Hid Hm]. cbn in Hid, Hm. subst id. by destruct m. Qed.

Lemma onFrame_over u f a : ¬ isResult f → agOver (onFrame u f a).1 = agOver a.
Proof.
  destruct f as [id m]. unfold isResult, onFrame. cbn [fst]. intros Hr. repeat case_decide; destruct m; try done; cbn;
    repeat case_match; done.
Qed.

Lemma view_over u fs : Forall (fun f => ¬ isResult f) fs → agOver (view u fs) = None.
Proof.
  induction fs as [|f fs IH] using rev_ind; [done|]. intros [Hfs Hf]%Forall_app. rewrite view_snoc.
  rewrite onFrame_over by (by inversion Hf). by apply IH.
Qed.

(** ** The system *)

(** [bots]: how many frames a bot has read and its variables. *)
Record table := mkTable { game : st; bots : gmap string (nat * agent); mailbox : list (string * (Z * dreq)) }.

Definition sentTo (u : string) (s : st) : list frame := framesTo u (out (rm s)).

Inductive tstep : table → table → Prop :=
| t_recv y u k a f a' rq :
    bots y !! u = Some (k, a) → agOver a = None → sentTo u (game y) !! k = Some f → onFrame u f a = (a', rq) →
    tstep y (mkTable (game y) (<[u := (S k, a')]> (bots y))
               (mailbox y ++ match rq with Some r => [(u, r)] | None => [] end))
| t_serve y u id rq ms s' :
    mailbox y = (u, (id, rq)) :: ms → OnMessage u id rq (game y) = Ok s' → tstep y (mkTable s' (bots y) ms).

(** ** Asynchrony *)

Section Async.
Context (os : list string) (Ready : st → string → Prop) (Over : st → Prop) (gm : st → nat).
Hypothesis ready_seat : ∀ s u, Ready s u → u ∈ os.
Hypothesis ready_turn : ∀ s u, Ready s u → ∃ pre t, sentTo u s = pre ++ [t] ∧ myTurn u t.
Hypothesis ready_running : ∀ s u w, Ready s u → w ∈ os → Forall (fun f => ¬ isResult f) (sentTo w s).
Hypothesis ready_act : ∀ s u, Ready s u → is_Some (act u (view u (sentTo u s))).
Hypothesis ready_serve : ∀ s u id rq, Ready s u → act u (view u (sentTo u s)) = Some (id, rq) →
  ∃ s', OnMessage u id rq s = Ok s' ∧
    ((∃ v, Ready s' v ∧ (gm s' < gm s)%nat ∧
       ∀ w, w ∈ os → ∃ pre t, sentTo w s' = sentTo w s ++ pre ++ [t] ∧ Forall (fun f => ¬ myTurn w f) pre ∧ (myTurn w t → w = v)) ∨
     (Over s' ∧ ∀ w, w ∈ os → ∃ pre t, sentTo w s' = sentTo w s ++ pre ++ [t] ∧
        Forall (fun f => ¬ myTurn w f ∧ ¬ isResult f) pre ∧ isResult t)).

(** A bot's variables are what the frames it has read make of them. *)
Definition inStep (y : table) (w : string) : Prop :=
  ∃ k, bots y !! w = Some (k, view w (take k (sentTo w (game y)))) ∧ (k ≤ length (sentTo w (game y)))%nat.

Definition readUpTo (y : table) (w : string) : nat := match bots y !! w with Some (k, _) => k | None => O end.

(** The frames [w] has not read. *)
Definition unread (y : table) (w : string) : list frame := drop (readUpTo y w) (sentTo w (game y)).

Record Running (y : table) (u : string) : Prop := {
  ru_ready : Ready (game y) u;
  ru_bots w : is_Some (bots y !! w) → w ∈ os;
  ru_step w : w ∈ os → inStep y w;
  ru_others w f : w ∈ os → w ≠ u → f ∈ unread y w → ¬ myTurn w f;
  ru_turn pre t f : unread y u = pre ++ [t] → f ∈ pre → ¬ myTurn u f;
  ru_box : ∃ rq, act u (view u (sentTo u (game y))) = Some rq ∧
    mailbox y = if decide (unread y u = []) then [(u, rq)] else [] }.

Record Ended (y : table) : Prop := {
  en_over : Over (game y);
  en_bots w : is_Some (bots y !! w) → w ∈ os;
  en_step w : w ∈ os → inStep y w;
  en_unread w f : w ∈ os → f ∈ unread y w → ¬ myTurn w f;
  en_last w : w ∈ os → ∃ pre t, sentTo w (game y) = pre ++ [t] ∧ isResult t ∧ Forall (fun f => ¬ isResult f) pre;
  en_box : mailbox y = [] }.

Lemma inStep_read y w : inStep y w → sentTo w (game y) = take (readUpTo y w) (sentTo w (game y)) ++ unread y w.
Proof. intros _. unfold unread. by rewrite take_drop. Qed.

(** Reception of one frame. *)
Lemma recv_step y u k f : bots y !! u = Some (k, view u (take k (sentTo u (game y)))) → sentTo u (game y) !! k = Some f →
  (onFrame u f (view u (take k (sentTo u (game y))))).1 = view u (take (S k) (sentTo u (game y))) ∧
  unread y u = f :: drop (S k) (sentTo u (game y)).
Proof.
  intros Hb Hf. split.
  - rewrite (take_S_r _ _ _ Hf). by rewrite view_snoc.
  - unfold unread, readUpTo. rewrite Hb. by apply drop_S.
Qed.

Lemma readUpTo_insert y u p s ms w : readUpTo (mkTable s (<[u := p]> (bots y)) ms) w = if decide (w = u) then p.1 else readUpTo y w.
Proof.
  unfold readUpTo. cbn [bots]. case_decide as E; [subst; rewrite lookup_insert_eq; by destruct p|].
  by rewrite lookup_insert_ne.
Qed.

Lemma inStep_insert y u k ms : (k ≤ length (sentTo u (game y)))%nat → ∀ w, inStep y w →
  inStep (mkTable (game y) (<[u := (k, view u (take k (sentTo u (game y))))]> (bots y)) ms) w.
Proof.
  intros Hk w (j & Hj & Hl). unfold inStep. cbn [bots game]. destruct (decide (w = u)) as [->|Hne].
  - exists k. by rewrite lookup_insert_eq.
  - exists j. by rewrite lookup_insert_ne by done.
Qed.

Lemma bots_insert y u p s ms : (∀ w, is_Some (bots y !! w) → w ∈ os) → is_Some (bots y !! u) →
  ∀ w, is_Some (bots (mkTable s (<[u := p]> (bots y)) ms) !! w) → w ∈ os.
Proof.
  intros Hb Hu w. cbn [bots]. destruct (decide (w = u)) as [->|Hne]; [auto|]. rewrite lookup_insert_ne by done. auto.
Qed.

Lemma recv_Running y v u k a f a' rq : Running y v →
  bots y !! u = Some (k, a) → sentTo u (game y) !! k = Some f → onFrame u f a = (a', rq) →
  Running (mkTable (game y) (<[u := (S k, a')]> (bots y)) (mailbox y ++ match rq with Some r => [(u, r)] | None => [] end)) v.
Proof.
  intros [H1 H2 H3 H4 H5 (r & Hr & Hbox)] Hb Hf Ho.
  assert (Hu : u ∈ os) by (apply H2; eauto). destruct (H3 u Hu) as (k' & Hb' & Hk). rewrite Hb in Hb'. injection Hb' as <- ->.
  destruct (recv_step y u k f Hb Hf) as [Hv Hun]. rewrite Ho in Hv. cbn in Hv. subst a'.
  assert (Hlt : (S k ≤ length (sentTo u (game y)))%nat) by (apply lookup_lt_Some in Hf; lia).
  set (y' := mkTable _ _ _).
  assert (Hunread : ∀ w, unread y' w = if decide (w = u) then drop (S k) (sentTo u (game y)) else unread y w).
  { intros w. unfold unread, y'. rewrite readUpTo_insert. cbn [game fst]. by destruct (decide (w = u)) as [->|]. }
  split; [done|apply bots_insert; eauto|intros w Hw; by apply inStep_insert, H3|..].
  - intros w g Hw Hne. rewrite Hunread. destruct (decide (w = u)) as [->|]; [|by apply H4]. intros Hg.
    apply (H4 u g Hw Hne). rewrite Hun. by right.
  - intros pre t g. rewrite Hunread. destruct (decide (v = u)) as [->|]; [|by apply H5]. intros E Hg. apply (H5 (f :: pre) t); [|by right].
    by rewrite Hun, E.
  - exists r. split; [done|]. rewrite Hunread. unfold y'. cbn [mailbox].
    destruct (decide (v = u)) as [->|Hne].
    + rewrite Hbox, decide_False by (by rewrite Hun). cbn [app].
      destruct (decide (drop (S k) (sentTo u (game y)) = [])) as [Hd|Hd].
      * destruct (ready_turn _ _ H1) as (pre & t & E & Ht).
        assert (f = t) as ->.
        { assert (last (unread y u) = Some t) as Hl.
          { unfold unread, readUpTo. rewrite Hb. rewrite E. rewrite E, length_app in Hlt. cbn in Hlt. rewrite drop_app_le by lia.
            by rewrite last_snoc. }
          rewrite Hun, Hd in Hl. by injection Hl. }
        pose proof (onFrame_myTurn u t (view u (take k (sentTo u (game y)))) Ht) as Hreq. rewrite Ho in Hreq. cbn in Hreq.
        assert (take (S k) (sentTo u (game y)) = sentTo u (game y)) as Hall.
        { rewrite <- (take_drop (S k) (sentTo u (game y))) at 2. by rewrite Hd, app_nil_r. }
        rewrite Hall, Hr in Hreq. by rewrite Hreq.
      * destruct rq as [rq|]; [|done]. exfalso. apply onFrame_request in Ho as [Hm _].
        destruct (exists_last Hd) as (pre & t & E). apply (H5 (f :: pre) t f); [by rewrite Hun, E|by left|done].
    + destruct rq as [rq|]; [|by rewrite app_nil_r]. exfalso. apply onFrame_request in Ho as [Hm _].
      apply (H4 u f); [done..|rewrite Hun; by left|done].
Qed.

Lemma recv_Ended y u k a f a' rq : Ended y →
  bots y !! u = Some (k, a) → sentTo u (game y) !! k = Some f → onFrame u f a = (a', rq) →
  Ended (mkTable (game y) (<[u := (S k, a')]> (bots y)) (mailbox y ++ match rq with Some r => [(u, r)] | None => [] end)).
Proof.
  intros [H1 H2 H3 H4 H5 H6] Hb Hf Ho.
  assert (Hu : u ∈ os) by (apply H2; eauto). destruct (H3 u Hu) as (k' & Hb' & Hk). rewrite Hb in Hb'. injection Hb' as <- ->.
  destruct (recv_step y u k f Hb Hf) as [Hv Hun]. rewrite Ho in Hv. cbn in Hv. subst a'.
  assert (Hlt : (S k ≤ length (sentTo u (game y)))%nat) by (apply lookup_lt_Some in Hf; lia).
  split; [done|apply bots_insert; eauto|intros w Hw; by apply inStep_insert, H3| |done|].
  - intros w g Hw. unfold unread. rewrite readUpTo_insert. cbn [game fst].
    destruct (decide (w = u)) as [->|]; [|by apply H4]. intros Hg. apply (H4 u g Hw). rewrite Hun. by right.
  - cbn [mailbox]. rewrite H6. destruct rq as [rq|]; [|done]. exfalso. apply onFrame_request in Ho as [Hm _].
    apply (H4 u f Hu); [rewrite Hun; by left|done].
Qed.

(** ** Progress and termination *)

Definition backlog (y : table) : nat := sum_list_with (fun w => length (unread y w)) os.

Lemma sum_less {A} (f g : A → nat) (l : list A) x : (∀ w, f w ≤ g w)%nat → x ∈ l → (f x < g x)%nat →
  (sum_list_with f l < sum_list_with g l)%nat.
Proof.
  intros Hle Hx Hlt. assert (Hall : ∀ l, (sum_list_with f l ≤ sum_list_with g l)%nat).
  { induction l0 as [|w l0 IH]; cbn; [done|]. specialize (Hle w). lia. }
  induction l as [|w l IH]; [by apply elem_of_nil in Hx|]. cbn. apply elem_of_cons in Hx as [->|Hx]; [specialize (Hall l); lia|].
  specialize (Hle w). specialize (IH Hx). lia.
Qed.

Lemma recv_backlog y u k a f a' ms : u ∈ os → bots y !! u = Some (k, a) → sentTo u (game y) !! k = Some f →
  (backlog (mkTable (game y) (<[u := (S k, a')]> (bots y)) ms) < backlog y)%nat.
Proof.
  intros Hu Hb Hf. apply lookup_lt_Some in Hf. assert (Hr : readUpTo y u = k) by (unfold readUpTo; by rewrite Hb).
  apply (sum_less _ _ _ u); [intros w|done|]; unfold unread; rewrite readUpTo_insert; cbn [game fst]; rewrite !length_drop.
  - destruct (decide (w = u)) as [->|]; lia.
  - rewrite decide_True by done. lia.
Qed.

(** Serving the request of the bot to move. *)
Lemma serve_step y v u id rq ms s' : Running y v → mailbox y = (u, (id, rq)) :: ms → OnMessage u id rq (game y) = Ok s' →
  (∃ v', Running (mkTable s' (bots y) ms) v' ∧ (gm s' < gm (game y))%nat) ∨ Ended (mkTable s' (bots y) ms).
Proof.
  intros [H1 H2 H3 H4 H5 (r & Hr & Hbox)] Hm Hs. rewrite Hm in Hbox.
  destruct (decide (unread y v = [])) as [Hun|]; [|done]. injection Hbox as -> <- ->.
  destruct (ready_serve _ _ _ _ H1 Hr) as (s1 & Hs1 & Hcases). rewrite Hs in Hs1. injection Hs1 as <-.
  set (y' := mkTable s' (bots y) []).
  assert (Hsame : ∀ w, readUpTo y' w = readUpTo y w) by done.
  assert (Hgrow : ∀ w pre, w ∈ os → sentTo w s' = sentTo w (game y) ++ pre → inStep y' w ∧ unread y' w = unread y w ++ pre).
  { intros w pre Hw E. destruct (H3 w Hw) as (k & Hb & Hk). split.
    - exists k. unfold y'. cbn [bots game]. rewrite E, take_app_le by lia. split; [done|]. rewrite length_app. lia.
    - unfold unread, y'. rewrite Hsame. cbn [game]. rewrite E, drop_app_le; [done|]. unfold readUpTo. by rewrite Hb. }
  assert (Hquiet : ∀ w f, w ∈ os → f ∈ unread y w → ¬ myTurn w f).
  { intros w f Hw Hf. destruct (decide (w = v)) as [->|Hne]; [rewrite Hun in Hf; by apply elem_of_nil in Hf|by apply (H4 w f)]. }
  destruct Hcases as [(v' & Hrdy & Hgm & Hnew)|(Hov & Hnew)].
  - left. exists v'. split; [|done]. split; [done|done|..].
    + intros w Hw. destruct (Hnew w Hw) as (pre & t & E & _). by apply (Hgrow w _ Hw E).
    + intros w f Hw Hne Hf. destruct (Hnew w Hw) as (pre & t & E & Hp & Ht). destruct (Hgrow w _ Hw E) as [_ Hu'].
      rewrite Hu', !elem_of_app, list_elem_of_singleton in Hf. destruct Hf as [Hf|[Hf| ->]]; [by apply Hquiet| |by auto].
      rewrite Forall_forall in Hp. by apply Hp.
    + intros pre0 t0 f E0 Hf. pose proof (ready_seat _ _ Hrdy) as Hv'.
      destruct (Hnew v' Hv') as (pre & t & E & Hp & Ht). destruct (Hgrow v' _ Hv' E) as [_ Hu'].
      rewrite Hu', app_assoc in E0. apply app_inj_tail in E0 as [E0 _]. rewrite <- E0, elem_of_app in Hf.
      destruct Hf as [Hf|Hf]; [by apply Hquiet|]. rewrite Forall_forall in Hp. by apply Hp.
    + destruct (ready_act _ _ Hrdy) as [rq' Hrq]. exists rq'. split; [done|]. cbn [mailbox].
      pose proof (ready_seat _ _ Hrdy) as Hv'. destruct (Hnew v' Hv') as (pre & t & E & _). destruct (Hgrow v' _ Hv' E) as [_ Hu'].
      rewrite Hu', decide_False; [done|]. destruct (unread y v'); [by destruct pre|done].
  - right. split; [done|done|..|done].
    + intros w Hw. destruct (Hnew w Hw) as (pre & t & E & _). by apply (Hgrow w _ Hw E).
    + intros w f Hw Hf. destruct (Hnew w Hw) as (pre & t & E & Hp & Ht). destruct (Hgrow w _ Hw E) as [_ Hu'].
      rewrite Hu', !elem_of_app, list_elem_of_singleton in Hf. destruct Hf as [Hf|[Hf| ->]]; [by apply Hquiet| |].
      * rewrite Forall_forall in Hp. by apply Hp.
      * intros [Ht' _]. unfold isResult in Ht. rewrite Ht in Ht'. by vm_compute in Ht'.
    + intros w Hw. destruct (Hnew w Hw) as (pre & t & E & Hp & Ht). exists (sentTo w (game y) ++ pre), t.
      change (sentTo w (game y')) with (sentTo w s'). rewrite E, app_assoc. split_and!; [done..|]. apply Forall_app. split; [by apply (ready_running _ v)|].
      eapply Forall_impl; [exact Hp|]. by intros ? [].
Qed.

Lemma Running_step y u y' : Running y u → tstep y y' →
  (Running y' u ∧ gm (game y') = gm (game y) ∧ (backlog y' < backlog y)%nat) ∨
  (∃ v, Running y' v ∧ (gm (game y') < gm (game y))%nat) ∨ Ended y'.
Proof.
  intros HR Hs. destruct Hs as [y w k a f a' rq Hb Ho Hf Hon|y w id rq ms s' Hm Hs].
  - left. split; [by eapply recv_Running|]. split; [done|]. eapply recv_backlog; [|done..]. apply (ru_bots _ _ HR). eauto.
  - right. destruct (serve_step _ _ _ _ _ _ _ HR Hm Hs) as [(v & Hv & Hg)|He]; eauto.
Qed.

Lemma Ended_step y y' : Ended y → tstep y y' → Ended y' ∧ (backlog y' < backlog y)%nat.
Proof.
  intros HE Hs. destruct Hs as [y w k a f a' rq Hb Ho Hf Hon|y w id rq ms s' Hm Hs].
  - split; [by eapply recv_Ended|]. eapply recv_backlog; [|done..]. apply (en_bots _ HE). eauto.
  - rewrite (en_box _ HE) in Hm. done.
Qed.

Lemma Ended_sn y : Ended y → sn tstep y.
Proof.
  remember (backlog y) as n eqn:E. revert y E. induction (lt_wf n) as [n _ IH]. intros y -> HE. constructor.
  intros y' Hs. destruct (Ended_step _ _ HE Hs) as [HE' Hl]. by eapply IH.
Qed.

Lemma Running_sn y u : Running y u → sn tstep y.
Proof.
  remember (gm (game y)) as g eqn:Eg. revert y u Eg. induction (lt_wf g) as [g _ IHg]. intros y u Eg.
  remember (backlog y) as n eqn:En. revert y u Eg En. induction (lt_wf n) as [n _ IHn]. intros y u -> -> HR. constructor.
  intros y' Hs. destruct (Running_step _ _ _ HR Hs) as [(HR' & Hg & Hl)|[(v & HR' & Hg)|HE]].
  - eapply IHn; [exact Hl|by rewrite Hg|done..].
  - by eapply IHg.
  - by apply Ended_sn.
Qed.

Lemma lookup_unread y w : inStep y w → unread y w ≠ [] →
  ∃ k f, bots y !! w = Some (k, view w (take k (sentTo w (game y)))) ∧ sentTo w (game y) !! k = Some f.
Proof.
  intros (k & Hb & Hk) Hne. exists k. unfold unread, readUpTo in Hne. rewrite Hb in Hne.
  destruct (sentTo w (game y) !! k) as [f|] eqn:Hf; [by exists f|]. apply lookup_ge_None in Hf.
  by rewrite drop_ge in Hne by lia.
Qed.

Lemma Running_progress y u : Running y u → ∃ y', tstep y y'.
Proof.
  intros [H1 H2 H3 H4 H5 ([id rq] & Hr & Hbox)]. destruct (decide (unread y u = [])) as [Hun|Hun].
  - destruct (ready_serve _ _ _ _ H1 Hr) as (s' & Hs & _). eexists. by eapply t_serve.
  - destruct (lookup_unread y u) as (k & f & Hb & Hf); [by apply H3, (ready_seat _ _ H1)|done|].
    destruct (onFrame u f (view u (take k (sentTo u (game y))))) as [a' rq'] eqn:Ho.
    eexists. eapply t_recv; [exact Hb| |exact Hf|exact Ho].
    apply view_over. apply Forall_take. apply (ready_running _ u); [done|]. by apply (ready_seat _ _ H1).
Qed.

Lemma Ended_nf y w : Ended y → nf tstep y → w ∈ os → unread y w = [].
Proof.
  intros HE Hnf Hw. destruct (decide (unread y w = [])) as [|Hun]; [done|]. exfalso. apply Hnf.
  destruct (lookup_unread y w) as (k & f & Hb & Hf); [by apply HE|done|].
  destruct (onFrame w f (view w (take k (sentTo w (game y))))) as [a' rq'] eqn:Ho.
  eexists. eapply t_recv; [exact Hb| |exact Hf|exact Ho].
  destruct (en_last _ HE w Hw) as (pre & t & E & _ & Hp). apply view_over. apply lookup_lt_Some in Hf.
  rewrite E, length_app in Hf. cbn in Hf. rewrite E, take_app_le by lia. by apply Forall_take.
Qed.

Lemma rtc_Running y u y' : rtc tstep y y' → Running y u → (∃ v, Running y' v) ∨ Ended y'.
Proof.
  intros Hr HR. assert (Hinv : (∃ v, Running y v) ∨ Ended y) by eauto. clear HR. induction Hr as [|y1 y2 y3 Hs _ IH]; [done|].
  apply IH. destruct Hinv as [(v & HR)|HE].
  - destruct (Running_step _ _ _ HR Hs) as [(? & _)|[(v' & ? & _)|?]]; eauto.
  - right. by apply (Ended_step y1).
Qed.

(** Every run is finite, and where it cannot go on the game is over and every
    bot has read every frame it was sent. *)
Lemma async_ends y u : Running y u → sn tstep y ∧
  ∀ y', rtc tstep y y' → nf tstep y' →
    Over (game y') ∧ mailbox y' = [] ∧
    ∀ w, w ∈ os → bots y' !! w = Some (length (sentTo w (game y')), view w (sentTo w (game y'))).
Proof.
  intros HR. split; [by eapply Running_sn|]. intros y' Hr Hnf.
  destruct (rtc_Running _ _ _ Hr HR) as [(v & HR')|HE].
  { exfalso. apply Hnf. by eapply Running_progress. }
  split; [apply HE|]. split; [apply HE|]. intros w Hw. pose proof (Ended_nf _ _ HE Hnf Hw) as Hun.
  destruct (en_step _ HE w Hw) as (k & Hb & Hk). unfold unread, readUpTo in Hun. rewrite Hb in Hun.
  apply (f_equal length) in Hun. rewrite length_drop in Hun. cbn in Hun.
  assert (k = length (sentTo w (game y'))) as -> by lia. by rewrite Hb, firstn_all.
Qed.
End Async.
End Table.
