(* ===== verification/BotGame.v ===== *)
(** * Three bots finish a game

    The game side of the composition of BotTable.v: what the frames tell a bot
    about the table is true, the request it sends is accepted, and every
    accepted request brings the game closer to its end. *)

From S2P Require Import Prelude RoomCtx DdzCards Doudizhu DoudizhuInv Scenarios BotTable.

(** ** Cards and their ids *)

Lemma ddzCardID_ID c : ddzCardID c = ID c.
Proof. reflexivity. Qed.

Lemma fullDeck_ids : NoDup (ID <$> fullDeck).
Proof. apply (bool_decide_unpack _). vm_compute. exact I. Qed.

Lemma fullDeck_ranks : Forall (fun c => 0 < Rank c) fullDeck.
Proof. apply (bool_decide_unpack _). vm_compute. exact I. Qed.

(** Cards of the deck with the same id are the same card. *)
Lemma ID_inj c d : c ∈ fullDeck → d ∈ fullDeck → ID c = ID d → c = d.
Proof.
  intros [i Hi]%list_elem_of_lookup_1 [j Hj]%list_elem_of_lookup_1 E.
  assert (i = j) as ->; [|by simplify_eq].
  eapply NoDup_lookup; [exact fullDeck_ids|rewrite list_lookup_fmap, Hi; reflexivity|].
  rewrite list_lookup_fmap, Hj. cbn. by rewrite E.
Qed.

Section Game.
Context `{CardSort}.

(** The hands on the table are part of the deck. *)
Lemma hand_deck ps rest u p : handsOf ps ++ rest ≡ₚ fullDeck → ps !! u = Some p →
  NoDup (ID <$> hand p) ∧ ∀ c, c ∈ hand p → c ∈ fullDeck.
Proof.
  intros Hd Hu. rewrite (handsOf_lookup _ _ _ Hu) in Hd. split.
  - pose proof fullDeck_ids as Hn. rewrite <- Hd, !fmap_app in Hn. apply NoDup_app in Hn as [Hn _].
    by apply NoDup_app in Hn as [Hn _].
  - intros c Hc. rewrite <- Hd, !elem_of_app. auto.
Qed.

Lemma take_one h c : NoDup (ID <$> h) → (∀ d, d ∈ h → d ∈ fullDeck) → c ∈ h →
  ∃ kept, takeCards h [ID c] = Some ([c], kept) ∧ h ≡ₚ kept ++ [c] ∧ ∀ d, d ∈ kept ↔ d ∈ h ∧ ID d ≠ ID c.
Proof.
  intros Hnd Hdeck Hc. destruct (takeCards h [ID c]) as [[sel kept]|] eqn:E; cycle 1.
  { apply takeCards_None_iff in E; [|done]. exfalso. apply E. split; [apply NoDup_singleton|].
    intros x ->%list_elem_of_singleton. by apply list_elem_of_fmap_2. }
  pose proof (takeCards_Some _ _ _ _ E) as [Hp Hs].
  apply Permutation_singleton_r in Hs. destruct sel as [|d [|]]; try discriminate Hs. injection Hs as Hid.
  assert (d = c) as ->. { apply ID_inj; [apply Hdeck; rewrite Hp; set_solver|by apply Hdeck|done]. }
  exists kept. split; [done|]. split; [done|]. intros x. rewrite Hp in Hnd. rewrite fmap_app in Hnd.
  apply NoDup_app in Hnd as (_ & Hdis & _). rewrite Hp, elem_of_app, list_elem_of_singleton. split.
  - intros Hx. split; [by left|]. intros Ex. apply (Hdis (ID c)); [rewrite <- Ex; by apply list_elem_of_fmap_2|by left].
  - intros [[Hx| ->] Hne]; done.
Qed.

Lemma elem_of_removeCards h c d : d ∈ removeCards h [c] ↔ d ∈ h ∧ ID d ≠ ID c.
Proof.
  unfold removeCards. rewrite list_elem_of_filter. change (ddzCardID d) with (ID d). cbn. change (ddzCardID c) with (ID c). set_solver.
Qed.

(** ** The choice of the bot *)

Lemma pick_free h last u : h ≠ [] → (∀ l, last = Some l → lpUID l = u) →
  ∃ c, pickSinglePlay h last u = [ID c] ∧ c ∈ h.
Proof.
  intros Hh Hl. unfold pickSinglePlay. destruct h as [|x h]; [done|].
  assert (match last with None => true | Some l => lpPass l || bool_decide (lpUID l = u) end = true) as ->.
  { destruct last as [l|]; [|done]. rewrite bool_decide_true by auto. apply orb_true_r. }
  pose proof (sortCards_perm (x :: h)) as Hp. destruct (sortCards (x :: h)) as [|c cp].
  - apply Permutation_nil_l in Hp. done.
  - exists c. split; [done|]. rewrite <- Hp. by left.
Qed.

Lemma pick_follow h l d u : lpPass l = false → lpUID l ≠ u → lpCards l = [d] → 0 < Rank d →
  pickSinglePlay h (Some l) u = [] ∨
  ∃ c, pickSinglePlay h (Some l) u = [ID c] ∧ c ∈ h ∧ Rank d < Rank c.
Proof.
  intros Hp Hu Hd Hr. unfold pickSinglePlay. destruct h as [|x h]; [by left|].
  rewrite Hp, bool_decide_false, Hd by done. cbn [orb foldl].
  rewrite (proj2 (Z.gtb_lt _ _)) by done.
  destruct (list_find _ _) as [[i c]|] eqn:E; [|by left]. right. apply list_find_Some in E as (Hi & Hc & _).
  exists c. split; [done|]. split; [|lia]. rewrite <- (sortCards_perm (x :: h)). by eapply list_elem_of_lookup_2.
Qed.

(** ** Sending frames *)

Definition online (r : room) (w : string) : Prop := w ∈ morder r ∧ members r !! w = Some true.

Lemma frame_broadcast r w id m : online r w → frameIn w (EvBroadcast (recipients r []) id m) = [(id, m)].
Proof.
  intros [Ho Hm]. cbn. rewrite decide_True; [done|]. unfold recipients. apply list_elem_of_filter.
  split; [|done]. split; [apply not_elem_of_nil|by rewrite Hm].
Qed.

Lemma online_present r w : online r w → memberOffline r w = false.
Proof. intros [_ Hm]. unfold memberOffline, Member. by rewrite Hm. Qed.

Lemma setTurnTimer_rm u s : ∃ ts n, rm (setTurnTimer u s) = set_timers (rm s) ts n.
Proof.
  unfold setTurnTimer. destruct (clear_rm s) as [ts Hr]. cbn [After rm]. rewrite Hr. by eexists _, _.
Qed.

Lemma setTurnTimer_lg u s : ∃ t, lg (setTurnTimer u s) = set_turnTimer t (lg s).
Proof. unfold setTurnTimer. cbn [After lg]. rewrite clear_lg. by eexists. Qed.

(** A state that differs from [s] in the turn timer only. *)
Definition retimed (s s' : st) : Prop :=
  (∃ t, lg s' = set_turnTimer t (lg s)) ∧ ∃ ts n, rm s' = set_timers (rm s) ts n.

Lemma setTurnTimer_retimed u s : retimed s (setTurnTimer u s).
Proof. split; [apply setTurnTimer_lg|apply setTurnTimer_rm]. Qed.

Lemma clear_retimed s : retimed s (clearTurnTimer s).
Proof. split; [eexists; apply clear_lg|]. destruct (clear_rm s) as [ts Hr]. by eexists _, _. Qed.

Lemma retimed_sent s s' w : retimed s s' → sentTo w s' = sentTo w s.
Proof. intros [_ (ts & n & Hr)]. unfold sentTo. by rewrite Hr. Qed.

Lemma retimed_online s s' w : retimed s s' → online (rm s) w → online (rm s') w.
Proof. intros [_ (ts & n & Hr)]. unfold online. by rewrite Hr. Qed.

(** The turn passes to a player who is online. *)
Lemma nextTurn_online play (free : bool) s v :
  order (lg s) !! Z.to_nat (cur (lg s)) = Some v → 0 ≤ cur (lg s) → online (rm s) v →
  ∃ s' turn, nextTurn_ play free s = Ok s' ∧ turn = TurnNtf v (landlord (lg s)) (baseScore (lg s)) (nowMs (rm s) + TurnTimeout) ∧
    retimed (mkSt (if free then resetLead (lg s) else lg s) (Broadcast (rm s) MsgTurn turn [])) s'.
Proof.
  intros Hv Hc Ho. unfold nextTurn_, index. rewrite decide_True by lia. rewrite Hv. cbn [rbind].
  destruct free; rewrite (online_present _ v) by done; (eexists _, _; split_and!; [reflexivity..|]);
    apply setTurnTimer_retimed.
Qed.

(** ** What a bot knows *)

(** The bot [w] has been told that [u] is to move; it holds the cards of its
    hand; the game goes on. *)
Record Seen (s : st) (u w : string) : Prop := {
  se_online : online (rm s) w;
  se_cur : agCur (view w (sentTo w s)) = u;
  se_hand p : players (lg s) !! w = Some p → ∀ c, c ∈ agHand (view w (sentTo w s)) ↔ c ∈ hand p;
  se_turn : ∃ pre ll base dl, sentTo w s = pre ++ [(MsgTurn, TurnNtf u ll base dl)];
  se_running : Forall (fun f => ¬ isResult f) (sentTo w s) }.

(** The last play as the bot knows it: a lead is free when nothing is on the
    table or the table came back to the one who played last. *)
Definition lastSeen (l : Logic) (u : string) (a : agent) : Prop :=
  match lastPlayed l with
  | None => ∀ x, agLast a = Some x → lpUID x = u
  | Some lp => agLast a = Some (mkLast (pUID lp) (pCards lp) false) ∧ ∃ d, pCards lp = [d] ∧ 0 < Rank d
  end.

Definition withCur (v : string) (a : agent) : agent :=
  mkAgent (agHand a) (agStage a) v (agMax a) (agLast a) (agOver a).
(** The variables of [w] after the frames of the events [es]. *)
Definition after (w : string) (es : list (event dmsg)) (a : agent) : agent :=
  foldl (fun a f => (onFrame w f a).1) a (framesTo w es).

(** The next state, as it follows from the events since. *)
Lemma Seen_next s s1 s' u v w es ll base dl :
  Seen s u w → retimed s1 s' → rm s1 = emits (rm s) (es ++ [EvBroadcast (recipients (rm s) []) MsgTurn (TurnNtf v ll base dl)]) →
  Forall (fun f => ¬ isResult f) (framesTo w es) →
  (∀ a, (∀ p, players (lg s) !! w = Some p → ∀ c, c ∈ agHand a ↔ c ∈ hand p) → ∀ p, players (lg s1) !! w = Some p →
    ∀ c, c ∈ agHand (after w es a) ↔ c ∈ hand p) →
  sentTo w s' = sentTo w s ++ framesTo w es ++ [(MsgTurn, TurnNtf v ll base dl)] ∧
  view w (sentTo w s') = withCur v (after w es (view w (sentTo w s))) ∧ Seen s' v w.
Proof.
  intros [S1 S2 S3 S4 S5] Hrt Hrm Hes Hh.
  assert (Hsent : sentTo w s' = sentTo w s ++ framesTo w es ++ [(MsgTurn, TurnNtf v ll base dl)]).
  { rewrite (retimed_sent _ _ _ Hrt). unfold sentTo. rewrite Hrm. cbn [emits out]. rewrite !framesTo_app. do 2 f_equal.
    unfold framesTo. cbn [mbind list_bind]. by rewrite frame_broadcast, app_nil_r. }
  assert (Hview : view w (sentTo w s') = withCur v (after w es (view w (sentTo w s)))).
  { rewrite Hsent, app_assoc, view_snoc. unfold view at 1. rewrite foldl_app. reflexivity. }
  do 2 (split; [done|]). split.
  - apply (retimed_online _ _ _ Hrt). unfold online. rewrite Hrm. exact S1.
  - by rewrite Hview.
  - destruct Hrt as [[t Hl] _]. rewrite Hl. cbn [players set_turnTimer]. intros p Hp c. rewrite Hview. by apply Hh.
  - exists (sentTo w s ++ framesTo w es), ll, base, dl. by rewrite Hsent, app_assoc.
  - rewrite Hsent. apply Forall_app. split; [done|]. apply Forall_app. split; [done|]. repeat constructor. by intros ?.
Qed.

(** ** The playing stage *)

Record ReadyPlay (os : list string) (s : st) (u : string) : Prop := {
  rp_inv : PInv s;
  rp_order : order (lg s) = os;
  rp_move : toMove u s;
  rp_seen w : w ∈ os → Seen s u w;
  rp_stage w : w ∈ os → agStage (view w (sentTo w s)) = ddzStagePlaying;
  rp_last w : w ∈ os → lastSeen (lg s) u (view w (sentTo w s)) }.

Lemma ready_hand os s u : ReadyPlay os s u → ∃ p, players (lg s) !! u = Some p ∧ hand p ≠ [] ∧ u ∈ os ∧
  NoDup (ID <$> hand p) ∧ ∀ c, c ∈ hand p → c ∈ fullDeck.
Proof.
  intros [H1 H2 H3 _ _ _]. destruct (seats_index _ _ _ (pi_seats _ H1) (pi_cur _ H1)) as (u' & p & Hu & _ & Hp).
  unfold toMove in H3. rewrite Hu in H3. injection H3 as ->. exists p. split; [done|].
  split; [by eapply (pi_hands _ H1)|]. split; [rewrite <- H2; by eapply list_elem_of_lookup_2|].
  eapply hand_deck; [exact (pi_cards _ H1)|done].
Qed.

(** The player after the one to move. *)
Lemma next_seat os s u : ReadyPlay os s u → ∃ v, order (lg s) !! Z.to_nat ((cur (lg s) + 1) mod 3) = Some v ∧ v ∈ os ∧
  nextIndex (cur (lg s)) (lg s) = Ok ((cur (lg s) + 1) mod 3) ∧ 0 ≤ (cur (lg s) + 1) mod 3 < 3.
Proof.
  intros [H1 H2 _ _ _ _]. destruct (nextIndex_run (cur (lg s)) (lg s) _ (pi_seats _ H1)) as [Hn Hr]; [apply (pi_cur _ H1)|].
  destruct (seats_index _ _ _ (pi_seats _ H1) Hr) as (v & p & Hv & _). exists v. split_and!; [done| |done|lia|lia].
  rewrite <- H2. by eapply list_elem_of_lookup_2.
Qed.

(** What is on the table was not played by the one to move. *)
Lemma last_other os s u lp : ReadyPlay os s u → lastPlayed (lg s) = Some lp → pUID lp ≠ u.
Proof.
  intros [H1 H2 H3 _ _ _] Hlp Hu. pose proof (pi_last _ H1) as Hl. unfold lastOK in Hl. rewrite Hlp in Hl.
  destruct Hl as (Hpc & (i & Hi & Hcur) & _). unfold toMove in H3. rewrite Hu in Hi.
  pose proof (lookup_lt_Some _ _ _ Hi) as Hlt. rewrite (seats_three _ _ (pi_seats _ H1)) in Hlt.
  assert (i = Z.to_nat (cur (lg s))) as -> by (eapply NoDup_lookup; [apply (seats_nodup _ _ (pi_seats _ H1))|done..]).
  pose proof (pi_cur _ H1). rewrite Z2Nat.id in Hcur by lia. Z.div_mod_to_equations. lia.
Qed.

Lemma OnMessage_play os s u ids : ReadyPlay os s u → OnMessage u 0x1301 (PlayReq ids) s = applyPlay playFuel u ids s.
Proof.
  intros [H1 H2 H3 _ _ _]. unfold OnMessage. destruct (pi_live _ H1) as (-> & -> & Hst). cbn [negb orb].
  destruct (current_PInv s H1) as (c & Hc & Ht). rewrite Hc. cbn [rbind]. unfold toMove in *.
  assert (c = u) as -> by congruence. rewrite decide_False by tauto. by rewrite Hst.
Qed.

(** A state reached by a turn that passed is live. *)
Lemma PPost_live s s' fuel u ids : PInv s → toMove u s → applyPlay fuel u ids s = Ok s' → (need s ≤ fuel)%nat →
  finished (lg s') = false → PInv s'.
Proof.
  intros H1 H2 Hs Hn Hf. pose proof (applyPlay_run fuel u ids s H1 H2 Hn) as Hr. rewrite Hs in Hr.
  destruct Hr as [Hp|Hd]; [done|]. pose proof (dn_finished _ Hd). congruence.
Qed.

(** Moves that end with another turn. *)
Definition movedOn (os : list string) (s s' : st) (v : string) : Prop :=
  (need s' < need s)%nat ∧
  ∀ w, w ∈ os → ∃ pre t, sentTo w s' = sentTo w s ++ pre ++ [t] ∧ Forall (fun f => ¬ myTurn w f) pre ∧ (myTurn w t → w = v).

Lemma turn_frame w v ll base dl : myTurn w (MsgTurn, TurnNtf v ll base dl) → w = v.
Proof. by intros [_ E]. Qed.

Lemma playFuel_S : ∃ pf, playFuel = S pf.
Proof. by exists 169%nat. Qed.

Lemma quiet_frame w id m : id ≠ msgDDZTurn → id ≠ msgDDZResult → ¬ myTurn w (id, m) ∧ ¬ isResult (id, m).
Proof. intros H1 H2. split; [by intros [? _]|by intros ?]. Qed.

Lemma lastSeen_withCur l v x a : lastSeen l v (withCur x a) ↔ lastSeen l v a.
Proof. done. Qed.

(** The turn passes to [v] after the events [es]: what has to be shown of
    [es] and of the logic state [l2]. *)
Lemma turn_passes os s u ids s' es l2 v ll base dl :
  ReadyPlay os s u → applyPlay playFuel u ids s = Ok s' →
  retimed (mkSt l2 (Broadcast (emits (rm s) es) MsgTurn (TurnNtf v ll base dl) [])) s' →
  order l2 = os → finished l2 = false → os !! Z.to_nat (cur l2) = Some v → (need (mkSt l2 (rm s)) < need s)%nat →
  (∀ w, w ∈ os → Forall (fun f => ¬ myTurn w f ∧ ¬ isResult f) (framesTo w es)) →
  (∀ w a, w ∈ os → agStage (after w es a) = agStage a) →
  (∀ w a, w ∈ os → (∀ p, players (lg s) !! w = Some p → ∀ c, c ∈ agHand a ↔ c ∈ hand p) →
     ∀ p, players l2 !! w = Some p → ∀ c, c ∈ agHand (after w es a) ↔ c ∈ hand p) →
  (∀ w a, w ∈ os → lastSeen (lg s) u a → lastSeen l2 v (after w es a)) →
  ReadyPlay os s' v ∧ movedOn os s s' v.
Proof.
  intros HR Hs' Hrt Ho Hf Hv Hn Hes Hst Hh Hla. pose proof HR as [H1 H2 H3 H4 H5 H6].
  set (s2 := mkSt _ _) in Hrt. destruct (proj1 Hrt) as [t Hlg].
  assert (Hseen : ∀ w, w ∈ os → sentTo w s' = sentTo w s ++ framesTo w es ++ [(MsgTurn, TurnNtf v ll base dl)] ∧
    view w (sentTo w s') = withCur v (after w es (view w (sentTo w s))) ∧ Seen s' v w).
  { intros w Hw. eapply (Seen_next s s2 s' u v w es); [by apply H4|exact Hrt| | |].
    - unfold s2. cbn [rm]. unfold Broadcast, emit. by rewrite emits_emits.
    - eapply Forall_impl; [by apply Hes|]. by intros ? [].
    - intros a Ha. by apply Hh. }
  split; [split|split].
  - eapply (PPost_live s); [exact H1|exact H3|exact Hs'|by apply need_playFuel|]. by rewrite Hlg.
  - by rewrite Hlg.
  - unfold toMove. rewrite Hlg. cbn [order cur set_turnTimer lg s2]. by rewrite Ho.
  - intros w Hw. by apply Hseen.
  - intros w Hw. destruct (Hseen w Hw) as (_ & -> & _). cbn [withCur agStage]. rewrite Hst by done. by apply H5.
  - intros w Hw. destruct (Hseen w Hw) as (_ & -> & _). rewrite Hlg. apply lastSeen_withCur. apply (Hla w); [done|]. by apply H6.
  - unfold need in *. rewrite Hlg. exact Hn.
  - intros w Hw. destruct (Hseen w Hw) as (-> & _). eexists _, _. split; [reflexivity|].
    split; [|apply turn_frame]. eapply Forall_impl; [by apply Hes|]. by intros ? [].
Qed.

(** The frames of one broadcast. *)
Lemma frames_one os s u w id m : ReadyPlay os s u → w ∈ os → framesTo w [EvBroadcast (recipients (rm s) []) id m] = [(id, m)].
Proof.
  intros HR Hw. unfold framesTo. cbn [mbind list_bind]. rewrite frame_broadcast; [done|]. by apply (rp_seen _ _ _ HR).
Qed.

(** The bot passes. *)
Lemma serve_pass os s u lp : ReadyPlay os s u → lastPlayed (lg s) = Some lp →
  ∃ s' v, applyPlay playFuel u [] s = Ok s' ∧ ReadyPlay os s' v ∧ movedOn os s s' v.
Proof.
  intros HR Hlp. destruct playFuel_S as [pf Hpf]. destruct (ready_hand _ _ _ HR) as (p & Hp & _ & Hu & _).
  destruct (next_seat _ _ _ HR) as (v & Hv & Hvos & Hni & Hr3).
  pose proof HR as [H1 H2 H3 H4 H5 H6]. pose proof (pi_last _ H1) as Hl. unfold lastOK in Hl. rewrite Hlp in Hl.
  destruct Hl as (Hpc & (i & Hi & Hcur) & _). set (m := PlayedMsg (mkPlayed u [] TypeInvalid true)).
  set (s1 := onR (fun r => Broadcast r MsgPlayed m []) (onL (fun l => set_passCount (passCount l + 1) l) s)).
  (* the turn goes to [x], on a free lead or not *)
  assert (Hgo : ∀ (free : bool) c x, 0 ≤ c → os !! Z.to_nat c = Some x →
    applyPlay playFuel u [] s = nextTurn_ (applyPlay pf) free (onL (set_cur c) s1) →
    (free = true → x = pUID lp) → passCount (lg s) = (if free then 1 else 0) →
    ∃ s' v, applyPlay playFuel u [] s = Ok s' ∧ ReadyPlay os s' v ∧ movedOn os s s' v).
  { intros free c x Hc Hx Heq Hfree Hpcv. assert (Hxos : x ∈ os) by (by eapply list_elem_of_lookup_2).
    destruct (nextTurn_online (applyPlay pf) free (onL (set_cur c) s1) x) as (s' & turn & Hs' & -> & Hrt);
      [cbn; by rewrite H2|done|exact (se_online _ _ _ (H4 _ Hxos))|].
    exists s', x. split; [by rewrite Heq|]. eapply turn_passes; [exact HR|by rewrite Heq|exact Hrt|..].
    - by destruct free.
    - destruct free; apply (pi_live _ H1).
    - by destruct free.
    - unfold need. rewrite Hlp. destruct free; cbn; rewrite ?Hlp; lia.
    - intros w Hw. rewrite (frames_one os s u w _ _ HR Hw). apply Forall_singleton. by apply quiet_frame.
    - intros w a Hw. unfold after. by rewrite (frames_one os s u w _ _ HR Hw).
    - intros w a Hw. unfold after. rewrite (frames_one os s u w _ _ HR Hw). by destruct free.
    - intros w a Hw. unfold after. rewrite (frames_one os s u w _ _ HR Hw). cbn [foldl].
      change ((onFrame w (MsgPlayed, m) a).1) with a. unfold lastSeen. rewrite Hlp.
      destruct free; cbn; rewrite ?Hlp; [|done]. intros [E6 _] y Hy. rewrite E6 in Hy. injection Hy as <-. symmetry. by apply Hfree. }
  assert (Heq : applyPlay playFuel u [] s =
    if passCount (lg s1) >=? 2 then nextTurn_ (applyPlay pf) true (onL (fun l => set_cur (indexOf (pUID lp) l) l) s1)
    else let! c := nextIndex (cur (lg s1)) (lg s1) in nextTurn_ (applyPlay pf) false (onL (set_cur c) s1)).
  { rewrite Hpf. cbn [applyPlay]. by rewrite Hp, Hlp. }
  change (passCount (lg s1)) with (passCount (lg s) + 1) in Heq.
  destruct (Z.geb_spec (passCount (lg s) + 1) 2) as [H2'|H2'].
  - apply (Hgo true (Z.of_nat i) (pUID lp)); [lia|by rewrite Nat2Z.id, <- H2| |done|lia].
    rewrite Heq. f_equal. unfold onL. f_equal. cbn [lg s1 onR onL]. f_equal. unfold indexOf.
    cbn [order set_passCount]. rewrite (indexFrom_lookup _ i) by (done || apply (seats_nodup _ _ (pi_seats _ H1))). lia.
  - apply (Hgo false ((cur (lg s) + 1) mod 3) v); [lia|by rewrite <- H2| |done|lia].
    rewrite Heq. change (nextIndex (cur (lg s1)) (lg s1)) with (nextIndex (cur (lg s)) (lg s)). by rewrite Hni.
Qed.

(** ** The end of the game *)

Lemma framesTo_nil w es : Forall (fun e => frameIn w e = []) es → framesTo w es = [].
Proof. intros He. apply bind_nil_elem. by apply Forall_forall. Qed.

(** Of all a settlement does, the players hear the result. *)
Lemma finish_sent win s w : finished (lg s) = false → online (rm s) w →
  ∃ rid fs, sentTo w (finish win s) = sentTo w s ++ [(MsgResult, ResultNtf rid (landlord (lg s)) fs win (baseScore (lg s)))].
Proof.
  intros Hf Ho. unfold finish. rewrite Hf. set (s1 := clearTurnTimer _).
  assert (Hrt : retimed (onL (set_finished true) s) s1) by apply clear_retimed.
  assert (Hll : landlord (lg s1) = landlord (lg s) ∧ baseScore (lg s1) = baseScore (lg s)) by (by destruct Hrt as [[t ->] _]).
  assert (Ho1 : online (rm s1) w) by (by apply (retimed_online _ _ _ Hrt)).
  change (sentTo w s) with (sentTo w (onL (set_finished true) s)). rewrite <- (retimed_sent _ _ w Hrt).
  destruct Hll as [<- <-]. exists (roomID (rm s1)), (farmersOf (lg s1)). unfold Close, onR, sentTo. cbn [lg rm].
  set (r1 := emit _ (EvSetSync _ _ _)).
  assert (Hr1 : framesTo w (out r1) = framesTo w (out (rm s1)) ++
    [(MsgResult, ResultNtf (roomID (rm s1)) (landlord (lg s1)) (farmersOf (lg s1)) win (baseScore (lg s1)))]).
  { unfold r1, Broadcast, emit. rewrite !emits_emits. cbn [emits out]. rewrite framesTo_app. f_equal. rewrite !framesTo_app.
    unfold framesTo at 1. cbn [mbind list_bind]. rewrite frame_broadcast by done. rewrite (framesTo_nil w (settlement _ _)); [done|].
    unfold settlement. destruct win; (constructor; [done|]); by apply Forall_fmap, Forall_true. }
  rewrite <- Hr1. unfold doClose. destruct (closing r1); [done|]. cbn [emit emits out set_members].
  unfold OnDestroy. destruct (profileStore (set_closing r1)); cbn [emits out]; rewrite ?framesTo_app, !(framesTo_nil w (_ <$> _));
    try (by apply Forall_fmap, Forall_true); cbn; by rewrite ?app_nil_r.
Qed.

(** The game is over: a player went out and everyone was told the result. *)
Definition GameOver (os : list string) (s : st) : Prop :=
  Done s ∧ ∃ u p, players (lg s) !! u = Some p ∧ hand p = [] ∧
    ∀ w, w ∈ os → ∃ pre rid fs, sentTo w s = pre ++
      [(MsgResult, ResultNtf rid (landlord (lg s)) fs (bool_decide (u = landlord (lg s))) (baseScore (lg s)))].

Lemma classify_one c : classify [c] = (TypeSingle, Rank c).
Proof. reflexivity. Qed.

Definition single (u : string) (c : Card) : PlayedNtf := mkPlayed u [c] TypeSingle false.
(** The logic after a single was accepted. *)
Definition afterSingle (u : string) (c : Card) (kept : list Card) (hp : player) (l : Logic) : Logic :=
  set_passCount 0 (set_lastPlayed (Some (single u c)) (set_players (<[u := mkPlayer kept (alive hp)]> (players l)) l)).

(** A single that beats the table is accepted. *)
Lemma applyPlay_single fuel os s u c hp kept : ReadyPlay os s u → players (lg s) !! u = Some hp →
  takeCards (hand hp) [ID c] = Some ([c], kept) →
  (∀ lp, lastPlayed (lg s) = Some lp → ∃ d, pCards lp = [d] ∧ Rank d < Rank c) →
  let s1 := mkSt (afterSingle u c kept hp (lg s)) (Broadcast (rm s) MsgPlayed (PlayedMsg (single u c)) []) in
  applyPlay (S fuel) u [ID c] s =
    if decide (kept = []) then Ok (finish (bool_decide (u = landlord (lg s1))) s1)
    else let! i := nextIndex (cur (lg s1)) (lg s1) in nextTurn_ (applyPlay fuel) false (onL (set_cur i) s1).
Proof.
  intros HR Hp Htake Hbeat s1. cbn [applyPlay]. rewrite Hp, Htake. unfold setHand at 1. rewrite Hp. cbn [rbind].
  rewrite classify_one. cbn [lg]. rewrite decide_False by done.
  change (lastPlayed (set_players _ (lg s))) with (lastPlayed (lg s)).
  assert (match lastPlayed (lg s) with
    | Some lp => if decide (pUID lp ≠ u) then
        negb (canBeat TypeSingle (Rank c) (zlen [c]) (pType lp) (mainRankOf (pCards lp)) (zlen (pCards lp))) else false
    | None => false end = false) as ->; [|done].
  destruct (lastPlayed (lg s)) as [lp|] eqn:Hlp; [|done]. case_decide; [|done].
  destruct (Hbeat lp eq_refl) as (d & Hd & Hr). pose proof (pi_last _ (rp_inv _ _ _ HR)) as Hl. unfold lastOK in Hl.
  rewrite Hlp, Hd, classify_one in Hl. destruct Hl as (_ & _ & _ & _ & <-). rewrite Hd.
  apply negb_false_iff. change ((Rank c >? Rank d) = true). by apply Z.gtb_lt.
Qed.

Lemma after_single os s u w c a : ReadyPlay os s u → w ∈ os →
  after w [EvBroadcast (recipients (rm s) []) MsgPlayed (PlayedMsg (single u c))] a =
  mkAgent (if decide (u = w) then removeCards (agHand a) [c] else agHand a) (agStage a) (agCur a) (agMax a)
          (Some (mkLast u [c] false)) (agOver a).
Proof. intros HR Hw. unfold after. rewrite (frames_one os s u w _ _ HR Hw). reflexivity. Qed.

(** The bot plays a card that beats the table. *)
Lemma serve_play os s u c hp : ReadyPlay os s u → players (lg s) !! u = Some hp → c ∈ hand hp →
  (∀ lp, lastPlayed (lg s) = Some lp → ∃ d, pCards lp = [d] ∧ Rank d < Rank c) →
  ∃ s', applyPlay playFuel u [ID c] s = Ok s' ∧
    ((∃ v, ReadyPlay os s' v ∧ movedOn os s s' v) ∨
     (GameOver os s' ∧ ∀ w, w ∈ os → ∃ pre t, sentTo w s' = sentTo w s ++ pre ++ [t] ∧
        Forall (fun f => ¬ myTurn w f ∧ ¬ isResult f) pre ∧ isResult t)).
Proof.
  intros HR Hp Hc Hbeat. destruct playFuel_S as [pf Hpf].
  destruct (ready_hand _ _ _ HR) as (hp' & Hp' & _ & Hu & Hnd & Hdeck). rewrite Hp in Hp'. injection Hp' as <-.
  destruct (take_one _ _ Hnd Hdeck Hc) as (kept & Htake & Hperm & Hkept).
  pose proof (applyPlay_single pf os s u c hp kept HR Hp Htake Hbeat) as Heq. cbv zeta in Heq. rewrite <- Hpf in Heq.
  set (s1 := mkSt _ _) in Heq. pose proof HR as [H1 H2 H3 H4 H5 H6].
  destruct (decide (kept = [])) as [Hk|Hk].
  - set (sf := finish _ s1) in Heq. exists sf. split; [done|]. right.
    assert (Hfin : ∀ w, w ∈ os → ∃ rid fs, sentTo w sf = sentTo w s ++
      [(MsgPlayed, PlayedMsg (single u c))] ++
      [(MsgResult, ResultNtf rid (landlord (lg s)) fs (bool_decide (u = landlord (lg s))) (baseScore (lg s)))]).
    { intros w Hw. destruct (finish_sent (bool_decide (u = landlord (lg s1))) s1 w) as (rid & fs & E);
        [apply (pi_live _ H1)|exact (se_online _ _ _ (H4 w Hw))|]. exists rid, fs. unfold sf. rewrite E. unfold sentTo at 1.
      unfold s1. cbn [rm Broadcast emit emits out]. rewrite framesTo_app, (frames_one os s u w _ _ HR Hw), <- app_assoc. done. }
    split; [|intros w Hw; destruct (Hfin w Hw) as (rid & fs & ->); eexists _, _; split; [reflexivity|];
      split; [apply Forall_singleton; by apply quiet_frame|done]].
    pose proof (applyPlay_run playFuel u [ID c] s H1 H3 (need_playFuel _ H1)) as Hrun. rewrite Heq in Hrun.
    destruct (finish_out (bool_decide (u = landlord (lg s1))) s1) as (es & _ & _ & _ & _ & Hlg); [apply (pi_live _ H1)|]. fold sf in Hlg.
    destruct Hrun as [HP|HD]; [destruct (pi_live _ HP) as (_ & Hf & _); by rewrite Hlg in Hf|]. split; [done|].
    exists u, (mkPlayer kept (alive hp)). rewrite Hlg. cbn [players set_turnTimer set_finished lg s1 afterSingle landlord baseScore].
    split; [by apply lookup_insert_eq|]. split; [done|]. intros w Hw. destruct (Hfin w Hw) as (rid & fs & ->).
    exists (sentTo w s ++ [(MsgPlayed, PlayedMsg (single u c))]), rid, fs. by rewrite <- app_assoc.
  - destruct (next_seat _ _ _ HR) as (v & Hv & Hvos & Hni & Hr3). rewrite H2 in Hv.
    change (nextIndex (cur (lg s1)) (lg s1)) with (nextIndex (cur (lg s)) (lg s)) in Heq. rewrite Hni in Heq. cbn [rbind] in Heq.
    destruct (nextTurn_online (applyPlay pf) false (onL (set_cur ((cur (lg s) + 1) mod 3)) s1) v) as (s' & turn & Hs' & -> & Hrt);
      [cbn; by rewrite H2|cbn; lia|exact (se_online _ _ _ (H4 _ Hvos))|]. rewrite Hs' in Heq.
    exists s'. split; [done|]. left. exists v. eapply turn_passes; [exact HR|exact Heq|exact Hrt|..]; try done.
    + apply (pi_live _ H1).
    + unfold need. cbn [lg onL set_cur s1 afterSingle players lastPlayed passCount set_passCount set_lastPlayed set_players].
      assert (length (handsOf (players (lg s))) = length (handsOf (<[u:=mkPlayer kept (alive hp)]> (players (lg s)))) + 1)%nat as Hlen.
      { rewrite (handsOf_update (players (lg s)) u hp kept (alive hp) [c]) by done. by rewrite length_app. }
      pose proof (pi_last _ H1) as Hl. unfold lastOK in Hl. destruct (lastPlayed (lg s)); lia.
    + intros w Hw. rewrite (frames_one os s u w _ _ HR Hw). apply Forall_singleton. by apply quiet_frame.
    + intros w a Hw. by rewrite (after_single os s u w c a HR Hw).
    + intros w a Hw Ha p. rewrite (after_single os s u w c a HR Hw). cbn [agHand]. cbn [lg onL set_cur s1 afterSingle players set_passCount set_lastPlayed set_players].
      destruct (decide (u = w)) as [<-|Hne].
      * rewrite lookup_insert_eq. intros [= <-] d. cbn [hand]. rewrite elem_of_removeCards, Hkept, (Ha _ Hp). done.
      * rewrite lookup_insert_ne by done. by apply Ha.
    + intros w a Hw _. rewrite (after_single os s u w c a HR Hw). unfold lastSeen. cbn. split; [done|]. exists c.
      split; [done|]. pose proof fullDeck_ranks as Hfr. rewrite Forall_forall in Hfr. by apply Hfr, Hdeck.
Qed.

(** ** The bidding stage *)

Record ReadyBid (os : list string) (s : st) (u : string) : Prop := {
  rb_inv : BInv s;
  rb_order : order (lg s) = os;
  rb_move : os !! Z.to_nat (bidIndex (lg s)) = Some u;
  rb_score : maxScore (lg s) = bidCount (lg s);
  rb_seen w : w ∈ os → Seen s u w;
  rb_view w : w ∈ os → let a := view w (sentTo w s) in
    agStage a = ddzStageBidding ∧ agMax a = maxScore (lg s) ∧ agLast a = None }.

Lemma retimed_trans (F : Logic → Logic) (G : room → room) s s1 s2 :
  (∀ t l, F (set_turnTimer t l) = set_turnTimer t (F l)) → (∀ r ts n, G (set_timers r ts n) = set_timers (G r) ts n) →
  retimed s s1 → retimed (mkSt (F (lg s1)) (G (rm s1))) s2 → retimed (mkSt (F (lg s)) (G (rm s))) s2.
Proof.
  intros HF HG [[t Hl] (ts & n & Hr)] [[t' Hl'] (ts' & n' & Hr')]. split.
  - exists t'. cbn [lg] in *. by rewrite Hl', Hl, HF.
  - exists ts', n'. cbn [rm] in *. by rewrite Hr', Hr, HG.
Qed.

Lemma askBid_online bid s v : order (lg s) !! Z.to_nat (bidIndex (lg s)) = Some v → 0 ≤ bidIndex (lg s) → online (rm s) v →
  ∃ s', askBid_ bid s = Ok s' ∧
    retimed (mkSt (lg s) (Broadcast (rm s) MsgTurn (TurnNtf v EmptyString 0 (nowMs (rm s) + TurnTimeout)) [])) s'.
Proof.
  intros Hv Hc Ho. unfold askBid_, index. rewrite decide_True by lia. rewrite Hv. cbn [rbind].
  rewrite (online_present _ v) by done. eexists. split; [reflexivity|]. apply setTurnTimer_retimed.
Qed.

(** The logic once the landlord holds the three cards. *)
Definition landlordLogic (h : list Card) (hp : player) (i : Z) (l : Logic) : Logic :=
  set_passCount 0 (set_lastPlayed None (set_cur i (set_stage StagePlaying
    (set_players (<[maxBidder l := mkPlayer h (alive hp)]> (players l))
      (set_baseScore (maxScore l) (set_landlord (maxBidder l) l)))))).

Lemma startPlaying_online s hp i : let u := maxBidder (lg s) in let h := sortCards (hand hp ++ landlord3 (lg s)) in
  players (lg s) !! u = Some hp → NoDup (order (lg s)) → order (lg s) !! i = Some u → online (rm s) u →
  ∃ s' ll base dl, startPlaying s = Ok s' ∧
    retimed (mkSt (landlordLogic h hp (Z.of_nat i) (lg s))
      (Broadcast (emits (rm s) [EvPush u MsgDeal (HandNtf h (landlord3 (lg s)));
                                EvBroadcast (recipients (rm s) []) MsgStage (StageNtf StagePlaying)])
         MsgTurn (TurnNtf u ll base dl) [])) s'.
Proof.
  intros u h Hp Hnd Hi Ho. unfold startPlaying. cbn [onL lg landlord set_landlord set_baseScore players]. fold u. rewrite Hp.
  fold h. unfold setHand. cbn [players set_baseScore set_landlord]. fold u. rewrite Hp. cbn [rbind].
  set (s2 := onL (fun l => set_passCount 0 _) _).
  assert (Hs2 : s2 = mkSt (landlordLogic h hp (Z.of_nat i) (lg s))
    (emits (rm s) [EvPush u MsgDeal (HandNtf h (landlord3 (lg s))); EvBroadcast (recipients (rm s) []) MsgStage (StageNtf StagePlaying)])).
  { unfold s2, onL, onR, landlordLogic. cbn [lg rm landlord set_players set_baseScore set_landlord landlord3]. fold u.
    unfold PushTo, Member. rewrite (proj2 Ho). unfold Broadcast, emit. rewrite emits_emits. f_equal. f_equal. f_equal. f_equal.
    unfold landlordIndex, indexOf. cbn [landlord order set_stage set_players set_baseScore set_landlord]. fold u.
    rewrite (indexFrom_lookup _ i) by done. rewrite decide_False by lia. lia. }
  rewrite Hs2. set (s3 := mkSt _ _). unfold nextTurn.
  destruct (nextTurn_online (applyPlay playFuel) false s3 u) as (s' & turn & Hs' & -> & Hrt); [..|by eauto 10].
  - cbn. by rewrite Nat2Z.id.
  - cbn. lia.
  - exact Ho.
Qed.

Lemma bidFuel_S : ∃ bf, bidFuel = S bf.
Proof. by exists 9%nat. Qed.

(** The logic after a bid that raises the score. *)
Definition afterBid (u : string) (sc : Z) (l : Logic) : Logic :=
  set_maxBidder u (set_maxScore sc (set_bidCount (bidCount l + 1) l)).

Lemma applyBid_raise fuel u s : 0 ≤ maxScore (lg s) ≤ 2 → zlen (order (lg s)) = 3 → u ≠ EmptyString →
  let sc := maxScore (lg s) + 1 in
  let s1 := clearTurnTimer (mkSt (afterBid u sc (lg s)) (Broadcast (rm s) MsgCallNtf (CallNtf u sc false) [])) in
  applyBid (S fuel) u sc s =
    if decide (sc = 3 ∨ bidCount (lg s) + 1 >= 3) then startPlaying s1
    else let! i := nextIndex (bidIndex (lg s)) (lg s1) in askBid_ (applyBid fuel) (onL (set_bidIndex i) s1).
Proof.
  intros Hm Hz Hu sc s1. cbn [applyBid]. rewrite (decide_False (P := sc < 0 ∨ _)) by lia. rewrite (decide_False (P := sc > 0 ∧ _)) by lia.
  cbv zeta. replace (sc =? 0) with false by (symmetry; apply Z.eqb_neq; lia).
  match goal with |- context [clearTurnTimer ?x] => assert (x = mkSt (afterBid u sc (lg s)) (Broadcast (rm s) MsgCallNtf (CallNtf u sc false) [])) as -> end.
  { unfold onL, onR. cbn [lg rm]. cbn [maxScore set_bidCount]. rewrite (proj2 (Z.gtb_lt _ _)) by lia. done. }
  fold s1. assert (Hl : lg s1 = set_turnTimer None (afterBid u sc (lg s))) by apply clear_lg.
  rewrite !Hl. cbn [maxScore bidCount order set_turnTimer afterBid set_maxBidder set_maxScore set_bidCount]. rewrite Hz.
  case_decide; [|done]. unfold finishBidding_. rewrite Hl.
  cbn [maxScore maxBidder set_turnTimer afterBid set_maxBidder set_maxScore set_bidCount]. rewrite decide_False; [done|].
  intros [?|?]; [lia|done].
Qed.

Lemma OnMessage_bid os s u sc : ReadyBid os s u → OnMessage u 0x1300 (CallReq sc) s = applyBid bidFuel u sc s.
Proof.
  intros [H1 H2 H3 _ _ _]. unfold OnMessage. destruct (bi_live _ H1) as (-> & -> & Hst). cbn [negb orb].
  unfold currentUID. rewrite Hst. cbn [Z.eqb StageBidding Pos.eqb]. unfold index.
  pose proof (bi_count _ H1). rewrite (bi_index _ H1) in *. rewrite decide_True by lia. rewrite H2, H3. cbn [rbind].
  by rewrite decide_False by tauto.
Qed.

(** What a request of the bidding stage leads to. *)
Definition bidOn (os : list string) (s s' : st) (v : string) : Prop :=
  ∀ w, w ∈ os → ∃ pre t, sentTo w s' = sentTo w s ++ pre ++ [t] ∧ Forall (fun f => ¬ myTurn w f) pre ∧ (myTurn w t → w = v).

Lemma frame_cast os s u w id m : ReadyBid os s u → w ∈ os → frameIn w (EvBroadcast (recipients (rm s) []) id m) = [(id, m)].
Proof. intros HR Hw. apply frame_broadcast. by apply (rb_seen _ _ _ HR). Qed.

(** What a call tells a bot. *)
Lemma after_call os s u w sc a es : ReadyBid os s u → w ∈ os →
  after w (EvBroadcast (recipients (rm s) []) MsgCallNtf (CallNtf u sc false) :: es) a =
  after w es (if sc >? agMax a then mkAgent (agHand a) (agStage a) (agCur a) sc (agLast a) (agOver a) else a).
Proof.
  intros HR Hw. unfold after, framesTo. cbn [mbind list_bind]. rewrite (frame_cast os s u w _ _ HR Hw). by rewrite foldl_app.
Qed.

Lemma BInv_PInv s : BInv s → PInv s → False.
Proof. intros H1 H2. destruct (bi_live _ H1) as (_ & _ & E1), (pi_live _ H2) as (_ & _ & E2). by rewrite E1 in E2. Qed.

(** The first and the second bid: the turn passes. *)
Lemma serve_bid os s u : ReadyBid os s u → u ≠ EmptyString → bidCount (lg s) < 2 →
  ∃ s' v, applyBid bidFuel u (maxScore (lg s) + 1) s = Ok s' ∧ ReadyBid os s' v ∧
    bidCount (lg s') = bidCount (lg s) + 1 ∧ bidOn os s s' v.
Proof.
  intros HR Hne Hlt. destruct bidFuel_S as [bf Hbf]. pose proof HR as [H1 H2 H3 H4 H5 H6].
  pose proof (dealt_seats _ _ _ (bi_dealt _ H1)) as Hseats. pose proof (bi_count _ H1) as Hbc. pose proof (bi_index _ H1) as Hbi.
  set (sc := maxScore (lg s) + 1).
  pose proof (applyBid_raise bf u s (bi_score _ H1) (seats_zlen _ _ Hseats) Hne) as Heq. cbv zeta in Heq. fold sc in Heq.
  rewrite <- Hbf in Heq. set (s0 := mkSt _ _) in Heq. rewrite decide_False in Heq by lia.
  destruct (nextIndex_run (bidIndex (lg s)) (lg (clearTurnTimer s0)) (players (lg s))) as [Hni Hr3];
    [rewrite clear_lg; exact Hseats|lia|]. rewrite Hni in Heq. cbn [rbind] in Heq.
  destruct (seats_index _ _ _ Hseats Hr3) as (v & pv & Hv & _). assert (Hvos : v ∈ os) by (rewrite <- H2; by eapply list_elem_of_lookup_2).
  set (i := (bidIndex (lg s) + 1) mod 3) in *.
  destruct (askBid_online (applyBid bf) (onL (set_bidIndex i) (clearTurnTimer s0)) v) as (s' & Hs' & Hrt).
  { cbn [lg onL]. rewrite clear_lg. exact Hv. } { cbn. lia. }
  { apply (retimed_online s0 (clearTurnTimer s0)); [apply clear_retimed|]. exact (se_online _ _ _ (H5 _ Hvos)). }
  rewrite Hs' in Heq. apply (retimed_trans (set_bidIndex i)
    (fun r => Broadcast r MsgTurn (TurnNtf v EmptyString 0 (nowMs r + TurnTimeout)) []) s0 (clearTurnTimer s0)) in Hrt; [|done|done|apply clear_retimed].
  set (es := [EvBroadcast (recipients (rm s) []) MsgCallNtf (CallNtf u sc false)]).
  assert (Hes : ∀ w, w ∈ os → framesTo w es = [(MsgCallNtf, CallNtf u sc false)]).
  { intros w Hw. unfold es, framesTo. cbn [mbind list_bind]. by rewrite (frame_cast os s u w _ _ HR Hw). }
  set (s2 := mkSt _ _) in Hrt. destruct (proj1 Hrt) as [t Hlg].
  assert (Hseen : ∀ w, w ∈ os → sentTo w s' = sentTo w s ++ framesTo w es ++ [(MsgTurn, TurnNtf v EmptyString 0 (nowMs (rm s0) + TurnTimeout))] ∧
    view w (sentTo w s') = withCur v (after w es (view w (sentTo w s))) ∧ Seen s' v w).
  { intros w Hw. eapply (Seen_next s s2 s' u v w es); [by apply H5|exact Hrt| | |].
    - unfold s2, s0, es. cbn [rm lg onL]. unfold Broadcast, emit. by rewrite emits_emits.
    - rewrite Hes by done. apply Forall_singleton. by apply quiet_frame.
    - intros a Ha p Hp c. unfold es. rewrite (after_call os s u w sc a [] HR Hw). case_match; by apply Ha. }
  exists s', v. split; [done|].
  pose proof (applyBid_Post u sc s H1) as Hrun. rewrite Heq in Hrun. unfold run in Hrun.
  split; [split|split].
  - destruct Hrun as [[HB|HP]|HD]; [rewrite H2; by eapply list_elem_of_lookup_2|done|..].
    + destruct (pi_live _ HP) as (_ & _ & Hs). rewrite Hlg in Hs. cbn in Hs. destruct (bi_live _ H1) as (_ & _ & Hs1). by rewrite Hs1 in Hs.
    + pose proof (dn_finished _ HD) as Hf. rewrite Hlg in Hf. cbn in Hf. destruct (bi_live _ H1) as (_ & Hf1 & _). congruence.
  - rewrite Hlg. exact H2.
  - rewrite Hlg. cbn. by rewrite <- H2.
  - rewrite Hlg. cbn. lia.
  - intros w Hw. by apply Hseen.
  - intros w Hw. destruct (H6 w Hw) as (A1 & A2 & A3). destruct (Hseen w Hw) as (_ & -> & _).
    unfold es. rewrite (after_call os s u w sc _ [] HR Hw), A2, (proj2 (Z.gtb_lt _ _)) by lia. cbn. split; [done|]. split; [|done].
    by rewrite Hlg.
  - rewrite Hlg. reflexivity.
  - intros w Hw. destruct (Hseen w Hw) as (-> & _). eexists _, _. split; [reflexivity|]. rewrite Hes by done.
    split; [|apply turn_frame]. apply Forall_singleton. by apply quiet_frame.
Qed.

Lemma onFrame_deal w h l3 a : onFrame w (MsgDeal, HandNtf h l3) a = (mkAgent (h ++ l3) (agStage a) (agCur a) (agMax a) (agLast a) (agOver a), None).
Proof. reflexivity. Qed.
Lemma onFrame_stage w stg a : onFrame w (MsgStage, StageNtf stg) a = (mkAgent (agHand a) stg (agCur a) (agMax a) (agLast a) (agOver a), None).
Proof. reflexivity. Qed.

(** The third bid, of three: the bidder becomes the landlord and leads. *)
Lemma serve_last_bid os s u : ReadyBid os s u → u ≠ EmptyString → bidCount (lg s) = 2 →
  ∃ s', applyBid bidFuel u (maxScore (lg s) + 1) s = Ok s' ∧ ReadyPlay os s' u ∧ bidOn os s s' u.
Proof.
  intros HR Hne Heq2. destruct bidFuel_S as [bf Hbf]. pose proof HR as [H1 H2 H3 H4 H5 H6].
  pose proof (dealt_seats _ _ _ (bi_dealt _ H1)) as Hseats. pose proof (bi_index _ H1) as Hbi.
  pose proof (applyBid_raise bf u s (bi_score _ H1) (seats_zlen _ _ Hseats) Hne) as Heq. cbv zeta in Heq.
  set (sc := maxScore (lg s) + 1) in *. rewrite <- Hbf in Heq. set (s0 := mkSt _ _) in Heq. rewrite decide_True in Heq by lia.
  assert (Huos : u ∈ os) by (by eapply list_elem_of_lookup_2). rewrite <- H2 in H3.
  destruct (proj1 (seats_dom _ _ Hseats u)) as [hp Hhp]; [by rewrite H2|].
  destruct (startPlaying_online (clearTurnTimer s0) hp (Z.to_nat (bidIndex (lg s)))) as (s' & ll & base & dl & Hs' & Hrt);
    [rewrite clear_lg..| |].
  { exact Hhp. } { apply (seats_nodup _ _ Hseats). } { exact H3. }
  { rewrite clear_lg. apply (retimed_online s0 (clearTurnTimer s0)); [apply clear_retimed|]. exact (se_online _ _ _ (H5 _ Huos)). }
  rewrite Hs' in Heq. rewrite clear_lg in Hrt. cbn [maxBidder set_turnTimer s0 lg afterBid set_maxBidder landlord3 set_maxScore set_bidCount] in Hrt.
  set (h := sortCards (hand hp ++ landlord3 (lg s))) in Hrt. set (i := Z.of_nat _) in Hrt.
  set (s2 := mkSt (landlordLogic h hp i (afterBid u sc (lg s)))
    (Broadcast (emits (rm s0) [EvPush u MsgDeal (HandNtf h (landlord3 (lg s))); EvBroadcast (recipients (rm s0) []) MsgStage (StageNtf StagePlaying)])
         MsgTurn (TurnNtf u ll base dl) [])).
  assert (Hrt2 : retimed s2 s').
  { apply (retimed_trans (landlordLogic h hp i) (fun r => Broadcast (emits r [EvPush u MsgDeal (HandNtf h (landlord3 (lg s)));
      EvBroadcast (recipients r []) MsgStage (StageNtf StagePlaying)]) MsgTurn (TurnNtf u ll base dl) []) s0 (clearTurnTimer s0));
      [done|done|apply clear_retimed|]. rewrite clear_lg. exact Hrt. }
  set (es := [EvBroadcast (recipients (rm s) []) MsgCallNtf (CallNtf u sc false); EvPush u MsgDeal (HandNtf h (landlord3 (lg s)));
    EvBroadcast (recipients (rm s) []) MsgStage (StageNtf StagePlaying)]).
  assert (Haf : ∀ w a, w ∈ os → after w es a =
    mkAgent (if decide (u = w) then h ++ landlord3 (lg s) else agHand a) StagePlaying (agCur a) (Z.max sc (agMax a)) (agLast a) (agOver a)).
  { intros w a Hw. unfold es. rewrite (after_call os s u w sc a _ HR Hw). unfold after, framesTo. cbn [mbind list_bind].
    rewrite (frame_cast os s u w _ _ HR Hw). cbn [frameIn].
    destruct (decide (u = w)), (Z.gtb_spec sc (agMax a)); cbn [app foldl]; rewrite ?onFrame_deal, onFrame_stage;
      cbn [fst agHand agStage agCur agMax agLast agOver]; f_equal; lia. }
  destruct (proj1 Hrt2) as [t Hlg].
  assert (Hpl : players (lg s') = <[u := mkPlayer h (alive hp)]> (players (lg s))) by by rewrite Hlg.
  assert (Hseen : ∀ w, w ∈ os → sentTo w s' = sentTo w s ++ framesTo w es ++ [(MsgTurn, TurnNtf u ll base dl)] ∧
    view w (sentTo w s') = withCur u (after w es (view w (sentTo w s))) ∧ Seen s' u w).
  { intros w Hw. eapply (Seen_next s s2 s' u u w es); [by apply H5|exact Hrt2| | |].
    - unfold s2, s0, es. cbn [rm]. unfold Broadcast, emit. by rewrite !emits_emits.
    - unfold es, framesTo. cbn [mbind list_bind]. rewrite !(frame_cast os s u w _ _ HR Hw). cbn [frameIn].
      case_decide; cbn [app]; repeat (apply Forall_cons_2; [by intros ?|]); apply Forall_nil_2.
    - intros a Ha p Hp c. rewrite Haf by done. cbn [agHand]. revert Hp. cbn [s2 lg landlordLogic players set_passCount set_lastPlayed set_cur set_stage set_players].
      cbn [afterBid maxBidder set_maxBidder players set_maxScore set_bidCount]. case_decide as E.
      + subst w. rewrite lookup_insert_eq. intros [= <-]. cbn [hand]. unfold h. rewrite elem_of_app, sortCards_perm, elem_of_app. tauto.
      + rewrite lookup_insert_ne by done. intros Hp. by apply Ha. }
  exists s'. split; [done|]. pose proof (applyBid_Post u sc s H1) as Hrun. rewrite Heq in Hrun. unfold run in Hrun.
  split; [split|].
  - destruct Hrun as [[HB|HP]|HD]; [by rewrite H2|..|].
    + destruct (bi_live _ HB) as (_ & _ & E). by rewrite Hlg in E.
    + done.
    + pose proof (dn_finished _ HD) as Hf. rewrite Hlg in Hf. cbn in Hf. destruct (bi_live _ H1) as (_ & Hf1 & _). congruence.
  - by rewrite Hlg.
  - unfold toMove. rewrite Hlg. cbn. unfold i. by rewrite Nat2Z.id.
  - intros w Hw. by apply Hseen.
  - intros w Hw. destruct (Hseen w Hw) as (_ & -> & _). by rewrite Haf.
  - intros w Hw. destruct (Hseen w Hw) as (_ & -> & _). rewrite Haf by done. rewrite Hlg. unfold lastSeen. cbn.
    destruct (H6 w Hw) as (_ & _ & ->). done.
  - intros w Hw. destruct (Hseen w Hw) as (-> & _). eexists _, _. split; [reflexivity|]. split; [|apply turn_frame].
    unfold es, framesTo. cbn [mbind list_bind]. rewrite !(frame_cast os s u w _ _ HR Hw). cbn [frameIn].
    case_decide; cbn [app]; repeat (apply Forall_cons_2; [by intros [? ?]|]); apply Forall_nil_2.
Qed.

(** ** Three bots at the table *)

Definition Ready (os : list string) (s : st) (u : string) : Prop := (ReadyBid os s u ∧ u ≠ EmptyString) ∨ ReadyPlay os s u.

(** Requests that can still be served. *)
Definition movesLeft (s : st) : nat :=
  if decide (stage (lg s) = StageBidding) then (200 + Z.to_nat (3 - bidCount (lg s)))%nat else need s.

Lemma movesLeft_bid s : BInv s → movesLeft s = (200 + Z.to_nat (3 - bidCount (lg s)))%nat.
Proof. intros H1. unfold movesLeft. destruct (bi_live _ H1) as (_ & _ & ->). done. Qed.
Lemma movesLeft_play s : PInv s → movesLeft s = need s.
Proof. intros H1. unfold movesLeft. destruct (pi_live _ H1) as (_ & _ & ->). done. Qed.

Lemma act_bid os s u : ReadyBid os s u → u ∈ os → act u (view u (sentTo u s)) = Some (0x1300, CallReq (maxScore (lg s) + 1)).
Proof.
  intros [H1 H2 H3 H4 H5 H6] Hu. destruct (H6 u Hu) as (A1 & A2 & _). unfold act. rewrite (se_cur _ _ _ (H5 u Hu)).
  rewrite decide_False by tauto. rewrite A1, decide_True by done. rewrite A2. pose proof (bi_score _ H1).
  by rewrite decide_True by lia.
Qed.

Lemma act_play os s u : ReadyPlay os s u → u ∈ os → act u (view u (sentTo u s)) =
  Some (0x1301, PlayReq (pickSinglePlay (agHand (view u (sentTo u s))) (agLast (view u (sentTo u s))) u)).
Proof.
  intros [H1 H2 H3 H4 H5 H6] Hu. unfold act. rewrite (se_cur _ _ _ (H4 u Hu)). rewrite decide_False by tauto.
  by rewrite (H5 u Hu).
Qed.

Lemma Ready_seat os s u : Ready os s u → u ∈ os.
Proof.
  intros [[HR _]|HR]; [by eapply list_elem_of_lookup_2, (rb_move _ _ _ HR)|]. by destruct (ready_hand _ _ _ HR) as (? & _ & _ & ? & _).
Qed.

Lemma Ready_seen os s u w : Ready os s u → w ∈ os → Seen s u w.
Proof. intros [[HR _]|HR] Hw; [by apply (rb_seen _ _ _ HR)|by apply (rp_seen _ _ _ HR)]. Qed.

(** Every request of a bot that knows the table is accepted and brings the
    game closer to its end. *)
Lemma Ready_serve os s u id rq : NoDup os → Forall (.≠ EmptyString) os → Ready os s u →
  act u (view u (sentTo u s)) = Some (id, rq) →
  ∃ s', OnMessage u id rq s = Ok s' ∧
    ((∃ v, Ready os s' v ∧ (movesLeft s' < movesLeft s)%nat ∧ bidOn os s s' v) ∨
     (GameOver os s' ∧ ∀ w, w ∈ os → ∃ pre t, sentTo w s' = sentTo w s ++ pre ++ [t] ∧
        Forall (fun f => ¬ myTurn w f ∧ ¬ isResult f) pre ∧ isResult t)).
Proof.
  intros Hnd Hne HRd Hact. pose proof (Ready_seat _ _ _ HRd) as Hu. destruct HRd as [[HR Hue]|HR].
  - rewrite (act_bid _ _ _ HR Hu) in Hact. injection Hact as <- <-. rewrite (OnMessage_bid _ _ _ _ HR).
    pose proof (bi_count _ (rb_inv _ _ _ HR)). destruct (decide (bidCount (lg s) < 2)) as [Hlt|Hge].
    + destruct (serve_bid _ _ _ HR Hue Hlt) as (s' & v & -> & HR' & Hc & Hb). exists s'. split; [done|]. left. exists v.
      split; [|split; [|done]].
      * left. split; [done|]. rewrite Forall_forall in Hne. apply Hne. by eapply list_elem_of_lookup_2, (rb_move _ _ _ HR').
      * rewrite !movesLeft_bid by (apply (rb_inv _ _ _ HR) || apply (rb_inv _ _ _ HR')). lia.
    + destruct (serve_last_bid _ _ _ HR Hue ltac:(lia)) as (s' & -> & HR' & Hb). exists s'. split; [done|]. left. exists u.
      split; [by right|]. split; [|done]. rewrite (movesLeft_bid s) by apply (rb_inv _ _ _ HR).
      rewrite movesLeft_play by apply (rp_inv _ _ _ HR'). pose proof (need_playFuel s' (rp_inv _ _ _ HR')). unfold playFuel in *. lia.
  - rewrite (act_play _ _ _ HR Hu) in Hact. injection Hact as <- <-. rewrite (OnMessage_play _ _ _ _ HR).
    destruct (ready_hand _ _ _ HR) as (hp & Hp & Hh & _). pose proof (rp_last _ _ _ HR u Hu) as Hl.
    pose proof (se_hand _ _ _ (rp_seen _ _ _ HR u Hu) hp Hp) as Hmem. set (a := view u (sentTo u s)) in *.
    assert (Hah : agHand a ≠ []).
    { intros E. destruct (hand hp) as [|c h]; [done|]. assert (c ∈ agHand a) as Hc by (apply Hmem; by left). rewrite E in Hc.
      by apply elem_of_nil in Hc. }
    assert (Hmoved : ∀ s' v, ReadyPlay os s' v → movedOn os s s' v → ∃ v, Ready os s' v ∧ (movesLeft s' < movesLeft s)%nat ∧ bidOn os s s' v).
    { intros s' v HR' [Hn Hf]. exists v. split; [by right|]. split; [|done].
      rewrite !movesLeft_play by (apply (rp_inv _ _ _ HR) || apply (rp_inv _ _ _ HR')). done. }
    assert (Hplay : ∀ c, c ∈ agHand a → (∀ lp, lastPlayed (lg s) = Some lp → ∃ d, pCards lp = [d] ∧ Rank d < Rank c) →
      ∃ s', applyPlay playFuel u [ID c] s = Ok s' ∧ ((∃ v, Ready os s' v ∧ (movesLeft s' < movesLeft s)%nat ∧ bidOn os s s' v) ∨
       (GameOver os s' ∧ ∀ w, w ∈ os → ∃ pre t, sentTo w s' = sentTo w s ++ pre ++ [t] ∧
        Forall (fun f => ¬ myTurn w f ∧ ¬ isResult f) pre ∧ isResult t))).
    { intros c Hc Hb. destruct (serve_play _ _ _ c _ HR Hp) as (s' & Hs' & [(v & HR' & Hm)|Hov]); [by apply Hmem|done|..];
        exists s'; (split; [done|]); [left; by eapply Hmoved|by right]. }
    unfold lastSeen in Hl. destruct (lastPlayed (lg s)) as [lp|] eqn:Hlp.
    + destruct Hl as [Hla (d & Hd & Hr)]. rewrite Hla.
      destruct (pick_follow (agHand a) (mkLast (pUID lp) (pCards lp) false) d u) as [->|(c & -> & Hc & Hlt)];
        [done|by eapply last_other|done|done|..].
      * destruct (serve_pass _ _ _ _ HR Hlp) as (s' & v & Hs' & HR' & Hm). exists s'. split; [done|]. left. by eapply Hmoved.
      * apply Hplay; [done|]. intros lp' [= <-]. by exists d.
    + destruct (pick_free (agHand a) (agLast a) u Hah Hl) as (c & -> & Hc). by apply Hplay.
Qed.
End Game.
