(* ===== verification/CardGame.v ===== *)
(** * The card room logic (games/card/logic.go)

    Two players, five rounds: each lays one of five cards, the higher point
    takes the round. A handler runs on the logic state and the room context. *)

From S2P Require Import Prelude RoomCtx.

Definition HandCards : Z := 5.
Definition MsgPlay : Z := 0x1100.
Definition MsgRound : Z := 0x1101.
Definition MsgResult : Z := 0x1102.
Definition MsgDeal : Z := 0x1103.

Record PlayNtf := mkPlay { plUID : string; plCard : Z; plWin : bool }.

Inductive cmsg :=
| MemberNtf (uid ev : string)
| DealNtf (hand : list Z) (total : Z)
| RoundNtf (round : Z) (plays : list PlayNtf) (isLast : bool)
| ResultNtf (room winner : string) (rounds : Z) (scores : list (string * Z)) (timeout : bool).

(** A hand is the list of the points of its cards. *)
Record cardPlayer := mkPlayer { hand : list Z; used : gset Z; play : Z; score : Z }.

Record Logic := mkLogic {
  players : gmap string cardPlayer;
  order : list string;
  round : Z;
  started : bool;
  finished : bool;
  seed : Z;
  maxPlayers : Z }.                (* cfg.MaxPlayers *)

Definition set_players (v : gmap string cardPlayer) (l : Logic) : Logic :=
  mkLogic v (order l) (round l) (started l) (finished l) (seed l) (maxPlayers l).
Definition set_order (v : list string) (l : Logic) : Logic :=
  mkLogic (players l) v (round l) (started l) (finished l) (seed l) (maxPlayers l).
Definition set_round (v : Z) (l : Logic) : Logic :=
  mkLogic (players l) (order l) v (started l) (finished l) (seed l) (maxPlayers l).
Definition set_started (v : bool) (l : Logic) : Logic :=
  mkLogic (players l) (order l) (round l) v (finished l) (seed l) (maxPlayers l).
Definition set_finished (v : bool) (l : Logic) : Logic :=
  mkLogic (players l) (order l) (round l) (started l) v (seed l) (maxPlayers l).
Definition set_seed (v : Z) (l : Logic) : Logic :=
  mkLogic (players l) (order l) (round l) (started l) (finished l) v (maxPlayers l).

Definition room : Type := rctx cmsg unit.
Record st := mkSt { lg : Logic; rm : room }.
Definition onL (f : Logic → Logic) (s : st) : st := mkSt (f (lg s)) (rm s).
Definition onR (f : room → room) (s : st) : st := mkSt (lg s) (f (rm s)).

Definition NewLogic (maxP : Z) : Logic := mkLogic ∅ [] 0 false false 20260922 maxP.

(** Go's [%] truncates, so the point of a card may be zero or negative. *)
Definition point (sd : Z) : Z := Z.rem (Z.shiftr sd 16) 13 + 1.

Fixpoint deckLoop (n : nat) (sd : Z) : list Z * Z :=
  match n with
  | O => ([], sd)
  | S n => let sd := lcg sd in let '(deck, sd') := deckLoop n sd in (point sd :: deck, sd')
  end.

(** [for j := 0; j < HandCards; j++ { cp.hand = append(cp.hand, deck[i+j*len(order)]) }] *)
Fixpoint pick (cnt : nat) (i n : Z) (deck h : list Z) : res (list Z) :=
  match cnt with
  | O => Ok h
  | S cnt => let! c := index deck i in pick cnt (i + n) n deck (h ++ [c])
  end.

Fixpoint dealTo (i : Z) (os : list string) (n : Z) (deck : list Z) (s : st) : res st :=
  match os with
  | [] => Ok s
  | uid :: os =>
      match players (lg s) !! uid with
      | None => Panic
      | Some cp =>
          let! h := pick (Z.to_nat HandCards) i n deck (hand cp) in
          let s := onL (fun l => set_players (<[uid := mkPlayer h (used cp) (play cp) (score cp)]> (players l)) l) s in
          dealTo (i + 1) os n deck (onR (fun r => PushTo r uid MsgDeal (DealNtf h HandCards)) s)
      end
  end.

Definition deal (s : st) : res st :=
  let n := zlen (order (lg s)) in
  let '(deck, sd) := deckLoop (Z.to_nat (n * HandCards)) (seed (lg s)) in
  dealTo 0 (order (lg s)) n deck (onL (set_seed sd) s).

Definition OnDestroy (l : Logic) (r : room) : room :=
  if profileStore r then
    emits r ((fun p => EvPatch (fst p) "extra.card_last_score" (score (snd p))) <$> map_to_list (players l))
  else r.

Definition Close (s : st) : st := mkSt (lg s) (doClose (OnDestroy (lg s)) (rm s)).

Fixpoint scoresOf (os : list string) (l : Logic) : res (list (string * Z)) :=
  match os with
  | [] => Ok []
  | u :: os =>
      match players l !! u with
      | None => Panic
      | Some cp => let! ss := scoresOf os l in Ok ((u, score cp) :: ss)
      end
  end.

Definition finish (winner : string) (timeout : bool) (s : st) : res st :=
  let s := onL (set_finished true) s in
  let! scores := scoresOf (order (lg s)) (lg s) in
  let result := ResultNtf (roomID (rm s)) winner (round (lg s)) scores timeout in
  let s := onR (fun r => Broadcast r MsgResult result []) s in
  let s := onR (fun r => emit r (EvSetSync "card_result" (roomID r) result)) s in
  let s := if decide (winner ≠ EmptyString)
           then onR (fun r => emit r (EvZIncrBy "card_score" winner 1)) s else s in
  Ok (Close s).

(** The loop over the plays of a round. *)
Record tally := mkTally { best : Z; winners : list string; plays : list (string * Z) }.

Fixpoint roundLoop (os : list string) (t : tally) (ps : gmap string cardPlayer)
    : res (tally * gmap string cardPlayer) :=
  match os with
  | [] => Ok (t, ps)
  | uid :: os =>
      match ps !! uid with
      | None => Panic
      | Some cp =>
          let! pt := index (hand cp) (play cp) in
          let '(b, ws) := if pt >? best t then (pt, [uid])
                          else if pt =? best t then (best t, winners t ++ [uid])
                          else (best t, winners t) in
          roundLoop os (mkTally b ws (plays t ++ [(uid, pt)]))
            (<[uid := mkPlayer (hand cp) ({[play cp]} ∪ used cp) (-1) (score cp)]> ps)
      end
  end.

(** [for _, uid := range l.order { if cp == nil || cp.play < 0 { return } }] *)
Definition allPlayed (l : Logic) : bool :=
  forallb (fun uid => match players l !! uid with Some cp => negb (play cp <? 0) | None => false end) (order l).

Definition tryResolveRound (s : st) : res st :=
  let l := lg s in
  if zlen (order l) <? maxPlayers l then Ok s else
  if negb (allPlayed l) then Ok s else
  let s := onL (fun l => set_round (round l + 1) l) s in
  let! (t, ps) := roundLoop (order l) (mkTally (-1) [] []) (players l) in
  let! ps := match winners t with
             | [w] => match ps !! w with
                      | Some cp => Ok (<[w := mkPlayer (hand cp) (used cp) (play cp) (score cp + 1)]> ps)
                      | None => Panic
                      end
             | _ => Ok ps
             end in
  let s := onL (set_players ps) s in
  let pls := (fun p => mkPlay (fst p) (snd p) (mem (fst p) (winners t))) <$> plays t in
  let s := onR (fun r => Broadcast r MsgRound (RoundNtf (round (lg s)) pls (round (lg s) >=? HandCards)) []) s in
  if round (lg s) >=? HandCards then finish EmptyString false s else Ok s.

(** ** Handlers *)

Definition OnCreate (s : st) : st := s.

Definition OnJoin (uid : string) (s : st) : res st :=
  let s := onL (fun l => set_order (order l ++ [uid])
                           (set_players (<[uid := mkPlayer [] ∅ (-1) 0]> (players l)) l)) s in
  let s := onR (fun r => Broadcast r MsgMemberChange (MemberNtf uid "join") []) s in
  if Z.of_nat (size (players (lg s))) >=? maxPlayers (lg s) then deal (onL (set_started true) s) else Ok s.

(** [idx]: the field of a PlayReq; another payload is [None]. *)
Definition OnMessage (uid : string) (idx : option Z) (s : st) : res st :=
  match idx with
  | None => Ok s
  | Some i =>
      if negb (started (lg s)) || finished (lg s) then Ok s else
      match players (lg s) !! uid with
      | None => Ok s
      | Some cp =>
          if (play cp >=? 0) || (zlen (hand cp) =? 0) then Ok s else
          if decide (i < 0 ∨ i >= zlen (hand cp) ∨ i ∈ used cp) then Ok s else
          tryResolveRound (onL (fun l => set_players (<[uid := mkPlayer (hand cp) (used cp) i (score cp)]> (players l)) l) s)
      end
  end.

(** The first index of the hand that was not played. *)
Fixpoint firstUnused (n : nat) (i : Z) (u : gset Z) : option Z :=
  match n with
  | O => None
  | S n => if decide (i ∈ u) then firstUnused n (i + 1) u else Some i
  end.

Fixpoint tickLoop (os : list string) (s : st) : res st :=
  match os with
  | [] => Ok s
  | uid :: os =>
      match players (lg s) !! uid with
      | None => tickLoop os s
      | Some cp =>
          if play cp >=? 0 then tickLoop os s else
          if memberOffline (rm s) uid then
            let s := match firstUnused (length (hand cp)) 0 (used cp) with
                     | Some i => onL (fun l => set_players (<[uid := mkPlayer (hand cp) (used cp) i (score cp)]> (players l)) l) s
                     | None => s
                     end in
            let! s := tryResolveRound s in
            tickLoop os s
          else tickLoop os s
      end
  end.

Definition Tick (s : st) : res st :=
  if negb (started (lg s)) || finished (lg s) then Ok s else tickLoop (order (lg s)) s.

Definition OnLeave (uid : string) (s : st) : res st :=
  let s := onL (fun l => set_order (remove_first uid (order l)) (set_players (delete uid (players l)) l)) s in
  let s := onR (fun r => Broadcast r MsgMemberChange (MemberNtf uid "leave") [uid]) s in
  if started (lg s) && negb (finished (lg s)) && (zlen (order (lg s)) =? 1) then
    let! w := index (order (lg s)) 0 in finish w false s
  else Ok s.

Definition OnEmpty (s : st) : res st := Ok (Close s).

Definition leader (l : Logic) : string * Z :=
  fold_left (fun '(w, b) uid => match players l !! uid with
                                | Some cp => if score cp >? b then (uid, score cp) else (w, b)
                                | None => (w, b)
                                end) (order l) (EmptyString, -1).

Definition OnTimeout (s : st) : res st :=
  if finished (lg s) then Ok s else finish (fst (leader (lg s))) true s.
