(* ===== verification/CardGameInv.v ===== *)
(** * Theorems on the card game

    The game as a transition system of its handlers, its invariant, and what
    follows for rounds, scores and results. *)

From S2P Require Import Prelude RoomCtx CardGame.

(** ** A round *)

(** The tally of a list of plays, as a function of the plays alone. *)
Definition tallyOf (t : tally) (ps : list (string * Z)) : tally :=
  fold_left (fun t p =>
    let '(b, ws) := if p.2 >? best t then (p.2, [p.1])
                    else if p.2 =? best t then (best t, winners t ++ [p.1]) else (best t, winners t) in
    mkTally b ws (plays t ++ [p])) ps t.

(** The card a player lays this round. *)
Definition laid (ps : gmap string cardPlayer) (uid : string) : Z :=
  match ps !! uid with Some cp => default 0 (hand cp !! Z.to_nat (play cp)) | None => 0 end.

(** After a round the card is used up and nothing is on the table. *)
Definition spend (cp : cardPlayer) : cardPlayer := mkPlayer (hand cp) ({[play cp]} ∪ used cp) (-1) (score cp).

Lemma roundLoop_run os t ps :
  NoDup os → (∀ u, u ∈ os → ∃ cp, ps !! u = Some cp ∧ 0 ≤ play cp < zlen (hand cp)) →
  ∃ ps', roundLoop os t ps = Ok (tallyOf t ((fun u => (u, laid ps u)) <$> os), ps') ∧
    ∀ u, ps' !! u = if decide (u ∈ os) then spend <$> ps !! u else ps !! u.
Proof.
  revert t ps. induction os as [|uid os IH]; intros t ps Hnd Hos.
  { exists ps. split; [done|]. intros u. rewrite decide_False by apply not_elem_of_nil. done. }
  apply NoDup_cons in Hnd as [Hu Hnd]. cbn [roundLoop]. destruct (Hos uid) as (cp & Hcp & Hpl); [set_solver|].
  rewrite Hcp. destruct (index_in_range _ _ Hpl) as (pt & Hpt & ->). cbn [rbind].
  assert (Hl : laid ps uid = pt) by (unfold laid; by rewrite Hcp, Hpt).
  assert (Hrest : ∀ ps1, ps1 = <[uid := spend cp]> ps → ∀ t1,
    ∃ ps', roundLoop os t1 ps1 = Ok (tallyOf t1 ((fun u => (u, laid ps u)) <$> os), ps') ∧
      ∀ u, ps' !! u = if decide (u ∈ uid :: os) then spend <$> ps !! u else ps !! u).
  { intros ps1 -> t1. destruct (IH t1 (<[uid := spend cp]> ps) Hnd) as (ps' & E & H').
    { intros u Hin. rewrite lookup_insert_ne by (intros ->; done). apply Hos. set_solver. }
    exists ps'. rewrite E. split.
    - do 3 f_equal. apply list_fmap_ext. intros i u Hin. apply list_elem_of_lookup_2 in Hin. f_equal.
      unfold laid. by rewrite lookup_insert_ne by (intros ->; done).
    - intros u. rewrite H'. destruct (decide (uid = u)) as [<-|Hne].
      + rewrite decide_False by done. rewrite decide_True by set_solver. by rewrite lookup_insert_eq, Hcp.
      + rewrite lookup_insert_ne by done. destruct (decide (u ∈ os)).
        * by rewrite decide_True by set_solver.
        * by rewrite decide_False by set_solver. }
  rewrite fmap_cons. unfold tallyOf at 1. cbn [fold_left]. rewrite Hl. cbn [fst snd].
  destruct (pt >? best t); [|destruct (pt =? best t)]; by apply Hrest.
Qed.

(** The winners are the players whose card is the highest, if some card is
    worth at least [-1]. *)
Lemma tallyOf_spec ps t :
  best (tallyOf t ps) = foldr Z.max (best t) (ps.*2) ∧
  plays (tallyOf t ps) = plays t ++ ps ∧
  winners (tallyOf t ps) =
    (if best (tallyOf t ps) =? best t then winners t else []) ++
    (filter (fun p => p.2 = best (tallyOf t ps)) ps).*1.
Proof.
  revert t. induction ps as [|[u x] ps IH]; intros t.
  { cbn. rewrite Z.eqb_refl, !app_nil_r. done. }
  assert (Hmax : ∀ (l : list Z) b, b ≤ foldr Z.max b l) by (intros l b; induction l; cbn; lia).
  assert (Hcomm : ∀ (l : list Z) b x, foldr Z.max (x `max` b) l = x `max` foldr Z.max b l)
    by (intros l b y; induction l; cbn; lia).
  rewrite fmap_cons. cbn [foldr snd].
  change (tallyOf t ((u, x) :: ps)) with
    (tallyOf (let '(b, ws) := if x >? best t then (x, [u]) else if x =? best t then (best t, winners t ++ [u])
              else (best t, winners t) in mkTally b ws (plays t ++ [(u, x)])) ps).
  destruct (Z.gtb_spec x (best t)) as [Hgt|Hle]; [|destruct (Z.eqb_spec x (best t)) as [Heq|Hne]].
  - set (t1 := mkTally x [u] (plays t ++ [(u, x)])). destruct (IH t1) as (E1 & E2 & E3). rewrite E1, E2, E3, E1.
    cbn [best winners plays t1]. rewrite <- (Hcomm (ps.*2) (best t) x).
    replace (x `max` best t) with x by lia. split; [done|]. split; [by rewrite <- app_assoc|].
    set (B := foldr Z.max x ps.*2). assert (x ≤ B) by apply Hmax.
    replace (B =? best t) with false by (symmetry; apply Z.eqb_neq; lia). cbn [app].
    destruct (Z.eqb_spec B x) as [HB|HB]; [rewrite filter_cons_True by done|rewrite filter_cons_False by (cbn; lia)]; done.
  - set (t1 := mkTally (best t) (winners t ++ [u]) (plays t ++ [(u, x)])). destruct (IH t1) as (E1 & E2 & E3). rewrite E1, E2, E3, E1.
    cbn [best winners plays t1]. pose proof (Hmax (ps.*2) (best t)). rewrite <- Heq in *.
    set (B := foldr Z.max x ps.*2) in *. replace (x `max` B) with B by lia.
    split; [done|]. split; [by rewrite <- app_assoc|].
    destruct (Z.eqb_spec B x) as [HB|HB].
    + rewrite filter_cons_True by done. by rewrite <- app_assoc.
    + rewrite filter_cons_False by (cbn; lia). done.
  - set (t1 := mkTally (best t) (winners t) (plays t ++ [(u, x)])). destruct (IH t1) as (E1 & E2 & E3). rewrite E1, E2, E3, E1.
    cbn [best winners plays t1]. pose proof (Hmax (ps.*2) (best t)).
    set (B := foldr Z.max (best t) ps.*2) in *. replace (x `max` B) with B by lia.
    split; [done|]. split; [by rewrite <- app_assoc|]. rewrite filter_cons_False by (cbn; lia). done.
Qed.

(** ** The game invariant *)

(** A closing room has released its members. *)
Definition roomOK (r : room) : Prop := closing r = true → members r = ∅.

(** A player in round [rd] of five. *)
Record playerOK (rd : Z) (cp : cardPlayer) : Prop := {
  po_hand : zlen (hand cp) = HandCards;
  po_used i : i ∈ used cp → 0 ≤ i < HandCards;
  po_spent : Z.of_nat (size (used cp)) = rd;
  po_play : play cp = -1 ∨ 0 ≤ play cp < HandCards ∧ play cp ∉ used cp;
  po_score : 0 ≤ score cp ≤ rd }.

Record Mid (s : st) : Prop := {
  md_live : started (lg s) = true ∧ finished (lg s) = false;
  md_nodup : NoDup (order (lg s));
  md_two : zlen (order (lg s)) = 2;
  md_max : maxPlayers (lg s) = 2;
  md_dom u : u ∈ order (lg s) ↔ is_Some (players (lg s) !! u);
  md_round : 0 ≤ round (lg s) < HandCards;
  md_players u cp : players (lg s) !! u = Some cp → playerOK (round (lg s)) cp;
  md_room : roomOK (rm s) }.

(** Between handlers some player has still to lay a card. *)
Definition Playing (s : st) : Prop := Mid s ∧ allPlayed (lg s) = false.
Definition Over (s : st) : Prop := started (lg s) = true ∧ finished (lg s) = true ∧ closing (rm s) = true ∧ members (rm s) = ∅.

Lemma card_scoresOf_run os l :
  (∀ u, u ∈ os → is_Some (players l !! u)) → ∃ ss, scoresOf os l = Ok ss ∧ ss.*1 = os.
Proof.
  induction os as [|u os IH]; intros Hd; cbn; [by exists []|].
  destruct (Hd u) as [cp Hcp]; [set_solver|]. rewrite Hcp. destruct IH as (ss & -> & E); [set_solver|].
  cbn. eexists. split; [done|]. by rewrite fmap_cons, E.
Qed.

Lemma scoresOf_finished os l : scoresOf os (set_finished true l) = scoresOf os l.
Proof. induction os as [|u os IH]; cbn; [done|]. destruct (players l !! u); [|done]. by rewrite IH. Qed.

Lemma Close_closed s : roomOK (rm s) → closing (rm (Close s)) = true ∧ members (rm (Close s)) = ∅.
Proof.
  intros Hr. unfold Close, doClose. cbn [rm]. destruct (closing (rm s)) eqn:E; [split; [done|by apply Hr]|].
  unfold OnDestroy. cbn [set_closing profileStore]. by destruct (profileStore (rm s)).
Qed.

Lemma card_Close_keeps s e : e ∈ out (rm s) → e ∈ out (rm (Close s)).
Proof.
  intros He. unfold Close, doClose. cbn [rm]. destruct (closing (rm s)); [done|].
  unfold OnDestroy. cbn [set_closing profileStore]. destruct (profileStore (rm s)); cbn; rewrite !elem_of_app; tauto.
Qed.

(** Nothing said before is lost when the game finishes. *)
Lemma finish_keeps w tmo s s' e : finish w tmo s = Ok s' → e ∈ out (rm s) → e ∈ out (rm s').
Proof.
  unfold finish. destruct (scoresOf _ _); cbn [rbind]; [|done..]. intros [= <-] He. apply card_Close_keeps.
  case_decide; cbn; rewrite !elem_of_app; tauto.
Qed.

Lemma finish_says w tmo s s' :
  finish w tmo s = Ok s' →
  ∃ to ss, EvBroadcast to MsgResult (ResultNtf (roomID (rm s)) w (round (lg s)) ss tmo) ∈ out (rm s').
Proof.
  unfold finish. destruct (scoresOf _ _) as [ss| |]; cbn [rbind]; [|done..]. intros [= <-].
  exists (recipients (rm s) []), ss. apply card_Close_keeps.
  case_decide; cbn; rewrite !elem_of_app, !list_elem_of_singleton; tauto.
Qed.

Lemma card_finish_run w tmo s :
  (∀ u, u ∈ order (lg s) → is_Some (players (lg s) !! u)) → roomOK (rm s) →
  run (finish w tmo s) (fun s' => lg s' = set_finished true (lg s) ∧
    (closing (rm s') = true ∧ members (rm s') = ∅) ∧
    ∃ to ss, ss.*1 = order (lg s) ∧ scoresOf (order (lg s)) (lg s) = Ok ss ∧
      EvBroadcast to MsgResult (ResultNtf (roomID (rm s)) w (round (lg s)) ss tmo) ∈ out (rm s')).
Proof.
  intros Hd Hr. unfold finish. cbn [onL lg order set_finished].
  destruct (card_scoresOf_run (order (lg s)) (set_finished true (lg s)) Hd) as (ss & E & Hss). rewrite E. cbn [rbind run].
  match goal with |- context [Close ?x] => set (s1 := x) end.
  assert (H1 : lg s1 = set_finished true (lg s)) by (unfold s1; by case_decide).
  split; [exact H1|]. split; [apply Close_closed; unfold s1; by case_decide|].
  exists (recipients (rm s) []), ss. split; [done|]. split.
  { by rewrite <- E, scoresOf_finished. }
  assert (Hin : EvBroadcast (recipients (rm s) []) MsgResult (ResultNtf (roomID (rm s)) w (round (lg s)) ss tmo)
    ∈ out (rm s1)).
  { unfold s1. case_decide; cbn; rewrite !elem_of_app, !list_elem_of_singleton; tauto. }
  by apply card_Close_keeps.
Qed.

Lemma spend_ok rd cp :
  playerOK rd cp → 0 ≤ play cp → rd < HandCards →
  playerOK (rd + 1) (spend cp) ∧
  playerOK (rd + 1) (mkPlayer (hand cp) ({[play cp]} ∪ used cp) (-1) (score cp + 1)).
Proof.
  intros [H1 H2 H3 H4 H5] Hp Hr. destruct H4 as [E|[H4 H4']]; [lia|].
  assert (Hu : ∀ i, i ∈ {[play cp]} ∪ used cp → 0 ≤ i < HandCards).
  { intros i Hi. apply elem_of_union in Hi as [Hi|Hi]; [apply elem_of_singleton in Hi; lia|by apply H2]. }
  assert (Hs : Z.of_nat (size ({[play cp]} ∪ used cp)) = rd + 1).
  { rewrite size_union by set_solver. rewrite size_singleton. lia. }
  split; split; cbn; try done; try (by left); lia.
Qed.

Lemma allPlayed_spec l :
  allPlayed l = true ↔ ∀ u, u ∈ order l → ∃ cp, players l !! u = Some cp ∧ 0 ≤ play cp.
Proof.
  unfold allPlayed. rewrite forallb_forall. setoid_rewrite <- list_elem_of_In. split; intros Hf u Hu; specialize (Hf u Hu).
  - destruct (players l !! u) as [cp|]; [|done]. exists cp. split; [done|]. apply negb_true_iff, Z.ltb_ge in Hf. done.
  - destruct Hf as (cp & -> & ?). apply negb_true_iff, Z.ltb_ge. done.
Qed.

Lemma order_nonempty s : Mid s → ∃ u, u ∈ order (lg s).
Proof.
  intros Hs. pose proof (md_two _ Hs) as H2. destruct (order (lg s)) as [|u os]; [done|]. exists u. set_solver.
Qed.

Lemma tryResolve_run s : Mid s → run (tryResolveRound s) (fun s' => Playing s' ∨ Over s').
Proof.
  intros Hs. pose proof Hs as [(M1 & M1') M2 M3 M4 M5 M6 M7 M8]. unfold tryResolveRound. rewrite M3, M4, Z.ltb_irrefl.
  destruct (allPlayed (lg s)) eqn:Hall; cbn [negb]; [|by left].
  pose proof (proj1 (allPlayed_spec _) Hall) as Hpl.
  destruct (roundLoop_run (order (lg s)) (mkTally (-1) [] []) (players (lg s)) M2) as (ps & -> & Hps).
  { intros u Hu. destruct (Hpl u Hu) as (cp & Hcp & H0). exists cp. split; [done|].
    destruct (M7 _ _ Hcp) as [Hh _ _ Hp _]. rewrite Hh. lia. }
  cbn [rbind]. set (t := tallyOf _ _).
  (* the players after the winner was credited *)
  match goal with |- context [rbind ?x _] => set (credit := x) end.
  assert (Hc : ∃ ps', credit = Ok ps' ∧ (∀ u, is_Some (ps' !! u) ↔ is_Some (players (lg s) !! u)) ∧
    ∀ u cp, ps' !! u = Some cp → playerOK (round (lg s) + 1) cp ∧ play cp = -1).
  { assert (Hdom : ∀ u, is_Some (ps !! u) ↔ is_Some (players (lg s) !! u)).
    { intros u. rewrite Hps. case_decide; [|done]. by rewrite fmap_is_Some. }
    assert (Hok : ∀ u cp, ps !! u = Some cp → playerOK (round (lg s) + 1) cp ∧ play cp = -1 ∧
      playerOK (round (lg s) + 1) (mkPlayer (hand cp) (used cp) (play cp) (score cp + 1))).
    { intros u cp Hu. assert (Hin : u ∈ order (lg s)) by (apply M5, Hdom; eauto).
      rewrite Hps, decide_True in Hu by done. destruct (Hpl u Hin) as (cp0 & Hcp0 & H0). rewrite Hcp0 in Hu.
      injection Hu as <-. destruct (spend_ok _ _ (M7 _ _ Hcp0) H0) as [S1 S2]; [lia|]. done. }
    assert (Hplain : ∃ ps', Ok ps = Ok ps' ∧ (∀ u, is_Some (ps' !! u) ↔ is_Some (players (lg s) !! u)) ∧
      ∀ u cp, ps' !! u = Some cp → playerOK (round (lg s) + 1) cp ∧ play cp = -1).
    { exists ps. split; [done|]. split; [done|]. intros u cp Hu. destruct (Hok _ _ Hu) as (? & ? & _). done. }
    unfold credit. destruct (winners t) as [|w [|]] eqn:Ew; [exact Hplain| |exact Hplain].
    assert (Hw : w ∈ order (lg s)).
    { assert (w ∈ winners t) as Hin by (rewrite Ew; set_solver).
      unfold t in Hin. rewrite (proj2 (proj2 (tallyOf_spec _ _))) in Hin. cbn [winners] in Hin.
      apply elem_of_app in Hin as [Hin|Hin]; [destruct (_ =? _) in Hin; set_solver|].
      apply list_elem_of_fmap in Hin as ([u x] & -> & Hin). apply list_elem_of_filter in Hin as [_ Hin].
      apply list_elem_of_fmap in Hin as (u' & [= -> _] & Hin). done. }
    destruct (proj2 (Hdom w)) as [cw Hcw]; [by apply M5|]. rewrite Hcw. eexists. split; [reflexivity|].
    destruct (Hok _ _ Hcw) as (K1 & K2 & K3). split.
    - intros u. destruct (decide (w = u)) as [<-|Hne].
      + rewrite lookup_insert_eq. split; [|by eauto]. intros _. by apply M5.
      + rewrite lookup_insert_ne by done. apply Hdom.
    - intros u cp. destruct (decide (w = u)) as [<-|Hne].
      + rewrite lookup_insert_eq. intros [= <-]. done.
      + rewrite lookup_insert_ne by done. intros Hu. destruct (Hok _ _ Hu) as (? & ? & _). done. }
  destruct Hc as (ps' & -> & Hdom' & Hok'). cbn [rbind].
  match goal with |- context [finish EmptyString false ?x] => set (s1 := x) end.
  assert (Hl1 : lg s1 = set_players ps' (set_round (round (lg s) + 1) (lg s))) by done.
  destruct (Z.geb_spec (round (lg s1)) HandCards) as [Hend|Hgo].
  - eapply run_mono; [apply card_finish_run|].
    + rewrite Hl1. intros u Hu. apply Hdom', M5. exact Hu.
    + exact M8.
    + intros s' (E & Hc & _). right. unfold Over. rewrite E, Hl1. done.
  - left. split.
    + split; rewrite ?Hl1; cbn [set_players set_round started finished order maxPlayers players round]; try done.
      * intros u. rewrite M5, <- Hdom'. done.
      * rewrite Hl1 in Hgo. cbn in Hgo. unfold HandCards in *. lia.
      * intros u cp Hu. by apply (Hok' u).
    + apply not_true_iff_false. rewrite allPlayed_spec. intros Hx.
      destruct (order_nonempty s Hs) as [u Hu]. destruct (Hx u) as (cp & Hcp & H0); [done|].
      rewrite Hl1 in Hcp. destruct (Hok' u cp Hcp) as [_ Hm]. lia.
Qed.

(** ** Handlers *)

Lemma lay_Mid uid cp i s :
  Mid s → players (lg s) !! uid = Some cp → 0 ≤ i < HandCards → i ∉ used cp →
  Mid (onL (fun l => set_players (<[uid := mkPlayer (hand cp) (used cp) i (score cp)]> (players l)) l) s).
Proof.
  intros [M1 M2 M3 M4 M5 M6 M7 M8] Hu Hi Hn. split; cbn [onL lg order players set_players maxPlayers round]; try done.
  - intros v. destruct (decide (uid = v)) as [<-|Hne].
    + rewrite lookup_insert_eq, M5, Hu. split; eauto.
    + by rewrite lookup_insert_ne.
  - intros v c. destruct (decide (uid = v)) as [<-|Hne].
    + rewrite lookup_insert_eq. intros [= <-]. destruct (M7 _ _ Hu) as [P1 P2 P3 P4 P5]. split; cbn; try done. by right.
    + rewrite lookup_insert_ne by done. apply M7.
Qed.

Lemma card_OnMessage_Playing uid idx s : Playing s → run (OnMessage uid idx s) (fun s' => Playing s' ∨ Over s').
Proof.
  intros [Hs Ho]. assert (HP : Playing s) by done. unfold OnMessage. destruct idx as [i|]; [|by left].
  destruct (negb (started (lg s)) || finished (lg s)); [by left|].
  destruct (players (lg s) !! uid) as [cp|] eqn:Hu; [|by left].
  destruct ((play cp >=? 0) || (zlen (hand cp) =? 0)); [by left|]. case_decide as Hd; [by left|].
  apply tryResolve_run, lay_Mid; [done|done| |tauto]. rewrite (po_hand _ _ (md_players _ Hs _ _ Hu)) in Hd. lia.
Qed.

Lemma firstUnused_spec n i u :
  match firstUnused n i u with
  | Some k => i ≤ k < i + Z.of_nat n ∧ k ∉ u
  | None => ∀ k, i ≤ k < i + Z.of_nat n → k ∈ u
  end.
Proof.
  revert i. induction n as [|n IH]; intros i; cbn [firstUnused]; [lia|]. case_decide as Hi.
  - specialize (IH (i + 1)). destruct (firstUnused n (i + 1) u); [split; [lia|tauto]|].
    intros k Hk. destruct (decide (k = i)) as [->|]; [done|]. apply IH. lia.
  - split; [lia|done].
Qed.

Lemma tickLoop_Over os s : Over s → tickLoop os s = Ok s.
Proof.
  intros (_ & _ & _ & Hm). induction os as [|u os IH]; cbn; [done|].
  destruct (players (lg s) !! u) as [cp|]; [|done]. destruct (play cp >=? 0); [done|].
  unfold memberOffline, Member. by rewrite Hm, lookup_empty.
Qed.

Lemma tickLoop_run os s : Playing s → run (tickLoop os s) (fun s' => Playing s' ∨ Over s').
Proof.
  revert s. induction os as [|u os IH]; intros s Hs; cbn [tickLoop]; [by left|].
  destruct (players (lg s) !! u) as [cp|] eqn:Hu; [|by apply IH].
  destruct (play cp >=? 0); [by apply IH|]. destruct (memberOffline (rm s) u); [|by apply IH].
  pose proof Hs as [HM _]. eapply run_bind; [apply tryResolve_run|].
  - pose proof (firstUnused_spec (length (hand cp)) 0 (used cp)) as Hf.
    destruct (firstUnused _ _ _) as [i|]; [|exact HM]. apply lay_Mid; [done|done| |apply Hf].
    pose proof (po_hand _ _ (md_players _ HM _ _ Hu)) as Hh. unfold zlen in Hh. lia.
  - intros s' [Hp|Ho]; [by apply IH|]. rewrite tickLoop_Over by done. by right.
Qed.

(** ** Before the start *)

Record Waiting (s : st) : Prop := {
  wa_live : started (lg s) = false ∧ finished (lg s) = false;
  wa_nodup : NoDup (order (lg s));
  wa_few : zlen (order (lg s)) < 2;
  wa_max : maxPlayers (lg s) = 2;
  wa_dom u : u ∈ order (lg s) ↔ is_Some (players (lg s) !! u);
  wa_round : round (lg s) = 0;
  wa_new u cp : players (lg s) !! u = Some cp → cp = mkPlayer [] ∅ (-1) 0;
  wa_room : roomOK (rm s) }.

Lemma deckLoop_length n sd : length (fst (deckLoop n sd)) = n.
Proof.
  revert sd. induction n as [|n IH]; intros sd; cbn [deckLoop]; [done|].
  specialize (IH (lcg sd)). destruct (deckLoop n (lcg sd)) as [d sd']. cbn in *. lia.
Qed.

Lemma pick_run cnt i n deck h :
  0 ≤ i → 0 ≤ n → i + n * (Z.of_nat cnt - 1) < zlen deck →
  run (pick cnt i n deck h) (fun h' => zlen h' = zlen h + Z.of_nat cnt).
Proof.
  revert i h. induction cnt as [|cnt IH]; intros i h Hi Hn Hd; cbn [pick]; [apply run_Ok; lia|].
  destruct (index_in_range deck i) as (c & _ & ->); [nia|]. cbn [rbind].
  destruct cnt as [|cnt']; [cbn; rewrite zlen_snoc; lia|].
  eapply run_mono; [apply IH; nia|]. cbn beta. intros h' ->. rewrite zlen_snoc. lia.
Qed.

Definition dealtHand (cp : cardPlayer) : Prop := zlen (hand cp) = HandCards ∧ used cp = ∅ ∧ play cp = -1 ∧ score cp = 0.

Lemma dealTo_run i os deck s :
  0 ≤ i → i + zlen os ≤ 2 → zlen deck = 10 → NoDup os →
  (∀ u, u ∈ os → players (lg s) !! u = Some (mkPlayer [] ∅ (-1) 0)) →
  run (dealTo i os 2 deck s) (fun s' => ∃ ps, lg s' = set_players ps (lg s) ∧
    (∀ u, u ∉ os → ps !! u = players (lg s) !! u) ∧
    (∀ u, u ∈ os → ∃ cp, ps !! u = Some cp ∧ dealtHand cp) ∧
    closing (rm s') = closing (rm s) ∧ members (rm s') = members (rm s)).
Proof.
  revert i s. induction os as [|uid os IH]; intros i s Hi Hle Hd Hnd Hps; cbn [dealTo].
  { exists (players (lg s)). split; [by destruct (lg s)|]. split_and!; try done. intros u Hu. by apply not_elem_of_nil in Hu. }
  apply NoDup_cons in Hnd as [Hu Hnd]. rewrite (Hps uid) by set_solver. rewrite zlen_cons in Hle.
  pose proof (zlen_nonneg os). eapply run_bind; [apply (pick_run (Z.to_nat HandCards)); [lia|lia|change (Z.of_nat (Z.to_nat HandCards)) with 5; lia]|].
  cbn [used play score hand]. intros h Hh. match goal with |- run (dealTo _ _ _ _ ?x) _ => set (s1 := x) end.
  eapply run_mono; [apply IH; [lia|lia|done|done|]|].
  - intros u Hin. cbn [s1 onR onL lg set_players players].
    rewrite lookup_insert_ne by (intros ->; done). apply Hps. set_solver.
  - intros s' (ps & Hl & H1 & H2 & H3). exists ps. split; [rewrite Hl; reflexivity|]. split_and!.
    + intros u Hn. rewrite not_elem_of_cons in Hn. rewrite H1 by tauto. cbn [s1 onR onL lg set_players players].
      rewrite lookup_insert_ne by (intros ->; tauto). done.
    + intros u Hin. destruct (decide (u ∈ os)); [by apply H2|]. assert (u = uid) as -> by set_solver.
      rewrite H1 by done. cbn [s1 onR onL lg set_players players]. rewrite lookup_insert_eq. eexists. split; [done|].
      split; [cbn; rewrite Hh; done|done].
    + destruct H3 as [-> _]. cbn [s1 onR rm onL]. unfold PushTo. by destruct (Member (rm s) uid).
    + destruct H3 as [_ ->]. cbn [s1 onR rm onL]. unfold PushTo. by destruct (Member (rm s) uid).
Qed.

Lemma card_OnJoin_Waiting uid s :
  Waiting s → uid ∉ order (lg s) → run (OnJoin uid s) (fun s' => Waiting s' ∨ Playing s').
Proof.
  intros [(W1 & W1') W2 W3 W4 W5 W6 W7 W8] Hu. unfold OnJoin. set (s1 := onR _ (onL _ s)).
  assert (Hnd : NoDup (order (lg s1))) by (apply NoDup_app; split_and!; [done|set_solver|apply NoDup_singleton]).
  assert (Hdom : ∀ u, u ∈ order (lg s1) ↔ is_Some (players (lg s1) !! u)).
  { intros u. cbn [s1 onR onL lg set_order set_players order players].
    rewrite elem_of_app, list_elem_of_singleton. destruct (decide (uid = u)) as [->|Hne].
    - rewrite lookup_insert_eq. naive_solver.
    - rewrite lookup_insert_ne by done. rewrite <- W5. naive_solver. }
  assert (Hnew : ∀ u cp, players (lg s1) !! u = Some cp → cp = mkPlayer [] ∅ (-1) 0).
  { intros u cp. cbn [s1 onR onL lg set_order set_players players]. destruct (decide (uid = u)) as [->|Hne].
    - rewrite lookup_insert_eq. by intros [= <-].
    - rewrite lookup_insert_ne by done. apply W7. }
  rewrite (size_of_order _ _ Hnd Hdom). change (maxPlayers (lg s1)) with (maxPlayers (lg s)). rewrite W4.
  destruct (Z.geb_spec (Z.of_nat (length (order (lg s1)))) 2) as [Hge|Hlt].
  - assert (Hlen : zlen (order (lg s1)) = 2).
    { unfold zlen in *. cbn [s1 onR onL lg set_order set_players order] in *. rewrite length_app in *. simpl in *. lia. }
    unfold deal. change (order (lg (onL (set_started true) s1))) with (order (lg s1)). rewrite Hlen.
    destruct (deckLoop (Z.to_nat (2 * HandCards)) _) as [deck sd] eqn:Ed.
    assert (Hd : zlen deck = 10).
    { unfold zlen. pose proof (deckLoop_length (Z.to_nat (2 * HandCards)) (seed (lg (onL (set_started true) s1)))) as Hx.
      rewrite Ed in Hx. cbn [fst] in Hx. rewrite Hx. done. }
    eapply run_mono; [apply dealTo_run; [lia|lia|done|done|]|].
    + intros u Hin. cbn [onL lg set_seed set_started players]. apply Hdom in Hin as [cp Hcp].
      rewrite Hcp. by rewrite (Hnew _ _ Hcp).
    + intros s' (ps & Hl & H1 & H2 & H3 & H4). right.
      assert (Hps : ∀ u, u ∈ order (lg s1) ↔ is_Some (ps !! u)).
      { intros u. destruct (decide (u ∈ order (lg s1))) as [Hin|Hin].
        - destruct (H2 u Hin) as (cp & -> & _). split; eauto.
        - rewrite H1 by done. apply Hdom. }
      split.
      * split; rewrite ?Hl; cbn [set_players set_seed set_started started finished order maxPlayers players round onL lg]; try done.
        -- change (round (lg s1)) with (round (lg s)). rewrite W6. unfold HandCards. lia.
        -- change (round (lg s1)) with (round (lg s)). rewrite W6. intros u cp Hcp.
           destruct (H2 u) as (cp' & Hcp' & D1 & D2 & D3 & D4); [apply Hps; eauto|]. rewrite Hcp in Hcp'. injection Hcp' as <-.
           split; [done| | | |lia]; rewrite ?D2.
           ++ set_solver.
           ++ done.
           ++ by left.
        -- unfold roomOK. rewrite H3, H4. exact W8.
      * apply not_true_iff_false. rewrite allPlayed_spec. intros Hx.
        destruct (Hx uid) as (cp & Hcp & H0).
        { rewrite Hl. cbn [set_players set_seed set_started order onL lg s1 onR set_order]. set_solver. }
        rewrite Hl in Hcp. cbn [set_players players] in Hcp. destruct (H2 uid) as (cp' & Hcp' & _ & _ & D3 & _).
        { cbn [s1 onR onL lg set_order order]. set_solver. }
        rewrite Hcp in Hcp'. injection Hcp' as <-. lia.
  - left. split; try done.
Qed.

Lemma card_OnLeave_Playing uid s : Playing s → run (OnLeave uid s) (fun s' => Playing s' ∨ Over s').
Proof.
  intros [[(M1 & M1') M2 M3 M4 M5 M6 M7 M8] Ho]. unfold OnLeave. set (s1 := onR _ (onL _ s)).
  change (started (lg s1)) with (started (lg s)). change (finished (lg s1)) with (finished (lg s)). rewrite M1, M1'.
  cbn [andb negb]. destruct (decide (uid ∈ order (lg s))) as [Hin|Hin].
  - assert (Hone : zlen (order (lg s1)) = 1).
    { pose proof (length_remove_first _ _ Hin). cbn [s1 onR onL lg set_order set_players order]. unfold zlen in *. lia. }
    rewrite Hone. cbn [Z.eqb Pos.eqb]. destruct (index_in_range (order (lg s1)) 0) as (w & _ & ->); [lia|]. cbn [rbind].
    eapply run_mono; [apply card_finish_run; [|exact M8]|].
    + cbn [s1 onR onL lg set_order set_players order players]. intros u.
      rewrite elem_of_remove_first by done. intros [Hu Hne]. rewrite lookup_delete_ne by done. by apply M5.
    + intros s' (E & Hc & _). right. unfold Over. rewrite E. done.
  - assert (Hsame : lg s1 = lg s).
    { cbn [s1 onR onL lg]. rewrite remove_first_notin by done. rewrite delete_id; [by destruct (lg s)|].
      destruct (players (lg s) !! uid) eqn:E; [|done]. destruct Hin. apply M5. eauto. }
    rewrite Hsame, M3. cbn [Z.eqb Pos.eqb]. left. split; [|by rewrite Hsame]. by split; rewrite ?Hsame.
Qed.

Lemma card_OnLeave_Waiting uid s : Waiting s → run (OnLeave uid s) Waiting.
Proof.
  intros [(W1 & W1') W2 W3 W4 W5 W6 W7 W8]. unfold OnLeave. cbn [onR onL lg started set_order set_players]. rewrite W1.
  cbn [andb run]. split; try done; cbn [onR onL lg rm order players set_order set_players].
  - by apply NoDup_remove_first.
  - rewrite remove_first_filter by done. pose proof (length_filter (.≠ uid) (order (lg s))). unfold zlen in *. lia.
  - intros u. rewrite elem_of_remove_first by done. destruct (decide (u = uid)) as [->|Hne].
    + rewrite lookup_delete_eq. split; [tauto|by intros []].
    + rewrite lookup_delete_ne, <- W5 by done. tauto.
  - intros u cp [_ Hu]%lookup_delete_Some. by apply (W7 u).
Qed.

(** ** The transition system *)

Inductive cstep : st → st → Prop :=
| cs_join uid s s' : closing (rm s) = false → zlen (order (lg s)) < maxPlayers (lg s) →
    uid ∉ order (lg s) → OnJoin uid s = Ok s' → cstep s s'
| cs_msg uid idx s s' : OnMessage uid idx s = Ok s' → cstep s s'
| cs_tick s s' : Tick s = Ok s' → cstep s s'
| cs_leave uid s s' : closing (rm s) = false → OnLeave uid s = Ok s' → cstep s s'
| cs_timeout s s' : OnTimeout s = Ok s' → cstep s s'
| cs_close s : cstep s (Close s)
| cs_env s r : closing r = closing (rm s) → roomOK r → cstep s (mkSt (lg s) r).

Inductive creach (r : room) : st → Prop :=
| cr_start : creach r (OnCreate (mkSt (NewLogic 2) r))
| cr_step s s' : creach r s → cstep s s' → creach r s'.

(** A room that timed out before the start was never played. *)
Definition CInv (s : st) : Prop := Waiting s ∨ Playing s ∨ (finished (lg s) = true ∧ closing (rm s) = true ∧ members (rm s) = ∅).

Lemma CInv_of s : Playing s ∨ Over s → CInv s.
Proof. intros [?|(_ & ?)]; [by right; left|by right; right]. Qed.

Lemma run_CInv m : run m (fun s' => Playing s' ∨ Over s') → run m CInv.
Proof. intros Hr. eapply run_mono; [exact Hr|]. intros s. apply CInv_of. Qed.

Lemma OnMessage_CInv uid idx s : CInv s → run (OnMessage uid idx s) CInv.
Proof.
  intros [HW|[HP|HO]].
  - assert (OnMessage uid idx s = Ok s) as ->; [|by left].
    unfold OnMessage. destruct idx; [|done]. by rewrite (proj1 (wa_live _ HW)).
  - by apply run_CInv, card_OnMessage_Playing.
  - assert (OnMessage uid idx s = Ok s) as ->; [|by right; right].
    unfold OnMessage. destruct idx; [|done]. by rewrite (proj1 HO), orb_true_r.
Qed.

Lemma Tick_CInv s : CInv s → run (Tick s) CInv.
Proof.
  intros [HW|[HP|HO]].
  - unfold Tick. rewrite (proj1 (wa_live _ HW)). by left.
  - unfold Tick. destruct (_ || _); [by right; left|]. by apply run_CInv, tickLoop_run.
  - unfold Tick. rewrite (proj1 HO), orb_true_r. by right; right.
Qed.

Lemma OnLeave_CInv uid s : CInv s → closing (rm s) = false → run (OnLeave uid s) CInv.
Proof.
  intros [HW|[HP|HO]] Hc.
  - eapply run_mono; [by apply card_OnLeave_Waiting|]. by left.
  - by apply run_CInv, card_OnLeave_Playing.
  - destruct HO as (_ & ? & _). congruence.
Qed.

Lemma OnTimeout_CInv s : CInv s → run (OnTimeout s) CInv.
Proof.
  intros HI. unfold OnTimeout. destruct (finished (lg s)) eqn:Hf; [done|].
  eapply run_mono; [apply card_finish_run|].
  - destruct HI as [HW|[[HM _]|HO]]; [intros; by apply (wa_dom _ HW)|intros; by apply (md_dom _ HM)|naive_solver congruence].
  - destruct HI as [HW|[[HM _]|HO]]; [apply (wa_room _ HW)|apply (md_room _ HM)|naive_solver congruence].
  - intros s' (E & ? & _). right; right. by rewrite E.
Qed.

Lemma OnJoin_CInv uid s :
  CInv s → closing (rm s) = false → zlen (order (lg s)) < maxPlayers (lg s) → uid ∉ order (lg s) → run (OnJoin uid s) CInv.
Proof.
  intros [HW|[[HM _]|HO]] Hc Hlen Hu.
  - eapply run_mono; [by apply card_OnJoin_Waiting|]. intros s' [?|?]; [by left|by right; left].
  - rewrite (md_two _ HM), (md_max _ HM) in Hlen. lia.
  - destruct HO as (_ & ? & _). congruence.
Qed.

Lemma Waiting_rm s r : Waiting s → roomOK r → Waiting (mkSt (lg s) r).
Proof. intros [W1 W2 W3 W4 W5 W6 W7 W8] Hr. by split. Qed.
Lemma Playing_rm s r : Playing s → roomOK r → Playing (mkSt (lg s) r).
Proof. intros [[M1 M2 M3 M4 M5 M6 M7 M8] Ho] Hr. by split. Qed.

Lemma cstep_CInv s s' : cstep s s' → CInv s → CInv s'.
Proof.
  intros Hst HI. assert (Hrun : ∀ m x, run m CInv → m = Ok x → CInv x) by (intros m x Hr ->; exact Hr).
  destruct Hst as [uid s s' H1 H2 H3 E|uid idx s s' E|s s' E|uid s s' H1 E|s s' E|s|s r H1 H2].
  - eapply Hrun; [|exact E]. by apply OnJoin_CInv.
  - eapply Hrun; [|exact E]. by apply OnMessage_CInv.
  - eapply Hrun; [|exact E]. by apply Tick_CInv.
  - eapply Hrun; [|exact E]. by apply OnLeave_CInv.
  - eapply Hrun; [|exact E]. by apply OnTimeout_CInv.
  - assert (Hcl : roomOK (rm s) → roomOK (rm (Close s))) by (intros Hr _; by apply Close_closed).
    destruct HI as [HW|[HP|(H1 & H2 & H3)]].
    + left. apply (Waiting_rm s); [done|]. apply Hcl, (wa_room _ HW).
    + right; left. apply (Playing_rm s); [done|]. apply Hcl, (md_room _ (proj1 HP)).
    + right; right. split; [done|]. apply Close_closed. by intros _.
  - destruct HI as [HW|[HP|(F1 & F2 & F3)]].
    + left. by apply (Waiting_rm s).
    + right; left. by apply (Playing_rm s).
    + right; right. split; [done|]. cbn. rewrite H1. split; [done|]. apply H2. by rewrite H1.
Qed.

Lemma creach_CInv r s : roomOK r → creach r s → CInv s.
Proof.
  intros Hr. induction 1 as [|s s' _ IH Hs]; [|by eapply cstep_CInv]. left.
  split; cbn [OnCreate NewLogic lg order players started finished maxPlayers round rm]; try done.
  - apply NoDup_nil_2.
  - intros u. rewrite lookup_empty. split; [by intros ?%elem_of_nil|by intros []].
Qed.

(** C12. A card game never goes wrong: in every reachable state of a two-player
    room each callback returns, and while the game is on both players hold
    five cards, have spent exactly one per finished round, and have between
    zero and that many points. *)
Theorem card_game_safe r s :
  roomOK r → creach r s →
  (∀ uid idx, ∃ s', OnMessage uid idx s = Ok s') ∧ (∃ s', Tick s = Ok s') ∧ (∃ s', OnTimeout s = Ok s') ∧
  (closing (rm s) = false → ∀ uid, ∃ s', OnLeave uid s = Ok s') ∧
  (closing (rm s) = false → zlen (order (lg s)) < maxPlayers (lg s) → ∀ uid, uid ∉ order (lg s) → ∃ s', OnJoin uid s = Ok s') ∧
  (started (lg s) = true → finished (lg s) = false →
     0 ≤ round (lg s) < HandCards ∧ ∀ u, u ∈ order (lg s) → ∃ cp, players (lg s) !! u = Some cp ∧ playerOK (round (lg s)) cp).
Proof.
  intros Hr Hs. pose proof (creach_CInv r s Hr Hs) as HI.
  assert (Hrun : ∀ m : res st, run m CInv → ∃ s', m = Ok s') by (intros m (x & ? & _)%run_exists; eauto).
  split_and!.
  - intros. by apply Hrun, OnMessage_CInv.
  - by apply Hrun, Tick_CInv.
  - by apply Hrun, OnTimeout_CInv.
  - intros. by apply Hrun, OnLeave_CInv.
  - intros. by apply Hrun, OnJoin_CInv.
  - intros Hst Hf. destruct HI as [HW|[[HM _]|(? & _)]]; [destruct (wa_live _ HW); congruence| |congruence].
    split; [apply (md_round _ HM)|]. intros u Hu. apply (md_dom _ HM) in Hu as [cp Hcp]. exists cp.
    split; [done|]. by apply (md_players _ HM u).
Qed.

(** The points laid in the round that is about to be resolved. *)
Definition tableOf (s : st) : list (string * Z) :=
  (fun u => (u, laid (players (lg s)) u)) <$> order (lg s).
Definition topPoint (s : st) : Z := foldr Z.max (-1) ((tableOf s).*2).
Definition roundWinners (s : st) : list string := (filter (fun p => p.2 = topPoint s) (tableOf s)).*1.

(** The points a player has after a round won by [ws] alone. *)
Definition credited (ws : list string) (u : string) (sc : Z) : Z := if decide (ws = [u]) then sc + 1 else sc.

(** A round goes to the highest card: when both players have laid a card,
    resolving broadcasts the round with exactly the holders of the highest
    card as winners, a single winner (and nobody else) gains one point, and
    each player's card is spent. *)
Theorem round_resolved s s' :
  Playing s ∨ Mid s → allPlayed (lg s) = true → tryResolveRound s = Ok s' →
  (∀ u cp, u ∈ order (lg s) → players (lg s) !! u = Some cp → ∃ cp', players (lg s') !! u = Some cp' ∧
     hand cp' = hand cp ∧ used cp' = {[play cp]} ∪ used cp ∧ play cp' = -1 ∧
     score cp' = credited (roundWinners s) u (score cp)) ∧
  ∃ to, EvBroadcast to MsgRound (RoundNtf (round (lg s) + 1)
    ((fun p => mkPlay p.1 p.2 (mem p.1 (roundWinners s))) <$> tableOf s) (round (lg s) + 1 >=? HandCards)) ∈ out (rm s').
Proof.
  intros Hor Hall E. assert (Hs : Mid s) by (destruct Hor as [[? _]|?]; done).
  pose proof Hs as [(M1 & M1') M2 M3 M4 M5 M6 M7 M8]. revert E. unfold tryResolveRound.
  rewrite M3, M4, Z.ltb_irrefl, Hall. cbn [negb]. pose proof (proj1 (allPlayed_spec _) Hall) as Hpl.
  destruct (roundLoop_run (order (lg s)) (mkTally (-1) [] []) (players (lg s)) M2) as (ps & -> & Hps).
  { intros u Hu. destruct (Hpl u Hu) as (cp & Hcp & H0). exists cp. split; [done|].
    destruct (M7 _ _ Hcp) as [Hh _ _ Hp _]. rewrite Hh. lia. }
  cbn [rbind]. fold (tableOf s). destruct (tallyOf_spec (tableOf s) (mkTally (-1) [] [])) as (T1 & T2 & T3).
  cbn [best winners plays app] in T1, T2, T3. fold (topPoint s) in T1. rewrite T1 in T3.
  assert (Hw : winners (tallyOf (mkTally (-1) [] []) (tableOf s)) = roundWinners s).
  { rewrite T3. by destruct (topPoint s =? -1). }
  rewrite Hw, T2. clear T1 T2 T3 Hw. set (ws := roundWinners s).
  match goal with |- context [rbind ?x _] => set (credit := x) end. destruct credit as [ps'| |] eqn:Ec; cbn [rbind]; [|done..].
  assert (Hps' : ∀ u cp, u ∈ order (lg s) → players (lg s) !! u = Some cp → ∃ cp', ps' !! u = Some cp' ∧
     hand cp' = hand cp ∧ used cp' = {[play cp]} ∪ used cp ∧ play cp' = -1 ∧ score cp' = credited ws u (score cp)).
  { intros u cp Hu Hcp. assert (Hsp : ps !! u = Some (spend cp)) by (rewrite Hps, decide_True, Hcp by done; done).
    unfold credited. unfold credit in Ec. destruct ws as [|w [|w' ws']].
    - injection Ec as <-. rewrite decide_False by done. by exists (spend cp).
    - destruct (ps !! w) as [cw|] eqn:Hcw; [|done]. injection Ec as <-. destruct (decide (w = u)) as [->|Hne].
      + rewrite lookup_insert_eq, decide_True by done. rewrite Hsp in Hcw. injection Hcw as <-. by eexists.
      + rewrite lookup_insert_ne by done. rewrite decide_False by congruence. by exists (spend cp).
    - injection Ec as <-. rewrite decide_False by done. by exists (spend cp). }
  match goal with |- context [finish EmptyString false ?x] => set (s1 := x) end.
  assert (H1 : lg s1 = set_players ps' (set_round (round (lg s) + 1) (lg s))) by done.
  assert (Hev : ∃ to, EvBroadcast to MsgRound (RoundNtf (round (lg s) + 1)
    ((fun p => mkPlay p.1 p.2 (mem p.1 ws)) <$> tableOf s) (round (lg s) + 1 >=? HandCards)) ∈ out (rm s1)).
  { eexists. unfold s1. cbn. apply elem_of_app. right. apply list_elem_of_singleton. reflexivity. }
  destruct (round (lg s1) >=? HandCards).
  - intros E. assert (Hd : ∀ u, u ∈ order (lg s1) → is_Some (players (lg s1) !! u)).
    { rewrite H1. intros u Hu. destruct (Hpl u Hu) as (cp & Hcp & _).
      destruct (Hps' u cp Hu Hcp) as (cp' & ? & _). by exists cp'. }
    pose proof (card_finish_run EmptyString false s1 Hd M8) as Hf. rewrite E in Hf. destruct Hf as (El & _).
    rewrite El, H1. split; [exact Hps'|]. destruct Hev as [to Hev]. exists to.
    by eapply finish_keeps.
  - intros [= <-]. split; [exact Hps'|]. done.
Qed.

(** Finding. A game that is played to the end names no winner: the last round
    always reports an empty winner and credits nobody's ranking, whatever the
    scores, although an empty winner stands for a draw. *)
Theorem natural_end_no_winner uid idx s s' :
  Playing s → OnMessage uid idx s = Ok s' → finished (lg s') = true →
  ∃ to ss, EvBroadcast to MsgResult (ResultNtf (roomID (rm s)) EmptyString HandCards ss false) ∈ out (rm s').
Proof.
  intros [HM Ho]. pose proof HM as [(M1 & M1') M2 M3 M4 M5 M6 M7 M8]. unfold OnMessage.
  destruct idx as [i|]; [|intros [= <-]; congruence].
  destruct (negb (started (lg s)) || finished (lg s)); [intros [= <-]; congruence|].
  destruct (players (lg s) !! uid) as [cp|] eqn:Hu; [|intros [= <-]; congruence].
  destruct ((play cp >=? 0) || (zlen (hand cp) =? 0)); [intros [= <-]; congruence|].
  case_decide as Hd; [intros [= <-]; congruence|]. set (s1 := onL _ s).
  assert (Hm1 : Mid s1).
  { apply lay_Mid; [done|done| |tauto]. rewrite (po_hand _ _ (M7 _ _ Hu)) in Hd. lia. }
  unfold tryResolveRound. destruct (_ <? _); [intros [= <-] Hx; cbn in Hx; congruence|].
  destruct (negb (allPlayed (lg s1))); [intros [= <-] Hx; cbn in Hx; congruence|].
  destruct (roundLoop _ _ _) as [[t ps]| |] eqn:Er; cbn [rbind]; [|done..].
  match goal with |- context [rbind ?x _] => destruct x as [ps'| |] eqn:Ec end; cbn [rbind]; [|done..].
  match goal with |- context [finish EmptyString false ?x] => set (s2 := x) end.
  destruct (Z.geb_spec (round (lg s2)) HandCards) as [Hge|Hlt]; [|intros [= <-] Hx; cbn in Hx; congruence].
  assert (Hrd : round (lg s2) = HandCards) by (cbn in *; unfold HandCards in *; lia).
  intros E _. apply finish_says in E as (to & ss & Hev). rewrite Hrd in Hev. by exists to, ss.
Qed.

(** ** A concrete game *)

Definition demoRoom : room :=
  mkRctx "r1" (list_to_map [("a", true); ("b", true)]) ["a"; "b"] false true true ∅ 0 true 0 [].
Definition getOk (m : res st) : st := match m with Ok s => s | _ => mkSt (NewLogic 2) demoRoom end.
Definition isOk (m : res st) : bool := match m with Ok _ => true | _ => false end.
Lemma card_getOk_step m : isOk m = true → m = Ok (getOk m).
Proof. by destruct m. Qed.

Definition join (u : string) (s : st) : st := getOk (OnJoin u s).
Definition lay (u : string) (i : Z) (s : st) : st := getOk (OnMessage u (Some i) s).
Definition demoStart : st := join "b" (join "a" (OnCreate (mkSt (NewLogic 2) demoRoom))).
Definition demoFour : st :=
  lay "b" 3 (lay "a" 1 (lay "b" 2 (lay "a" 4 (lay "b" 1 (lay "a" 3 (lay "b" 0 (lay "a" 0 demoStart))))))).
(** One card short of the end. *)
Definition demoLast : st := lay "a" 2 demoFour.

Lemma join_reach r u s :
  creach r s → closing (rm s) = false → (zlen (order (lg s)) <? maxPlayers (lg s)) = true →
  bool_decide (u ∉ order (lg s)) = true → isOk (OnJoin u s) = true → creach r (join u s).
Proof.
  intros Hr Hc Hl Hu Ho. eapply cr_step; [exact Hr|]. eapply cs_join; [done|by apply Z.ltb_lt| |by apply card_getOk_step].
  by apply bool_decide_eq_true in Hu.
Qed.
Lemma lay_reach r u i s : creach r s → isOk (OnMessage u (Some i) s) = true → creach r (lay u i s).
Proof. intros Hr Ho. eapply cr_step; [exact Hr|]. by eapply cs_msg, card_getOk_step. Qed.

Lemma demoRoom_ok : roomOK demoRoom.
Proof. discriminate. Qed.
Lemma card_demoStart_reach : creach demoRoom demoStart.
Proof. do 2 (apply join_reach; [|vm_compute; reflexivity..]). apply cr_start. Qed.
Lemma demoLast_reach : creach demoRoom demoLast.
Proof. unfold demoLast, demoFour. do 9 (apply lay_reach; [|vm_compute; reflexivity]). apply card_demoStart_reach. Qed.

Lemma reach_Playing s :
  creach demoRoom s → started (lg s) = true → finished (lg s) = false → Playing s.
Proof.
  intros Hr Hs Hf. destruct (creach_CInv _ _ demoRoom_ok Hr) as [HW|[HP|(HO & _)]]; [|done|congruence].
  destruct (wa_live _ HW). congruence.
Qed.

Lemma card_game_safe_witness : isOk (OnMessage "b" (Some 4) demoLast) = true.
Proof.
  destruct (proj1 (card_game_safe demoRoom demoLast demoRoom_ok demoLast_reach) "b" (Some 4)) as [s' ->]. reflexivity.
Defined.

Definition demoBoth : st :=
  onL (fun l => set_players (alter (fun cp => mkPlayer (hand cp) (used cp) 4 (score cp)) "b" (players l)) l) demoLast.

Lemma demoBoth_Mid : Mid demoBoth.
Proof.
  assert (HP : Mid demoLast) by (apply (reach_Playing demoLast demoLast_reach); vm_compute; reflexivity).
  destruct (players (lg demoLast) !! "b"%string) as [cp|] eqn:E; [|revert E; vm_compute; discriminate].
  assert (Hb : demoBoth = onL (fun l => set_players (<["b" := mkPlayer (hand cp) (used cp) 4 (score cp)]> (players l)) l) demoLast).
  { unfold demoBoth, onL. do 2 f_equal. apply map_eq. intros u. destruct (decide (u = "b"%string)) as [->|Hne].
    - rewrite lookup_alter_eq, lookup_insert_eq, E. done.
    - by rewrite lookup_alter_ne, lookup_insert_ne. }
  rewrite Hb. apply lay_Mid; [done|done|unfold HandCards; lia|].
  assert (Hd : (fun c => existsb (Z.eqb 4) (elements (used c))) <$> players (lg demoLast) !! "b"%string = Some false)
    by (vm_compute; reflexivity).
  rewrite E in Hd. injection Hd as Hd. intros Hin. apply elem_of_elements, list_elem_of_In in Hin.
  apply not_true_iff_false in Hd. apply Hd, existsb_exists. exists 4. split; [exact Hin|reflexivity].
Qed.

Lemma round_resolved_witness :
  roundWinners demoBoth = ["b"%string] ∧
  ∃ cp, players (lg (getOk (tryResolveRound demoBoth))) !! "b"%string = Some cp ∧ score cp = 3.
Proof.
  split; [vm_compute; reflexivity|].
  destruct (round_resolved demoBoth (getOk (tryResolveRound demoBoth))) as [H1 _].
  - right. exact demoBoth_Mid.
  - vm_compute. reflexivity.
  - apply card_getOk_step. vm_compute. reflexivity.
  - assert (Hx : (match players (lg demoBoth) !! "b"%string with Some _ => true | None => false end) = true)
      by (vm_compute; reflexivity).
    destruct (players (lg demoBoth) !! "b"%string) as [cp|] eqn:E; [clear Hx|discriminate Hx].
    destruct (H1 "b"%string cp) as (cp' & E1 & _ & _ & _ & E2).
    + apply (bool_decide_unpack _). vm_compute. exact I.
    + exact E.
    + exists cp'. split; [exact E1|]. rewrite E2.
      assert (Hs : match players (lg demoBoth) !! "b"%string with Some c => score c | None => 0 end = 2) by (vm_compute; reflexivity).
      rewrite E in Hs. rewrite Hs. vm_compute. reflexivity.
Defined.

Lemma natural_end_no_winner_witness :
  finished (lg (lay "b" 4 demoLast)) = true ∧
  ∃ to ss, EvBroadcast to MsgResult (ResultNtf "r1" EmptyString HandCards ss false) ∈ out (rm (lay "b" 4 demoLast)).
Proof.
  split; [vm_compute; reflexivity|].
  exact (natural_end_no_winner "b" (Some 4) demoLast (lay "b" 4 demoLast)
    (reach_Playing demoLast demoLast_reach ltac:(vm_compute; reflexivity) ltac:(vm_compute; reflexivity))
    ltac:(apply card_getOk_step; vm_compute; reflexivity) ltac:(vm_compute; reflexivity)).
Defined.

(** Truncating division on a negative seed: the first player is always dealt
    two cards below 1. *)
Lemma deal_below_one : fst (deckLoop 10 20260922) = [12; 2; -5; 9; -9; 13; 10; 11; 7; 9].
Proof. vm_compute. reflexivity. Qed.
