(* ===== verification/Quiz.v ===== *)
(** * The quiz room logic (games/quiz/logic.go)

    Five questions, each open until everybody answered or its timer fires. *)

From S2P Require Import Prelude RoomCtx.

Definition Questions : Z := 5.
Definition TimeLimitMS : Z := 2000.
Definition MsgAnswer : Z := 0x1200.
Definition MsgQuestion : Z := 0x1201.
Definition MsgResult : Z := 0x1202.

Record Question := mkQ { Text : string; Options : list string; Answer : Z }.

Definition Bank : list Question := [
  mkQ "1+1=?" ["2"; "3"; "11"] 0;
  mkQ "Go 中声明函数的关键字?" ["def"; "func"; "fn"] 1;
  mkQ "HTTP 404 含义?" ["OK"; "Server Error"; "Not Found"] 2;
  mkQ "2 的 3 次方?" ["6"; "8"; "9"] 1;
  mkQ "TCP 属于哪一层协议?" ["传输层"; "应用层"; "网络层"] 0;
  mkQ "以下哪个不是 Go 的并发原语?" ["goroutine"; "thread"; "channel"] 1;
  mkQ "JSON 中表示 null 的字面量?" ["nil"; "null"; "none"] 1;
  mkQ "WebSocket 默认端口(over TLS)?" ["80"; "443"; "8080"] 1].

Inductive qmsg :=
| MemberNtf (uid ev : string)
| QuestionNtf (idx : Z) (text : string) (options : list string) (timeLimit total : Z)
| ResultNtf (room winner : string) (scores : list (string * Z)).

Record quizPlayer := mkPlayer { answered : gset Z; score : Z }.

Record Logic := mkLogic {
  players : gmap string quizPlayer;
  order : list string;
  cur : Z;
  started : bool;
  finished : bool;
  qTimer : option nat;
  maxPlayers : Z }.

Definition set_players (v : gmap string quizPlayer) (l : Logic) : Logic :=
  mkLogic v (order l) (cur l) (started l) (finished l) (qTimer l) (maxPlayers l).
Definition set_order (v : list string) (l : Logic) : Logic :=
  mkLogic (players l) v (cur l) (started l) (finished l) (qTimer l) (maxPlayers l).
Definition set_cur (v : Z) (l : Logic) : Logic :=
  mkLogic (players l) (order l) v (started l) (finished l) (qTimer l) (maxPlayers l).
Definition set_started (v : bool) (l : Logic) : Logic :=
  mkLogic (players l) (order l) (cur l) v (finished l) (qTimer l) (maxPlayers l).
Definition set_finished (v : bool) (l : Logic) : Logic :=
  mkLogic (players l) (order l) (cur l) (started l) v (qTimer l) (maxPlayers l).
Definition set_qTimer (v : option nat) (l : Logic) : Logic :=
  mkLogic (players l) (order l) (cur l) (started l) (finished l) v (maxPlayers l).

(** The only timer closure is [l.next]. *)
Definition room : Type := rctx qmsg unit.
Record st := mkSt { lg : Logic; rm : room }.
Definition onL (f : Logic → Logic) (s : st) : st := mkSt (f (lg s)) (rm s).
Definition onR (f : room → room) (s : st) : st := mkSt (lg s) (f (rm s)).

Definition NewLogic (maxP : Z) : Logic := mkLogic ∅ [] 0 false false None maxP.

Definition OnDestroy (l : Logic) (r : room) : room :=
  if profileStore r then
    emits r ((fun p => EvPatch (fst p) "extra.quiz_last_score" (score (snd p))) <$> map_to_list (players l))
  else r.
Definition Close (s : st) : st := mkSt (lg s) (doClose (OnDestroy (lg s)) (rm s)).

(** The scan of the scores in [finish]. *)
Record ranking := mkRanking { winner : string; best : Z; tied : bool }.

Definition rankStep (t : ranking) (p : string * Z) : ranking :=
  if p.2 >? best t then mkRanking p.1 p.2 false
  else if p.2 =? best t then mkRanking (winner t) (best t) true
  else t.

Fixpoint scoresOf (os : list string) (l : Logic) : res (list (string * Z)) :=
  match os with
  | [] => Ok []
  | u :: os =>
      match players l !! u with
      | None => Panic
      | Some qp => let! ss := scoresOf os l in Ok ((u, score qp) :: ss)
      end
  end.

(** The winner of a score table: empty on a tie. *)
Definition winnerOf (scores : list (string * Z)) : string :=
  let t := fold_left rankStep scores (mkRanking EmptyString (-1) false) in
  if tied t then EmptyString else winner t.

Definition finish (s : st) : res st :=
  let s := onL (set_finished true) s in
  let! scores := scoresOf (order (lg s)) (lg s) in
  let w := winnerOf scores in
  let result := ResultNtf (roomID (rm s)) w scores in
  let s := onR (fun r => Broadcast r MsgResult result []) s in
  let s := onR (fun r => emit r (EvSetSync "quiz_result" (roomID r) result)) s in
  let s := if decide (w ≠ EmptyString) then onR (fun r => emit r (EvZIncrBy "quiz_score" w 1)) s else s in
  Ok (Close s).

Definition askQuestion (s : st) : res st :=
  let! q := index Bank (cur (lg s)) in
  let s := onR (fun r => Broadcast r MsgQuestion
             (QuestionNtf (cur (lg s)) (Text q) (Options q) TimeLimitMS Questions) []) s in
  let '(h, r) := After (rm s) tt in
  Ok (mkSt (set_qTimer (Some h) (lg s)) r).

Definition next (s : st) : res st :=
  if finished (lg s) then Ok s else
  let s := match qTimer (lg s) with
           | Some h => mkSt (set_qTimer None (lg s)) (Cancel (rm s) h)
           | None => s
           end in
  let s := onL (fun l => set_cur (cur l + 1) l) s in
  if cur (lg s) >=? Questions then finish s else askQuestion s.

(** ** Handlers *)

Definition OnCreate (s : st) : st := s.

Definition OnJoin (uid : string) (s : st) : res st :=
  let s := onL (fun l => set_order (order l ++ [uid])
                           (set_players (<[uid := mkPlayer ∅ 0]> (players l)) l)) s in
  let s := onR (fun r => Broadcast r MsgMemberChange (MemberNtf uid "join") []) s in
  if Z.of_nat (size (players (lg s))) >=? maxPlayers (lg s) then askQuestion (onL (set_started true) s) else Ok s.

(** [for _, uid := range l.order { if !l.players[uid].answered[l.cur] { return } }] *)
Fixpoint everyone (os : list string) (l : Logic) : res bool :=
  match os with
  | [] => Ok true
  | u :: os =>
      match players l !! u with
      | None => Panic
      | Some qp => if decide (cur l ∈ answered qp) then everyone os l else Ok false
      end
  end.

(** [req]: the index and option of an AnswerReq; another payload is [None]. *)
Definition OnMessage (uid : string) (req : option (Z * Z)) (s : st) : res st :=
  match req with
  | None => Ok s
  | Some (idx, option) =>
      if negb (started (lg s)) || finished (lg s) then Ok s else
      match players (lg s) !! uid with
      | None => Ok s
      | Some qp =>
          if cur (lg s) >=? Questions then Ok s else
          let c := cur (lg s) in
          if decide (idx ≠ c ∨ c ∈ answered qp ∨ option < 0) then Ok s else
          let! q := index Bank c in
          if option >=? zlen (Options q) then Ok s else
          let qp := mkPlayer ({[c]} ∪ answered qp) (if option =? Answer q then score qp + 1 else score qp) in
          let s := onL (fun l => set_players (<[uid := qp]> (players l)) l) s in
          let! all := everyone (order (lg s)) (lg s) in
          if all then next s else Ok s
      end
  end.

Definition Tick (s : st) : res st := Ok s.

Definition OnLeave (uid : string) (s : st) : res st :=
  let s := onL (fun l => set_order (remove_first uid (order l)) (set_players (delete uid (players l)) l)) s in
  let s := onR (fun r => Broadcast r MsgMemberChange (MemberNtf uid "leave") [uid]) s in
  if started (lg s) && negb (finished (lg s)) && (zlen (order (lg s)) =? 1) then
    finish (match qTimer (lg s) with Some h => onR (fun r => Cancel r h) s | None => s end)
  else Ok s.

Definition OnEmpty (s : st) : res st := Ok (Close s).

(** ** The winner *)

Lemma rank_spec ss t :
  let t' := fold_left rankStep ss t in
  best t' = foldr Z.max (best t) (ss.*2) ∧
  (tied t' = false → (winner t' = winner t ∧ best t' = best t ∧ tied t = false ∧ Forall (fun p => p.2 < best t') ss) ∨
     ∃ pre post, ss = pre ++ (winner t', best t') :: post ∧ best t < best t' ∧
       Forall (fun p => p.2 < best t') pre ∧ Forall (fun p => p.2 < best t') post) ∧
  (tied t' = true → (best t' = best t ∧ (tied t = true ∨ ∃ p, p ∈ ss ∧ p.2 = best t')) ∨
     ∃ i j p q, i ≠ j ∧ ss !! i = Some p ∧ ss !! j = Some q ∧ p.2 = best t' ∧ q.2 = best t').
Proof.
  revert t. induction ss as [|[u x] ss IH]; intros t.
  { cbn. split_and!; [done| |].
    - intros ->. left. by split_and!.
    - intros ->. left. split; [done|by left]. }
  cbn [fold_left]. assert (Hmax : ∀ (l : list Z) b, b ≤ foldr Z.max b l) by (intros l b; induction l; cbn; lia).
  assert (Hcomm : ∀ (l : list Z) b y, foldr Z.max (y `max` b) l = y `max` foldr Z.max b l)
    by (intros l b y; induction l; cbn; lia).
  specialize (IH (rankStep t (u, x))). cbv zeta in IH |- *. set (t' := fold_left rankStep ss (rankStep t (u, x))) in *.
  destruct IH as (H1 & H2 & H3). unfold rankStep in H1, H2, H3. cbn [fst snd] in H1, H2, H3.
  rewrite fmap_cons. cbn [foldr snd]. pose proof (Hmax (ss.*2) (best t)) as Hm.
  destruct (Z.gtb_spec x (best t)) as [Hgt|Hle]; [|destruct (Z.eqb_spec x (best t)) as [Heq|Hne]]; cbn [best winner tied] in *.
  - assert (Hb : best t' = x `max` foldr Z.max (best t) ss.*2) by (rewrite H1, <- Hcomm; f_equal; lia).
    split; [done|]. pose proof (Hmax (ss.*2) x). split.
    + intros Ht. right. destruct (H2 Ht) as [(E1 & E2 & _ & E4)|(pre & post & E1 & E2 & E3 & E4)].
      * exists [], ss. rewrite E1, E2. cbn. rewrite E2 in E4. split_and!; try done.
      * exists ((u, x) :: pre), post. rewrite E1 at 1. split_and!; try done; try lia; constructor; [cbn; lia|done].
    + intros Ht. destruct (H3 Ht) as [(E1 & [E2|(p & E2 & E3)])|(i & j & p & q & E1 & E2 & E3 & E4 & E5)]; [done| |].
      * right. apply list_elem_of_lookup in E2 as [j Hj]. exists 0%nat, (S j), (u, x), p. by split_and!.
      * right. exists (S i), (S j), p, q. split_and!; try done. lia.
  - split; [lia|]. split.
    + intros Ht. destruct (H2 Ht) as [(E1 & E2 & E3 & E4)|(pre & post & E1 & E2 & E3 & E4)]; [done|].
      right. exists ((u, x) :: pre), post. rewrite E1 at 1. split_and!; try done. constructor; [cbn; lia|done].
    + intros Ht. destruct (H3 Ht) as [(E1 & [E2|(p & E2 & E3)])|(i & j & p & q & E1 & E2 & E3 & E4 & E5)].
      * left. split; [done|]. right. exists (u, x). split; [set_solver|]. cbn. lia.
      * right. apply list_elem_of_lookup in E2 as [j Hj]. exists 0%nat, (S j), (u, x), p. split_and!; try done. cbn. lia.
      * right. exists (S i), (S j), p, q. split_and!; try done. lia.
  - split; [lia|]. split.
    + intros Ht. destruct (H2 Ht) as [(E1 & E2 & E3 & E4)|(pre & post & E1 & E2 & E3 & E4)].
      * left. split_and!; try done. constructor; [cbn; lia|done].
      * right. exists ((u, x) :: pre), post. rewrite E1 at 1. split_and!; try done. constructor; [cbn; lia|done].
    + intros Ht. destruct (H3 Ht) as [(E1 & [E2|(p & E2 & E3)])|(i & j & p & q & E1 & E2 & E3 & E4 & E5)].
      * left. split; [done|]. by left.
      * left. split; [done|]. right. exists p. split; [set_solver|done].
      * right. exists (S i), (S j), p, q. split_and!; try done. lia.
Qed.

(** The result names the right winner: on a table of non-negative scores
    the winner is [w] exactly when [w] has strictly more points than everybody
    else; otherwise it is empty. *)
Theorem quiz_winner ss w :
  Forall (fun p => 0 ≤ p.2) ss → w ≠ EmptyString →
  winnerOf ss = w ↔ ∃ pre sc post, ss = pre ++ (w, sc) :: post ∧ Forall (fun p => p.2 < sc) (pre ++ post).
Proof.
  intros Hpos Hw. unfold winnerOf. pose proof (rank_spec ss (mkRanking EmptyString (-1) false)) as (H1 & H2 & H3).
  set (t := fold_left rankStep ss (mkRanking EmptyString (-1) false)) in *. cbn [best winner tied] in *. split.
  - destruct (tied t) eqn:Et; [congruence|]. intros E.
    destruct (H2 eq_refl) as [(E1 & _)|(pre & post & E1 & _ & E3 & E4)]; [congruence|].
    exists pre, (best t), post. rewrite <- E. split; [done|]. by apply Forall_app.
  - intros (pre & sc & post & E & Hlt). apply Forall_app in Hlt as [Hp1 Hp2].
    assert (Hsc : 0 ≤ sc).
    { rewrite E, Forall_app, Forall_cons in Hpos. naive_solver. }
    assert (Hbest : best t = sc).
    { rewrite H1, E, fmap_app, foldr_app, fmap_cons. cbn [foldr snd].
      assert (Hsmall : ∀ (l : list (string * Z)) b, Forall (fun p => p.2 < sc) l → b ≤ sc → foldr Z.max b l.*2 ≤ sc).
      { intros l b Hl Hb. induction Hl; cbn; lia. }
      assert (Hge : ∀ (l : list Z) b, b ≤ foldr Z.max b l) by (intros l b; induction l; cbn; lia).
      pose proof (Hsmall post (-1) Hp2 ltac:(lia)) as Hs1.
      replace (sc `max` foldr Z.max (-1) post.*2) with sc by lia.
      pose proof (Hsmall pre sc Hp1 ltac:(lia)). pose proof (Hge (pre.*2) sc). lia. }
    assert (Huniq : ∀ i p, ss !! i = Some p → p.2 = sc → i = length pre).
    { intros i p Hi Hp. rewrite E in Hi. apply lookup_app_Some in Hi as [Hi|[Hle Hi]].
      - rewrite Forall_lookup in Hp1. specialize (Hp1 _ _ Hi). lia.
      - destruct (i - length pre)%nat as [|k] eqn:Ek; [lia|]. cbn in Hi. rewrite Forall_lookup in Hp2.
        specialize (Hp2 _ _ Hi). lia. }
    destruct (tied t) eqn:Et.
    + exfalso. destruct (H3 eq_refl) as [(E1 & _)|(i & j & p & q & Hij & Hi & Hj & Hpi & Hqj)]; [lia|].
      rewrite Hbest in *. apply Hij. rewrite (Huniq _ _ Hi Hpi), (Huniq _ _ Hj Hqj). done.
    + destruct (H2 eq_refl) as [(_ & E1 & _)|(pre' & post' & E1 & _)]; [lia|]. rewrite Hbest in E1.
      assert (Hi : ss !! length pre' = Some (winner t, sc)) by (rewrite E1, lookup_app_r, Nat.sub_diag by lia; done).
      pose proof (Huniq _ _ Hi eq_refl) as Hlen. rewrite Hlen, E, lookup_app_r, Nat.sub_diag in Hi by lia.
      by injection Hi as <-.
Qed.

(** ** The game invariant *)

Definition roomOK (r : room) : Prop := closing r = true → members r = ∅.

Record playerOK (c : Z) (qp : quizPlayer) : Prop := {
  po_answered i : i ∈ answered qp → 0 ≤ i ≤ c;
  po_score : 0 ≤ score qp ≤ Z.of_nat (size (answered qp)) }.

Record Playing (s : st) : Prop := {
  py_live : started (lg s) = true ∧ finished (lg s) = false;
  py_nodup : NoDup (order (lg s));
  py_two : zlen (order (lg s)) = 2;
  py_max : maxPlayers (lg s) = 2;
  py_dom u : u ∈ order (lg s) ↔ is_Some (players (lg s) !! u);
  py_cur : 0 ≤ cur (lg s) < Questions;
  py_players u qp : players (lg s) !! u = Some qp → playerOK (cur (lg s)) qp }.

Record Waiting (s : st) : Prop := {
  wa_live : started (lg s) = false ∧ finished (lg s) = false;
  wa_nodup : NoDup (order (lg s));
  wa_few : zlen (order (lg s)) < 2;
  wa_max : maxPlayers (lg s) = 2;
  wa_dom u : u ∈ order (lg s) ↔ is_Some (players (lg s) !! u);
  wa_cur : cur (lg s) = 0;
  wa_new u qp : players (lg s) !! u = Some qp → qp = mkPlayer ∅ 0 }.

Definition Over (s : st) : Prop := finished (lg s) = true ∧ closing (rm s) = true.
Definition QInv (s : st) : Prop := Waiting s ∨ Playing s ∨ Over s.

Lemma quiz_scoresOf_run os l : (∀ u, u ∈ os → is_Some (players l !! u)) → ∃ ss, scoresOf os l = Ok ss.
Proof.
  induction os as [|u os IH]; intros Hd; cbn; [by exists []|].
  destruct (Hd u) as [cp Hcp]; [set_solver|]. rewrite Hcp. destruct IH as (ss & ->); [set_solver|]. by eexists.
Qed.

Lemma quiz_finish_run s : (∀ u, u ∈ order (lg s) → is_Some (players (lg s) !! u)) → run (finish s) Over.
Proof.
  intros Hd. unfold finish.
  destruct (quiz_scoresOf_run (order (lg s)) (set_finished true (lg s)) Hd) as (ss & E).
  cbn [onL lg order set_finished]. rewrite E. cbn [rbind run]. split; [by case_decide|].
  unfold Close. cbn [rm]. apply doClose_closing. intros r. unfold OnDestroy. by destruct (profileStore r).
Qed.

Lemma bank_index c : 0 ≤ c < Questions → ∃ q, index Bank c = Ok q.
Proof.
  intros Hc. destruct (index_in_range Bank c) as (q & _ & Hq); [unfold Questions, zlen in *; cbn; lia|]. eauto.
Qed.

Lemma ask_run s : Playing s → run (askQuestion s) Playing.
Proof.
  intros [P1 P2 P3 P4 P5 P6 P7]. unfold askQuestion. destruct (bank_index _ P6) as [q ->]. cbn [rbind]. by split.
Qed.

Lemma next_run s : Playing s → run (next s) (fun s' => Playing s' ∨ Over s').
Proof.
  intros [[P1 P1'] P2 P3 P4 P5 P6 P7]. unfold next. rewrite P1'. match goal with |- context [onL _ ?x] => set (s1 := x) end.
  assert (Hl : ∃ h, lg s1 = set_qTimer h (lg s)).
  { unfold s1. destruct (qTimer (lg s)) eqn:E; [by eexists|]. exists None. rewrite <- E. by destruct (lg s). }
  destruct Hl as [h Hl]. set (s2 := onL _ s1).
  assert (Hl2 : lg s2 = set_cur (cur (lg s) + 1) (set_qTimer h (lg s))) by (cbn [s2 onL lg]; by rewrite Hl).
  destruct (Z.geb_spec (cur (lg s2)) Questions) as [Hge|Hlt].
  - eapply run_mono; [apply quiz_finish_run|by right]. rewrite Hl2. intros u. apply P5.
  - eapply run_mono; [apply ask_run|by left]. rewrite Hl2 in Hlt. cbn in Hlt. split; rewrite Hl2; cbn; try done; [lia|].
    intros u qp Hu. destruct (P7 _ _ Hu) as [A1 A2]. split; [|done]. intros i Hi. specialize (A1 i Hi). lia.
Qed.

Lemma everyone_run os l : (∀ u, u ∈ os → is_Some (players l !! u)) → ∃ b, everyone os l = Ok b.
Proof.
  induction os as [|u os IH]; intros Hd; cbn; [by eexists|]. destruct (Hd u) as [qp ->]; [set_solver|].
  case_decide; [|by eexists]. apply IH. set_solver.
Qed.

Lemma quiz_OnMessage_Playing uid req s : Playing s → run (OnMessage uid req s) (fun s' => Playing s' ∨ Over s').
Proof.
  intros HP. pose proof HP as [[P1 P1'] P2 P3 P4 P5 P6 P7]. unfold OnMessage. destruct req as [[i o]|]; [|by left].
  destruct (negb (started (lg s)) || finished (lg s)); [by left|].
  destruct (players (lg s) !! uid) as [qp|] eqn:Hu; [|by left]. destruct (cur (lg s) >=? Questions); [by left|].
  case_decide as Hd; [by left|]. destruct (bank_index _ P6) as [q ->]. cbn [rbind].
  destruct (o >=? zlen (Options q)); [by left|]. set (qp' := mkPlayer _ _). set (s1 := onL _ s).
  assert (H1 : Playing s1).
  { split; cbn [s1 onL lg set_players order players maxPlayers cur]; try done.
    - intros v. destruct (decide (uid = v)) as [<-|Hne].
      + rewrite lookup_insert_eq, P5, Hu. split; eauto.
      + by rewrite lookup_insert_ne.
    - intros v c. destruct (decide (uid = v)) as [<-|Hne].
      + rewrite lookup_insert_eq. intros [= <-]. destruct (P7 _ _ Hu) as [A1 A2]. split; cbn [qp' answered score].
        * intros k Hk. apply elem_of_union in Hk as [Hk|Hk]; [apply elem_of_singleton in Hk; lia|by apply A1].
        * rewrite size_union, size_singleton by set_solver. destruct (o =? Answer q); lia.
      + rewrite lookup_insert_ne by done. apply P7. }
  destruct (everyone_run (order (lg s1)) (lg s1)) as [b ->]; [intros; by apply (py_dom _ H1)|]. cbn [rbind].
  destruct b; [by apply next_run|by left].
Qed.


Lemma quiz_OnJoin_Waiting uid s :
  Waiting s → uid ∉ order (lg s) → run (OnJoin uid s) (fun s' => Waiting s' ∨ Playing s').
Proof.
  intros [(W1 & W1') W2 W3 W4 W5 W6 W7] Hu. unfold OnJoin. set (s1 := onR _ (onL _ s)).
  assert (Hnd : NoDup (order (lg s1))) by (apply NoDup_app; split_and!; [done|set_solver|apply NoDup_singleton]).
  assert (Hdom : ∀ u, u ∈ order (lg s1) ↔ is_Some (players (lg s1) !! u)).
  { intros u. cbn [s1 onR onL lg set_order set_players order players].
    rewrite elem_of_app, list_elem_of_singleton. destruct (decide (uid = u)) as [->|Hne].
    - rewrite lookup_insert_eq. naive_solver.
    - rewrite lookup_insert_ne by done. rewrite <- W5. naive_solver. }
  assert (Hnew : ∀ u cp, players (lg s1) !! u = Some cp → cp = mkPlayer ∅ 0).
  { intros u cp. cbn [s1 onR onL lg set_order set_players players]. destruct (decide (uid = u)) as [->|Hne].
    - rewrite lookup_insert_eq. by intros [= <-].
    - rewrite lookup_insert_ne by done. apply W7. }
  rewrite (size_of_order _ _ Hnd Hdom). change (maxPlayers (lg s1)) with (maxPlayers (lg s)). rewrite W4.
  destruct (Z.geb_spec (Z.of_nat (length (order (lg s1)))) 2) as [Hge|Hlt].
  - assert (Hlen : zlen (order (lg s1)) = 2).
    { unfold zlen in *. cbn [s1 onR onL lg set_order set_players order] in *. rewrite length_app in *. simpl in *. lia. }
    eapply run_mono; [apply ask_run|by right].
    split; cbn [onL lg set_started started finished order maxPlayers players cur]; try done.
    + change (cur (lg s1)) with (cur (lg s)). rewrite W6. unfold Questions. lia.
    + intros u qp Hq. rewrite (Hnew _ _ Hq). split; [set_solver|done].
  - left. by split.
Qed.

Lemma quiz_OnLeave_Playing uid s : Playing s → run (OnLeave uid s) (fun s' => Playing s' ∨ Over s').
Proof.
  intros [(M1 & M1') M2 M3 M4 M5 M6 M7]. unfold OnLeave. set (s1 := onR _ (onL _ s)).
  change (started (lg s1)) with (started (lg s)). change (finished (lg s1)) with (finished (lg s)). rewrite M1, M1'.
  cbn [andb negb]. destruct (decide (uid ∈ order (lg s))) as [Hin|Hin].
  - assert (Hone : zlen (order (lg s1)) = 1).
    { pose proof (length_remove_first _ _ Hin). cbn [s1 onR onL lg set_order set_players order]. unfold zlen in *. lia. }
    rewrite Hone. cbn [Z.eqb Pos.eqb]. eapply run_mono; [apply quiz_finish_run|by right].
    assert (Hl : lg (match qTimer (lg s1) with Some h => onR (fun r => Cancel r h) s1 | None => s1 end) = lg s1)
      by (by destruct (qTimer (lg s1))).
    rewrite Hl. cbn [s1 onR onL lg set_order set_players order players]. intros u.
    rewrite elem_of_remove_first by done. intros [Hu Hne]. rewrite lookup_delete_ne by done. by apply M5.
  - assert (Hsame : lg s1 = lg s).
    { cbn [s1 onR onL lg]. rewrite remove_first_notin by done. rewrite delete_id; [by destruct (lg s)|].
      destruct (players (lg s) !! uid) eqn:E; [|done]. destruct Hin. apply M5. eauto. }
    rewrite Hsame, M3. cbn [Z.eqb Pos.eqb]. left. by split; rewrite ?Hsame.
Qed.

Lemma quiz_OnLeave_Waiting uid s : Waiting s → run (OnLeave uid s) Waiting.
Proof.
  intros [(W1 & W1') W2 W3 W4 W5 W6 W7]. unfold OnLeave. cbn [onR onL lg started set_order set_players]. rewrite W1.
  cbn [andb run]. split; try done; cbn [onR onL lg rm order players set_order set_players].
  - by apply NoDup_remove_first.
  - rewrite remove_first_filter by done. pose proof (length_filter (.≠ uid) (order (lg s))). unfold zlen in *. lia.
  - intros u. rewrite elem_of_remove_first by done. destruct (decide (u = uid)) as [->|Hne].
    + rewrite lookup_delete_eq. split; [tauto|by intros []].
    + rewrite lookup_delete_ne, <- W5 by done. tauto.
  - intros u cp [_ Hu]%lookup_delete_Some. by apply (W7 u).
Qed.

(** ** The transition system *)

(** A question timer exists only once the game started. *)
Inductive qstep : st → st → Prop :=
| qs_join uid s s' : closing (rm s) = false → zlen (order (lg s)) < maxPlayers (lg s) →
    uid ∉ order (lg s) → OnJoin uid s = Ok s' → qstep s s'
| qs_msg uid req s s' : OnMessage uid req s = Ok s' → qstep s s'
| qs_timer s s' : started (lg s) = true → next s = Ok s' → qstep s s'
| qs_leave uid s s' : closing (rm s) = false → OnLeave uid s = Ok s' → qstep s s'
| qs_close s : qstep s (Close s)
| qs_env s r : closing r = closing (rm s) → qstep s (mkSt (lg s) r).

Inductive qreach (r : room) : st → Prop :=
| qr_start : qreach r (OnCreate (mkSt (NewLogic 2) r))
| qr_step s s' : qreach r s → qstep s s' → qreach r s'.

Lemma run_QInv m : run m (fun s' => Playing s' ∨ Over s') → run m QInv.
Proof. intros Hr. eapply run_mono; [exact Hr|]. intros s [?|?]; [by right; left|by right; right]. Qed.

Lemma OnMessage_QInv uid req s : QInv s → run (OnMessage uid req s) QInv.
Proof.
  intros [HW|[HP|HO]].
  - assert (OnMessage uid req s = Ok s) as ->; [|by left].
    unfold OnMessage. destruct req as [[i o]|]; [|done]. by rewrite (proj1 (wa_live _ HW)).
  - by apply run_QInv, quiz_OnMessage_Playing.
  - assert (OnMessage uid req s = Ok s) as ->; [|by right; right].
    unfold OnMessage. destruct req as [[i o]|]; [|done]. by rewrite (proj1 HO), orb_true_r.
Qed.

Lemma next_QInv s : QInv s → started (lg s) = true → run (next s) QInv.
Proof.
  intros [HW|[HP|HO]] Hst.
  - destruct (wa_live _ HW). congruence.
  - by apply run_QInv, next_run.
  - unfold next. rewrite (proj1 HO). by right; right.
Qed.

Lemma OnLeave_QInv uid s : QInv s → closing (rm s) = false → run (OnLeave uid s) QInv.
Proof.
  intros [HW|[HP|HO]] Hc.
  - eapply run_mono; [by apply quiz_OnLeave_Waiting|by left].
  - by apply run_QInv, quiz_OnLeave_Playing.
  - destruct HO. congruence.
Qed.

Lemma OnJoin_QInv uid s :
  QInv s → closing (rm s) = false → zlen (order (lg s)) < maxPlayers (lg s) → uid ∉ order (lg s) → run (OnJoin uid s) QInv.
Proof.
  intros [HW|[HP|HO]] Hc Hlen Hu.
  - eapply run_mono; [by apply quiz_OnJoin_Waiting|]. intros s' [?|?]; [by left|by right; left].
  - rewrite (py_two _ HP), (py_max _ HP) in Hlen. lia.
  - destruct HO. congruence.
Qed.

Lemma QInv_rm s r : QInv s → (closing (rm s) = true → closing r = true) → QInv (mkSt (lg s) r).
Proof.
  intros [HW|[HP|HO]] Hc.
  - left. destruct HW. by split.
  - right; left. destruct HP. by split.
  - right; right. split; [apply HO|]. apply Hc, HO.
Qed.

Lemma qstep_QInv s s' : qstep s s' → QInv s → QInv s'.
Proof.
  intros Hst HI. assert (Hrun : ∀ m x, run m QInv → m = Ok x → QInv x) by (intros m x Hr ->; exact Hr).
  destruct Hst as [uid s s' H1 H2 H3 E|uid req s s' E|s s' H1 E|uid s s' H1 E|s|s r H1].
  - eapply Hrun; [|exact E]. by apply OnJoin_QInv.
  - eapply Hrun; [|exact E]. by apply OnMessage_QInv.
  - eapply Hrun; [|exact E]. by apply next_QInv.
  - eapply Hrun; [|exact E]. by apply OnLeave_QInv.
  - apply (QInv_rm s); [done|]. intros Hc. unfold doClose. by rewrite Hc.
  - apply (QInv_rm s); [done|]. intros Hc. congruence.
Qed.

Lemma qreach_QInv r s : qreach r s → QInv s.
Proof.
  induction 1 as [|s s' _ IH Hs]; [|by eapply qstep_QInv]. left.
  split; cbn [OnCreate NewLogic lg order players started finished maxPlayers cur rm]; try done.
  - apply NoDup_nil_2.
  - intros u. rewrite lookup_empty. split; [by intros ?%elem_of_nil|by intros []].
Qed.

(** A quiz never goes wrong: in every reachable state of a two-player room
    each callback returns (the question bank is never indexed out of range),
    and while the game is on a player has answered each question so far at
    most once and has at most one point per answer. *)
Theorem quiz_safe r s :
  qreach r s →
  (∀ uid req, ∃ s', OnMessage uid req s = Ok s') ∧
  (started (lg s) = true → ∃ s', next s = Ok s') ∧
  (closing (rm s) = false → ∀ uid, ∃ s', OnLeave uid s = Ok s') ∧
  (closing (rm s) = false → zlen (order (lg s)) < maxPlayers (lg s) → ∀ uid, uid ∉ order (lg s) → ∃ s', OnJoin uid s = Ok s') ∧
  (started (lg s) = true → finished (lg s) = false →
     0 ≤ cur (lg s) < Questions ∧ ∀ u, u ∈ order (lg s) → ∃ qp, players (lg s) !! u = Some qp ∧ playerOK (cur (lg s)) qp).
Proof.
  intros HI%qreach_QInv.
  assert (Hrun : ∀ m : res st, run m QInv → ∃ s', m = Ok s') by (intros m (x & ? & _)%run_exists; eauto).
  split_and!.
  - intros. by apply Hrun, OnMessage_QInv.
  - intros. by apply Hrun, next_QInv.
  - intros. by apply Hrun, OnLeave_QInv.
  - intros. by apply Hrun, OnJoin_QInv.
  - intros Hst Hf. destruct HI as [HW|[HM|(? & _)]]; [destruct (wa_live _ HW); congruence| |congruence].
    split; [apply (py_cur _ HM)|]. intros u Hu. apply (py_dom _ HM) in Hu as [cp Hcp]. exists cp.
    split; [done|]. by apply (py_players _ HM u).
Qed.

(** ** A concrete game *)

Definition demoRoom : room :=
  mkRctx "r1" (list_to_map [("a", true); ("b", true)]) ["a"; "b"] false true true ∅ 0 true 0 [].
Definition getOk (m : res st) : st := match m with Ok s => s | _ => mkSt (NewLogic 2) demoRoom end.
Definition isOk (m : res st) : bool := match m with Ok _ => true | _ => false end.
Lemma quiz_getOk_step m : isOk m = true → m = Ok (getOk m).
Proof. by destruct m. Qed.

Definition demo2 : st := getOk (OnJoin "b" (getOk (OnJoin "a" (OnCreate (mkSt (NewLogic 2) demoRoom))))).
Definition demo3 : st := getOk (OnMessage "a" (Some (0, 0)) demo2).
Definition demo4 : st := getOk (OnMessage "b" (Some (0, 1)) demo3).

Lemma demo3_reach : qreach demoRoom demo3.
Proof.
  eapply qr_step; [eapply qr_step; [eapply qr_step; [apply qr_start|]|]|].
  - eapply (qs_join "a"); [reflexivity|vm_compute; reflexivity|apply not_elem_of_nil|]. apply quiz_getOk_step. vm_compute. reflexivity.
  - eapply (qs_join "b"); [vm_compute; reflexivity|vm_compute; reflexivity| |].
    + vm_compute. intros Hx. by apply list_elem_of_singleton in Hx.
    + apply quiz_getOk_step. vm_compute. reflexivity.
  - eapply (qs_msg "a" (Some (0, 0)) demo2). apply quiz_getOk_step. vm_compute. reflexivity.
Qed.

Lemma quiz_winner_witness : winnerOf [("a", 1); ("b", 3); ("c", 2)] = "b"%string.
Proof.
  apply (quiz_winner [("a", 1); ("b", 3); ("c", 2)] "b"%string).
  - repeat constructor; cbn; lia.
  - discriminate.
  - exists [("a"%string, 1)], 3, [("c"%string, 2)]. split; [reflexivity|]. repeat constructor; cbn; lia.
Defined.

Lemma quiz_safe_witness : isOk (next demo3) = true.
Proof.
  destruct (proj1 (proj2 (quiz_safe demoRoom demo3 demo3_reach)) ltac:(vm_compute; reflexivity)) as [s' ->]. reflexivity.
Defined.

(** Finding. A question can be skipped: the timer of a question and its last answer
    may both be pending. When the answer is handled first it advances the
    game and cancels the timer, but the closure already in the mailbox
    advances it once more, past a question nobody was given time for. *)
Theorem question_skipped :
  ∃ s s' s'', qreach demoRoom s ∧ is_Some (qTimer (lg s)) ∧ cur (lg s) = 0 ∧
    OnMessage "b" (Some (0, 1)) s = Ok s' ∧ cur (lg s') = 1 ∧
    (∀ u qp, players (lg s') !! u = Some qp → 1 ∉ answered qp) ∧
    next s' = Ok s'' ∧ cur (lg s'') = 2.
Proof.
  exists demo3, demo4, (getOk (next demo4)). split; [apply demo3_reach|].
  split; [vm_compute; eexists; reflexivity|]. split; [vm_compute; reflexivity|].
  split; [apply quiz_getOk_step; vm_compute; reflexivity|]. split; [vm_compute; reflexivity|]. split.
  - assert (Hall : forallb (fun p => negb (existsb (Z.eqb 1) (elements (answered p.2)))) (map_to_list (players (lg demo4))) = true)
      by (vm_compute; reflexivity).
    intros u qp Hu Hin. rewrite forallb_forall in Hall. apply elem_of_map_to_list, list_elem_of_In, Hall in Hu.
    apply negb_true_iff, not_true_iff_false in Hu. apply Hu, existsb_exists. exists 1.
    split; [by apply list_elem_of_In, elem_of_elements|done].
  - split; [apply quiz_getOk_step; vm_compute; reflexivity|vm_compute; reflexivity].
Qed.
