(* ===== verification/Snake.v ===== *)
(** * The snake room logic (games/snake/logic.go)

    A 15 by 15 board. Every tick moves the living snakes one cell, resolves
    collisions against all heads and bodies at once, and sends the board. *)

From S2P Require Import Prelude RoomCtx.

Definition gridW : Z := 15.
Definition gridH : Z := 15.
Definition MsgMove : Z := 0x1000.
Definition MsgState : Z := 0x1001.
Definition MsgResult : Z := 0x1002.
Definition DirUp : Z := 1.
Definition DirDown : Z := 2.
Definition DirLeft : Z := 3.
Definition DirRight : Z := 4.

Record Point := mkPoint { X : Z; Y : Z }.
#[export] Instance Point_eq_dec : EqDecision Point.
Proof. solve_decision. Defined.

Record snake := mkSnake { body : list Point; dir : Z; alive : bool; score : Z }.

Record SnakeState := mkState { ssUID : string; ssBody : list Point; ssAlive : bool; ssScore : Z }.

Inductive smsg :=
| MemberNtf (uid ev : string)
| StateNtf (tick : Z) (food : Point) (snakes : list SnakeState)
| ResultNtf (room winner : string) (rounds : Z).

Record Logic := mkLogic {
  snakes : gmap string snake;
  order : list string;
  food : Point;
  started : bool;
  finished : bool;
  tick : Z;
  seed : Z;
  finalScores : option (gmap string Z);   (* nil until finish *)
  maxPlayers : Z }.

Definition set_snakes (v : gmap string snake) (l : Logic) : Logic :=
  mkLogic v (order l) (food l) (started l) (finished l) (tick l) (seed l) (finalScores l) (maxPlayers l).
Definition set_order (v : list string) (l : Logic) : Logic :=
  mkLogic (snakes l) v (food l) (started l) (finished l) (tick l) (seed l) (finalScores l) (maxPlayers l).
Definition set_food (v : Point) (l : Logic) : Logic :=
  mkLogic (snakes l) (order l) v (started l) (finished l) (tick l) (seed l) (finalScores l) (maxPlayers l).
Definition set_started (v : bool) (l : Logic) : Logic :=
  mkLogic (snakes l) (order l) (food l) v (finished l) (tick l) (seed l) (finalScores l) (maxPlayers l).
Definition set_finished (v : bool) (l : Logic) : Logic :=
  mkLogic (snakes l) (order l) (food l) (started l) v (tick l) (seed l) (finalScores l) (maxPlayers l).
Definition set_tick (v : Z) (l : Logic) : Logic :=
  mkLogic (snakes l) (order l) (food l) (started l) (finished l) v (seed l) (finalScores l) (maxPlayers l).
Definition set_seed (v : Z) (l : Logic) : Logic :=
  mkLogic (snakes l) (order l) (food l) (started l) (finished l) (tick l) v (finalScores l) (maxPlayers l).
Definition set_finalScores (v : option (gmap string Z)) (l : Logic) : Logic :=
  mkLogic (snakes l) (order l) (food l) (started l) (finished l) (tick l) (seed l) v (maxPlayers l).

Definition room : Type := rctx smsg unit.
Record st := mkSt { lg : Logic; rm : room }.
Definition onL (f : Logic → Logic) (s : st) : st := mkSt (f (lg s)) (rm s).
Definition onR (f : room → room) (s : st) : st := mkSt (lg s) (f (rm s)).

Definition NewLogic (maxP : Z) : Logic :=
  mkLogic ∅ [] (mkPoint 0 0) false false 0 0 None maxP.

(** ** Food *)

(** [Point{X: int((g.seed>>16)%gridW+gridW) % gridW, ...}] *)
Definition probe (sd : Z) : Point :=
  mkPoint (Z.rem (Z.rem (Z.shiftr sd 16) gridW + gridW) gridW)
          (Z.rem (Z.rem (Z.shiftr sd 8) gridH + gridH) gridH).

Definition occupied (ss : gmap string snake) (p : Point) : bool :=
  existsb (fun q => bool_decide (p ∈ body q.2)) (map_to_list ss).

(** The search loop: the seed it stops at, and a free cell if it met one. *)
Fixpoint foodLoop (n : nat) (sd : Z) (ss : gmap string snake) : Z * option Point :=
  match n with
  | O => (sd, None)
  | S n =>
      let sd := lcg sd in
      let p := probe sd in
      if occupied ss p then foodLoop n sd ss else (sd, Some p)
  end.

Definition relocateFood (l : Logic) : Logic :=
  let sd := wrap_i64 (lcg (seed l) + tick l) in
  let '(sd, f) := foodLoop (Z.to_nat (gridW * gridH)) sd (snakes l) in
  let l := set_seed sd l in
  match f with Some p => set_food p l | None => l end.

(** ** Moving *)

Definition moveHead (d : Z) (h : Point) : Point :=
  if d =? DirUp then mkPoint (X h) (Y h - 1)
  else if d =? DirDown then mkPoint (X h) (Y h + 1)
  else if d =? DirLeft then mkPoint (X h - 1) (Y h)
  else if d =? DirRight then mkPoint (X h + 1) (Y h)
  else h.

(** One iteration of the loop of [Tick]. *)
Definition moveOne (uid : string) (l : Logic) : res Logic :=
  match snakes l !! uid with
  | None => Ok l
  | Some s =>
      if alive s then
        let! h := index (body s) 0 in
        let head := moveHead (dir s) h in
        let grown := head :: body s in
        if decide (head = food l) then
          let s' := mkSnake grown (dir s) (alive s) (score s + 1) in
          Ok (relocateFood (set_snakes (<[uid := s']> (snakes l)) l))
        else
          let! b := slice grown 0 (zlen grown - 1) in
          Ok (set_snakes (<[uid := mkSnake b (dir s) (alive s) (score s)]> (snakes l)) l)
      else Ok l
  end.

Fixpoint moveAll (os : list string) (l : Logic) : res Logic :=
  match os with
  | [] => Ok l
  | u :: os => let! l := moveOne u l in moveAll os l
  end.

(** ** Collisions *)

(** [occupy]: some snake (dead ones included) has the cell in its body past the head. *)
Definition occupy (l : Logic) (p : Point) : bool :=
  existsb (fun uid => match snakes l !! uid with
                      | Some s => bool_decide (p ∈ drop 1 (body s))
                      | None => false end) (order l).

Definition kill (s : snake) : snake := mkSnake (body s) (dir s) false (score s).

(** The heads of the living snakes, in seat order. *)
Fixpoint headsOf (os : list string) (l : Logic) : res (list (string * Point)) :=
  match os with
  | [] => Ok []
  | u :: os =>
      match snakes l !! u with
      | Some s => if alive s then
                    let! h := index (body s) 0 in
                    let! hs := headsOf os l in Ok ((u, h) :: hs)
                  else headsOf os l
      | None => headsOf os l
      end
  end.

(** Snakes whose head shares a cell with another head die. *)
Definition killHeads (hs : list (string * Point)) (ss : gmap string snake) : gmap string snake :=
  map_imap (fun uid s =>
    Some (if existsb (fun p => bool_decide (p.1 = uid) &&
                               existsb (fun q => bool_decide (q.1 ≠ p.1 ∧ q.2 = p.2)) hs) hs
          then kill s else s)) ss.

Definition outside (p : Point) : bool :=
  (X p <? 0) || (X p >=? gridW) || (Y p <? 0) || (Y p >=? gridH).

(** The last loop: walls, then bodies. *)
Fixpoint killCrashed (os : list string) (l : Logic) : res Logic :=
  match os with
  | [] => Ok l
  | u :: os =>
      match snakes l !! u with
      | None => killCrashed os l
      | Some s =>
          if alive s then
            let! h := index (body s) 0 in
            if outside h || occupy l h
            then killCrashed os (set_snakes (<[u := kill s]> (snakes l)) l)
            else killCrashed os l
          else killCrashed os l
      end
  end.

Definition resolveCollisions (l : Logic) : res Logic :=
  let! hs := headsOf (order l) l in
  killCrashed (order l) (set_snakes (killHeads hs (snakes l)) l).

(** ** End of the game *)

Definition aliveSnakes (l : Logic) : Z := Z.of_nat (size (filter (fun p => alive p.2 = true) (snakes l))).

(** [for _, uid := range g.order { if s != nil && s.alive { winner = uid } }] *)
Definition lastAlive (l : Logic) : string :=
  fold_left (fun w uid => match snakes l !! uid with
                          | Some s => if alive s then uid else w
                          | None => w end) (order l) EmptyString.

Definition OnDestroy (l : Logic) (r : room) : room :=
  if profileStore r then
    let scores := match finalScores l with Some m => m | None => score <$> snakes l end in
    emits r ((fun p => EvPatch (fst p) "extra.snake_total_score" (snd p)) <$> map_to_list scores)
  else r.
Definition Close (s : st) : st := mkSt (lg s) (doClose (OnDestroy (lg s)) (rm s)).

Definition finish (winner : string) (s : st) : st :=
  let s := onL (fun l => set_finalScores (Some (score <$> snakes l)) (set_finished true l)) s in
  let result := ResultNtf (roomID (rm s)) winner (tick (lg s)) in
  let s := onR (fun r => Broadcast r MsgResult result []) s in
  let s := onR (fun r => emit r (EvSetSync "snake_result" (roomID r) result)) s in
  let s := if decide (winner ≠ EmptyString) then onR (fun r => emit r (EvZIncrBy "snake_score" winner 1)) s else s in
  Close s.

Definition stateNtf (l : Logic) : smsg :=
  StateNtf (tick l) (food l)
    (omap (fun uid => (fun s => mkState uid (body s) (alive s) (score s)) <$> snakes l !! uid) (order l)).

Definition broadcastState (s : st) : st :=
  onR (fun r => BroadcastSnapshot r MsgState (stateNtf (lg s)) []) s.

(** ** Handlers *)

Definition OnCreate (s : st) : st := s.

(** Where the snake of the n-th player starts. *)
Definition spawn (n : nat) : snake :=
  match n with
  | O => mkSnake [mkPoint 3 7; mkPoint 2 7; mkPoint 1 7] DirRight true 0
  | S O => mkSnake [mkPoint 11 7; mkPoint 12 7; mkPoint 13 7] DirLeft true 0
  | _ => mkSnake [mkPoint 7 3; mkPoint 7 2; mkPoint 7 1] DirRight true 0
  end.

Definition OnJoin (uid : string) (s : st) : res st :=
  let s := onL (fun l => set_order (order l ++ [uid])
             (set_snakes (<[uid := spawn (length (order l))]> (snakes l)) l)) s in
  let s := onR (fun r => Broadcast r MsgMemberChange (MemberNtf uid "join") []) s in
  if Z.of_nat (size (snakes (lg s))) >=? maxPlayers (lg s)
  then Ok (onL (fun l => relocateFood (set_started true l)) s) else Ok s.

Definition opposite (d d' : Z) : bool :=
  ((d =? DirUp) && (d' =? DirDown)) || ((d =? DirDown) && (d' =? DirUp)) ||
  ((d =? DirLeft) && (d' =? DirRight)) || ((d =? DirRight) && (d' =? DirLeft)).

(** [req]: the direction of a MoveReq; another payload is [None]. *)
Definition OnMessage (uid : string) (req : option Z) (s : st) : res st :=
  match req with
  | None => Ok s
  | Some d =>
      match snakes (lg s) !! uid with
      | None => Ok s
      | Some sn =>
          if negb (alive sn) || negb (started (lg s)) then Ok s else
          if opposite (dir sn) d then Ok s else
          if (DirUp <=? d) && (d <=? DirRight)
          then Ok (onL (fun l => set_snakes (<[uid := mkSnake (body sn) d (alive sn) (score sn)]> (snakes l)) l) s)
          else Ok s
      end
  end.

Definition Tick (s : st) : res st :=
  if negb (started (lg s)) || finished (lg s) then Ok s else
  let l := set_tick (tick (lg s) + 1) (lg s) in
  let! l := moveAll (order l) l in
  let! l := resolveCollisions l in
  let s := broadcastState (mkSt l (rm s)) in
  let n := aliveSnakes (lg s) in
  if n <=? 1 then Ok (finish (if n =? 1 then lastAlive (lg s) else EmptyString) s) else Ok s.

Definition OnLeave (uid : string) (s : st) : res st :=
  let s := onL (fun l => set_order (remove_first uid (order l)) (set_snakes (delete uid (snakes l)) l)) s in
  let s := onR (fun r => Broadcast r MsgMemberChange (MemberNtf uid "leave") [uid]) s in
  if started (lg s) && negb (finished (lg s)) && (aliveSnakes (lg s) <=? 1)
  then Ok (finish (lastAlive (lg s)) s) else Ok s.

Definition OnEmpty (s : st) : res st := Ok (Close s).

Definition leader (l : Logic) : string * Z :=
  fold_left (fun '(w, b) uid => match snakes l !! uid with
                                | Some s => if alive s && (score s >? b) then (uid, score s) else (w, b)
                                | None => (w, b) end) (order l) (EmptyString, -1).

Definition OnTimeout (s : st) : res st :=
  if finished (lg s) then Ok s else Ok (finish (fst (leader (lg s))) s).
