(* ===== verification/SnakeInv.v ===== *)
(** * Theorems on the snake game

    The invariant of the board, its preservation by every handler, and the
    end of the game. *)

From S2P Require Import Prelude RoomCtx Snake.

(** ** Well-formed snakes *)

Definition inside (p : Point) : Prop := 0 ≤ X p < gridW ∧ 0 ≤ Y p < gridH.
Definition adjacent (p q : Point) : Prop := Z.abs (X p - X q) + Z.abs (Y p - Y q) = 1.

(** Consecutive cells of a body touch. *)
Fixpoint connected (b : list Point) : Prop :=
  match b with
  | p :: (q :: _) as b' => adjacent p q ∧ connected b'
  | _ => True
  end.

(** A snake right after its move: the head may have left the board. *)
Record moved (s : snake) : Prop := {
  mv_dir : DirUp ≤ dir s ≤ DirRight;
  mv_len : zlen (body s) = 3 + score s;
  mv_score : 0 ≤ score s;
  mv_conn : connected (body s);
  mv_tail : Forall inside (drop 1 (body s)) }.

Definition headInside (s : snake) : Prop := ∀ h, body s !! 0%nat = Some h → inside h.

Lemma outside_spec p : outside p = false ↔ inside p.
Proof. unfold outside, inside. rewrite !orb_false_iff, !Z.ltb_ge, !Z.geb_leb, !Z.leb_gt. lia. Qed.

Lemma moved_body s : moved s → ∃ h b, body s = h :: b ∧ b ≠ [].
Proof.
  intros Hs. pose proof (mv_len _ Hs) as Hl. pose proof (mv_score _ Hs).
  destruct (body s) as [|h [|q b]] eqn:E.
  - unfold zlen in Hl. simpl in Hl. lia.
  - unfold zlen in Hl. simpl in Hl. lia.
  - by exists h, (q :: b).
Qed.

Lemma moveHead_adjacent d h : DirUp ≤ d ≤ DirRight → adjacent (moveHead d h) h.
Proof.
  unfold moveHead, adjacent, DirUp, DirDown, DirLeft, DirRight. intros Hd.
  destruct (Z.eqb_spec d 1); [cbn; lia|]. destruct (Z.eqb_spec d 2); [cbn; lia|].
  destruct (Z.eqb_spec d 3); [cbn; lia|]. destruct (Z.eqb_spec d 4); [cbn; lia|]. lia.
Qed.

Lemma connected_cons p b : (∀ q, b !! 0%nat = Some q → adjacent p q) → connected b → connected (p :: b).
Proof. destruct b as [|q b]; cbn; [done|]. intros H1 H2. split; [by apply H1|done]. Qed.

Lemma connected_init b n : connected b → connected (take n b).
Proof.
  revert n. induction b as [|p b IH]; intros [|n] Hb; cbn [take]; try done. apply connected_cons.
  - destruct b as [|q b]; [by destruct n|]. destruct n as [|n]; [done|]. cbn. intros r [= <-]. apply Hb.
  - apply IH. destruct b; [done|apply Hb].
Qed.

(** ** Food *)

Lemma probe_inside sd : inside (probe sd).
Proof.
  assert (Hr : ∀ a n, 0 < n → 0 ≤ Z.rem (Z.rem a n + n) n < n).
  { intros a n Hn. pose proof (Z.rem_bound_abs a n). apply Z.rem_bound_pos; lia. }
  unfold inside, probe, gridW, gridH. cbn [X Y]. split; apply Hr; lia.
Qed.

Lemma foodLoop_spec n sd ss :
  match snd (foodLoop n sd ss) with Some p => inside p ∧ occupied ss p = false | None => True end.
Proof.
  revert sd. induction n as [|n IH]; intros sd; cbn [foodLoop]; [done|].
  destruct (occupied ss (probe (lcg sd))) eqn:E; [apply IH|]. cbn. split; [apply probe_inside|done].
Qed.

(** [relocateFood] touches only the food and the seed. *)
Lemma relocateFood_frame l : ∃ f sd, relocateFood l = set_food f (set_seed sd l) ∧ (f = food l ∨ inside f ∧ occupied (snakes l) f = false).
Proof.
  unfold relocateFood. pose proof (foodLoop_spec (Z.to_nat (gridW * gridH)) (wrap_i64 (lcg (seed l) + tick l)) (snakes l)) as Hf.
  destruct (foodLoop _ _ _) as [sd [p|]]; cbn [snd] in Hf.
  - exists p, sd. split; [done|]. by right.
  - exists (food l), sd. split; [by destruct l|]. by left.
Qed.

(** ** Moving *)

Lemma moveOne_run uid l sn :
  snakes l !! uid = Some sn → moved sn → headInside sn → alive sn = true → inside (food l) →
  ∃ l' sn', moveOne uid l = Ok l' ∧ snakes l' = <[uid := sn']> (snakes l) ∧ moved sn' ∧ alive sn' = true ∧
    dir sn' = dir sn ∧ inside (food l') ∧ order l' = order l ∧ started l' = started l ∧ finished l' = finished l ∧
    tick l' = tick l ∧ maxPlayers l' = maxPlayers l ∧ finalScores l' = finalScores l.
Proof.
  intros Hu Hm Hin Ha Hfood. destruct (moved_body _ Hm) as (h & b & Hb & _). pose proof Hm as [M1 M2 M3 M4 M5].
  unfold moveOne. rewrite Hu, Ha, Hb. cbn [index]. change (index (h :: b) 0) with (Ok h). cbn [rbind].
  set (head := moveHead (dir sn) h). assert (Hadj : adjacent head h) by (by apply moveHead_adjacent).
  assert (Hhin : Forall inside (h :: b)).
  { constructor; [apply Hin; by rewrite Hb|]. by rewrite Hb in M5. }
  assert (Hconn : connected (head :: h :: b)) by (rewrite Hb in M4; split; done).
  destruct (decide (head = food l)) as [Hf|Hf].
  - set (sn' := mkSnake _ _ _ _). set (l1 := set_snakes _ l).
    destruct (relocateFood_frame l1) as (f & sd & E & Hfr). exists (relocateFood l1), sn'. rewrite E.
    split; [done|]. split; [done|]. split.
    { split; cbn [sn' body dir score]; try done; [|lia]. rewrite zlen_cons. rewrite Hb in M2. lia. }
    split_and!; try done. cbn. destruct Hfr as [->|[? _]]; done.
  - rewrite slice_range by (rewrite ?zlen_cons; pose proof (zlen_nonneg b); lia). cbn [rbind].
    rewrite drop_0. replace (Z.to_nat (zlen (head :: h :: b) - 1 - 0)) with (S (length b))
      by (unfold zlen; simpl; lia).
    cbn [take]. set (sn' := mkSnake _ _ _ _). do 2 eexists. split; [reflexivity|]. split; [reflexivity|]. split.
    { split; cbn [sn' body dir score]; try done.
      - rewrite Hb in M2. unfold zlen in *. simpl in *. rewrite length_take. simpl. lia.
      - apply (connected_init (head :: h :: b) (S (length b))). done.
      - cbn [drop]. rewrite drop_0. by apply Forall_take. }
    by split_and!.
Qed.

(** The board while the game is on, before a move. *)
Record board (l : Logic) : Prop := {
  bd_nodup : NoDup (order l);
  bd_dom u : u ∈ order l ↔ is_Some (snakes l !! u);
  bd_food : inside (food l) }.

Lemma moveAll_run os l :
  NoDup os → board l →
  (∀ u sn, snakes l !! u = Some sn → moved sn ∧ alive sn = true ∧ (u ∈ os → headInside sn)) →
  ∃ l', moveAll os l = Ok l' ∧ board l' ∧ order l' = order l ∧ started l' = started l ∧ finished l' = finished l ∧
    tick l' = tick l ∧ maxPlayers l' = maxPlayers l ∧ finalScores l' = finalScores l ∧
    (∀ u, is_Some (snakes l' !! u) ↔ is_Some (snakes l !! u)) ∧
    ∀ u sn, snakes l' !! u = Some sn → moved sn ∧ alive sn = true.
Proof.
  revert l. induction os as [|u os IH]; intros l Hnd Hb Hs; cbn [moveAll].
  { exists l. split; [done|]. split; [done|]. split_and!; try done. intros u sn Hu. destruct (Hs _ _ Hu) as (? & ? & _). done. }
  apply NoDup_cons in Hnd as [Hu Hnd]. destruct (snakes l !! u) as [sn|] eqn:E.
  - destruct (Hs _ _ E) as (Hm & Ha & Hh).
    destruct (moveOne_run u l sn E Hm (Hh ltac:(set_solver)) Ha (bd_food _ Hb))
      as (l1 & sn1 & -> & Hsn & Hm1 & Ha1 & _ & Hf1 & O1 & O2 & O3 & O4 & O5 & O6). cbn [rbind].
    assert (Hdom : ∀ v, is_Some (snakes l1 !! v) ↔ is_Some (snakes l !! v)).
    { intros v. rewrite Hsn. destruct (decide (u = v)) as [<-|Hne].
      - rewrite lookup_insert_eq, E. split; eauto.
      - by rewrite lookup_insert_ne. }
    destruct (IH l1 Hnd) as (l' & -> & Hb' & R1 & R2 & R3 & R4 & R5 & R6 & R7 & R8).
    + split; [rewrite O1; apply (bd_nodup _ Hb)| |done]. intros v. rewrite O1, Hdom. apply (bd_dom _ Hb).
    + intros v r Hv. rewrite Hsn in Hv. destruct (decide (u = v)) as [<-|Hne].
      * rewrite lookup_insert_eq in Hv. injection Hv as <-. split_and!; [done..|]. intros Hx. done.
      * rewrite lookup_insert_ne in Hv by done. destruct (Hs _ _ Hv) as (? & ? & Hx).
        split_and!; [done..|]. intros Hv'. apply Hx. set_solver.
    + exists l'. split; [done|]. split; [done|]. rewrite R1, R2, R3, R4, R5, R6. split_and!; try done.
      intros v. rewrite R7. apply Hdom.
  - unfold moveOne. rewrite E. cbn [rbind]. apply IH; [done|done|]. intros v r Hv. destruct (Hs _ _ Hv) as (? & ? & Hx).
    split_and!; [done..|]. intros Hv'. apply Hx. set_solver.
Qed.

(** ** Collisions *)

Definition hasHead (s : snake) : Prop := body s ≠ [].

Lemma head_index s : hasHead s → ∃ h, body s !! 0%nat = Some h ∧ index (body s) 0 = Ok h.
Proof. unfold hasHead. intros Hb. destruct (body s) as [|h b]; [done|]. by exists h. Qed.

Lemma headsOf_run os l :
  (∀ u s, snakes l !! u = Some s → hasHead s) →
  ∃ hs, headsOf os l = Ok hs ∧
    ∀ u h, (u, h) ∈ hs ↔ u ∈ os ∧ ∃ s, snakes l !! u = Some s ∧ alive s = true ∧ body s !! 0%nat = Some h.
Proof.
  intros Hh. induction os as [|v os (hs & E & Hhs)]; cbn [headsOf].
  { exists []. split; [done|]. intros u h. rewrite !elem_of_nil. tauto. }
  destruct (snakes l !! v) as [s|] eqn:Hv.
  - destruct (alive s) eqn:Ha.
    + destruct (head_index s (Hh _ _ Hv)) as (h0 & H0 & ->). cbn [rbind]. rewrite E. cbn [rbind].
      eexists. split; [reflexivity|]. intros u h. rewrite !elem_of_cons, Hhs. split.
      * intros [[= -> ->]|(? & ?)]; [|tauto]. split; [by left|]. by exists s.
      * intros [[->|Hu] (s' & Hs' & Ha' & Hb')].
        -- left. rewrite Hv in Hs'. injection Hs' as <-. congruence.
        -- right. split; [done|]. by exists s'.
    + exists hs. split; [done|]. intros u h. rewrite Hhs, elem_of_cons. split; [tauto|].
      intros [[->|Hu] (s' & Hs' & Ha' & Hb')]; [congruence|]. split; [done|]. by exists s'.
  - exists hs. split; [done|]. intros u h. rewrite Hhs, elem_of_cons. split; [tauto|].
    intros [[->|Hu] (s' & Hs' & Ha' & Hb')]; [congruence|]. split; [done|]. by exists s'.
Qed.

Lemma killHeads_lookup hs ss u :
  killHeads hs ss !! u = (fun s => if existsb (fun p => bool_decide (p.1 = u) &&
    existsb (fun q => bool_decide (q.1 ≠ p.1 ∧ q.2 = p.2)) hs) hs then kill s else s) <$> ss !! u.
Proof. unfold killHeads. rewrite map_lookup_imap. by destruct (ss !! u). Qed.

(** A head that survives the first check is alone on its cell. *)
Lemma killHeads_alone hs ss u s s' h v :
  ss !! u = Some s → killHeads hs ss !! u = Some s' → alive s' = true → (u, h) ∈ hs → v ≠ u → (v, h) ∉ hs.
Proof.
  intros Hu. rewrite killHeads_lookup, Hu. intros [= <-] Ha Hin Hne Hv.
  destruct (existsb _ hs) eqn:E; [done|]. apply not_true_iff_false in E. apply E.
  apply existsb_exists. exists (u, h). split; [by apply list_elem_of_In|]. cbn [fst snd].
  rewrite bool_decide_eq_true_2 by done. apply existsb_exists. exists (v, h). split; [by apply list_elem_of_In|].
  by apply bool_decide_eq_true_2.
Qed.

Lemma occupy_ext l l' p :
  order l' = order l → (∀ u, body <$> snakes l' !! u = body <$> snakes l !! u) → occupy l' p = occupy l p.
Proof.
  intros Ho Hb. unfold occupy. rewrite Ho. clear Ho. induction (order l) as [|u os IH]; [done|].
  cbn [existsb]. rewrite IH. f_equal. specialize (Hb u).
  destruct (snakes l' !! u), (snakes l !! u); cbn in Hb; try done. by injection Hb as ->.
Qed.

Definition crashed (l : Logic) (s : snake) : bool :=
  match body s with h :: _ => outside h || occupy l h | [] => false end.
Definition adj (l : Logic) (s : snake) : snake := if alive s && crashed l s then kill s else s.

Lemma killCrashed_run os l :
  NoDup os → (∀ u s, snakes l !! u = Some s → hasHead s) →
  ∃ ss, killCrashed os l = Ok (set_snakes ss l) ∧
    ∀ u, ss !! u = (if decide (u ∈ os) then adj l else id) <$> snakes l !! u.
Proof.
  revert l. induction os as [|v os IH]; intros l Hnd Hh; cbn [killCrashed].
  { exists (snakes l). split; [by destruct l|]. intros u. rewrite decide_False by apply not_elem_of_nil.
    by rewrite option_fmap_id. }
  apply NoDup_cons in Hnd as [Hv Hnd].
  assert (Hskip : (∀ s, snakes l !! v = Some s → adj l s = s) →
    ∃ ss, killCrashed os l = Ok (set_snakes ss l) ∧
    ∀ u, ss !! u = (if decide (u ∈ v :: os) then adj l else id) <$> snakes l !! u).
  { intros Hadj. destruct (IH l Hnd Hh) as (ss & -> & Hss). exists ss. split; [done|]. intros u. rewrite Hss.
    destruct (decide (u = v)) as [->|Hne].
    - rewrite decide_False, decide_True by set_solver. destruct (snakes l !! v) as [s|]; [|done]. cbn. by rewrite Hadj.
    - destruct (decide (u ∈ os)); [by rewrite decide_True by set_solver|by rewrite decide_False by set_solver]. }
  destruct (snakes l !! v) as [s|] eqn:Es; [|apply Hskip; done].
  destruct (alive s) eqn:Ea; [|apply Hskip; intros s' [= <-]; unfold adj; by rewrite Ea].
  pose proof (Hh _ _ Es) as Hb. unfold hasHead in Hb. destruct (body s) as [|h b] eqn:Eb; [done|].
  change (index (h :: b) 0) with (Ok h). cbn [rbind].
  assert (Hcr : crashed l s = outside h || occupy l h) by (unfold crashed; by rewrite Eb).
  destruct (outside h || occupy l h) eqn:Eo.
  2: { apply Hskip. intros s' [= <-]. unfold adj. by rewrite Ea, Hcr. }
  clear Hskip. set (l1 := set_snakes (<[v := kill s]> (snakes l)) l).
  assert (Hbody : ∀ u, body <$> snakes l1 !! u = body <$> snakes l !! u).
  { intros u. cbn [l1 set_snakes snakes]. destruct (decide (v = u)) as [<-|Hne].
    - rewrite lookup_insert_eq, Es. done.
    - by rewrite lookup_insert_ne. }
  destruct (IH l1 Hnd) as (ss & -> & Hss).
  { intros u r Hr. specialize (Hbody u). rewrite Hr in Hbody. destruct (snakes l !! u) as [r0|] eqn:E0; [|done].
    cbn in Hbody. injection Hbody as Hbb. unfold hasHead. rewrite Hbb. by apply (Hh u). }
  exists ss. split; [done|]. intros u. rewrite Hss.
  assert (Hadj : ∀ r, adj l1 r = adj l r).
  { intros r. unfold adj, crashed. destruct (body r); [done|]. by rewrite (occupy_ext l l1). }
  destruct (decide (v = u)) as [<-|Hne].
  - rewrite decide_False, decide_True by set_solver. cbn [l1 set_snakes snakes]. rewrite lookup_insert_eq, Es. cbn.
    unfold adj. by rewrite Ea, Hcr.
  - cbn [l1 set_snakes snakes]. rewrite lookup_insert_ne by done. destruct (snakes l !! u) as [r|]; [|done]. cbn.
    destruct (decide (u ∈ os)); [rewrite decide_True by set_solver; by rewrite Hadj|by rewrite decide_False by set_solver].
Qed.

Lemma kill_fields s : body (kill s) = body s ∧ dir (kill s) = dir s ∧ score (kill s) = score s ∧ alive (kill s) = false.
Proof. done. Qed.

Lemma moved_kill s : moved s → moved (kill s).
Proof. intros [M1 M2 M3 M4 M5]. by split. Qed.

(** After collisions were resolved: bodies as before, survivors inside the
    board, alone on their head cell, and on nobody's body. *)
Lemma resolve_run l :
  board l → (∀ u s, snakes l !! u = Some s → moved s) →
  ∃ ss, resolveCollisions l = Ok (set_snakes ss l) ∧
    (∀ u, is_Some (ss !! u) ↔ is_Some (snakes l !! u)) ∧
    (∀ u s, ss !! u = Some s → moved s ∧ ∃ s0, snakes l !! u = Some s0 ∧ body s = body s0 ∧ (alive s = true → alive s0 = true)) ∧
    (∀ u s h, ss !! u = Some s → alive s = true → body s !! 0%nat = Some h →
       inside h ∧ (∀ v r, ss !! v = Some r → h ∉ drop 1 (body r)) ∧
       (∀ v r h', v ≠ u → ss !! v = Some r → alive r = true → body r !! 0%nat = Some h' → h' ≠ h)).
Proof.
  intros Hb Hm. assert (Hhead : ∀ u s, snakes l !! u = Some s → hasHead s).
  { intros u s Hu. destruct (moved_body _ (Hm _ _ Hu)) as (h & b & E & _). unfold hasHead. by rewrite E. }
  unfold resolveCollisions. destruct (headsOf_run (order l) l Hhead) as (hs & -> & Hhs). cbn [rbind].
  set (l1 := set_snakes (killHeads hs (snakes l)) l).
  assert (Hl1 : ∀ u s1, snakes l1 !! u = Some s1 → ∃ s, snakes l !! u = Some s ∧ (s1 = s ∨ s1 = kill s)).
  { intros u s1. cbn [l1 set_snakes snakes]. rewrite killHeads_lookup. destruct (snakes l !! u) as [s|]; [|done].
    cbn. intros [= <-]. exists s. split; [done|]. destruct (existsb _ hs); [by right|by left]. }
  destruct (killCrashed_run (order l) l1 (bd_nodup _ Hb)) as (ss & E & Hss).
  { intros u s1 Hu. destruct (Hl1 _ _ Hu) as (s & Hs & [->| ->]); exact (Hhead u s Hs). }
  exists ss. split; [rewrite E; done|].
  assert (Hss' : ∀ u s, ss !! u = Some s → ∃ s1, snakes l1 !! u = Some s1 ∧ s = adj l1 s1).
  { intros u s. rewrite Hss. destruct (snakes l1 !! u) as [s1|] eqn:E1; [|by case_decide].
    assert (u ∈ order l). { apply (bd_dom _ Hb). destruct (Hl1 _ _ E1) as (s0 & ? & _). eauto. }
    rewrite decide_True by done. intros [= <-]. by exists s1. }
  assert (Hfrom : ∀ u s, ss !! u = Some s →
    ∃ s0, snakes l !! u = Some s0 ∧ body s = body s0 ∧ (s = s0 ∨ s = kill s0) ∧ (alive s = true → alive s0 = true)).
  { intros u s Hu. destruct (Hss' _ _ Hu) as (s1 & H1 & ->). destruct (Hl1 _ _ H1) as (s0 & H0 & Hor). exists s0.
    split; [done|]. unfold adj. destruct Hor as [->| ->]; destruct (_ && _); cbn; naive_solver. }
  split_and!.
  - intros u. rewrite Hss. cbn [l1 set_snakes snakes]. rewrite killHeads_lookup. by rewrite !fmap_is_Some.
  - intros u s Hu. destruct (Hfrom _ _ Hu) as (s0 & H0 & Hbd & Hor & Hal). split; [|by exists s0].
    destruct Hor as [->| ->]; [|apply moved_kill]; by apply (Hm u).
  - intros u s h Hu Ha Hh. destruct (Hss' _ _ Hu) as (s1 & H1 & Hs1).
    unfold adj in Hs1. destruct (alive s1 && crashed l1 s1) eqn:Ecr; [subst s; done|]. subst s1.
    rewrite Ha in Ecr. cbn in Ecr. unfold crashed in Ecr. destruct (body s) as [|h0 b] eqn:Eb; [done|].
    cbn in Hh. injection Hh as ->. apply orb_false_iff in Ecr as [Ho Hoc]. split; [by apply outside_spec|]. split.
    + intros v r Hr Hin. destruct (Hfrom _ _ Hr) as (r0 & Hr0 & Hrb & _). apply not_true_iff_false in Hoc. apply Hoc.
      unfold occupy. apply existsb_exists. exists v. split.
      { apply list_elem_of_In. cbn [l1 set_snakes order]. apply (bd_dom _ Hb). eauto. }
      cbn [l1 set_snakes snakes]. rewrite killHeads_lookup, Hr0. cbn [fmap option_fmap option_map].
      destruct (existsb _ hs); cbn [kill body]; rewrite <- Hrb; by apply bool_decide_eq_true_2.
    + intros v r h' Hne Hr Har Hh' ->. destruct (Hfrom _ _ Hu) as (s0 & Hs0 & Hb0 & _ & Ha0).
      destruct (Hfrom _ _ Hr) as (r0 & Hr0 & Hrb & _ & Har0).
      assert (Hin_u : (u, h) ∈ hs).
      { apply Hhs. split; [apply (bd_dom _ Hb); eauto|]. exists s0. split_and!; [done|by apply Ha0|]. by rewrite <- Hb0, Eb. }
      assert (Hin_v : (v, h) ∈ hs).
      { apply Hhs. split; [apply (bd_dom _ Hb); eauto|]. exists r0. split_and!; [done|by apply Har0|]. by rewrite <- Hrb. }
      by eapply (killHeads_alone hs (snakes l) u s0 s h v).
Qed.

(** ** The game invariant *)

(** No head lies on a body or on another head. *)
Definition clear_board (ss : gmap string snake) : Prop :=
  ∀ u s h, ss !! u = Some s → body s !! 0%nat = Some h →
    (∀ v r, ss !! v = Some r → h ∉ drop 1 (body r)) ∧
    (∀ v r h', v ≠ u → ss !! v = Some r → body r !! 0%nat = Some h' → h' ≠ h).

Record Playing (s : st) : Prop := {
  py_live : started (lg s) = true ∧ finished (lg s) = false;
  py_board : board (lg s);
  py_two : zlen (order (lg s)) = 2;
  py_max : maxPlayers (lg s) = 2;
  py_snakes u sn : snakes (lg s) !! u = Some sn → moved sn ∧ headInside sn ∧ alive sn = true;
  py_clear : clear_board (snakes (lg s)) }.

Record Waiting (s : st) : Prop := {
  wa_live : started (lg s) = false ∧ finished (lg s) = false;
  wa_max : maxPlayers (lg s) = 2;
  wa_food : inside (food (lg s));
  wa_seats : order (lg s) = [] ∧ snakes (lg s) = ∅ ∨
             ∃ u, order (lg s) = [u] ∧ snakes (lg s) = {[u := spawn 0]} }.

Definition Over (s : st) : Prop := finished (lg s) = true ∧ closing (rm s) = true.
Definition SInv (s : st) : Prop := Waiting s ∨ Playing s ∨ Over s.

Lemma snake_Close_keeps s e : e ∈ out (rm s) → e ∈ out (rm (Close s)).
Proof.
  intros He. unfold Close, doClose. cbn [rm]. destruct (closing (rm s)); [done|].
  unfold OnDestroy. cbn [set_closing profileStore]. destruct (profileStore (rm s)); cbn; rewrite !elem_of_app; tauto.
Qed.

Lemma Close_closing s : closing (rm (Close s)) = true.
Proof.
  unfold Close. cbn [rm]. apply doClose_closing. intros r. unfold OnDestroy. by destruct (profileStore r).
Qed.

Lemma finish_spec w s :
  Over (finish w s) ∧ snakes (lg (finish w s)) = snakes (lg s) ∧
  finalScores (lg (finish w s)) = Some (score <$> snakes (lg s)) ∧
  ∃ to, EvBroadcast to MsgResult (ResultNtf (roomID (rm s)) w (tick (lg s))) ∈ out (rm (finish w s)).
Proof.
  unfold finish. match goal with |- context [Close ?x] => set (s1 := x) end.
  assert (Hl : lg s1 = set_finalScores (Some (score <$> snakes (lg s))) (set_finished true (lg s)))
    by (unfold s1; by case_decide).
  split_and!.
  - split; [cbn [Close lg]; by rewrite Hl|apply Close_closing].
  - cbn [Close lg]. by rewrite Hl.
  - cbn [Close lg]. by rewrite Hl.
  - exists (recipients (rm s) []). apply snake_Close_keeps. unfold s1.
    case_decide; cbn; rewrite !elem_of_app, !list_elem_of_singleton; tauto.
Qed.

Lemma all_alive l :
  NoDup (order l) → (∀ u, u ∈ order l ↔ is_Some (snakes l !! u)) → zlen (order l) = 2 → 1 < aliveSnakes l →
  ∀ u s, snakes l !! u = Some s → alive s = true.
Proof.
  intros Hnd Hdom H2 Ha u s Hu. destruct (alive s) eqn:E; [done|exfalso].
  assert (Hsz : size (snakes l) = 2%nat).
  { rewrite (size_of_order _ _ Hnd Hdom). unfold zlen in H2. lia. }
  assert (Hsub : filter (fun p => alive p.2 = true) (snakes l) ⊆ delete u (snakes l)).
  { apply map_subseteq_spec. intros v r Hr. apply map_lookup_filter_Some in Hr as [Hr Hal].
    rewrite lookup_delete_ne; [done|]. intros <-. cbn in Hal. congruence. }
  apply map_subseteq_size in Hsub. unfold aliveSnakes in Ha.
  assert (Hd : size (delete u (snakes l)) = 1%nat).
  { rewrite <- (insert_id (snakes l) u s Hu), <- insert_delete_eq in Hsz.
    rewrite map_size_insert_None in Hsz by apply lookup_delete_eq. lia. }
  lia.
Qed.

(** The state of a tick after moves and collisions. *)
Lemma Tick_moves s :
  Playing s → ∃ l, (let! l := moveAll (order (lg s)) (set_tick (tick (lg s) + 1) (lg s)) in resolveCollisions l) = Ok l ∧
    started l = true ∧ finished l = false ∧ board l ∧ order l = order (lg s) ∧ maxPlayers l = 2 ∧ tick l = tick (lg s) + 1 ∧
    (∀ u sn, snakes l !! u = Some sn → moved sn) ∧
    (1 < aliveSnakes l → (∀ u sn, snakes l !! u = Some sn → headInside sn ∧ alive sn = true) ∧ clear_board (snakes l)).
Proof.
  intros [(P1 & P1') P2 P3 P4 P5 P6].
  destruct (moveAll_run (order (lg s)) (set_tick (tick (lg s) + 1) (lg s)) (bd_nodup _ P2))
    as (l1 & -> & Hb1 & O1 & O2 & O3 & O4 & O5 & O6 & Hd1 & Hm1).
  { by destruct P2. }
  { intros u sn Hu. destruct (P5 _ _ Hu) as (? & ? & ?). done. }
  cbn [rbind]. destruct (resolve_run l1 Hb1) as (ss & -> & Hd2 & Hs2 & Hc2).
  { intros u sn Hu. apply (Hm1 _ _ Hu). }
  exists (set_snakes ss l1). split; [done|]. cbn [set_snakes started finished order maxPlayers tick snakes].
  cbn in O1, O2, O3, O4, O5. rewrite O1, O2, O3, O4, O5. split_and!; try done.
  - split; cbn [set_snakes order snakes food]; [apply (bd_nodup _ Hb1)| |apply (bd_food _ Hb1)].
    intros u. rewrite Hd2. apply (bd_dom _ Hb1).
  - intros u sn Hu. by destruct (Hs2 _ _ Hu).
  - intros Ha. assert (Hall : ∀ u sn, ss !! u = Some sn → alive sn = true).
    { apply (all_alive (set_snakes ss l1)); [apply (bd_nodup _ Hb1)| |by cbn; rewrite O1|done].
      intros u. cbn. rewrite Hd2. apply (bd_dom _ Hb1). }
    split.
    + intros u sn Hu. split; [|by eapply Hall]. intros h Hh. by apply (Hc2 u sn h Hu (Hall _ _ Hu) Hh).
    + intros u sn h Hu Hh. destruct (Hc2 u sn h Hu (Hall _ _ Hu) Hh) as (_ & C1 & C2). split; [done|].
      intros v r h' Hne Hr Hr'. eapply C2; [done|done|by eapply Hall|done].
Qed.

Lemma Tick_Playing s : Playing s → run (Tick s) (fun s' => Playing s' ∨ Over s').
Proof.
  intros HP. pose proof HP as [(P1 & P1') P2 P3 P4 P5 P6]. destruct (Tick_moves s HP) as (l & E & T1 & T2 & T3 & T4 & T5 & T6 & T7 & T8).
  unfold Tick. rewrite P1, P1'. cbn [negb orb]. change (order (set_tick _ (lg s))) with (order (lg s)).
  destruct (moveAll _ _) as [l1| |] eqn:E1; cbn [rbind] in E |- *; [|done..]. rewrite E. cbn [rbind].
  change (lg (broadcastState (mkSt l (rm s)))) with l.
  destruct (Z.leb_spec (aliveSnakes l) 1) as [Hle|Hgt]; [right; apply finish_spec|]. left.
  destruct (T8 Hgt) as [Ha Hc]. split; cbn [broadcastState onR lg]; try done.
  - by rewrite T4.
  - intros u sn Hu. split; [by apply (T7 u)|by apply (Ha u)].
Qed.

(** ** The winner *)

Lemma lastAlive_fold l os w :
  let f := fun w uid => match snakes l !! uid with Some s => if alive s then uid else w | None => w end in
  (fold_left f os w = w ∧ ∀ u s, u ∈ os → snakes l !! u = Some s → alive s = false) ∨
  ∃ s, snakes l !! fold_left f os w = Some s ∧ alive s = true.
Proof.
  cbv zeta. revert w. induction os as [|v os IH]; intros w; cbn [fold_left].
  { left. split; [done|]. intros u s Hu. by apply not_elem_of_nil in Hu. }
  destruct (snakes l !! v) as [sv|] eqn:Ev.
  - destruct (alive sv) eqn:Ea.
    + destruct (IH v) as [[E Hno]|?]; [|by right]. right. rewrite E. by exists sv.
    + destruct (IH w) as [[E Hno]|?]; [|by right]. left. split; [done|]. intros u s Hu Hs.
      apply elem_of_cons in Hu as [->|Hu]; [congruence|by eapply Hno].
  - destruct (IH w) as [[E Hno]|?]; [|by right]. left. split; [done|]. intros u s Hu Hs.
    apply elem_of_cons in Hu as [->|Hu]; [congruence|by eapply Hno].
Qed.

Lemma aliveSnakes_one l u v su sv :
  aliveSnakes l ≤ 1 → snakes l !! u = Some su → alive su = true → snakes l !! v = Some sv → alive sv = true → u = v.
Proof.
  intros Hn Hu Hau Hv Hav. destruct (decide (u = v)) as [|Hne]; [done|exfalso]. unfold aliveSnakes in Hn.
  set (m := filter _ _) in Hn.
  assert (Hmu : m !! u = Some su) by (by apply map_lookup_filter_Some).
  assert (Hmv : m !! v = Some sv) by (by apply map_lookup_filter_Some).
  assert (Hs : size (delete u m) ≠ 0%nat).
  { rewrite map_size_empty_iff. intros E. assert (Hx : delete u m !! v = Some sv) by (by rewrite lookup_delete_ne).
    rewrite E, lookup_empty in Hx. done. }
  rewrite <- (insert_id m u su Hmu), <- insert_delete_eq in Hn.
  rewrite map_size_insert_None in Hn by apply lookup_delete_eq. lia.
Qed.

Lemma aliveSnakes_zero l u s : aliveSnakes l = 0 → snakes l !! u = Some s → alive s = false.
Proof.
  intros Hn Hu. destruct (alive s) eqn:E; [exfalso|done]. unfold aliveSnakes in Hn. set (m := filter _ _) in Hn.
  assert (Hm : m !! u = Some s) by (by apply map_lookup_filter_Some).
  assert (Hz : size m = 0%nat) by lia. rewrite map_size_empty_iff in Hz. rewrite Hz, lookup_empty in Hm. done.
Qed.

Lemma aliveSnakes_pos l : 0 < aliveSnakes l → ∃ u s, snakes l !! u = Some s ∧ alive s = true.
Proof.
  intros Hn. unfold aliveSnakes in Hn. set (m := filter _ _) in Hn.
  destruct (decide (m = ∅)) as [E|E]; [rewrite E, map_size_empty in Hn; lia|].
  apply map_choose in E as (u & s & Hm). apply map_lookup_filter_Some in Hm as [? ?]. by exists u, s.
Qed.

(** ** Handlers *)

Lemma steer_Playing uid sn d s :
  Playing s → snakes (lg s) !! uid = Some sn → DirUp ≤ d ≤ DirRight →
  Playing (onL (fun l => set_snakes (<[uid := mkSnake (body sn) d (alive sn) (score sn)]> (snakes l)) l) s).
Proof.
  intros [P1 P2 P3 P4 P5 P6] Hu Hd. set (sn' := mkSnake _ _ _ _).
  assert (Hlk : ∀ v r, <[uid := sn']> (snakes (lg s)) !! v = Some r →
    ∃ r0, snakes (lg s) !! v = Some r0 ∧ body r = body r0 ∧ alive r = alive r0 ∧ score r = score r0 ∧ (r = r0 ∨ dir r = d)).
  { intros v r. destruct (decide (uid = v)) as [<-|Hne].
    - rewrite lookup_insert_eq. intros [= <-]. exists sn. split_and!; try done. by right.
    - rewrite lookup_insert_ne by done. intros Hr. exists r. split_and!; try done. by left. }
  split; cbn [onL lg set_snakes started finished order maxPlayers snakes]; try done.
  - destruct P2 as [B1 B2 B3]. split; cbn [set_snakes order snakes food]; try done. intros v.
    destruct (decide (uid = v)) as [<-|Hne]; [rewrite lookup_insert_eq, B2, Hu; split; eauto|by rewrite lookup_insert_ne].
  - intros v r (r0 & Hr0 & E1 & E2 & E3 & E4)%Hlk. destruct (P5 _ _ Hr0) as ([M1 M2 M3 M4 M5] & Hh & Ha).
    split; [|split; [unfold headInside; by rewrite E1|by rewrite E2]].
    split; rewrite ?E1, ?E3; try done. destruct E4 as [->| ->]; done.
  - intros u r h (r0 & Hr0 & E1 & _)%Hlk Hh. rewrite E1 in Hh. destruct (P6 _ _ _ Hr0 Hh) as [C1 C2]. split.
    + intros v q (q0 & Hq0 & F1 & _)%Hlk. rewrite F1. by apply (C1 v).
    + intros v q h' Hne (q0 & Hq0 & F1 & _)%Hlk Hh'. rewrite F1 in Hh'. by apply (C2 v q0).
Qed.

Lemma snake_OnMessage_Playing uid req s : Playing s → run (OnMessage uid req s) Playing.
Proof.
  intros HP. unfold OnMessage. destruct req as [d|]; [|done].
  destruct (snakes (lg s) !! uid) as [sn|] eqn:Hu; [|done]. destruct (_ || _); [done|]. destruct (opposite _ _); [done|].
  destruct ((DirUp <=? d) && (d <=? DirRight)) eqn:E; [|done]. apply andb_true_iff in E as [E1 E2].
  apply steer_Playing; [done|done|]. apply Z.leb_le in E1, E2. done.
Qed.

Lemma spawn_ok n : moved (spawn n) ∧ headInside (spawn n) ∧ alive (spawn n) = true.
Proof.
  destruct n as [|[|n]].
  all: split; [split|split; [intros h [= <-]; unfold inside, gridW, gridH; cbn; lia|done]].
  all: cbn; unfold adjacent, DirUp, DirRight, DirLeft, zlen; cbn; try lia.
  all: repeat constructor; unfold inside, gridW, gridH; cbn; lia.
Qed.

Lemma snake_OnJoin_Waiting uid s :
  Waiting s → uid ∉ order (lg s) → run (OnJoin uid s) (fun s' => Waiting s' ∨ Playing s').
Proof.
  intros [(W1 & W1') W2 W3 W4] Hu. unfold OnJoin. cbn [onR onL lg rm set_order set_snakes snakes order maxPlayers].
  rewrite W2. destruct W4 as [[Ho Hs]|(a & Ho & Hs)]; rewrite Ho, Hs in *; cbn [length app].
  - rewrite insert_empty, map_size_singleton. left. split; try done. right. exists uid.
    cbn [onR onL lg set_order set_snakes snakes order]. rewrite Ho, Hs. split; [done|]. apply insert_empty.
  - assert (Hne : uid ≠ a) by set_solver.
    rewrite map_size_insert_None by (by rewrite lookup_singleton_ne). rewrite map_size_singleton. right.
    match goal with |- Playing ?x => set (s1 := x) end.
    set (l0 := set_started true (set_order [a; uid] (set_snakes (<[uid := spawn 1]> {[a := spawn 0]}) (lg s)))).
    assert (Hl0 : lg s1 = relocateFood l0).
    { cbn [s1 onR onL lg set_order set_snakes snakes order]. rewrite Ho, Hs. done. }
    destruct (relocateFood_frame l0) as (f & sd & E & Hf). rewrite E in Hl0.
    assert (Hlk : ∀ v r, (<[uid := spawn 1]> {[a := spawn 0]} : gmap string snake) !! v = Some r →
      v = a ∧ r = spawn 0 ∨ v = uid ∧ r = spawn 1).
    { intros v r. destruct (decide (uid = v)) as [<-|Hv].
      - rewrite lookup_insert_eq. intros [= <-]. by right.
      - rewrite lookup_insert_ne by done. intros [-> <-]%lookup_singleton_Some. by left. }
    split; rewrite ?Hl0; cbn [set_food set_seed l0 set_started set_order set_snakes started finished order snakes maxPlayers food]; try done.
    + split; cbn [set_food set_seed l0 set_started set_order set_snakes order snakes food].
      * apply NoDup_cons. split; [set_solver|apply NoDup_singleton].
      * intros v. rewrite !elem_of_cons, elem_of_nil. destruct (decide (uid = v)) as [<-|Hv].
        -- rewrite lookup_insert_eq. split; [eauto|tauto].
        -- rewrite lookup_insert_ne by done. destruct (decide (a = v)) as [<-|Ha].
           ++ rewrite lookup_singleton_eq. split; [eauto|tauto].
           ++ rewrite lookup_singleton_ne by done. split; [naive_solver|by intros []].
      * destruct Hf as [->|[? _]]; done.
    + intros v r [[-> ->]|[-> ->]]%Hlk; apply spawn_ok.
    + intros v r h [[-> ->]|[-> ->]]%Hlk [= <-]; (split;
        [intros v' r' [[-> ->]|[-> ->]]%Hlk; cbn; rewrite !elem_of_cons, elem_of_nil; intros [?|[?|?]]; congruence
        |intros v' r' h' Hvv [[-> ->]|[-> ->]]%Hlk [= <-]; congruence]).
Qed.

Lemma snake_OnLeave_Waiting uid s : Waiting s → run (OnLeave uid s) Waiting.
Proof.
  intros [(W1 & W1') W2 W3 W4]. unfold OnLeave. cbn [onR onL lg started set_order set_snakes]. rewrite W1. cbn [andb run].
  split; cbn [onR onL lg set_order set_snakes started finished maxPlayers food order snakes]; try done.
  destruct W4 as [[-> ->]|(u & -> & ->)].
  - left. by rewrite delete_empty.
  - cbn [remove_first]. destruct (decide (u = uid)) as [->|Hne].
    + left. by rewrite delete_singleton_eq.
    + right. exists u. rewrite delete_singleton_ne by done. done.
Qed.

Lemma snake_OnLeave_Playing uid s : Playing s → run (OnLeave uid s) (fun s' => Playing s' ∨ Over s').
Proof.
  intros HP. pose proof HP as [(P1 & P1') P2 P3 P4 P5 P6]. unfold OnLeave. set (s1 := onR _ (onL _ s)).
  change (started (lg s1)) with (started (lg s)). change (finished (lg s1)) with (finished (lg s)). rewrite P1, P1'.
  cbn [andb negb]. destruct (Z.leb_spec (aliveSnakes (lg s1)) 1) as [Hle|Hgt]; [right; apply finish_spec|].
  destruct (decide (uid ∈ order (lg s))) as [Hin|Hin].
  - exfalso. apply (bd_dom _ P2) in Hin as [sn Hsn].
    assert (Hsz : size (snakes (lg s)) = 2%nat).
    { rewrite (size_of_order _ _ (bd_nodup _ P2) (bd_dom _ P2)). unfold zlen in P3. lia. }
    assert (Hd : size (delete uid (snakes (lg s))) = 1%nat) by (rewrite map_size_delete_Some by eauto; lia).
    assert (Hf : filter (fun p : string * snake => alive p.2 = true) (snakes (lg s1)) ⊆ delete uid (snakes (lg s)))
      by apply map_filter_subseteq.
    apply map_subseteq_size in Hf. unfold aliveSnakes in Hgt. lia.
  - left. assert (Hsame : lg s1 = lg s).
    { cbn [s1 onR onL lg]. rewrite remove_first_notin by done. rewrite delete_id; [by destruct (lg s)|].
      destruct (snakes (lg s) !! uid) eqn:E; [|done]. destruct Hin. apply (bd_dom _ P2). eauto. }
    by split; rewrite ?Hsame.
Qed.

(** ** The transition system *)

Inductive sstep : st → st → Prop :=
| ss_join uid s s' : closing (rm s) = false → zlen (order (lg s)) < maxPlayers (lg s) →
    uid ∉ order (lg s) → OnJoin uid s = Ok s' → sstep s s'
| ss_msg uid req s s' : OnMessage uid req s = Ok s' → sstep s s'
| ss_tick s s' : Tick s = Ok s' → sstep s s'
| ss_leave uid s s' : closing (rm s) = false → OnLeave uid s = Ok s' → sstep s s'
| ss_timeout s s' : OnTimeout s = Ok s' → sstep s s'
| ss_close s : sstep s (Close s)
| ss_env s r : closing r = closing (rm s) → sstep s (mkSt (lg s) r).

Inductive sreach (r : room) : st → Prop :=
| sr_start : sreach r (OnCreate (mkSt (NewLogic 2) r))
| sr_step s s' : sreach r s → sstep s s' → sreach r s'.

Lemma run_SInv m : run m (fun s' => Playing s' ∨ Over s') → run m SInv.
Proof. intros Hr. eapply run_mono; [exact Hr|]. intros s [?|?]; [by right; left|by right; right]. Qed.

Lemma OnMessage_frame uid req s :
  ∃ s', OnMessage uid req s = Ok s' ∧ rm s' = rm s ∧ finished (lg s') = finished (lg s) ∧ (started (lg s) = false → s' = s).
Proof.
  unfold OnMessage. destruct req as [d|]; [|by exists s]. destruct (snakes (lg s) !! uid) as [sn|]; [|by exists s].
  destruct (negb (alive sn) || negb (started (lg s))) eqn:E; [by exists s|]. destruct (opposite _ _); [by exists s|].
  destruct (_ && _); [|by exists s]. eexists. split; [reflexivity|]. split_and!; try done.
  intros Hs. rewrite Hs, orb_true_r in E. done.
Qed.

Lemma OnMessage_SInv uid req s : SInv s → run (OnMessage uid req s) SInv.
Proof.
  intros HI. destruct (OnMessage_frame uid req s) as (s' & E & Hr & Hf & Hw). destruct HI as [HW|[HP|HO]].
  - rewrite E, Hw by apply HW. by left.
  - eapply run_mono; [by apply snake_OnMessage_Playing|]. by right; left.
  - rewrite E. right; right. unfold Over. rewrite Hr, Hf. done.
Qed.

Lemma Tick_SInv s : SInv s → run (Tick s) SInv.
Proof.
  intros [HW|[HP|HO]].
  - unfold Tick. rewrite (proj1 (wa_live _ HW)). by left.
  - by apply run_SInv, Tick_Playing.
  - unfold Tick. rewrite (proj1 HO), orb_true_r. by right; right.
Qed.

Lemma OnLeave_SInv uid s : SInv s → closing (rm s) = false → run (OnLeave uid s) SInv.
Proof.
  intros [HW|[HP|HO]] Hc.
  - eapply run_mono; [by apply snake_OnLeave_Waiting|by left].
  - by apply run_SInv, snake_OnLeave_Playing.
  - destruct HO. congruence.
Qed.

Lemma OnTimeout_SInv s : SInv s → run (OnTimeout s) SInv.
Proof. intros HI. unfold OnTimeout. destruct (finished (lg s)); [done|]. right; right. apply finish_spec. Qed.

Lemma OnJoin_SInv uid s :
  SInv s → closing (rm s) = false → zlen (order (lg s)) < maxPlayers (lg s) → uid ∉ order (lg s) → run (OnJoin uid s) SInv.
Proof.
  intros [HW|[HP|HO]] Hc Hlen Hu.
  - eapply run_mono; [by apply snake_OnJoin_Waiting|]. intros s' [?|?]; [by left|by right; left].
  - rewrite (py_two _ HP), (py_max _ HP) in Hlen. lia.
  - destruct HO. congruence.
Qed.

Lemma SInv_rm s r : SInv s → (closing (rm s) = true → closing r = true) → SInv (mkSt (lg s) r).
Proof.
  intros [HW|[HP|HO]] Hc.
  - left. destruct HW. by split.
  - right; left. destruct HP. by split.
  - right; right. split; [apply HO|]. apply Hc, HO.
Qed.

Lemma sstep_SInv s s' : sstep s s' → SInv s → SInv s'.
Proof.
  intros Hst HI. assert (Hrun : ∀ m x, run m SInv → m = Ok x → SInv x) by (intros m x Hr ->; exact Hr).
  destruct Hst as [uid s s' H1 H2 H3 E|uid req s s' E|s s' E|uid s s' H1 E|s s' E|s|s r H1].
  - eapply Hrun; [|exact E]. by apply OnJoin_SInv.
  - eapply Hrun; [|exact E]. by apply OnMessage_SInv.
  - eapply Hrun; [|exact E]. by apply Tick_SInv.
  - eapply Hrun; [|exact E]. by apply OnLeave_SInv.
  - eapply Hrun; [|exact E]. by apply OnTimeout_SInv.
  - apply (SInv_rm s); [done|]. intros Hc. unfold doClose. by rewrite Hc.
  - apply (SInv_rm s); [done|]. intros Hc. congruence.
Qed.

Lemma sreach_SInv r s : sreach r s → SInv s.
Proof.
  induction 1 as [|s s' _ IH Hs]; [|by eapply sstep_SInv]. left.
  split; [done|done|unfold inside, gridW, gridH; cbn; lia|by left].
Qed.

(** C13. The board stays sound: in every reachable state of a two-player room
    each callback returns, and while the game is on every snake is alive, lies
    inside the board on touching cells, is three cells plus its score long,
    and no head lies on a body or on the other head; the food is on the
    board. *)
Theorem snake_board_sound r s :
  sreach r s →
  (∀ uid req, ∃ s', OnMessage uid req s = Ok s') ∧ (∃ s', Tick s = Ok s') ∧ (∃ s', OnTimeout s = Ok s') ∧
  (closing (rm s) = false → ∀ uid, ∃ s', OnLeave uid s = Ok s') ∧
  (closing (rm s) = false → zlen (order (lg s)) < maxPlayers (lg s) → ∀ uid, uid ∉ order (lg s) → ∃ s', OnJoin uid s = Ok s') ∧
  (started (lg s) = true → finished (lg s) = false →
     inside (food (lg s)) ∧ clear_board (snakes (lg s)) ∧
     ∀ u sn, snakes (lg s) !! u = Some sn → alive sn = true ∧ Forall inside (body sn) ∧ connected (body sn) ∧
       zlen (body sn) = 3 + score sn).
Proof.
  intros HI%sreach_SInv.
  assert (Hrun : ∀ m : res st, run m SInv → ∃ s', m = Ok s') by (intros m (x & ? & _)%run_exists; eauto).
  split_and!.
  - intros. by apply Hrun, OnMessage_SInv.
  - by apply Hrun, Tick_SInv.
  - by apply Hrun, OnTimeout_SInv.
  - intros. by apply Hrun, OnLeave_SInv.
  - intros. by apply Hrun, OnJoin_SInv.
  - intros Hst Hf. destruct HI as [HW|[HP|(? & _)]]; [destruct (wa_live _ HW); congruence| |congruence].
    split; [apply (bd_food _ (py_board _ HP))|]. split; [apply (py_clear _ HP)|]. intros u sn Hu.
    destruct (py_snakes _ HP _ _ Hu) as ([M1 M2 M3 M4 M5] & Hh & Ha). split_and!; try done.
    destruct (body sn) as [|h b] eqn:Eb; [constructor|]. constructor; [apply Hh; by rewrite Eb|done].
Qed.

(** The last living snake wins: a tick that ends a game reports the only
    snake left alive as the winner, or nobody when none is, and freezes the
    final scores. *)
Theorem last_snake_wins r s s' :
  sreach r s → finished (lg s) = false → Tick s = Ok s' → finished (lg s') = true →
  finalScores (lg s') = Some (score <$> snakes (lg s')) ∧
  ∃ w to n, EvBroadcast to MsgResult (ResultNtf (roomID (rm s)) w n) ∈ out (rm s') ∧
    (w = EmptyString ∧ (∀ u sn, snakes (lg s') !! u = Some sn → alive sn = false) ∨
     ∃ sw, snakes (lg s') !! w = Some sw ∧ alive sw = true ∧
       ∀ u sn, snakes (lg s') !! u = Some sn → alive sn = true → u = w).
Proof.
  intros HI%sreach_SInv Hf Ht Hfin. destruct HI as [HW|[HP|(? & _)]]; [| |congruence].
  { exfalso. unfold Tick in Ht. rewrite (proj1 (wa_live _ HW)) in Ht. injection Ht as <-. congruence. }
  pose proof (py_live _ HP) as [P1 P1']. destruct (Tick_moves s HP) as (l & E & T1 & T2 & T3 & T4 & _).
  revert Ht. unfold Tick. rewrite P1, P1'. cbn [negb orb]. change (order (set_tick _ (lg s))) with (order (lg s)).
  destruct (moveAll _ _) as [l1| |] eqn:E1; cbn [rbind] in E |- *; [|done..]. rewrite E. cbn [rbind].
  change (lg (broadcastState (mkSt l (rm s)))) with l.
  destruct (Z.leb_spec (aliveSnakes l) 1) as [Hle|Hgt]; [|intros [= <-]; cbn in Hfin; congruence].
  intros [= <-]. set (w := if aliveSnakes l =? 1 then _ else _). set (s1 := broadcastState (mkSt l (rm s))).
  destruct (finish_spec w s1) as (_ & F2 & F3 & to & F4). rewrite F2, F3. split; [done|].
  exists w, to, (tick (lg s1)). split; [done|]. change (snakes (lg s1)) with (snakes l).
  unfold w. destruct (Z.eqb_spec (aliveSnakes l) 1) as [H1|H1].
  - right. destruct (aliveSnakes_pos l) as (u & su & Hu & Hau); [lia|].
    destruct (lastAlive_fold l (order l) EmptyString) as [[_ Hno]|(sw & Hw & Haw)].
    + exfalso. assert (Hin : u ∈ order l) by (apply (bd_dom _ T3); eauto). specialize (Hno u su Hin Hu). congruence.
    + exists sw. split_and!; [done|done|]. intros v sv Hv Hav. by eapply (aliveSnakes_one l v _ sv sw).
  - left. split; [done|]. intros u sn Hu. eapply aliveSnakes_zero; [|exact Hu]. unfold aliveSnakes in *. lia.
Qed.

(** ** A concrete game *)

Definition demoRoom : room :=
  mkRctx "r1" (list_to_map [("a", true); ("b", true)]) ["a"; "b"] false true true ∅ 0 true 0 [].
Definition getOk (m : res st) : st := match m with Ok s => s | _ => mkSt (NewLogic 2) demoRoom end.
Definition isOk (m : res st) : bool := match m with Ok _ => true | _ => false end.
Lemma snake_getOk_step m : isOk m = true → m = Ok (getOk m).
Proof. by destruct m. Qed.

Definition steer (u : string) (d : Z) (s : st) : st := getOk (OnMessage u (Some d) s).
Definition ticked (s : st) : st := getOk (Tick s).
Definition demoStart : st := getOk (OnJoin "b" (getOk (OnJoin "a" (OnCreate (mkSt (NewLogic 2) demoRoom))))).
(** Snake [a] runs straight up to the wall. *)
Definition demoWall : st := Nat.iter 7 ticked (steer "a" DirUp demoStart).

Lemma ticked_reach s : sreach demoRoom s → isOk (Tick s) = true → sreach demoRoom (ticked s).
Proof. intros Hr Ho. eapply sr_step; [exact Hr|]. by apply ss_tick, snake_getOk_step. Qed.
Lemma steer_reach u d s : sreach demoRoom s → isOk (OnMessage u (Some d) s) = true → sreach demoRoom (steer u d s).
Proof. intros Hr Ho. eapply sr_step; [exact Hr|]. by eapply ss_msg, snake_getOk_step. Qed.

Lemma snake_demoStart_reach : sreach demoRoom demoStart.
Proof.
  eapply sr_step; [eapply sr_step; [apply sr_start|]|].
  - eapply (ss_join "a"); [reflexivity|vm_compute; reflexivity|apply not_elem_of_nil|]. apply snake_getOk_step. vm_compute. reflexivity.
  - eapply (ss_join "b"); [vm_compute; reflexivity|vm_compute; reflexivity| |].
    + vm_compute. intros Hx. by apply list_elem_of_singleton in Hx.
    + apply snake_getOk_step. vm_compute. reflexivity.
Qed.
Lemma demoWall_reach : sreach demoRoom demoWall.
Proof.
  unfold demoWall. cbn [Nat.iter nat_rect]. do 7 (apply ticked_reach; [|vm_compute; reflexivity]).
  apply steer_reach; [apply snake_demoStart_reach|vm_compute; reflexivity].
Qed.

Lemma snake_board_sound_witness : inside (food (lg demoWall)).
Proof. apply (snake_board_sound demoRoom demoWall demoWall_reach); vm_compute; reflexivity. Defined.

Lemma last_snake_wins_witness :
  finished (lg (ticked demoWall)) = true ∧ finalScores (lg (ticked demoWall)) = Some (score <$> snakes (lg (ticked demoWall))).
Proof.
  split; [vm_compute; reflexivity|].
  apply (last_snake_wins demoRoom demoWall (ticked demoWall) demoWall_reach).
  - vm_compute. reflexivity.
  - apply snake_getOk_step. vm_compute. reflexivity.
  - vm_compute. reflexivity.
Defined.

Definition headOf (u : string) (s : st) : option Point := snakes (lg s) !! u ≫= (fun sn => body sn !! 0%nat).
Definition neckOf (u : string) (s : st) : option Point := snakes (lg s) !! u ≫= (fun sn => body sn !! 1%nat).

(** Finding. The check against turning back can be bypassed: it compares with the
    direction last requested, not with the direction last moved. Two turns
    within one tick reverse a snake onto its own neck, and the next tick
    kills it. *)
Theorem reversal_in_one_tick :
  ∃ s s1 s2 s3, sreach demoRoom s ∧ started (lg s) = true ∧ finished (lg s) = false ∧
    OnMessage "a" (Some DirUp) s = Ok s1 ∧ OnMessage "a" (Some DirLeft) s1 = Ok s2 ∧ Tick s2 = Ok s3 ∧
    headOf "a" s3 = neckOf "a" s ∧ alive <$> snakes (lg s3) !! "a"%string = Some false.
Proof.
  exists demoStart, (steer "a" DirUp demoStart), (steer "a" DirLeft (steer "a" DirUp demoStart)),
    (ticked (steer "a" DirLeft (steer "a" DirUp demoStart))).
  split; [apply snake_demoStart_reach|]. split; [vm_compute; reflexivity|]. split; [vm_compute; reflexivity|].
  do 3 (split; [apply snake_getOk_step; vm_compute; reflexivity|]). split; vm_compute; reflexivity.
Qed.
