(* ===== verification/GameRooms.v ===== *)
(** * The four games as room logic

    Each game is an instance of [RoomLogic] and keeps the room contract
    [TameLogic], so the theorems about rooms apply to rooms that run it. *)

From S2P Require Import Prelude Envelope Actor RoomCtx Room RoomThm.
From S2P Require Import DdzCards Doudizhu CardGame Quiz Snake.

(** ** Automation for the contract *)

Section Tame.
Context {M CB : Type}.
Implicit Types r : rctx M CB.

Lemma quiet_refl r : quiet r r.
Proof. split; try done. exists []. by rewrite app_nil_r. Qed.

Lemma quiet_emits r es : Forall (fun e => roomEvent e = false) es → quiet r (emits r es).
Proof. intros He. split; try done. by exists es. Qed.

Lemma tame_emits r0 r es : Forall (fun e => roomEvent e = false) es → tame r0 r → tame r0 (emits r es).
Proof. intros. eapply tame_quiet; [done|]. by apply quiet_emits. Qed.

Lemma tame_emit r0 r e : roomEvent e = false → tame r0 r → tame r0 (emit r e).
Proof. intros. apply tame_emits; [by repeat constructor|done]. Qed.

Lemma tame_broadcast r0 r id m ex : tame r0 r → tame r0 (Broadcast r id m ex).
Proof. by apply tame_emit. Qed.

Lemma tame_snapshot r0 r id m ex : tame r0 r → tame r0 (BroadcastSnapshot r id m ex).
Proof. by apply tame_emit. Qed.

Lemma tame_push r0 r uid id m : tame r0 r → tame r0 (PushTo r uid id m).
Proof. intros. eapply tame_quiet; [done|apply push_quiet]. Qed.

Lemma tame_timers r0 r ts n : tame r0 r → tame r0 (set_timers r ts n).
Proof. intros. eapply tame_quiet; [done|]. split; try done. exists []. by rewrite app_nil_r. Qed.

Lemma Forall_fmap_events {A} (f : A → event M) l :
  (∀ a, roomEvent (f a) = false) → Forall (fun e => roomEvent e = false) (f <$> l).
Proof. intros Hf. apply Forall_fmap, Forall_true. exact Hf. Qed.

(** A computation that, if it returns, leaves the room tame relative to [r0]. *)
Definition tameRun {S : Type} (rmf : S → rctx M CB) r0 (m : res S) : Prop :=
  match m with Ok s => tame r0 (rmf s) | _ => True end.

Lemma tameRun_bind {A S} (rmf : S → rctx M CB) r0 (m : res A) (k : A → res S) :
  (∀ a, m = Ok a → tameRun rmf r0 (k a)) → tameRun rmf r0 (rbind m k).
Proof. destruct m; cbn; auto. Qed.

Lemma tameRun_seq {S} (rmf : S → rctx M CB) r0 (m : res S) (k : S → res S) :
  tameRun rmf r0 m → (∀ s, tame r0 (rmf s) → tameRun rmf r0 (k s)) → tameRun rmf r0 (rbind m k).
Proof. destruct m; cbn; auto. Qed.

Lemma tameRun_Ok {S} (rmf : S → rctx M CB) r0 (m : res S) s : tameRun rmf r0 m → m = Ok s → tame r0 (rmf s).
Proof. intros H ->. exact H. Qed.
End Tame.

#[local] Arguments emit : simpl never.
#[local] Arguments emits : simpl never.
#[local] Arguments set_timers : simpl never.
#[local] Arguments Broadcast : simpl never.
#[local] Arguments BroadcastSnapshot : simpl never.
#[local] Arguments PushTo : simpl never.
#[local] Arguments doClose : simpl never.

Create HintDb tame.
#[export] Hint Resolve tame_broadcast tame_snapshot tame_push tame_timers tame_refl : tame.
#[export] Hint Extern 2 (tame _ (emit _ _)) => apply tame_emit; [reflexivity|] : tame.
#[export] Hint Extern 2 (tame _ (emits _ (_ <$> _))) => apply tame_emits; [apply Forall_fmap_events; reflexivity|] : tame.

(** Case analysis over a callback, then the hints. *)
Ltac tame_cases :=
  repeat match goal with
  | |- tameRun _ _ (Ok _) => cbn [tameRun]
  | |- tameRun _ _ Panic => exact I
  | |- tameRun _ _ OutOfFuel => exact I
  | |- tameRun _ _ (rbind _ _) => apply tameRun_bind; intros ? ?
  | |- tameRun _ _ (if ?b then _ else _) => destruct b
  | |- tameRun _ _ (match ?x with _ => _ end) => destruct x
  | |- tame _ (match ?x with _ => _ end) => destruct x
  | |- tame _ (_ (match ?x with _ => _ end)) => destruct x
  end.

Ltac tame_done := tame_cases; cbn; tame_cases; cbn; unfold Cancel; auto with tame.

(** ** Quiz *)

Module QuizRoom.
Notation run_ := (tameRun Quiz.rm).

Lemma quiz_destroy_quiet l r : quiet r (Quiz.OnDestroy l r).
Proof.
  unfold Quiz.OnDestroy. destruct (profileStore r); [|apply quiet_refl].
  apply quiet_emits, Forall_fmap_events. done.
Qed.

Lemma quiz_close_tame r0 s : tame r0 (Quiz.rm s) → tame r0 (Quiz.rm (Quiz.Close s)).
Proof. intros. cbn. apply tame_close; [done|]. apply quiz_destroy_quiet. Qed.
#[local] Hint Resolve quiz_close_tame : tame.

Lemma quiz_finish_tame r0 s : tame r0 (Quiz.rm s) → run_ r0 (Quiz.finish s).
Proof. intros Hs. unfold Quiz.finish. tame_cases. apply quiz_close_tame. tame_cases; cbn; auto with tame. Qed.

Lemma quiz_ask_tame r0 s : tame r0 (Quiz.rm s) → run_ r0 (Quiz.askQuestion s).
Proof. intros Hs. unfold Quiz.askQuestion, After. cbn. tame_cases. cbn. auto with tame. Qed.

Lemma quiz_next_tame r0 s : tame r0 (Quiz.rm s) → run_ r0 (Quiz.next s).
Proof.
  intros Hs. unfold Quiz.next. destruct (Quiz.finished _); [done|].
  destruct (Quiz.qTimer _); cbn; destruct (_ >=? _);
    (apply quiz_finish_tame || apply quiz_ask_tame); cbn; unfold Cancel; auto with tame.
Qed.

#[global] Instance quizLogic : RoomLogic Quiz.st qmsg unit (option (Z * Z)) := {
  room_of := Quiz.rm;
  with_room r s := Quiz.mkSt (Quiz.lg s) r;
  lOnCreate _ := Quiz.OnCreate;
  lOnJoin := Quiz.OnJoin;
  lOnMessage := Quiz.OnMessage;
  lTick := Quiz.Tick;
  lOnLeave := Quiz.OnLeave;
  lOnEmpty := Quiz.OnEmpty;
  lOnDestroy s := Quiz.OnDestroy (Quiz.lg s);
  lOnTimeout := None;
  lFire _ := Quiz.next }.

#[global] Instance quizLogic_tame : TameLogic (RL := quizLogic).
Proof.
  split; intros; try (eapply (tameRun_Ok Quiz.rm); [|eassumption]); cbn [room_of with_room lOnCreate quizLogic].
  - done.
  - apply tame_refl.
  - cbn [lOnJoin quizLogic]. unfold Quiz.OnJoin. tame_cases; [apply quiz_ask_tame|]; cbn; auto with tame.
  - cbn [lOnMessage quizLogic]. unfold Quiz.OnMessage. tame_cases; auto with tame. apply quiz_next_tame. auto with tame.
  - apply tame_refl.
  - cbn [lOnLeave quizLogic]. unfold Quiz.OnLeave. tame_cases; try apply quiz_finish_tame; tame_done.
  - apply quiz_close_tame, tame_refl.
  - apply quiz_destroy_quiet.
  - done.
  - apply quiz_next_tame, tame_refl.
Qed.
End QuizRoom.

(** ** Card *)

Module CardRoom.
Notation run_ := (tameRun CardGame.rm).

Lemma card_destroy_quiet l r : quiet r (CardGame.OnDestroy l r).
Proof.
  unfold CardGame.OnDestroy. destruct (profileStore r); [|apply quiet_refl].
  apply quiet_emits, Forall_fmap_events. done.
Qed.

Lemma card_close_tame r0 s : tame r0 (CardGame.rm s) → tame r0 (CardGame.rm (CardGame.Close s)).
Proof. intros. cbn. apply tame_close; [done|]. apply card_destroy_quiet. Qed.

Lemma card_finish_tame r0 w t s : tame r0 (CardGame.rm s) → run_ r0 (CardGame.finish w t s).
Proof. intros Hs. unfold CardGame.finish. tame_cases. apply card_close_tame. tame_done. Qed.

Lemma card_dealTo_tame r0 os : ∀ i n deck s, tame r0 (CardGame.rm s) → run_ r0 (CardGame.dealTo i os n deck s).
Proof.
  induction os as [|u os IH]; intros i n deck s Hs; [done|]. cbn [CardGame.dealTo]. tame_cases. apply IH. tame_done.
Qed.

Lemma card_resolve_tame r0 s : tame r0 (CardGame.rm s) → run_ r0 (CardGame.tryResolveRound s).
Proof.
  intros Hs. unfold CardGame.tryResolveRound. tame_cases; try apply card_finish_tame; tame_done.
Qed.

Lemma card_tickLoop_tame r0 os : ∀ s, tame r0 (CardGame.rm s) → run_ r0 (CardGame.tickLoop os s).
Proof.
  induction os as [|u os IH]; intros s Hs; [done|]. cbn [CardGame.tickLoop].
  destruct (CardGame.players _ !! u) as [cp|]; [|by apply IH]. destruct (_ >=? _); [by apply IH|].
  destruct (memberOffline _ _); [|by apply IH]. apply tameRun_seq; [|done]. apply card_resolve_tame. tame_done.
Qed.

#[global] Instance cardLogic : RoomLogic CardGame.st cmsg unit (option Z) := {
  room_of := CardGame.rm;
  with_room r s := CardGame.mkSt (CardGame.lg s) r;
  lOnCreate _ := CardGame.OnCreate;
  lOnJoin := CardGame.OnJoin;
  lOnMessage := CardGame.OnMessage;
  lTick := CardGame.Tick;
  lOnLeave := CardGame.OnLeave;
  lOnEmpty := CardGame.OnEmpty;
  lOnDestroy s := CardGame.OnDestroy (CardGame.lg s);
  lOnTimeout := Some CardGame.OnTimeout;
  lFire _ := fun s => Ok s }.          (* the card game arms no timer *)

#[global] Instance cardLogic_tame : TameLogic (RL := cardLogic).
Proof.
  split; intros; try (eapply (tameRun_Ok CardGame.rm); [|eassumption]); cbn [room_of with_room lOnCreate cardLogic].
  - done.
  - apply tame_refl.
  - cbn [lOnJoin cardLogic]. unfold CardGame.OnJoin, CardGame.deal. tame_cases; [apply card_dealTo_tame|]; tame_done.
  - cbn [lOnMessage cardLogic]. unfold CardGame.OnMessage. tame_cases; try apply card_resolve_tame; tame_done.
  - cbn [lTick cardLogic]. unfold CardGame.Tick. tame_cases; try apply card_tickLoop_tame; tame_done.
  - cbn [lOnLeave cardLogic]. unfold CardGame.OnLeave. tame_cases; try apply card_finish_tame; tame_done.
  - apply card_close_tame, tame_refl.
  - apply card_destroy_quiet.
  - match goal with E : lOnTimeout = Some _ |- _ => injection E as <- end.
    unfold CardGame.OnTimeout. tame_cases; try apply card_finish_tame; tame_done.
  - apply tame_refl.
Qed.
End CardRoom.

(** ** Snake *)

Module SnakeRoom.
Notation run_ := (tameRun Snake.rm).

Lemma snake_destroy_quiet l r : quiet r (Snake.OnDestroy l r).
Proof.
  unfold Snake.OnDestroy. destruct (profileStore r); [|apply quiet_refl].
  apply quiet_emits, Forall_fmap_events. done.
Qed.

Lemma snake_close_tame r0 s : tame r0 (Snake.rm s) → tame r0 (Snake.rm (Snake.Close s)).
Proof. intros. cbn. apply tame_close; [done|]. apply snake_destroy_quiet. Qed.

Lemma snake_finish_tame r0 w s : tame r0 (Snake.rm s) → tame r0 (Snake.rm (Snake.finish w s)).
Proof. intros Hs. unfold Snake.finish. apply snake_close_tame. tame_done. Qed.

#[global] Instance snakeLogic : RoomLogic Snake.st smsg unit (option Z) := {
  room_of := Snake.rm;
  with_room r s := Snake.mkSt (Snake.lg s) r;
  lOnCreate _ := Snake.OnCreate;
  lOnJoin := Snake.OnJoin;
  lOnMessage := Snake.OnMessage;
  lTick := Snake.Tick;
  lOnLeave := Snake.OnLeave;
  lOnEmpty := Snake.OnEmpty;
  lOnDestroy s := Snake.OnDestroy (Snake.lg s);
  lOnTimeout := Some Snake.OnTimeout;
  lFire _ := fun s => Ok s }.          (* the snake game arms no timer *)

#[global] Instance snakeLogic_tame : TameLogic (RL := snakeLogic).
Proof.
  split; intros; try (eapply (tameRun_Ok Snake.rm); [|eassumption]); cbn [room_of with_room lOnCreate snakeLogic].
  - done.
  - apply tame_refl.
  - cbn [lOnJoin snakeLogic]. unfold Snake.OnJoin. tame_cases; cbn [Snake.rm Snake.onL Snake.onR]; auto with tame.
  - cbn [lOnMessage snakeLogic]. unfold Snake.OnMessage. tame_cases; tame_done.
  - cbn [lTick snakeLogic]. unfold Snake.Tick, Snake.broadcastState. tame_cases; try apply snake_finish_tame;
      cbn [Snake.rm Snake.onL Snake.onR]; auto with tame.
  - cbn [lOnLeave snakeLogic]. unfold Snake.OnLeave. tame_cases; try apply snake_finish_tame; cbn [Snake.rm Snake.onL Snake.onR]; auto with tame.
  - apply snake_close_tame, tame_refl.
  - apply snake_destroy_quiet.
  - match goal with E : lOnTimeout = Some _ |- _ => injection E as <- end.
    unfold Snake.OnTimeout. tame_cases; try apply snake_finish_tame; tame_done.
  - apply tame_refl.
Qed.
End SnakeRoom.

(** ** Doudizhu *)

Module DoudizhuRoom.
Section Ddz.
Context `{CS : CardSort}.
Notation run_ := (tameRun Doudizhu.rm).

Lemma ddz_destroy_quiet l r : quiet r (Doudizhu.OnDestroy l r).
Proof.
  unfold Doudizhu.OnDestroy. destruct (profileStore r); [|apply quiet_refl].
  apply quiet_emits, Forall_fmap_events. done.
Qed.

Lemma ddz_close_tame r0 s : tame r0 (Doudizhu.rm s) → tame r0 (Doudizhu.rm (Doudizhu.Close s)).
Proof. intros. cbn. apply tame_close; [done|]. apply ddz_destroy_quiet. Qed.

Lemma settlement_quiet l w : Forall (fun e => roomEvent e = false) (Doudizhu.settlement l w).
Proof. unfold Doudizhu.settlement. destruct w; (constructor; [done|]); by apply Forall_fmap_events. Qed.

Lemma clear_tame r0 s : tame r0 (Doudizhu.rm s) → tame r0 (Doudizhu.rm (clearTurnTimer s)).
Proof. intros. unfold clearTurnTimer. destruct (turnTimer _); cbn; unfold Cancel; auto with tame. Qed.

Lemma setTimer_tame r0 uid s : tame r0 (Doudizhu.rm s) → tame r0 (Doudizhu.rm (setTurnTimer uid s)).
Proof. intros. unfold setTurnTimer, After. cbn. apply tame_timers. by apply clear_tame. Qed.

Lemma ddz_finish_tame r0 w s : tame r0 (Doudizhu.rm s) → tame r0 (Doudizhu.rm (Doudizhu.finish w s)).
Proof.
  intros Hs. unfold Doudizhu.finish. destruct (Doudizhu.finished _); [done|]. apply ddz_close_tame.
  cbn [Doudizhu.rm Doudizhu.onR]. apply tame_emit; [done|]. apply tame_emits; [apply settlement_quiet|].
  apply tame_broadcast. by apply clear_tame.
Qed.

Lemma assignHands_tame r0 ho : ∀ s, tame r0 (Doudizhu.rm s) → run_ r0 (assignHands ho s).
Proof.
  induction ho as [|[h u] ho IH]; intros s Hs; [done|]. cbn [assignHands]. apply tameRun_bind. intros l _.
  apply IH. cbn. auto with tame.
Qed.

Lemma ddz_deal_tame r0 s : tame r0 (Doudizhu.rm s) → run_ r0 (Doudizhu.deal s).
Proof. intros Hs. unfold Doudizhu.deal. tame_cases. by apply assignHands_tame. Qed.

Lemma autoPlay_tame ap r0 uid f s :
  (∀ u ids s, tame r0 (Doudizhu.rm s) → run_ r0 (ap u ids s)) →
  tame r0 (Doudizhu.rm s) → run_ r0 (autoPlay_ ap uid f s).
Proof. intros Hap Hs. unfold autoPlay_. tame_cases; auto. Qed.

Lemma nextTurn_tame ap r0 f s :
  (∀ u ids s, tame r0 (Doudizhu.rm s) → run_ r0 (ap u ids s)) →
  tame r0 (Doudizhu.rm s) → run_ r0 (nextTurn_ ap f s).
Proof.
  intros Hap Hs. unfold nextTurn_. apply tameRun_bind. intros uid _.
  match goal with |- context [memberOffline (Doudizhu.rm ?x) uid] => set (s1 := x) end.
  assert (tame r0 (Doudizhu.rm s1)) by (unfold s1; tame_cases; cbn; auto with tame).
  destruct (memberOffline _ _); [by apply autoPlay_tame|]. cbn [tameRun]. by apply setTimer_tame.
Qed.

Lemma applyPlay_tame r0 fuel : ∀ uid ids s, tame r0 (Doudizhu.rm s) → run_ r0 (applyPlay fuel uid ids s).
Proof.
  induction fuel as [|fuel IH]; intros uid ids s Hs; [done|]. cbn [applyPlay].
  destruct (Doudizhu.players _ !! uid) as [hp|]; [|done]. destruct ids as [|i ids].
  - destruct (lastPlayed _) as [lp|]; [|done]. destruct (_ >=? _).
    + apply nextTurn_tame; [done|]. cbn. auto with tame.
    + apply tameRun_bind. intros c _. apply nextTurn_tame; [done|]. cbn. auto with tame.
  - destruct (takeCards _ _) as [[sel kept]|]; [|done]. apply tameRun_bind. intros l _.
    destruct (classify sel) as [typ mr]. cbn [Doudizhu.lg Doudizhu.rm].
    tame_cases; try done; try (apply nextTurn_tame; [done|]); try apply ddz_finish_tame; cbn; auto with tame.
Qed.

Lemma askBid_tame ab r0 s :
  (∀ u sc s, tame r0 (Doudizhu.rm s) → run_ r0 (ab u sc s)) →
  tame r0 (Doudizhu.rm s) → run_ r0 (askBid_ ab s).
Proof.
  intros Hab Hs. unfold askBid_. apply tameRun_bind. intros uid _.
  destruct (memberOffline _ _); [apply Hab|cbn [tameRun]; apply setTimer_tame]; cbn; auto with tame.
Qed.

Lemma startPlaying_tame r0 s : tame r0 (Doudizhu.rm s) → run_ r0 (startPlaying s).
Proof.
  intros Hs. unfold startPlaying. destruct (Doudizhu.players _ !! _); [|done]. apply tameRun_bind. intros l _.
  apply nextTurn_tame; [intros; by apply applyPlay_tame|]. cbn. auto with tame.
Qed.

Lemma applyBid_tame r0 fuel : ∀ uid sc s, tame r0 (Doudizhu.rm s) → run_ r0 (applyBid fuel uid sc s).
Proof.
  induction fuel as [|fuel IH]; intros uid sc s Hs; [done|]. cbn [applyBid].
  match goal with |- context [CallNtf uid ?x _] => generalize x; intros sc' end.
  match goal with |- context [clearTurnTimer ?x] => set (s1 := clearTurnTimer x) end.
  assert (tame r0 (Doudizhu.rm s1)) as Hs1 by (unfold s1; apply clear_tame; cbn; auto with tame).
  destruct (decide _).
  - unfold finishBidding_. destruct (decide _); [|by apply startPlaying_tame]. destruct (_ <? _).
    + apply tameRun_seq; [by apply ddz_deal_tame|]. intros s2 Hs2. unfold startBidding_.
      apply askBid_tame; [done|]. cbn. auto with tame.
    + apply tameRun_bind. intros u _. by apply startPlaying_tame.
  - apply tameRun_bind. intros i _. by apply askBid_tame.
Qed.

#[global] Instance doudizhuLogic : RoomLogic Doudizhu.st dmsg string (Z * dreq) := {
  room_of := Doudizhu.rm;
  with_room r s := Doudizhu.mkSt (Doudizhu.lg s) r;
  lOnCreate _ := Doudizhu.OnCreate;
  lOnJoin := Doudizhu.OnJoin;
  lOnMessage uid q := Doudizhu.OnMessage uid q.1 q.2;
  lTick := Doudizhu.Tick;
  lOnLeave := Doudizhu.OnLeave;
  lOnEmpty := Doudizhu.OnEmpty;
  lOnDestroy s := Doudizhu.OnDestroy (Doudizhu.lg s);
  lOnTimeout := Some Doudizhu.OnTimeout;
  lFire := turnTimeout }.

#[global] Instance doudizhuLogic_tame : TameLogic (RL := doudizhuLogic).
Proof.
  assert (∀ r0 uid f s, tame r0 (Doudizhu.rm s) → run_ r0 (autoPlay uid f s)) as Hauto.
  { intros. apply autoPlay_tame; [intros; by apply applyPlay_tame|done]. }
  split; intros; try (eapply (tameRun_Ok Doudizhu.rm); [|eassumption]); cbn [room_of with_room lOnCreate doudizhuLogic].
  - done.
  - apply tame_refl.
  - cbn [lOnJoin doudizhuLogic]. unfold Doudizhu.OnJoin.
    destruct (decide _); [|cbn; auto with tame]. apply tameRun_seq; [apply ddz_deal_tame; cbn; auto with tame|].
    intros s2 Hs2. unfold startBidding, startBidding_. apply askBid_tame; [intros; by apply applyBid_tame|]. cbn. auto with tame.
  - cbn [lOnMessage doudizhuLogic]. unfold Doudizhu.OnMessage. tame_cases; auto with tame;
      first [apply applyBid_tame|apply applyPlay_tame]; auto with tame.
  - cbn [lTick doudizhuLogic]. unfold Doudizhu.Tick. tame_cases; auto with tame; first [apply applyBid_tame|apply Hauto]; auto with tame.
  - cbn [lOnLeave doudizhuLogic]. unfold Doudizhu.OnLeave. tame_cases; [apply ddz_finish_tame|]; cbn; auto with tame.
  - apply ddz_close_tame, tame_refl.
  - apply ddz_destroy_quiet.
  - match goal with E : lOnTimeout = Some _ |- _ => injection E as <- end.
    unfold Doudizhu.OnTimeout. tame_cases; auto with tame. apply ddz_finish_tame, tame_refl.
  - cbn [lFire doudizhuLogic]. unfold turnTimeout. tame_cases; auto with tame; first [apply applyBid_tame|apply Hauto]; auto with tame.
Qed.
End Ddz.
End DoudizhuRoom.

(** ** A snake room with one player *)

Definition snakeCfg : RoomConfig :=
  roomConfig (managerTick 0) (mkPolicy 0 FullKick 0) "snake" (mkRoomConfig "" 2 0 0 (mkPolicy 256 FullDrop 0)).
Definition snakeFresh : Snake.st :=
  Snake.mkSt (Snake.NewLogic 2) (mkRctx "r1" ∅ [] false false false ∅ 0 true 0 []).
Definition snakeOne : Snake.st :=
  match Room.OnMessage snakeCfg (joinMsg "a" true) (Init snakeCfg snakeFresh) with Ok (_, s) => s | _ => snakeFresh end.

Lemma snakeOne_reach : rreach snakeCfg snakeOne.
Proof.
  eapply rr_step; [apply (rr_init snakeCfg snakeFresh); repeat split; discriminate|].
  apply (rs_msg snakeCfg (joinMsg "a" true) _ (Some None)). vm_compute. reflexivity.
Qed.

Lemma room_members_witness :
  roomSize snakeOne ≤ 2 ∧ NoDup (Members snakeOne) ∧ Members snakeOne = joined (out (room_of snakeOne)) ∧
  (∀ u, u ∈ Members snakeOne ↔ is_Some (members (room_of snakeOne) !! u)) ∧
  (closing (room_of snakeOne) = true → Members snakeOne = []).
Proof. apply (room_members snakeCfg snakeOne); [vm_compute; discriminate|exact snakeOne_reach]. Defined.

Lemma room_sessions_witness :
  (∀ u, inRoom (out (room_of snakeOne)) u = bool_decide (is_Some (members (room_of snakeOne) !! u))) ∧
  stopCount (out (room_of snakeOne)) = (if closing (room_of snakeOne) then 1 else 0)%nat.
Proof. apply (room_sessions snakeCfg snakeOne); [vm_compute; discriminate|exact snakeOne_reach]. Defined.

Lemma join_reply_witness : handleJoin snakeCfg "a" false snakeOne = Ok (None, snakeOne).
Proof.
  apply (join_reply snakeCfg "a" false snakeOne); [vm_compute; discriminate|exact snakeOne_reach|].
  vm_compute. by left.
Defined.
