(* ===== verification/BotRun.v ===== *)
(** * The doudizhu scenario from the first join to the result

    Three bots join an empty doudizhu room, each with its session online, and
    play: [bots_finish_game] says that every interleaving of what they read
    and of what the room serves comes to an end, with the game settled and
    every bot told the result. *)

From S2P Require Import Prelude Envelope RoomCtx Room RoomThm GameRooms DdzCards Doudizhu DoudizhuInv DoudizhuGame Scenarios BotTable BotGame.

Section Start.
Context `{CardSort}.

(** ** The deal, as the players see it *)

Definition dealtFrames (a b c : string) (h0 h1 h2 : list Card) : list (event dmsg) :=
  [EvPush a MsgDeal (HandNtf h0 []); EvPush b MsgDeal (HandNtf h1 []); EvPush c MsgDeal (HandNtf h2 [])].

Definition handOf (ps : gmap string player) (u : string) : list Card :=
  match ps !! u with Some p => hand p | None => [] end.

(** Each player is pushed its own hand. *)
Definition told (a b c : string) (s s' : st) : Prop :=
  rm s' = emits (rm s) (dealtFrames a b c (handOf (players (lg s')) a) (handOf (players (lg s')) b) (handOf (players (lg s')) c)).

Lemma assignHands_told a b c h0 h1 h2 s :
  seats [a; b; c] (players (lg s)) → (∀ w, w ∈ [a; b; c] → online (rm s) w) →
  run (assignHands [(h0, a); (h1, b); (h2, c)] s) (told a b c s).
Proof.
  intros Hs Hon. pose proof (seats_dom _ _ Hs) as Hdom. pose proof (seats_nodup _ _ Hs) as Hnd.
  apply NoDup_cons in Hnd as [Ha Hnd]. apply NoDup_cons in Hnd as [Hb Hnd].
  assert (a ≠ b ∧ a ≠ c ∧ b ≠ c) as (Hab & Hac & Hbc) by set_solver.
  destruct (proj1 (Hdom a)) as [pa Hpa]; [set_solver|].
  destruct (proj1 (Hdom b)) as [pb Hpb]; [set_solver|].
  destruct (proj1 (Hdom c)) as [pc Hpc]; [set_solver|].
  destruct (Hon a) as [_ Ma]; [set_solver|]. destruct (Hon b) as [_ Mb]; [set_solver|]. destruct (Hon c) as [_ Mc]; [set_solver|].
  cbn [assignHands]. unfold setHand. rewrite Hpa. cbn [rbind lg players set_players].
  rewrite (lookup_insert_ne _ a b) by naive_solver. rewrite Hpb. cbn [rbind lg players set_players].
  rewrite (lookup_insert_ne _ b c), (lookup_insert_ne _ a c) by naive_solver. rewrite Hpc.
  cbn [rbind lg rm players set_players run]. unfold told, handOf. cbn [rm lg players set_players].
  rewrite lookup_insert_eq, (lookup_insert_ne _ c b), lookup_insert_eq by naive_solver.
  rewrite (lookup_insert_ne _ c a), (lookup_insert_ne _ b a), lookup_insert_eq by naive_solver. cbn [hand].
  unfold PushTo, Member, emit. rewrite Ma. cbn [emits members]. rewrite Mb. cbn [emits members]. rewrite Mc.
  unfold emits. cbn. by rewrite <- !app_assoc.
Qed.

Lemma deal_told a b c s : order (lg s) = [a; b; c] → seats [a; b; c] (players (lg s)) →
  (∀ w, w ∈ [a; b; c] → online (rm s) w) → run (deal s) (told a b c s).
Proof.
  intros Ho Hs Hon. unfold deal. cbv zeta. rewrite length_fullDeck. rewrite Ho.
  eapply run_bind; [apply shuffle_run; unfold zlen; rewrite length_fullDeck; lia|].
  intros [sd deck] Hdeck.
  assert (Hlen : length deck = 54%nat) by (rewrite Hdeck; apply length_fullDeck).
  change (zlen [a; b; c]) with 3. change (HandPerPlayer * 3) with 51. change (Z.to_nat 51) with (3 * 17)%nat. cbn [length replicate].
  eapply run_bind; [apply (dealLoop_three 17 0); lia|].
  intros hs (k0 & k1 & k2 & -> & _). cbn [app] in *.
  unfold LandlordCards. rewrite slice_range by (unfold zlen; lia). cbn [rbind zip_with].
  eapply run_mono; [by apply (assignHands_told a b c)|]. intros s' Ht. exact Ht.
Qed.

(** ** The third join *)

(** Frames that leave a bot as it is. *)
Definition inert (f : frame) : Prop := f.1 = MsgMemberChange.

Lemma view_inert w fs : Forall inert fs → view w fs = newAgent ∧ Forall (fun f => ¬ isResult f) fs.
Proof.
  induction fs as [|[id m] fs IH] using rev_ind; [done|]. intros [Hfs Hf]%Forall_app. destruct (IH Hfs) as [Hv Hr].
  inversion Hf as [|? ? Hid _]; subst. unfold inert in Hid. cbn in Hid. subst id. split.
  - rewrite view_snoc, Hv. reflexivity.
  - apply Forall_app. split; [done|]. apply Forall_singleton. by intros ?.
Qed.

Lemma onFrame_turn w v ll base dl a :
  (onFrame w (MsgTurn, TurnNtf v ll base dl) a).1 = mkAgent (agHand a) (agStage a) v (agMax a) (agLast a) (agOver a).
Proof. reflexivity. Qed.

Lemma view_start w fs h v ll base dl : Forall inert fs →
  view w (fs ++ [(MsgDeal, HandNtf h []); (MsgStage, StageNtf StageBidding); (MsgTurn, TurnNtf v ll base dl)]) =
  mkAgent (h ++ []) StageBidding v 0 None None.
Proof.
  intros Hfs. change ([?x; ?y; ?z]) with ([x] ++ [y] ++ [z]). rewrite !app_assoc, !view_snoc. rewrite (proj1 (view_inert w fs Hfs)).
  by rewrite onFrame_deal, onFrame_stage.
Qed.

(** Of a deal, each player sees its own hand. *)
Lemma dealt_frames a b c f w : NoDup [a; b; c] → w ∈ [a; b; c] →
  dealtFrames a b c (f a) (f b) (f c) ≫= frameIn w = [(MsgDeal, HandNtf (f w) [])].
Proof.
  intros Hnd Hw. apply NoDup_cons in Hnd as [Ha Hnd]. apply NoDup_cons in Hnd as [Hb _].
  assert (a ≠ b ∧ a ≠ c ∧ b ≠ c) as (Hab & Hac & Hbc) by set_solver. rewrite !elem_of_cons, elem_of_nil in Hw.
  unfold dealtFrames. cbn [mbind list_bind frameIn].
  destruct Hw as [->|[->|[->|[]]]]; repeat (case_decide; try congruence); done.
Qed.

(** The third player's arrival starts the bidding. *)
Lemma third_join a b c s : NoDup [a; b; c] → Waiting s → order (lg s) = [a; b] →
  (∀ w, w ∈ [a; b; c] → online (rm s) w) → (∀ w, w ∈ [a; b; c] → Forall inert (sentTo w s)) →
  ∃ s', OnJoin c s = Ok s' ∧ ReadyBid [a; b; c] s' a ∧ closing (rm s') = closing (rm s) ∧
    ∀ w, w ∈ [a; b; c] → ∃ pre ll base dl, sentTo w s' = pre ++ [(MsgTurn, TurnNtf a ll base dl)] ∧ Forall (fun f => ¬ myTurn w f) pre.
Proof.
  intros Hnd HW Ho Hon Hin.
  assert (Hc : c ∉ order (lg s)). { rewrite Ho. apply NoDup_cons in Hnd as [? Hnd]. apply NoDup_cons in Hnd as [? _]. set_solver. }
  pose proof (OnJoin_Waiting c s HW Hc) as Hrun. pose proof HW as [W1 W2 W3 W4 W5 W6 W7]. unfold OnJoin in *.
  set (s1 := onR _ (onL _ s)) in *.
  assert (Ho1 : order (lg s1) = [a; b; c]) by (cbn; by rewrite Ho).
  assert (Hdom : ∀ u, u ∈ order (lg s1) ↔ is_Some (players (lg s1) !! u)).
  { clear Hrun Hin Hon. intros u. cbn [s1 onR onL lg set_order set_players order players].
    rewrite elem_of_app, list_elem_of_singleton. destruct (decide (c = u)) as [->|Hne].
    - rewrite lookup_insert_eq. naive_solver.
    - rewrite lookup_insert_ne by done. rewrite <- W4. naive_solver. }
  assert (Hseats : seats [a; b; c] (players (lg s1))). { split; [done|done|]. intros u. by rewrite <- Hdom, Ho1. }
  assert (Hsz : size (players (lg s1)) = 3%nat) by exact (size_of_order [a; b; c] _ Hnd (seats_dom _ _ Hseats)).
  assert (Hdec : (3 ≤ size (players (lg s1)))%nat ∧ started (lg s1) = false) by (split; [lia|apply W1]).
  rewrite (decide_True _ _ Hdec) in Hrun. rewrite (decide_True _ _ Hdec). clear Hdec.
  pose proof (deal_told a b c (onL (set_started true) s1) Ho1 Hseats Hon) as Ht.
  pose proof (deal_run (onL (set_started true) s1)) as Hd. cbn [onL lg order players set_started] in Hd. rewrite Ho1 in Hd. specialize (Hd Hseats).
  destruct (deal (onL (set_started true) s1)) as [s2| |]; try done. cbn [run rbind] in Ht, Hd, Hrun |- *.
  destruct Hd as (sd & ps & l3 & Hlg & Hdl & _).
  unfold startBidding, startBidding_ in *. set (s3 := onR _ (onL _ s2)) in *.
  assert (Hl3 : order (lg s3) = [a; b; c] ∧ players (lg s3) = ps ∧ bidIndex (lg s3) = 0 ∧ bidCount (lg s3) = 0 ∧ maxScore (lg s3) = 0 ∧
    started (lg s3) = true ∧ stage (lg s3) = StageBidding).
  { unfold s3. cbn [onR onL lg]. rewrite Hlg. cbn. by rewrite Ho. }
  destruct Hl3 as (Lo & Lp & Li & Lb & Lm & Ls & Lst).
  assert (Hon2 : ∀ w, w ∈ [a; b; c] → online (rm s2) w). { intros w Hw. rewrite Ht. by apply Hon. }
  destruct (askBid_online (applyBid bidFuel) s3 a) as (s' & Hs' & Hrt); [by rewrite Lo, Li|by rewrite Li|by apply Hon2; left|].
  rewrite Hs' in *. exists s'. split; [done|]. destruct (proj1 Hrt) as [t Hlg'].
  assert (Hps : players (lg s2) = ps) by (by rewrite Hlg).
  assert (Hsent : ∀ w, w ∈ [a; b; c] → ∃ fs dl, Forall inert fs ∧ sentTo w s' = fs ++
    [(MsgDeal, HandNtf (handOf ps w) []); (MsgStage, StageNtf StageBidding); (MsgTurn, TurnNtf a EmptyString 0 dl)]).
  { intros w Hw. exists (sentTo w s ++ [(MsgMemberChange, MemberNtf c "join"%string)]). eexists.
    split; [apply Forall_app; split; [by apply Hin|by apply Forall_singleton]|].
    rewrite (retimed_sent _ _ w Hrt). unfold sentTo. cbn [rm Broadcast emit emits out s3 onR onL].
    rewrite !framesTo_app, Ht. cbn [emits out]. rewrite framesTo_app. cbn [onL onR rm s1 Broadcast emit emits out]. rewrite framesTo_app.
    unfold framesTo. cbn [mbind list_bind]. rewrite Hps.
    rewrite !frame_broadcast by (by apply Hon2 || by apply Hon).
    rewrite (dealt_frames a b c (handOf ps) w Hnd Hw), !app_nil_r, <- !app_assoc. reflexivity. }
  assert (Hview : ∀ w, w ∈ [a; b; c] → view w (sentTo w s') = mkAgent (handOf ps w ++ []) StageBidding a 0 None None).
  { intros w Hw. destruct (Hsent w Hw) as (fs & dl & Hfs & ->). by apply view_start. }
  assert (HB : BInv s').
  { unfold run in Hrun. destruct Hrun as [HW'|[[HB|HP]|HD]]; [|done|..].
    - destruct (wa_live _ HW') as (E & _). rewrite Hlg' in E. cbn in E. rewrite Hlg in E. done.
    - destruct (pi_live _ HP) as (_ & _ & E). by rewrite Hlg' in E.
    - pose proof (dn_finished _ HD) as E. rewrite Hlg' in E. cbn in E. rewrite Hlg in E. cbn in E. destruct W1 as (_ & E1 & _). congruence. }
  split; cycle 1.
  { split; [destruct Hrt as [_ (ts & n & ->)]; cbn [rm Broadcast emit emits set_timers closing s3 onR onL]; rewrite Ht; reflexivity|].
    intros w Hw. destruct (Hsent w Hw) as (fs & dl & Hfs & ->).
    exists (fs ++ [(MsgDeal, HandNtf (handOf ps w) []); (MsgStage, StageNtf StageBidding)]), EmptyString, 0, dl.
    split; [by rewrite <- app_assoc|]. apply Forall_app. split.
    - eapply Forall_impl; [exact Hfs|]. intros f Hf [Hid _]. unfold inert in Hf. by rewrite Hf in Hid.
    - repeat (apply Forall_cons_2; [by intros [? ?]|]). apply Forall_nil_2. }
  split; [done|by rewrite Hlg'|rewrite Hlg'; cbn [bidIndex set_turnTimer lg]; by rewrite Li| | |].
  - rewrite Hlg'. cbn [maxScore bidCount set_turnTimer lg]. by rewrite Lb, Lm.
  - intros w Hw. split; [apply (retimed_online _ _ _ Hrt); by apply Hon2|by rewrite Hview|..].
    + rewrite Hlg'. cbn [players set_turnTimer lg]. rewrite Lp. intros p Hp x. rewrite Hview by done. cbn [agHand].
      unfold handOf. by rewrite Hp, app_nil_r.
    + destruct (Hsent w Hw) as (fs & dl & _ & ->).
      exists (fs ++ [(MsgDeal, HandNtf (handOf ps w) []); (MsgStage, StageNtf StageBidding)]), EmptyString, 0, dl. by rewrite <- app_assoc.
    + destruct (Hsent w Hw) as (fs & dl & Hfs & ->). apply Forall_app. split; [by apply (view_inert w)|].
      repeat (apply Forall_cons_2; [by intros ?|]). apply Forall_nil_2.
  - intros w Hw. cbv zeta. rewrite Hview by done. rewrite Hlg'. cbn [agStage agMax agLast maxScore set_turnTimer lg]. by rewrite Lm.
Qed.

(** ** Joining the room *)

(** The players [os] sit in a room whose game has not started. *)
Record Gathered (os : list string) (s : st) : Prop := {
  ga_waiting : Waiting s;
  ga_order : order (lg s) = os;
  ga_morder : morder (rm s) = os;
  ga_members : members (rm s) = set_to_map (fun u => (u, true)) (list_to_set os : gset string);
  ga_open : closing (rm s) = false;
  ga_frames w : Forall inert (sentTo w s) }.

Lemma gathered_member os s u : Gathered os s → members (rm s) !! u = if decide (u ∈ os) then Some true else None.
Proof.
  intros HG. rewrite (ga_members _ _ HG). case_decide as E.
  - apply lookup_set_to_map; [done|]. exists u. split; [by apply elem_of_list_to_set|done].
  - apply eq_None_not_Some. intros [x Hx]. apply lookup_set_to_map in Hx as (v & Hv & [= -> _]); [|done].
    by apply elem_of_list_to_set in Hv.
Qed.

(** The room as the game finds it when [uid] has been seated. *)
Definition seated (uid : string) (s : st) : st :=
  mkSt (lg s) (emit (set_members (rm s) (<[uid := true]> (members (rm s))) (morder (rm s) ++ [uid])) (EvSetRoomID uid (roomID (rm s)))).

Lemma seated_facts os uid s : Gathered os s → Waiting (seated uid s) ∧ order (lg (seated uid s)) = os ∧
  (∀ w, w ∈ os ++ [uid] → online (rm (seated uid s)) w) ∧ (∀ w, sentTo w (seated uid s) = sentTo w s).
Proof.
  intros HG. pose proof (ga_waiting _ _ HG) as [W1 W2 W3 W4 W5 W6 W7]. split_and!.
  - split; [done..| |].
    + cbn [seated rm emit emits set_members out]. rewrite played_app, W6. done.
    + eapply TInv_quiet; [exact W7|reflexivity|by repeat constructor].
  - apply HG.
  - intros w Hw. split; cbn [seated rm emit emits set_members morder members].
    + by rewrite (ga_morder _ _ HG).
    + destruct (decide (uid = w)) as [->|Hne]; [by rewrite lookup_insert_eq|]. rewrite lookup_insert_ne by done.
      rewrite (gathered_member _ _ _ HG), decide_True; [done|]. set_solver.
  - intros w. unfold sentTo. cbn [seated rm emit emits set_members out]. by rewrite framesTo_app, app_nil_r.
Qed.

#[local] Existing Instance DoudizhuRoom.doudizhuLogic.

Lemma handleJoin_seated cfg os uid s : Gathered os s → uid ∉ os → NoDup os → (length os < 3)%nat → 3 ≤ MaxPlayers cfg →
  handleJoin cfg uid true s = let! s := Doudizhu.OnJoin uid (seated uid s) in Ok (None, s).
Proof.
  intros HG Hu Hnd Hlt Hmax. unfold handleJoin. change (room_of s) with (rm s). rewrite (ga_open _ _ HG).
  rewrite (gathered_member _ _ _ HG), decide_False by done. unfold roomSize. change (room_of s) with (rm s).
  rewrite (size_of_order os (members (rm s)) Hnd).
  - destruct (Z.geb_spec (Z.of_nat (length os)) (MaxPlayers cfg)); [lia|]. reflexivity.
  - intros u. rewrite (gathered_member _ _ _ HG). case_decide; [by split; eauto|]. split; [done|by intros []].
Qed.

(** The first two players wait. *)
Lemma join_gathers cfg os uid s : Gathered os s → uid ∉ os → NoDup os → (length os < 2)%nat → 3 ≤ MaxPlayers cfg →
  ∃ s', handleJoin cfg uid true s = Ok (None, s') ∧ Gathered (os ++ [uid]) s'.
Proof.
  intros HG Hu Hnd Hlt Hmax. rewrite (handleJoin_seated _ os) by (done || lia).
  destruct (seated_facts os uid s HG) as (HW & Ho & Hon & Hsent).
  pose proof (OnJoin_Waiting uid (seated uid s) HW ltac:(by rewrite Ho)) as Hrun. unfold Doudizhu.OnJoin in *.
  set (s1 := onR _ (onL _ (seated uid s))) in *.
  assert (Hdom : ∀ u, u ∈ os ++ [uid] ↔ is_Some (players (lg s1) !! u)).
  { clear Hrun Hon. pose proof (wa_dom _ HW) as W4. rewrite Ho in W4. intros u.
    cbn [s1 onR onL lg set_order set_players players seated] in *.
    rewrite elem_of_app, list_elem_of_singleton, W4. destruct (decide (uid = u)) as [->|Hne].
    - rewrite lookup_insert_eq. split; [eauto|by right].
    - rewrite lookup_insert_ne by done. split; [by intros [?| ->]|by left]. }
  assert (Hsz : size (players (lg s1)) = length (os ++ [uid])).
  { apply size_of_order; [|exact Hdom]. apply NoDup_app. split_and!; [exact Hnd| |apply NoDup_singleton].
    intros x Hx Hx'. apply list_elem_of_singleton in Hx' as ->. by apply Hu. }
  rewrite length_app in Hsz. change (length [uid]) with 1%nat in Hsz.
  assert (Hdec : ¬ ((3 ≤ size (players (lg s1)))%nat ∧ started (lg s1) = false)) by (rewrite Hsz; lia).
  rewrite (decide_False _ _ Hdec) in *. cbn [rbind]. exists s1. split; [done|].
  destruct Hrun as [HW1|HP]; cycle 1.
  { exfalso. destruct (wa_live _ HW) as (Hst & Hfi & _). destruct HP as [HL|HD].
    - destruct (Live_started _ HL) as [E _]. change (started (lg s1)) with (started (lg (seated uid s))) in E. congruence.
    - pose proof (dn_finished _ HD) as E. change (finished (lg s1)) with (finished (lg (seated uid s))) in E. congruence. }
  split; [done|..].
  - cbn [s1 onR onL lg order set_order seated]. by rewrite (ga_order _ _ HG).
  - cbn [s1 onR onL rm Broadcast emit emits seated set_members morder]. by rewrite (ga_morder _ _ HG).
  - cbn [s1 onR onL rm Broadcast emit emits seated set_members members]. apply map_eq. intros u.
    destruct (decide (uid = u)) as [->|Hne].
    + rewrite lookup_insert_eq. symmetry. apply lookup_set_to_map; [done|]. exists u. split; [|done].
      apply elem_of_list_to_set, elem_of_app. right. by left.
    + rewrite lookup_insert_ne by done. rewrite (ga_members _ _ HG). apply option_eq. intros x.
      rewrite !lookup_set_to_map by done. clear -Hne. set_solver.
  - apply HG.
  - intros w. unfold sentTo. cbn [s1 onR onL rm Broadcast emit emits out]. rewrite framesTo_app. apply Forall_app. split.
    + change (Forall inert (sentTo w (seated uid s))). rewrite Hsent. apply (ga_frames _ _ HG).
    + unfold framesTo. cbn [mbind list_bind frameIn]. case_decide; rewrite app_nil_r; [by apply Forall_singleton|apply Forall_nil_2].
Qed.

(** ** The scenario *)

Definition emptyRoom (r : room) : Prop := out r = [] ∧ members r = ∅ ∧ morder r = [] ∧ closing r = false.

Lemma newGame_Gathered r : emptyRoom r → Gathered [] (newGame r).
Proof.
  intros (Ho & Hm & Hmo & Hc). split.
  - by apply newGame_Waiting.
  - done.
  - exact Hmo.
  - change (members r = set_to_map (fun u => (u, true)) (list_to_set [] : gset string)). rewrite Hm.
    apply map_eq. intros u. rewrite lookup_empty. symmetry. apply eq_None_not_Some. intros [x Hx].
    apply lookup_set_to_map in Hx as (? & Hx & _); [|done]. by apply elem_of_list_to_set, elem_of_nil in Hx.
  - exact Hc.
  - intros w. unfold sentTo. change (out (rm (newGame r))) with (out r). rewrite Ho. apply Forall_nil_2.
Qed.

(** Three bots that have connected and read nothing yet. *)
Definition freshTable (s : st) (os : list string) : table :=
  mkTable s (set_to_map (fun u => (u, (O, newAgent))) (list_to_set os : gset string)) [].

Lemma freshTable_bots s os u : bots (freshTable s os) !! u = if decide (u ∈ os) then Some (O, newAgent) else None.
Proof.
  cbn. case_decide as E.
  - apply lookup_set_to_map; [done|]. exists u. split; [by apply elem_of_list_to_set|done].
  - apply eq_None_not_Some. intros [x Hx]. apply lookup_set_to_map in Hx as (v & Hv & [= -> _]); [|done].
    by apply elem_of_list_to_set in Hv.
Qed.

Lemma bots_async os : NoDup os → Forall (.≠ EmptyString) os → ∀ y u,
  Running os (Ready os) y u → sn tstep y ∧ ∀ y', rtc tstep y y' → nf tstep y' →
    GameOver os (game y') ∧ mailbox y' = [] ∧
    ∀ w, w ∈ os → bots y' !! w = Some (length (sentTo w (game y')), view w (sentTo w (game y'))).
Proof.
  intros Hnd Hne y u HR. eapply (async_ends os (Ready os) (GameOver os) movesLeft); [..|exact HR].
  - apply Ready_seat.
  - intros s v Hv. pose proof (Ready_seat _ _ _ Hv) as Hin.
    destruct (se_turn _ _ _ (Ready_seen _ _ _ v Hv Hin)) as (pre & ll & base & dl & E). by exists pre, (MsgTurn, TurnNtf v ll base dl).
  - intros s v w Hv Hw. apply (se_running _ _ _ (Ready_seen _ _ _ w Hv Hw)).
  - intros s v Hv. pose proof (Ready_seat _ _ _ Hv) as Hin. destruct Hv as [[HB _]|HP].
    + rewrite (act_bid _ _ _ HB Hin). eauto.
    + rewrite (act_play _ _ _ HP Hin). eauto.
  - intros s v id rq Hv Hact. by apply Ready_serve.
Qed.

(** At the start every bot is told the turn of the first player last. *)
Lemma fresh_Running os s u : Ready os s u →
  (∀ w, w ∈ os → ∃ pre ll base dl, sentTo w s = pre ++ [(MsgTurn, TurnNtf u ll base dl)] ∧ Forall (fun f => ¬ myTurn w f) pre) →
  Running os (Ready os) (freshTable s os) u.
Proof.
  intros HR Hfr.
  assert (Hun : ∀ w, w ∈ os → unread (freshTable s os) w = sentTo w s).
  { intros w Hw. unfold unread, readUpTo. rewrite freshTable_bots, decide_True by done. apply drop_0. }
  split; [done|..].
  - intros w. rewrite freshTable_bots. case_decide; [done|by intros []].
  - intros w Hw. exists O. split; [|lia]. rewrite freshTable_bots. by rewrite decide_True by done.
  - intros w f Hw Hne. rewrite Hun by done. destruct (Hfr w Hw) as (pre & ll & base & dl & -> & Hpre).
    rewrite elem_of_app, list_elem_of_singleton. intros [Hf| ->]; [rewrite Forall_forall in Hpre; by apply Hpre|].
    intros Ht. apply Hne. by eapply turn_frame.
  - pose proof (Ready_seat _ _ _ HR) as Hu. intros pre0 t f. rewrite Hun by done.
    destruct (Hfr u Hu) as (pre & ll & base & dl & -> & Hpre). intros [-> _]%app_inj_tail Hf. rewrite Forall_forall in Hpre. by apply Hpre.
  - pose proof (Ready_seat _ _ _ HR) as Hu. destruct (Hfr u Hu) as (pre & ll & base & dl & E & _).
    assert (Hne : unread (freshTable s os) u ≠ []) by (rewrite Hun, E by done; by destruct pre).
    destruct HR as [[HB _]|HP]; (eexists; split; [|by rewrite decide_False by exact Hne]);
      [exact (act_bid _ _ _ HB Hu)|exact (act_play _ _ _ HP Hu)].
Qed.

(** Three players sit and the first is asked to bid. *)
Definition Started (a b c : string) (s : st) : Prop :=
  ReadyBid [a; b; c] s a ∧ closing (rm s) = false ∧
  ∀ w, w ∈ [a; b; c] → ∃ pre ll base dl, sentTo w s = pre ++ [(MsgTurn, TurnNtf a ll base dl)] ∧ Forall (fun f => ¬ myTurn w f) pre.

(** The players [l] sit in the room. *)
Definition tableOf (l : list string) (s : st) : Prop :=
  match l with
  | [a; b; c] => Started a b c s
  | _ => (length l < 3)%nat ∧ Gathered l s
  end.

Lemma tableOf_short l s : (length l < 3)%nat → tableOf l s ↔ Gathered l s.
Proof. destruct l as [|a [|b [|c [|d l]]]]; cbn; intros; try lia; tauto. Qed.

Lemma tableOf_open l s : tableOf l s → closing (rm s) = false.
Proof. destruct l as [|a [|b [|c [|d l]]]]; by intros [_ HG]; apply HG. Qed.

Lemma tableOf_join cfg l u s : 3 ≤ MaxPlayers cfg → tableOf l s → u ∉ l → NoDup l → (length l < 3)%nat →
  ∃ s', handleJoin cfg u true s = Ok (None, s') ∧ tableOf (l ++ [u]) s'.
Proof.
  intros Hmax HG Hu Hnd Hlt. apply tableOf_short in HG; [|done]. destruct (decide (length l < 2)%nat) as [H2|H2].
  - destruct (join_gathers cfg l u s) as (s' & Hj & HG'); [done..|]. exists s'. split; [done|]. apply tableOf_short; [|done].
    rewrite length_app. cbn. lia.
  - destruct l as [|a [|b [|c l]]]; cbn in Hlt, H2; try lia. destruct (seated_facts [a; b] u s HG) as (HW & Ho & Hon & Hsent).
    assert (NoDup [a; b; u]) as Hnd3.
    { change [a; b; u] with ([a; b] ++ [u]). apply NoDup_app. split_and!; [done| |apply NoDup_singleton].
      intros x Hx ->%list_elem_of_singleton. done. }
    destruct (third_join a b u (seated u s)) as (s3 & E3 & HRB & Hcl & Hfr); [done..| |].
    { intros w _. rewrite Hsent. apply (ga_frames _ _ HG). }
    exists s3. split; [|cbn [app tableOf]; split_and!; [done| |done]].
    + rewrite (handleJoin_seated cfg [a; b]) by (done || (cbn; lia)). by rewrite E3.
    + rewrite Hcl. apply HG.
Qed.

Lemma newGame_tableOf r : emptyRoom r → tableOf [] (newGame r).
Proof. intros Hr. apply tableOf_short; [cbn; lia|]. by apply newGame_Gathered. Qed.

(** From the start of the bidding on, however slowly each bot reads its frames
    and whenever the room serves a request, no run goes on for ever (as long as
    no turn timer runs out), and where a run cannot continue the game is over
    and every bot knows the result. *)
Lemma started_ends a b c s : NoDup [a; b; c] → Forall (.≠ EmptyString) [a; b; c] → Started a b c s →
  sn tstep (freshTable s [a; b; c]) ∧
  ∀ y, rtc tstep (freshTable s [a; b; c]) y → nf tstep y →
    let l := lg (game y) in
    mailbox y = [] ∧ finished l = true ∧ closing (rm (game y)) = true ∧ gold (out (rm (game y))) = 0 ∧
    ∃ u p, players l !! u = Some p ∧ hand p = [] ∧
      ∀ w, w ∈ [a; b; c] → ∃ k ag, bots y !! w = Some (k, ag) ∧
        agOver ag = Some (Some (mkOutcome (landlord l) (bool_decide (u = landlord l)) (baseScore l))).
Proof.
  intros Hnd Hne (HRB & _ & Hfr). destruct (bots_async [a; b; c] Hnd Hne (freshTable s [a; b; c]) a) as [Hsn Hend].
  { apply fresh_Running; [|exact Hfr]. left. split; [done|by inversion Hne]. }
  split; [exact Hsn|]. intros y Hy Hnf. destruct (Hend y Hy Hnf) as ((HD & u & p & Hp & Hh & Hres) & Hbox & Hbots).
  split; [done|]. split; [apply HD|]. split; [apply HD|]. split; [apply (dn_trace _ HD)|]. exists u, p. do 2 (split; [done|]).
  intros w Hw. eexists _, _. split; [by apply Hbots|]. destruct (Hres w Hw) as (pre & rid & fs & ->). by rewrite view_snoc.
Qed.
End Start.

(** ** Examples *)

(** Finding. The landlord's hand arrives with the three extra cards in it and
    the client adds them again: it believes it holds 23 cards instead of 20. *)
Theorem landlord_counts_twice :
  length (agHand (view "c" (sentTo "c" demoPlaying))) = 23%nat ∧
  length (handOf (players (lg demoPlaying)) "c") = 20%nat.
Proof. vm_compute. by split. Qed.
