(* ===== verification/RoomManager.v ===== *)
(** * The room manager over the actor engine (internal/room/room.go)

    [room.Manager] opens rooms as actors of the engine, finds them through the
    engine's registry and reaches them by messages.  Here the room actor of
    Room.v is the behaviour of a process of Actor.v; the other processes of the
    engine (the players' actors) are a parameter.  A join is answered through a
    channel: [replies] are the answers a room has sent, each under the number
    of the call that waits for it. *)

From S2P Require Import Prelude Envelope Actor RoomCtx Room.

(** ** The room as an actor *)

Section Manager.
Context {S M CB Req : Type} `{RL : RoomLogic S M CB Req} {P : Type}.

(** What a room's mailbox holds: control messages and frames, and the closures
    of its timers. *)
Inductive payload :=
| PRoom (m : @roomMsg Req) (reply : option nat)
| PTick
| PMax
| PFire (cb : CB).

Record cell := mkCell {
  cellID : string;
  cellCfg : RoomConfig;
  logic : S;
  replies : list (nat * option ErrCode) }.

Notation actor := (cell + P)%type.
Notation eng := (@engine actor payload).
Notation outc := (@outcome actor).

(** The state a panicking call leaves behind, and the other actors. *)
Variable wreck : payload → S → S.
Variable otherInit otherStop : P → @outcome P.
Variable otherExec : payload → P → @outcome P.

Definition roomCall (e : payload) (c : cell) : res (option (option ErrCode) * S) :=
  match e with
  | PRoom m _ => OnMessage (cellCfg c) m (logic c)
  | PTick => let! s := onTick (logic c) in Ok (None, s)
  | PMax => let! s := onMaxDuration (logic c) in Ok (None, s)
  | PFire cb => let! s := lFire cb (logic c) in Ok (None, s)
  end.

Definition answer (e : payload) (r : option (option ErrCode)) : list (nat * option ErrCode) :=
  match e, r with PRoom _ (Some n), Some a => [(n, a)] | _, _ => [] end.

(** [doClose] ends with [ctx.Stop]. *)
Definition closes (s s' : S) : bool := closing (room_of s') && negb (closing (room_of s)).

Definition roomExec (e : payload) (c : cell) : @outcome cell :=
  match roomCall e c with
  | Ok (r, s) => mkOutcome (mkCell (cellID c) (cellCfg c) s (replies c ++ answer e r)) (closes (logic c) s) false
  | _ => let s := wreck e (logic c) in mkOutcome (mkCell (cellID c) (cellCfg c) s (replies c)) (closes (logic c) s) true
  end.
Definition roomInit (c : cell) : @outcome cell :=
  let s := Init (cellCfg c) (logic c) in
  mkOutcome (mkCell (cellID c) (cellCfg c) s (replies c)) (closes (logic c) s) false.

Definition liftL (o : @outcome cell) : outc := mkOutcome (inl (after o)) (stops o) (panics_ o).
Definition liftR (o : @outcome P) : outc := mkOutcome (inr (after o)) (stops o) (panics_ o).
Definition aInit (a : actor) : outc := match a with inl c => liftL (roomInit c) | inr x => liftR (otherInit x) end.
Definition aExec (e : payload) (a : actor) : outc :=
  match a with inl c => liftL (roomExec e c) | inr x => liftR (otherExec e x) end.
(** The room's [OnStop] only counts: see [stepMgr]. *)
Definition aStop (a : actor) : outc := match a with inl c => mkOutcome (inl c) false false | inr x => liftR (otherStop x) end.

(** ** The manager *)

Record Manager := mkManager {
  engine_ : eng;
  defs : modules;
  defaultTick : Z;
  defaultPolicy : MailboxPolicy;
  active : Z }.

Definition set_engine (e : eng) (m : Manager) : Manager := mkManager e (defs m) (defaultTick m) (defaultPolicy m) (active m).
Definition addActive (n : Z) (m : Manager) : Manager :=
  mkManager (engine_ m) (defs m) (defaultTick m) (defaultPolicy m) (active m + n).

(** [opts] are the two options that concern the manager itself. *)
Definition NewManager (tick : Z) (pol : MailboxPolicy) (e : eng) : Manager := mkManager e ∅ (managerTick tick) pol 0.
Definition register (cfg : RoomConfig) (m : Manager) : Manager :=
  mkManager (engine_ m) (RegisterModule cfg (defs m)) (defaultTick m) (defaultPolicy m) (active m).

(** [def.Factory()] in a fresh room context. *)
Variable Factory : string → string → S.

(** [CreateRoom]: the actor is started, then its name is bound, then the room
    is counted; other goroutines run in between. *)
Definition startRoom (roomID module : string) (m : Manager) : option (Z * Manager) :=
  match ModuleDef module (defs m) with
  | None => None
  | Some cfg =>
      let cfg := roomConfig (defaultTick m) (defaultPolicy m) module cfg in
      let '(id, e) := Spawn (inl (mkCell roomID cfg (Factory module roomID) [])) (Mailbox cfg) 0 (engine_ m) in
      Some (id, set_engine e m)
  end.
Definition bindRoom (roomID : string) (id : Z) (m : Manager) : Manager :=
  set_engine (set_reg (BindRoom roomID id (reg (engine_ m))) (engine_ m)) m.

Inductive mgrErr := NoModule (module : string) | Refused (e : ErrCode) | Undelivered (e : terr).

Definition CreateRoom (roomID module : string) (m : Manager) : (mgrErr + string) * Manager :=
  match startRoom roomID module m with
  | None => (inl (NoModule module), m)
  | Some (id, m) => (inr roomID, addActive 1 (bindRoom roomID id m))
  end.

Definition ResolveRoom (roomID : string) (m : Manager) : option Z := LookupRoom roomID (reg (engine_ m)).

(** [Join] up to the channel receive: an error, or the room that will answer
    under [ticket].  [None]: the send blocks on a full mailbox of policy block.
    [sessions] are the sessions with their [Online()]. *)
Definition sendJoin (roomID uid : string) (sessions : gmap string bool) (ticket : nat) (m : Manager)
    : option ((mgrErr + Z) * Manager) :=
  match ResolveRoom roomID m with
  | None => Some (inl (Refused (NewErr ErrNotInRoom (str "room not found"))), m)
  | Some target =>
      match sessions !! uid with
      | None => Some (inl (Refused (NewErr ErrUnauthorized (str "session not found"))), m)
      | Some online =>
          '(r, e) ← Tell target (PRoom (joinMsg uid online) (Some ticket)) (engine_ m);
          Some (match r with None => inr target | Some er => inl (Undelivered er) end, set_engine e m)
      end
  end.

(** [Leave] does not wait, nor report. *)
Definition Leave (roomID uid : string) (m : Manager) : option Manager :=
  match ResolveRoom roomID m with
  | None => Some m
  | Some target => '(_, e) ← Tell target (PRoom (leaveMsg uid) None) (engine_ m); Some (set_engine e m)
  end.

Definition Exists (roomID : string) (m : Manager) : bool := bool_decide (is_Some (ResolveRoom roomID m)).
Definition Rooms (m : Manager) : Z := active m.

(** ** The goroutines *)

Definition isRoom (a : actor) : bool := match a with inl _ => true | inr _ => false end.

(** One step of the goroutine of a process; the last one runs [OnStop], which
    for a room subtracts it from the count. *)
Definition stepMgr (now : Z) (sig : bool) (id : Z) (m : Manager) : option Manager :=
  e ← stepProc aInit aExec aStop now sig id (engine_ m);
  let ended := match procs (engine_ m) !! id with
               | Some p => match at_ p with Returned => isRoom (pactor p) | _ => false end
               | None => false
               end in
  Some (addActive (if ended then -1 else 0) (set_engine e m)).

(** The answer to a call, while the room lives. *)
Definition answered (ticket : nat) (id : Z) (m : Manager) : option (option ErrCode) :=
  match procs (engine_ m) !! id with
  | Some p => match pactor p with
              | inl c => (list_to_map (replies c) : gmap nat (option ErrCode)) !! ticket
              | inr _ => None
              end
  | None => None
  end.

End Manager.
