(* ===== verification/RoomManagerThm.v ===== *)
(** * What the room manager knows of its rooms

    [Rooms] counts the room actors that run, up to the rooms that are just
    being opened, and the registry leads to every one of them under its name:
    the drain controller, the health pages and the router rely on both. *)

From S2P Require Import Prelude Envelope Actor ActorThm RoomCtx Room GameRooms RoomManager.

Section Thm.
Context {S M CB Req : Type} `{RL : RoomLogic S M CB Req} {P : Type}.
Variable wreck : @payload CB Req → S → S.
Variable otherInit otherStop : P → @outcome P.
Variable otherExec : @payload CB Req → P → @outcome P.
Variable Factory : string → string → S.

Notation actor := (@cell S + P)%type.
Notation eng := (@engine actor (@payload CB Req)).
Notation Manager := (@Manager S CB Req P).
Notation stepMgr := (stepMgr wreck otherInit otherStop otherExec).
Notation stepProc := (stepProc (aInit otherInit) (aExec wreck otherExec) (aStop otherStop)).

(** ** The rooms that run *)

Definition roomName (p : @process actor (@payload CB Req)) : option string :=
  match pactor p with inl c => Some (cellID c) | inr _ => None end.
Definition live (e : eng) : gmap Z string := omap roomName (procs e).

Lemma live_room e id : live e !! id = procs e !! id ≫= roomName.
Proof. apply lookup_omap. Qed.

Lemma live_set e id p p' : procs e !! id = Some p → roomName p' = roomName p → live (set_procs (<[id := p']> (procs e)) e) = live e.
Proof.
  intros Hp Hn. apply map_eq. intros i. rewrite !live_room. cbn. destruct (decide (id = i)) as [<-|Hne].
  - rewrite lookup_insert_eq, Hp. cbn. by rewrite Hn.
  - by rewrite lookup_insert_ne.
Qed.

Lemma safeCall_name now (fn : actor → @outcome actor) p :
  (∀ a, isRoom (after (fn a)) = isRoom a ∧ ∀ c c', a = inl c → after (fn a) = inl c' → cellID c' = cellID c) →
  roomName (safeCall now fn p) = roomName p.
Proof.
  intros Hf. assert (roomName (set_actor (after (fn (pactor p))) p) = roomName p) as Hn.
  { destruct (Hf (pactor p)) as [H1 H2]. unfold roomName. cbn. destruct (pactor p) as [c|x] eqn:Ea, (after (fn _)) as [c'|x'] eqn:Eb; try done.
    by rewrite (H2 c c'). }
  rewrite <- Hn. unfold safeCall. destruct (fn (pactor p)) as [a s pn]. cbn. destruct s, pn; cbn; try done; by destruct (_ <=? _).
Qed.

Lemma roomExec_id env (c : @cell S) : cellID (after (roomExec wreck env c)) = cellID c.
Proof. unfold roomExec. by destruct (roomCall env c) as [[]| |]. Qed.

Lemma exec_name env a : isRoom (after (aExec wreck otherExec env a)) = isRoom a ∧
  ∀ c c', a = inl c → after (aExec wreck otherExec env a) = inl c' → cellID c' = cellID c.
Proof. destruct a as [c|x]; cbn; (split; [done|]); intros c1 c2; [intros [= <-] [= <-]; apply roomExec_id|done]. Qed.
Lemma init_name a : isRoom (after (aInit otherInit a)) = isRoom a ∧
  ∀ c c', a = inl c → after (aInit otherInit a) = inl c' → cellID c' = cellID c.
Proof. destruct a as [c|x]; cbn; (split; [done|]); intros c1 c2; [by intros [= <-] [= <-]|done]. Qed.

Lemma runStep_name now sig p p' :
  runStep (aInit otherInit) (aExec wreck otherExec) now sig p = Some p' → roomName p' = roomName p.
Proof.
  unfold runStep, handleOne. intros Hr.
  assert (∀ env rest, roomName (safeCall now (aExec wreck otherExec env) (dequeue env rest p)) = roomName p) as He.
  { intros env rest. rewrite safeCall_name by apply exec_name. done. }
  assert (roomName (safeCall now (aInit otherInit) p) = roomName p) as Hi by (apply safeCall_name, init_name).
  repeat case_match; simplify_eq; first [exact Hi|apply He|done].
Qed.

Lemma Tell_live target env e r e' : Tell target env e = Some (r, e') → live e' = live e ∧ reg e' = reg e ∧ nextID e' = nextID e ∧
  dom (procs e') = dom (procs e).
Proof.
  unfold Tell. destruct (procs e !! target) as [p|] eqn:Hp; [|by intros [= <- <-]].
  assert (∀ p', roomName p' = roomName p → live (set_procs (<[target := p']> (procs e)) e) = live e ∧ reg e = reg e ∧ nextID e = nextID e ∧
    dom (<[target := p']> (procs e)) = dom (procs e)) as Hs.
  { intros p' Hn. split_and!; [by apply (live_set _ _ p)|done..|]. rewrite dom_insert_L. apply elem_of_dom_2 in Hp. set_solver. }
  intros Ht. repeat case_match; simplify_eq; first [by apply Hs|done].
Qed.

(** ** The worlds the manager lives in *)

(** [names]: the name each room was opened under; [pend]: the rooms whose
    [CreateRoom] has not returned, with whether the name is bound yet. *)
Record world := mkWorld { mgr : Manager; names : gmap Z string; pend : gmap Z bool }.
Notation eng_ w := (engine_ (mgr w)).
Definition onEngine (f : eng → eng) (w : world) : world := mkWorld (set_engine (f (eng_ w)) (mgr w)) (names w) (pend w).

(** Room names are random and assumed fresh; actor ids have not wrapped. *)
Inductive wstep : world → world → Prop :=
| ws_register cfg w : wstep w (mkWorld (register cfg (mgr w)) (names w) (pend w))
| ws_start roomID module w id m : startRoom Factory roomID module (mgr w) = Some (id, m) →
    (∀ i, names w !! i ≠ Some roomID) → nextID (eng_ w) + 1 < 2^64 →
    wstep w (mkWorld m (<[id := roomID]> (names w)) (<[id := false]> (pend w)))
| ws_bind id roomID w : pend w !! id = Some false → names w !! id = Some roomID →
    wstep w (mkWorld (bindRoom roomID id (mgr w)) (names w) (<[id := true]> (pend w)))
| ws_count id w : pend w !! id = Some true → wstep w (mkWorld (addActive 1 (mgr w)) (names w) (delete id (pend w)))
| ws_join roomID uid sessions ticket r m w : sendJoin roomID uid sessions ticket (mgr w) = Some (r, m) →
    wstep w (mkWorld m (names w) (pend w))
| ws_leave roomID uid m w : Leave roomID uid (mgr w) = Some m → wstep w (mkWorld m (names w) (pend w))
| ws_spawn x pol par w : nextID (eng_ w) + 1 < 2^64 → wstep w (onEngine (λ e, (Spawn (inr x) pol par e).2) w)
| ws_tell target env r e w : Tell target env (eng_ w) = Some (r, e) → wstep w (onEngine (λ _, e) w)
| ws_stop id w : wstep w (onEngine (Stop id) w)
| ws_shutdown w : wstep w (onEngine Shutdown w)
| ws_watch par w : wstep w (onEngine (WatchChild par) w)
| ws_bindUID uid id w : wstep w (onEngine (λ e, set_reg (BindUID uid id (reg e)) e) w)
| ws_proc now sig id m w : stepMgr now sig id (mgr w) = Some m → wstep w (mkWorld m (names w) (pend w)).

Inductive wreach : world → Prop :=
| wr_new tick pol : wreach (mkWorld (NewManager tick pol NewEngine) ∅ ∅)
| wr_step w w' : wreach w → wstep w w' → wreach w'.

Record WInv (w : world) : Prop := {
  wi_next : 0 ≤ nextID (eng_ w) < 2^64;
  wi_procs id : is_Some (procs (eng_ w) !! id) → id ≤ nextID (eng_ w);
  wi_names id : is_Some (names w !! id) → id ≤ nextID (eng_ w);
  wi_live id n : live (eng_ w) !! id = Some n → names w !! id = Some n;
  wi_inj i j n : names w !! i = Some n → names w !! j = Some n → i = j;
  wi_pend id : is_Some (pend w !! id) → is_Some (names w !! id);
  wi_count : active (mgr w) + Z.of_nat (size (pend w)) = Z.of_nat (size (live (eng_ w)));
  wi_reg : RegOK (reg (eng_ w));
  wi_bound room id : LookupRoom room (reg (eng_ w)) = Some id → names w !! id = Some room ∧ pend w !! id ≠ Some false;
  wi_found id room : live (eng_ w) !! id = Some room → pend w !! id ≠ Some false → LookupRoom room (reg (eng_ w)) = Some id }.

(** ** Preservation *)

(** A step that leaves the rooms as they are. *)
Lemma WInv_same w m : WInv w → live (engine_ m) = live (eng_ w) → (∀ r, LookupRoom r (reg (engine_ m)) = LookupRoom r (reg (eng_ w))) →
  RegOK (reg (engine_ m)) → nextID (engine_ m) = nextID (eng_ w) → dom (procs (engine_ m)) ⊆ dom (procs (eng_ w)) → active m = active (mgr w) →
  WInv (mkWorld m (names w) (pend w)).
Proof.
  intros [] Hl Hr Hok Hn Hd Ha. split; cbn [mgr names pend]; rewrite ?Hl, ?Hn, ?Ha; try done.
  - intros id [p Hp]. apply wi_procs0. apply elem_of_dom. apply Hd. by eapply elem_of_dom_2.
  - intros room id. rewrite Hr. apply wi_bound0.
  - intros id room. rewrite Hr. apply wi_found0.
Qed.

Lemma WInv_tell w target env r e : Tell target env (eng_ w) = Some (r, e) → WInv w →
  WInv (mkWorld (set_engine e (mgr w)) (names w) (pend w)).
Proof.
  intros Ht Hw. destruct (Tell_live _ _ _ _ _ Ht) as (Hl & Hr & Hn & Hd). pose proof (wi_reg w Hw).
  apply WInv_same; cbn; rewrite ?Hl, ?Hr, ?Hn, ?Hd; done.
Qed.

(** A new actor. *)
Lemma live_spawn a pol par (e : eng) : procs e !! to_u64 (nextID e + 1) = None →
  live (Spawn a pol par e).2 = match a with inl c => <[to_u64 (nextID e + 1) := cellID c]> (live e) | inr _ => live e end.
Proof.
  intros Hnew. apply map_eq. intros i. rewrite live_room. cbn. destruct (decide (to_u64 (nextID e + 1) = i)) as [<-|Hne].
  - rewrite lookup_insert_eq. cbn. destruct a as [c|x]; cbn; [by rewrite lookup_insert_eq|]. by rewrite live_room, Hnew.
  - rewrite lookup_insert_ne by done. rewrite <- live_room. destruct a; [by rewrite lookup_insert_ne|done].
Qed.

Lemma next_fresh w : WInv w → nextID (eng_ w) + 1 < 2^64 →
  to_u64 (nextID (eng_ w) + 1) = nextID (eng_ w) + 1 ∧ procs (eng_ w) !! (nextID (eng_ w) + 1) = None ∧
  names w !! (nextID (eng_ w) + 1) = None ∧ pend w !! (nextID (eng_ w) + 1) = None.
Proof.
  intros Hw Hn. pose proof (wi_next w Hw). split; [unfold to_u64; apply Z.mod_small; lia|]. split_and!; apply eq_None_not_Some.
  - intros H1%(wi_procs w Hw). lia.
  - intros H1%(wi_names w Hw). lia.
  - intros H1%(wi_pend w Hw)%(wi_names w Hw). lia.
Qed.

Lemma WInv_spawn x pol par w : nextID (eng_ w) + 1 < 2^64 → WInv w → WInv (onEngine (λ e, (Spawn (inr x) pol par e).2) w).
Proof.
  intros Hn Hw. destruct (next_fresh w Hw Hn) as (Hid & Hp & Hm & _). pose proof Hw as [].
  assert (live (Spawn (inr x) pol par (eng_ w)).2 = live (eng_ w)) as Hl by (apply (live_spawn (inr x)); by rewrite Hid).
  split; cbn -[live]; rewrite ?Hid; try lia; try done.
  - intros id [q [[<- <-]|[_ Hq]]%lookup_insert_Some]; [lia|]. assert (id ≤ nextID (eng_ w)) by (apply wi_procs0; eauto). lia.
  - intros id Hi. apply wi_names0 in Hi. lia.
  - unfold onEngine in *. intros id n. rewrite <- Hid. change (live _ !! id = Some n) with (live (Spawn (inr x) pol par (eng_ w)).2 !! id = Some n).
    rewrite Hl. apply wi_live0.
  - rewrite <- Hid. change (active (mgr w) + Z.of_nat (size (pend w)) = Z.of_nat (size (live (Spawn (inr x) pol par (eng_ w)).2))). by rewrite Hl.
  - intros id room. rewrite <- Hid. change (live _ !! id = Some room) with (live (Spawn (inr x) pol par (eng_ w)).2 !! id = Some room).
    rewrite Hl. apply wi_found0.
Qed.

Lemma WInv_start roomID module w id m : startRoom Factory roomID module (mgr w) = Some (id, m) →
  (∀ i, names w !! i ≠ Some roomID) → nextID (eng_ w) + 1 < 2^64 → WInv w →
  WInv (mkWorld m (<[id := roomID]> (names w)) (<[id := false]> (pend w))).
Proof.
  intros Hs Hfr Hn Hw. destruct (next_fresh w Hw Hn) as (Hid & Hp & Hm & Hpd). pose proof Hw as [].
  unfold startRoom in Hs. destruct (ModuleDef module (defs (mgr w))) as [cfg0|]; [|done]. cbv zeta in Hs.
  set (cfg := roomConfig _ _ _ _) in Hs. set (c := mkCell roomID cfg (Factory module roomID) []) in Hs.
  assert (live (Spawn (inl c) (Mailbox cfg) 0 (eng_ w)).2 = <[nextID (eng_ w) + 1 := roomID]> (live (eng_ w))) as Hl.
  { rewrite live_spawn by (by rewrite Hid). by rewrite Hid. }
  set (k := nextID (eng_ w) + 1) in *.
  destruct (Spawn (inl c) (Mailbox cfg) 0 (eng_ w)) as [id' e'] eqn:Hsp. cbn [snd] in Hl. injection Hs as -> <-.
  assert (id = k ∧ nextID e' = k ∧ procs e' = <[k := mkProc (inl c) [] (normalizePolicy (Mailbox cfg)) 0 false [] AtInit [] []]> (procs (eng_ w))
    ∧ reg e' = reg (eng_ w)) as (-> & He1 & He2 & He3).
  { unfold Spawn in Hsp. fold k in Hsp. rewrite Hid in Hsp. by injection Hsp as <- <-. }
  assert (live (eng_ w) !! k = None) as Hlk by (by rewrite live_room, Hp).
  split; cbn [mgr names pend engine_ set_engine active]; rewrite ?He1, ?He2, ?He3.
  - unfold k in *. lia.
  - intros id [q [[<- <-]|[_ Hq]]%lookup_insert_Some]; [lia|]. assert (id ≤ nextID (eng_ w)) by (apply wi_procs0; eauto). lia.
  - intros id [q [[<- <-]|[_ Hq]]%lookup_insert_Some]; [lia|]. assert (id ≤ nextID (eng_ w)) by (apply wi_names0; eauto). lia.
  - intros id n. rewrite Hl. rewrite !lookup_insert_Some. intros [[<- <-]|[Hne H1]]; [by left|]. right. split; [done|]. by apply wi_live0.
  - intros i j n [[<- <-]|[Hi H1]]%lookup_insert_Some [[<- E]|[Hj H2]]%lookup_insert_Some; try done.
    + by destruct (Hfr j).
    + subst. by destruct (Hfr i).
    + by eapply wi_inj0.
  - intros id [b [[<- <-]|[Hne Hb]]%lookup_insert_Some]; [by rewrite lookup_insert_eq|]. rewrite lookup_insert_ne by done. apply wi_pend0. eauto.
  - rewrite Hl. rewrite !map_size_insert_None by done. lia.
  - done.
  - intros room id Hb. destruct (wi_bound0 _ _ Hb) as [H1 H2].
    assert (k ≠ id) as Hne by (intros <-; congruence). by rewrite !lookup_insert_ne.
  - intros id room. rewrite Hl. intros [[<- <-]|[Hne H1]]%lookup_insert_Some; [by rewrite lookup_insert_eq|].
    rewrite lookup_insert_ne by done. by apply wi_found0.
Qed.

Lemma BindRoom_lookup roomID id r room : RegOK r → LookupRoom roomID r = None → idToRoom r !! id = None →
  LookupRoom room (BindRoom roomID id r) = if decide (room = roomID) then Some id else LookupRoom room r.
Proof.
  intros Hok Hf Hb. unfold BindRoom, bindPair, LookupRoom in *. rewrite Hb, Hf. cbn. case_decide; subst;
    [by rewrite lookup_insert_eq|by rewrite lookup_insert_ne].
Qed.

Lemma Unbind_lookup id r room id' : RegOK r → LookupRoom room (Unbind id r) = Some id' ↔ LookupRoom room r = Some id' ∧ id' ≠ id.
Proof.
  intros [_ Hok]. unfold Unbind, unbindPair, LookupRoom in *.
  assert (∀ fwd, (fwd = match idToRoom r !! id with Some key => delete key (regRoom r) | None => regRoom r end) →
    fwd !! room = Some id' ↔ regRoom r !! room = Some id' ∧ id' ≠ id) as Hg.
  { intros fwd ->. destruct (idToRoom r !! id) as [key|] eqn:Ek.
    - rewrite lookup_delete_Some. split.
      + intros [Hne H1]. split; [done|]. intros ->. apply Hok in H1. congruence.
      + intros [H1 Hne]. split; [|done]. intros ->. apply Hok in Ek. congruence.
    - split; [|tauto]. intros H1. split; [done|]. intros ->. apply Hok in H1. congruence. }
  destruct (idToUID r !! id); destruct (idToRoom r !! id); cbn; by apply Hg.
Qed.

Lemma WInv_bind id roomID w : pend w !! id = Some false → names w !! id = Some roomID → WInv w →
  WInv (mkWorld (bindRoom roomID id (mgr w)) (names w) (<[id := true]> (pend w))).
Proof.
  intros Hp Hn Hw. pose proof Hw as [].
  assert (LookupRoom roomID (reg (eng_ w)) = None) as Hf.
  { apply eq_None_not_Some. intros [id' H1]. destruct (wi_bound0 _ _ H1) as [H2 H3]. by rewrite (wi_inj0 _ _ _ H2 Hn) in H3. }
  assert (idToRoom (reg (eng_ w)) !! id = None) as Hb.
  { apply eq_None_not_Some. intros [n H1]. apply (ro_room _ wi_reg0) in H1. by destruct (wi_bound0 _ _ H1). }
  pose proof (BindRoom_lookup roomID id (reg (eng_ w))) as Hl.
  split; cbn [mgr names pend bindRoom engine_ set_engine active]; try done.
  - intros i [b [[<- _]|[_ Hi]]%lookup_insert_Some]; [eauto|]. apply wi_pend0. eauto.
  - rewrite map_size_insert_Some by eauto. done.
  - by apply BindRoom_OK.
  - intros room i. change (reg _) with (BindRoom roomID id (reg (eng_ w))). rewrite Hl by done. case_decide as E.
    + intros [= <-]. subst. by rewrite lookup_insert_eq.
    + intros H1. destruct (wi_bound0 _ _ H1) as [H2 H3]. split; [done|]. rewrite lookup_insert_ne; [done|]. intros <-. congruence.
  - intros i room Hi Hnp. change (reg _) with (BindRoom roomID id (reg (eng_ w))). rewrite Hl by done.
    change (live _) with (live (eng_ w)) in Hi. destruct (decide (id = i)) as [<-|Hne].
    + apply wi_live0 in Hi. rewrite decide_True by congruence. done.
    + rewrite lookup_insert_ne in Hnp by done. rewrite decide_False; [by apply wi_found0|].
      intros ->. apply wi_live0 in Hi. apply Hne. by eapply wi_inj0.
Qed.

Lemma WInv_count id w : pend w !! id = Some true → WInv w → WInv (mkWorld (addActive 1 (mgr w)) (names w) (delete id (pend w))).
Proof.
  intros Hp Hw. pose proof Hw as []. split; cbn [mgr names pend addActive engine_ active]; try done.
  - intros i [b [_ Hi]%lookup_delete_Some]. apply wi_pend0. eauto.
  - assert (size (pend w) ≠ 0%nat) by (intros Hz%map_size_empty_inv; by rewrite Hz, lookup_empty in Hp).
    rewrite map_size_delete_Some by eauto. lia.
  - intros room i H1. destruct (wi_bound0 _ _ H1) as [H2 H3]. split; [done|]. intros [_ ?]%lookup_delete_Some. done.
  - intros i room Hi Hnp. apply wi_found0; [done|]. intros Hf. apply Hnp. rewrite lookup_delete_ne; [done|]. intros ->. congruence.
Qed.

Lemma notifyParent_rooms par child (e : eng) :
  procs (notifyParent par child e) = procs e ∧ reg (notifyParent par child e) = reg e ∧ nextID (notifyParent par child e) = nextID e.
Proof. unfold notifyParent. repeat case_match; done. Qed.

Lemma WInv_proc now sig id m w : stepMgr now sig id (mgr w) = Some m → WInv w → WInv (mkWorld m (names w) (pend w)).
Proof.
  intros Hs Hw. pose proof Hw as []. unfold RoomManager.stepMgr in Hs.
  destruct (stepProc now sig id (eng_ w)) as [e|] eqn:He; [|done]. cbn in Hs. injection Hs as <-.
  unfold Actor.stepProc in He. destruct (procs (eng_ w) !! id) as [p|] eqn:Hp; [|done].
  assert (at_ p = Returned ∨ at_ p ≠ Returned) as [Hret|Hret] by (destruct (at_ p); auto).
  2: { assert (∃ p', runStep (aInit otherInit) (aExec wreck otherExec) now sig p = Some p' ∧ e = set_procs (<[id := p']> (procs (eng_ w))) (eng_ w)) as (p' & Hr & ->).
       { destruct (at_ p); try done; destruct (runStep _ _ now sig p) as [p'|]; try done; injection He as <-; eauto. }
       replace (match at_ p with Returned => isRoom (pactor p) | _ => false end) with false by (by destruct (at_ p)).
       apply runStep_name in Hr. apply WInv_same; cbn; try done; [by apply (live_set _ _ p)| |lia].
       rewrite dom_insert. apply elem_of_dom_2 in Hp. set_solver. }
  rewrite Hret in *. injection He as <-. unfold finish. set (q := safeCall _ _ p).
  destruct (notifyParent_rooms (parent q) id (mkEngine (nextID (eng_ w)) (delete id (procs (eng_ w))) (Unbind id (reg (eng_ w)))
    (stopAll (eng_ w)) (watchers (eng_ w)) (actorCount (eng_ w) - 1))) as (Hpr & Hre & Hnx).
  set (e' := notifyParent _ _ _) in *. cbn [procs reg nextID] in Hpr, Hre, Hnx.
  assert (live e' = delete id (live (eng_ w))) as Hl.
  { apply map_eq. intros i. rewrite live_room, Hpr. destruct (decide (id = i)) as [<-|Hne]; [by rewrite !lookup_delete_eq|].
    rewrite !lookup_delete_ne by done. by rewrite live_room. }
  clearbody e'. split; cbn [mgr names pend engine_ set_engine addActive active]; rewrite ?Hpr, ?Hre, ?Hnx, ?Hl; try done.
  - intros i [x [_ Hx]%lookup_delete_Some]. apply wi_procs0. eauto.
  - intros i n [_ Hi]%lookup_delete_Some. by apply wi_live0.
  - destruct (isRoom (pactor p)) eqn:Hroom.
    + assert (is_Some (live (eng_ w) !! id)) as Hi. { rewrite live_room, Hp. cbn. unfold roomName. destruct (pactor p); [eauto|done]. }
      assert (size (live (eng_ w)) ≠ 0%nat) by (intros Hz%map_size_empty_inv; rewrite Hz, lookup_empty in Hi; by destruct Hi).
      rewrite map_size_delete_Some by done. lia.
    + rewrite map_size_delete_None; [lia|]. rewrite live_room, Hp. cbn. unfold roomName. by destruct (pactor p).
  - by apply Unbind_OK.
  - intros room i [H1 _]%Unbind_lookup; [|done]. by apply wi_bound0.
  - intros i room [Hne Hi]%lookup_delete_Some Hnp. apply Unbind_lookup; [done|]. split; [by apply wi_found0|done].
Qed.

Lemma WInv_shutdown w : WInv w → WInv (onEngine Shutdown w).
Proof.
  intros Hw. pose proof (wi_reg w Hw). apply WInv_same; try done.
  - cbn [engine_ set_engine]. apply map_eq. intros i. rewrite !live_room. change (procs (Shutdown (eng_ w))) with (beginDrain <$> procs (eng_ w)).
    rewrite lookup_fmap. by destruct (procs (eng_ w) !! i).
  - cbn [engine_ set_engine]. change (procs (Shutdown (eng_ w))) with (beginDrain <$> procs (eng_ w)). by rewrite dom_fmap.
Qed.

Lemma wreach_WInv w : wreach w → WInv w.
Proof.
  induction 1 as [tick pol|w w' _ IH Hs].
  - assert (∀ (A : Type) (i : Z) (x : A), (∅ : gmap Z A) !! i = Some x → False) as He by (intros A i x; by rewrite lookup_empty).
    split; cbn [mgr names pend engine_ NewManager NewEngine nextID procs reg active].
    + lia.
    + by intros i [x Hx%He].
    + by intros i [x Hx%He].
    + intros i n Hi. by apply He in Hi.
    + by intros i j n Hi%He.
    + by intros i [x Hx%He].
    + reflexivity.
    + split; intros k i; cbn; rewrite !lookup_empty; split; done.
    + intros r i Hr. change ((∅ : gmap string Z) !! r = Some i) in Hr. by rewrite lookup_empty in Hr.
    + intros i n Hi. by apply He in Hi.
  - destruct Hs as [cfg w|roomID module w id m|id roomID w|id w|roomID uid ss t r m w Hj|roomID uid m w Hl|x pol par w|target env r e w Ht|id w|w|par w|uid id w|now sig id m w].
    + pose proof (wi_reg w IH). by apply WInv_same.
    + by eapply WInv_start.
    + by apply WInv_bind.
    + by apply WInv_count.
    + unfold sendJoin in Hj. destruct w as [m0 nm pd]. cbn [mgr names pend] in *. repeat case_match; simplify_eq; try done.
      destruct (Tell _ _ _) as [[r0 e]|] eqn:Ht; [|done]. cbn in Hj. injection Hj as _ <-.
      exact (WInv_tell (mkWorld m0 nm pd) _ _ _ _ Ht IH).
    + unfold Leave in Hl. destruct w as [m0 nm pd]. cbn [mgr names pend] in *. repeat case_match; simplify_eq; try done.
      destruct (Tell _ _ _) as [[r0 e]|] eqn:Ht; [|done]. cbn in Hl. injection Hl as <-.
      exact (WInv_tell (mkWorld m0 nm pd) _ _ _ _ Ht IH).
    + by apply WInv_spawn.
    + by eapply WInv_tell.
    + unfold onEngine, Stop. destruct (procs (eng_ w) !! id) as [p|] eqn:Hp; [|destruct w as [[]]; exact IH].
      pose proof (wi_reg w IH). apply WInv_same; cbn; try done;
        first [by apply (live_set _ _ p)|rewrite dom_insert; apply elem_of_dom_2 in Hp; set_solver].
    + by apply WInv_shutdown.
    + pose proof (wi_reg w IH). unfold onEngine, WatchChild. case_match; by apply WInv_same.
    + pose proof (wi_reg w IH). apply WInv_same; try done. by apply BindUID_OK.
    + by eapply WInv_proc.
Qed.

(** ** The manager's promises *)

(** C22. In every reachable state, however room openings, joins, leaves, stops
    and the goroutines interleave: [Rooms], which a drain waits on, plus the
    rooms still being opened, is the number of room actors that run; every room
    that runs and whose name has been bound is the one its name resolves to,
    so a join or a frame for it reaches it; and a name never resolves to a
    room opened under another name. *)
Theorem rooms_accounted w : wreach w →
  Rooms (mgr w) + Z.of_nat (size (pend w)) = Z.of_nat (size (live (eng_ w))) ∧
  (∀ id room, live (eng_ w) !! id = Some room → pend w !! id ≠ Some false → ResolveRoom room (mgr w) = Some id) ∧
  (∀ id room room', ResolveRoom room (mgr w) = Some id → live (eng_ w) !! id = Some room' → room' = room).
Proof.
  intros Hw%wreach_WInv. pose proof Hw as []. split_and!; [done|by apply wi_found0|].
  intros id room room' Hr Hl. apply wi_bound0 in Hr as [Hr _]. apply wi_live0 in Hl. congruence.
Qed.
End Thm.

(** ** One open room and one that is being opened *)

Section Demo.
#[local] Existing Instance SnakeRoom.snakeLogic.
Notation spayload := (@payload unit (option Z)).
Notation sworld := (@world Snake.st unit (option Z) unit).

Definition sWreck (_ : spayload) (s : Snake.st) : Snake.st := s.
Definition sIdle (x : unit) : @outcome unit := mkOutcome x false false.
Definition sExec (_ : spayload) (x : unit) : @outcome unit := sIdle x.
Definition sFactory (module room : string) : Snake.st :=
  Snake.mkSt (Snake.NewLogic 2) (mkRctx room ∅ [] false false false ∅ 0 true 0 []).
Definition sStart (room : string) (w : sworld) : sworld :=
  match startRoom sFactory room "snake" (mgr w) with
  | Some (id, m) => mkWorld m (<[id := room]> (names w)) (<[id := false]> (pend w))
  | None => w
  end.
Definition w0 : sworld := mkWorld (NewManager 0 (mkPolicy 4096 FullDrop 0) NewEngine) ∅ ∅.
Definition w1 : sworld := mkWorld (register (mkRoomConfig "snake" 2 0 0 (mkPolicy 256 FullDrop 0)) (mgr w0)) ∅ ∅.
Definition w2 : sworld := sStart "r1" w1.
Definition w3 : sworld := mkWorld (bindRoom "r1" 1 (mgr w2)) (names w2) (<[1 := true]> (pend w2)).
Definition w4 : sworld := mkWorld (addActive 1 (mgr w3)) (names w3) (delete 1 (pend w3)).
Definition w5 : sworld := sStart "r2" w4.
Notation sreach := (wreach sWreck sIdle sIdle sExec sFactory).

Lemma w5_reach : sreach w5.
Proof.
  assert (sreach w1) as H1 by (eapply wr_step; [apply (wr_new _ _ _ _ _ 0 (mkPolicy 4096 FullDrop 0))|apply ws_register]).
  assert (sreach w2) as H2.
  { eapply wr_step; [exact H1|]. refine (ws_start _ _ _ _ _ "r1" "snake" w1 _ _ eq_refl _ _); [by intros i|vm_compute; reflexivity]. }
  assert (sreach w3) as H3 by (eapply wr_step; [exact H2|]; apply ws_bind; vm_compute; reflexivity).
  assert (sreach w4) as H4 by (eapply wr_step; [exact H3|]; apply ws_count; vm_compute; reflexivity).
  eapply wr_step; [exact H4|]. refine (ws_start _ _ _ _ _ "r2" "snake" w4 _ _ eq_refl _ _); [|vm_compute; reflexivity].
  intros i. destruct (decide (i = 1)) as [->|Hi]; [vm_compute; discriminate|].
  change (names w4) with (<[1 := "r1"]> (∅ : gmap Z string)). by rewrite lookup_insert_ne, lookup_empty.
Qed.

Lemma rooms_accounted_witness : Rooms (mgr w5) = 1 ∧ size (pend w5) = 1%nat ∧ size (live (engine_ (mgr w5))) = 2%nat ∧
  ResolveRoom "r1" (mgr w5) = Some 1 ∧ ResolveRoom "r2" (mgr w5) = None.
Proof.
  destruct (rooms_accounted sWreck sIdle sIdle sExec sFactory w5 w5_reach) as (_ & Hf & _).
  split; [vm_compute; reflexivity|]. split; [vm_compute; reflexivity|]. split; [vm_compute; reflexivity|]. split; [|vm_compute; reflexivity].
  apply Hf; [vm_compute; reflexivity|vm_compute; discriminate].
Defined.

(** Finding: a join that was accepted may never be answered.  The room handles
    a batch in which its last member leaves; it closes, its goroutine returns
    in the middle of the batch, and the join that waits behind is dropped with
    the mailbox: the caller of [Join], who waits for the reply, waits for ever. *)
Notation smgr := (@Manager Snake.st unit (option Z) unit).
Definition sStep (m : smgr) : option smgr := stepMgr sWreck sIdle sIdle sExec 0 false 1 m.
Definition both : gmap string bool := <["a" := true]> (<["b" := true]> ∅).
Definition tick (m : smgr) : option smgr := '(_, e) ← Tell 1 PTick (engine_ m); Some (set_engine e m).

(** "a" has joined and its call has returned. *)
Definition oneInside : option smgr :=
  m ← sStep (mgr w4);
  '(_, m) ← sendJoin "r1" "a" both 0 m;
  m ← sStep m; sStep m.
(** A tick, the leave of "a" and the join of "b" wait in the mailbox. *)
Definition joinWaits : option ((mgrErr + Z) * smgr) :=
  m ← oneInside;
  m ← tick m;
  m ← Leave "r1" "a" m;
  sendJoin "r1" "b" both 1 m.

Theorem join_never_answered : ∃ m0 m1 m2 m3,
  joinWaits = Some (inr 1, m0) ∧ sStep m0 = Some m1 ∧ sStep m1 = Some m2 ∧
  answered 1 1 m2 = None ∧ sStep m2 = Some m3 ∧ procs (engine_ m3) !! 1 = None ∧ Rooms m3 = 0.
Proof.
  destruct joinWaits as [[[e|i] m0]|] eqn:E0; [vm_compute in E0; discriminate| |vm_compute in E0; discriminate].
  assert (i = 1) as -> by (vm_compute in E0; congruence).
  assert (m0 = match joinWaits with Some (_, m) => m | None => m0 end) as Hm by (by rewrite E0).
  assert (∃ m1 m2 m3, sStep m0 = Some m1 ∧ sStep m1 = Some m2 ∧ answered 1 1 m2 = None ∧ sStep m2 = Some m3 ∧
    procs (engine_ m3) !! 1 = None ∧ Rooms m3 = 0) as (m1 & m2 & m3 & H).
  { rewrite Hm. clear Hm E0. eexists _, _, _. split; [vm_compute; reflexivity|]. split; [vm_compute; reflexivity|].
    split; [vm_compute; reflexivity|]. split; [vm_compute; reflexivity|]. split; vm_compute; reflexivity. }
  exists m0, m1, m2, m3. split; [done|exact H].
Qed.
End Demo.
