(* ===== verification/MatchRoom.v ===== *)
(** * A match request to a seated table (match.go over room.go over engine.go)

    The matchmaker's view of the room manager ([RoomService] of Match.v),
    discharged by the manager of RoomManager.v: each call runs the room's
    goroutine until it is idle again, the schedule in which nobody else talks
    to the new room.  [match_seats]: the request that completes a table opens
    one room, seats all its players in the order they asked, and tells each of
    them the room under the number of its own request. *)

From S2P Require Import Prelude Envelope Actor ActorThm RoomCtx Room RoomManager Match.

Section Host.
Context {S M CB Req : Type} `{RL : RoomLogic S M CB Req} {P : Type}.
Variable wreck : @payload CB Req → S → S.
Variable otherInit otherStop : P → @Actor.outcome P.
Variable otherExec : @payload CB Req → P → @Actor.outcome P.
Variable Factory : string → string → S.
Variable genRoomID : nat → string.
Variable now : Z.

Notation Manager := (@Manager S CB Req P).
Notation stepMgr := (stepMgr wreck otherInit otherStop otherExec).

(** The manager with the sessions it looks players up in; [serial] numbers the
    rooms and the calls. *)
Record host := mkHost { hmgr : Manager; sessions : gmap string bool; serial : nat }.

Fixpoint pump (fuel : nat) (id : Z) (m : Manager) : Manager :=
  match fuel with
  | O => m
  | Datatypes.S fuel => match stepMgr now false id m with Some m => pump fuel id m | None => m end
  end.
(** A message takes two steps: it is handled, and the batch it began ends. *)
Definition idle (id : Z) (m : Manager) : Manager := pump 3 id m.

Definition hCreate (module : string) (h : host) : res ((mgrErr + string) * host) :=
  match RoomManager.CreateRoom Factory (genRoomID (serial h)) module (hmgr h) with
  | (inl e, m) => Ok (inl e, mkHost m (sessions h) (serial h))
  | (inr room, m) =>
      Ok (inr room, mkHost (match ResolveRoom room m with Some id => idle id m | None => m end) (sessions h) (Datatypes.S (serial h)))
  end.
(** A send that blocks and an answer that never comes are calls that do not
    return. *)
Definition hJoin (room uid : string) (h : host) : res (option mgrErr * host) :=
  match sendJoin room uid (sessions h) (serial h) (hmgr h) with
  | None => OutOfFuel
  | Some (inl e, m) => Ok (Some e, mkHost m (sessions h) (serial h))
  | Some (inr id, m) =>
      let m := idle id m in
      match answered (serial h) id m with
      | None => OutOfFuel
      | Some e => Ok (Refused <$> e, mkHost m (sessions h) (Datatypes.S (serial h)))
      end
  end.
Definition hLeave (room uid : string) (h : host) : res host :=
  match RoomManager.Leave room uid (hmgr h) with
  | None => OutOfFuel
  | Some m => Ok (mkHost (match ResolveRoom room m with Some id => idle id m | None => m end) (sessions h) (serial h))
  end.

#[export] Instance host_service : RoomService host mgrErr := {|
  Match.CreateRoom := hCreate; Match.Join := hJoin; Match.Leave := hLeave |}.

(** ** Tables *)

(** [seats l s]: the players [l] sit in the room, in this order. *)
Variable seats : list string → S → Prop.
Variable module : string.
Variable size : nat.
Hypothesis seats_init : ∀ cfg room, seats [] (Init cfg (Factory module room)).
Hypothesis seats_open : ∀ l s, seats l s → closing (room_of s) = false.
Hypothesis seats_join : ∀ cfg l u s, Z.of_nat size ≤ MaxPlayers cfg → seats l s → u ∉ l → NoDup l → (length l < size)%nat →
  ∃ s', handleJoin cfg u true s = Ok (None, s') ∧ seats (l ++ [u]) s'.

Record Table (h : host) (id : Z) (room : string) (l : list string) (p : process) (c : cell) : Prop := {
  tb_proc : procs (engine_ (hmgr h)) !! id = Some p;
  tb_actor : pactor p = inl c;
  tb_name : LookupRoom room (reg (engine_ (hmgr h))) = Some id;
  tb_max : Z.of_nat size ≤ MaxPlayers (cellCfg c);
  tb_seats : seats l (logic c);
  tb_at : at_ p = AtSelect;
  tb_mb : mb p = [];
  tb_stop : stopping p = false;
  tb_cap : 0 < Capacity (policy p);
  tb_replies : Forall (λ r, (r.1 < serial h)%nat) (replies c) }.

Lemma pump_step fuel id m m' : stepMgr now false id m = Some m' → pump (Datatypes.S fuel) id m = pump fuel id m'.
Proof. intros H. cbn [pump]. by rewrite H. Qed.
Lemma pump_idle fuel id m : stepMgr now false id m = None → pump fuel id m = m.
Proof. intros H. destruct fuel; [done|]. cbn [pump]. by rewrite H. Qed.

(** One step of a process that does not end. *)
Lemma stepMgr_run id m p p' : procs (engine_ m) !! id = Some p → at_ p ≠ Returned →
  runStep (aInit otherInit) (aExec wreck otherExec) now false p = Some p' →
  stepMgr now false id m = Some (set_engine (set_procs (<[id := p']> (procs (engine_ m))) (engine_ m)) m).
Proof.
  intros Hp Ha Hr. unfold RoomManager.stepMgr, stepProc. rewrite Hp. destruct (at_ p) eqn:E; try done; rewrite Hr; cbn;
    unfold addActive, set_engine; cbn; by rewrite Z.add_0_r.
Qed.
Lemma stepMgr_stuck id m p : procs (engine_ m) !! id = Some p → at_ p = AtSelect → mb p = [] → stepMgr now false id m = None.
Proof. intros Hp Ha Hm. unfold RoomManager.stepMgr, stepProc. rewrite Hp, Ha. unfold runStep. by rewrite Ha, Hm. Qed.

Lemma fresh_reply (l : list (nat * option ErrCode)) n a : Forall (λ r, (r.1 < n)%nat) l →
  (list_to_map (l ++ [(n, a)]) : gmap nat (option ErrCode)) !! n = Some a.
Proof.
  induction 1 as [|[k b] l Hk _ IH]; cbn; [by rewrite lookup_insert_eq|]. cbn in Hk. rewrite lookup_insert_ne by lia. exact IH.
Qed.

(** A join of a player with a session is seated and answered. *)
Lemma hJoin_table h id room l p c u : Table h id room l p c → sessions h !! u = Some true → u ∉ l → NoDup l → (length l < size)%nat →
  ∃ h' p' c', hJoin room u h = Ok (None, h') ∧ Table h' id room (l ++ [u]) p' c' ∧ sessions h' = sessions h.
Proof.
  intros [H1 H2 H3 H4 H5 H6 H7 H8 H9 H10] Hu Hnu Hnd Hlt.
  destruct (seats_join (cellCfg c) l u (logic c) H4 H5 Hnu Hnd Hlt) as (s' & Hj & Hs').
  unfold hJoin, sendJoin, ResolveRoom. rewrite H3, Hu. unfold Tell. rewrite H1, H7. change (zlen []) with 0.
  rewrite (proj2 (Z.ltb_lt 0 _)) by done. cbn [mbind option_bind].
  set (env := PRoom (joinMsg u true) (Some (serial h))). set (p1 := enqueue env p). set (m1 := set_engine _ (hmgr h)).
  assert (procs (engine_ m1) !! id = Some p1) as E1 by (cbn; by rewrite lookup_insert_eq).
  set (c' := mkCell (cellID c) (cellCfg c) s' (replies c ++ [(serial h, None)])).
  set (p2 := set_at (InBatch (Z.to_nat (DrainBatch (policy p)))) (set_actor (inl c') (dequeue env [] p1))).
  assert (runStep (aInit otherInit) (aExec wreck otherExec) now false p1 = Some p2) as R1.
  { unfold runStep. cbn [at_ p1 enqueue mb]. rewrite H6, H7. cbn [app]. unfold handleOne, safeCall. cbn [pactor dequeue p1 enqueue].
    rewrite H2. cbn [aExec]. unfold roomExec. cbn [roomCall env OnMessage]. rewrite Hj. cbn [rbind].
    unfold closes. rewrite (seats_open _ _ Hs'). cbn [andb liftL after stops panics_ answer].
    cbn [set_actor stopping dequeue enqueue p1]. rewrite H8. done. }
  set (m2 := set_engine (set_procs (<[id := p2]> (procs (engine_ m1))) (engine_ m1)) m1).
  assert (procs (engine_ m2) !! id = Some p2) as E2 by (cbn; by rewrite lookup_insert_eq).
  set (p3 := set_at AtSelect p2).
  assert (runStep (aInit otherInit) (aExec wreck otherExec) now false p2 = Some p3) as R2.
  { unfold p3, p2, p1. unfold runStep. cbn -[Z.to_nat]. destruct (Z.to_nat (DrainBatch (policy p))); cbn -[Z.to_nat]; by rewrite H8. }
  set (m3 := set_engine (set_procs (<[id := p3]> (procs (engine_ m2))) (engine_ m2)) m2).
  assert (procs (engine_ m3) !! id = Some p3) as E3 by (cbn; by rewrite lookup_insert_eq).
  assert (idle id m1 = m3) as ->.
  { assert (stepMgr now false id m1 = Some m2) as T1 by (apply (stepMgr_run id m1 p1); [done| |done]; cbn; by rewrite H6).
    assert (stepMgr now false id m2 = Some m3) as T2 by (by apply (stepMgr_run id m2 p2)).
    unfold idle. rewrite (pump_step _ _ _ _ T1), (pump_step _ _ _ _ T2), pump_idle; [done|]. by apply (stepMgr_stuck id m3 p3). }
  exists (mkHost m3 (sessions h) (Datatypes.S (serial h))), p3, c'. split_and!; [|split|done]; cbn [hmgr serial sessions]; try done.
  - unfold answered. rewrite E3. cbn [pactor p3 set_at p2 set_actor c' replies]. by rewrite fresh_reply.
  - cbn [replies c']. apply Forall_app. split; [|repeat constructor; cbn; lia]. eapply Forall_impl; [exact H10|]. cbn. lia.
Qed.

(** A new room of a registered module is an empty table. *)
Lemma hCreate_table h cfg : defs (hmgr h) !! module = Some cfg →
  let cfg := roomConfig (defaultTick (hmgr h)) (defaultPolicy (hmgr h)) module cfg in
  let room := genRoomID (serial h) in
  Z.of_nat size ≤ MaxPlayers cfg → LookupRoom room (reg (engine_ (hmgr h))) = None →
  idToRoom (reg (engine_ (hmgr h))) !! to_u64 (nextID (engine_ (hmgr h)) + 1) = None →
  ∃ h' id p c, hCreate module h = Ok (inr room, h') ∧ Table h' id room [] p c ∧ sessions h' = sessions h.
Proof.
  intros Hd cfg0 room Hmax Hf Hb. unfold hCreate, RoomManager.CreateRoom, startRoom, ModuleDef. rewrite Hd. cbv zeta. fold cfg0 room.
  unfold Spawn. set (id := to_u64 _) in *. set (p0 := mkProc _ _ _ _ _ _ _ _ _). cbn [engine_ set_engine].
  set (m1 := addActive 1 _).
  assert (ResolveRoom room m1 = Some id) as Hr.
  { unfold ResolveRoom. cbn [m1 addActive bindRoom set_engine engine_ set_reg reg]. unfold BindRoom, bindPair, LookupRoom in *. cbn [reg].
    rewrite Hb, Hf. cbn. by rewrite lookup_insert_eq. }
  rewrite Hr. assert (procs (engine_ m1) !! id = Some p0) as E0 by (cbn; by rewrite lookup_insert_eq).
  set (s0 := Init cfg0 (Factory module room)). set (c := mkCell room cfg0 s0 []).
  set (p1 := set_at AtSelect (set_actor (inl c) p0)).
  assert (runStep (aInit otherInit) (aExec wreck otherExec) now false p0 = Some p1) as R0.
  { unfold runStep. cbn [at_ p0]. unfold safeCall. cbn [pactor p0 aInit]. unfold roomInit, closes. cbn [cellCfg logic cellID replies].
    fold s0. rewrite (seats_open [] s0) by apply seats_init. done. }
  set (m2 := set_engine (set_procs (<[id := p1]> (procs (engine_ m1))) (engine_ m1)) m1).
  assert (procs (engine_ m2) !! id = Some p1) as E1 by (cbn; by rewrite lookup_insert_eq).
  assert (idle id m1 = m2) as ->.
  { assert (stepMgr now false id m1 = Some m2) as T1 by (by apply (stepMgr_run id m1 p0)).
    unfold idle. rewrite (pump_step _ _ _ _ T1), pump_idle; [done|]. by apply (stepMgr_stuck id m2 p1). }
  exists (mkHost m2 (sessions h) (Datatypes.S (serial h))), id, p1, c. split_and!; [done|split|done]; cbn [hmgr serial sessions]; try done.
  - apply seats_init.
  - apply normalize_pos.
Qed.

Notation joinAll := (joinAll (RS := host_service)).
Notation Enqueue := (Enqueue (RS := host_service)).

Lemma joinAll_table room id todo : ∀ h l p c, Table h id room l p c → (∀ e, e ∈ todo → sessions h !! eUID e = Some true) →
  NoDup (l ++ uids todo) → (length (l ++ uids todo) ≤ size)%nat →
  ∃ h' p' c', joinAll room todo h = Ok (None, h') ∧ Table h' id room (l ++ uids todo) p' c' ∧ sessions h' = sessions h.
Proof.
  induction todo as [|e todo IH]; intros h l p c HT Hs Hnd Hlen.
  - exists h, p, c. cbn [uids map]. rewrite app_nil_r. done.
  - cbn [uids map] in *. change (map eUID todo) with (uids todo) in *.
    assert (eUID e ∉ l ∧ NoDup l) as [Hni Hndl]. { apply NoDup_app in Hnd as (Hl & Hd & _). split; [|done]. intros Hin. apply (Hd _ Hin). by left. }
    rewrite length_app in Hlen. cbn [length] in Hlen.
    destruct (hJoin_table h id room l p c (eUID e) HT) as (h1 & p1 & c1 & Hj & HT1 & Hs1); [apply Hs; by left|done|done|lia|].
    rewrite cons_middle, app_assoc in Hnd |- *.
    destruct (IH h1 (l ++ [eUID e]) p1 c1 HT1) as (h2 & p2 & c2 & Hj2 & HT2 & Hs2).
    + intros x Hx. rewrite Hs1. apply Hs. by right.
    + exact Hnd.
    + rewrite !length_app. cbn. lia.
    + exists h2, p2, c2. split_and!; [|done|by rewrite Hs2].
      cbn [Match.joinAll]. change (Match.Join room (eUID e) h) with (hJoin room (eUID e) h). by rewrite Hj.
Qed.

(** The request that completes a table. *)
Lemma match_table sz uid rule seq (m : Maker host mgrErr) cfg : MInv sz m → validRule rule → Module_ rule = module →
  byUID m !! uid = None → zlen (arrived uid rule seq m) = Players rule → Players rule ≤ Z.of_nat size →
  (∀ e, e ∈ arrived uid rule seq m → eRule e = rule ∧ sessions (rooms m) !! eUID e = Some true) →
  defs (hmgr (rooms m)) !! module = Some cfg →
  let cfg := roomConfig (defaultTick (hmgr (rooms m))) (defaultPolicy (hmgr (rooms m))) module cfg in
  let room := genRoomID (serial (rooms m)) in
  Z.of_nat size ≤ MaxPlayers cfg → LookupRoom room (reg (engine_ (hmgr (rooms m)))) = None →
  idToRoom (reg (engine_ (hmgr (rooms m)))) !! to_u64 (nextID (engine_ (hmgr (rooms m))) + 1) = None →
  ∃ m' id p c, Enqueue uid rule seq m = Ok (None, m') ∧
    results m' = results m ++ map (λ e, mkResult (eUID e) (eSeq e) room None) (arrived uid rule seq m) ∧
    Table (rooms m') id room (uids (arrived uid rule seq m)) p c.
Proof.
  intros HI [Hv1 Hv2] Hmod Hb Hz Hsz Hall Hd cfg0 room Hmax Hf Hi.
  destruct (hCreate_table (rooms m) cfg Hd Hmax Hf Hi) as (h1 & id & p1 & c1 & Hc & HT1 & Hs1).
  pose proof (arrived_once _ uid rule seq m HI Hb) as Hnd. set (q := arrived uid rule seq m) in *.
  destruct (joinAll_table room id q h1 [] p1 c1 HT1) as (h2 & p2 & c2 & Hj & HT2 & _).
  { intros e He. rewrite Hs1. by apply Hall. }
  { exact Hnd. }
  { cbn. unfold uids. rewrite length_map. unfold zlen in Hz. lia. }
  assert (q ≠ []) as Hne by (intros E; rewrite E in Hz; unfold zlen in Hz; cbn in Hz; lia).
  assert (∀ m1, rooms m1 = rooms m → settle (RS := host_service) q m1 = Ok (notifyAll q room None (set_rooms h2 m1))) as Hset.
  { intros m1 Hr. unfold settle. destruct q as [|first rest] eqn:Eq; [done|].
    rewrite (proj1 (Hall first ltac:(by left))), Hmod, Hr.
    change (Match.CreateRoom module (rooms m)) with (hCreate module (rooms m)). rewrite Hc. cbn [rbind]. fold room. by rewrite Hj. }
  eexists _, id, p2, c2. unfold Match.Enqueue. rewrite decide_False by (intros [?|?]; [done|lia]).
  rewrite Hb, decide_False by (by intros []). fold (arrived uid rule seq m). fold q. rewrite (proj2 (Z.ltb_ge _ _)) by lia.
  rewrite !slice_range by lia. cbn [rbind]. change (drop (Z.to_nat 0) q) with q. rewrite Z.sub_0_r, take_ge by (unfold zlen in Hz; lia).
  rewrite Hset by done. cbn [rbind]. split_and!; [reflexivity|reflexivity|exact HT2].
Qed.
End Host.
