(* ===== verification/BotMatch.v ===== *)
(** * The doudizhu scenario from the match requests to the result

    bench/bot/scenarios.go against the whole chain behind it: three bots that
    ask for a doudizhu match are seated by the matchmaker (match.go) in one
    room of the room manager (room.go), which runs as an actor (engine.go), and
    play the game (games/doudizhu) to its end. *)

From S2P Require Import Prelude Envelope Actor RoomCtx Room RoomManager Match MatchRoom GameRooms.
From S2P Require Import DdzCards Doudizhu DoudizhuInv DoudizhuGame Scenarios BotTable BotGame BotRun.

Section BotMatch.
Context `{CardSort} {P : Type}.
#[local] Existing Instance DoudizhuRoom.doudizhuLogic.

Variable wreck : @payload string (Z * dreq) → st → st.
Variable otherInit otherStop : P → @Actor.outcome P.
Variable otherExec : @payload string (Z * dreq) → P → @Actor.outcome P.
Variable genRoomID : nat → string.
Variable now : Z.

(** The context a new room hands to its game. *)
Definition newRoom (profiles : bool) (nowMs : Z) (room : string) : RoomCtx.rctx dmsg string :=
  mkRctx room ∅ [] false false false ∅ 0 profiles nowMs [].
(** [Module.RoomDef]'s factory: the server runs this game only. *)
Definition ddzFactory (profiles : bool) (nowMs : Z) (module room : string) : st := mkSt NewLogic (newRoom profiles nowMs room).

Variable profiles : bool.
Variable nowMs : Z.
Notation host := (@host st string (Z * dreq) P).
#[local] Instance service : RoomService host mgrErr :=
  host_service wreck otherInit otherStop otherExec (ddzFactory profiles nowMs) genRoomID now.

Lemma ddz_init cfg room : tableOf [] (Init cfg (ddzFactory profiles nowMs "doudizhu" room)).
Proof. apply (newGame_tableOf (arm (0 <? MaxDuration cfg) (newRoom profiles nowMs room))). by split_and!. Qed.

(** The players wait in an empty queue. *)
Lemma Enqueue_first sz uid rule seq (m : Maker host mgrErr) : MInv sz m → validRule rule → byUID m !! uid = None →
  zlen (arrived uid rule seq m) < Players rule → sz (queueKey rule) = Players rule →
  ∃ m', Enqueue uid rule seq m = Ok (None, m') ∧ MInv sz m' ∧ rooms m' = rooms m ∧ results m' = results m ∧
    queue m' (queueKey rule) = arrived uid rule seq m ∧ byUID m' = <[uid := queueKey rule]> (byUID m).
Proof.
  intros HI Hv Hb Hz Hs. eexists. split; [by apply Enqueue_waits|]. split; [by apply Enqueue_waits_MInv; rewrite ?Hs|].
  split_and!; try reflexivity. rewrite (queue_insert m _ _ _ _ _ _ _ eq_refl). by rewrite decide_True.
Qed.

(** C9. The doudizhu scenario from end to end: when three players with sessions
    ask for a doudizhu match one after the other, the first two wait and the
    third request opens one room, seats the three in the order they asked and
    tells each of them the room under the number of its own request; then,
    however slowly each bot reads its frames and whenever the room serves a
    request, no run of the three bots goes on for ever (as long as no turn
    timer runs out), and where a run cannot continue no request is pending,
    the game was finished by a player who got rid of all cards, the room is
    closed, the settlement moved as much gold to one side as from the other,
    and all three bots hold the same, right outcome: landlord, winner and base
    score. *)
Theorem match_to_result sz rule cfg (m : Maker host mgrErr) a b c sa sb sc :
  NoDup [a; b; c] → Forall (.≠ EmptyString) [a; b; c] →
  MInv sz m → Module_ rule = "doudizhu"%string → Players rule = 3 → sz (queueKey rule) = 3 →
  queue m (queueKey rule) = [] → (∀ u, u ∈ [a; b; c] → byUID m !! u = None ∧ sessions (rooms m) !! u = Some true) →
  defs (hmgr (rooms m)) !! "doudizhu"%string = Some cfg → (MaxPlayers cfg ≤ 0 ∨ 3 ≤ MaxPlayers cfg) →
  let room := genRoomID (serial (rooms m)) in
  LookupRoom room (reg (engine_ (hmgr (rooms m)))) = None →
  idToRoom (reg (engine_ (hmgr (rooms m)))) !! to_u64 (nextID (engine_ (hmgr (rooms m))) + 1) = None →
  ∃ m1 m2 m3 id p (cell : @cell st),
    Enqueue a rule sa m = Ok (None, m1) ∧ Enqueue b rule sb m1 = Ok (None, m2) ∧ Enqueue c rule sc m2 = Ok (None, m3) ∧
    results m3 = results m ++ [Match.mkResult a sa room None; Match.mkResult b sb room None; Match.mkResult c sc room None] ∧
    ResolveRoom room (hmgr (rooms m3)) = Some id ∧ procs (engine_ (hmgr (rooms m3))) !! id = Some p ∧ pactor p = inl cell ∧
    let t := freshTable (logic cell) [a; b; c] in
    sn tstep t ∧
    ∀ y, rtc tstep t y → nf tstep y →
      let l := lg (game y) in
      mailbox y = [] ∧ finished l = true ∧ closing (rm (game y)) = true ∧ gold (out (rm (game y))) = 0 ∧
      ∃ u pl, players l !! u = Some pl ∧ hand pl = [] ∧
        ∀ w, w ∈ [a; b; c] → ∃ k ag, bots y !! w = Some (k, ag) ∧
          agOver ag = Some (Some (Scenarios.mkOutcome (landlord l) (bool_decide (u = landlord l)) (baseScore l))).
Proof.
  intros Hnd Hne HI Hmod Hpl Hsz Hq Hu Hd Hmax room Hf Hi.
  assert (validRule rule) as Hv by (split; [rewrite Hmod; done|lia]).
  assert (a ≠ b ∧ a ≠ c ∧ b ≠ c) as (Hab & Hac & Hbc).
  { apply NoDup_cons in Hnd as [Ha Hnd]. apply NoDup_cons in Hnd as [Hb _]. set_solver. }
  destruct (Hu a) as [Ba Sa]; [by left|]. destruct (Hu b) as [Bb Sb]; [right; by left|]. destruct (Hu c) as [Bc Sc]; [do 2 right; by left|].
  destruct (Enqueue_first sz a rule sa m) as (m1 & E1 & HI1 & R1 & Rs1 & Q1 & B1); [done..| |congruence|].
  { unfold arrived. rewrite Hq, Hpl. done. }
  unfold arrived in Q1. rewrite Hq in Q1. cbn [app] in Q1.
  destruct (Enqueue_first sz b rule sb m1) as (m2 & E2 & HI2 & R2 & Rs2 & Q2 & B2); [done..| | |congruence|].
  { by rewrite B1, lookup_insert_ne. }
  { unfold arrived. rewrite Q1, Hpl. done. }
  unfold arrived in Q2. rewrite Q1 in Q2. cbn [app] in Q2.
  assert (arrived c rule sc m2 = [mkEntry a sa rule; mkEntry b sb rule; mkEntry c sc rule]) as Ha by (unfold arrived; by rewrite Q2).
  destruct (match_table wreck otherInit otherStop otherExec (ddzFactory profiles nowMs) genRoomID now tableOf "doudizhu" 3
    ddz_init tableOf_open tableOf_join sz c rule sc m2 cfg) as (m3 & id & p & cell & E3 & Rs3 & HT).
  { done. } { done. } { done. }
  { by rewrite B2, lookup_insert_ne, B1, lookup_insert_ne by congruence. }
  { rewrite Ha, Hpl. done. }
  { by rewrite Hpl. }
  { rewrite Ha, R2, R1. intros e He. rewrite !elem_of_cons, elem_of_nil in He. by destruct He as [->|[->|[->|[]]]]. }
  { by rewrite R2, R1. }
  { rewrite R2, R1. cbn [MaxPlayers roomConfig]. destruct (Z.leb_spec (MaxPlayers cfg) 0); lia. }
  { by rewrite R2, R1. }
  { by rewrite R2, R1. }
  exists m1, m2, m3, id, p, cell. rewrite R2, R1 in HT, Rs3. fold room in HT, Rs3.
  split_and!; [done|done|exact E3|by rewrite Rs3, Ha, Rs2, Rs1|exact (tb_name _ _ _ _ _ _ _ _ HT)|exact (tb_proc _ _ _ _ _ _ _ _ HT)|
    exact (tb_actor _ _ _ _ _ _ _ _ HT)|..]; pose proof (tb_seats _ _ _ _ _ _ _ _ HT) as Hst; rewrite Ha in Hst; cbn [uids map eUID] in Hst;
    apply (started_ends a b c (logic cell) Hnd Hne Hst).
Qed.
End BotMatch.

(** ** Three requests to a fresh server *)

Definition ddzRoomDef : RoomConfig := mkRoomConfig "doudizhu" 3 (600 * 10^9) (10^9) (mkPolicy 4096 FullDrop 0).
Definition ddzRule : Rule := mkRule "doudizhu" "ranked" 3.
Definition demoServer : @host st string (Z * dreq) unit :=
  mkHost (register ddzRoomDef (NewManager 0 (mkPolicy 4096 FullDrop 0) NewEngine))
    (<["a" := true]> (<["b" := true]> (<["c" := true]> ∅))) 0.
Definition sameState (_ : @payload string (Z * dreq)) (s : st) : st := s.
Definition idleActor (x : unit) : @Actor.outcome unit := Actor.mkOutcome x false false.
Definition idleExec (_ : @payload string (Z * dreq)) (x : unit) : @Actor.outcome unit := idleActor x.
Definition demoRoom (n : nat) : string := "r1".
#[local] Instance demoService : RoomService (@host st string (Z * dreq) unit) mgrErr :=
  service sameState idleActor idleActor idleExec demoRoom 0 true 0.

Lemma match_to_result_witness : ∃ m1 m2 m3 s,
  Enqueue "a" ddzRule 7 (New demoServer) = Ok (None, m1) ∧ Enqueue "b" ddzRule 8 m1 = Ok (None, m2) ∧
  Enqueue "c" ddzRule 9 m2 = Ok (None, m3) ∧
  results m3 = [Match.mkResult "a" 7 "r1" None; Match.mkResult "b" 8 "r1" None; Match.mkResult "c" 9 "r1" None] ∧
  sn tstep (freshTable s ["a"; "b"; "c"]).
Proof.
  destruct (match_to_result sameState idleActor idleActor idleExec demoRoom 0 true 0 (fun _ => 3) ddzRule ddzRoomDef (New demoServer)
    "a" "b" "c" 7 8 9) as (m1 & m2 & m3 & id & p & cell & E1 & E2 & E3 & Hr & _ & _ & _ & Hsn & _).
  - apply (bool_decide_unpack _). vm_compute. exact I.
  - apply (bool_decide_unpack _). vm_compute. exact I.
  - split.
    + intros key. apply NoDup_nil_2.
    + intros uid key. split; [discriminate|]. intros Hin. apply elem_of_nil in Hin. destruct Hin.
    + intros key. left. reflexivity.
  - reflexivity.
  - reflexivity.
  - reflexivity.
  - reflexivity.
  - intros u Hu. rewrite !elem_of_cons, elem_of_nil in Hu. destruct Hu as [->|[->|[->|[]]]]; (split; [reflexivity|vm_compute; reflexivity]).
  - vm_compute. reflexivity.
  - right. vm_compute. discriminate.
  - vm_compute. reflexivity.
  - vm_compute. reflexivity.
  - exists m1, m2, m3, (logic cell). split; [exact E1|]. split; [exact E2|]. split; [exact E3|]. split; [exact Hr|]. exact Hsn.
Defined.
