(* ===== verification/Server.v ===== *)
(** * The server assembled (internal/app/server.go, games/*/module.go, cmd/server/main.go)

    The game modules with their room definitions and routes, the message ids
    the framework itself serves, and what [Build] makes of them: the router's
    table and the room manager's.  [notifyMatchResult] turns the outcome of a
    match into the answer frame of the request. *)

From S2P Require Import Prelude Frame Proto ProtoThm Envelope GoStrings Actor RoomCtx Room GameRooms Match Router Bot.

(** ** Modules *)

Definition second : Z := 10^9.
Definition millisecond : Z := 10^6.

(** [framework.ModuleBase]. *)
Definition ModuleBase (i : Z) : Z := (0x1000 + i * 0x100) mod 2^32.

(** [framework.GameModule]: the room's configuration, its match rule, and the
    room messages with the type of the request and whether they are snapshots. *)
Record GameModule := mkModule {
  mName : string;
  mConfig : RoomConfig;
  mRule : Rule;
  mRoutes : list (Z * kind * bool) }.

Definition roomMailbox : MailboxPolicy := mkPolicy 4096 FullDrop 0.

Definition reqMove : kind := KStruct [(mkField "Dir" "varint,1,opt,name=dir,proto3" true, KInt 64)].
Definition reqCardPlay : kind := KStruct [(mkField "Idx" "varint,1,opt,name=idx,proto3" true, KInt 64)].
Definition reqAnswer : kind := KStruct [
  (mkField "Idx" "varint,1,opt,name=idx,proto3" true, KInt 64);
  (mkField "Option" "varint,2,opt,name=option,proto3" true, KInt 64)].
Definition reqCall : kind := KStruct [(mkField "Score" "varint,1,opt,name=score,proto3" true, KInt 64)].
Definition reqPlay : kind := KStruct [(mkField "IDs" "varint,1,rep,packed,name=ids,proto3" true, KSlice (KInt 64))].
Definition reqMatch : kind := KStruct [
  (mkField "Module" "bytes,1,opt,name=module,proto3" true, KString);
  (mkField "Code" "bytes,2,opt,name=code,proto3" true, KString)].
Definition reqCancel : kind := KStruct [].

Definition snakeModule : GameModule := mkModule "snake"
  (mkRoomConfig "snake" 2 (5 * 60 * second) (100 * millisecond) roomMailbox) (mkRule "snake" "ranked" 2)
  [(Snake.MsgMove, reqMove, false)].
Definition cardModule : GameModule := mkModule "card"
  (mkRoomConfig "card" 2 (2 * 60 * second) (500 * millisecond) roomMailbox) (mkRule "card" "ranked" 2)
  [(CardGame.MsgPlay, reqCardPlay, false)].
Definition quizModule : GameModule := mkModule "quiz"
  (mkRoomConfig "quiz" 2 (Quiz.Questions * Quiz.TimeLimitMS * millisecond + 30 * second) second roomMailbox) (mkRule "quiz" "ranked" 2)
  [(Quiz.MsgAnswer, reqAnswer, false)].
Definition doudizhuModule : GameModule := mkModule "doudizhu"
  (mkRoomConfig "doudizhu" 3 (10 * 60 * second) second roomMailbox) (mkRule "doudizhu" "ranked" 3)
  [(Doudizhu.MsgCall, reqCall, false); (Doudizhu.MsgPlay, reqPlay, false)].

(** The list of cmd/server/main.go. *)
Definition serverModules : list GameModule := [snakeModule; cardModule; quizModule; doudizhuModule].

(** [func() any { return &T{} }]. *)
Definition newOf (k : kind) : value := VPtr k (Some (zero k)).

(** ** Build *)

Section Build.
Context {R E : Type} `{RS : RoomService R E}.
Notation App := (Maker R E).

(** The match rules the room manager holds, for [matchRuleFor]. *)
Notation rules := (gmap string Rule).

(** The handlers of [registerFrameworkRoutes]: they take the request type they
    registered, any other value is a failed type assertion. *)
Definition matchHandler (defs : rules) : HandlerFunc (runtime * App) := fun ctx req w =>
  match req with
  | VPtr _ (Some (VStruct [(_, VString m); (_, VString c)])) =>
      match handleMatch defs (cUID ctx) (unstr m) (unstr c) (cSeq ctx) w.2 with
      | Ok (e, mk) => Ret (None, HCode <$> e) (w.1, mk)
      | Panic => Pan w
      | OutOfFuel => Hang
      end
  | _ => Pan w
  end.
Definition cancelHandler : HandlerFunc (runtime * App) := fun _ _ w => Ret (Some (VStruct []), None) w.

Definition MsgMatch : Z := 0x0100.
Definition MsgMatchCancel : Z := 0x0101.

Definition registerFrameworkRoutes (defs : rules) (r : @Router App) : @Router App :=
  let r := Register MsgMatch (newOf reqMatch) (matchHandler defs) r in
  Register MsgMatchCancel (newOf reqCancel) cancelHandler r.

Definition RegisterRoutes (m : GameModule) (r : @Router App) : @Router App :=
  fold_left (fun r '(id, k, snap) => RegisterRoom id (newOf k) snap r) (mRoutes m) r.

(** A room definition without a name takes the module's. *)
Definition roomDef (m : GameModule) : RoomConfig :=
  let c := mConfig m in
  if decide (cfgModule c = EmptyString)
  then mkRoomConfig (mName m) (MaxPlayers c) (MaxDuration c) (TickInterval c) (Mailbox c) else c.

(** The module loop of [Build]: the room definitions, the match rules among
    them, and the routes. *)
Definition loadModules (ms : list GameModule) (defs : modules) (r : @Router App) : modules * @Router App :=
  fold_left (fun '(defs, r) m => (RegisterModule (roomDef m) defs, RegisterRoutes m r)) ms (defs, r).
Definition moduleRules (ms : list GameModule) : rules :=
  fold_left (fun d m => <[cfgModule (roomDef m) := mRule m]> d) ms ∅.

(** The tables of the server; the options of the router are the default ones. *)
Definition Build (ms : list GameModule) : modules * @Router App :=
  loadModules ms ∅ (registerFrameworkRoutes (moduleRules ms) (Router.New [])).
End Build.

(** ** The answer to a match request *)

Definition respMatch (roomID : string) : list (finfo * value) := [
  (mkField "RoomID" "bytes,1,opt,name=room_id,proto3" true, VString (str roomID))].

(** [codec]: the codec of the player's session, if there is one; the result is
    the frame handed to [sess.Send]. *)
Definition notifyMatchResult (cs : codecs) (codec : option Z) (seq : Z) (roomID : string) (merr : option herr) : res (option Frame) :=
  match codec with
  | None => Ok None
  | Some typ =>
      let m := match merr with
               | Some e => NewErrorFrameFor cs typ MsgMatch seq (ecCode (asErrCode e)) (ecMsg (asErrCode e)) None
               | None => NewOKFrameFor cs typ MsgMatch seq (Some (VStruct (respMatch roomID)))
               end in
      match m with
      | Ok (inr f) => Ok (Some f)
      | Ok (inl _) => Ok None
      | Panic => Panic
      | OutOfFuel => OutOfFuel
      end
  end.

(** ** Stopping *)

(** The calls of [Shutdown], in order: the admin server and the WebSocket
    acceptor are optional. *)
Inductive stopCall := SetReady (b : bool) | CloseTCP | CloseWS | StopActors | StopAdmin | CloseStorage.
Definition Shutdown (admin ws : bool) : list stopCall :=
  (if admin then [SetReady false] else []) ++ [CloseTCP] ++ (if ws then [CloseWS] else []) ++ [StopActors] ++
  (if admin then [StopAdmin] else []) ++ [CloseStorage].
