(* ===== verification/ServerThm.v ===== *)
(** * What the assembled server promises its clients

    [requests_understood]: the request a bench client sends is, after the
    router's decoding, the request it meant; the other lemmas say that the
    modules do not take each other's message ids, that a full table of a match
    fits in the room opened for it, and that the outcome of a match answers
    the request. *)

From S2P Require Import Prelude Frame ProtoWire Proto ProtoThm Envelope GoStrings Actor RoomCtx Room Match Router Bot Server.

Section Server.
Context {R E : Type} `{RS : RoomService R E}.
Notation built := (Build serverModules).2.

(** ** Routes *)

(** Every message id of a module lies in the module's segment, the place of
    the module in the list of main.go. *)
Lemma module_segments i m : serverModules !! i = Some m →
  Forall (λ '(id, _, _), ModuleBase (Z.of_nat i) ≤ id < ModuleBase (Z.of_nat i) + 0x100) (mRoutes m).
Proof.
  intros Hm. destruct i as [|[|[|[|i]]]]; cbn in Hm; simplify_eq; repeat (apply Forall_cons_2; [vm_compute; split; congruence|]); by apply Forall_nil_2.
Qed.

(** The ids are all different, so each route is the one its module declared. *)
Lemma module_routes i m id k snap : serverModules !! i = Some m → (id, k, snap) ∈ mRoutes m →
  routes built !! id = Some (mkRoute (newOf k) targetRoom snap None).
Proof.
  intros Hm Hin. destruct i as [|[|[|[|i]]]]; cbn in Hm; simplify_eq; cbn in Hin; rewrite ?elem_of_cons, elem_of_nil in Hin;
    destruct_or!; try done; simplify_eq; reflexivity.
Qed.
Lemma framework_routes :
  routes built !! MsgMatch = Some (mkRoute (newOf reqMatch) targetPlayer false (Some (matchHandler (moduleRules serverModules)))) ∧
  routes built !! MsgMatchCancel = Some (mkRoute (newOf reqCancel) targetPlayer false (Some cancelHandler)).
Proof. split; reflexivity. Qed.

(** A matched table fits in the room opened for it, whatever the code of the
    request and the defaults of the room manager. *)
Lemma tables_fit m code tick pol : m ∈ serverModules →
  let rule := matchRuleFor (moduleRules serverModules) (mName m) code in
  ∃ cfg, ((Build serverModules).1 : modules) !! Module_ rule = Some cfg ∧
    rCode rule = code ∧ 0 < Players rule ∧ Players rule = MaxPlayers (roomConfig tick pol (Module_ rule) cfg).
Proof.
  unfold serverModules. rewrite !elem_of_cons, elem_of_nil. intros Hm. destruct_or!; subst; try done;
    (eexists; split; [vm_compute; reflexivity|]; split; [reflexivity|]; split; [vm_compute; reflexivity|reflexivity]).
Qed.

(** ** Requests *)

(** A Go int. *)
Definition int64 (z : Z) : Prop := - 2^63 ≤ z < 2^63.

(** What the bots send to this server, under which message id. *)
Inductive request : Z → list (finfo * value) → Prop :=
| rq_match module code : request MsgMatch (matchReq module code)
| rq_move dir : int64 dir → request 0x1000 (moveReq dir)
| rq_call score : int64 score → request 0x1300 (callReq score)
| rq_play ids : Forall int64 ids → request 0x1301 (playReq ids).

Lemma fieldOK_list ok f e l ft fn :
  String.eqb (Tag f) "" = false → exported f = true → parseProtoTag (Tag f) = inr (ft, fn, true) →
  validNumber fn → Forall (λ x, typeOf x = e ∧ ok ft x) l → fieldOK ok f (VSlice e l).
Proof. intros Ht He Hp Hn Hl. unfold fieldOK. rewrite Ht, He, Hp. split; [done|]. by apply allP_Forall. Qed.

Lemma request_message id fs : request id fs → message fs.
Proof.
  intros [m c|d Hd|sc Hs|ids Hids]; (split; [apply (bool_decide_unpack _); vm_compute; exact I|]); repeat apply Forall_cons_2; try apply Forall_nil_2; cbn [fst snd].
  - apply (fieldOK_single _ _ _ "bytes" 1); [done..|unfold validNumber; lia|done|]. by right.
  - apply (fieldOK_single _ _ _ "bytes" 2); [done..|unfold validNumber; lia|done|]. by right.
  - apply (fieldOK_single _ _ _ "varint" 1); [done..|unfold validNumber; lia|done|]. right. split_and!; [done|by right; right; right|apply Hd|apply Hd].
  - apply (fieldOK_single _ _ _ "varint" 1); [done..|unfold validNumber; lia|done|]. right. split_and!; [done|by right; right; right|apply Hs|apply Hs].
  - apply (fieldOK_list _ _ _ _ "varint" 1); [done..|unfold validNumber; lia|]. apply Forall_map. eapply Forall_impl; [exact Hids|].
    intros x Hx. split; [done|]. split_and!; [done|by right; right; right|apply Hx|apply Hx].
Qed.

(** The request type the router decodes into is the one the bot encodes. *)
Lemma request_type id fs : request id fs → ∃ entry, routes built !! id = Some entry ∧
  factory entry = VPtr (typeOf (VStruct fs)) (Some (zero (typeOf (VStruct fs)))).
Proof.
  intros [m c|d Hd|sc Hs|ids Hids]; (eexists; split; [reflexivity|]); reflexivity.
Qed.

(** Bench client and server agree on the wire: whatever codec the two use,
    as long as it is lawful, every match request, turn, bid and play a bot
    sends (a nil list of cards is a pass) reaches a route of the assembled
    server, and what the router decodes the body into is the request the bot
    was asked to send, with the same fields and values. *)
Theorem requests_understood c id fs : LawfulCodec c → request id fs →
  ∃ entry bs, routes built !! id = Some entry ∧ cMarshal c (ptr fs) = ret bs ∧
    (zlen bs < 2^63 → cUnmarshal c bs (factory entry) = ret (VPtr (typeOf (VStruct fs)) (Some (VStruct fs)))).
Proof.
  intros HL Hr. destruct (request_type id fs Hr) as (entry & He & Hf).
  destruct (lawful (c := c) (typeOf (VStruct fs)) fs (request_message id fs Hr)) as (bs & Hm & Hu).
  exists entry, bs. split; [done|]. split; [exact Hm|]. intros Hz. rewrite Hf. by apply Hu.
Qed.
End Server.

(** ** The outcome of a match *)

Lemma respMatch_message room : message (respMatch room).
Proof.
  split; [apply (bool_decide_unpack _); vm_compute; exact I|]. repeat apply Forall_cons_2; try apply Forall_nil_2. cbn [fst snd].
  apply (fieldOK_single _ _ _ "bytes" 1); [done..|unfold validNumber; lia|done|]. by right.
Qed.

(** A failed match is answered with its error, under the number of the request. *)
Lemma notify_error cs typ c seq room e : cs !! typ = Some c → LawfulCodec c → 0 ≤ typ < 16 → u32 seq → u16 (ecCode (asErrCode e)) →
  ∃ f, notifyMatchResult cs (Some typ) seq room (Some e) = Ok (Some f) ∧ Frame.MsgID f = MsgMatch ∧ Frame.Seq f = seq ∧ CodecType f = typ ∧
    (zlen (Frame.Body f) < 2^63 → ∃ msg, DecodeEnvelope cs f = Ok (inr (Some (mkEnvelope seq (ecCode (asErrCode e)) msg [])))).
Proof.
  intros Hc HL Ht Hs Hcode. destruct (frame_decodes cs typ c MsgMatch seq (ecCode (asErrCode e)) (ecMsg (asErrCode e)) None [])
    as (f & Hf & H1 & H2 & H3 & H4); try done.
  exists f. unfold notifyMatchResult. rewrite Hf. split_and!; [done..|]. intros Hz. eexists. by apply H4.
Qed.

(** ** A play on the wire *)

#[local] Instance noRooms : RoomService unit unit := {|
  CreateRoom _ r := Ok (inl (), r); Join _ _ r := Ok (Some (), r); Leave _ _ r := Ok r |}.

Lemma requests_understood_witness : ∃ bs entry,
  routes (Build (RS := noRooms) serverModules).2 !! 0x1301 = Some entry ∧
  cMarshal ProtoCodec (ptr (playReq [3; 300])) = ret bs ∧ bs = [8; 3; 8; 172; 2] ∧
  cUnmarshal ProtoCodec bs (factory entry) = ret (VPtr reqPlay (Some (VStruct (playReq [3; 300])))).
Proof.
  destruct (requests_understood (RS := noRooms) ProtoCodec 0x1301 (playReq [3; 300])) as (entry & bs & He & Hm & Hu).
  - apply ProtoCodec_lawful.
  - apply rq_play. repeat constructor; vm_compute; congruence.
  - exists bs, entry. split; [exact He|]. split; [exact Hm|].
    assert (bs = [8; 3; 8; 172; 2]) as Hb by (vm_compute in Hm; congruence). split; [exact Hb|].
    apply Hu. rewrite Hb. vm_compute. reflexivity.
Defined.
