(* ===== verification/ClusterLink.v ===== *)
(** * Node connections follow the registry (internal/app/role.go, gateway/gateway.go)

    [wireTransportWarmup] watches the node registry and keeps the transport's
    connections in step: a peer that becomes active is dialed ahead of the
    first frame, one that drains or goes down is removed.  The calls it makes
    on the transport are [cmds]; what they mean there is NodeLink.v. *)

From S2P Require Import Prelude Inner NodeLink Redis Registry RegistryThm.

(** ** Assembly *)

(** [registryPeerProvider.Get]: the address the node registered. *)
Definition peerAddr (r : MemRegistry) (id : string) : locking (option string) :=
  match Get id r with
  | Returns (inr n) => Returns (Some (Addr n))
  | Returns (inl _) => Returns None
  | Blocks => Blocks
  end.

Inductive transportKind := MemTransport | TCPTransport (listenAddr : string).
Inductive routesKind := OwnRoutes | GivenRoutes.
(** [buildClusterGateway]; [listens] says whether the address can be bound. *)
Definition buildClusterGateway (internalAddr : string) (routes listens : bool) : option (transportKind * routesKind) :=
  let rk := if routes then GivenRoutes else OwnRoutes in
  if decide (internalAddr = EmptyString) then Some (MemTransport, rk)
  else if listens then Some (TCPTransport internalAddr, rk) else None.

Section Warmup.
Context (localID peerRole : string).

Inductive cmd := CWarmup (id : string) | CRemovePeer (id : string).

Definition isPeer (id : string) (r : MemRegistry) : locking bool :=
  if decide (id = localID) then Returns false else
  match Get id r with
  | Returns (inr n) => Returns (bool_decide (Role n = peerRole))
  | Returns (inl _) => Returns false
  | Blocks => Blocks
  end.

(** The first scan, and the handling of one event. *)
Definition warmAll (r : MemRegistry) : locking (list cmd) :=
  match List_ peerRole true r with
  | Returns ns => Returns (CWarmup <$> filter (.≠ localID) (ID <$> ns))
  | Blocks => Blocks
  end.
Definition onChange (ev : ChangeEvent) (r : MemRegistry) : locking (list cmd) :=
  if decide (New ev = StateActive) then
    match isPeer (NodeID ev) r with
    | Returns b => Returns (if b then [CWarmup (NodeID ev)] else [])
    | Blocks => Blocks
    end
  else if decide (New ev = StateDown ∨ New ev = StateDraining) then Returns [CRemovePeer (NodeID ev)]
  else Returns [].

(** [range evCh]: the oldest event of the channel. *)
Definition recv (ch : nat) (r : MemRegistry) : option (ChangeEvent * MemRegistry) :=
  match chanBuf r !! ch with
  | Some (ev :: q) => Some (ev, mkReg (nodes r) (chans r) (<[ch := q]> (chanBuf r)) (chanClosed r) (nextChan r) (closed r) (mu r))
  | _ => None
  end.

Record link := mkLink { reg : MemRegistry; watch : nat; cmds : list cmd; scanned : bool }.

(** A transport without [Warmup] is left alone; else subscribe, then scan. *)
Definition wireTransportWarmup (warmer : bool) (r : MemRegistry) : locking (option link) :=
  if negb warmer then Returns None else
  match Watch r with
  | Returns (ch, r) => Returns (Some (mkLink r ch [] false))
  | Blocks => Blocks
  end.

(** The peers the transport has been told to keep a connection to. *)
Definition apply (W : gset string) (c : cmd) : gset string :=
  match c with CWarmup id => {[id]} ∪ W | CRemovePeer id => W ∖ {[id]} end.
Definition wanted (cs : list cmd) : gset string := fold_left apply cs ∅.

(** ** Interleaving *)

Definition removal (s : Z) : Prop := s = StateDown ∨ s = StateDraining.
#[local] Instance removal_dec s : Decision (removal s).
Proof. unfold removal. apply _. Defined.

(** A node keeps its role, and is drained before it is marked so: the order of
    [DrainController]. *)
Variable roleOf : string → string.
Definition roles (r : MemRegistry) : Prop := ∀ id n, nodes r !! id = Some n → Role n = roleOf id.
Definition orderly (r : MemRegistry) (ev : option ChangeEvent) : Prop :=
  ∀ e, ev = Some e → New e = StateActive ∨ removal (New e) ∨ view r (NodeID e) ≠ StateActive.

(** The nodes' calls, before the watch is set up. *)
Inductive cstep (c c' : conf) : Prop :=
| cs_change ev : rchange c ev c' → roles c'.1 → orderly c.1 ev → cstep c c'
| cs_publish e : rpublish c e c' → cstep c c'.

(** The goroutine of the watch (scan, then one change after the other) among the
    calls of the nodes on the in-process registry; the state holds the changes
    not yet published.  No more than 64 changes wait in the channel. *)
Inductive lstep : link * list ChangeEvent → link * list ChangeEvent → Prop :=
| ls_change ev l p r' p' : rchange (reg l, p) ev (r', p') → roles r' → orderly (reg l) ev →
    lstep (l, p) (mkLink r' (watch l) (cmds l) (scanned l), p')
| ls_publish e l p r' p' q : rpublish (reg l, p) e (r', p') → chanBuf (reg l) !! watch l = Some q → zlen q < 64 →
    lstep (l, p) (mkLink r' (watch l) (cmds l) (scanned l), p')
| ls_scan cs l p : scanned l = false → warmAll (reg l) = Returns cs → lstep (l, p) (mkLink (reg l) (watch l) (cmds l ++ cs) true, p)
| ls_event ev r' cs l p : scanned l = true → recv (watch l) (reg l) = Some (ev, r') → onChange ev r' = Returns cs →
    lstep (l, p) (mkLink r' (watch l) (cmds l ++ cs) true, p).

(** The changes under way (in the channel, then not yet published), as a chain
    of states per node. *)
Fixpoint chain (v : string → Z) (q : list ChangeEvent) : Prop :=
  match q with
  | [] => True
  | e :: q => (New e = StateActive ∨ removal (New e) ∨ v (NodeID e) ≠ StateActive) ∧ chain (apply1 v e) q
  end.

Definition changes (n : string) (P : Z → Prop) (q : list ChangeEvent) : Prop := ∃ e, e ∈ q ∧ NodeID e = n ∧ P (New e).

(** Of the calls: [w] are the changes since the nodes were as [v] says. *)
Record CInv (v : string → Z) (w p : list ChangeEvent) (r : MemRegistry) : Prop := {
  ci_open : ROpen r;
  ci_once : NoDup (NodeID <$> p);
  ci_view id : view r id = replay v w id;
  ci_chain : chain v w }.

(** Of the link: [q] is unread, [p] not yet published. *)
Record LInv (v : string → Z) (q p : list ChangeEvent) (l : link) : Prop := {
  li_calls : CInv v (q ++ p) p (reg l);
  li_chan : watch l ∈ chans (reg l);
  li_buf : chanBuf (reg l) !! watch l = Some q;
  li_roles : roles (reg l);
  li_peer n : n ∈ wanted (cmds l) → n ≠ localID ∧ roleOf n = peerRole;
  li_gone n : n ∈ wanted (cmds l) → view (reg l) n = StateActive ∨ changes n removal (q ++ p);
  li_kept n : scanned l = true → n ≠ localID → roleOf n = peerRole → view (reg l) n = StateActive →
    n ∈ wanted (cmds l) ∨ changes n (.= StateActive) (q ++ p);
  li_first : scanned l = false → cmds l = [] }.

Lemma replay_last v q n : replay v q n = v n ∨ changes n (.= replay v q n) q.
Proof.
  induction q as [|e q IH] using rev_ind; [by left|]. unfold replay. rewrite foldl_snoc. fold (replay v q). unfold apply1 at 1 2.
  case_decide as E.
  - right. exists e. split; [apply elem_of_app; right; by left|]. by rewrite E.
  - destruct IH as [IH|(x & Hx & H1 & H2)]; [by left|right]. exists x. split; [apply elem_of_app; by left|done].
Qed.

(** A node that stops being active is removed on the way. *)
Lemma chain_removal v q n : chain v q → v n = StateActive → replay v q n ≠ StateActive → changes n removal q.
Proof.
  revert v. induction q as [|e q IH]; intros v; [by intros _ ? []|]. intros [He Hc] Hv Hr. destruct (decide (NodeID e = n)) as [<-|Hne].
  - destruct He as [He|[He|He]]; [|exists e; split; [by left|done]|done].
    destruct (IH (apply1 v e) Hc) as (x & Hx & H1 & H2); [unfold apply1; by rewrite decide_True|done|]. exists x. split; [by right|done].
  - destruct (IH (apply1 v e) Hc) as (x & Hx & H1 & H2); [unfold apply1; by rewrite decide_False by congruence|done|]. exists x. split; [by right|done].
Qed.

Lemma chain_snoc v q e : chain v q → (New e = StateActive ∨ removal (New e) ∨ replay v q (NodeID e) ≠ StateActive) → chain v (q ++ [e]).
Proof. revert v. induction q as [|x q IH]; intros v; cbn; [tauto|]. intros [H1 H2] H3. split; [done|]. by apply IH. Qed.

Lemma wanted_app cs cs' : wanted (cs ++ cs') = fold_left apply cs' (wanted cs).
Proof. apply fold_left_app. Qed.
Lemma wanted_warm ids W n : n ∈ fold_left apply (CWarmup <$> ids) W ↔ n ∈ W ∨ n ∈ ids.
Proof.
  revert W. induction ids as [|i ids IH]; intros W; cbn; [split; [by left|intros [?|?%elem_of_nil]; done]|].
  rewrite IH. rewrite elem_of_union, elem_of_singleton, elem_of_cons. tauto.
Qed.

Lemma changes_app n (Q : Z → Prop) q q' : changes n Q q → changes n Q (q ++ q').
Proof. intros (e & He & H). exists e. split; [apply elem_of_app; by left|done]. Qed.

Lemma chain_app v a b : chain v (a ++ b) ↔ chain v a ∧ chain (replay v a) b.
Proof. revert v. induction a as [|x a IH]; intros v; cbn; [tauto|]. rewrite IH. tauto. Qed.
Lemma chain_ext f g w : (∀ i, f i = g i) → chain f w → chain g w.
Proof.
  revert f g. induction w as [|e w IH]; intros f g Hg; [done|]. cbn. rewrite Hg. intros [H1 H2]. split; [done|].
  eapply IH; [|exact H2]. intros i. unfold apply1. by case_decide.
Qed.
(** A change overtakes those of other nodes. *)
Lemma chain_move v p1 e p2 : NodeID e ∉ (NodeID <$> p1) → chain v (p1 ++ e :: p2) → chain v (e :: p1 ++ p2).
Proof.
  revert v. induction p1 as [|x p1 IH]; intros v Hne; [done|]. rewrite fmap_cons, not_elem_of_cons in Hne. destruct Hne as [Hx Hne].
  cbn. intros [H1 H2]. apply (IH _ Hne) in H2. cbn in H2. destruct H2 as [H2 H3].
  unfold apply1 in H2 at 1. rewrite decide_False in H2 by done. split; [done|]. split.
  - unfold apply1. by rewrite decide_False by congruence.
  - eapply chain_ext; [|exact H3]. intros i. unfold apply1. repeat case_decide; congruence.
Qed.

Lemma change_CInv v w p r ev r' p' : CInv v w p r → rchange (r, p) ev (r', p') → orderly r ev →
  CInv v (w ++ option_list ev) p' r'.
Proof.
  intros [Ho Hd Hv Hc] H Hor. inversion H as [? ? ? ? Hl Hf]; subst. destruct (lcall_tracks O _ _ _ Ho Hl) as (Ho' & Hv' & _).
  split; [done|by apply fresh_NoDup| |].
  - intros id. rewrite Hv', replay_app. by apply replay_ext.
  - destruct ev as [e|]; cbn; [|by rewrite app_nil_r]. apply chain_snoc; [done|]. rewrite <- Hv. by apply Hor.
Qed.

Lemma publish_CInv v q p r e r' p' : CInv v (q ++ p) p r → rpublish (r, p) e (r', p') →
  CInv v ((q ++ [e]) ++ p') p' r' ∧ q ++ p ≡ₚ (q ++ [e]) ++ p' ∧ nodes r' = nodes r.
Proof.
  intros [Ho Hd Hv Hc] H. inversion H as [? p1 ? p2 ? _ Hp]; subst. destruct (publish_tracks O _ _ _ Ho Hp) as (Ho' & Hn & _).
  apply NoDup_drop in Hd as [Hne Hd]. rewrite <- (assoc_L app). split; [split; [done|done| |]|split; [|done]].
  - intros id. transitivity (view r id); [unfold view; by rewrite Hn|]. rewrite Hv, (replay_app v q (p1 ++ _)), (replay_app v q ([e] ++ _)). by apply replay_move.
  - apply chain_app in Hc as [H1 H2]. apply chain_app. split; [done|]. exact (chain_move _ _ _ _ Hne H2).
  - by rewrite <- Permutation_middle.
Qed.

Lemma start_CInv c c' : rtc cstep c c' → (∃ v, CInv v c.2 c.2 c.1) → ∃ v, CInv v c'.2 c'.2 c'.1.
Proof.
  induction 1 as [|c c1 c2 Hs _ IH]; [done|]. intros [v HI]. apply IH. destruct c as [r p], c1 as [r1 p1]. cbn [fst snd] in *.
  destruct Hs as [ev Hc _ Hor|e Hp]; cbn [fst] in *.
  - exists v. pose proof (change_CInv _ _ _ _ _ _ _ HI Hc Hor) as H1. inversion Hc; subst. exact H1.
  - destruct (publish_CInv v [] _ _ _ _ _ HI Hp) as ([Ho Hd Hv [_ Hc]] & _). exists (apply1 v e). by split.
Qed.

Lemma change_LInv v q p l ev r' p' : LInv v q p l → rchange (reg l, p) ev (r', p') → roles r' → orderly (reg l) ev →
  LInv v q p' (mkLink r' (watch l) (cmds l) (scanned l)).
Proof.
  intros [] Hc Hr Ho. pose proof (change_CInv _ _ _ _ _ _ _ li_calls0 Hc Ho) as HC. inversion Hc as [? ? ? ? Hl _]; subst.
  destruct (lcall_tracks (watch l) _ _ _ (ci_open _ _ _ _ li_calls0) Hl) as (_ & Hv & Hb). destruct (Hb li_chan0) as [Hch Hbuf].
  rewrite <- (assoc_L app) in HC.
  split; cbn [reg watch cmds scanned]; rewrite ?(assoc_L app); try done.
  - by rewrite <- (assoc_L app).
  - congruence.
  - intros n Hn. destruct (li_gone0 n Hn) as [Ha|Hq]; [|right; by apply changes_app]. rewrite Hv. destruct ev as [e|]; cbn; [|by left].
    unfold apply1. case_decide as E; [subst n|by left]. destruct (Ho e eq_refl) as [H1|[H1|H1]]; [by left| |done].
    right. exists e. split; [apply elem_of_app; right; by left|done].
  - intros n Hs Hl' Hp Ha. rewrite Hv in Ha. destruct ev as [e|]; cbn in Ha.
    + unfold apply1 in Ha. case_decide as E.
      * right. exists e. split; [apply elem_of_app; right; by left|done].
      * destruct (li_kept0 n Hs Hl' Hp Ha) as [?|?]; [by left|right; by apply changes_app].
    + destruct (li_kept0 n Hs Hl' Hp Ha) as [?|?]; [by left|right; by apply changes_app].
Qed.

Lemma publish_LInv v q p l e r' p' : LInv v q p l → rpublish (reg l, p) e (r', p') → zlen q < 64 →
  LInv v (q ++ [e]) p' (mkLink r' (watch l) (cmds l) (scanned l)).
Proof.
  intros [] Hp Hz. destruct (publish_CInv _ _ _ _ _ _ _ li_calls0 Hp) as (HC & HP & Hn).
  inversion Hp as [? ? ? ? ? _ Hpub]; subst.
  destruct (publish_tracks (watch l) _ _ _ (ci_open _ _ _ _ li_calls0) Hpub) as (_ & _ & Hb). destruct (Hb li_chan0) as [Hch Hbuf].
  assert (∀ n Q, changes n Q (q ++ p1 ++ e :: p2) → changes n Q ((q ++ [e]) ++ p1 ++ p2)) as Hmove.
  { intros n Q (x & Hx & H). exists x. split; [by rewrite <- HP|done]. }
  assert (∀ n, view r' n = view (reg l) n) as Hv by (intros n; unfold view; by rewrite Hn).
  split; cbn [reg watch cmds scanned]; try done.
  - rewrite (Hbuf _ li_buf0). unfold pushTo. by rewrite decide_True.
  - intros id n. rewrite Hn. apply li_roles0.
  - intros n Hin. rewrite Hv. destruct (li_gone0 n Hin) as [?|?]; [by left|right; by apply Hmove].
  - intros n Hs Hl Hro. rewrite Hv. intros Ha. destruct (li_kept0 n Hs Hl Hro Ha) as [?|?]; [by left|right; by apply Hmove].
Qed.

Lemma view_active r n : view r n = StateActive → ∃ x, nodes r !! n = Some x ∧ State x = StateActive.
Proof. unfold view. destruct (nodes r !! n) as [x|]; cbn; [eauto|done]. Qed.

Hypothesis peerRole_set : peerRole ≠ EmptyString.

Lemma scan_LInv v q p l cs : LInv v q p l → scanned l = false → warmAll (reg l) = Returns cs →
  LInv v q p (mkLink (reg l) (watch l) (cmds l ++ cs) true).
Proof.
  intros [] Hs Hw. pose proof (ci_open _ _ _ _ li_calls0) as li_open0. unfold warmAll, List_ in Hw. destruct (locked _ _) as [ns|] eqn:El; [|done]. injection Hw as <-.
  apply locked_Returns in El as [<- _]. rewrite (li_first0 Hs). cbn [app].
  assert (∀ n, n ∈ wanted (CWarmup <$> filter (.≠ localID) (ID <$> filter (λ n, selects peerRole true n = true) (map_to_list (nodes (reg l))).*2)) ↔
    n ≠ localID ∧ ∃ x, nodes (reg l) !! n = Some x ∧ Role x = peerRole ∧ State x = StateActive) as Hin.
  { intros n. unfold wanted. rewrite wanted_warm, elem_of_empty, list_elem_of_filter, list_elem_of_fmap. split.
    - intros [[]|(Hn & x & -> & Hx)]. apply list_elem_of_filter in Hx as [Hsel Hx]. apply list_elem_of_fmap in Hx as ([k y] & -> & Hk).
      apply elem_of_map_to_list in Hk. pose proof (ro_ids _ li_open0 _ _ Hk) as Hid. cbn in *. split; [done|]. exists y. rewrite Hid.
      split; [done|]. unfold selects in Hsel. apply andb_prop in Hsel as [H1 H2]. cbn in H2. apply bool_decide_eq_true in H2.
      split; [|done]. apply orb_prop in H1 as [H1|H1]; apply bool_decide_eq_true in H1; [by destruct peerRole_set|done].
    - intros (Hn & x & Hx & H1 & H2). right. split; [done|]. exists x. split; [symmetry; by apply (ro_ids _ li_open0)|].
      apply list_elem_of_filter. split.
      + unfold selects. rewrite (bool_decide_eq_true_2 _ H1), (bool_decide_eq_true_2 _ H2). by rewrite orb_true_r.
      + apply list_elem_of_fmap. exists (n, x). split; [done|]. by apply elem_of_map_to_list. }
  split; cbn [reg watch cmds scanned]; try done.
  - intros n (Hn & x & Hx & H1 & H2)%Hin. split; [done|]. rewrite <- H1. symmetry. by apply li_roles0.
  - intros n (Hn & x & Hx & H1 & H2)%Hin. left. unfold view. by rewrite Hx.
  - intros n _ Hl Hp Ha. left. apply Hin. split; [done|]. apply view_active in Ha as (x & Hx & Hst). exists x. split_and!; [done| |done].
    rewrite <- Hp. by apply li_roles0.
Qed.

Lemma event_LInv v q p l e r' cs : LInv v q p l → scanned l = true → recv (watch l) (reg l) = Some (e, r') → onChange e r' = Returns cs →
  ∃ q', q = e :: q' ∧ LInv (apply1 v e) q' p (mkLink r' (watch l) (cmds l ++ cs) true).
Proof.
  intros [] Hs Hr Hc. unfold recv in Hr. rewrite li_buf0 in Hr. destruct q as [|e' q']; [done|]. injection Hr as -> <-.
  exists q'. split; [done|]. destruct li_calls0 as [li_open0 li_once0 li_view0 li_chain0]. set (r' := mkReg _ _ _ _ _ _ _) in *. destruct li_chain0 as [Hev Hch].
  assert (∀ n, view r' n = view (reg l) n) as Hvr by done.
  assert (view (reg l) (NodeID e) = New e ∨ changes (NodeID e) (.= view (reg l) (NodeID e)) (q' ++ p)) as Hlast.
  { rewrite li_view0. destruct (replay_last (apply1 v e) (q' ++ p) (NodeID e)) as [H1|H1]; [left|right; exact H1].
    cbn. etrans; [exact H1|]. unfold apply1. by rewrite decide_True. }
  assert (∀ n (Q : Z → Prop), changes n Q (e :: q' ++ p) → n ≠ NodeID e ∨ ¬ Q (New e) → changes n Q (q' ++ p)) as Htail.
  { intros n Q (x & Hx & H1 & H2) Hne. apply elem_of_cons in Hx as [->|Hx]; [destruct Hne as [?|?]; congruence|]. by exists x. }
  (* what the event does to the wanted peers *)
  assert (∃ W, wanted (cmds l ++ cs) = W ∧
    ((New e = StateActive ∧ ((NodeID e ≠ localID ∧ roleOf (NodeID e) = peerRole ∧ is_Some (nodes (reg l) !! NodeID e) ∧ W = {[NodeID e]} ∪ wanted (cmds l)) ∨
       ((NodeID e = localID ∨ roleOf (NodeID e) ≠ peerRole ∨ nodes (reg l) !! NodeID e = None) ∧ W = wanted (cmds l)))) ∨
     (removal (New e) ∧ W = wanted (cmds l) ∖ {[NodeID e]}) ∨
     (New e ≠ StateActive ∧ ¬ removal (New e) ∧ W = wanted (cmds l)))) as (W & HW & Hcase).
  { eexists. split; [reflexivity|]. rewrite wanted_app. unfold onChange, isPeer in Hc. destruct (decide (New e = StateActive)) as [Ha|Ha].
    - left. split; [done|]. destruct (decide (NodeID e = localID)) as [El|El]; [injection Hc as <-; right; by split; [left|]|].
      unfold Get, locked in Hc. destruct (mu r'); [done|]. cbn [nodes r'] in Hc. destruct (nodes (reg l) !! NodeID e) as [x|] eqn:Ex.
      + injection Hc as <-. pose proof (li_roles0 _ _ Ex) as Hx. case_bool_decide as Hp; [left|right].
        * split_and!; [done|congruence|by eexists|reflexivity].
        * split; [right; left; congruence|reflexivity].
      + injection Hc as <-. right. split; [by right; right|reflexivity].
    - destruct (decide (New e = StateDown ∨ New e = StateDraining)) as [Hd|Hd]; injection Hc as <-; right; [left|right]; by split_and!. }
  split; cbn [reg watch cmds scanned]; rewrite ?HW; try done.
  - split; [by destruct li_open0|done..].
  - subst r'. cbn [chanBuf]. by rewrite lookup_insert_eq.
  - intros n Hn. destruct Hcase as [[Ha [(H1 & H2 & _ & ->)|[_ ->]]]|[[Hd ->]|(_ & _ & ->)]]; [|by apply li_peer0|..].
    + apply elem_of_union in Hn as [->%elem_of_singleton|Hn]; [done|by apply li_peer0].
    + apply elem_of_difference in Hn as [Hn _]. by apply li_peer0.
    + by apply li_peer0.
  - intros n Hn. rewrite Hvr. destruct (decide (view (reg l) n = StateActive)) as [Hact|Hact]; [by left|right].
    destruct (decide (n = NodeID e)) as [->|Hne].
    + destruct Hcase as [[Ha _]|[[Hd ->]|(H1 & H2 & ->)]].
      * apply (chain_removal (apply1 v e)); [done| |].
        -- unfold apply1. by rewrite decide_True.
        -- rewrite li_view0 in Hact. exact Hact.
      * apply elem_of_difference in Hn as [_ []]. by apply elem_of_singleton.
      * destruct (li_gone0 _ Hn) as [?|Hg]; [done|]. apply (Htail _ _ Hg). by right.
    + assert (n ∈ wanted (cmds l)) as Hn'.
      { destruct Hcase as [[Ha [(H1 & H2 & _ & ->)|[_ ->]]]|[[Hd ->]|(_ & _ & ->)]]; [|done|..|done].
        - apply elem_of_union in Hn as [Hn%elem_of_singleton|Hn]; done.
        - by apply elem_of_difference in Hn as [Hn _]. }
      destruct (li_gone0 _ Hn') as [?|Hg]; [done|]. apply (Htail _ _ Hg). by left.
  - intros n _ Hl Hp Ha. rewrite Hvr in Ha. destruct (decide (n = NodeID e)) as [->|Hne].
    + apply view_active in Ha as Hx. destruct Hx as (x & Hx & _).
      destruct Hcase as [[He [(_ & _ & _ & ->)|[Hno ->]]]|[[Hd ->]|(H1 & H2 & ->)]].
      * left. set_solver.
      * destruct Hno as [?|[?|?]]; congruence.
      * right. destruct Hlast as [Hla|Hla]; [|by rewrite Ha in Hla]. rewrite Ha in Hla. destruct Hd as [Hd|Hd]; rewrite Hd in Hla; done.
      * destruct (li_kept0 _ Hs Hl Hp Ha) as [?|Hk]; [by left|right]. apply (Htail _ _ Hk). by right.
    + destruct (li_kept0 _ Hs Hl Hp Ha) as [Hk|Hk].
      * left. destruct Hcase as [[He [(_ & _ & _ & ->)|[Hno ->]]]|[[Hd ->]|(H1 & H2 & ->)]]; [set_solver|done|set_solver|done].
      * right. apply (Htail _ _ Hk). by left.
Qed.

(** Every run is in the invariant. *)
Lemma start_roles c c' : rtc cstep c c' → roles c.1 → NoDup (NodeID <$> c.2) → ROpen c.1 → roles c'.1.
Proof.
  induction 1 as [|c c1 c2 Hs _ IH]; [done|]. intros Hr Hd Ho. destruct c as [r p], c1 as [r1 p1]. cbn [fst snd] in *.
  destruct Hs as [ev Hc Hr1 _|e Hp]; cbn [fst] in *.
  - inversion Hc as [? ? ? ? Hl Hf]; subst. destruct (lcall_tracks O _ _ _ Ho Hl) as (Ho1 & _). apply IH; [done|by apply fresh_NoDup|done].
  - inversion Hp as [? ? ? ? ? _ Hpub]; subst. destruct (publish_tracks O _ _ _ Ho Hpub) as (Ho1 & Hn & _).
    apply IH; [|by apply NoDup_drop in Hd as [_ Hd]|done]. intros id n. rewrite Hn. apply Hr.
Qed.

Lemma start_LInv r0 p0 l0 : rtc cstep (NewMemRegistry, []) (r0, p0) → wireTransportWarmup true r0 = Returns (Some l0) →
  ∃ v, LInv v [] p0 l0.
Proof.
  intros H0 Hw. destruct (start_CInv _ _ H0) as [v HI]; cbn [fst snd] in *.
  { exists (view NewMemRegistry). split; [apply NewMemRegistry_open|apply NoDup_nil_2|done..]. }
  assert (roles r0) as Hr.
  { apply (start_roles _ _ H0); cbn; [intros id n Hn; cbn in Hn; by rewrite lookup_empty in Hn|apply NoDup_nil_2|apply NewMemRegistry_open]. }
  unfold wireTransportWarmup in Hw. cbn [negb] in Hw. destruct (Watch r0) as [[ch r1]|] eqn:HW; [|done]. injection Hw as <-.
  destruct HI as [Ho Hd Hv Hc]. destruct (lcall_tracks O r0 None r1 Ho (lc_watch _ _ _ HW)) as (Ho1 & _).
  apply locked_Returns in HW as [HW _]. injection HW as <- <-.
  exists v. split; cbn [reg watch cmds scanned]; try done.
  - cbn. apply elem_of_app. right. by left.
  - cbn. by rewrite lookup_insert_eq.
Qed.

Lemma rtc_LInv r0 p0 l0 lp : rtc cstep (NewMemRegistry, []) (r0, p0) → wireTransportWarmup true r0 = Returns (Some l0) →
  rtc lstep (l0, p0) lp → ∃ v q, LInv v q lp.2 lp.1.
Proof.
  intros H0 Hw Hl. destruct (start_LInv _ _ _ H0 Hw) as [v0 H1]. clear H0 Hw.
  assert (∃ v q, LInv v q (l0, p0).2 (l0, p0).1) as H2 by (by exists v0, []). clear v0 H1.
  induction Hl as [|x y z Hst _ IH]; [done|]. apply IH. destruct H2 as (v & q & HI).
  destruct Hst as [ev l p r' p' Hc Hro Hor|e l p r' p' q' Hp Hq Hz|cs l p Hsc Hwa|e r' cs l p Hsc Hre Hon]; cbn [fst snd] in *.
  - eexists _, _. by eapply change_LInv.
  - assert (q' = q) as -> by (pose proof (li_buf _ _ _ _ HI); congruence). eexists _, _. by eapply publish_LInv.
  - eexists _, _. by apply scan_LInv.
  - destruct (event_LInv _ _ _ _ _ _ _ HI Hsc Hre Hon) as (q' & _ & HI'). eauto.
Qed.

(** C39. The transport's connections follow the in-process registry: whatever
    calls the nodes make before and after the watch is set up (register, drain,
    leave, beat), however they overlap with each other, with the first scan and
    with the handling of the changes, and in whatever order the calls of
    different nodes publish what they changed: once the first scan is done,
    every change is published and the channel has been read, the peers the
    transport has been told to keep a connection to are exactly the other nodes
    that are registered as active under the peer role.  (A node keeps its role,
    makes its next change after its last one was published and is marked
    drained only after it drained; at most 64 changes are unread or being
    handled; the registry is not closed.) *)
Theorem links_follow_registry r0 p0 l0 l :
  rtc cstep (NewMemRegistry, []) (r0, p0) → wireTransportWarmup true r0 = Returns (Some l0) → rtc lstep (l0, p0) (l, []) →
  scanned l = true → chanBuf (reg l) !! watch l = Some [] →
  ∀ n, n ∈ wanted (cmds l) ↔
    n ≠ localID ∧ ∃ x, nodes (reg l) !! n = Some x ∧ Role x = peerRole ∧ State x = StateActive.
Proof.
  intros H0 Hw Hl Hs Hb n. destruct (rtc_LInv _ _ _ _ H0 Hw Hl) as (v & q & HI). cbn [fst snd] in HI.
  assert (q = []) as -> by (pose proof (li_buf _ _ _ _ HI); congruence). split.
  - intros Hn. destruct (li_peer _ _ _ _ HI n Hn) as [Hl1 Hp]. split; [done|].
    destruct (li_gone _ _ _ _ HI n Hn) as [(x & Hx & Hst)%view_active|(e & He%elem_of_nil & _)]; [|done].
    exists x. split_and!; [done| |done]. rewrite <- Hp. by apply (li_roles _ _ _ _ HI).
  - intros (Hl1 & x & Hx & Hro & Hst). destruct (li_kept _ _ _ _ HI n Hs Hl1) as [?|(e & He%elem_of_nil & _)]; [| |done|done].
    + rewrite <- Hro. symmetry. by apply (li_roles _ _ _ _ HI).
    + unfold view. by rewrite Hx.
Qed.
End Warmup.

(** ** A peer that could not be dialed *)

Lemma scan_todo {H : Type} now ids : ∀ t : @TCPNodeTransport H, ∀ n, n ∈ (scan now ids t).1 → n ∈ ids.
Proof.
  induction ids as [|i ids IH]; intros t n; [done|]. cbn [scan].
  destruct (match retryAt t !! i with Some next => bool_decide (now < next) | None => false end); [intros Hn; right; by eapply IH|].
  destruct (outConns t !! i) as [c|].
  - destruct (isDead c t); [|intros Hn; right; by eapply IH]. destruct (scan now ids _) as [todo t'] eqn:E. cbn.
    intros [->|Hn]%elem_of_cons; [by left|]. right. apply (IH (set_out (delete i (outConns t)) t)). by rewrite E.
  - destruct (scan now ids t) as [todo t'] eqn:E. cbn. intros [->|Hn]%elem_of_cons; [by left|]. right. apply (IH t). by rewrite E.
Qed.

(** Finding: the warm-up of a peer that has never been connected, when its dial
    fails, is not retried: the peer is not among the active peers the
    reconnect loop looks at, at any later time, although the time of the next
    attempt was recorded. *)
Theorem failed_warmup_forgotten {H : Type} now later n ids (t : @TCPNodeTransport H) :
  n ∉ activePeers t → (∀ i, i ∈ ids → i ∈ activePeers (dialFailed now n t)) →
  is_Some (retryAt (dialFailed now n t) !! n) ∧ n ∉ (scan later ids (dialFailed now n t)).1.
Proof.
  intros Hn Hids. split; [cbn; by rewrite lookup_insert_eq|]. intros Hin. apply Hn. by apply Hids, (scan_todo later ids _ _ Hin).
Qed.

(** ** A gateway that meets a logic node *)

Definition demoRole (id : string) : string := if decide (id = "gw-1"%string) then RoleGateway else RoleLogic.
Definition logic1 : NodeInfo := mkNode "logic-1" RoleLogic "10.0.0.2:7002" ["snake"] StateActive 0 None None.
Definition demoL0 : link :=
  match wireTransportWarmup true NewMemRegistry with Returns (Some l) => l | _ => mkLink NewMemRegistry 0 [] false end.
(** The node registers, the scan finds it, only then its change is published
    and handled. *)
Definition joinEv : ChangeEvent := mkEvent "logic-1" 0 StateActive.
Definition demoL1 : link :=
  mkLink (match registerLocked 5 logic1 (reg demoL0) with Returns (_, r, _) => r | Blocks => reg demoL0 end) (watch demoL0) [] false.
Definition demoL2 : link := mkLink (reg demoL1) (watch demoL0) [CWarmup "logic-1"] true.
Definition demoL3 : link :=
  mkLink (match publish joinEv (reg demoL2) with Ok r => r | _ => reg demoL2 end) (watch demoL0) (cmds demoL2) true.
Definition demoL4 : link :=
  mkLink (match recv (watch demoL3) (reg demoL3) with Some (_, r) => r | None => reg demoL3 end) (watch demoL0)
    [CWarmup "logic-1"; CWarmup "logic-1"] true.

Lemma demo_run : rtc (lstep "gw-1" RoleLogic demoRole) (demoL0, []) (demoL4, []).
Proof.
  eapply rtc_l; [|eapply rtc_l; [|eapply rtc_l; [|eapply rtc_l; [|apply rtc_refl]]]].
  - apply (ls_change _ _ _ (Some joinEv) demoL0 [] (reg demoL1) [joinEv]).
    + apply (rc_change _ [] (Some joinEv)); [eapply (lc_register _ 5 logic1); vm_compute; reflexivity|by intros ? _ ?%elem_of_nil].
    + intros id n Hn. change (nodes (reg demoL1)) with (<["logic-1" := stamp 5 logic1]> (∅ : gmap string NodeInfo)) in Hn.
      apply lookup_insert_Some in Hn as [[<- <-]|[_ Hn]]; [reflexivity|]. by rewrite lookup_empty in Hn.
    + intros e [= <-]. by left.
  - apply (ls_scan "gw-1" RoleLogic demoRole [CWarmup "logic-1"] demoL1); vm_compute; reflexivity.
  - apply (ls_publish "gw-1" RoleLogic demoRole joinEv demoL2 [joinEv] (reg demoL3) [] []); [|vm_compute; reflexivity|vm_compute; reflexivity].
    apply (rc_publish _ [] _ []); vm_compute; reflexivity.
  - eapply (ls_event "gw-1" RoleLogic demoRole joinEv _ [CWarmup "logic-1"] demoL3); vm_compute; reflexivity.
Qed.

Lemma links_follow_registry_witness : "logic-1"%string ∈ wanted (cmds demoL4) ∧ nodes (reg demoL4) !! "logic-1"%string = Some (stamp 5 logic1).
Proof.
  split; [|vm_compute; reflexivity].
  apply (links_follow_registry "gw-1" RoleLogic demoRole ltac:(vm_compute; discriminate) NewMemRegistry [] demoL0 demoL4).
  - apply rtc_refl.
  - vm_compute. reflexivity.
  - exact demo_run.
  - reflexivity.
  - vm_compute. reflexivity.
  - split; [by vm_compute|]. exists (stamp 5 logic1). by split_and!; vm_compute.
Defined.
