(* ===== verification/Assembly.v ===== *)
(** * What a configuration assembles (cmd/server/main.go: main, buildRegistry;
    buildClusterGateway of internal/app/role.go)

    The role decides which of Build, BuildGateway and BuildLogic runs, and the
    addresses in the cluster section decide registry, routes and transport of a
    node.  [pinged] is whether Redis answers the first ping, [listens] whether
    the internal address can be bound; a failure of either ends the process. *)

From S2P Require Import Prelude Config ClusterLink.
Import Cfg.

Inductive assembly := StandaloneServer | GatewayNode | LogicNode.
Inductive registryKind := MemNodes | RedisNodes (ttl : Z).

Definition buildRegistry (pinged : bool) (c : Cfg.Config) : option registryKind :=
  if decide (cRedisAddr (Cluster c) = ""%string) then Some MemNodes
  else if pinged then Some (RedisNodes (Cfg.NodeTTL (Cluster c))) else None.

(** The routes are shared exactly when there is a Redis client. *)
Definition sharesRoutes (r : registryKind) : bool := match r with MemNodes => false | RedisNodes _ => true end.

Definition assemble (pinged listens : bool) (c : Cfg.Config)
    : option (assembly * option (registryKind * (transportKind * routesKind))) :=
  if decide (Role c ∈ ["standalone"; ""]%string) then Some (StandaloneServer, None) else
  if decide (Role c ∈ ["gateway"; "logic"]%string) then
    r ← buildRegistry pinged c;
    g ← buildClusterGateway (InternalAddr (Cluster c)) (sharesRoutes r) listens;
    Some (if decide (Role c = "gateway"%string) then GatewayNode else LogicNode, Some (r, g))
  else None.

(** Every accepted configuration assembles when Redis answers and the address is
    free, into the node its role names: alone, or with the registry and the
    routes of Redis if it names one and with sockets between the nodes if it
    names an internal address. *)
Theorem accepted_assembles c : Validate c = None →
  assemble true true c =
    if decide (Role c = "standalone"%string) then Some (StandaloneServer, None) else
    Some (if decide (Role c = "gateway"%string) then GatewayNode else LogicNode,
          Some (if decide (cRedisAddr (Cluster c) = ""%string) then MemNodes else RedisNodes (Cfg.NodeTTL (Cluster c)),
                (if decide (InternalAddr (Cluster c) = ""%string) then MemTransport else TCPTransport (InternalAddr (Cluster c)),
                 if decide (cRedisAddr (Cluster c) = ""%string) then OwnRoutes else GivenRoutes))).
Proof.
  unfold Validate. rewrite firstFailure_None. intros Hv. inversion Hv as [|? ? Hr _ E]; subst. cbn in Hr.
  apply negb_false_iff in Hr. unfold oneOf in Hr. apply bool_decide_eq_true in Hr.
  unfold assemble, buildRegistry, buildClusterGateway, sharesRoutes.
  repeat (apply elem_of_cons in Hr as [Hr|Hr]); [..|by apply elem_of_nil in Hr]; rewrite Hr; cbn;
    try done; by destruct (decide (cRedisAddr _ = _)), (decide (InternalAddr _ = _)).
Qed.

(** Finding. A gateway without a node id is documented to get one; its
    configuration is refused. *)
Theorem gateway_needs_id c : Role c = "gateway"%string → NodeID (Cluster c) = ""%string → Validate c ≠ None.
Proof.
  intros Hr Hn. unfold Validate. rewrite firstFailure_None. intros Hv. rewrite Forall_forall in Hv.
  assert ((empty (NodeID (Cluster c)), ENodeID) ∈ (if String.eqb (Role c) "standalone" then [] else clusterChecks c)) as Hin.
  { rewrite Hr. cbn. by left. }
  specialize (Hv (empty (NodeID (Cluster c)), ENodeID) ltac:(apply elem_of_app; by right)).
  cbn in Hv. rewrite Hn in Hv. done.
Qed.
